(* ===== verification/_CoqProject ===== *)
-Q . S2P
Prelude.v
Pages.v
MappedRange.v
RangeProps.v
AddressSpace.v
SpaceInv.v
RemoveRangeProps.v
IndexProps.v
MapChange.v
Lookup.v
ReadProps.v
WriteProps.v
HoleProps.v
CloneProps.v
SpaceTheorems.v
Allocators.v
AllocatorProps.v
FileCache.v
ShadowMemory.v
GuestMemory.v
Tasks.v
MemoryInstance.v
LinuxTasks.v
SystemCalls.v
ArchAbi.v
Futex.v
FutexProps.v
LinuxMM.v
LinuxThread.v
ThreadProps.v
LinuxSys.v
LinuxIO.v
IOProps.v
MMProps.v
LinuxFS.v
FSProps.v
LinuxNet.v
NetProps.v
Dispatch.v
Tools.v
CodeCache.v
CodeCacheProps.v
Decoder.v
DecoderProps.v
Lifter.v
LifterProps.v
Executor.v
ExecutorProps.v
ProgramSnapshot.v
Workspace.v
WorkspaceProps.v
Snapshot.v
MapsProps.v
SnapshotProps.v
DataFlow.v
DataFlowProps.v
Coverage.v
BranchProps.v
BranchTheorems.v
ValueCoverage.v
TaintSymbols.v
TaintTracker.v
TaintProps.v
TaintTheorems.v
GepExpansion.v
LoadBinary.v
VxWorks.v
KVM.v
TraceIndex.v
MemoryOps.v
Execute.v
ExecuteProps.v
Fuzzer.v
LinuxRuntime.v
Coroutine.v
RuntimeAsm.v
Intrinsics.v
Compiler.v
Hashing.v
TaintModule.v
