(* ===== verification/Prelude.v ===== *)
(** * vmill: a verification development

    vmill runs snapshots of programs.  It decodes the machine code of a guest
    process from an emulated address space, lifts it to LLVM bitcode with
    remill, compiles and caches the bitcode, and executes it as coroutines
    ("tasks") on top of an emulated operating system (the "runtime"), whose
    system calls act on the emulated address space and on the host.

    The development translates the C++ of [src/vmill], of the snapshotter and
    of the plugins of [src/tools] into executable Rocq definitions, one file
    per component, and proves what makes each component correct.  Names
    are those of the source wherever possible.

    ** How to read it

    Code that can stop or misbehave returns an [outcome] (this file): [Ok],
    [Fatal] (a failed [CHECK]), [Undefined] (undefined behaviour of C++) or
    [Diverges] (a loop that does not reach its exit within its fuel).  State is
    passed explicitly; addresses, sizes and registers are [Z], with the
    wrap-around of the C++ type written out ([wrap64], [not64], ...).
    Theorems say that operations return [Ok]: totality is always part of the
    claim.  A component that others use through an interface is a type class
    ([MemoryOps] and [MemoryLaws], [TranslationCache] and
    [TranslationCacheLaws]); clients are verified against the class, and the
    implementation discharges it.

    A part that stands beside the one a file is named after is a Module at the
    end of that file: [RangeClasses] in [RangeProps], [CodeVersions] in
    [SpaceTheorems], [ShadowSignals] in [ShadowMemory], [ToolClasses] and
    [HostTools] in [Tools], [HyperCalls] in [Dispatch], [RegisterLog] in
    [Hashing], [SnapshotMain] in [Snapshot], [CoverageTools] in [Fuzzer], and
    [Qemu] in [VxWorks].

    ** Guest memory ([src/vmill/Program])

    - [Pages]: page constants and the page loop.
    - [MappedRange] ([MappedRange.{h,cpp}]): invalid, array-backed, empty and
      copy-on-write ranges, as objects of a heap, because ranges are shared
      and change their class in place.  [RangeProps]: well-formed heaps.
    - [AddressSpace] ([AddressSpace.{h,cpp}]): every operation.
    - [SpaceInv]: the representation invariant [wf_space] and the abstract
      memory [abs : address -> option byte] that specifies a space.
      [RemoveRangeProps], [IndexProps], [MapChange], [Lookup], [ReadProps],
      [WriteProps], [HoleProps] and [CloneProps] prove that each operation
      preserves the invariant and what it does to [abs]; [SpaceTheorems]
      collects the promises: mapping and unmapping refine their abstract
      operations, reads and writes are exact, clones are isolated, holes are
      free, instruction bytes come from executable pages only.  It also states
      where the code departs from them (a map cut on its left is lost).
    - [CodeVersions]: versions of code ranges ([ComputeCodeVersion]).
    - [RangeClasses]: the classes of ranges one by one, with their virtual
      tables and destructors, and their agreement with [MappedRange].
    - [ShadowMemory] ([ShadowMemory.{h,cpp}]): shadow bits mapped on demand;
      [ShadowSignals]: the one instance and its [SIGSEGV] handler.

    ** Utilities ([src/vmill/Util], [src/vmill/Workspace])

    - [Allocators] ([AreaAllocator], [ZoneAllocator]) and [AllocatorProps]:
      the live blocks of any history are disjoint and zeroed.
    - [FileCache] ([FileBackedCache.h]): what is appended is read back.
    - [Tools] ([Workspace/Tool.{h,cpp}], [Util.cpp]) and [HostTools]
      ([Executor/AsyncIO.cpp], [Executor/Memory.cpp]): trees of proxy and
      compositor tools act as the list of their parts.  [ToolClasses]: the
      same tools as objects with virtual functions, and wrapped symbols.
    - [Hashing] ([Hash.{h,cpp}], [BC/Trace.h], [Timer.{h,cpp}]): hashes of
      traces, names of lifted functions, timers.

    ** Snapshots ([src/Snapshot.cpp], [src/vmill/Workspace])

    - [ProgramSnapshot] ([Program/Snapshot.{proto,cpp}]): the messages.
    - [Snapshot] ([src/Snapshot.cpp], [Arch/*/Snapshot.cpp]): running the
      tracee to a breakpoint, its memory map, memory and threads.
      [SnapshotMain]: the command line, and the logged command, which can be
      read back.  [MapsProps]:
      scanning a printed line of the memory map recovers it, and ranges have
      distinct files.  [SnapshotProps]: what the files hold, the breakpoint,
      and the round trip from a tracee to an executor.
    - [Workspace] ([Workspace/Workspace.cpp]): the paths of a workspace, and
      loading a snapshot into an executor.  [WorkspaceProps]: the spaces that
      are loaded hold exactly the page ranges of the snapshot (for spaces
      without a parent; the branch that clones a parent is modelled, but no
      theorem is about it).

    ** From machine code to translations ([src/vmill/Arch], [BC], [Executor])

    - [Decoder] ([Arch/Decoder.cpp]) and [DecoderProps]: recursive decoding
      terminates and finds exactly the traces and instructions that direct
      control flow reaches.
    - [Lifter] ([BC/Lifter.cpp]) and [LifterProps]: lifted functions follow
      the decoded control flow (and where they cannot: conditional
      asynchronous hypercalls, of which the decoder follows one target, and
      instructions remill cannot lift).
    - [CodeCache] ([Executor/CodeCache.{h,cpp}]) and [CodeCacheProps]:
      sections, the index of translations (what a look-up finds after a module
      was linked), symbol resolution, libraries.
    - [Compiler] ([BC/Optimize.cpp], [BC/Compiler.cpp]): what is done to a
      module before LLVM optimizes and compiles it; the constructors that are
      moved out of the module's own table are the ones the code cache runs.
    - [TraceIndex]: the index section of a module, from the lifter's entries
      to what the code cache publishes.
    - [Executor] ([Executor/Executor.{h,cpp}]) and [ExecutorProps]: a task at
      decodable code gets the translation of exactly its trace.
    - [Execute] ([src/Execute.cpp], [src/Virtualize.cpp], and what
      [Executor] runs of a runtime): the entry points.  A runtime is a class
      of its operations ([vmill_init], [vmill_create_task], [vmill_resume],
      [vmill_fini]); [ExecuteProps] states what one must promise
      ([RuntimeLaws]) and what one run of it is ([execution]), and proves that
      executing a snapshot loads its spaces and makes such runs; [LinuxRuntime]
      discharges the class for the emulated Linux and adds the rounds of its
      scheduler.
    - [Tasks] ([Runtime/Task.h], [Executor/Runtime.cpp],
      [Executor/Coroutine.cpp]): status, faults and resumption of a task as a
      step relation with its invariant.
    - [Coroutine] ([Executor/Coroutine.{h,cpp}], [Arch/X86/Coroutine.S]): the
      stack switch, instruction by instruction.  Whatever sequence of switches
      is made, every context gets its registers and stack back, and the
      rounding modes of tasks stay apart.
    - [MemoryInstance] ([Executor/Runtime.cpp]): the memory intrinsics on
      address spaces, the instance of [MemoryOps].  [RuntimeAsm]
      ([Arch/X86/Runtime.S]): the assembly versions of the integer accesses
      agree with them, up to the stale value of a read that faults.
    - [Intrinsics] ([Executor/Runtime.cpp]): the log file of system calls,
      undefined values, barriers, the flags of the floating point unit.
    - [RegisterLog] ([Arch/Arch.cpp], [Arch/*/Log.cpp]): logged registers.
    - [MemoryOps]: whatever sequence of memory operations a program makes, on
      any of the spaces of the executor, keeps every space well formed and
      leaves the others' bytes alone; in particular a process and its fork
      stay apart.

    ** The emulated Linux ([src/vmill/Runtime])

    - [GuestMemory] ([Generic/Memory.cpp], [Generic/Intrinsics.h]): the
      interface of guest memory and the copying functions on it.
    - [LinuxTasks] ([Linux/Run.{h,cpp}], [Generic/Run.cpp]): the two linked
      structures of tasks, and the scheduler.
    - [SystemCalls], [ArchAbi] ([Generic/SystemCallABI.h], [Linux/X86.cpp],
      [Linux/AArch64.cpp]): calling conventions and hypercalls; a handler is a
      function of the monad [sys].
    - [HyperCalls] ([Generic/X86.cpp], [Linux/X86.cpp], [Linux/AArch64.cpp]):
      the synchronous hypercalls, such as [cpuid] and the time stamp counter.
    - [Futex], [FutexProps] ([Linux/Futex.cpp]); [LinuxThread], [ThreadProps]
      ([Linux/Thread.cpp]); [LinuxMM], [MMProps] ([Linux/MM.cpp]);
      [LinuxSys] ([Linux/Process.cpp], [Sys.cpp], [Time.cpp], [Signal.cpp],
      ...); [LinuxIO], [IOProps] ([Linux/IO.cpp] and the first calls of
      [Linux/FS.cpp]); [LinuxFS], [FSProps] ([Linux/FS.cpp]); [LinuxNet],
      [NetProps] ([Linux/Net.cpp]).  The theorems go from the arguments in
      registers to guest memory, the task list and what the host is asked.
    - [Dispatch] ([Linux/SystemCall.cpp]): the three dispatchers.

    ** Object files and VxWorks

    - [LoadBinary] ([src/Load.cpp]): making a snapshot of an object file;
      when LLVM places all its sections, the page ranges describe them.
    - [VxWorks] ([Runtime/VxWorks], [Runtime/Generic/X86.cpp]): the runtime
      with one task, its hypercalls and ports, and the ring of traced
      registers.
    - [Qemu] ([Runtime/qemu_x86.cpp]): the runtime that hands over to QEMU.

    ** Plugins ([src/tools])

    - [Coverage]: the instructions of a function that the coverage tools
      tell apart, with their execution, and the instrumentation of branches
      ([Fuzzer/BranchCoverage.cpp]); [BranchProps], [BranchTheorems]: a
      function instrumented for branch coverage behaves as before and reports
      the edges it takes.  [ValueCoverage] ([Fuzzer/ValueCoverage.cpp]):
      comparisons report their operands.
    - [Fuzzer] ([Fuzzer/Fuzzer.cpp], [Location.{h,cpp}]): the counters of
      edges, and the location counter that lives in a file between runs.
    - [CoverageTools]: the functions the coverage tools declare, offer and
      call are the fuzzer's whenever there is a fuzzer, with the same types.
    - [DataFlow] ([TaintTracker/DataFlowTracker.cpp]) and [DataFlowProps]:
      the transfer functions of the data flow tracker over shadow memory.
    - [TaintSymbols], [TaintTracker], [GepExpansion]
      ([TaintTracker/TaintTracker.cpp]): the names of taints and transfer
      functions, the code the visitors insert, unfolding constant
      expressions, expanding address computations.  [TaintProps] runs the
      inserted code against a shadow interpreter of the program;
      [TaintTheorems] concludes that an instrumented block follows it.
      [TaintModule]: the functions of a module, while instrumenting them
      declares new ones.
    - [KVM] ([KVM/KVM.cpp]): the emulation of [/dev/kvm].

    ** Parameters and fuel

    What is not in the repository is a parameter: the host kernel (answers of
    [mmap], files, sockets, clocks), remill's instruction decoder and lifter,
    LLVM's linker and compiler, the hash function and the lifted code itself,
    which is generated at run time.  Hypotheses about them state documented
    behaviour only and are named in the theorems.  Loops over data recurse on
    the data or on a computed bound.  The fuel of a page loop is the number of
    pages between its bounds, so it runs out only where the loop of the code
    wraps around and does not end (a limit in the last page); the same holds
    of the bulk accesses; decoding has the explicit bounds of
    [DecodeTraces_correct]; loops over linked lists take their fuel as an
    argument, and the theorems hold for every fuel larger than the list.

    ** Not modelled

    - Code of others that the drivers call: LLVM's passes, code generator and
      runtime linker, remill, xxHash, QEMU, the generated code that writes and
      parses protocol buffers, and the parser of command lines.
    - The kernel headers copied for the KVM plugin (declarations of the
      interface, of which the plugin uses some constants).
    - Of the taint tracker, replacing the uses of an expanded address
      computation in the rest of the function, and so the loop over unfolding
      and expanding.
    - Inside modelled files: the text of logging and [strace] output,
      registering exception frames and the debugger's interface, declarations
      without code, code disabled by [#if 0] or commented out, and the
      branches for macOS.
*)

From Stdlib Require Import ZArith Lia.
From stdpp Require Export base tactics numbers list gmap strings sorting.
#[global] Open Scope Z_scope.
#[global] Set Default Goal Selector "!".

(** ** Outcomes of effectful code

    [Ok a] is a normal return.  [Fatal] is a failed [CHECK] or a
    [LOG(FATAL)], which stops the process.  [Undefined] is undefined
    behaviour of C++ (a read through a null, uninitialised or out-of-bounds
    pointer).  [Diverges] is a loop that does not reach its exit within the
    fuel the definition gives it. *)

Inductive outcome (A : Type) : Type :=
| Ok (a : A)
| Fatal
| Undefined
| Diverges.
Arguments Ok {A} a.
Arguments Fatal {A}.
Arguments Undefined {A}.
Arguments Diverges {A}.

#[global] Instance outcome_ret : MRet outcome := @Ok.
#[global] Instance outcome_bind : MBind outcome := fun A B f m =>
  match m with
  | Ok a => f a
  | Fatal => Fatal
  | Undefined => Undefined
  | Diverges => Diverges
  end.

(** [CHECK(b)]: continue when [b] holds, stop the process otherwise. *)
Definition check (b : bool) : outcome unit := if b then Ok tt else Fatal.

(** Following a pointer: a missing object is undefined behaviour. *)
Definition deref_opt {A} (o : option A) : outcome A :=
  match o with Some a => Ok a | None => Undefined end.

Definition is_ok {A} (o : outcome A) : bool :=
  match o with Ok _ => true | _ => false end.

Lemma bind_ok {A B} (m : outcome A) (f : A -> outcome B) b :
  (m ≫= f) = Ok b -> exists a, m = Ok a /\ f a = Ok b.
Proof. destruct m; cbn; intros; eauto; discriminate. Qed.

Lemma bind_Ok_l {A B} (a : A) (f : A -> outcome B) : (Ok a ≫= f) = f a.
Proof. reflexivity. Qed.

Lemma check_ok b u : check b = Ok u -> b = true.
Proof. destruct b; [done|discriminate]. Qed.

Lemma check_true b : b = true -> check b = Ok tt.
Proof. by intros ->. Qed.

Lemma deref_opt_ok {A} (o : option A) a : deref_opt o = Ok a -> o = Some a.
Proof. destruct o; cbn; congruence. Qed.

(** ** Fixed-width arithmetic

    A [uint64_t] is a [Z] in [[0, 2^64)]; the operations that can leave that
    interval wrap around explicitly. *)

Definition two64 : Z := 18446744073709551616.
Definition two32 : Z := 4294967296.

Definition wrap64 (z : Z) : Z := z mod two64.
Definition wrap32 (z : Z) : Z := z mod two32.
Definition add64 (a b : Z) : Z := wrap64 (a + b).
Definition sub64 (a b : Z) : Z := wrap64 (a - b).
Definition mul64 (a b : Z) : Z := wrap64 (a * b).
Definition not64 (a : Z) : Z := two64 - 1 - a.

(** [static_cast<int32_t>] and [static_cast<int64_t>] of a wrapped value. *)
Definition to_signed (bits z : Z) : Z :=
  let m := z mod 2 ^ bits in if m <? 2 ^ (bits - 1) then m else m - 2 ^ bits.

Definition u64 (z : Z) : Prop := 0 <= z < two64.

(** Unfolds the arithmetic wrappers so that [lia] sees plain inequalities. *)
Ltac unfold_words := unfold u64, add64, sub64, mul64, wrap64, wrap32, two64, two32 in *.

Lemma add64_small a b : 0 <= a + b < two64 -> add64 a b = a + b.
Proof. intros. by apply Z.mod_small. Qed.

Lemma sub64_small a b : 0 <= a - b < two64 -> sub64 a b = a - b.
Proof. intros. by apply Z.mod_small. Qed.

Lemma mul64_small a b : 0 <= a * b < two64 -> mul64 a b = a * b.
Proof. intros. by apply Z.mod_small. Qed.

Lemma wrap64_u64 z : u64 (wrap64 z).
Proof. unfold u64, wrap64. apply Z.mod_pos_bound. done. Qed.

Lemma wrap64_small z : u64 z -> wrap64 z = z.
Proof. apply Z.mod_small. Qed.

Create HintDb words.
Create HintDb space.
Create Rewrite HintDb outcome.
#[export] Hint Resolve wrap64_u64 : words.
#[export] Hint Rewrite @bind_Ok_l : outcome.

(** ** Bit masks *)

Lemma land_not64_ones n a :
  0 <= n <= 64 -> u64 a -> Z.land a (not64 (2 ^ n - 1)) = a - a mod 2 ^ n.
Proof.
  intros Hn Ha. unfold u64, two64 in Ha.
  assert (Hm : not64 (2 ^ n - 1) = Z.ldiff (Z.ones 64) (Z.ones n)).
  { unfold not64. change (two64 - 1) with (Z.ones 64).
    replace (2 ^ n - 1) with (Z.ones n) by (rewrite Z.ones_equiv; lia).
    apply Z.sub_nocarry_ldiff.
    apply Z.bits_inj'. intros i Hi. rewrite Z.ldiff_spec, Z.bits_0.
    destruct (decide (i < n)).
    - by rewrite !Z.ones_spec_low by lia.
    - by rewrite (Z.ones_spec_high n) by lia. }
  assert (Hd : a - a mod 2 ^ n = Z.ldiff a (Z.ones n)).
  { rewrite Z.ldiff_ones_r, Z.shiftl_mul_pow2, Z.shiftr_div_pow2 by lia.
    pose proof (Z.div_mod a (2 ^ n)). lia. }
  rewrite Hm, Hd. apply Z.bits_inj'. intros i Hi.
  rewrite Z.land_spec, !Z.ldiff_spec.
  destruct (decide (i < 64)).
  - rewrite (Z.ones_spec_low 64) by lia. done.
  - replace (Z.testbit a i) with false; [done|]. symmetry.
    destruct (decide (a = 0)) as [->|]; [apply Z.bits_0|].
    apply Z.bits_above_log2; [lia|].
    apply Z.lt_le_trans with 64; [|lia]. apply Z.log2_lt_pow2; lia.
Qed.

(** ** Strings *)

Lemma string_app_assoc (a b c : string) : (a +:+ b) +:+ c = a +:+ (b +:+ c).
Proof. induction a as [|x a IH]; [done|]. change (String x ((a +:+ b) +:+ c) = String x (a +:+ (b +:+ c))). by rewrite IH. Qed.

(** ** Little-endian byte strings

    Multi-byte guest values are byte lists, least significant byte first; a
    byte is a [Z] in [[0, 256)]. *)

Definition byte_ok (b : Z) : Prop := 0 <= b < 256.

Fixpoint le_bytes (n : nat) (v : Z) : list Z :=
  match n with
  | O => []
  | S n => (v mod 256) :: le_bytes n (v / 256)
  end.

Fixpoint le_value (bs : list Z) : Z :=
  match bs with
  | [] => 0
  | b :: bs => b + 256 * le_value bs
  end.

Lemma length_le_bytes n v : length (le_bytes n v) = n.
Proof. revert v; induction n; intros; cbn; auto. Qed.

Lemma le_bytes_ok n v : Forall byte_ok (le_bytes n v).
Proof.
  revert v; induction n; intros; cbn; constructor; [|auto].
  unfold byte_ok. pose proof (Z.mod_pos_bound v 256). lia.
Qed.

Lemma le_value_le_bytes n v : le_value (le_bytes n v) = v mod 256 ^ Z.of_nat n.
Proof.
  revert v; induction n as [|n IH]; intros v; cbn [le_bytes le_value].
  - by rewrite Z.mod_1_r.
  - rewrite IH, Nat2Z.inj_succ, Z.pow_succ_r by lia.
    by rewrite Z.rem_mul_r by lia.
Qed.

Lemma le_value_bound bs : Forall byte_ok bs -> 0 <= le_value bs < 256 ^ Z.of_nat (length bs).
Proof.
  induction 1 as [|b bs Hb _ IH]; cbn [le_value length]; [done|].
  rewrite Nat2Z.inj_succ, Z.pow_succ_r by lia. unfold byte_ok in Hb. lia.
Qed.

Lemma le_bytes_le_value bs : Forall byte_ok bs -> le_bytes (length bs) (le_value bs) = bs.
Proof.
  induction 1 as [|b bs Hb _ IH]; cbn [le_value length le_bytes]; [done|].
  unfold byte_ok in Hb.
  replace (b + 256 * le_value bs) with (b + le_value bs * 256) by lia.
  rewrite Z.mod_add, Z.mod_small, Z.div_add, Z.div_small by lia.
  by rewrite Z.add_0_l, IH.
Qed.

(** ** Control of monadic goals *)

(** Splits every [m ≫= f = Ok _] hypothesis into its two halves. *)
Ltac inv_bind :=
  repeat match goal with
  | H : (_ ≫= _) = Ok _ |- _ =>
      let a := fresh "r" in let H1 := fresh "E" in
      apply bind_ok in H as (a & H1 & H); cbn beta in H
  | H : check _ = Ok ?u |- _ => apply check_ok in H; try destruct u
  | H : deref_opt _ = Ok _ |- _ => apply deref_opt_ok in H
  | H : Ok _ = Ok _ |- _ => injection H as H
  | H : mret _ = Ok _ |- _ => injection H as H
  | H : Fatal = Ok _ |- _ => discriminate H
  | H : Undefined = Ok _ |- _ => discriminate H
  | H : Diverges = Ok _ |- _ => discriminate H
  | p : (_ * _)%type |- _ => destruct p; cbn beta iota in *
  end.

(** Boolean comparisons become propositions [lia] can use. *)
Ltac bool_to_prop :=
  repeat match goal with
  | H : _ && _ = true |- _ => apply andb_true_iff in H as [? ?]
  | H : _ && _ = false |- _ => apply andb_false_iff in H
  | H : _ || _ = true |- _ => apply orb_true_iff in H
  | H : _ || _ = false |- _ => apply orb_false_iff in H as [? ?]
  | H : negb _ = true |- _ => apply negb_true_iff in H
  | H : negb _ = false |- _ => apply negb_false_iff in H
  | H : (_ <? _) = true |- _ => apply Z.ltb_lt in H
  | H : (_ <? _) = false |- _ => apply Z.ltb_ge in H
  | H : (_ <=? _) = true |- _ => apply Z.leb_le in H
  | H : (_ <=? _) = false |- _ => apply Z.leb_gt in H
  | H : (_ =? _) = true |- _ => apply Z.eqb_eq in H
  | H : (_ =? _) = false |- _ => apply Z.eqb_neq in H
  end.

(** Cases on the outermost boolean test of the goal. *)
Ltac case_bool :=
  match goal with
  | |- context [if ?b then _ else _] => let E := fresh "E" in destruct b eqn:E
  end.

(** ** Lists *)

Lemma Forall2_impl_in {A B} (P Q : A -> B -> Prop) l k :
  Forall2 P l k -> (forall x y, x ∈ l -> P x y -> Q x y) -> Forall2 Q l k.
Proof.
  induction 1 as [|x y l k HP _ IH]; intros HQ; constructor.
  - apply HQ; [by apply list_elem_of_here|done].
  - apply IH. intros x' y' ?. apply HQ. by apply list_elem_of_further.
Qed.

(** Two predicates that agree on the members of a list filter it alike. *)
Lemma filter_agree {A} (P Q : A -> Prop) `{forall x, Decision (P x)} `{forall x, Decision (Q x)} (l : list A) :
  (forall x, x ∈ l -> (P x <-> Q x)) -> filter P l = filter Q l.
Proof.
  induction l as [|a l IH]; intros Hag; [done|]. rewrite !filter_cons.
  rewrite IH by (intros x Hx; apply Hag; by right).
  destruct (decide (P a)) as [Hp|Hp], (decide (Q a)) as [Hq|Hq]; try done; exfalso; rewrite Hag in Hp by left; done.
Qed.
