(* ===== verification/Pages.v ===== *)
(** * Pages

    The page constants and helpers of [vmill/Program/AddressSpace.cpp] (the
    same constants are repeated in [MappedRange.cpp] and, for [addr_t], in
    [Runtime/Generic/Intrinsics.h]), and the loop
    [for (addr = base; addr < limit; addr += kPageSize)] that five functions
    of the address space share. *)

From S2P Require Import Prelude.

Definition kPageSize : Z := 4096.
Definition kPageShift : Z := kPageSize - 1.
Definition kPageMask : Z := not64 kPageShift.

Definition AlignDownToPage (addr : Z) : Z := Z.land addr kPageMask.

Definition RoundUpToPage (size : Z) : Z := Z.land (add64 size kPageShift) kPageMask.

(** The loop over pages.  [addr += kPageSize] is 64-bit addition, so a limit
    in the last page of the address space is never reached: the walk then has
    no result for any fuel. *)
Fixpoint page_walk (fuel : nat) (addr limit : Z) : option (list Z) :=
  if addr <? limit then
    match fuel with
    | O => None
    | S fuel => cons addr <$> page_walk fuel (add64 addr kPageSize) limit
    end
  else Some [].

(** As many iterations as there are page steps between the two bounds. *)
Definition page_fuel (addr limit : Z) : nat :=
  Z.to_nat ((limit - addr + kPageShift) / kPageSize).

Definition pages (addr limit : Z) : outcome (list Z) :=
  match page_walk (page_fuel addr limit) addr limit with
  | Some l => Ok l
  | None => Diverges
  end.

Definition aligned (a : Z) : Prop := a mod kPageSize = 0.

#[global] Instance aligned_dec a : Decision (aligned a).
Proof. unfold aligned. apply _. Defined.

(** ** Alignment *)

Lemma AlignDownToPage_eq a : u64 a -> AlignDownToPage a = a - a mod kPageSize.
Proof. intros. apply (land_not64_ones 12); [lia|done]. Qed.

Lemma AlignDownToPage_aligned a : u64 a -> aligned (AlignDownToPage a).
Proof.
  intros. unfold aligned. rewrite AlignDownToPage_eq by done.
  rewrite Zminus_mod, Z.mod_mod, Z.sub_diag by done. done.
Qed.

Lemma AlignDownToPage_range a :
  u64 a -> 0 <= AlignDownToPage a <= a /\ a < AlignDownToPage a + kPageSize.
Proof.
  intros Ha. rewrite AlignDownToPage_eq by done. unfold u64, kPageSize in *.
  pose proof (Z.mod_pos_bound a 4096). pose proof (Z.mod_le a 4096). lia.
Qed.

Lemma AlignDownToPage_u64 a : u64 a -> u64 (AlignDownToPage a).
Proof. intros Ha. pose proof (AlignDownToPage_range a Ha). unfold u64 in *. lia. Qed.

Lemma AlignDownToPage_id a : u64 a -> aligned a -> AlignDownToPage a = a.
Proof. intros ? Ha. rewrite AlignDownToPage_eq by done. unfold aligned in Ha. lia. Qed.

(** The page of an address is the only aligned page that contains it. *)
Lemma AlignDownToPage_unique a p :
  u64 a -> aligned p -> p <= a < p + kPageSize -> AlignDownToPage a = p.
Proof.
  intros Ha Hp Hr. rewrite AlignDownToPage_eq by done. unfold aligned, kPageSize in *.
  assert (a mod 4096 = a - p); [|lia].
  symmetry. apply (Z.mod_unique _ _ (p / 4096)); [lia|].
  pose proof (Z.div_mod p 4096). lia.
Qed.

Lemma RoundUpToPage_as_align s : RoundUpToPage s = AlignDownToPage (add64 s kPageShift).
Proof. done. Qed.

Lemma RoundUpToPage_eq s :
  0 <= s <= two64 - kPageSize ->
  RoundUpToPage s = (s + kPageShift) / kPageSize * kPageSize.
Proof.
  intros Hs. rewrite RoundUpToPage_as_align. unfold kPageShift, kPageSize, two64 in *.
  rewrite add64_small by (unfold two64; lia).
  rewrite AlignDownToPage_eq by (unfold u64, two64; lia). unfold kPageSize.
  pose proof (Z.div_mod (s + (4096 - 1)) 4096). lia.
Qed.

Lemma RoundUpToPage_range s :
  0 <= s <= two64 - kPageSize ->
  s <= RoundUpToPage s < s + kPageSize /\ aligned (RoundUpToPage s).
Proof.
  intros Hs. rewrite RoundUpToPage_eq by done. unfold aligned, kPageShift, kPageSize in *.
  rewrite Z.mod_mul by done.
  pose proof (Z.div_mod (s + (4096 - 1)) 4096).
  pose proof (Z.mod_pos_bound (s + (4096 - 1)) 4096). lia.
Qed.

(** Above [2^64 - 4096] the addition wraps and the rounded size is zero. *)
Lemma RoundUpToPage_overflow s : two64 - kPageSize < s < two64 -> RoundUpToPage s = 0.
Proof.
  intros Hs. rewrite RoundUpToPage_as_align. unfold kPageShift, kPageSize, two64 in *.
  replace (add64 s (4096 - 1)) with (s + 4095 - 18446744073709551616).
  - rewrite AlignDownToPage_eq by (unfold u64, two64; lia). unfold kPageSize.
    rewrite Z.mod_small by lia. lia.
  - unfold add64, wrap64, two64. apply (Z.mod_unique _ _ 1); lia.
Qed.

Lemma RoundUpToPage_aligned s : u64 s -> aligned (RoundUpToPage s) /\ u64 (RoundUpToPage s).
Proof.
  intros Hs. rewrite RoundUpToPage_as_align.
  assert (u64 (add64 s kPageShift)) by apply wrap64_u64.
  split; [by apply AlignDownToPage_aligned|by apply AlignDownToPage_u64].
Qed.

Lemma aligned_add a b : aligned a -> aligned b -> aligned (a + b).
Proof. unfold aligned. intros Ha Hb. by rewrite Zplus_mod, Ha, Hb. Qed.

Lemma aligned_sub a b : aligned a -> aligned b -> aligned (a - b).
Proof. unfold aligned. intros Ha Hb. by rewrite Zminus_mod, Ha, Hb. Qed.

Lemma aligned_wrap64 a : aligned a -> aligned (wrap64 a).
Proof.
  unfold aligned, wrap64, kPageSize, two64. intros Ha.
  rewrite Z.mod_mod_divide; [done|]. by exists 4503599627370496.
Qed.

Lemma aligned_add64 a b : aligned a -> aligned b -> aligned (add64 a b).
Proof. intros. by apply aligned_wrap64, aligned_add. Qed.

(** Two aligned numbers that differ are at least a page apart. *)
Lemma aligned_lt a b : aligned a -> aligned b -> a < b -> a + kPageSize <= b.
Proof.
  unfold aligned, kPageSize. intros Ha Hb ?.
  pose proof (Z.div_mod a 4096). pose proof (Z.div_mod b 4096). lia.
Qed.

Lemma aligned_u64_top a : u64 a -> aligned a -> a <= two64 - kPageSize.
Proof.
  intros Ha Hal. pose proof (aligned_lt a two64 Hal eq_refl (proj2 Ha)). lia.
Qed.

#[export] Hint Resolve AlignDownToPage_aligned AlignDownToPage_u64 aligned_add aligned_sub
  aligned_add64 : words.

(** ** Page walks *)

Lemma page_walk_more fuel addr limit l k :
  page_walk fuel addr limit = Some l -> page_walk (fuel + k) addr limit = Some l.
Proof.
  revert addr l. induction fuel as [|fuel IH]; intros addr l; cbn.
  - case_bool; [discriminate|]. destruct k; cbn; by rewrite E.
  - case_bool; [|done]. intros (l' & Hw & ->)%fmap_Some.
    by rewrite (IH _ _ Hw).
Qed.

Lemma page_walk_enough fuel addr limit :
  0 <= addr -> limit <= two64 - kPageSize -> (page_fuel addr limit <= fuel)%nat ->
  exists l, page_walk fuel addr limit = Some l /\
    forall p, p ∈ l <-> exists k, 0 <= k /\ p = addr + kPageSize * k /\ p < limit.
Proof.
  revert addr. induction fuel as [|fuel IH]; intros addr H0 Hl Hf; cbn.
  - case_bool; bool_to_prop.
    + unfold page_fuel, kPageShift, kPageSize in Hf.
      pose proof (Z.div_le_lower_bound (limit - addr + (4096 - 1)) 4096 1). lia.
    + eexists; split; [done|]. intros p. split; [by intros ?%not_elem_of_nil|].
      intros (k & ? & -> & ?). unfold kPageSize in *. lia.
  - case_bool; bool_to_prop.
    + rewrite add64_small by (unfold two64, kPageSize in *; lia).
      destruct (IH (addr + kPageSize)) as (l & -> & Hlk); [unfold kPageSize; lia|done| |].
      { unfold page_fuel, kPageShift, kPageSize in *.
        replace (limit - (addr + 4096) + (4096 - 1)) with (limit - addr + (4096 - 1) + (-1) * 4096) by lia.
        rewrite Z.div_add by done. lia. }
      eexists; split; [done|]. intros p. rewrite elem_of_cons, Hlk. unfold kPageSize in *.
      split.
      * intros [->|(k & ? & -> & ?)]; [exists 0; lia|exists (k + 1); lia].
      * intros (k & ? & -> & ?). destruct (decide (k = 0)) as [->|]; [left; lia|].
        right. exists (k - 1). lia.
    + eexists; split; [done|]. intros p. split; [by intros ?%not_elem_of_nil|].
      intros (k & ? & -> & ?). unfold kPageSize in *. lia.
Qed.

(** The fuel of [pages] is enough whenever the limit is not in the last page:
    the loop visits exactly the page addresses from [addr] below [limit]. *)
Lemma pages_spec addr limit :
  0 <= addr -> limit <= two64 - kPageSize ->
  exists l, pages addr limit = Ok l /\
    forall p, p ∈ l <-> exists k, 0 <= k /\ p = addr + kPageSize * k /\ p < limit.
Proof.
  intros H0 Hl. unfold pages.
  destruct (page_walk_enough (page_fuel addr limit) addr limit) as (l & -> & ?); [done..|].
  eauto.
Qed.

(** From an aligned start the visited pages are the aligned ones. *)
Lemma pages_aligned_spec addr limit :
  u64 addr -> aligned addr -> limit <= two64 - kPageSize ->
  exists l, pages addr limit = Ok l /\
    forall p, p ∈ l <-> aligned p /\ addr <= p < limit.
Proof.
  intros Ha Hal Hl. destruct (pages_spec addr limit) as (l & -> & Hp); [apply Ha|done|].
  exists l; split; [done|]. intros p. rewrite Hp. unfold aligned, kPageSize in *. split.
  - intros (k & ? & -> & ?). split; [|lia].
    by rewrite Z.mul_comm, Z.mod_add by done.
  - intros [Hpa ?]. exists (p / 4096 - addr / 4096).
    pose proof (Z.div_mod p 4096). pose proof (Z.div_mod addr 4096). lia.
Qed.

(** A walk towards a limit in the last page never stops. *)
Lemma page_walk_diverges fuel addr limit :
  u64 addr -> aligned addr -> two64 - kPageSize < limit ->
  page_walk fuel addr limit = None.
Proof.
  revert addr. induction fuel as [|fuel IH]; intros addr Ha Hal Hl; cbn;
    pose proof (aligned_u64_top _ Ha Hal); destruct (Z.ltb_spec addr limit); try lia; [done|].
  rewrite IH; [done|apply wrap64_u64| |done].
  apply aligned_add64; [done|]. by vm_compute.
Qed.

(** A whole number of pages is its own size. *)
Lemma RoundUp_whole n : aligned n -> 0 < n <= two64 - kPageSize -> RoundUpToPage n = n.
Proof.
  intros Hal Hn. destruct (RoundUpToPage_range n) as [Hr Hra]; [lia|].
  destruct (Z.eq_dec (RoundUpToPage n) n) as [|Hne]; [done|]. pose proof (aligned_lt n (RoundUpToPage n) Hal Hra). lia.
Qed.
