(* ===== verification/MappedRange.v ===== *)
(** * Mapped ranges

    Models [vmill/Program/MappedRange.{h,cpp}]: the four kinds of memory map
    behind a [MemoryMapPtr], as objects of a shared heap.

    A range is shared by reference ([std::shared_ptr]) between the list of
    maps, the page caches and, for copy-on-write ranges, the clones of an
    address space; and three methods replace the object in place
    ([new (this) ...]), which changes the kind every holder of the pointer
    sees.  The model therefore has a heap of objects, and the virtual methods
    are functions of the heap and a location that dispatch on the kind stored
    there.

    The bytes of an [ArrayMemoryMap] live in a block of the zone allocator
    that the range alone owns ([Allocators.v] proves that live blocks never
    overlap and start zeroed; [RangeClasses] has the destructors that free
    them); here they are a finite map from the offset in
    the block, an absent offset reading as the zero the allocator stored.
    Running out of host memory is not modelled. *)

From S2P Require Import Prelude Pages.

Abbreviation loc := positive.

(** The dynamic type of a range. *)
Inductive RangeKind :=
| InvalidMemoryMap
| ArrayMemoryMap
| EmptyMemoryMap
| CopyOnWriteMemoryMap.

#[global] Instance RangeKind_eq_dec : EqDecision RangeKind.
Proof. solve_decision. Defined.

Record MappedRange := MkRange {
  kind : RangeKind;
  base_address : Z;
  limit_address : Z;
  name : string;
  offset : Z;
  code_version : Z;
  code_version_is_valid : bool;
  data : option (gmap Z Z);
  parent : option loc
}.

Definition with_data (r : MappedRange) (d : option (gmap Z Z)) : MappedRange :=
  MkRange (kind r) (base_address r) (limit_address r) (name r) (offset r)
    (code_version r) (code_version_is_valid r) d (parent r).

Definition with_version (r : MappedRange) (v : Z) (valid : bool) : MappedRange :=
  MkRange (kind r) (base_address r) (limit_address r) (name r) (offset r)
    v valid (data r) (parent r).

(** The heap of range objects; [next_loc] is the next unused location. *)
Record Heap := MkHeap { objs : gmap loc MappedRange; next_loc : loc }.

Definition empty_heap : Heap := MkHeap ∅ 1.

Definition get (h : Heap) (l : loc) : outcome MappedRange := deref_opt (objs h !! l).

Definition put (h : Heap) (l : loc) (r : MappedRange) : Heap :=
  MkHeap (<[l := r]> (objs h)) (next_loc h).

(** [std::make_shared]. *)
Definition make_shared (h : Heap) (r : MappedRange) : loc * Heap :=
  (next_loc h, MkHeap (<[next_loc h := r]> (objs h)) (Pos.succ (next_loc h))).

(** ** Non-virtual members *)

Definition Size (r : MappedRange) : Z := sub64 (limit_address r) (base_address r).

Definition Contains (r : MappedRange) (address : Z) : bool :=
  (base_address r <=? address) && (address <? limit_address r).

Definition LessThan (left right : MappedRange) : bool :=
  base_address left <? base_address right.

(** The [char name[256]] buffer: [strncpy] of at most 256 bytes, the last one
    overwritten with NUL. *)
Definition copy_name (name_ : option string) : string :=
  match name_ with
  | None => ""
  | Some s => String.substring 0 255 s
  end.

(** The constructors of [MappedRange] and [MappedRangeBase]. *)
Definition MappedRangeBase_new (k : RangeKind) (base limit : Z) (name_ : option string)
    (offset_ : Z) : MappedRange :=
  MkRange k base limit (copy_name name_) offset_ 0 false None None.

Definition Create (h : Heap) (base limit : Z) (name_ : option string) (offset_ : Z) : loc * Heap :=
  make_shared h (MappedRangeBase_new EmptyMemoryMap base limit name_ offset_).

Definition CreateInvalid (h : Heap) (base limit : Z) : loc * Heap :=
  make_shared h (MappedRangeBase_new InvalidMemoryMap base limit (Some "") 0).

(** ** Array-backed ranges *)

(** [ArrayMemoryMap(base, limit, name, offset)]: the size must be a multiple
    of the page size; the allocator returns a zeroed block. *)
Definition ArrayMemoryMap_new (base limit : Z) (name_ : option string) (offset_ : Z) :
    outcome MappedRange :=
  let r := MappedRangeBase_new ArrayMemoryMap base limit name_ offset_ in
  check (Size r =? Size r / kPageSize * kPageSize) ;;
  mret (with_data r (Some ∅)).

(** [data.base[i]], read and written. *)
Definition array_get (r : MappedRange) (i : Z) : outcome Z :=
  match data r with
  | None => Undefined
  | Some m => if i <? Size r then Ok (default 0 (m !! i)) else Undefined
  end.

Definition array_set (r : MappedRange) (i v : Z) : outcome MappedRange :=
  match data r with
  | None => Undefined
  | Some m => if i <? Size r then Ok (with_data r (Some (<[i := v]> m))) else Undefined
  end.

(** [ArrayMemoryMap(ArrayMemoryMap *steal)]: the new range takes over the
    block; the second component is the range stolen from. *)
Definition ArrayMemoryMap_steal (r : MappedRange) : outcome (MappedRange * MappedRange) :=
  check (match data r with Some _ => true | None => false end) ;;
  mret (with_data (MappedRangeBase_new ArrayMemoryMap (base_address r) (limit_address r)
                     (Some (name r)) (offset r)) (data r),
        with_data r None).

(** ** Virtual methods *)

Definition InvalidateCodeVersion (h : Heap) (l : loc) : outcome Heap :=
  r ← get h l;
  mret (put h l (with_version r (code_version r) false)).

(** A copy-on-write range forwards most methods to its parent; the recursion
    follows parent pointers, of which there are fewer than locations. *)
Definition chain_fuel (h : Heap) : nat := S (Pos.to_nat (next_loc h)).

Fixpoint IsValid_fuel (fuel : nat) (h : Heap) (l : loc) : outcome bool :=
  match fuel with
  | O => Diverges
  | S fuel =>
      r ← get h l;
      match kind r with
      | InvalidMemoryMap => Ok false
      | ArrayMemoryMap | EmptyMemoryMap => Ok true
      | CopyOnWriteMemoryMap => p ← deref_opt (parent r); IsValid_fuel fuel h p
      end
  end.
Definition IsValid (h : Heap) : loc -> outcome bool := IsValid_fuel (chain_fuel h) h.

(** [Read(address, out_val)]: the returned flag and [*out_val]. *)
Fixpoint Read_fuel (fuel : nat) (h : Heap) (l : loc) (address : Z) : outcome (bool * Z) :=
  match fuel with
  | O => Diverges
  | S fuel =>
      r ← get h l;
      match kind r with
      | InvalidMemoryMap => Ok (false, 0)
      | ArrayMemoryMap => v ← array_get r (sub64 address (base_address r)); Ok (true, v)
      | EmptyMemoryMap => Ok (true, 0)
      | CopyOnWriteMemoryMap => p ← deref_opt (parent r); Read_fuel fuel h p address
      end
  end.
Definition Read (h : Heap) : loc -> Z -> outcome (bool * Z) := Read_fuel (chain_fuel h) h.

(** Host pointers handed out by the [To...VirtualAddress] methods. *)
Inductive VirtualAddress :=
| NullPtr
| DataPtr (l : loc) (i : Z)
| ZeroesPtr.

(** The copy loop of [CopyOnWriteMemoryMap::ToReadWriteVirtualAddress]:
    [n] bytes of the parent, from [addr], stored from [index] on. *)
Fixpoint cow_fill (h : Heap) (p : loc) (n : nat) (addr index : Z) (m : gmap Z Z) :
    outcome (gmap Z Z) :=
  match n with
  | O => Ok m
  | S n =>
      '(_, v) ← Read h p addr;
      cow_fill h p n (addr + 1) (index + 1) (<[index := v]> m)
  end.

Definition ToReadWriteVirtualAddress (h : Heap) (l : loc) (address : Z) :
    outcome (VirtualAddress * Heap) :=
  r ← get h l;
  match kind r with
  | InvalidMemoryMap => Ok (NullPtr, h)
  | ArrayMemoryMap => Ok (DataPtr l (sub64 address (base_address r)), h)
  | EmptyMemoryMap =>
      self ← ArrayMemoryMap_new (base_address r) (limit_address r) (Some (name r)) (offset r);
      Ok (DataPtr l (sub64 address (base_address self)), put h l self)
  | CopyOnWriteMemoryMap =>
      p ← deref_opt (parent r);
      rp ← get h p;
      self ← ArrayMemoryMap_new (base_address r) (limit_address r) (Some (name rp)) (offset r);
      let h := put h l self in
      m ← cow_fill h p (Z.to_nat (limit_address r - base_address r)) (base_address r) 0 ∅;
      Ok (DataPtr l (sub64 address (base_address self)), put h l (with_data self (Some m)))
  end.

Fixpoint ToReadOnlyVirtualAddress_fuel (fuel : nat) (h : Heap) (l : loc) (address : Z) :
    outcome VirtualAddress :=
  match fuel with
  | O => Diverges
  | S fuel =>
      r ← get h l;
      match kind r with
      | InvalidMemoryMap => Ok NullPtr
      | ArrayMemoryMap => Ok (DataPtr l (sub64 address (base_address r)))
      | EmptyMemoryMap => Ok ZeroesPtr
      | CopyOnWriteMemoryMap =>
          p ← deref_opt (parent r); ToReadOnlyVirtualAddress_fuel fuel h p address
      end
  end.
Definition ToReadOnlyVirtualAddress (h : Heap) : loc -> Z -> outcome VirtualAddress :=
  ToReadOnlyVirtualAddress_fuel (chain_fuel h) h.

(** [*ptr] for [n] bytes through a pointer of the methods above, read and
    written.  [kZeroes] has 64 constant zero bytes. *)
Fixpoint load (h : Heap) (p : VirtualAddress) (n : nat) (k : Z) : outcome (list Z) :=
  match n with
  | O => Ok []
  | S n =>
      v ← match p with
          | NullPtr => Undefined
          | ZeroesPtr => if k <? 64 then Ok 0 else Undefined
          | DataPtr l i => r ← get h l; array_get r (i + k)
          end;
      vs ← load h p n (k + 1);
      Ok (v :: vs)
  end.

Fixpoint store (h : Heap) (p : VirtualAddress) (bs : list Z) (k : Z) : outcome Heap :=
  match bs with
  | [] => Ok h
  | b :: bs =>
      h ← match p with
          | NullPtr | ZeroesPtr => Undefined
          | DataPtr l i => r ← get h l; r ← array_set r (i + k) b; Ok (put h l r)
          end;
      store h p bs (k + 1)
  end.

Definition Write (h : Heap) (l : loc) (address val : Z) : outcome (bool * Heap) :=
  r ← get h l;
  match kind r with
  | InvalidMemoryMap => Ok (false, h)
  | ArrayMemoryMap =>
      r ← array_set r (sub64 address (base_address r)) val; Ok (true, put h l r)
  | EmptyMemoryMap | CopyOnWriteMemoryMap =>
      '(byte_ptr, h) ← ToReadWriteVirtualAddress h l address;
      h ← store h byte_ptr [val] 0;
      Ok (true, h)
  end.

(** [while (parent_) { parent = parent_; parent_ = parent->parent; }] *)
Fixpoint root_of (fuel : nat) (h : Heap) (l : loc) : outcome loc :=
  match fuel with
  | O => Diverges
  | S fuel =>
      r ← get h l;
      match parent r with
      | None => Ok l
      | Some p => root_of fuel h p
      end
  end.

(** [CopyOnWriteMemoryMap(parent_)]: the bounds are those of the argument,
    the stored parent is the root of the chain. *)
Definition CopyOnWriteMemoryMap_new (h : Heap) (parent_ : loc) : outcome MappedRange :=
  rp ← get h parent_;
  root ← root_of (chain_fuel h) h parent_;
  let r := MappedRangeBase_new CopyOnWriteMemoryMap (base_address rp) (limit_address rp)
             (Some (name rp)) (offset rp) in
  mret (MkRange (kind r) (base_address r) (limit_address r) (name r) (offset r)
          (code_version r) (code_version_is_valid r) (data r) (Some root)).

Definition Clone (h : Heap) (l : loc) : outcome (loc * Heap) :=
  r ← get h l;
  match kind r with
  | InvalidMemoryMap | EmptyMemoryMap =>
      mret (make_shared h (MappedRangeBase_new (kind r) (base_address r) (limit_address r)
                             (Some (name r)) (offset r)))
  | ArrayMemoryMap =>
      '(stolen, rest) ← ArrayMemoryMap_steal r;
      let '(p, h) := make_shared (put h l rest) stolen in
      self ← CopyOnWriteMemoryMap_new h p;
      let h := put h l self in
      p ← deref_opt (parent self);
      c ← CopyOnWriteMemoryMap_new h p;
      mret (make_shared h c)
  | CopyOnWriteMemoryMap =>
      p ← deref_opt (parent r);
      c ← CopyOnWriteMemoryMap_new h p;
      mret (make_shared h c)
  end.

(** The copy loop of [ArrayMemoryMap::Copy]. *)
Fixpoint array_copy (r : MappedRange) (n : nat) (addr : Z) (dst : MappedRange) :
    outcome MappedRange :=
  match n with
  | O => Ok dst
  | S n =>
      dst ← (if Contains r addr then
               v ← array_get r (sub64 addr (base_address r));
               array_set dst (sub64 addr (base_address dst)) v
             else Ok dst);
      array_copy r n (addr + 1) dst
  end.

(** [Copy(clone_base, clone_limit)].  The three-argument constructor of
    [CopyOnWriteMemoryMap] computes its offset from the member [parent]
    (written [parent->BaseAddress()]) before that member is constructed, so
    copying part of a copy-on-write range is undefined. *)
Definition Copy (h : Heap) (l : loc) (clone_base clone_limit : Z) : outcome (loc * Heap) :=
  r ← get h l;
  let off := add64 (offset r) (sub64 clone_base (base_address r)) in
  match kind r with
  | InvalidMemoryMap | EmptyMemoryMap =>
      mret (make_shared h (MappedRangeBase_new (kind r) clone_base clone_limit (Some (name r)) off))
  | ArrayMemoryMap =>
      dst ← ArrayMemoryMap_new clone_base clone_limit (Some (name r)) off;
      dst ← array_copy r (Z.to_nat (clone_limit - clone_base)) clone_base dst;
      mret (make_shared h dst)
  | CopyOnWriteMemoryMap => Undefined
  end.

(** ** Code versions *)

Section code_version.
(** [vmill::Hash], the 64-bit xxHash of a byte string. *)
Variable Hash : list Z -> Z.

Definition array_bytes (r : MappedRange) : outcome (list Z) :=
  match data r with
  | None => Undefined
  | Some m => Ok ((fun i => default 0 (m !! i)) <$> seqZ 0 (Size r))
  end.

Fixpoint ComputeCodeVersion_fuel (fuel : nat) (h : Heap) (l : loc) : outcome (Z * Heap) :=
  match fuel with
  | O => Diverges
  | S fuel =>
      r ← get h l;
      match kind r with
      | InvalidMemoryMap | EmptyMemoryMap => Ok (0, h)
      | ArrayMemoryMap =>
          if code_version_is_valid r then Ok (code_version r, h)
          else
            bs ← array_bytes r;
            Ok (Hash bs, put h l (with_version r (Hash bs) true))
      | CopyOnWriteMemoryMap => p ← deref_opt (parent r); ComputeCodeVersion_fuel fuel h p
      end
  end.
Definition ComputeCodeVersion (h : Heap) : loc -> outcome (Z * Heap) :=
  ComputeCodeVersion_fuel (chain_fuel h) h.
End code_version.

Fixpoint Provider_fuel (fuel : nat) (h : Heap) (l : loc) : outcome string :=
  match fuel with
  | O => Diverges
  | S fuel =>
      r ← get h l;
      match kind r with
      | InvalidMemoryMap => Ok "invalid"
      | ArrayMemoryMap => Ok "array"
      | EmptyMemoryMap => Ok "empty"
      | CopyOnWriteMemoryMap =>
          p ← deref_opt (parent r);
          s ← Provider_fuel fuel h p;
          Ok ("copy-on-write (" +:+ s +:+ ")")
      end
  end.
Definition Provider (h : Heap) : loc -> outcome string := Provider_fuel (chain_fuel h) h.
