(* ===== verification/RangeProps.v ===== *)
(** * Properties of mapped ranges

    The well-formedness invariant of the range heap, what each virtual method
    does to it, and the laws clients rely on: a read after a write, the frame
    of a write, and the transparency of [Clone] and [Copy]. *)

From S2P Require Import Prelude Pages MappedRange.

Definition bytes_ok (m : gmap Z Z) : Prop := forall i v, m !! i = Some v -> byte_ok v.

(** What the constructors establish for a range of each kind.  The parent of
    a copy-on-write range is an array-backed range with the same bounds. *)
Definition kind_ok (h : Heap) (r : MappedRange) : Prop :=
  match kind r with
  | InvalidMemoryMap | EmptyMemoryMap => data r = None /\ parent r = None
  | ArrayMemoryMap =>
      parent r = None /\ aligned (limit_address r - base_address r) /\
      exists m, data r = Some m /\ bytes_ok m
  | CopyOnWriteMemoryMap =>
      data r = None /\
      exists p rp, parent r = Some p /\ objs h !! p = Some rp /\
        kind rp = ArrayMemoryMap /\
        base_address rp = base_address r /\ limit_address rp = limit_address r
  end.

Definition bounds_ok (r : MappedRange) : Prop :=
  0 <= base_address r <= limit_address r /\ limit_address r < two64.

Record wf_heap (h : Heap) : Prop := {
  wf_bounds l r : objs h !! l = Some r -> bounds_ok r;
  wf_kind l r : objs h !! l = Some r -> kind_ok h r;
  wf_fresh l r : objs h !! l = Some r -> (l < next_loc h)%positive
}.

(** [l] is the parent of some copy-on-write range. *)
Definition is_parent (h : Heap) (l : loc) : Prop :=
  exists l' r', objs h !! l' = Some r' /\ parent r' = Some l.

Definition same_bounds (r r' : MappedRange) : Prop :=
  base_address r' = base_address r /\ limit_address r' = limit_address r.

(** ** Reads *)

Lemma chain_fuel_SS h : exists k, chain_fuel h = S (S k).
Proof.
  unfold chain_fuel. destruct (Pos2Nat.is_succ (next_loc h)) as [k ->]. eauto.
Qed.

Definition array_read (r : MappedRange) (a : Z) : outcome (bool * Z) :=
  v ← array_get r (sub64 a (base_address r)); Ok (true, v).

(** [Read] without the recursion, on a well-formed heap. *)
Definition view (h : Heap) (r : MappedRange) (a : Z) : outcome (bool * Z) :=
  match kind r with
  | InvalidMemoryMap => Ok (false, 0)
  | EmptyMemoryMap => Ok (true, 0)
  | ArrayMemoryMap => array_read r a
  | CopyOnWriteMemoryMap =>
      match parent r with
      | Some p => match objs h !! p with Some rp => array_read rp a | None => Undefined end
      | None => Undefined
      end
  end.

Lemma get_Some h l r : objs h !! l = Some r -> get h l = Ok r.
Proof. unfold get. by intros ->. Qed.

Lemma Read_view h l r a :
  wf_heap h -> objs h !! l = Some r -> Read h l a = view h r a.
Proof.
  intros Hwf Hl. destruct (chain_fuel_SS h) as [k Hk]. unfold Read, view. rewrite Hk.
  cbn [Read_fuel]. rewrite (get_Some h l r Hl). cbn.
  pose proof (wf_kind h Hwf l r Hl) as Hkd. unfold kind_ok in Hkd.
  destruct (kind r) eqn:Ek; try done.
  destruct Hkd as (_ & p & rp & -> & Hp & Hkp & _). cbn.
  rewrite (get_Some h p rp Hp), Hp. cbn. by rewrite Hkp.
Qed.

Lemma put_id h l r : objs h !! l = Some r -> put h l r = h.
Proof. intros. destruct h. unfold put; cbn. by rewrite insert_id. Qed.

Lemma put_lookup_eq h l r : objs (put h l r) !! l = Some r.
Proof. apply lookup_insert_eq. Qed.

Lemma put_lookup_ne h l l' r : l <> l' -> objs (put h l r) !! l' = objs h !! l'.
Proof. intros. by apply lookup_insert_ne. Qed.

(** Replacing an object changes the view of another only through the parent
    pointer. *)
Lemma view_put_ne h l r r' a :
  parent r' <> Some l -> view (put h l r) r' a = view h r' a.
Proof.
  intros Hp. unfold view. destruct (kind r'); try done.
  destruct (parent r') as [p|]; [|done].
  rewrite put_lookup_ne; [done|congruence].
Qed.

Lemma not_parent h l l' r' : ~ is_parent h l -> objs h !! l' = Some r' -> parent r' <> Some l.
Proof. intros Hn Hl Hp. apply Hn. by exists l', r'. Qed.

Lemma array_read_Contains r m a :
  kind r = ArrayMemoryMap -> bounds_ok r -> data r = Some m -> Contains r a = true ->
  array_read r a = Ok (true, default 0 (m !! (a - base_address r))).
Proof.
  intros _ Hb Hd Hc. unfold array_read, array_get. rewrite Hd. cbn.
  unfold Contains in Hc. bool_to_prop. unfold bounds_ok in Hb.
  unfold Size. rewrite !sub64_small by lia.
  destruct (Z.ltb_spec (a - base_address r) (limit_address r - base_address r)); [done|lia].
Qed.

Definition value_at (h : Heap) (r : MappedRange) (a : Z) : Z :=
  match view h r a with Ok (_, v) => v | _ => 0 end.

(** Reads inside the bounds of a well-formed range return; they fail only on
    an invalid range. *)
Lemma view_ok h l r a :
  wf_heap h -> objs h !! l = Some r -> Contains r a = true ->
  view h r a = Ok (negb (bool_decide (kind r = InvalidMemoryMap)), value_at h r a) /\
  byte_ok (value_at h r a).
Proof.
  intros Hwf Hl Hc. pose proof (wf_kind h Hwf l r Hl) as Hkd. pose proof (wf_bounds h Hwf l r Hl) as Hb.
  unfold value_at, view. unfold kind_ok in Hkd. unfold byte_ok.
  assert (Hdef : forall m i, bytes_ok m -> 0 <= default 0 ((m : gmap Z Z) !! i) < 256).
  { intros m i Hm. destruct (m !! i) eqn:E; cbn; [by eapply Hm|lia]. }
  destruct (kind r) eqn:Ek; cbn; try (split; [done|lia]).
  - destruct Hkd as (_ & _ & m & Hm & Hok).
    rewrite (array_read_Contains r m) by done. cbn. split; [done|by apply Hdef].
  - destruct Hkd as (_ & p & rp & -> & Hp & Hkp & Hbp & Hlp). rewrite Hp.
    pose proof (wf_kind h Hwf p rp Hp) as Hkd. unfold kind_ok in Hkd. rewrite Hkp in Hkd.
    destruct Hkd as (_ & _ & m & Hm & Hok).
    rewrite (array_read_Contains rp m); [cbn; split; [done|by apply Hdef]|done| |done|].
    + by apply (wf_bounds h Hwf p).
    + unfold Contains in *. by rewrite Hbp, Hlp.
Qed.

(** ** Writes *)

Lemma cow_fill_spec h p f n addr index m :
  (forall a, addr <= a < addr + Z.of_nat n -> exists b, Read h p a = Ok (b, f a)) ->
  exists m', cow_fill h p n addr index m = Ok m' /\
    forall i, m' !! i =
      if decide (index <= i < index + Z.of_nat n) then Some (f (addr + (i - index))) else m !! i.
Proof.
  revert addr index m. induction n as [|n IH]; intros addr index m Hf; cbn [cow_fill].
  - exists m. split; [done|]. intros i. rewrite decide_False by lia. done.
  - destruct (Hf addr) as [b ->]; [lia|]. cbn.
    destruct (IH (addr + 1) (index + 1) (<[index := f addr]> m)) as (m' & -> & Hm').
    { intros a Ha. apply Hf. lia. }
    exists m'. split; [done|]. intros i. rewrite Hm'.
    destruct (decide (i = index)) as [->|Hne].
    + rewrite decide_False by lia. rewrite decide_True by lia.
      rewrite lookup_insert_eq. do 2 f_equal. lia.
    + rewrite lookup_insert_ne by done.
      destruct (decide (index + 1 <= i < index + 1 + Z.of_nat n)).
      * rewrite decide_True by lia. do 2 f_equal. lia.
      * rewrite decide_False by lia. done.
Qed.

(** A heap update that keeps the bounds of [l], makes it a well-formed array
    and loses no array-backed parent keeps the heap well formed. *)
Lemma wf_put_array h l r r' m :
  wf_heap h -> objs h !! l = Some r -> kind r' = ArrayMemoryMap ->
  same_bounds r r' -> parent r' = None -> aligned (limit_address r - base_address r) ->
  data r' = Some m -> bytes_ok m -> wf_heap (put h l r').
Proof.
  intros Hwf Hl Hk [Hb1 Hb2] Hp Hal Hd Hm. split.
  - intros l0 r0 H0. destruct (decide (l0 = l)) as [->|Hne].
    + rewrite put_lookup_eq in H0. injection H0 as <-.
      pose proof (wf_bounds h Hwf l r Hl). unfold bounds_ok in *. by rewrite Hb1, Hb2.
    + rewrite put_lookup_ne in H0 by done. by eapply wf_bounds.
  - intros l0 r0 H0. destruct (decide (l0 = l)) as [->|Hne].
    + rewrite put_lookup_eq in H0. injection H0 as <-. unfold kind_ok. rewrite Hk, Hb1, Hb2. eauto.
    + rewrite put_lookup_ne in H0 by done.
      pose proof (wf_kind h Hwf l0 r0 H0) as Hkd. unfold kind_ok in *.
      destruct (kind r0); try done.
      destruct Hkd as (Hd0 & p & rp & Hp0 & Hpl & Hkp & Hb). split; [done|].
      destruct (decide (p = l)) as [->|Hpn].
      * exists l, r'. rewrite put_lookup_eq. simplify_eq. by rewrite Hb1, Hb2.
      * exists p, rp. by rewrite put_lookup_ne.
  - intros l0 r0 H0. destruct (decide (l0 = l)) as [->|Hne].
    + by eapply (wf_fresh h Hwf l).
    + rewrite put_lookup_ne in H0 by done. by eapply (wf_fresh h Hwf).
Qed.

Lemma page_multiple s : 0 <= s -> aligned s -> (s =? s / kPageSize * kPageSize) = true.
Proof.
  intros _ Hs. apply Z.eqb_eq. unfold aligned, kPageSize in *. pose proof (Z.div_mod s 4096). lia.
Qed.

Lemma ArrayMemoryMap_new_ok base limit nm off :
  0 <= base <= limit -> limit < two64 -> aligned (limit - base) ->
  ArrayMemoryMap_new base limit nm off =
    Ok (with_data (MappedRangeBase_new ArrayMemoryMap base limit nm off) (Some ∅)).
Proof.
  intros ? ? Hal. unfold ArrayMemoryMap_new. rewrite check_true; [done|].
  unfold Size; cbn. rewrite sub64_small by lia. apply page_multiple; [lia|done].
Qed.

(** [ToReadWriteVirtualAddress] turns any valid range into an array-backed
    one that holds the same bytes. *)
Lemma ToReadWrite_spec h l r a :
  wf_heap h -> objs h !! l = Some r -> kind r <> InvalidMemoryMap ->
  aligned (limit_address r - base_address r) -> Contains r a = true ->
  exists r' m,
    ToReadWriteVirtualAddress h l a = Ok (DataPtr l (a - base_address r), put h l r') /\
    kind r' = ArrayMemoryMap /\ same_bounds r r' /\ parent r' = None /\
    data r' = Some m /\ bytes_ok m /\
    forall a', Contains r a' = true -> array_read r' a' = Ok (true, value_at h r a').
Proof.
  intros Hwf Hl Hk Hal Hc. pose proof (wf_kind h Hwf l r Hl) as Hkd.
  pose proof (wf_bounds h Hwf l r Hl) as Hb. unfold bounds_ok in Hb.
  assert (Hsub : sub64 a (base_address r) = a - base_address r).
  { unfold Contains in Hc. bool_to_prop. apply sub64_small. lia. }
  unfold ToReadWriteVirtualAddress. rewrite (get_Some h l r Hl). cbn. unfold kind_ok in Hkd.
  destruct (kind r) eqn:Ek; [done| | |].
  - destruct Hkd as (Hp & _ & m & Hd & Hm). exists r, m.
    rewrite (put_id h l r Hl), Hsub. split_and!; try done.
    intros a' Hc'. pose proof (view_ok h l r a' Hwf Hl Hc') as [Hv _].
    unfold view in Hv. rewrite Ek in Hv. exact Hv.
  - rewrite ArrayMemoryMap_new_ok by (try done; lia). cbn. rewrite Hsub.
    eexists _, ∅. split_and!; try done.
    intros a' Hc'. rewrite (array_read_Contains _ ∅); try done.
    unfold value_at, view. rewrite Ek. by rewrite lookup_empty.
  - destruct Hkd as (Hd & p & rp & Hp & Hpl & Hkp & Hbp & Hlp). rewrite Hp. cbn.
    rewrite (get_Some h p rp Hpl). cbn.
    rewrite ArrayMemoryMap_new_ok by (try done; lia). cbn [mbind outcome_bind].
    set (self := with_data _ (Some ∅)). cbn zeta.
    assert (Hwf' : wf_heap (put h l self)).
    { by eapply (wf_put_array h l r self ∅). }
    assert (Hlp' : p <> l) by (intros ->; congruence).
    assert (Hread : forall a', Contains r a' = true ->
              Read (put h l self) p a' = Ok (true, value_at h r a') /\ byte_ok (value_at h r a')).
    { intros a' Hc'. pose proof (view_ok h l r a' Hwf Hl Hc') as [Hv Hbo].
      rewrite (Read_view _ p rp) by (try done; by rewrite put_lookup_ne).
      split; [|done]. rewrite view_put_ne.
      - unfold view in *. rewrite Ek, Hp, Hpl in Hv. rewrite Hkp. exact Hv.
      - pose proof (wf_kind h Hwf p rp Hpl) as Hkr. unfold kind_ok in Hkr.
        rewrite Hkp in Hkr. destruct Hkr as [-> _]. done. }
    destruct (cow_fill_spec (put h l self) p (value_at h r)
                (Z.to_nat (limit_address r - base_address r)) (base_address r) 0 ∅) as (m & -> & Hm).
    { intros a' Ha'. exists true. apply Hread. unfold Contains.
      destruct (Z.leb_spec (base_address r) a'), (Z.ltb_spec a' (limit_address r)); try done; lia. }
    cbn. rewrite Hsub. exists (with_data self (Some m)), m. split.
    { unfold put; cbn. by rewrite insert_insert_eq. }
    split_and!; try done.
    + intros i v. rewrite Hm. case_decide; [|by rewrite lookup_empty].
      intros [= <-]. apply Hread. unfold Contains.
      destruct (Z.leb_spec (base_address r) (base_address r + (i - 0))),
        (Z.ltb_spec (base_address r + (i - 0)) (limit_address r)); try done; lia.
    + intros a' Hc'. rewrite (array_read_Contains _ m); try done. cbn.
      rewrite Hm. unfold Contains in Hc'. bool_to_prop.
      rewrite decide_True by lia. cbn. do 3 f_equal. lia.
Qed.

(** Stores and loads through a pointer into an array-backed range. *)
Lemma store_spec h l r m i k bs :
  objs h !! l = Some r -> data r = Some m -> i + k + Z.of_nat (length bs) <= Size r ->
  exists m', store h (DataPtr l i) bs k = Ok (put h l (with_data r (Some m'))) /\
    forall j, m' !! j =
      if decide (i + k <= j < i + k + Z.of_nat (length bs))
      then bs !! Z.to_nat (j - (i + k)) else m !! j.
Proof.
  revert h r m k. induction bs as [|b bs IH]; intros h r m k Hl Hd Hle; cbn [store length] in *.
  - exists m. split.
    + rewrite put_id; [done|]. rewrite Hl. destruct r; cbn in *. by subst.
    + intros j. by rewrite decide_False by lia.
  - cbn. rewrite (get_Some h l r Hl). cbn. unfold array_set. rewrite Hd.
    destruct (Z.ltb_spec (i + k) (Size r)); [|lia]. cbn [mbind outcome_bind].
    destruct (IH (put h l (with_data r (Some (<[i + k := b]> m))))
                (with_data r (Some (<[i + k := b]> m))) (<[i + k := b]> m) (k + 1))
      as (m' & -> & Hm'); [apply put_lookup_eq|done| |].
    { change (Size (with_data r _)) with (Size r). lia. }
    exists m'. split.
    + unfold put; cbn. by rewrite insert_insert_eq.
    + intros j. rewrite Hm'. destruct (decide (j = i + k)) as [->|Hne].
      * rewrite decide_False by lia. rewrite decide_True by lia.
        rewrite lookup_insert_eq. by replace (i + k - (i + k)) with 0 by lia.
      * rewrite lookup_insert_ne by done. repeat case_decide; try lia; [|done].
        replace (Z.to_nat (j - (i + k))) with (S (Z.to_nat (j - (i + (k + 1))))) by lia. done.
Qed.

Lemma array_set_bytes_ok m m' bs i :
  bytes_ok m -> Forall byte_ok bs ->
  (forall j, m' !! j = if decide (i <= j < i + Z.of_nat (length bs))
                       then bs !! Z.to_nat (j - i) else m !! j) ->
  bytes_ok m'.
Proof.
  intros Hm Hbs Hm' j v. rewrite Hm'. case_decide; [|apply Hm].
  intros Hv. rewrite Forall_lookup in Hbs. by eapply Hbs.
Qed.

(** ** The contract of a write

    A write inside a valid range succeeds, leaves an array-backed range with
    the same bounds in its place, stores exactly the bytes written and keeps
    every other byte of the range; the object is the only one that changes. *)
Lemma write_bytes_spec h l r a bs :
  wf_heap h -> objs h !! l = Some r -> kind r <> InvalidMemoryMap ->
  aligned (limit_address r - base_address r) -> Forall byte_ok bs -> bs <> [] ->
  base_address r <= a -> a + Z.of_nat (length bs) <= limit_address r ->
  exists r' h1,
    ToReadWriteVirtualAddress h l a = Ok (DataPtr l (a - base_address r), h1) /\
    store h1 (DataPtr l (a - base_address r)) bs 0 = Ok (put h l r') /\
    wf_heap (put h l r') /\ kind r' = ArrayMemoryMap /\ same_bounds r r' /\ parent r' = None /\
    forall a', Contains r a' = true ->
      view (put h l r') r' a' =
        Ok (true, if decide (a <= a' < a + Z.of_nat (length bs))
                  then default 0 (bs !! Z.to_nat (a' - a)) else value_at h r a').
Proof.
  intros Hwf Hl Hk Hal Hbs Hne Ha1 Ha2.
  assert (Hc : Contains r a = true).
  { unfold Contains. destruct bs; [done|]. cbn in Ha2.
    destruct (Z.leb_spec (base_address r) a), (Z.ltb_spec a (limit_address r)); try done; lia. }
  pose proof (wf_bounds h Hwf l r Hl) as Hb. unfold bounds_ok in Hb.
  destruct (ToReadWrite_spec h l r a Hwf Hl Hk Hal Hc)
    as (r1 & m & Hrw & Hk1 & [Hb1 Hl1] & Hp1 & Hd1 & Hm1 & Hread).
  destruct (store_spec (put h l r1) l r1 m (a - base_address r) 0 bs) as (m' & Hst & Hm');
    [apply put_lookup_eq|done| |].
  { unfold Size. rewrite sub64_small; lia. }
  exists (with_data r1 (Some m')), (put h l r1). split_and!; try done.
  - rewrite Hst. unfold put; cbn. by rewrite insert_insert_eq.
  - eapply wf_put_array; try done. eapply array_set_bytes_ok; [done..|].
    intros j. rewrite Hm'. by replace (a - base_address r + 0) with (a - base_address r) by lia.
  - intros a' Hc'. pose proof (Hread a' Hc') as Hr. unfold view. cbn [kind with_data]. rewrite Hk1.
    rewrite (array_read_Contains r1 m) in Hr; [|done| |done|];
      [|unfold bounds_ok; by rewrite Hb1, Hl1|unfold Contains in *; by rewrite Hb1, Hl1].
    rewrite (array_read_Contains _ m'); [|done| |done|];
      [|unfold bounds_ok; cbn; by rewrite Hb1, Hl1|unfold Contains in *; cbn; by rewrite Hb1, Hl1].
    cbn. rewrite Hm', Hb1. rewrite Hb1 in Hr. repeat case_decide; try lia.
    + do 3 f_equal. f_equal. lia.
    + exact Hr.
Qed.

Lemma Write_spec h l r a v :
  wf_heap h -> objs h !! l = Some r -> kind r <> InvalidMemoryMap ->
  aligned (limit_address r - base_address r) -> byte_ok v -> Contains r a = true ->
  exists r', Write h l a v = Ok (true, put h l r') /\
    wf_heap (put h l r') /\ kind r' = ArrayMemoryMap /\ same_bounds r r' /\ parent r' = None /\
    forall a', Contains r a' = true ->
      view (put h l r') r' a' = Ok (true, if decide (a' = a) then v else value_at h r a').
Proof.
  intros Hwf Hl Hk Hal Hv Hc. pose proof Hc as Hc0. unfold Contains in Hc. bool_to_prop.
  pose proof (wf_bounds h Hwf l r Hl) as Hb. unfold bounds_ok in Hb.
  destruct (write_bytes_spec h l r a [v]) as (r' & h1 & Hrw & Hst & Hwf' & Hk' & Hsb & Hp' & Hview);
    try done; [by constructor|cbn; lia|].
  exists r'. split_and!; try done.
  - unfold Write. rewrite (get_Some h l r Hl). cbn [mbind outcome_bind].
    destruct (kind r) eqn:Ek; [done| | |].
    + unfold ToReadWriteVirtualAddress in Hrw. rewrite (get_Some h l r Hl) in Hrw. cbn in Hrw.
      rewrite Ek in Hrw. injection Hrw as _ <-.
      cbn [store] in Hst. rewrite (get_Some h l r Hl) in Hst. cbn in Hst.
      rewrite sub64_small by lia. rewrite Z.add_0_r in Hst.
      destruct (array_set r (a - base_address r) v); cbn in *; congruence.
    + rewrite Hrw. cbn [mbind outcome_bind]. by rewrite Hst.
    + rewrite Hrw. cbn [mbind outcome_bind]. by rewrite Hst.
  - intros a' Hc'. rewrite Hview by done. cbn [length]. repeat case_decide; try lia; [|done].
    subst. by rewrite Z.sub_diag.
Qed.

(** An invalid range refuses writes and is left alone. *)
Lemma Write_invalid h l r a v :
  objs h !! l = Some r -> kind r = InvalidMemoryMap -> Write h l a v = Ok (false, h).
Proof. intros Hl Hk. unfold Write. rewrite (get_Some h l r Hl). cbn. by rewrite Hk. Qed.

(** Loads through a read-only pointer agree with reads. *)
Lemma load_array_spec h l r m i k n :
  objs h !! l = Some r -> data r = Some m -> i + k + Z.of_nat n <= Size r ->
  load h (DataPtr l i) n k = Ok ((fun j => default 0 (m !! (i + k + Z.of_nat j))) <$> seq 0 n).
Proof.
  revert k. induction n as [|n IH]; intros k Hl Hd Hle; cbn [load]; [done|].
  rewrite (get_Some h l r Hl). cbn. unfold array_get. rewrite Hd.
  destruct (Z.ltb_spec (i + k) (Size r)); [|lia]. cbn.
  rewrite IH by (try done; lia). cbn. rewrite Z.add_0_r. do 2 f_equal.
  rewrite <- seq_shift, <- list_fmap_compose. apply list_fmap_ext. intros _ j _. cbn.
  do 2 f_equal. lia.
Qed.

Lemma load_zeroes_spec h k n :
  k + Z.of_nat n <= 64 -> load h ZeroesPtr n k = Ok (replicate n 0).
Proof.
  revert k. induction n as [|n IH]; intros k Hle; cbn [load]; [done|].
  destruct (Z.ltb_spec k 64); [|lia]. cbn. by rewrite IH by lia.
Qed.

(** ** Cloning *)

Lemma wf_next_fresh h : wf_heap h -> objs h !! next_loc h = None.
Proof.
  intros Hwf. destruct (objs h !! next_loc h) eqn:E; [|done].
  pose proof (wf_fresh h Hwf _ _ E). lia.
Qed.

Lemma kind_ok_mono h h' r :
  (forall l r0, objs h !! l = Some r0 -> kind r0 = ArrayMemoryMap -> objs h' !! l = Some r0) ->
  kind_ok h r -> kind_ok h' r.
Proof.
  intros Hm. unfold kind_ok. destruct (kind r); try done.
  intros (? & p & rp & ? & ? & ? & ?). split; [done|]. exists p, rp. split_and!; auto; tauto.
Qed.

Lemma view_mono h h' r a :
  kind_ok h r -> (forall p rp, parent r = Some p -> objs h !! p = Some rp -> objs h' !! p = Some rp) ->
  view h' r a = view h r a.
Proof.
  intros Hk Hm. unfold view, kind_ok in *. destruct (kind r); try done.
  destruct Hk as (_ & p & rp & Hp & Hl & _). rewrite Hp, Hl. by rewrite (Hm p rp Hp Hl).
Qed.

(** Allocating a well-formed object. *)
Lemma make_shared_spec h r :
  wf_heap h -> bounds_ok r -> kind_ok h r ->
  let h' := snd (make_shared h r) in
  wf_heap h' /\ objs h' !! next_loc h = Some r /\ objs h !! next_loc h = None /\
  (forall l r0, objs h !! l = Some r0 ->
     objs h' !! l = Some r0 /\ forall a, view h' r0 a = view h r0 a) /\
  (forall l, is_parent h' l -> is_parent h l \/ parent r = Some l).
Proof.
  intros Hwf Hb Hk. cbn. pose proof (wf_next_fresh h Hwf) as Hfr.
  assert (Hmono : forall l r0, objs h !! l = Some r0 -> <[next_loc h := r]> (objs h) !! l = Some r0).
  { intros l r0 Hl. rewrite lookup_insert_ne; [done|]. intros <-. congruence. }
  split_and!.
  - split; cbn; intros l r0 [[<- <-]|[Hne Hl]]%lookup_insert_Some; try lia.
    + done.
    + by eapply wf_bounds.
    + eapply kind_ok_mono; [|done]. eauto.
    + eapply kind_ok_mono; [|by eapply wf_kind]. eauto.
    + pose proof (wf_fresh h Hwf l r0 Hl). lia.
  - apply lookup_insert_eq.
  - done.
  - intros l r0 Hl. split; [by apply Hmono|]. intros a.
    apply view_mono; [by eapply wf_kind|]. intros p rp _. apply Hmono.
  - intros l (l' & r' & Hl' & Hp). cbn in Hl'.
    apply lookup_insert_Some in Hl' as [[<- <-]|[Hne Hl]]; [by right|].
    left. by exists l', r'.
Qed.

Record clone_post (h h' : Heap) (l l' : loc) (r : MappedRange) : Prop := {
  cl_wf : wf_heap h';
  cl_fresh : objs h !! l' = None;
  cl_old : exists r1, objs h' !! l = Some r1 /\ same_bounds r r1 /\
    (kind r1 = InvalidMemoryMap <-> kind r = InvalidMemoryMap) /\ forall a, view h' r1 a = view h r a;
  cl_new : exists r2, objs h' !! l' = Some r2 /\ same_bounds r r2 /\
    (kind r2 = InvalidMemoryMap <-> kind r = InvalidMemoryMap) /\ forall a, view h' r2 a = view h r a;
  cl_frame : forall l0 r0, l0 <> l -> objs h !! l0 = Some r0 ->
    objs h' !! l0 = Some r0 /\ forall a, view h' r0 a = view h r0 a;
  cl_parent_old : forall l0, is_Some (objs h !! l0) -> is_parent h' l0 -> is_parent h l0;
  cl_parent_new : ~ is_parent h' l'
}.

Lemma root_of_no_parent h l r : objs h !! l = Some r -> parent r = None ->
  root_of (chain_fuel h) h l = Ok l.
Proof.
  intros Hl Hp. unfold chain_fuel. cbn [root_of]. rewrite (get_Some h l r Hl). cbn. by rewrite Hp.
Qed.

Definition cow_range (p : loc) (rp : MappedRange) : MappedRange :=
  MkRange CopyOnWriteMemoryMap (base_address rp) (limit_address rp) (copy_name (Some (name rp)))
    (offset rp) 0 false None (Some p).

Lemma CopyOnWriteMemoryMap_new_root h p rp :
  objs h !! p = Some rp -> parent rp = None ->
  CopyOnWriteMemoryMap_new h p = Ok (cow_range p rp).
Proof.
  intros Hl Hp. unfold CopyOnWriteMemoryMap_new. rewrite (get_Some h p rp Hl). cbn -[root_of chain_fuel].
  by rewrite (root_of_no_parent h p rp Hl Hp).
Qed.

Lemma is_parent_exists h l : wf_heap h -> is_parent h l ->
  exists r, objs h !! l = Some r /\ kind r = ArrayMemoryMap.
Proof.
  intros Hwf (l' & r' & Hl' & Hp). pose proof (wf_kind h Hwf l' r' Hl') as Hk.
  unfold kind_ok in Hk. destruct (kind r').
  - destruct Hk; congruence.
  - destruct Hk; congruence.
  - destruct Hk; congruence.
  - destruct Hk as (_ & p & rp & Hp' & Hl & Hkp & _). exists rp. split; [congruence|done].
Qed.

(** Cloning by sharing an existing object [r2] that views the same bytes. *)
Lemma clone_post_make_shared h l r r2 :
  wf_heap h -> objs h !! l = Some r -> bounds_ok r2 -> kind_ok h r2 -> same_bounds r r2 ->
  (kind r2 = InvalidMemoryMap <-> kind r = InvalidMemoryMap) ->
  (forall a, view h r2 a = view h r a) ->
  (forall p, parent r2 = Some p -> is_parent h p) ->
  clone_post h (snd (make_shared h r2)) l (fst (make_shared h r2)) r.
Proof.
  intros Hwf Hl Hb Hk Hsb Hki Hv Hpar.
  destruct (make_shared_spec h r2 Hwf Hb Hk) as (Hwf' & Hnew & Hfr & Hold & Hp).
  split; cbn [fst make_shared] in *; try done.
  - exists r. split_and!; try done; by apply (Hold l r Hl).
  - exists r2. split_and!; try done. intros a. rewrite <- Hv.
    apply view_mono; [done|]. intros p rp _ Hpl. by apply Hold.
  - intros l0 r0 _ Hl0. by apply Hold.
  - intros l0 _ [?|Hp0]%Hp; [done|by apply Hpar].
  - intros Hc. assert (Hip : is_parent h (next_loc h)).
    { apply Hp in Hc as [?|Hc]; [done|by apply Hpar]. }
    destruct (is_parent_exists h _ Hwf Hip) as (rr & Hrr & _). congruence.
Qed.

(** [ArrayMemoryMap::Clone]: the block moves to a hidden parent, the range
    itself and its clone become copy-on-write views of it. *)
Lemma Clone_array h l r m :
  wf_heap h -> objs h !! l = Some r -> kind r = ArrayMemoryMap -> data r = Some m ->
  let stolen := with_data (MappedRangeBase_new ArrayMemoryMap (base_address r) (limit_address r)
                             (Some (name r)) (offset r)) (Some m) in
  let p := next_loc h in
  Clone h l = Ok (Pos.succ p,
    MkHeap (<[Pos.succ p := cow_range p stolen]> (<[l := cow_range p stolen]>
             (<[p := stolen]> (objs h)))) (Pos.succ (Pos.succ p))).
Proof.
  intros Hwf Hl Hk Hd stolen p. unfold Clone. rewrite (get_Some h l r Hl). cbn [mbind outcome_bind].
  rewrite Hk. unfold ArrayMemoryMap_steal. rewrite Hd. cbn [check mbind outcome_bind mret outcome_ret].
  cbv beta iota zeta. unfold make_shared at 1. cbn [put next_loc objs].
  pose proof (wf_next_fresh h Hwf) as Hfr. fold p in Hfr |- *.
  assert (Hlp : l <> p) by congruence.
  rewrite (CopyOnWriteMemoryMap_new_root _ _ stolen) by (try done; apply lookup_insert_eq).
  cbn [mbind outcome_bind deref_opt parent cow_range].
  rewrite (CopyOnWriteMemoryMap_new_root _ _ stolen); [|cbn|done].
  - cbn. unfold make_shared; cbn. do 2 f_equal. f_equal. f_equal.
    apply map_eq. intros i. rewrite !lookup_insert. repeat case_decide; first [congruence|done].
  - by rewrite lookup_insert_ne, lookup_insert_eq.
Qed.

Lemma Clone_array_post h l r :
  wf_heap h -> objs h !! l = Some r -> kind r = ArrayMemoryMap -> ~ is_parent h l ->
  exists l' h', Clone h l = Ok (l', h') /\ clone_post h h' l l' r.
Proof.
  intros Hwf Hl Hk Hnp. pose proof (wf_kind h Hwf l r Hl) as Hkd. pose proof (wf_bounds h Hwf l r Hl) as Hb.
  unfold kind_ok in Hkd. rewrite Hk in Hkd. destruct Hkd as (Hp & Hal & m & Hd & Hm).
  rewrite (Clone_array h l r m) by done. eexists _, _. split; [done|].
  set (stolen := with_data _ (Some m)). set (p := next_loc h).
  pose proof (wf_next_fresh h Hwf) as Hfr. fold p in Hfr.
  assert (Hlt : forall l0 r0, objs h !! l0 = Some r0 -> (l0 < p)%positive) by (apply (wf_fresh h Hwf)).
  pose proof (Hlt l r Hl) as Hlp.
  set (h' := MkHeap _ _).
  assert (Hnewp : objs h' !! p = Some stolen).
  { cbn. rewrite !lookup_insert. repeat case_decide; try done; lia. }
  assert (Hl' : objs h' !! l = Some (cow_range p stolen)).
  { cbn. rewrite !lookup_insert. repeat case_decide; try done; lia. }
  assert (Hc' : objs h' !! Pos.succ p = Some (cow_range p stolen)).
  { cbn. by rewrite lookup_insert_eq. }
  assert (Hother : forall l0 r0, l0 <> l -> objs h !! l0 = Some r0 -> objs h' !! l0 = Some r0).
  { intros l0 r0 Hne H0. pose proof (Hlt _ _ H0). cbn. rewrite !lookup_insert.
    repeat case_decide; try done; lia. }
  assert (Hcases : forall l0 r0, objs h' !! l0 = Some r0 ->
            (l0 = p /\ r0 = stolen) \/ ((l0 = l \/ l0 = Pos.succ p) /\ r0 = cow_range p stolen) \/
            (l0 <> l /\ objs h !! l0 = Some r0)).
  { intros l0 r0. cbn. rewrite !lookup_insert. repeat case_decide; intros; simplify_eq; naive_solver. }
  assert (Hcow : kind_ok h' (cow_range p stolen)).
  { unfold kind_ok; cbn. split; [done|]. by exists p, stolen. }
  assert (Hview : forall a, view h' (cow_range p stolen) a = view h r a).
  { intros a. unfold view. cbn [kind parent cow_range]. rewrite Hnewp, Hk.
    unfold array_read, array_get. cbn [data with_data stolen]. by rewrite Hd. }
  split.
  - split.
    + intros l0 r0 [[-> ->]|[[_ ->]|[_ H0]]]%Hcases; [done|done|by eapply wf_bounds].
    + intros l0 r0 [[-> ->]|[[_ ->]|[Hne H0]]]%Hcases; [|done|].
      * unfold kind_ok; cbn. eauto.
      * pose proof (wf_kind h Hwf l0 r0 H0) as Hk0. unfold kind_ok in *. destruct (kind r0); try done.
        destruct Hk0 as (? & q & rq & Hq & Hql & ?). split; [done|]. exists q, rq.
        split_and!; try done; try tauto. apply Hother; [|done].
        intros ->. apply Hnp. by exists l0, r0.
    + intros l0 r0 [[-> ->]|[[[->| ->] ->]|[_ H0]]]%Hcases; cbn; fold p; try lia.
      pose proof (Hlt _ _ H0). lia.
  - destruct (objs h !! Pos.succ p) eqn:E; [|done]. apply Hlt in E. lia.
  - exists (cow_range p stolen). split_and!; try done. by rewrite Hk.
  - exists (cow_range p stolen). split_and!; try done. by rewrite Hk.
  - intros l0 r0 Hne H0. split; [by apply Hother|]. intros a.
    apply view_mono; [by eapply wf_kind|]. intros q rq Hq. apply Hother.
    intros ->. apply Hnp. by exists l0, r0.
  - intros l0 [r0 H0] (l1 & r1 & [[-> ->]|[[_ ->]|[_ H1]]]%Hcases & Hp1); [done| |].
    + injection Hp1 as <-. congruence.
    + by exists l1, r1.
  - intros (l1 & r1 & [[-> ->]|[[_ ->]|[_ H1]]]%Hcases & Hp1); [done| |].
    + injection Hp1. lia.
    + assert (Hip : is_parent h (Pos.succ p)) by (by exists l1, r1).
      destruct (is_parent_exists h _ Hwf Hip) as (rr & Hrr & _). apply Hlt in Hrr. lia.
Qed.

(** Cloning a range that no copy-on-write range uses as its parent: both the
    range and its clone read as the range did before, nothing else changes. *)
Lemma Clone_spec h l r :
  wf_heap h -> objs h !! l = Some r -> ~ is_parent h l ->
  exists l' h', Clone h l = Ok (l', h') /\ clone_post h h' l l' r.
Proof.
  intros Hwf Hl Hnp. pose proof (wf_kind h Hwf l r Hl) as Hkd. pose proof (wf_bounds h Hwf l r Hl) as Hb.
  destruct (decide (kind r = ArrayMemoryMap)) as [Hka|Hna]; [by apply Clone_array_post|].
  unfold Clone. rewrite (get_Some h l r Hl). cbn [mbind outcome_bind]. unfold kind_ok in Hkd.
  destruct (kind r) eqn:Ek; [|done| |].
  - eexists _, _. split; [apply f_equal, surjective_pairing|].
    apply clone_post_make_shared; try done; intros; unfold view; by rewrite Ek.
  - eexists _, _. split; [apply f_equal, surjective_pairing|].
    apply clone_post_make_shared; try done; intros; unfold view; by rewrite Ek.
  - destruct Hkd as (Hd & p & rp & Hp & Hpl & Hkp & Hbp & Hlp). rewrite Hp. cbn [mbind outcome_bind deref_opt].
    pose proof (wf_kind h Hwf p rp Hpl) as Hkr. unfold kind_ok in Hkr. rewrite Hkp in Hkr.
    rewrite (CopyOnWriteMemoryMap_new_root h p rp) by (try done; tauto).
    cbn [mbind outcome_bind mret outcome_ret]. eexists _, _. split; [apply f_equal, surjective_pairing|].
    apply clone_post_make_shared; try done.
    + unfold bounds_ok in *; cbn. by rewrite Hbp, Hlp.
    + unfold kind_ok; cbn. split; [done|]. by exists p, rp.
    + by rewrite Ek.
    + intros a. unfold view. cbn. by rewrite Ek, Hp.
    + intros q [= <-]. by exists l, r.
Qed.

(** ** Copying part of a range *)

Lemma array_copy_spec r m dst md n addr :
  bounds_ok r -> bounds_ok dst -> data r = Some m -> data dst = Some md ->
  base_address r <= addr -> addr + Z.of_nat n <= limit_address r ->
  base_address dst <= addr -> addr + Z.of_nat n <= limit_address dst ->
  exists md', array_copy r n addr dst = Ok (with_data dst (Some md')) /\
    forall i, md' !! i =
      if decide (addr - base_address dst <= i < addr - base_address dst + Z.of_nat n)
      then Some (default 0 (m !! (base_address dst + i - base_address r))) else md !! i.
Proof.
  revert dst md addr. induction n as [|n IH]; intros dst md addr Hb Hbd Hd Hdd H1 H2 H3 H4;
    cbn [array_copy].
  - exists md. split.
    + destruct dst; cbn in *. by subst.
    + intros i. by rewrite decide_False by lia.
  - unfold bounds_ok in *.
    assert (Hc : Contains r addr = true).
    { unfold Contains. destruct (Z.leb_spec (base_address r) addr), (Z.ltb_spec addr (limit_address r)); try done; lia. }
    rewrite Hc. unfold array_get, array_set, Size. rewrite Hd, Hdd, !sub64_small by lia.
    destruct (Z.ltb_spec (addr - base_address r) (limit_address r - base_address r)); [|lia].
    destruct (Z.ltb_spec (addr - base_address dst) (limit_address dst - base_address dst)); [|lia].
    cbn [mbind outcome_bind].
    set (v := default 0 _).
    destruct (IH (with_data dst (Some (<[addr - base_address dst := v]> md)))
                (<[addr - base_address dst := v]> md) (addr + 1)) as (md' & -> & Hmd');
      try done; cbn in *; try lia.
    exists md'. split; [done|]. intros i. rewrite Hmd'.
    destruct (decide (i = addr - base_address dst)) as [->|Hne].
    + rewrite decide_False by lia. rewrite decide_True by lia. rewrite lookup_insert_eq.
      unfold v. do 3 f_equal. lia.
    + rewrite lookup_insert_ne by done. repeat case_decide; try lia; done.
Qed.

(** Copying [[cb, cl)] out of a range that is not copy-on-write makes a new
    range of the same kind with those bounds and the same bytes. *)
Lemma Copy_spec h l r cb cl :
  wf_heap h -> objs h !! l = Some r -> kind r <> CopyOnWriteMemoryMap ->
  base_address r <= cb <= cl -> cl <= limit_address r ->
  (kind r = ArrayMemoryMap -> aligned (cl - cb)) ->
  exists r2,
    Copy h l cb cl = Ok (make_shared h r2) /\ bounds_ok r2 /\ kind_ok h r2 /\
    base_address r2 = cb /\ limit_address r2 = cl /\ kind r2 = kind r /\ parent r2 = None /\
    forall a, cb <= a < cl -> view h r2 a = view h r a.
Proof.
  intros Hwf Hl Hk H1 H2 Hal. pose proof (wf_kind h Hwf l r Hl) as Hkd. pose proof (wf_bounds h Hwf l r Hl) as Hb.
  unfold Copy. rewrite (get_Some h l r Hl). cbn [mbind outcome_bind]. set (off := add64 _ _).
  unfold kind_ok in Hkd. destruct (kind r) eqn:Ek; [| | |done].
  - eexists. split_and!; [done|..]; try done; [unfold bounds_ok in *; cbn; lia|].
    intros. unfold view. by rewrite Ek.
  - destruct Hkd as (Hp & Hal0 & m & Hd & Hm). unfold bounds_ok in Hb.
    rewrite ArrayMemoryMap_new_ok by (try lia; auto). cbn [mbind outcome_bind].
    set (dst := with_data _ (Some ∅)).
    destruct (array_copy_spec r m dst ∅ (Z.to_nat (cl - cb)) cb) as (md & -> & Hmd);
      try done; unfold bounds_ok; cbn; try lia.
    eexists. split; [done|]. split; [unfold bounds_ok; cbn; lia|].
    split; [|do 4 (split; [done|])].
    + unfold kind_ok; cbn. split_and!; auto. exists md. split; [done|].
      intros i v. rewrite Hmd. case_decide; [|by rewrite lookup_empty]. intros [= <-].
      destruct (m !! _) eqn:E; cbn; [by eapply Hm|unfold byte_ok; lia].
    + intros a Ha. unfold view. rewrite Ek. cbn [kind with_data MappedRangeBase_new dst].
      rewrite (array_read_Contains r m); try done.
      * rewrite (array_read_Contains _ md); try done; cbn.
        -- rewrite Hmd; cbn. rewrite decide_True by lia. cbn. do 4 f_equal. lia.
        -- unfold bounds_ok; cbn; lia.
        -- unfold Contains; cbn. destruct (Z.leb_spec cb a), (Z.ltb_spec a cl); try done; lia.
      * unfold Contains. destruct (Z.leb_spec (base_address r) a), (Z.ltb_spec a (limit_address r)); try done; lia.
  - eexists. split_and!; [done|..]; try done; [unfold bounds_ok in *; cbn; lia|].
    intros. unfold view. by rewrite Ek.
Qed.

(** ** The classes of mapped ranges

    Models the classes of [vmill/Program/MappedRange.cpp] one by one, with
    their destructors: each kind of range has a table of virtual functions,
    the copy-on-write class calls its parent through the parent's table, and a
    method that replaces its object ([new (this) ...]) replaces the table.
    [MappedRange] describes the same methods as functions that dispatch on
    the kind; the theorems say that virtual calls compute those functions. *)

Module RangeClasses.
(** The virtual functions of a range, bound to the object at a location. *)
Record RangeOps := MkRangeOps {
  v_IsValid : Heap -> outcome bool;
  v_Read : Heap -> Z -> outcome (bool * Z);
  v_Write : Heap -> Z -> Z -> outcome (bool * Heap);
  v_Clone : Heap -> outcome (loc * Heap);
  v_Copy : Heap -> Z -> Z -> outcome (loc * Heap);
  v_ToReadWrite : Heap -> Z -> outcome (VirtualAddress * Heap);
  v_ToReadOnly : Heap -> Z -> outcome VirtualAddress;
  v_ComputeCodeVersion : Heap -> outcome (Z * Heap);
  v_Provider : Heap -> outcome string
}.

(** What [MappedRange] and [MappedRangeBase] do. *)
Definition base_IsValid (h : Heap) : outcome bool := Ok true.
Definition base_ToReadWriteVirtualAddress (h : Heap) (addr : Z) : outcome (VirtualAddress * Heap) := Ok (NullPtr, h).
Definition base_ToReadOnlyVirtualAddress (h : Heap) (addr : Z) : outcome VirtualAddress := Ok NullPtr.

(** [make_shared<K>(base, limit, Name(), offset)] *)
Definition make_range (k : RangeKind) (h : Heap) (r : MappedRange) (base limit off : Z) : outcome (loc * Heap) :=
  Ok (make_shared h (MappedRangeBase_new k base limit (Some (name r)) off)).

(** The offset of a part of a range. *)
Definition part_offset (r : MappedRange) (clone_base : Z) : Z := add64 (offset r) (sub64 clone_base (base_address r)).

(** ** [InvalidMemoryMap] *)

Definition invalid_Read (h : Heap) (addr : Z) : outcome (bool * Z) := Ok (false, 0).
Definition invalid_Write (h : Heap) (addr val : Z) : outcome (bool * Heap) := Ok (false, h).
Definition invalid_IsValid (h : Heap) : outcome bool := Ok false.
Definition invalid_Clone (l : loc) (h : Heap) : outcome (loc * Heap) :=
  r ← get h l; make_range InvalidMemoryMap h r (base_address r) (limit_address r) (offset r).
Definition invalid_Copy (l : loc) (h : Heap) (clone_base clone_limit : Z) : outcome (loc * Heap) :=
  r ← get h l; make_range InvalidMemoryMap h r clone_base clone_limit (part_offset r clone_base).
Definition invalid_ComputeCodeVersion (h : Heap) : outcome (Z * Heap) := Ok (0, h).
Definition invalid_Provider (h : Heap) : outcome string := Ok "invalid".

Definition InvalidMemoryMap_ops (l : loc) : RangeOps :=
  MkRangeOps invalid_IsValid invalid_Read invalid_Write (invalid_Clone l) (invalid_Copy l)
    base_ToReadWriteVirtualAddress base_ToReadOnlyVirtualAddress invalid_ComputeCodeVersion invalid_Provider.

(** ** [ArrayMemoryMap] *)

Definition array_Read (l : loc) (h : Heap) (address : Z) : outcome (bool * Z) :=
  r ← get h l; v ← array_get r (sub64 address (base_address r)); Ok (true, v).

Definition array_Write (l : loc) (h : Heap) (address val : Z) : outcome (bool * Heap) :=
  r ← get h l; r ← array_set r (sub64 address (base_address r)) val; Ok (true, put h l r).

Definition array_ToReadWriteVirtualAddress (l : loc) (h : Heap) (address : Z) : outcome (VirtualAddress * Heap) :=
  r ← get h l; Ok (DataPtr l (sub64 address (base_address r)), h).

Definition array_ToReadOnlyVirtualAddress (l : loc) (h : Heap) (address : Z) : outcome VirtualAddress :=
  r ← get h l; Ok (DataPtr l (sub64 address (base_address r))).

Definition array_Copy (l : loc) (h : Heap) (clone_base clone_limit : Z) : outcome (loc * Heap) :=
  r ← get h l;
  dst ← ArrayMemoryMap_new clone_base clone_limit (Some (name r)) (part_offset r clone_base);
  dst ← array_copy r (Z.to_nat (clone_limit - clone_base)) clone_base dst;
  Ok (make_shared h dst).

Definition array_Provider (h : Heap) : outcome string := Ok "array".

Section code_version.
(** The hash of the bytes. *)
Context (Hash : list Z -> Z).

Definition array_ComputeCodeVersion (l : loc) (h : Heap) : outcome (Z * Heap) :=
  r ← get h l;
  if code_version_is_valid r then Ok (code_version r, h)
  else
    bs ← array_bytes r;
    let r := with_version r (Hash bs) (code_version_is_valid r) in
    let r := with_version r (code_version r) true in
    Ok (code_version r, put h l r).

(** ** [CopyOnWriteMemoryMap]; [call p] is the table of the parent *)

Section cow.
Context (call : loc -> Heap -> RangeOps).

Definition cow_IsValid (l : loc) (h : Heap) : outcome bool :=
  r ← get h l; p ← deref_opt (parent r); v_IsValid (call p h) h.
Definition cow_Read (l : loc) (h : Heap) (address : Z) : outcome (bool * Z) :=
  r ← get h l; p ← deref_opt (parent r); v_Read (call p h) h address.
Definition cow_ToReadOnlyVirtualAddress (l : loc) (h : Heap) (address : Z) : outcome VirtualAddress :=
  r ← get h l; p ← deref_opt (parent r); v_ToReadOnly (call p h) h address.
Definition cow_ComputeCodeVersion (l : loc) (h : Heap) : outcome (Z * Heap) :=
  r ← get h l; p ← deref_opt (parent r); v_ComputeCodeVersion (call p h) h.
Definition cow_Provider (l : loc) (h : Heap) : outcome string :=
  r ← get h l; p ← deref_opt (parent r); s ← v_Provider (call p h) h; Ok ("copy-on-write (" +:+ s +:+ ")").

(** The loop of [ToReadWriteVirtualAddress]: the parent's bytes. *)
Fixpoint cow_read_parent (h : Heap) (p : loc) (n : nat) (addr index : Z) (m : gmap Z Z) : outcome (gmap Z Z) :=
  match n with
  | O => Ok m
  | S n => '(_, v) ← v_Read (call p h) h addr; cow_read_parent h p n (addr + 1) (index + 1) (<[index := v]> m)
  end.

(** The object becomes an [ArrayMemoryMap] and the call goes on there. *)
Definition cow_ToReadWriteVirtualAddress (l : loc) (h : Heap) (address : Z) : outcome (VirtualAddress * Heap) :=
  r ← get h l;
  parent_ptr ← deref_opt (parent r);
  rp ← get h parent_ptr;
  self ← ArrayMemoryMap_new (base_address r) (limit_address r) (Some (name rp)) (offset r);
  let h := put h l self in
  m ← cow_read_parent h parent_ptr (Z.to_nat (limit_address r - base_address r)) (base_address r) 0 ∅;
  array_ToReadWriteVirtualAddress l (put h l (with_data self (Some m))) address.

Definition cow_Write (l : loc) (h : Heap) (address val : Z) : outcome (bool * Heap) :=
  '(byte_ptr, h) ← cow_ToReadWriteVirtualAddress l h address;
  h ← store h byte_ptr [val] 0;
  Ok (true, h).

Definition cow_Clone (l : loc) (h : Heap) : outcome (loc * Heap) :=
  r ← get h l;
  p ← deref_opt (parent r);
  c ← CopyOnWriteMemoryMap_new h p;
  Ok (make_shared h c).

(** The constructor for a part of a range, [parent] being the member of the
    object under construction: its [shared_ptr] is still empty when the offset
    is computed. *)
Definition CopyOnWriteMemoryMap_part (h : Heap) (parent_ : loc) (member : option loc) (base limit : Z) : outcome MappedRange :=
  rp ← get h parent_;
  m ← deref_opt member;
  rm ← get h m;
  root ← root_of (chain_fuel h) h parent_;
  let r := MappedRangeBase_new CopyOnWriteMemoryMap base limit (Some (name rp)) (add64 (offset rp) (sub64 base (base_address rm))) in
  Ok (MkRange (kind r) (base_address r) (limit_address r) (name r) (offset r) (code_version r) (code_version_is_valid r) (data r) (Some root)).

Definition cow_Copy (l : loc) (h : Heap) (clone_base clone_limit : Z) : outcome (loc * Heap) :=
  r ← get h l;
  p ← deref_opt (parent r);
  c ← CopyOnWriteMemoryMap_part h p None clone_base clone_limit;
  Ok (make_shared h c).

Definition CopyOnWriteMemoryMap_ops (l : loc) : RangeOps :=
  MkRangeOps (cow_IsValid l) (cow_Read l) (cow_Write l) (cow_Clone l) (cow_Copy l)
    (cow_ToReadWriteVirtualAddress l) (cow_ToReadOnlyVirtualAddress l) (cow_ComputeCodeVersion l) (cow_Provider l).
End cow.

(** [ArrayMemoryMap::Clone]: the object turns into a copy-on-write range of
    the range that took over its data, and that is cloned. *)
Definition array_Clone (l : loc) (h : Heap) : outcome (loc * Heap) :=
  r ← get h l;
  '(stolen, rest) ← ArrayMemoryMap_steal r;
  let '(p, h) := make_shared (put h l rest) stolen in
  self ← CopyOnWriteMemoryMap_new h p;
  cow_Clone l (put h l self).

Definition ArrayMemoryMap_ops (l : loc) : RangeOps :=
  MkRangeOps base_IsValid (array_Read l) (array_Write l) (array_Clone l) (array_Copy l)
    (array_ToReadWriteVirtualAddress l) (array_ToReadOnlyVirtualAddress l) (array_ComputeCodeVersion l) array_Provider.

(** ** [EmptyMemoryMap] *)

Definition empty_Read (h : Heap) (addr : Z) : outcome (bool * Z) := Ok (true, 0).
Definition empty_ToReadWriteVirtualAddress (l : loc) (h : Heap) (addr : Z) : outcome (VirtualAddress * Heap) :=
  r ← get h l;
  self ← ArrayMemoryMap_new (base_address r) (limit_address r) (Some (name r)) (offset r);
  array_ToReadWriteVirtualAddress l (put h l self) addr.
Definition empty_Write (l : loc) (h : Heap) (address val : Z) : outcome (bool * Heap) :=
  '(byte_ptr, h) ← empty_ToReadWriteVirtualAddress l h address;
  h ← store h byte_ptr [val] 0;
  Ok (true, h).
Definition empty_Clone (l : loc) (h : Heap) : outcome (loc * Heap) :=
  r ← get h l; make_range EmptyMemoryMap h r (base_address r) (limit_address r) (offset r).
Definition empty_Copy (l : loc) (h : Heap) (clone_base clone_limit : Z) : outcome (loc * Heap) :=
  r ← get h l; make_range EmptyMemoryMap h r clone_base clone_limit (part_offset r clone_base).
Definition empty_ToReadOnlyVirtualAddress (h : Heap) (addr : Z) : outcome VirtualAddress := Ok ZeroesPtr.
Definition empty_ComputeCodeVersion (h : Heap) : outcome (Z * Heap) := Ok (0, h).
Definition empty_Provider (h : Heap) : outcome string := Ok "empty".

Definition EmptyMemoryMap_ops (l : loc) : RangeOps :=
  MkRangeOps base_IsValid empty_Read (empty_Write l) (empty_Clone l) (empty_Copy l)
    (empty_ToReadWriteVirtualAddress l) empty_ToReadOnlyVirtualAddress empty_ComputeCodeVersion empty_Provider.

(** ** Virtual calls *)

(** A missing object: every call is undefined. *)
Definition no_ops : RangeOps :=
  MkRangeOps (fun _ => Undefined) (fun _ _ => Undefined) (fun _ _ _ => Undefined) (fun _ => Undefined) (fun _ _ _ => Undefined)
    (fun _ _ => Undefined) (fun _ _ => Undefined) (fun _ => Undefined) (fun _ => Undefined).
Definition diverging_ops : RangeOps :=
  MkRangeOps (fun _ => Diverges) (fun _ _ => Diverges) (fun _ _ _ => Diverges) (fun _ => Diverges) (fun _ _ _ => Diverges)
    (fun _ _ => Diverges) (fun _ _ => Diverges) (fun _ => Diverges) (fun _ => Diverges).

(** The table that the object at [l] points to; [fuel] bounds the chain of
    parents. *)
Fixpoint vtable (fuel : nat) (l : loc) (h : Heap) : RangeOps :=
  match fuel with
  | O => diverging_ops
  | S fuel =>
      match objs h !! l with
      | None => no_ops
      | Some r =>
          match kind r with
          | InvalidMemoryMap => InvalidMemoryMap_ops l
          | ArrayMemoryMap => ArrayMemoryMap_ops l
          | EmptyMemoryMap => EmptyMemoryMap_ops l
          | CopyOnWriteMemoryMap => CopyOnWriteMemoryMap_ops (vtable fuel) l
          end
      end
  end.

(** [~MappedRangeBase], after the destructor of the class: an array gives its
    block back, which resets [data]; the others leave it alone.  The result is
    whether a block is freed, and the parent whose reference goes away. *)
Definition class_destructor (r : MappedRange) : bool * MappedRange :=
  match kind r with
  | ArrayMemoryMap => (match data r with Some _ => true | None => false end, with_data r None)
  | InvalidMemoryMap | EmptyMemoryMap | CopyOnWriteMemoryMap => (false, r)
  end.

Definition destroy (r : MappedRange) : outcome (bool * option loc) :=
  let '(freed, r) := class_destructor r in
  check (match data r with None => true | Some _ => false end) ;;
  Ok (freed, parent r).

(** ** Virtual calls compute the functions of [MappedRange] *)

Lemma vtable_IsValid fuel h l : v_IsValid (vtable fuel l h) h = IsValid_fuel fuel h l.
Proof.
  revert l. induction fuel as [|fuel IH]; intros l; cbn [vtable IsValid_fuel]; [done|].
  unfold get. destruct (objs h !! l) as [r|] eqn:E; [|done]. cbn [deref_opt mbind outcome_bind].
  destruct (kind r); try done. cbn [CopyOnWriteMemoryMap_ops v_IsValid]. unfold cow_IsValid, get. rewrite E. cbn [deref_opt mbind outcome_bind].
  destruct (parent r); [|done]. apply IH.
Qed.

Lemma vtable_Read fuel h l a : v_Read (vtable fuel l h) h a = Read_fuel fuel h l a.
Proof.
  revert l. induction fuel as [|fuel IH]; intros l; cbn [vtable Read_fuel]; [done|].
  unfold get. destruct (objs h !! l) as [r|] eqn:E; [|done]. cbn [deref_opt mbind outcome_bind].
  destruct (kind r); try done; cbn [ArrayMemoryMap_ops CopyOnWriteMemoryMap_ops v_Read].
  - unfold array_Read, get. by rewrite E.
  - unfold cow_Read, get. rewrite E. cbn [deref_opt mbind outcome_bind]. destruct (parent r); [|done]. apply IH.
Qed.

Lemma vtable_ToReadOnly fuel h l a : v_ToReadOnly (vtable fuel l h) h a = ToReadOnlyVirtualAddress_fuel fuel h l a.
Proof.
  revert l. induction fuel as [|fuel IH]; intros l; cbn [vtable ToReadOnlyVirtualAddress_fuel]; [done|].
  unfold get. destruct (objs h !! l) as [r|] eqn:E; [|done]. cbn [deref_opt mbind outcome_bind].
  destruct (kind r); try done; cbn [ArrayMemoryMap_ops CopyOnWriteMemoryMap_ops v_ToReadOnly].
  - unfold array_ToReadOnlyVirtualAddress, get. by rewrite E.
  - unfold cow_ToReadOnlyVirtualAddress, get. rewrite E. cbn [deref_opt mbind outcome_bind]. destruct (parent r); [|done]. apply IH.
Qed.

Lemma vtable_Provider fuel h l : v_Provider (vtable fuel l h) h = Provider_fuel fuel h l.
Proof.
  revert l. induction fuel as [|fuel IH]; intros l; cbn [vtable Provider_fuel]; [done|].
  unfold get. destruct (objs h !! l) as [r|] eqn:E; [|done]. cbn [deref_opt mbind outcome_bind].
  destruct (kind r); try done. cbn [CopyOnWriteMemoryMap_ops v_Provider]. unfold cow_Provider, get. rewrite E. cbn [deref_opt mbind outcome_bind].
  destruct (parent r); [|done]. cbn [deref_opt mbind outcome_bind]. by rewrite IH.
Qed.

Lemma vtable_ComputeCodeVersion fuel h l : v_ComputeCodeVersion (vtable fuel l h) h = ComputeCodeVersion_fuel Hash fuel h l.
Proof.
  revert l. induction fuel as [|fuel IH]; intros l; cbn [vtable ComputeCodeVersion_fuel]; [done|].
  unfold get. destruct (objs h !! l) as [r|] eqn:E; [|done]. cbn [deref_opt mbind outcome_bind].
  destruct (kind r); try done; cbn [ArrayMemoryMap_ops CopyOnWriteMemoryMap_ops v_ComputeCodeVersion].
  - unfold array_ComputeCodeVersion, get. rewrite E. done.
  - unfold cow_ComputeCodeVersion, get. rewrite E. cbn [deref_opt mbind outcome_bind]. destruct (parent r); [|done]. apply IH.
Qed.

Lemma cow_read_parent_eq fuel h p n addr index m :
  (forall a, v_Read (vtable fuel p h) h a = Read h p a) ->
  cow_read_parent (vtable fuel) h p n addr index m = cow_fill h p n addr index m.
Proof.
  intros Hr. revert addr index m. induction n as [|n IH]; intros addr index m; cbn [cow_read_parent cow_fill]; [done|].
  rewrite Hr. destruct (Read h p addr) as [[b v]| | |]; cbn; try done.
Qed.

(** The parent of a copy-on-write range is an array, so one more call
    suffices, also while the range is being replaced. *)
Lemma parent_read h l r self p fuel a :
  wf_heap h -> objs h !! l = Some r -> kind r = CopyOnWriteMemoryMap -> parent r = Some p ->
  v_Read (vtable (S fuel) p (put h l self)) (put h l self) a = Read (put h l self) p a.
Proof.
  intros Hwf Hl Hk Hp. rewrite vtable_Read. unfold Read.
  pose proof (wf_kind _ Hwf _ _ Hl) as Hok. unfold kind_ok in Hok. rewrite Hk in Hok.
  destruct Hok as (_ & p' & rp & Hp' & Hrp & Hkp & _). assert (p' = p) as -> by congruence.
  assert (Hne : l <> p) by (intros ->; congruence).
  destruct (chain_fuel_SS (put h l self)) as [k ->]. cbn [Read_fuel]. unfold get. rewrite put_lookup_ne by done.
  rewrite Hrp. cbn [deref_opt mbind outcome_bind]. by rewrite Hkp.
Qed.

Lemma vtable_ToReadWrite fuel h l r a :
  wf_heap h -> objs h !! l = Some r -> v_ToReadWrite (vtable (S (S fuel)) l h) h a = ToReadWriteVirtualAddress h l a.
Proof.
  intros Hwf Hl. cbn [vtable]. rewrite Hl. unfold ToReadWriteVirtualAddress. rewrite (get_Some h l r Hl). cbn [mbind outcome_bind].
  destruct (kind r) eqn:Hk; cbn [InvalidMemoryMap_ops ArrayMemoryMap_ops EmptyMemoryMap_ops CopyOnWriteMemoryMap_ops v_ToReadWrite].
  - done.
  - unfold array_ToReadWriteVirtualAddress, get. by rewrite Hl.
  - unfold empty_ToReadWriteVirtualAddress. rewrite (get_Some h l r Hl). cbn [mbind outcome_bind].
    destruct (ArrayMemoryMap_new _ _ _ _) as [self| | |]; cbn [mbind outcome_bind]; [|done..].
    unfold array_ToReadWriteVirtualAddress, get. by rewrite put_lookup_eq.
  - unfold cow_ToReadWriteVirtualAddress. rewrite (get_Some h l r Hl). cbn [mbind outcome_bind].
    destruct (parent r) as [p|] eqn:Hp; cbn [deref_opt mbind outcome_bind]; [|done].
    destruct (get h p) as [rp| | |]; cbn [mbind outcome_bind]; [|done..].
    destruct (ArrayMemoryMap_new _ _ _ _) as [self| | |]; cbn [mbind outcome_bind]; [|done..].
    rewrite (cow_read_parent_eq (S fuel)) by (intros b; by apply (parent_read h l r self p fuel b)).
    destruct (cow_fill _ _ _ _ _ _) as [m| | |]; cbn [mbind outcome_bind]; [|done..].
    unfold array_ToReadWriteVirtualAddress, get. by rewrite put_lookup_eq.
Qed.

Lemma vtable_Write fuel h l r a v :
  wf_heap h -> objs h !! l = Some r -> v_Write (vtable (S (S fuel)) l h) h a v = Write h l a v.
Proof.
  intros Hwf Hl. pose proof (vtable_ToReadWrite fuel h l r a Hwf Hl) as Hrw. revert Hrw. cbn [vtable]. rewrite Hl.
  unfold Write. rewrite (get_Some h l r Hl). cbn [mbind outcome_bind].
  destruct (kind r); cbn [InvalidMemoryMap_ops ArrayMemoryMap_ops EmptyMemoryMap_ops CopyOnWriteMemoryMap_ops v_ToReadWrite v_Write].
  - done.
  - intros _. unfold array_Write, get. by rewrite Hl.
  - unfold empty_Write. by intros ->.
  - unfold cow_Write. by intros ->.
Qed.

Lemma vtable_Clone fuel h l r :
  objs h !! l = Some r -> v_Clone (vtable (S fuel) l h) h = Clone h l.
Proof.
  intros Hl. cbn [vtable]. rewrite Hl. unfold Clone. rewrite (get_Some h l r Hl). cbn [mbind outcome_bind].
  destruct (kind r) eqn:Hk; cbn [InvalidMemoryMap_ops ArrayMemoryMap_ops EmptyMemoryMap_ops CopyOnWriteMemoryMap_ops v_Clone].
  - unfold invalid_Clone, get. by rewrite Hl.
  - unfold array_Clone, get. rewrite Hl. cbn [deref_opt mbind outcome_bind].
    destruct (ArrayMemoryMap_steal r) as [[stolen rest]| | |]; cbn [mbind outcome_bind]; [|done..].
    destruct (make_shared _ _) as [p h1].
    destruct (CopyOnWriteMemoryMap_new h1 p) as [self| | |]; cbn [mbind outcome_bind]; [|done..].
    unfold cow_Clone, get. by rewrite put_lookup_eq.
  - unfold empty_Clone, get. by rewrite Hl.
  - unfold cow_Clone, get. by rewrite Hl.
Qed.

Lemma vtable_Copy fuel h l r cb cl :
  wf_heap h -> objs h !! l = Some r -> v_Copy (vtable (S fuel) l h) h cb cl = Copy h l cb cl.
Proof.
  intros Hwf Hl. cbn [vtable]. rewrite Hl. unfold Copy. rewrite (get_Some h l r Hl). cbn [mbind outcome_bind].
  destruct (kind r) eqn:Hk; cbn [InvalidMemoryMap_ops ArrayMemoryMap_ops EmptyMemoryMap_ops CopyOnWriteMemoryMap_ops v_Copy].
  - unfold invalid_Copy, get. by rewrite Hl.
  - unfold array_Copy, get. by rewrite Hl.
  - unfold empty_Copy, get. by rewrite Hl.
  - pose proof (wf_kind _ Hwf _ _ Hl) as Hok. unfold kind_ok in Hok. rewrite Hk in Hok.
    destruct Hok as (_ & p & rp & Hp & Hrp & _).
    unfold cow_Copy, CopyOnWriteMemoryMap_part, get. rewrite Hl. cbn [deref_opt mbind outcome_bind]. rewrite Hp.
    cbn [deref_opt mbind outcome_bind]. by rewrite Hrp.
Qed.

(** Calling a range through the table of its class computes the functions of
    [MappedRange], whatever the class is and wherever it hands the call on. *)
Theorem range_vtable_correct h l r :
  wf_heap h -> objs h !! l = Some r ->
  let v := vtable (chain_fuel h) l h in
  v_IsValid v h = IsValid h l /\ (forall a, v_Read v h a = Read h l a) /\ (forall a b, v_Write v h a b = Write h l a b) /\
  v_Clone v h = Clone h l /\ (forall cb cl, v_Copy v h cb cl = Copy h l cb cl) /\
  (forall a, v_ToReadWrite v h a = ToReadWriteVirtualAddress h l a) /\
  (forall a, v_ToReadOnly v h a = ToReadOnlyVirtualAddress h l a) /\
  v_ComputeCodeVersion v h = ComputeCodeVersion Hash h l /\ v_Provider v h = Provider h l.
Proof.
  intros Hwf Hl. cbv zeta. destruct (chain_fuel_SS h) as [k Hk]. split_and!.
  - apply vtable_IsValid.
  - intros a. apply vtable_Read.
  - intros a b. rewrite Hk. by apply (vtable_Write k h l r).
  - rewrite Hk. by apply (vtable_Clone _ h l r).
  - intros cb cl. rewrite Hk. by apply (vtable_Copy _ h l r).
  - intros a. rewrite Hk. by apply (vtable_ToReadWrite k h l r).
  - intros a. apply vtable_ToReadOnly.
  - apply vtable_ComputeCodeVersion.
  - apply vtable_Provider.
Qed.
End code_version.

(** Destroying a range of a well-formed heap passes the check of
    [~MappedRangeBase] and frees a block exactly when the range is an array. *)
Lemma destroy_ok h l r :
  wf_heap h -> objs h !! l = Some r -> destroy r = Ok (bool_decide (kind r = ArrayMemoryMap), parent r).
Proof.
  intros Hwf Hl. pose proof (wf_kind _ Hwf _ _ Hl) as Hok. unfold kind_ok in Hok. unfold destroy, class_destructor.
  destruct (kind r) eqn:Hk; cbv iota zeta.
  - destruct Hok as [-> _]. done.
  - destruct Hok as (_ & _ & m & -> & _). done.
  - destruct Hok as [-> _]. done.
  - destruct Hok as [-> _]. done.
Qed.
End RangeClasses.
