(* ===== verification/AddressSpace.v ===== *)
(** * Address spaces

    Models [vmill/Program/AddressSpace.{h,cpp}]: the list of mapped ranges of
    a guest process, the page-permission sets, the page-to-range indices and
    the two small pointer caches in front of them.

    An [AddressSpace] holds locations of the range heap of [MappedRange.v];
    every operation takes and returns the heap.  Logging is not modelled.  The
    [--version_code] flag and the hash function are parameters. *)

From S2P Require Import Prelude Pages MappedRange.

Definition kRangeCacheSize : Z := 256.
Definition kRangeCacheMask : Z := kRangeCacheSize - 1.

(** [last_map_cache] and [wnx_last_map_cache] have 257 entries; an absent
    entry is the null pointer. *)
Record AddressSpace := MkAS {
  maps : list loc;
  page_to_map : gmap Z loc;
  wnx_page_to_map : gmap Z loc;
  min_addr : Z;
  addr_mask : Z;
  invalid : loc;
  last_map_cache : gmap Z loc;
  wnx_last_map_cache : gmap Z loc;
  page_is_readable : gset Z;
  page_is_writable : gset Z;
  page_is_executable : gset Z;
  trace_heads : gset Z;
  is_dead : bool
}.

Definition with_maps (s : AddressSpace) (ms : list loc) : AddressSpace :=
  MkAS ms (page_to_map s) (wnx_page_to_map s) (min_addr s) (addr_mask s) (invalid s)
    (last_map_cache s) (wnx_last_map_cache s) (page_is_readable s) (page_is_writable s)
    (page_is_executable s) (trace_heads s) (is_dead s).

Definition with_perms (s : AddressSpace) (r w x : gset Z) : AddressSpace :=
  MkAS (maps s) (page_to_map s) (wnx_page_to_map s) (min_addr s) (addr_mask s) (invalid s)
    (last_map_cache s) (wnx_last_map_cache s) r w x (trace_heads s) (is_dead s).

Definition with_caches (s : AddressSpace) (c wc : gmap Z loc) : AddressSpace :=
  MkAS (maps s) (page_to_map s) (wnx_page_to_map s) (min_addr s) (addr_mask s) (invalid s)
    c wc (page_is_readable s) (page_is_writable s) (page_is_executable s)
    (trace_heads s) (is_dead s).

Definition with_heads (s : AddressSpace) (t : gset Z) : AddressSpace :=
  MkAS (maps s) (page_to_map s) (wnx_page_to_map s) (min_addr s) (addr_mask s) (invalid s)
    (last_map_cache s) (wnx_last_map_cache s) (page_is_readable s) (page_is_writable s)
    (page_is_executable s) t (is_dead s).

(** [arch->address_size] selects the mask. *)
Definition GetAddressMask (address_size : Z) : Z :=
  if address_size =? 32 then 4294967295 else not64 0.

(** ** Permissions *)

Definition CanReadAligned (s : AddressSpace) (addr : Z) : bool :=
  bool_decide (addr ∈ page_is_readable s).
Definition CanWriteAligned (s : AddressSpace) (addr : Z) : bool :=
  bool_decide (addr ∈ page_is_writable s).
Definition CanExecuteAligned (s : AddressSpace) (addr : Z) : bool :=
  bool_decide (addr ∈ page_is_executable s).

Definition CanRead (s : AddressSpace) (addr : Z) : bool :=
  CanReadAligned s (AlignDownToPage (Z.land addr (addr_mask s))).
Definition CanWrite (s : AddressSpace) (addr : Z) : bool :=
  CanWriteAligned s (AlignDownToPage (Z.land addr (addr_mask s))).
Definition CanExecute (s : AddressSpace) (addr : Z) : bool :=
  CanExecuteAligned s (AlignDownToPage (Z.land addr (addr_mask s))).

(** ** Indices *)

(** The maps with the ranges they point to. *)
Fixpoint resolve (h : Heap) (ls : list loc) : outcome (list (loc * MappedRange)) :=
  match ls with
  | [] => Ok []
  | l :: ls => r ← get h l; rs ← resolve h ls; Ok ((l, r) :: rs)
  end.

(** The order of [std::sort]; where base addresses are equal [std::sort]
    leaves the order open and the model keeps the list order. *)
Definition base_le (p q : loc * MappedRange) : Prop :=
  base_address (snd p) <= base_address (snd q).
#[global] Instance base_le_dec p q : Decision (base_le p q).
Proof. unfold base_le. apply _. Defined.

Definition sort_maps (rs : list (loc * MappedRange)) : list (loc * MappedRange) :=
  merge_sort base_le rs.

(** One iteration of the page loop of [CreatePageToRangeMap]. *)
Definition index_page (s : AddressSpace) (l : loc) (acc : gmap Z loc * gmap Z loc) (addr : Z) :
    gmap Z loc * gmap Z loc :=
  let can_read := CanReadAligned s addr in
  let can_write := CanWriteAligned s addr in
  let can_exec := CanExecuteAligned s addr in
  let '(pm, wm) := acc in
  (if can_read || can_write || can_exec then <[addr := l]> pm else pm,
   if can_write && negb can_exec then <[addr := l]> wm else wm).

Fixpoint index_maps (h : Heap) (s : AddressSpace) (rs : list (loc * MappedRange))
    (mn : Z) (acc : gmap Z loc * gmap Z loc) : outcome (Z * (gmap Z loc * gmap Z loc)) :=
  match rs with
  | [] => Ok (mn, acc)
  | (l, r) :: rs =>
      valid ← IsValid h l;
      if (valid : bool) then
        ps ← pages (base_address r) (limit_address r);
        index_maps h s rs (Z.min mn (base_address r)) (foldl (index_page s l) acc ps)
      else index_maps h s rs mn acc
  end.

Definition CreatePageToRangeMap (h : Heap) (s : AddressSpace) : outcome AddressSpace :=
  rs ← resolve h (maps s);
  let rs := sort_maps rs in
  '(mn, (pm, wm)) ← index_maps h s rs (two64 - 1) (∅, ∅);
  Ok (MkAS (fst <$> rs) pm wm mn (addr_mask s) (invalid s) ∅ ∅
        (page_is_readable s) (page_is_writable s) (page_is_executable s)
        (trace_heads s) (is_dead s)).

(** ** Construction, cloning, destruction *)

(** [AddressSpace()]: one invalid range over the whole space. *)
Definition AddressSpace_new (h : Heap) (address_size : Z) : outcome (Heap * AddressSpace) :=
  let mask := GetAddressMask address_size in
  let '(inv, h) := CreateInvalid h 0 mask in
  s ← CreatePageToRangeMap h (MkAS [inv] ∅ ∅ (two64 - 1) mask inv ∅ ∅ ∅ ∅ ∅ ∅ false);
  Ok (h, s).

Fixpoint clone_maps (h : Heap) (ls : list loc) : outcome (list loc * Heap) :=
  match ls with
  | [] => Ok ([], h)
  | l :: ls =>
      valid ← IsValid h l;
      '(l', h) ← (if (valid : bool) then Clone h l else Ok (l, h));
      '(ls', h) ← clone_maps h ls;
      Ok (l' :: ls', h)
  end.

(** [AddressSpace(const AddressSpace &parent)]. *)
Definition AddressSpace_clone (h : Heap) (p : AddressSpace) : outcome (Heap * AddressSpace) :=
  '(ms, h) ← clone_maps h (maps p);
  s ← CreatePageToRangeMap h
        (MkAS ms ∅ ∅ (min_addr p) (addr_mask p) (invalid p) ∅ ∅
           (page_is_readable p) (page_is_writable p) (page_is_executable p)
           (trace_heads p) (is_dead p));
  Ok (h, s).

Definition MarkAsTraceHead (s : AddressSpace) (pc : Z) : AddressSpace :=
  with_heads s ({[pc]} ∪ trace_heads s).

Definition IsMarkedTraceHead (s : AddressSpace) (pc : Z) : bool :=
  bool_decide (pc ∈ trace_heads s).

(** [Kill()] clears the maps, the page index and the pointer caches; the
    index of writable, non-executable pages is not cleared. *)
Definition Kill (s : AddressSpace) : AddressSpace :=
  MkAS [] ∅ (wnx_page_to_map s) (min_addr s) (addr_mask s) (invalid s) ∅ ∅
    (page_is_readable s) (page_is_writable s) (page_is_executable s) (trace_heads s) true.

Definition IsDead (s : AddressSpace) : bool := is_dead s.

(** ** Changing the maps *)

(** The body of the loop of [RemoveRange], branch by branch: the ranges kept
    for one map. *)
Definition remove_one (h : Heap) (l : loc) (base limit : Z) : outcome (list loc * Heap) :=
  map ← get h l;
  let map_base_address := base_address map in
  let map_limit_address := limit_address map in
  if (map_limit_address <=? base) || (limit <=? map_base_address) then
    Ok ([l], h)
  else if (base <=? map_base_address) && (map_limit_address <=? limit) then
    Ok ([], h)
  else if (map_base_address <? base) && (limit <? map_limit_address) then
    '(l1, h) ← Copy h l map_base_address base;
    '(l2, h) ← Copy h l limit map_limit_address;
    Ok ([l1; l2], h)
  else if map_base_address =? base then
    '(l1, h) ← Copy h l limit map_limit_address; Ok ([l1], h)
  else
    '(l1, h) ← Copy h l map_base_address base; Ok ([l1], h).

(** [RemoveRange(ranges, base, limit)]. *)
Fixpoint RemoveRange (h : Heap) (ranges : list loc) (base limit : Z) : outcome (list loc * Heap) :=
  match ranges with
  | [] => Ok ([], h)
  | l :: ranges =>
      '(kept, h) ← remove_one h l base limit;
      '(rest, h) ← RemoveRange h ranges base limit;
      Ok (kept ++ rest, h)
  end.

(** One iteration of the permission loop for one of the three page sets. *)
Definition set_page (b : bool) (ps : gset Z) (addr : Z) : gset Z :=
  if b then {[addr]} ∪ ps else ps ∖ {[addr]}.

Definition SetPermissions (h : Heap) (s : AddressSpace) (base_ size : Z)
    (can_read can_write can_exec : bool) : outcome AddressSpace :=
  let base := AlignDownToPage base_ in
  let limit := add64 base (RoundUpToPage size) in
  ps ← pages base limit;
  CreatePageToRangeMap h
    (with_perms s (foldl (set_page can_read) (page_is_readable s) ps)
       (foldl (set_page can_write) (page_is_writable s) ps)
       (foldl (set_page can_exec) (page_is_executable s) ps)).

(** The end of the range named by a base and a size, clipped to the mask. *)
Definition map_limit (s : AddressSpace) (base size : Z) : Z :=
  Z.min (add64 base (RoundUpToPage size)) (addr_mask s).

Definition AddMap (h : Heap) (s : AddressSpace) (base_ size : Z) (name_ : option string)
    (offset_ : Z) : outcome (Heap * AddressSpace) :=
  let base := AlignDownToPage base_ in
  let limit := map_limit s base size in
  if is_dead s then Ok (h, s)
  else
    check (Z.land base (addr_mask s) =? base) ;;
    let '(new_map, h) := Create h base limit name_ offset_ in
    check (negb (bool_decide (maps s = []))) ;;
    '(old_ranges, h) ← RemoveRange h (maps s) base limit;
    s ← SetPermissions h (with_maps s (old_ranges ++ [new_map])) base (sub64 limit base)
          true true false;
    Ok (h, s).

Definition RemoveMap (h : Heap) (s : AddressSpace) (base_ size : Z) :
    outcome (Heap * AddressSpace) :=
  let base := AlignDownToPage base_ in
  let limit := map_limit s base size in
  if is_dead s then Ok (h, s)
  else
    check (Z.land base (addr_mask s) =? base) ;;
    let '(new_map, h) := CreateInvalid h base limit in
    check (negb (bool_decide (maps s = []))) ;;
    '(old_ranges, h) ← RemoveRange h (maps s) base limit;
    s ← SetPermissions h (with_maps s (old_ranges ++ [new_map])) base (sub64 limit base)
          false false false;
    Ok (h, s).

Definition IsMapped (h : Heap) (s : AddressSpace) (find : Z) : outcome bool :=
  if is_dead s then Ok false
  else match page_to_map s !! AlignDownToPage find with
       | None => Ok false
       | Some l => IsValid h l
       end.

(** The search of [FindHole], on the maps in reverse order. *)
Fixpoint find_hole (h : Heap) (rmaps : list loc) (mn mx size : Z) : outcome (bool * Z) :=
  match rmaps with
  | [] => Ok (false, 0)
  | hi :: rest =>
      range_high ← get h hi;
      valid ← IsValid h hi;
      bounds ←
        (if (valid : bool) then
           match rest with
           | [] => Ok None
           | lo :: _ =>
               range_low ← get h lo;
               Ok (Some (base_address range_high, limit_address range_low))
           end
         else Ok (Some (limit_address range_high, base_address range_high)));
      match bounds with
      | None => Ok (false, 0)
      | Some (high_base, low_limit) =>
          if high_base <? mn then Ok (false, 0)
          else
            check (low_limit <=? high_base) ;;
            if mx <=? low_limit then find_hole h rest mn mx size
            else
              let alloc_max := Z.min mx high_base in
              let alloc_min := Z.max mn low_limit in
              let avail_size := sub64 alloc_max alloc_min in
              if avail_size <? size then find_hole h rest mn mx size
              else
                let hole := sub64 alloc_max size in
                check (alloc_min <=? hole) ;;
                Ok (true, hole)
      end
  end.

(** [FindHole(min, max, size, &hole)]: the result and [*hole]. *)
Definition FindHole (h : Heap) (s : AddressSpace) (mn mx size : Z) : outcome (bool * Z) :=
  if size =? 0 then Ok (false, 0)
  else
    let mn := AlignDownToPage mn in
    let mx := AlignDownToPage mx in
    if mx <=? mn then Ok (false, 0)
    else
      let size := RoundUpToPage size in
      if sub64 mx mn <? size then Ok (false, 0)
      else find_hole h (reverse (maps s)) mn mx size.

(** ** Finding the range of a page *)

Definition cache_index (page_addr : Z) : Z := Z.land (Z.shiftr page_addr 12) kRangeCacheMask.

(** A cached pointer that is set and whose range contains the page. *)
Definition cache_hit (h : Heap) (c : gmap Z loc) (i page_addr : Z) : outcome (option loc) :=
  match c !! i with
  | None => Ok None
  | Some l => r ← get h l; Ok (if Contains r page_addr then Some l else None)
  end.

(** The body shared by [FindRangeAligned] and [FindWNXRangeAligned]: the
    result and the updated cache. *)
Definition find_cached (h : Heap) (c index : gmap Z loc) (inv : loc) (page_addr : Z) :
    outcome (loc * gmap Z loc) :=
  last ← cache_hit h c kRangeCacheSize page_addr;
  match last with
  | Some l => Ok (l, c)
  | None =>
      slot ← cache_hit h c (cache_index page_addr) page_addr;
      match slot with
      | Some l => Ok (l, <[kRangeCacheSize := l]> c)
      | None =>
          match index !! page_addr with
          | Some l => Ok (l, <[cache_index page_addr := l]> (<[kRangeCacheSize := l]> c))
          | None => Ok (inv, c)
          end
      end
  end.

Definition FindRangeAligned (h : Heap) (s : AddressSpace) (page_addr : Z) :
    outcome (loc * AddressSpace) :=
  '(l, c) ← find_cached h (last_map_cache s) (page_to_map s) (invalid s) page_addr;
  Ok (l, with_caches s c (wnx_last_map_cache s)).

Definition FindRange (h : Heap) (s : AddressSpace) (addr : Z) : outcome (loc * AddressSpace) :=
  FindRangeAligned h s (AlignDownToPage addr).

Definition FindWNXRangeAligned (h : Heap) (s : AddressSpace) (page_addr : Z) :
    outcome (loc * AddressSpace) :=
  '(l, c) ← find_cached h (wnx_last_map_cache s) (wnx_page_to_map s) (invalid s) page_addr;
  Ok (l, with_caches s (last_map_cache s) c).

Definition FindWNXRange (h : Heap) (s : AddressSpace) (addr : Z) : outcome (loc * AddressSpace) :=
  FindWNXRangeAligned h s (AlignDownToPage addr).

(** ** Reads *)

(** The inner loop of the bulk [TryRead]: up to [n] calls of [Read] on one
    range, stopping at the first that fails.  [*out_val] is stored in both
    cases. *)
Fixpoint read_run (h : Heap) (l : loc) (addr : Z) (n : nat) : outcome (bool * list Z) :=
  match n with
  | O => Ok (true, [])
  | S n =>
      '(ok, v) ← Read h l addr;
      if (ok : bool) then '(ok, vs) ← read_run h l (addr + 1) n; Ok (ok, v :: vs)
      else Ok (false, [v])
  end.

Fixpoint read_pages (fuel : nat) (h : Heap) (s : AddressSpace) (page_addr addr end_addr : Z) :
    outcome (bool * list Z * AddressSpace) :=
  if page_addr <? end_addr then
    match fuel with
    | O => Diverges
    | S fuel =>
        '(l, s) ← FindRangeAligned h s page_addr;
        let page_end_addr := add64 page_addr kPageSize in
        let next_end_addr := Z.min end_addr page_end_addr in
        '(ok, vs) ← read_run h l addr (Z.to_nat (next_end_addr - addr));
        if (ok : bool) then
          '(ok, vs', s) ← read_pages fuel h s page_end_addr (Z.max addr next_end_addr) end_addr;
          Ok (ok, vs ++ vs', s)
        else Ok (false, vs, s)
    end
  else Ok (true, [], s).

(** One iteration per page of the access, and one more. *)
Definition bulk_fuel (page_addr end_addr : Z) : nat := S (page_fuel page_addr end_addr).

(** [TryRead(addr, void *val, size)]: the result and the bytes stored. *)
Definition TryRead_bulk (h : Heap) (s : AddressSpace) (addr_ size : Z) :
    outcome (bool * list Z * AddressSpace) :=
  let addr := Z.land addr_ (addr_mask s) in
  let end_addr := add64 addr size in
  read_pages (bulk_fuel (AlignDownToPage addr) end_addr) h s (AlignDownToPage addr) addr end_addr.

(** [TryRead(addr, uint8_t *val)]. *)
Definition TryRead_8 (h : Heap) (s : AddressSpace) (addr_ : Z) :
    outcome (bool * Z * AddressSpace) :=
  let addr := Z.land addr_ (addr_mask s) in
  '(l, s) ← FindRange h s addr;
  '(ok, v) ← Read h l addr;
  Ok (ok, v, s).

(** [MAKE_TRY_READ(type)] with [n = sizeof(type)]: the result and the bytes
    of [*val_out] where they were stored. *)
Definition MAKE_TRY_READ (n : nat) (h : Heap) (s : AddressSpace) (addr_ : Z) :
    outcome (bool * list Z * AddressSpace) :=
  let addr := Z.land addr_ (addr_mask s) in
  '(l, s) ← FindRange h s addr;
  range ← get h l;
  ptr ← ToReadOnlyVirtualAddress h l addr;
  match ptr with
  | NullPtr => Ok (false, [], s)
  | _ =>
      let end_addr := sub64 (add64 addr (Z.of_nat n)) 1 in
      if ((base_address range <=? addr) && (end_addr <? limit_address range)) &&
         (AlignDownToPage addr =? AlignDownToPage end_addr)
      then vs ← load h ptr n 0; Ok (true, vs, s)
      else TryRead_bulk h s addr (Z.of_nat n)
  end.

Definition TryReadExecutable (h : Heap) (s : AddressSpace) (pc : Z) :
    outcome (bool * Z * AddressSpace) :=
  let addr := Z.land pc (addr_mask s) in
  let page_addr := AlignDownToPage addr in
  '(l, s) ← FindRangeAligned h s page_addr;
  '(ok, v) ← Read h l addr;
  Ok (ok && CanExecuteAligned s page_addr, v, s).

Definition AS_ToReadWriteVirtualAddress (h : Heap) (s : AddressSpace) (addr_ : Z) :
    outcome (VirtualAddress * Heap * AddressSpace) :=
  let addr := Z.land addr_ (addr_mask s) in
  '(l, s) ← FindRange h s addr;
  '(p, h) ← ToReadWriteVirtualAddress h l addr;
  Ok (p, h, s).

Definition AS_ToReadOnlyVirtualAddress (h : Heap) (s : AddressSpace) (addr_ : Z) :
    outcome (VirtualAddress * AddressSpace) :=
  let addr := Z.land addr_ (addr_mask s) in
  '(l, s) ← FindRange h s addr;
  p ← ToReadOnlyVirtualAddress h l addr;
  Ok (p, s).

(** ** Writes *)

Section writes.
(** [FLAGS_version_code]. *)
Variable version_code : bool.

(** The inner loop of the bulk [TryWrite]. *)
Fixpoint write_run (h : Heap) (l : loc) (addr : Z) (bs : list Z) : outcome (bool * Heap) :=
  match bs with
  | [] => Ok (true, h)
  | b :: bs =>
      '(ok, h) ← Write h l addr b;
      if (ok : bool) then write_run h l (addr + 1) bs else Ok (false, h)
  end.

Fixpoint write_pages (fuel : nat) (h : Heap) (s : AddressSpace) (page_addr addr end_addr : Z)
    (bs : list Z) : outcome (bool * Heap * AddressSpace) :=
  if page_addr <? end_addr then
    match fuel with
    | O => Diverges
    | S fuel =>
        if CanWriteAligned s page_addr then
          '(l, s) ← FindRangeAligned h s page_addr;
          '(h, s) ← (if version_code && CanExecuteAligned s page_addr then
                       h ← InvalidateCodeVersion h l; Ok (h, with_heads s ∅)
                     else Ok (h, s));
          let page_end_addr := add64 page_addr kPageSize in
          let next_end_addr := Z.min end_addr page_end_addr in
          let n := Z.to_nat (next_end_addr - addr) in
          '(ok, h) ← write_run h l addr (take n bs);
          if (ok : bool) then
            write_pages fuel h s page_end_addr (Z.max addr next_end_addr) end_addr (drop n bs)
          else Ok (false, h, s)
        else Ok (false, h, s)
    end
  else Ok (true, h, s).

(** [TryWrite(addr, const void *val, size)] with [size] the length of the
    byte string. *)
Definition TryWrite_bulk (h : Heap) (s : AddressSpace) (addr_ : Z) (bs : list Z) :
    outcome (bool * Heap * AddressSpace) :=
  let addr := Z.land addr_ (addr_mask s) in
  let end_addr := add64 addr (Z.of_nat (length bs)) in
  write_pages (bulk_fuel (AlignDownToPage addr) end_addr) h s (AlignDownToPage addr) addr
    end_addr bs.

(** [TryWrite(addr, uint8_t val)]. *)
Definition TryWrite_8 (h : Heap) (s : AddressSpace) (addr_ val : Z) :
    outcome (bool * Heap * AddressSpace) :=
  let addr := Z.land addr_ (addr_mask s) in
  '(l, s) ← FindWNXRange h s addr;
  '(ok, h) ← Write h l addr val;
  if (ok : bool) then Ok (true, h, s) else TryWrite_bulk h s addr [val].

(** [MAKE_TRY_WRITE(type)]; [bs] are the bytes of the value. *)
Definition MAKE_TRY_WRITE (h : Heap) (s : AddressSpace) (addr_ : Z) (bs : list Z) :
    outcome (bool * Heap * AddressSpace) :=
  let addr := Z.land addr_ (addr_mask s) in
  '(l, s) ← FindWNXRange h s addr;
  '(ptr, h) ← ToReadWriteVirtualAddress h l addr;
  match ptr with
  | NullPtr => TryWrite_bulk h s addr bs
  | _ =>
      range ← get h l;
      let end_addr := sub64 (add64 addr (Z.of_nat (length bs))) 1 in
      if ((base_address range <=? addr) && (end_addr <? limit_address range)) &&
         (AlignDownToPage addr =? AlignDownToPage end_addr)
      then h ← store h ptr bs 0; Ok (true, h, s)
      else TryWrite_bulk h s addr bs
  end.

(** [ComputeCodeVersion(pc)]. *)
Variable Hash : list Z -> Z.

Definition AS_ComputeCodeVersion (h : Heap) (s : AddressSpace) (pc : Z) :
    outcome (Z * Heap * AddressSpace) :=
  if version_code then
    let masked_pc := Z.land pc (addr_mask s) in
    '(l, s) ← FindRange h s masked_pc;
    '(v, h) ← ComputeCodeVersion Hash h l;
    Ok (v, h, s)
  else Ok (0, h, s).
End writes.
