(* ===== verification/SpaceInv.v ===== *)
(** * The invariant of address spaces and their abstract memory

    [abs] is the specification-level view of an address space: a partial map
    from guest addresses to bytes.  [wf_space] is the representation
    invariant; the later files show that every operation preserves it and acts
    on [abs] as documented. *)

From S2P Require Import Prelude Pages MappedRange RangeProps AddressSpace.

Definition valid (r : MappedRange) : bool := negb (bool_decide (kind r = InvalidMemoryMap)).

(** ** Shape of one range *)

Record range_ok (mask : Z) (r : MappedRange) : Prop := {
  ro_base : aligned (base_address r);
  ro_order : 0 <= base_address r < limit_address r;
  ro_mask : limit_address r <= mask;
  ro_limit : aligned (limit_address r) \/ limit_address r = mask;
  ro_top : valid r = true -> aligned (limit_address r) /\ limit_address r <= two64 - kPageSize
}.

(** [l] is an entry of the map list and points to [r]. *)
Definition entry (h : Heap) (ms : list loc) (l : loc) (r : MappedRange) : Prop :=
  l ∈ ms /\ objs h !! l = Some r.

(** No address lies in two entries. *)
Definition disjoint_maps (h : Heap) (ms : list loc) : Prop :=
  forall l1 r1 l2 r2 a, entry h ms l1 r1 -> entry h ms l2 r2 ->
    Contains r1 a = true -> Contains r2 a = true -> l1 = l2.

Record wf_maps (h : Heap) (mask : Z) (ms : list loc) : Prop := {
  wm_alive l : l ∈ ms -> is_Some (objs h !! l);
  wm_range l r : entry h ms l r -> range_ok mask r;
  wm_disjoint : disjoint_maps h ms;
  wm_nodup : NoDup ms;
  wm_not_parent l : l ∈ ms -> ~ is_parent h l
}.

(** ** The abstract memory *)

Fixpoint abs_maps (h : Heap) (ms : list loc) (a : Z) : option Z :=
  match ms with
  | [] => None
  | l :: ms =>
      match objs h !! l with
      | Some r => if Contains r a && valid r then Some (value_at h r a) else abs_maps h ms a
      | None => abs_maps h ms a
      end
  end.

Definition abs (h : Heap) (s : AddressSpace) : Z -> option Z := abs_maps h (maps s).

(** Any access permission on a page. *)
Definition any_perm (s : AddressSpace) (p : Z) : bool :=
  CanReadAligned s p || CanWriteAligned s p || CanExecuteAligned s p.
Definition wnx_perm (s : AddressSpace) (p : Z) : bool :=
  CanWriteAligned s p && negb (CanExecuteAligned s p).

(** The page index: aligned pages of valid ranges that satisfy [perm]. *)
Definition index_ok (h : Heap) (ms : list loc) (perm : Z -> bool) (m : gmap Z loc) : Prop :=
  forall p l, m !! p = Some l <->
    exists r, entry h ms l r /\ valid r = true /\ aligned p /\ Contains r p = true /\ perm p = true.

(** Cached pointers point to ranges of the page index. *)
Definition cache_ok (m c : gmap Z loc) : Prop :=
  forall i l, c !! i = Some l -> exists p, m !! p = Some l.

Definition base_of (h : Heap) (l : loc) : Z := default 0 (base_address <$> objs h !! l).

(** The map list is in the order of base addresses. *)
Definition sorted_maps (h : Heap) (ms : list loc) : Prop :=
  StronglySorted (fun l1 l2 => base_of h l1 <= base_of h l2) ms.

Definition mask_ok (mask : Z) : Prop := mask = two32 - 1 \/ mask = two64 - 1.

(** Every address of the space lies in some entry: what is not mapped is
    covered by invalid ranges. *)
Definition covered (h : Heap) (mask : Z) (ms : list loc) : Prop :=
  forall a, 0 <= a < mask -> exists l r, entry h ms l r /\ Contains r a = true.

(** The part of the invariant that does not speak about the indices. *)
Record wf_core (h : Heap) (s : AddressSpace) : Prop := {
  wc_mask : mask_ok (addr_mask s);
  wc_maps : wf_maps h (addr_mask s) (maps s);
  wc_cover : covered h (addr_mask s) (maps s);
  wc_invalid : exists r, objs h !! invalid s = Some r /\ kind r = InvalidMemoryMap;
  wc_alive : is_dead s = false
}.

Record wf_space (h : Heap) (s : AddressSpace) : Prop := {
  ws_core : wf_core h s;
  ws_sorted : sorted_maps h (maps s);
  ws_index : index_ok h (maps s) (any_perm s) (page_to_map s);
  ws_wnx : index_ok h (maps s) (wnx_perm s) (wnx_page_to_map s);
  ws_cache : cache_ok (page_to_map s) (last_map_cache s);
  ws_wnx_cache : cache_ok (wnx_page_to_map s) (wnx_last_map_cache s)
}.

Definition ws_mask h s (Hw : wf_space h s) := wc_mask h s (ws_core h s Hw).
Definition ws_maps h s (Hw : wf_space h s) := wc_maps h s (ws_core h s Hw).
Definition ws_cover h s (Hw : wf_space h s) := wc_cover h s (ws_core h s Hw).
Definition ws_invalid h s (Hw : wf_space h s) := wc_invalid h s (ws_core h s Hw).
Definition ws_alive h s (Hw : wf_space h s) := wc_alive h s (ws_core h s Hw).

(** ** Basic facts *)

Lemma Contains_iff r a : Contains r a = true <-> base_address r <= a < limit_address r.
Proof.
  unfold Contains. destruct (Z.leb_spec (base_address r) a), (Z.ltb_spec a (limit_address r));
    split; intros; try done; try lia.
Qed.

Lemma valid_iff r : valid r = true <-> kind r <> InvalidMemoryMap.
Proof. unfold valid. rewrite negb_true_iff, bool_decide_eq_false. done. Qed.

Lemma mask_u64 mask : mask_ok mask -> u64 mask.
Proof. intros [-> | ->]; unfold u64, two32, two64; lia. Qed.

Lemma land_mask mask a : mask_ok mask -> 0 <= a <= mask -> Z.land a mask = a.
Proof.
  intros [-> | ->] Ha; [change (two32 - 1) with (Z.ones 32)|change (two64 - 1) with (Z.ones 64)];
    rewrite Z.land_ones by lia; apply Z.mod_small; unfold two32, two64 in Ha; lia.
Qed.

Lemma entry_app h ms1 ms2 l r :
  entry h (ms1 ++ ms2) l r <-> entry h ms1 l r \/ entry h ms2 l r.
Proof. unfold entry. rewrite elem_of_app. tauto. Qed.

Lemma entry_cons h l0 ms l r :
  entry h (l0 :: ms) l r <-> (l = l0 /\ objs h !! l = Some r) \/ entry h ms l r.
Proof. unfold entry. rewrite elem_of_cons. tauto. Qed.

Lemma entry_nil h l r : entry h [] l r <-> False.
Proof. unfold entry. rewrite elem_of_nil. tauto. Qed.

Lemma abs_maps_Some h ms a v :
  disjoint_maps h ms ->
  abs_maps h ms a = Some v <->
  exists l r, entry h ms l r /\ Contains r a = true /\ valid r = true /\ value_at h r a = v.
Proof.
  intros Hd. assert (Hs : forall ms', ms' ⊆ ms -> abs_maps h ms' a = Some v <->
    exists l r, entry h ms' l r /\ Contains r a = true /\ valid r = true /\ value_at h r a = v).
  { induction ms' as [|l ms' IH]; intros Hsub; cbn.
    - split; [done|]. intros (l & r & H & _). by apply entry_nil in H.
    - rewrite list_subseteq_cons_iff in Hsub. destruct Hsub as [Hin Hsub].
      destruct (objs h !! l) as [r|] eqn:El.
      + destruct (Contains r a && valid r) eqn:Ec.
        * apply andb_true_iff in Ec as [Hc Hv]. split.
          -- intros [= <-]. exists l, r. rewrite entry_cons. naive_solver.
          -- intros (l' & r' & [Hin' Hl'] & Hc' & Hv' & Hval).
             assert (l' = l) as ->.
             { eapply (Hd l' r' l r a); try done; split; try done.
               apply elem_of_cons in Hin' as [->|?]; [done|by apply Hsub]. }
             congruence.
        * rewrite IH by done. setoid_rewrite entry_cons. split.
          -- naive_solver.
          -- intros (l' & r' & [[-> Hl']|He] & Hc' & Hv' & Hval); [|naive_solver].
             assert (r' = r) as -> by congruence. rewrite Hc', Hv' in Ec. done.
      + rewrite IH by done. setoid_rewrite entry_cons. split; [naive_solver|].
        intros (l' & r' & [[-> Hl']|He] & Hrest); [congruence|naive_solver]. }
  by apply Hs.
Qed.

Lemma abs_Some h s a v :
  wf_space h s ->
  abs h s a = Some v <->
  exists l r, entry h (maps s) l r /\ Contains r a = true /\ valid r = true /\ value_at h r a = v.
Proof. intros Hw. apply abs_maps_Some, (wm_disjoint _ _ _ (ws_maps _ _ Hw)). Qed.

(** Two abstract memories agree at [a] when their entries do. *)
Lemma abs_maps_ext h ms h' ms' a a' :
  disjoint_maps h ms -> disjoint_maps h' ms' ->
  (forall v, (exists l r, entry h ms l r /\ Contains r a = true /\ valid r = true /\ value_at h r a = v) <->
             (exists l r, entry h' ms' l r /\ Contains r a' = true /\ valid r = true /\ value_at h' r a' = v)) ->
  abs_maps h ms a = abs_maps h' ms' a'.
Proof.
  intros Hd Hd' Hi. apply option_eq. intros v. by rewrite !abs_maps_Some.
Qed.

Lemma value_at_view h h' r r' a a' : view h r a = view h' r' a' -> value_at h r a = value_at h' r' a'.
Proof. unfold value_at. by intros ->. Qed.

(** Membership in the pages of a range. *)
Lemma page_in_range mask r a :
  u64 a -> range_ok mask r -> Contains r a = true -> Contains r (AlignDownToPage a) = true.
Proof.
  intros Ha Hr Hc. rewrite Contains_iff in *. pose proof (AlignDownToPage_range a Ha).
  pose proof (ro_base _ _ Hr) as Hb. destruct (ro_order _ _ Hr).
  destruct (decide (AlignDownToPage a < base_address r)); [|lia].
  pose proof (aligned_lt _ _ (AlignDownToPage_aligned a Ha) Hb). lia.
Qed.

Lemma index_ok_unique h ms perm m1 m2 :
  index_ok h ms perm m1 -> index_ok h ms perm m2 -> m1 = m2.
Proof.
  intros H1 H2. apply map_eq. intros p. apply option_eq. intros l. by rewrite (H1 p l), (H2 p l).
Qed.
