(* ===== verification/RemoveRangeProps.v ===== *)
(** * Removing a range from the map list

    [RemoveRange] keeps exactly the mapped bytes outside [[base, limit)],
    except for a map that the removed range overlaps from the left
    ([base < map_base < limit < map_limit]): the last branch then builds a
    range with its bounds swapped and the tail of the map is lost. *)

From S2P Require Import Prelude Pages MappedRange RangeProps AddressSpace SpaceInv.

(** [h'] extends [h] with new objects that are nobody's parent. *)
Record hext (h h' : Heap) : Prop := {
  hx_wf : wf_heap h';
  hx_sub l r : objs h !! l = Some r -> objs h' !! l = Some r;
  hx_parent l : is_parent h' l -> is_parent h l
}.

Lemma hext_refl h : wf_heap h -> hext h h.
Proof. by split. Qed.

Lemma hext_trans h1 h2 h3 : hext h1 h2 -> hext h2 h3 -> hext h1 h3.
Proof. intros [? ? ?] [? ? ?]. split; eauto. Qed.

Lemma hext_view h h' l r a :
  wf_heap h -> hext h h' -> objs h !! l = Some r -> view h' r a = view h r a.
Proof.
  intros Hwf Hx Hl. apply view_mono; [by eapply wf_kind|].
  intros p rp _. by apply hx_sub.
Qed.

Lemma hext_make_shared h r :
  wf_heap h -> bounds_ok r -> kind_ok h r -> parent r = None ->
  hext h (snd (make_shared h r)) /\
  objs (snd (make_shared h r)) !! next_loc h = Some r /\
  objs h !! next_loc h = None /\
  ~ is_parent (snd (make_shared h r)) (next_loc h).
Proof.
  intros Hwf Hb Hk Hp.
  destruct (make_shared_spec h r Hwf Hb Hk) as (Hwf' & Hn & Hfr & Hold & Hpar).
  assert (Hx : hext h (snd (make_shared h r))).
  { split; [done|intros; by apply Hold|]. intros l [?|?]%Hpar; [done|congruence]. }
  split_and!; try done.
  intros Hip%(hx_parent _ _ Hx). destruct (is_parent_exists h _ Hwf Hip) as (? & ? & _). congruence.
Qed.

(** ** One map *)

(** How the removed range [[base, limit)] may meet a map [r]. *)
Definition left_overlap (r : MappedRange) (base limit : Z) : Prop :=
  base < base_address r < limit /\ limit < limit_address r.

Definition untouched (r : MappedRange) (base limit : Z) : Prop :=
  limit_address r <= base \/ limit <= base_address r \/
  (base <= base_address r /\ limit_address r <= limit).

Definition removable (r : MappedRange) (base limit : Z) : Prop :=
  ~ left_overlap r base limit /\ (kind r = CopyOnWriteMemoryMap -> untouched r base limit).

(** What the loop body guarantees for the pieces it keeps of [r]. *)
Record piece (h' : Heap) (mask base limit : Z) (h : Heap) (r : MappedRange) (l' : loc)
    (r' : MappedRange) : Prop := {
  pc_range : range_ok mask r';
  pc_valid : valid r' = valid r;
  pc_inside : base_address r <= base_address r' /\ limit_address r' <= limit_address r;
  pc_outside : limit_address r' <= base \/ limit <= base_address r';
  pc_view a : Contains r' a = true -> view h' r' a = view h r a;
  pc_not_parent : ~ is_parent h' l';
  pc_base : base_address r' = base_address r \/ base_address r' = limit
}.

Record kept_ok (h' : Heap) (mask base limit : Z) (h : Heap) (r : MappedRange) (K : list loc) :
    Prop := {
  ko_piece l' : l' ∈ K -> exists r', objs h' !! l' = Some r' /\ piece h' mask base limit h r l' r';
  ko_cover a : Contains r a = true -> ~ base <= a < limit ->
    exists l' r', entry h' K l' r' /\ Contains r' a = true;
  ko_disjoint : disjoint_maps h' K;
  ko_nodup : NoDup K
}.

Lemma kept_ok_nil h' mask base limit h r :
  base <= base_address r -> limit_address r <= limit -> kept_ok h' mask base limit h r [].
Proof.
  intros. split.
  - by intros l' ?%elem_of_nil.
  - intros a Ha%Contains_iff Hn. lia.
  - intros l1 r1 l2 r2 a H1. by apply entry_nil in H1.
  - constructor.
Qed.

Lemma kept_ok_one h' mask base limit h r l' r' :
  objs h' !! l' = Some r' -> piece h' mask base limit h r l' r' ->
  (forall a, Contains r a = true -> ~ base <= a < limit -> Contains r' a = true) ->
  kept_ok h' mask base limit h r [l'].
Proof.
  intros Hl Hp Hc. split.
  - intros l0 ->%list_elem_of_singleton. eauto.
  - intros a Ha Hn. exists l', r'. split; [|by apply Hc]. split; [by apply list_elem_of_singleton|done].
  - intros l1 r1 l2 r2 a [H1 _] [H2 _] _ _. apply list_elem_of_singleton in H1, H2. congruence.
  - apply NoDup_singleton.
Qed.

(** A piece [[cb, cl)] of a map, as [Copy] produces it. *)
Lemma Copy_piece h l r cb cl mask base limit :
  wf_heap h -> objs h !! l = Some r -> range_ok mask r ->
  kind r <> CopyOnWriteMemoryMap ->
  aligned cb -> base_address r <= cb < cl -> cl <= limit_address r ->
  aligned cl \/ (cl = limit_address r) ->
  cl <= base \/ limit <= cb -> cb = base_address r \/ cb = limit ->
  exists l' h' r', Copy h l cb cl = Ok (l', h') /\ hext h h' /\ objs h !! l' = None /\
    objs h' !! l' = Some r' /\ base_address r' = cb /\ limit_address r' = cl /\
    piece h' mask base limit h r l' r'.
Proof.
  intros Hwf Hl Hr Hk Hcb H1 H2 Hcl Hout Hcb'.
  assert (Hal : kind r = ArrayMemoryMap -> aligned (cl - cb)).
  { intros Ha. apply aligned_sub; [|done]. destruct Hcl as [?| ->]; [done|].
    pose proof (wf_kind h Hwf l r Hl) as Hk'. unfold kind_ok in Hk'. rewrite Ha in Hk'.
    destruct Hk' as (_ & Hsz & _).
    replace (limit_address r) with (limit_address r - base_address r + base_address r) by lia.
    apply aligned_add; [done|apply (ro_base _ _ Hr)]. }
  destruct (Copy_spec h l r cb cl) as (r2 & Hcopy & Hb & Hko & Hbase & Hlim & Hkind & Hpar & Hview);
    try done; try lia.
  destruct (hext_make_shared h r2) as (Hx & Hnew & Hfr & Hnp); try done.
  eexists _, _, r2. split; [by rewrite Hcopy; apply f_equal, surjective_pairing|].
  split_and!; try done. destruct Hr as [Hr1 Hr2 Hr3 Hr4 Hr5]. split.
  - split; rewrite ?Hbase, ?Hlim; try done; try lia.
    + destruct Hcl as [?| ->]; [by left|done].
    + unfold valid. rewrite Hkind. fold (valid r). intros Hv. destruct (Hr5 Hv) as [? ?].
      split; [by destruct Hcl as [?| ->]|lia].
  - unfold valid. by rewrite Hkind.
  - lia.
  - lia.
  - intros a Ha%Contains_iff. rewrite Hbase, Hlim in Ha. rewrite <- Hview by lia.
    destruct (make_shared_spec h r2 Hwf Hb Hko) as (_ & _ & _ & Hold & _).
    apply view_mono; [done|]. intros p rp _ Hp. by apply Hold.
  - done.
  - by rewrite Hbase.
Qed.

(** The side conditions on the removed interval. *)
Record interval_ok (mask base limit : Z) : Prop := {
  iv_base : aligned base;
  iv_order : 0 <= base < limit;
  iv_mask : limit <= mask;
  iv_limit : aligned limit \/ limit = mask
}.

Lemma range_limit_cmp mask r base limit :
  range_ok mask r -> interval_ok mask base limit -> limit < limit_address r -> aligned limit.
Proof. intros [] [? ? ? [?| ->]] ?; [done|lia]. Qed.

Lemma remove_one_spec h l r mask base limit :
  wf_heap h -> objs h !! l = Some r -> range_ok mask r -> ~ is_parent h l ->
  interval_ok mask base limit -> removable r base limit ->
  exists K h', remove_one h l base limit = Ok (K, h') /\ hext h h' /\
    kept_ok h' mask base limit h r K /\ (forall l', l' ∈ K -> l' = l \/ objs h !! l' = None).
Proof.
  intros Hwf Hl Hr Hnp Hiv [Hlo Hcow]. unfold remove_one. rewrite (get_Some h l r Hl).
  cbn [mbind outcome_bind]. cbv zeta. destruct (ro_order _ _ Hr).
  pose proof (range_limit_cmp mask r base limit Hr Hiv) as Hlal. destruct Hiv as [Hib Hio Him Hil].
  unfold left_overlap, untouched in *.
  case_bool; [|case_bool; [|case_bool; [|case_bool]]]; bool_to_prop.
  - exists [l], h. split_and!; [done|by apply hext_refl| |set_solver].
    apply (kept_ok_one _ _ _ _ _ _ _ r); try done. split; try done; try lia.
  - exists [], h. split_and!; [done|by apply hext_refl|by apply kept_ok_nil|set_solver].
  - destruct (Copy_piece h l r (base_address r) base mask base limit)
      as (l1 & h1 & r1 & -> & Hx1 & Hf1 & Hl1 & Hb1 & Hm1 & Hp1); try done; try lia.
    { intros Hc. pose proof (Hcow Hc). lia. }
    { apply Hr. }
    { by left. }
    cbn [mbind outcome_bind].
    destruct (Copy_piece h1 l r limit (limit_address r) mask base limit)
      as (l2 & h2 & r2 & -> & Hx2 & Hf2 & Hl2 & Hb2 & Hm2 & Hp2); try done; try lia.
    { apply Hx1. } { by apply Hx1. } { intros Hc. pose proof (Hcow Hc). lia. }
    { apply Hlal. lia. }
    exists [l1; l2], h2. cbn [mbind outcome_bind]. split_and!; [done|by eapply hext_trans| |].
    2:{ intros l' Hl'. right. apply elem_of_cons in Hl' as [-> |Hl']; [done|]. apply list_elem_of_singleton in Hl' as ->.
        destruct (objs h !! l2) eqn:E2; [|done]. apply (hx_sub _ _ Hx1) in E2. congruence. }
    pose proof (hx_sub _ _ Hx2 _ _ Hl1) as Hl1'.
    assert (Hp1' : piece h2 mask base limit h r l1 r1).
    { destruct Hp1 as [? ? ? ? Hv1 Hn1]. split; try done.
      - intros a Ha. rewrite (hext_view h1 h2 l1 r1) by (try done; apply Hx1). by apply Hv1.
      - intros ?%(hx_parent _ _ Hx2). done. }
    assert (Hp2' : piece h2 mask base limit h r l2 r2).
    { destruct Hp2 as [? ? ? ? Hv2 Hn2]. split; try done.
      intros a Ha. rewrite Hv2 by done. by apply (hext_view h h1 l r). }
    split.
    + intros l' Hl'. apply elem_of_cons in Hl' as [-> |Hl']; [eauto|].
      apply list_elem_of_singleton in Hl' as ->. eauto.
    + intros a Ha%Contains_iff Hn. destruct (decide (a < base)).
      * exists l1, r1. split; [split; [set_solver|done]|]. apply Contains_iff. lia.
      * exists l2, r2. split; [split; [set_solver|done]|]. apply Contains_iff. lia.
    + intros la ra lb rb a Ha Hb Hca Hcb. rewrite !entry_cons, !entry_nil in Ha, Hb.
      apply Contains_iff in Hca, Hcb.
      destruct Ha as [[-> Ha]|[[-> Ha]|[]]], Hb as [[-> Hb]|[[-> Hb]|[]]]; simplify_eq; try done; lia.
    + apply NoDup_cons. split; [|apply NoDup_singleton].
      intros ->%list_elem_of_singleton. congruence.
  - destruct (Copy_piece h l r limit (limit_address r) mask base limit)
      as (l1 & h1 & r1 & -> & Hx1 & Hf1 & Hl1 & Hb1 & Hm1 & Hp1); try done; try lia.
    { intros Hc. pose proof (Hcow Hc). lia. } { apply Hlal. lia. }
    exists [l1], h1. cbn [mbind outcome_bind]. split_and!; try done; [|set_solver].
    apply (kept_ok_one _ _ _ _ _ _ _ r1); try done.
    intros a Ha%Contains_iff Hn. apply Contains_iff. lia.
  - destruct (Copy_piece h l r (base_address r) base mask base limit)
      as (l1 & h1 & r1 & -> & Hx1 & Hf1 & Hl1 & Hb1 & Hm1 & Hp1); try done; try lia.
    { intros Hc. pose proof (Hcow Hc). lia. } { apply Hr. } { by left. }
    exists [l1], h1. cbn [mbind outcome_bind]. split_and!; try done; [|set_solver].
    apply (kept_ok_one _ _ _ _ _ _ _ r1); try done.
    intros a Ha%Contains_iff Hn. apply Contains_iff. lia.
Qed.

(** ** The whole list *)

Record removed_ok (h' : Heap) (mask base limit : Z) (h : Heap) (ms ms' : list loc) : Prop := {
  rm_wf : wf_maps h' mask ms';
  rm_piece l' : l' ∈ ms' -> exists l r r', entry h ms l r /\ objs h' !! l' = Some r' /\
    piece h' mask base limit h r l' r';
  rm_cover l r a : entry h ms l r -> Contains r a = true -> ~ base <= a < limit ->
    exists l' r', entry h' ms' l' r' /\ Contains r' a = true;
  rm_old (l' : loc) : l' ∈ ms' -> l' ∈ ms \/ objs h !! l' = None
}.

Lemma piece_mono h h1 h2 mask base limit r l' r' :
  wf_heap h1 -> hext h1 h2 -> objs h1 !! l' = Some r' ->
  piece h1 mask base limit h r l' r' -> piece h2 mask base limit h r l' r'.
Proof.
  intros Hwf Hx Hl [? ? ? ? Hv Hn]. split; try done.
  - intros a Ha. rewrite (hext_view h1 h2 l' r') by done. by apply Hv.
  - intros ?%(hx_parent _ _ Hx). done.
Qed.

Lemma entry_hext h h' ms l r :
  hext h h' -> (forall l, l ∈ ms -> is_Some (objs h !! l)) -> entry h' ms l r -> entry h ms l r.
Proof.
  intros Hx Hal [Hin Hl]. split; [done|]. destruct (Hal l Hin) as [r0 Hr0].
  pose proof (hx_sub _ _ Hx _ _ Hr0). congruence.
Qed.

Lemma wf_maps_hext h h' mask ms : hext h h' -> wf_maps h mask ms -> wf_maps h' mask ms.
Proof.
  intros Hx [Hal Hr Hd Hn Hp].
  assert (He : forall l r, entry h' ms l r -> entry h ms l r) by (intros; by eapply entry_hext).
  split; try done.
  - intros l [r Hl]%Hal. exists r. by apply (hx_sub _ _ Hx).
  - eauto.
  - intros l1 r1 l2 r2 a ?%He ?%He. by eapply Hd.
  - intros l Hl Hip%(hx_parent _ _ Hx). by apply (Hp l).
Qed.

Lemma wf_maps_cons h mask l ms : wf_maps h mask (l :: ms) -> wf_maps h mask ms.
Proof.
  intros [Hal Hr Hd Hn Hp].
  assert (He : forall l' r, entry h ms l' r -> entry h (l :: ms) l' r).
  { intros l' r [? ?]. split; [by apply list_elem_of_further|done]. }
  split.
  - intros l' ?. apply Hal. by apply list_elem_of_further.
  - eauto.
  - intros l1 r1 l2 r2 a ?%He ?%He. by eapply Hd.
  - by apply NoDup_cons in Hn as [_ ?].
  - intros l' ?. apply Hp. by apply list_elem_of_further.
Qed.

(** Pieces of different maps stay disjoint. *)
Lemma pieces_disjoint h h' mask base limit ms l r l2 r2 la ra lb rb a :
  disjoint_maps h ms -> entry h ms l r -> entry h ms l2 r2 ->
  piece h' mask base limit h r la ra -> piece h' mask base limit h r2 lb rb ->
  Contains ra a = true -> Contains rb a = true -> l = l2.
Proof.
  intros Hd He1 He2 [_ _ ? _ _ _] [_ _ ? _ _ _] Ha%Contains_iff Hb%Contains_iff.
  eapply (Hd l r l2 r2 a); try done; apply Contains_iff; lia.
Qed.

Lemma RemoveRange_spec h mask ms base limit :
  wf_heap h -> wf_maps h mask ms -> interval_ok mask base limit ->
  (forall l r, entry h ms l r -> removable r base limit) ->
  exists ms' h', RemoveRange h ms base limit = Ok (ms', h') /\ hext h h' /\
    removed_ok h' mask base limit h ms ms'.
Proof.
  intros Hwf Hms Hiv. revert h Hwf Hms. induction ms as [|l ms IH]; intros h Hwf Hms Hrem.
  { exists [], h. split; [done|]. split; [by apply hext_refl|].
    split; [done|..]; try (by intros ? ?%elem_of_nil); by intros ??? ?%entry_nil. }
  destruct (wm_alive _ _ _ Hms l) as [r Hl]; [by apply list_elem_of_here|].
  assert (Her : entry h (l :: ms) l r) by (apply entry_cons; by left).
  destruct (remove_one_spec h l r mask base limit) as (K & h1 & HK & Hx1 & Hko & Hold1);
    [done|done|by eapply wm_range|by apply (wm_not_parent _ _ _ Hms), list_elem_of_here|done|by eapply Hrem|].
  assert (Hms1 : wf_maps h1 mask ms) by (eapply wf_maps_hext; [done|by eapply wf_maps_cons]).
  assert (Hback : forall l2 r2, entry h1 ms l2 r2 -> entry h (l :: ms) l2 r2 /\ entry h ms l2 r2).
  { intros l2 r2 He%(entry_hext h h1); [|done|].
    - split; [|done]. apply entry_cons. by right.
    - intros l3 ?. apply (wm_alive _ _ _ Hms). by apply list_elem_of_further. }
  destruct (IH h1) as (ms' & h2 & HR & Hx2 & Hrm); [apply Hx1|done| |].
  { intros l2 r2 He. eapply Hrem. by apply Hback. }
  cbn [RemoveRange]. rewrite HK. cbn [mbind outcome_bind]. rewrite HR. cbn [mbind outcome_bind].
  exists (K ++ ms'), h2. split; [done|]. split; [by eapply hext_trans|].
  assert (HpK : forall l', l' ∈ K -> exists r', objs h2 !! l' = Some r' /\ piece h2 mask base limit h r l' r').
  { intros l' (r' & Hl' & Hp)%(ko_piece _ _ _ _ _ _ _ Hko). exists r'.
    split; [by apply (hx_sub _ _ Hx2)|]. apply (piece_mono h h1 h2); [apply Hx1|done..]. }
  assert (HpR : forall l', l' ∈ ms' -> exists l2 r2 r', entry h ms l2 r2 /\ objs h2 !! l' = Some r' /\
                  piece h2 mask base limit h r2 l' r').
  { intros l' (l2 & r2 & r' & He & Hl' & Hp)%(rm_piece _ _ _ _ _ _ _ Hrm).
    exists l2, r2, r'. apply Hback in He as [_ He]. split_and!; try done.
    destruct Hp as [? ? ? ? Hv Hn]. split; try done. intros a Ha. rewrite Hv by done.
    by apply (hext_view h h1 l2 r2 a Hwf Hx1), He. }
  pose proof (wm_nodup _ _ _ Hms) as Hnd. apply NoDup_cons in Hnd as [Hnd _].
  assert (Hx : hext h h2) by (by eapply hext_trans).
  split.
  - split.
    + intros l' [Hl'|Hl']%elem_of_app.
      * destruct (HpK l' Hl') as (r' & ? & _). eauto.
      * destruct (HpR l' Hl') as (_ & _ & r' & _ & ? & _). eauto.
    + intros l' r' [[Hl'|Hl']%elem_of_app Hr'].
      * destruct (HpK l' Hl') as (r0 & ? & Hp). simplify_eq. apply Hp.
      * destruct (HpR l' Hl') as (? & ? & r0 & _ & ? & Hp). simplify_eq. apply Hp.
    + intros la ra lb rb a [[Ha|Ha]%elem_of_app Hra] [[Hb|Hb]%elem_of_app Hrb] Hca Hcb.
      * destruct (ko_piece _ _ _ _ _ _ _ Hko la Ha) as (ra' & Ha1 & _).
        destruct (ko_piece _ _ _ _ _ _ _ Hko lb Hb) as (rb' & Hb1 & _).
        pose proof (hx_sub _ _ Hx2 _ _ Ha1). pose proof (hx_sub _ _ Hx2 _ _ Hb1). simplify_eq.
        by eapply (ko_disjoint _ _ _ _ _ _ _ Hko).
      * destruct (HpK la Ha) as (ra' & ? & Hpa). destruct (HpR lb Hb) as (l2 & r2 & rb' & He2 & ? & Hpb).
        simplify_eq. assert (l = l2) as <-; [|by destruct He2].
        eapply pieces_disjoint; [apply (wm_disjoint _ _ _ Hms)|done| |done..]. apply entry_cons. by right.
      * destruct (HpK lb Hb) as (rb' & ? & Hpb). destruct (HpR la Ha) as (l2 & r2 & ra' & He2 & ? & Hpa).
        simplify_eq. assert (l = l2) as <-; [|by destruct He2].
        eapply pieces_disjoint; [apply (wm_disjoint _ _ _ Hms)|done| |done..]. apply entry_cons. by right.
      * by eapply (wm_disjoint _ _ _ (rm_wf _ _ _ _ _ _ _ Hrm)).
    + apply NoDup_app. split_and!; [apply Hko| |apply (rm_wf _ _ _ _ _ _ _ Hrm)].
      intros l' HK' HR'. destruct (ko_piece _ _ _ _ _ _ _ Hko l' HK') as (r' & Hl1 & _).
      destruct (rm_old _ _ _ _ _ _ _ Hrm l' HR') as [Hin|?]; [|congruence].
      destruct (Hold1 l' HK') as [->|Hnone]; [done|].
      destruct (wm_alive _ _ _ Hms l') as [? ?]; [by apply list_elem_of_further|congruence].
    + intros l' [Hl'|Hl']%elem_of_app.
      * destruct (HpK l' Hl') as (? & _ & Hp). apply Hp.
      * destruct (HpR l' Hl') as (? & ? & ? & _ & _ & Hp). apply Hp.
  - intros l' [Hl'|Hl']%elem_of_app.
    + destruct (HpK l' Hl') as (r' & ? & ?). by exists l, r, r'.
    + destruct (HpR l' Hl') as (l2 & r2 & r' & ? & ? & ?). exists l2, r2, r'.
      split_and!; try done. apply entry_cons. by right.
  - intros l0 r0 a [[-> Hl0]|He]%entry_cons Ha Hn.
    + simplify_eq. destruct (ko_cover _ _ _ _ _ _ _ Hko a Ha Hn) as (l' & r' & [Hin Hl'] & Hc).
      exists l', r'. split; [|done]. split; [apply elem_of_app; by left|by apply (hx_sub _ _ Hx2)].
    + destruct (rm_cover _ _ _ _ _ _ _ Hrm l0 r0 a) as (l' & r' & [Hin Hl'] & Hc); try done.
      * destruct He. split; [done|by apply (hx_sub _ _ Hx1)].
      * exists l', r'. split; [|done]. split; [apply elem_of_app; by right|done].
  - intros l' [Hl'|Hl']%elem_of_app.
    + destruct (Hold1 l' Hl') as [->|?]; [left; by apply list_elem_of_here|by right].
    + destruct (rm_old _ _ _ _ _ _ _ Hrm l' Hl') as [?|Hnone]; [left; by apply list_elem_of_further|right].
      destruct (objs h !! l') eqn:E; [|done]. apply (hx_sub _ _ Hx1) in E. congruence.
Qed.

(** ** When the result covers the space

    The converse: what [RemoveRange] returns bounds what its argument was,
    also where [Copy] builds a range with swapped bounds. *)

(** A heap of which only the fresh locations are known. *)
Record grows (h h' : Heap) : Prop := {
  gr_fresh l r : objs h' !! l = Some r -> (l < next_loc h')%positive;
  gr_sub l r : objs h !! l = Some r -> objs h' !! l = Some r
}.

Lemma grows_refl h : wf_heap h -> grows h h.
Proof. intros Hwf. split; [apply (wf_fresh _ Hwf)|done]. Qed.

Lemma grows_trans h1 h2 h3 : grows h1 h2 -> grows h2 h3 -> grows h1 h3.
Proof. intros [_ H1] [H2 H3]. split; auto. Qed.

Lemma grows_self h1 h2 : grows h1 h2 -> grows h2 h2.
Proof. intros [H _]. by split. Qed.

Lemma grows_make_shared h r :
  grows h h -> grows h (snd (make_shared h r)) /\ objs (snd (make_shared h r)) !! next_loc h = Some r.
Proof.
  intros [Hf _]. cbn. split; [|by rewrite lookup_insert_eq]. split; cbn.
  - intros l r0 [[<- <-]|[_ Hl]]%lookup_insert_Some; [lia|]. apply Hf in Hl. lia.
  - intros l r0 Hl. rewrite lookup_insert_ne; [done|]. intros <-. apply Hf in Hl. lia.
Qed.

Lemma array_copy_bounds r n a dst dst' :
  array_copy r n a dst = Ok dst' -> base_address dst' = base_address dst /\ limit_address dst' = limit_address dst.
Proof.
  revert a dst. induction n as [|n IH]; intros a dst; cbn [array_copy]; [by intros [= <-]|].
  destruct (Contains r a); [|apply IH].
  destruct (array_get r (sub64 a (base_address r))) as [v| | |]; try done. cbn [mbind outcome_bind].
  unfold array_set. destruct (data dst) as [m|]; [|done]. destruct (_ <? _); [|done].
  cbn [mbind outcome_bind]. by intros ?%IH.
Qed.

(** Whatever the bounds asked for, [Copy] makes a new range with them. *)
Lemma Copy_bounds h l cb cl l' h' r :
  grows h h -> objs h !! l = Some r -> Copy h l cb cl = Ok (l', h') ->
  kind r <> CopyOnWriteMemoryMap /\ grows h h' /\
  exists r', objs h' !! l' = Some r' /\ base_address r' = cb /\ limit_address r' = cl.
Proof.
  intros Hg Hl. unfold Copy. rewrite (get_Some h l r Hl). cbn [mbind outcome_bind].
  assert (Hnew : forall r', base_address r' = cb -> limit_address r' = cl -> Ok (make_shared h r') = Ok (l', h') ->
    grows h h' /\ exists r', objs h' !! l' = Some r' /\ base_address r' = cb /\ limit_address r' = cl).
  { intros r' Hb Hm [= <- <-]. destruct (grows_make_shared h r' Hg) as [? ?]. split; [done|]. by exists r'. }
  destruct (kind r) eqn:Ek; try done.
  all: try by (intros Hok; split; [done|]; revert Hok; apply Hnew).
  unfold ArrayMemoryMap_new. destruct (_ =? _); [|done]. cbn [check mbind outcome_bind mret outcome_ret].
  destruct (array_copy _ _ _ _) as [dst| | |] eqn:Ec; try done. apply array_copy_bounds in Ec as [Hb Hm].
  intros Hok. split; [done|]. revert Hok. by apply Hnew.
Qed.

(** The range at [l'] covers nothing but addresses of ranges that are not
    overlapped from the left. *)
Definition covers_only (h' : Heap) (h : Heap) (ms : list loc) (base limit : Z) (l' : loc) : Prop :=
  exists r', objs h' !! l' = Some r' /\ forall a, Contains r' a = true ->
    exists l r, entry h ms l r /\ Contains r a = true /\ ~ left_overlap r base limit.

Lemma covers_only_grows h1 h2 h ms base limit l' :
  grows h1 h2 -> covers_only h1 h ms base limit l' -> covers_only h2 h ms base limit l'.
Proof. intros Hg (r' & Hl & Hc). exists r'. split; [by apply (gr_sub _ _ Hg)|done]. Qed.

Lemma remove_one_bounds h l r base limit K h' :
  grows h h -> objs h !! l = Some r -> base < limit -> base_address r < limit_address r ->
  remove_one h l base limit = Ok (K, h') ->
  grows h h' /\ (kind r = CopyOnWriteMemoryMap -> untouched r base limit) /\
  forall l', l' ∈ K -> covers_only h' h [l] base limit l'.
Proof.
  intros Hg Hl Ho Hro. unfold remove_one. rewrite (get_Some h l r Hl). cbn [mbind outcome_bind]. cbv zeta.
  assert (Hone : forall h' l' r', objs h' !! l' = Some r' ->
    (forall a, Contains r' a = true -> Contains r a = true /\ ~ left_overlap r base limit) -> covers_only h' h [l] base limit l').
  { intros h1 l' r' Hl' Hc. exists r'. split; [done|]. intros a Ha. exists l, r.
    split; [split; [by apply list_elem_of_singleton|done]|by apply Hc]. }
  unfold left_overlap, untouched in *. case_bool; [|case_bool; [|case_bool; [|case_bool]]]; bool_to_prop.
  - intros [= <- <-]. split; [done|]. split; [lia|]. intros l' ->%list_elem_of_singleton. apply (Hone _ _ r); [done|]. intros a Ha. split; [done|lia].
  - intros [= <- <-]. split; [done|]. split; [lia|]. by intros l' ?%elem_of_nil.
  - destruct (Copy h l (base_address r) base) as [[l1 h1]| | |] eqn:EC1; try done. cbn [mbind outcome_bind].
    destruct (Copy_bounds _ _ _ _ _ _ _ Hg Hl EC1) as (Hk & Hg1 & r1 & Hl1 & Hb1 & Hm1).
    pose proof (gr_sub _ _ Hg1 _ _ Hl) as Hl'.
    destruct (Copy h1 l limit (limit_address r)) as [[l2 h2]| | |] eqn:EC2; try done. cbn [mbind outcome_bind].
    destruct (Copy_bounds _ _ _ _ _ _ _ (grows_self _ _ Hg1) Hl' EC2) as (_ & Hg2 & r2 & Hl2 & Hb2 & Hm2).
    intros [= <- <-]. split; [by eapply grows_trans|]. split; [done|].
    intros l' [->|Hin]%elem_of_cons; [apply (Hone _ _ r1); [by apply (gr_sub _ _ Hg2)|]|apply list_elem_of_singleton in Hin as ->; apply (Hone _ _ r2); [done|]];
      intros a Ha%Contains_iff; rewrite Contains_iff; lia.
  - destruct (Copy h l limit (limit_address r)) as [[l1 h1]| | |] eqn:EC1; try done. cbn [mbind outcome_bind].
    destruct (Copy_bounds _ _ _ _ _ _ _ Hg Hl EC1) as (Hk & Hg1 & r1 & Hl1 & Hb1 & Hm1).
    intros [= <- <-]. split; [done|]. split; [done|]. intros l' ->%list_elem_of_singleton.
    apply (Hone _ _ r1); [done|]. intros a Ha%Contains_iff. rewrite Contains_iff. lia.
  - destruct (Copy h l (base_address r) base) as [[l1 h1]| | |] eqn:EC1; try done. cbn [mbind outcome_bind].
    destruct (Copy_bounds _ _ _ _ _ _ _ Hg Hl EC1) as (Hk & Hg1 & r1 & Hl1 & Hb1 & Hm1).
    intros [= <- <-]. split; [done|]. split; [done|]. intros l' ->%list_elem_of_singleton.
    apply (Hone _ _ r1); [done|]. intros a Ha%Contains_iff. rewrite Contains_iff. lia.
Qed.

Lemma RemoveRange_bounds h ms base limit ms' h' :
  grows h h -> base < limit -> (forall l, l ∈ ms -> exists r, objs h !! l = Some r /\ base_address r < limit_address r) ->
  RemoveRange h ms base limit = Ok (ms', h') ->
  grows h h' /\ (forall l r, entry h ms l r -> kind r = CopyOnWriteMemoryMap -> untouched r base limit) /\
  forall l', l' ∈ ms' -> covers_only h' h ms base limit l'.
Proof.
  intros Hg Ho. revert h ms' Hg. induction ms as [|l ms IH]; intros h ms' Hg Hms; cbn [RemoveRange].
  { intros [= <- <-]. split_and!; [done|by intros ? ? ?%entry_nil|by intros ? ?%elem_of_nil]. }
  destruct (Hms l) as (r & Hl & Hro); [by apply list_elem_of_here|].
  destruct (remove_one h l base limit) as [[K h1]| | |] eqn:EK; try done. cbn [mbind outcome_bind].
  destruct (remove_one_bounds _ _ _ _ _ _ _ Hg Hl Ho Hro EK) as (Hg1 & Hcow & HK).
  destruct (RemoveRange h1 ms base limit) as [[rest h2]| | |] eqn:ER; try done. cbn [mbind outcome_bind]. intros [= <- <-].
  assert (Hms1 : forall l0, l0 ∈ ms -> exists r, objs h !! l0 = Some r /\ base_address r < limit_address r).
  { intros l0 ?. apply Hms. by apply list_elem_of_further. }
  destruct (IH h1 rest) as (Hg2 & Hcow2 & HR); [by eapply grows_self| |done|].
  { intros l0 (r0 & Hl0 & ?)%Hms1. exists r0. split; [by apply (gr_sub _ _ Hg1)|done]. }
  split; [by eapply grows_trans|]. split.
  - intros l0 r0 [[-> Hl0]|[Hin Hl0]]%entry_cons; [simplify_eq; exact Hcow|]. apply (Hcow2 l0 r0).
    split; [done|by apply (gr_sub _ _ Hg1)].
  - intros l' [Hin|Hin]%elem_of_app.
    + apply (covers_only_grows h1); [done|]. destruct (HK l' Hin) as (r' & Hl' & Hc). exists r'. split; [done|].
      intros a (l0 & r0 & [[-> ?]|?%entry_nil]%entry_cons & ?)%Hc; [|done]. exists l, r0. split; [apply entry_cons; by left|done].
    + destruct (HR l' Hin) as (r' & Hl' & Hc). exists r'. split; [done|]. intros a (l0 & r0 & [Hin0 Hl0] & ?)%Hc.
      exists l0, r0. split; [|done]. split; [by apply list_elem_of_further|].
      destruct (Hms1 l0 Hin0) as (r1 & Hl1 & _). pose proof (gr_sub _ _ Hg1 _ _ Hl1). congruence.
Qed.
