(* ===== verification/IndexProps.v ===== *)
(** * The page indices

    [CreatePageToRangeMap] returns on every well-formed map list, sorts it and
    builds exactly the page indices the invariant describes. *)

From S2P Require Import Prelude Pages MappedRange RangeProps AddressSpace SpaceInv RemoveRangeProps.

Lemma resolve_spec h ms :
  (forall l, l ∈ ms -> is_Some (objs h !! l)) ->
  exists rs, resolve h ms = Ok rs /\ rs.*1 = ms /\ forall p, p ∈ rs -> objs h !! p.1 = Some p.2.
Proof.
  induction ms as [|l ms IH]; intros Hal.
  - exists []. split_and!; try done. by intros p ?%elem_of_nil.
  - destruct (Hal l) as [r Hl]; [by apply list_elem_of_here|].
    destruct IH as (rs & Hrs & Hf & Hp). { intros l' ?. apply Hal. by apply list_elem_of_further. }
    exists ((l, r) :: rs). cbn. rewrite (get_Some h l r Hl), Hrs. cbn. rewrite Hf. split_and!; try done.
    intros p [->|?]%elem_of_cons; [done|by apply Hp].
Qed.

Lemma IsValid_spec h l r : wf_heap h -> objs h !! l = Some r -> IsValid h l = Ok (valid r).
Proof.
  intros Hwf Hl. destruct (chain_fuel_SS h) as [k Hk]. unfold IsValid, valid. rewrite Hk.
  cbn [IsValid_fuel]. rewrite (get_Some h l r Hl). cbn [mbind outcome_bind].
  pose proof (wf_kind h Hwf l r Hl) as Hkd. unfold kind_ok in Hkd.
  destruct (kind r) eqn:Ek; try done.
  destruct Hkd as (_ & p & rp & -> & Hp & Hkp & _). cbn [mbind outcome_bind deref_opt].
  rewrite (get_Some h p rp Hp). cbn [mbind outcome_bind]. by rewrite Hkp.
Qed.

Lemma foldl_index_page s l ps pm wm :
  let res := foldl (index_page s l) (pm, wm) ps in
  (forall p, fst res !! p = if decide (p ∈ ps /\ any_perm s p = true) then Some l else pm !! p) /\
  (forall p, snd res !! p = if decide (p ∈ ps /\ wnx_perm s p = true) then Some l else wm !! p).
Proof.
  revert pm wm. induction ps as [|a ps IH]; intros pm wm; cbn zeta.
  - cbn. split; intros p; rewrite decide_False; try done; by intros [?%elem_of_nil _].
  - cbn [foldl]. unfold index_page at 2 4. fold (any_perm s a). fold (wnx_perm s a).
    destruct (IH (if any_perm s a then <[a := l]> pm else pm)
                 (if wnx_perm s a then <[a := l]> wm else wm)) as [H1 H2].
    assert (Hgen : forall (perm : Z -> bool) (m : gmap Z loc) p,
      (if decide (p ∈ ps /\ perm p = true) then Some l
       else (if perm a then <[a := l]> m else m) !! p) =
      (if decide (p ∈ a :: ps /\ perm p = true) then Some l else m !! p)).
    { intros perm m p. rewrite (decide_ext (p ∈ a :: ps /\ perm p = true)
        ((p = a \/ p ∈ ps) /\ perm p = true)) by (by rewrite elem_of_cons).
      destruct (perm p) eqn:Ep.
      - destruct (decide (p ∈ ps /\ true = true)) as [[? _]|Hn].
        + by rewrite decide_True by auto.
        + destruct (decide (p = a)) as [->|Hne].
          * rewrite decide_True by auto. by rewrite Ep, lookup_insert_eq.
          * rewrite decide_False by tauto. destruct (perm a); [by rewrite lookup_insert_ne|done].
      - rewrite !decide_False by naive_solver.
        destruct (perm a) eqn:Ea; [|done]. rewrite lookup_insert_ne; [done|]. intros ->. congruence. }
    split; intros p; [rewrite H1|rewrite H2]; apply Hgen.
Qed.

(** The entries a list of resolved ranges contributes to an index. *)
Definition indexed (rs : list (loc * MappedRange)) (perm : Z -> bool) (p : Z) (l : loc) : Prop :=
  exists r, (l, r) ∈ rs /\ valid r = true /\ aligned p /\ Contains r p = true /\ perm p = true.

Lemma index_maps_spec h s rs mask mn pm wm :
  wf_heap h -> NoDup rs ->
  (forall p, p ∈ rs -> objs h !! p.1 = Some p.2 /\ range_ok mask p.2) ->
  (forall p q a, p ∈ rs -> q ∈ rs -> Contains p.2 a = true -> Contains q.2 a = true -> p = q) ->
  (forall a l p, (pm !! a = Some l \/ wm !! a = Some l) -> p ∈ rs -> Contains p.2 a = false) ->
  exists mn' pm' wm', index_maps h s rs mn (pm, wm) = Ok (mn', (pm', wm')) /\
    (forall a l, pm' !! a = Some l <-> pm !! a = Some l \/ indexed rs (any_perm s) a l) /\
    (forall a l, wm' !! a = Some l <-> wm !! a = Some l \/ indexed rs (wnx_perm s) a l).
Proof.
  intros Hwf. revert mn pm wm. induction rs as [|[l r] rs IH]; intros mn pm wm Hnd Hr Hdis Hfree.
  { exists mn, pm, wm. split; [done|]. split; intros; (split; [by left|]);
      (intros [?|(r & H & _)]; [done|by apply elem_of_nil in H]). }
  apply NoDup_cons in Hnd as [Hnin Hnd].
  destruct (Hr (l, r)) as [Hl Hro]; [by apply list_elem_of_here|]. cbn in Hl, Hro.
  assert (Hr' : forall p, p ∈ rs -> objs h !! p.1 = Some p.2 /\ range_ok mask p.2).
  { intros; apply Hr. by apply list_elem_of_further. }
  assert (Hdis' : forall p q a, p ∈ rs -> q ∈ rs -> Contains p.2 a = true -> Contains q.2 a = true -> p = q).
  { intros p q a ??. apply Hdis; by apply list_elem_of_further. }
  cbn [index_maps]. rewrite (IsValid_spec h l r Hwf Hl). cbn [mbind outcome_bind].
  assert (Hidx : forall perm a l', indexed ((l, r) :: rs) perm a l' <->
            (l' = l /\ valid r = true /\ aligned a /\ Contains r a = true /\ perm a = true) \/
            indexed rs perm a l').
  { intros perm a l'. unfold indexed. setoid_rewrite elem_of_cons. split.
    - intros (r' & [[= -> ->]|?] & ?); [by left|right; eauto].
    - intros [(-> & ?)|(r' & ? & ?)]; [exists r|exists r']; eauto. }
  destruct (valid r) eqn:Ev.
  - destruct (pages_aligned_spec (base_address r) (limit_address r)) as (ps & -> & Hps).
    { pose proof (wf_bounds h Hwf l r Hl). unfold bounds_ok, u64 in *. lia. }
    { apply Hro. } { by apply Hro. }
    cbn [mbind outcome_bind].
    destruct (foldl_index_page s l ps pm wm) as [H1 H2].
    destruct (foldl (index_page s l) (pm, wm) ps) as [pm1 wm1]. cbn [fst snd] in H1, H2.
    assert (Hps' : forall a, a ∈ ps <-> aligned a /\ Contains r a = true).
    { intros a. by rewrite Hps, Contains_iff. }
    destruct (IH (Z.min mn (base_address r)) pm1 wm1) as (mn' & pm' & wm' & -> & Hpm & Hwm); try done.
    { intros a l' p Ha Hp. destruct (Contains p.2 a) eqn:Ec; [|done]. exfalso.
      assert (Hca : Contains r a = true -> False).
      { intros Hc. assert (p = (l, r)) as ->; [|done].
        eapply (Hdis p (l, r) a); try done; [by apply list_elem_of_further|by apply list_elem_of_here]. }
      assert (Hold : pm !! a = Some l' \/ wm !! a = Some l').
      { destruct Ha as [Ha|Ha]; [rewrite H1 in Ha|rewrite H2 in Ha]; case_decide as Hd; auto;
          destruct Hd as [[_ ?]%Hps' _]; tauto. }
      pose proof (Hfree a l' p Hold). rewrite Ec in *. by discriminate H; apply list_elem_of_further. }
    exists mn', pm', wm'. split; [done|].
    assert (Hgen : forall perm (m m1 m' : gmap Z loc),
      (forall a, m1 !! a = if decide (a ∈ ps /\ perm a = true) then Some l else m !! a) ->
      (forall a l' p, m !! a = Some l' -> p ∈ (l, r) :: rs -> Contains p.2 a = false) ->
      (forall a l', m' !! a = Some l' <-> m1 !! a = Some l' \/ indexed rs perm a l') ->
      forall a l', m' !! a = Some l' <-> m !! a = Some l' \/ indexed ((l, r) :: rs) perm a l').
    { intros perm m m1 m' Hm1 Hmf Hm' a l'. rewrite Hm', Hidx, Hm1. case_decide as Hd.
      - destruct Hd as [[Hal Hc]%Hps' Hperm]. split.
        + intros [[= <-]|?]; [right; left; done|right; right; done].
        + intros [Ho|[(-> & _)|?]]; [|by left|by right].
          pose proof (Hmf a l' (l, r) Ho (list_elem_of_here _ _)) as Hf. cbn in Hf. congruence.
      - split; [tauto|]. intros [?|[(-> & _ & ? & ? & ?)|?]]; [by left| |by right].
        exfalso. apply Hd. by rewrite Hps'. }
    split; [apply (Hgen _ pm pm1)|apply (Hgen _ wm wm1)]; try done; intros a l' p Ha Hp;
      apply (Hfree a l'); auto.
  - destruct (IH mn pm wm) as (mn' & pm' & wm' & -> & Hpm & Hwm); try done.
    { intros a l' p ? ?. eapply Hfree; [done|]. by apply list_elem_of_further. }
    exists mn', pm', wm'. split; [done|].
    split; intros a l'; [rewrite Hpm|rewrite Hwm]; rewrite Hidx; naive_solver.
Qed.

#[global] Instance base_le_total : Total base_le.
Proof. intros p q. unfold base_le. lia. Qed.
#[global] Instance base_le_trans : Transitive base_le.
Proof. intros p q r. unfold base_le. lia. Qed.

Lemma StronglySorted_fst h (rs : list (loc * MappedRange)) :
  (forall p, p ∈ rs -> objs h !! p.1 = Some p.2) -> StronglySorted base_le rs ->
  sorted_maps h rs.*1.
Proof.
  intros Hp Hs. induction Hs as [|p rs Hs IH Hall]; cbn; constructor.
  - apply IH. intros q ?. apply Hp. by apply list_elem_of_further.
  - apply Forall_fmap. apply Forall_forall. intros q Hq.
    pose proof (proj1 (Forall_forall _ _) Hall q Hq) as Hle. cbn. unfold base_of.
    rewrite (Hp p), (Hp q); [exact Hle|by apply list_elem_of_further|by apply list_elem_of_here].
Qed.

Lemma wf_maps_perm h mask ms ms' : ms ≡ₚ ms' -> wf_maps h mask ms -> wf_maps h mask ms'.
Proof.
  intros Hp [Hal Hr Hd Hn Hnp].
  assert (He : forall l r, entry h ms' l r -> entry h ms l r).
  { intros l r [? ?]. split; [by rewrite Hp|done]. }
  split.
  - intros l Hl. apply Hal. by rewrite Hp.
  - eauto.
  - intros l1 r1 l2 r2 a ?%He ?%He. by eapply Hd.
  - by rewrite <- Hp.
  - intros l Hl. apply Hnp. by rewrite Hp.
Qed.

(** The fields [CreatePageToRangeMap] leaves alone. *)
Definition same_rest (s s' : AddressSpace) : Prop :=
  addr_mask s' = addr_mask s /\ invalid s' = invalid s /\
  page_is_readable s' = page_is_readable s /\ page_is_writable s' = page_is_writable s /\
  page_is_executable s' = page_is_executable s /\ trace_heads s' = trace_heads s /\
  is_dead s' = is_dead s.

(** On a well-formed map list the index is always built. *)
Lemma CreatePageToRangeMap_spec h s :
  wf_heap h -> wf_maps h (addr_mask s) (maps s) ->
  exists s', CreatePageToRangeMap h s = Ok s' /\ maps s' ≡ₚ maps s /\ same_rest s s' /\
    sorted_maps h (maps s') /\
    index_ok h (maps s') (any_perm s') (page_to_map s') /\
    index_ok h (maps s') (wnx_perm s') (wnx_page_to_map s') /\
    last_map_cache s' = ∅ /\ wnx_last_map_cache s' = ∅.
Proof.
  intros Hwf Hms. unfold CreatePageToRangeMap.
  destruct (resolve_spec h (maps s)) as (rs & -> & Hfst & Hrs); [apply Hms|].
  cbn [mbind outcome_bind].
  assert (Hperm : sort_maps rs ≡ₚ rs) by apply merge_sort_Permutation.
  assert (Hrs' : forall p, p ∈ sort_maps rs -> objs h !! p.1 = Some p.2).
  { intros p Hp. apply Hrs. by rewrite <- Hperm. }
  assert (Hent : forall p, p ∈ sort_maps rs -> entry h (maps s) p.1 p.2).
  { intros p Hp. split; [|by apply Hrs']. rewrite <- Hfst, <- Hperm. by apply list_elem_of_fmap_2. }
  destruct (index_maps_spec h s (sort_maps rs) (addr_mask s) (two64 - 1) ∅ ∅)
    as (mn & pm & wm & -> & Hpm & Hwm); [done|..].
  { rewrite Hperm. apply (NoDup_fmap_1 fst). rewrite Hfst. apply Hms. }
  { intros p Hp. split; [by apply Hrs'|]. eapply (wm_range _ _ _ Hms), Hent, Hp. }
  { intros p q a Hp Hq Hcp Hcq.
    assert (p.1 = q.1) by (eapply (wm_disjoint _ _ _ Hms); [by apply Hent|by apply Hent|done..]).
    pose proof (Hrs' p Hp). pose proof (Hrs' q Hq). destruct p, q; cbn in *. congruence. }
  { intros a l p [H|H]; by rewrite lookup_empty in H. }
  cbn [mbind outcome_bind]. eexists. split; [done|]. cbn.
  split; [rewrite <- Hfst; by f_equiv|]. split; [done|].
  split; [apply StronglySorted_fst; [done|apply StronglySorted_merge_sort; apply _]|].
  assert (Hgen : forall perm a l, indexed (sort_maps rs) perm a l <->
    exists r, entry h (sort_maps rs).*1 l r /\ valid r = true /\ aligned a /\ Contains r a = true /\ perm a = true).
  { intros perm a l. unfold indexed. split; intros (r & Hr & ?); exists r; (split; [|done]).
    - split; [by apply (list_elem_of_fmap_2 fst) in Hr|by apply (Hrs' (l, r))].
    - destruct Hr as [Hin Hl]. apply list_elem_of_fmap in Hin as ([l' r'] & -> & Hin).
      pose proof (Hrs' _ Hin). cbn in *. by simplify_eq. }
  split_and!; try done; intros a l; [rewrite Hpm|rewrite Hwm]; rewrite lookup_empty, <- Hgen;
    naive_solver.
Qed.

(** Everything but the map list of the invariant follows from rebuilding the
    index. *)
Lemma wf_space_create h s :
  wf_heap h -> wf_core h s ->
  exists s', CreatePageToRangeMap h s = Ok s' /\ wf_space h s' /\ maps s' ≡ₚ maps s /\ same_rest s s'.
Proof.
  intros Hwf [Hmask Hms Hcov Hinv Hdead].
  destruct (CreatePageToRangeMap_spec h s Hwf Hms) as (s' & Hs' & Hp & Hsame & Hso & Hi & Hw & Hc & Hwc).
  exists s'. split_and!; try done. destruct Hsame as (Hm & Hin & _ & _ & _ & _ & Hd).
  split; rewrite ?Hc, ?Hwc; try done.
  split; rewrite ?Hm, ?Hin, ?Hd; try done.
  - by eapply wf_maps_perm.
  - intros a (l & r & [? ?] & ?)%Hcov. exists l, r. split; [split; [by rewrite Hp|done]|done].
Qed.

(** ** Permissions *)

Lemma foldl_set_page b ps S p :
  p ∈ foldl (set_page b) S ps <-> if b then p ∈ ps \/ p ∈ S else p ∈ S /\ p ∉ ps.
Proof.
  revert S. induction ps as [|a ps IH]; intros S; cbn.
  - destruct b; set_solver.
  - rewrite IH. destruct b; cbn; rewrite elem_of_cons; set_solver.
Qed.

(** The permission loop always ends: the page-rounded limit is aligned, so it
    is never inside the last page. *)
Lemma permission_pages base_ size :
  u64 base_ -> u64 size ->
  exists ps, pages (AlignDownToPage base_) (add64 (AlignDownToPage base_) (RoundUpToPage size)) = Ok ps /\
    forall p, p ∈ ps <-> aligned p /\
      AlignDownToPage base_ <= p < add64 (AlignDownToPage base_) (RoundUpToPage size).
Proof.
  intros Hb Hs. apply pages_aligned_spec; [by apply AlignDownToPage_u64|by apply AlignDownToPage_aligned|].
  apply aligned_u64_top; [apply wrap64_u64|]. apply aligned_add64; [by apply AlignDownToPage_aligned|].
  by apply RoundUpToPage_aligned.
Qed.

Definition in_pages (base limit p : Z) : bool :=
  bool_decide (aligned p) && (base <=? p) && (p <? limit).

Lemma in_pages_iff base limit p : in_pages base limit p = true <-> aligned p /\ base <= p < limit.
Proof.
  unfold in_pages. rewrite !andb_true_iff, bool_decide_eq_true, Z.leb_le, Z.ltb_lt. tauto.
Qed.

(** The permissions after [SetPermissions]. *)
Definition perms_set (s s' : AddressSpace) (base limit : Z) (r w x : bool) : Prop :=
  forall p,
    CanReadAligned s' p = (if in_pages base limit p then r else CanReadAligned s p) /\
    CanWriteAligned s' p = (if in_pages base limit p then w else CanWriteAligned s p) /\
    CanExecuteAligned s' p = (if in_pages base limit p then x else CanExecuteAligned s p).

Lemma perms_set_foldl (S : gset Z) b ps base limit p :
  (forall p, p ∈ ps <-> aligned p /\ base <= p < limit) ->
  bool_decide (p ∈ foldl (set_page b) S ps) = if in_pages base limit p then b else bool_decide (p ∈ S).
Proof.
  intros Hps. destruct (in_pages base limit p) eqn:E.
  - apply in_pages_iff, Hps in E. destruct b.
    + apply bool_decide_eq_true. apply foldl_set_page. by left.
    + apply bool_decide_eq_false. intros [_ ?]%foldl_set_page. done.
  - assert (Hn : p ∉ ps). { rewrite Hps, <- in_pages_iff. congruence. }
    apply bool_decide_ext. rewrite foldl_set_page. destruct b; tauto.
Qed.

(** [SetPermissions] on a well-formed map list: it returns, keeps the maps
    and sets the permissions of exactly the pages of the interval. *)
Lemma SetPermissions_spec h s base_ size r w x :
  wf_heap h -> wf_core h s -> u64 base_ -> u64 size ->
  exists s', SetPermissions h s base_ size r w x = Ok s' /\ wf_space h s' /\ maps s' ≡ₚ maps s /\
    addr_mask s' = addr_mask s /\ trace_heads s' = trace_heads s /\
    perms_set s s' (AlignDownToPage base_) (add64 (AlignDownToPage base_) (RoundUpToPage size)) r w x.
Proof.
  intros Hwf Hcore Hb Hs. unfold SetPermissions. cbv zeta.
  destruct (permission_pages base_ size Hb Hs) as (ps & -> & Hps). cbn [mbind outcome_bind].
  destruct (wf_space_create h (with_perms s (foldl (set_page r) (page_is_readable s) ps)
       (foldl (set_page w) (page_is_writable s) ps) (foldl (set_page x) (page_is_executable s) ps)))
    as (s' & Hs' & Hw & Hp & Hsame); [done|by destruct Hcore|].
  exists s'. destruct Hsame as (Hm & Hin & Hr' & Hw' & Hx' & Ht & Hd). split_and!; try done.
  intros p. unfold CanReadAligned, CanWriteAligned, CanExecuteAligned. rewrite Hr', Hw', Hx'. cbn.
  split_and!; by apply perms_set_foldl.
Qed.
