(* ===== verification/MapChange.v ===== *)
(** * Mapping and unmapping

    [AddMap], [RemoveMap] and [SetPermissions] on a well-formed address space:
    they return, preserve the invariant and change the abstract memory and the
    permissions exactly on the requested pages.  The side condition is
    [removable]: no map is overlapped from the left and no copy-on-write map
    is cut (see [RemoveRangeProps.v]). *)

From S2P Require Import Prelude Pages MappedRange RangeProps AddressSpace SpaceInv RemoveRangeProps IndexProps.

(** ** Appending the new range *)

Lemma abs_maps_snoc h ms l a :
  abs_maps h (ms ++ [l]) a = match abs_maps h ms a with Some v => Some v | None => abs_maps h [l] a end.
Proof.
  induction ms as [|l' ms IH]; [done|]. cbn. destruct (objs h !! l') as [r|]; [|done].
  by destruct (Contains r a && valid r).
Qed.

Lemma wf_maps_snoc h mask ms l0 r0 :
  wf_maps h mask ms -> objs h !! l0 = Some r0 -> range_ok mask r0 -> l0 ∉ ms -> ~ is_parent h l0 ->
  (forall l r a, entry h ms l r -> Contains r a = true -> Contains r0 a = true -> False) ->
  wf_maps h mask (ms ++ [l0]).
Proof.
  intros [Hal Hr Hd Hn Hp] Hl0 Hr0 Hnin Hnp Hdis.
  assert (He : forall l r, entry h (ms ++ [l0]) l r -> entry h ms l r \/ (l = l0 /\ r = r0)).
  { intros l r [?|[[-> ?]|[]%entry_nil]%entry_cons]%entry_app; [by left|right].
    split; [done|congruence]. }
  split.
  - intros l [?| ->%list_elem_of_singleton]%elem_of_app; eauto.
  - intros l r [?|[-> ->]]%He; eauto.
  - intros l1 r1 l2 r2 a [?|[-> ->]]%He [?|[-> ->]]%He Hc1 Hc2; try done.
    + by eapply Hd.
    + exfalso. by eapply Hdis.
    + exfalso. by eapply Hdis.
  - apply NoDup_app. split_and!; [done| |apply NoDup_singleton].
    intros l ? ->%list_elem_of_singleton. done.
  - intros l [?| ->%list_elem_of_singleton]%elem_of_app; auto.
Qed.

(** ** Frames *)

Lemma hext_value_at h h' l r a :
  wf_heap h -> hext h h' -> objs h !! l = Some r -> value_at h' r a = value_at h r a.
Proof. intros. apply value_at_view. by eapply hext_view. Qed.

(** Other users of the heap do not see new objects. *)
Lemma abs_maps_hext h h' ms a :
  wf_heap h -> hext h h' -> (forall l, l ∈ ms -> is_Some (objs h !! l)) ->
  abs_maps h' ms a = abs_maps h ms a.
Proof.
  intros Hwf Hx. induction ms as [|l ms IH]; intros Hal; [done|]. cbn.
  destruct (Hal l) as [r Hl]; [by apply list_elem_of_here|].
  rewrite Hl, (hx_sub _ _ Hx _ _ Hl). rewrite (hext_value_at h h' l r) by done.
  rewrite IH; [done|]. intros l' ?. apply Hal. by apply list_elem_of_further.
Qed.

Lemma entry_hext_iff h h' ms l r :
  hext h h' -> (forall l, l ∈ ms -> is_Some (objs h !! l)) -> entry h' ms l r <-> entry h ms l r.
Proof.
  intros Hx Hal. split; [by apply entry_hext|]. intros [? ?]. split; [done|by apply (hx_sub _ _ Hx)].
Qed.

Lemma wf_core_hext h h' s : hext h h' -> wf_core h s -> wf_core h' s.
Proof.
  intros Hx [Hmask Hms Hcov (r & Hr & Hk) Hdead]. split; try done.
  - by eapply wf_maps_hext.
  - intros a (l & r' & He & Hc)%Hcov. exists l, r'. split; [|done].
    rewrite (entry_hext_iff h); [done|done|apply Hms].
  - exists r. split; [by apply (hx_sub _ _ Hx)|done].
Qed.

Lemma sorted_maps_ext h h' ms :
  (forall l, l ∈ ms -> base_of h' l = base_of h l) -> sorted_maps h ms -> sorted_maps h' ms.
Proof.
  intros He Hs. induction Hs as [|l ms Hs IH Hall]; constructor.
  - apply IH. intros l' ?. apply He. by apply list_elem_of_further.
  - apply Forall_forall. intros l' Hl'. pose proof (proj1 (Forall_forall _ _) Hall l' Hl').
    rewrite !He; [done|by apply list_elem_of_further|by apply list_elem_of_here].
Qed.

Lemma index_ok_ext h h' ms perm m :
  (forall l r, entry h' ms l r -> exists r', entry h ms l r' /\ valid r' = valid r /\ same_bounds r r') ->
  (forall l r, entry h ms l r -> exists r', entry h' ms l r' /\ valid r' = valid r /\ same_bounds r r') ->
  index_ok h ms perm m -> index_ok h' ms perm m.
Proof.
  intros H1 H2 Hi p l. rewrite (Hi p l).
  split; intros (r & He & Hv & Hal & Hc & Hp);
    [destruct (H2 l r He) as (r' & He' & Hv' & Hb1 & Hb2)|destruct (H1 l r He) as (r' & He' & Hv' & Hb1 & Hb2)];
    exists r'; split_and!; try done; try congruence; unfold Contains in *; by rewrite Hb1, Hb2.
Qed.

(** Old objects keep their bounds and validity and become nobody's parent:
    all the invariant needs. *)
Record keeps (h h' : Heap) : Prop := {
  kp_old l r : objs h !! l = Some r ->
    exists r', objs h' !! l = Some r' /\ same_bounds r r' /\ valid r' = valid r;
  kp_parent l : is_Some (objs h !! l) -> is_parent h' l -> is_parent h l
}.

Lemma hext_keeps h h' : hext h h' -> keeps h h'.
Proof.
  intros Hx. split; [|intros l _; apply (hx_parent _ _ Hx)].
  intros l r Hl. exists r. split; [by apply (hx_sub _ _ Hx)|done].
Qed.

Lemma keeps_alive h h' l : keeps h h' -> is_Some (objs h !! l) -> is_Some (objs h' !! l).
Proof. intros Hk [r Hl]. destruct (kp_old _ _ Hk l r Hl) as (r' & -> & _). done. Qed.

Lemma keeps_trans h1 h2 h3 : keeps h1 h2 -> keeps h2 h3 -> keeps h1 h3.
Proof.
  intros Hk1 Hk2. split.
  - intros l r Hl. destruct (kp_old _ _ Hk1 l r Hl) as (r2 & Hl2 & [Hb Hb'] & Hv).
    destruct (kp_old _ _ Hk2 l r2 Hl2) as (r3 & Hl3 & [Hb2 Hb2'] & Hv2). exists r3. unfold same_bounds. split_and!; congruence.
  - intros l Hl Hp. apply (kp_parent _ _ Hk1); [done|]. apply (kp_parent _ _ Hk2); [by apply (keeps_alive h1)|done].
Qed.

Lemma same_bounds_Contains r r' a : same_bounds r r' -> Contains r' a = Contains r a.
Proof. intros [H1 H2]. unfold Contains. by rewrite H1, H2. Qed.

Lemma keeps_invalid h h' l r :
  keeps h h' -> objs h !! l = Some r -> kind r = InvalidMemoryMap ->
  exists r', objs h' !! l = Some r' /\ kind r' = InvalidMemoryMap.
Proof.
  intros Hk Hl Hi. destruct (kp_old _ _ Hk l r Hl) as (r' & Hl' & _ & Hv). exists r'. split; [done|].
  destruct (decide (kind r' = InvalidMemoryMap)) as [|Hne]; [done|].
  apply valid_iff in Hne. rewrite Hv in Hne. by apply valid_iff in Hne.
Qed.

Lemma keeps_wf_maps h h' mask ms : keeps h h' -> wf_maps h mask ms -> wf_maps h' mask ms.
Proof.
  intros Hk [Hal Hr Hd Hn Hp].
  assert (Hbwd : forall l r, entry h' ms l r -> exists r', entry h ms l r' /\ valid r = valid r' /\ same_bounds r' r).
  { intros l r [Hin Hl]. destruct (Hal l Hin) as [r' Hr']. exists r'.
    destruct (kp_old _ _ Hk l r' Hr') as (r2 & ? & ? & ?). simplify_eq. done. }
  split; try done.
  - intros l [r Hl]%Hal. destruct (kp_old _ _ Hk l r Hl) as (r' & -> & _). done.
  - intros l r' (r & He & Hv & Hb1 & Hb2)%Hbwd. destruct (Hr l r He) as [? ? ? ? ?].
    split; rewrite ?Hb1, ?Hb2, ?Hv; done.
  - intros l1 r1 l2 r2 a (r1' & He1 & _ & Hb1)%Hbwd (r2' & He2 & _ & Hb2)%Hbwd Hc1 Hc2.
    eapply (Hd l1 r1' l2 r2' a); try done; by rewrite <- (same_bounds_Contains r1' r1) || rewrite <- (same_bounds_Contains r2' r2).
  - intros l Hl Hip%(kp_parent _ _ Hk); [by apply (Hp l)|by apply Hal].
Qed.

Lemma keeps_wf_space h h' s : keeps h h' -> wf_space h s -> wf_space h' s.
Proof.
  intros Hk Hw. pose proof (wm_alive _ _ _ (ws_maps _ _ Hw)) as Hal.
  assert (Hfwd : forall l r, entry h (maps s) l r -> exists r', entry h' (maps s) l r' /\ valid r' = valid r /\ same_bounds r r').
  { intros l r [Hin Hl]. destruct (kp_old _ _ Hk l r Hl) as (r' & ? & ? & ?). exists r'. by split; [split|]. }
  assert (Hbwd : forall l r, entry h' (maps s) l r -> exists r', entry h (maps s) l r' /\ valid r' = valid r /\ same_bounds r r').
  { intros l r [Hin Hl]. destruct (Hal l Hin) as [r' Hr']. exists r'.
    destruct (kp_old _ _ Hk l r' Hr') as (r2 & ? & [? ?] & ?). simplify_eq. by split; [split|split; [|split]]. }
  destruct Hw as [[Hmask Hms Hcov (ri & Hri & Hki) Hdead] Hs Hi Hwx Hc Hwc].
  split; try done; [|..|by eapply index_ok_ext|by eapply index_ok_ext].
  - split; try done; [by eapply keeps_wf_maps| |by eapply keeps_invalid].
    intros a (l & r & He & Hca)%Hcov. destruct (Hfwd l r He) as (r' & He' & _ & Hb). exists l, r'.
    split; [done|]. by rewrite (same_bounds_Contains r).
  - eapply sorted_maps_ext; [|done]. intros l [r Hl]%Hal. unfold base_of.
    destruct (kp_old _ _ Hk l r Hl) as (r' & -> & [Hb _] & _). by rewrite Hl; cbn; rewrite Hb.
Qed.

(** ** Replacing an interval of the map list *)

(** What is left of the abstract memory after [RemoveRange]. *)
Lemma removed_abs h h' mask base limit ms ms' a :
  wf_heap h -> wf_maps h mask ms -> removed_ok h' mask base limit h ms ms' ->
  abs_maps h' ms' a = if decide (base <= a < limit) then None else abs_maps h ms a.
Proof.
  intros Hwf Hms Hrm. apply option_eq. intros v.
  pose proof (wm_disjoint _ _ _ (rm_wf _ _ _ _ _ _ _ Hrm)) as Hd'.
  rewrite (abs_maps_Some h' ms' a v Hd'). case_decide as Hin.
  - split; [|done]. intros (l' & r' & [Hl' Hr'] & Hc%Contains_iff & _).
    destruct (rm_piece _ _ _ _ _ _ _ Hrm l' Hl') as (l & r & r'' & _ & ? & Hp). simplify_eq.
    pose proof (pc_outside _ _ _ _ _ _ _ _ Hp). lia.
  - rewrite (abs_maps_Some h ms a v (wm_disjoint _ _ _ Hms)). split.
    + intros (l' & r' & [Hl' Hr'] & Hc & Hv & Hval).
      destruct (rm_piece _ _ _ _ _ _ _ Hrm l' Hl') as (l & r & r'' & He & ? & Hp). simplify_eq.
      exists l, r. destruct Hp as [_ Hpv Hins _ Hview _ _]. split_and!; [done| |congruence|].
      * rewrite Contains_iff in *. lia.
      * symmetry. apply value_at_view. by rewrite Hview.
    + intros (l & r & He & Hc & Hv & Hval).
      destruct (rm_cover _ _ _ _ _ _ _ Hrm l r a He Hc Hin) as (l' & r' & He' & Hc').
      exists l', r'. destruct He' as [Hl' Hr'].
      destruct (rm_piece _ _ _ _ _ _ _ Hrm l' Hl') as (l2 & r2 & r'' & He2 & ? & Hp). simplify_eq.
      destruct Hp as [_ Hpv Hins _ Hview _ _].
      assert (l2 = l) as ->.
      { eapply (wm_disjoint _ _ _ Hms); [done|done| |done]. rewrite Contains_iff in *. lia. }
      destruct He, He2. simplify_eq.
      split_and!; try done; [congruence|]. apply value_at_view. by rewrite Hview.
Qed.

(** The new range of [AddMap] and [RemoveMap]. *)
Record new_range (mask base limit : Z) (r0 : MappedRange) : Prop := {
  nr_base : base_address r0 = base;
  nr_limit : limit_address r0 = limit;
  nr_kind : kind r0 = EmptyMemoryMap \/ kind r0 = InvalidMemoryMap;
  nr_data : data r0 = None;
  nr_parent : parent r0 = None;
  nr_interval : interval_ok mask base limit;
  nr_aligned : aligned limit
}.

Lemma new_range_ok mask base limit r0 :
  mask_ok mask -> new_range mask base limit r0 -> range_ok mask r0 /\ bounds_ok r0.
Proof.
  intros Hm [<- <- _ _ _ [? ? ? ?] Hal]. pose proof (mask_u64 mask Hm) as Hu. unfold u64 in Hu.
  assert (Htop : limit_address r0 <= two64 - kPageSize).
  { apply aligned_u64_top; [unfold u64; lia|done]. }
  unfold bounds_ok. split; [split; try done; lia|lia].
Qed.

Lemma new_range_value h mask base limit r0 a :
  new_range mask base limit r0 -> value_at h r0 a = 0.
Proof. intros [_ _ [Hk|Hk] _ _ _ _]; unfold value_at, view; by rewrite Hk. Qed.

(** A range of the new map list: the new range itself, or a piece of an old
    range that starts where the old range or where the new one ends. *)
Definition comes_from (h : Heap) (ms : list loc) (base limit : Z) (r' : MappedRange) : Prop :=
  (base_address r' = base /\ limit_address r' = limit) \/
  exists l r, entry h ms l r /\ valid r' = valid r /\ limit_address r' <= limit_address r /\
    (base_address r' = base_address r \/ base_address r' = limit).

Lemma replace_spec h s base limit r0 :
  wf_heap h -> wf_core h s -> new_range (addr_mask s) base limit r0 ->
  (forall l r, entry h (maps s) l r -> removable r base limit) ->
  exists old h', RemoveRange (snd (make_shared h r0)) (maps s) base limit = Ok (old, h') /\
    hext h h' /\ wf_core h' (with_maps s (old ++ [next_loc h])) /\
    (forall a, abs_maps h' (old ++ [next_loc h]) a =
      if decide (base <= a < limit) then (if valid r0 then Some 0 else None) else abs_maps h (maps s) a) /\
    forall l r, entry h' (old ++ [next_loc h]) l r ->
      (l ∈ maps s \/ objs h !! l = None) /\ comes_from h (maps s) base limit r.
Proof.
  intros Hwf Hcore Hnr Hrem. pose proof (wc_maps _ _ Hcore) as Hms.
  destruct (new_range_ok _ _ _ _ (wc_mask _ _ Hcore) Hnr) as [Hro Hbo].
  destruct (hext_make_shared h r0) as (Hx0 & Hl0 & Hfr & Hnp); [done|done| |apply Hnr|].
  { pose proof (nr_data _ _ _ _ Hnr). pose proof (nr_parent _ _ _ _ Hnr).
    unfold kind_ok. by destruct (nr_kind _ _ _ _ Hnr) as [-> | ->]. }
  set (h0 := snd (make_shared h r0)) in *.
  assert (He0 : forall l r, entry h0 (maps s) l r <-> entry h (maps s) l r).
  { intros. apply entry_hext_iff; [done|apply Hms]. }
  assert (Hms0 : wf_maps h0 (addr_mask s) (maps s)) by (by eapply wf_maps_hext).
  destruct (RemoveRange_spec h0 (addr_mask s) (maps s) base limit) as (old & h' & HR & Hx1 & Hrm);
    [apply Hx0|done|apply Hnr|by intros l r ?%He0; eapply Hrem|].
  assert (Hx : hext h h') by (by eapply hext_trans).
  pose proof (hx_sub _ _ Hx1 _ _ Hl0) as Hl0'.
  assert (Hcon : forall a, Contains r0 a = true <-> base <= a < limit).
  { intros a. by rewrite Contains_iff, (nr_base _ _ _ _ Hnr), (nr_limit _ _ _ _ Hnr). }
  assert (Hfresh : forall l, l ∈ maps s \/ objs h0 !! l = None -> l ∈ maps s \/ objs h !! l = None).
  { intros l [?|Hn]; [by left|right]. destruct (objs h !! l) eqn:E; [|done]. apply (hx_sub _ _ Hx0) in E. congruence. }
  exists old, h'. split_and!; [done|done|..].
  - split; try apply Hcore.
    + apply (wf_maps_snoc _ _ _ _ r0); try done; [apply Hrm| | |].
      * intros Hin. destruct (rm_old _ _ _ _ _ _ _ Hrm _ Hin) as [Hin'|?]; [|congruence].
        destruct (wm_alive _ _ _ Hms _ Hin'). congruence.
      * by intros ?%(hx_parent _ _ Hx1).
      * intros l r a [Hin Hl] Hc%Contains_iff Hc0%Hcon.
        destruct (rm_piece _ _ _ _ _ _ _ Hrm l Hin) as (? & ? & r' & _ & ? & Hp). simplify_eq.
        pose proof (pc_outside _ _ _ _ _ _ _ _ Hp). lia.
    + cbn. intros a Ha. destruct (decide (base <= a < limit)) as [Hin|Hout].
      * exists (next_loc h), r0. split; [|by apply Hcon]. apply entry_app. right. apply entry_cons. by left.
      * destruct (wc_cover _ _ Hcore a Ha) as (l & r & He%He0 & Hc).
        destruct (rm_cover _ _ _ _ _ _ _ Hrm l r a He Hc Hout) as (l' & r' & He' & Hc').
        exists l', r'. split; [|done]. apply entry_app. by left.
    + destruct (wc_invalid _ _ Hcore) as (r & Hr & Hk). exists r. split; [by apply (hx_sub _ _ Hx)|done].
  - intros a. rewrite abs_maps_snoc, (removed_abs h0 h' (addr_mask s) base limit (maps s) old a);
      [|apply Hx0|done|done].
    cbn [abs_maps]. rewrite Hl0'. pose proof (Hcon a) as Hca. case_decide as Hin.
    + rewrite (proj2 Hca Hin). cbn. by rewrite (new_range_value _ _ _ _ _ _ Hnr).
    + rewrite (abs_maps_hext h h0) by (try done; apply Hms).
      destruct (Contains r0 a); [exfalso; by apply Hin, Hca|]. cbn. by destruct (abs_maps h (maps s) a).
  - intros l r [[Hin Hl]|[[-> Hl]|[]%entry_nil]%entry_cons]%entry_app.
    + destruct (rm_piece _ _ _ _ _ _ _ Hrm l Hin) as (l1 & r1 & r' & He%He0 & ? & Hp). simplify_eq.
      split; [by eapply Hfresh, rm_old|].
      right. exists l1, r1. split; [done|]. destruct Hp as [_ ? [_ ?] _ _ _ ?]. done.
    + simplify_eq. split; [by right|]. left. split; apply Hnr.
Qed.

(** ** [AddMap] and [RemoveMap] *)

(** A request for a non-empty interval below the top page of the space. *)
Record request_ok (s : AddressSpace) (base_ size : Z) : Prop := {
  rq_base : u64 base_;
  rq_size : 0 < size;
  rq_top : AlignDownToPage base_ + size <= addr_mask s + 1 - kPageSize
}.

(** The pages a request names. *)
Definition request_limit (base_ size : Z) : Z := AlignDownToPage base_ + RoundUpToPage size.
Definition in_request (base_ size a : Z) : Prop := AlignDownToPage base_ <= a < request_limit base_ size.
#[global] Instance in_request_dec base_ size a : Decision (in_request base_ size a).
Proof. unfold in_request. apply _. Defined.

Lemma mask_top_aligned mask : mask_ok mask -> aligned (mask + 1) /\ mask < two64.
Proof. by intros [-> | ->]. Qed.

Lemma request_facts h s base_ size :
  wf_core h s -> request_ok s base_ size ->
  interval_ok (addr_mask s) (AlignDownToPage base_) (request_limit base_ size) /\
  aligned (request_limit base_ size) /\
  map_limit s (AlignDownToPage base_) size = request_limit base_ size /\
  Z.land (AlignDownToPage base_) (addr_mask s) = AlignDownToPage base_ /\
  u64 (request_limit base_ size - AlignDownToPage base_) /\
  sub64 (request_limit base_ size) (AlignDownToPage base_) = request_limit base_ size - AlignDownToPage base_ /\
  add64 (AlignDownToPage base_) (RoundUpToPage (request_limit base_ size - AlignDownToPage base_)) =
    request_limit base_ size.
Proof.
  intros Hcore [Hb Hs Ht]. destruct (mask_top_aligned _ (wc_mask _ _ Hcore)) as [Hma Hm64].
  pose proof (AlignDownToPage_aligned _ Hb) as Hal. pose proof (AlignDownToPage_range _ Hb) as Hbr.
  assert (kPageSize = 4096) as Hk by done.
  destruct (RoundUpToPage_range size) as [Hr Hra]; [lia|].
  assert (Hla : aligned (request_limit base_ size)) by (by apply aligned_add).
  unfold request_limit in *.
  assert (Htop : AlignDownToPage base_ + RoundUpToPage size <= addr_mask s + 1 - kPageSize).
  { destruct (decide (AlignDownToPage base_ + RoundUpToPage size <= addr_mask s + 1 - kPageSize)); [done|].
    pose proof (aligned_lt (addr_mask s + 1 - kPageSize) _ (aligned_sub _ _ Hma (eq_refl : aligned kPageSize)) Hla). lia. }
  replace (AlignDownToPage base_ + RoundUpToPage size - AlignDownToPage base_)
    with (RoundUpToPage size) by lia.
  assert (Hid : RoundUpToPage (RoundUpToPage size) = RoundUpToPage size) by (apply RoundUp_whole; [done|lia]).
  split_and!; [|done|..].
  - split; try done; try lia. by left.
  - unfold map_limit. rewrite add64_small by lia. lia.
  - apply land_mask; [apply Hcore|lia].
  - unfold u64. lia.
  - rewrite sub64_small; lia.
  - rewrite Hid. apply add64_small. lia.
Qed.

(** What both operations do to the space: the abstract memory of the
    requested pages becomes [v], their permissions [r], [w], [x], and nothing
    else changes. *)
Record remapped (h : Heap) (s : AddressSpace) (h' : Heap) (s' : AddressSpace)
    (base_ size : Z) (v : option Z) (r w x : bool) : Prop := {
  rp_hext : hext h h';
  rp_wf : wf_space h' s';
  rp_mask : addr_mask s' = addr_mask s;
  rp_heads : trace_heads s' = trace_heads s;
  rp_abs a : abs h' s' a = if decide (in_request base_ size a) then v else abs h s a;
  rp_perms : perms_set s s' (AlignDownToPage base_) (request_limit base_ size) r w x;
  rp_entries l r' : entry h' (maps s') l r' ->
    (l ∈ maps s \/ objs h !! l = None) /\ comes_from h (maps s) (AlignDownToPage base_) (request_limit base_ size) r'
}.

Lemma abs_maps_perm h ms ms' a :
  ms ≡ₚ ms' -> disjoint_maps h ms -> abs_maps h ms a = abs_maps h ms' a.
Proof.
  intros Hp Hd.
  assert (He : forall l r, entry h ms l r <-> entry h ms' l r) by (intros; unfold entry; by rewrite Hp).
  apply abs_maps_ext; [done| |by setoid_rewrite He].
  intros l1 r1 l2 r2 b ?%He ?%He. by eapply Hd.
Qed.

Lemma covered_not_nil h s : wf_core h s -> bool_decide (maps s = []) = false.
Proof.
  intros Hc. apply bool_decide_eq_false. intros Hn.
  destruct (wc_cover _ _ Hc 0) as (l & r & [Hin _] & _).
  - destruct (wc_mask _ _ Hc) as [-> | ->]; done.
  - rewrite Hn in Hin. by apply elem_of_nil in Hin.
Qed.

(** The common tail of [AddMap] and [RemoveMap]. *)
Lemma remap_perms h s h' ms base_ size v rd wr ex :
  wf_core h s -> request_ok s base_ size -> hext h h' -> wf_core h' (with_maps s ms) ->
  (forall a, abs_maps h' ms a = if decide (in_request base_ size a) then v else abs h s a) ->
  (forall l r', entry h' ms l r' ->
    (l ∈ maps s \/ objs h !! l = None) /\ comes_from h (maps s) (AlignDownToPage base_) (request_limit base_ size) r') ->
  exists s',
    SetPermissions h' (with_maps s ms) (AlignDownToPage base_)
      (sub64 (map_limit s (AlignDownToPage base_) size) (AlignDownToPage base_)) rd wr ex = Ok s' /\
    remapped h s h' s' base_ size v rd wr ex.
Proof.
  intros Hcore Hrq Hx Hcore' Habs Hfrom.
  destruct (request_facts h s base_ size Hcore Hrq) as (Hiv & Hla & -> & Hland & Hu & -> & Hend).
  pose proof (AlignDownToPage_u64 _ (rq_base _ _ _ Hrq)) as Hbu.
  destruct (SetPermissions_spec h' (with_maps s ms) (AlignDownToPage base_)
    (request_limit base_ size - AlignDownToPage base_) rd wr ex) as (s' & Hs' & Hw & Hp & Hm & Ht & Hps);
    [apply Hx|done|done|done|].
  exists s'. split; [done|]. rewrite (AlignDownToPage_id (AlignDownToPage base_)), Hend in Hps
    by (try done; apply AlignDownToPage_aligned, Hrq).
  split; try done.
  - intros a. unfold abs. rewrite <- Habs. apply abs_maps_perm; [done|apply Hw].
  - intros l r' [Hin Hl]. apply (Hfrom l). split; [by rewrite <- Hp|done].
Qed.

Definition all_removable (h : Heap) (s : AddressSpace) (base_ size : Z) : Prop :=
  forall l r, entry h (maps s) l r -> removable r (AlignDownToPage base_) (request_limit base_ size).

(** [AddMap] maps zeroes, readable and writable. *)
Lemma AddMap_spec h s base_ size name_ offset_ :
  wf_heap h -> wf_space h s -> request_ok s base_ size -> all_removable h s base_ size ->
  exists h' s', AddMap h s base_ size name_ offset_ = Ok (h', s') /\
    remapped h s h' s' base_ size (Some 0) true true false.
Proof.
  intros Hwf Hw Hrq Hrem. pose proof (ws_core _ _ Hw) as Hcore.
  destruct (request_facts h s base_ size Hcore Hrq) as (Hiv & Hla & Hlim & Hland & _).
  unfold AddMap. cbv zeta. rewrite (wc_alive _ _ Hcore), Hland, Z.eqb_refl, Hlim.
  cbn [check mbind outcome_bind Create make_shared negb]. rewrite (covered_not_nil h s Hcore).
  set (r0 := MappedRangeBase_new _ _ _ _ _).
  destruct (replace_spec h s (AlignDownToPage base_) (request_limit base_ size) r0)
    as (old & h' & HR & Hx & Hcore' & Habs & Hfrom); [done|done|split; try done; by left|done|].
  cbn [snd make_shared] in HR. cbn [negb check mbind outcome_bind]. rewrite HR. cbn [mbind outcome_bind].
  destruct (remap_perms h s h' _ base_ size (Some 0) true true false Hcore Hrq Hx Hcore') as (s' & Hs' & Hrp);
    [intros a; by rewrite Habs|done|].
  rewrite Hlim in Hs'. rewrite Hs'. cbn [mbind outcome_bind]. eauto.
Qed.

(** [RemoveMap] unmaps and revokes all permissions. *)
Lemma RemoveMap_spec h s base_ size :
  wf_heap h -> wf_space h s -> request_ok s base_ size -> all_removable h s base_ size ->
  exists h' s', RemoveMap h s base_ size = Ok (h', s') /\
    remapped h s h' s' base_ size None false false false.
Proof.
  intros Hwf Hw Hrq Hrem. pose proof (ws_core _ _ Hw) as Hcore.
  destruct (request_facts h s base_ size Hcore Hrq) as (Hiv & Hla & Hlim & Hland & _).
  unfold RemoveMap. cbv zeta. rewrite (wc_alive _ _ Hcore), Hland, Z.eqb_refl, Hlim.
  cbn [check mbind outcome_bind CreateInvalid make_shared negb]. rewrite (covered_not_nil h s Hcore).
  set (r0 := MappedRangeBase_new _ _ _ _ _).
  destruct (replace_spec h s (AlignDownToPage base_) (request_limit base_ size) r0)
    as (old & h' & HR & Hx & Hcore' & Habs & Hfrom); [done|done|split; try done; by right|done|].
  cbn [snd make_shared] in HR. cbn [negb check mbind outcome_bind]. rewrite HR. cbn [mbind outcome_bind].
  destruct (remap_perms h s h' _ base_ size None false false false Hcore Hrq Hx Hcore') as (s' & Hs' & Hrp);
    [intros a; by rewrite Habs|done|].
  rewrite Hlim in Hs'. rewrite Hs'. cbn [mbind outcome_bind]. eauto.
Qed.

(** *** Only then

    A space that is well formed after one of the operations was
    [all_removable] before it: the address at which a range overlapped from
    the left should go on is in no range of the result, and the pieces of a
    copy-on-write range are never built. *)

Lemma resolve_fst h ms rs : resolve h ms = Ok rs -> rs.*1 = ms.
Proof.
  revert rs. induction ms as [|l ms IH]; intros rs; cbn [resolve]; [by intros [= <-]|].
  destruct (get h l) as [r| | |]; try done. cbn [mbind outcome_bind].
  destruct (resolve h ms) as [rs'| | |]; try done. cbn [mbind outcome_bind]. intros [= <-]. cbn. by rewrite IH.
Qed.

Lemma SetPermissions_maps h s base_ size r w x s' :
  SetPermissions h s base_ size r w x = Ok s' -> maps s' ≡ₚ maps s /\ addr_mask s' = addr_mask s.
Proof.
  unfold SetPermissions. cbv zeta. destruct (pages _ _) as [ps| | |]; try done. cbn [mbind outcome_bind].
  unfold CreatePageToRangeMap. destruct (resolve _ _) as [rs| | |] eqn:Er; try done. cbn [mbind outcome_bind].
  destruct (index_maps _ _ _ _ _) as [[mn [pm wm]]| | |]; try done. cbn [mbind outcome_bind]. intros [= <-]. cbn.
  apply resolve_fst in Er. cbn in Er. split; [|done]. rewrite <- Er. f_equiv. apply merge_sort_Permutation.
Qed.

Lemma replace_only h s base limit r0 old h' :
  wf_heap h -> wf_core h s -> interval_ok (addr_mask s) base limit ->
  base_address r0 = base -> limit_address r0 = limit ->
  RemoveRange (snd (make_shared h r0)) (maps s) base limit = Ok (old, h') ->
  covered h' (addr_mask s) (old ++ [next_loc h]) ->
  forall l r, entry h (maps s) l r -> removable r base limit.
Proof.
  intros Hwf Hcore Hiv Hb0 Hm0 HR Hcov. pose proof (wc_maps _ _ Hcore) as Hms.
  destruct (grows_make_shared h r0 (grows_refl h Hwf)) as [Hg0 Hl0]. set (h0 := snd (make_shared h r0)) in *.
  assert (Hent : forall l r, entry h (maps s) l r <-> entry h0 (maps s) l r).
  { intros l r. split; intros [Hin Hl]; (split; [done|]); [by apply (gr_sub _ _ Hg0)|].
    destruct (wm_alive _ _ _ Hms l Hin) as [r1 Hl1]. pose proof (gr_sub _ _ Hg0 _ _ Hl1). congruence. }
  destruct (RemoveRange_bounds h0 (maps s) base limit old h') as (Hg & Hcow & Hold); [by eapply grows_self|apply Hiv| |done|].
  { intros l Hin. destruct (wm_alive _ _ _ Hms l Hin) as [r Hl]. exists r. split; [by apply (gr_sub _ _ Hg0)|].
    apply (ro_order _ _ (wm_range _ _ _ Hms l r (conj Hin Hl))). }
  intros l r He. split; [|intros Hk; by apply (Hcow l r); [apply Hent|]].
  intros Hlo. pose proof (wm_range _ _ _ Hms l r He) as Hro. destruct Hlo as [[Hlo1 Hlo2] Hlo3].
  destruct (Hcov limit) as (l1 & r1 & [[Hin|Hin]%elem_of_app Hl1] & Hc).
  { destruct Hro, Hiv. lia. }
  - destruct (Hold l1 Hin) as (r2 & Hl2 & Hcc). assert (r2 = r1) as -> by congruence.
    destruct (Hcc limit Hc) as (l3 & r3 & He3%Hent & Hc3 & Hn3).
    assert (l3 = l) as ->.
    { eapply (wm_disjoint _ _ _ Hms); [exact He3|exact He|exact Hc3|]. apply Contains_iff. lia. }
    destruct He, He3. simplify_eq. apply Hn3. by split.
  - apply list_elem_of_singleton in Hin as ->. pose proof (gr_sub _ _ Hg _ _ Hl0). simplify_eq.
    apply Contains_iff in Hc. lia.
Qed.

Lemma remap_only h s base_ size h' old s' r0 rd wr ex :
  wf_heap h -> wf_space h s -> request_ok s base_ size ->
  base_address r0 = AlignDownToPage base_ -> limit_address r0 = request_limit base_ size ->
  RemoveRange (snd (make_shared h r0)) (maps s) (AlignDownToPage base_) (request_limit base_ size) = Ok (old, h') ->
  SetPermissions h' (with_maps s (old ++ [next_loc h])) (AlignDownToPage base_)
    (sub64 (request_limit base_ size) (AlignDownToPage base_)) rd wr ex = Ok s' ->
  wf_space h' s' -> all_removable h s base_ size.
Proof.
  intros Hwf Hw Hrq Hb Hm HR [Hp Hk]%SetPermissions_maps Hw'. cbn in Hp, Hk.
  destruct (request_facts h s base_ size (ws_core _ _ Hw) Hrq) as (Hiv & _).
  intros l r. apply (replace_only h s _ _ r0 old h' Hwf (ws_core _ _ Hw) Hiv Hb Hm HR).
  intros a Ha. rewrite <- Hk in Ha. destruct (ws_cover _ _ Hw' a Ha) as (l1 & r1 & [Hin Hl1] & Hc).
  exists l1, r1. split; [split; [by rewrite <- Hp|done]|done].
Qed.

Lemma AddMap_only h s base_ size name_ offset_ h' s' :
  wf_heap h -> wf_space h s -> request_ok s base_ size ->
  AddMap h s base_ size name_ offset_ = Ok (h', s') -> wf_space h' s' -> all_removable h s base_ size.
Proof.
  intros Hwf Hw Hrq. pose proof (ws_core _ _ Hw) as Hcore.
  destruct (request_facts h s base_ size Hcore Hrq) as (Hiv & Hla & Hlim & Hland & _).
  unfold AddMap. cbv zeta. rewrite (wc_alive _ _ Hcore), Hland, Z.eqb_refl, Hlim.
  cbn [check mbind outcome_bind Create make_shared negb]. rewrite (covered_not_nil h s Hcore).
  set (r0 := MappedRangeBase_new _ _ _ _ _). cbn [negb check mbind outcome_bind].
  destruct (RemoveRange _ _ _ _) as [[old h1]| | |] eqn:HR; try done. cbn [mbind outcome_bind].
  destruct (SetPermissions _ _ _ _ _ _ _) as [s1| | |] eqn:HS; try done. cbn [mbind outcome_bind]. intros [= <- <-].
  by apply (remap_only h s base_ size h1 old s1 r0 true true false).
Qed.

Lemma RemoveMap_only h s base_ size h' s' :
  wf_heap h -> wf_space h s -> request_ok s base_ size ->
  RemoveMap h s base_ size = Ok (h', s') -> wf_space h' s' -> all_removable h s base_ size.
Proof.
  intros Hwf Hw Hrq. pose proof (ws_core _ _ Hw) as Hcore.
  destruct (request_facts h s base_ size Hcore Hrq) as (Hiv & Hla & Hlim & Hland & _).
  unfold RemoveMap. cbv zeta. rewrite (wc_alive _ _ Hcore), Hland, Z.eqb_refl, Hlim.
  cbn [check mbind outcome_bind CreateInvalid make_shared negb]. rewrite (covered_not_nil h s Hcore).
  set (r0 := MappedRangeBase_new _ _ _ _ _). cbn [negb check mbind outcome_bind].
  destruct (RemoveRange _ _ _ _) as [[old h1]| | |] eqn:HR; try done. cbn [mbind outcome_bind].
  destruct (SetPermissions _ _ _ _ _ _ _) as [s1| | |] eqn:HS; try done. cbn [mbind outcome_bind]. intros [= <- <-].
  by apply (remap_only h s base_ size h1 old s1 r0 false false false).
Qed.

(** A dead space ignores both. *)
Lemma AddMap_dead h s base_ size nm off :
  is_dead s = true -> AddMap h s base_ size nm off = Ok (h, s).
Proof. unfold AddMap. by intros ->. Qed.

Lemma RemoveMap_dead h s base_ size : is_dead s = true -> RemoveMap h s base_ size = Ok (h, s).
Proof. unfold RemoveMap. by intros ->. Qed.

(** ** A new address space *)

Lemma GetAddressMask_ok address_size : mask_ok (GetAddressMask address_size).
Proof. unfold GetAddressMask. case_bool; [by left|by right]. Qed.

Lemma AddressSpace_new_spec h address_size :
  wf_heap h ->
  exists h' s, AddressSpace_new h address_size = Ok (h', s) /\ hext h h' /\ wf_space h' s /\
    addr_mask s = GetAddressMask address_size /\ (forall a, abs h' s a = None).
Proof.
  intros Hwf. unfold AddressSpace_new. cbv zeta. cbn [CreateInvalid make_shared].
  set (mask := GetAddressMask address_size). pose proof (GetAddressMask_ok address_size : mask_ok mask) as Hm.
  pose proof (mask_u64 mask Hm) as Hmu. unfold u64 in Hmu.
  assert (0 < mask) as Hpos by (destruct Hm as [-> | ->]; done).
  set (r0 := MappedRangeBase_new _ _ _ _ _).
  destruct (hext_make_shared h r0) as (Hx & Hl0 & Hfr & Hnp); [done|unfold bounds_ok; cbn; lia|done|done|].
  cbn [snd make_shared] in *. set (h' := MkHeap _ _) in *.
  assert (He : forall l r, entry h' [next_loc h] l r -> l = next_loc h /\ r = r0).
  { intros l r [[-> ?]|[]%entry_nil]%entry_cons. split; [done|congruence]. }
  destruct (wf_space_create h' (MkAS [next_loc h] ∅ ∅ (two64 - 1) mask (next_loc h) ∅ ∅ ∅ ∅ ∅ ∅ false))
    as (s & Hs & Hw & Hp & Hsame); [apply Hx| |].
  { split; cbn; try done.
    - split.
      + intros l ->%list_elem_of_singleton. eauto.
      + intros l r [-> ->]%He. split; cbn; try done; try lia; by right.
      + by intros l1 r1 l2 r2 a [-> ->]%He [-> ->]%He.
      + apply NoDup_singleton.
      + intros l ->%list_elem_of_singleton. done.
    - intros a Ha. exists (next_loc h), r0. split; [apply entry_cons; by left|]. by apply Contains_iff.
    - by exists r0. }
  exists h', s. rewrite Hs. cbn [mbind outcome_bind]. destruct Hsame as (Hmask & _).
  split_and!; try done. intros a. destruct (abs h' s a) as [v|] eqn:E; [|done].
  apply (abs_Some _ _ _ _ Hw) in E as (l & r & [Hin Hl] & _ & Hv & _). rewrite Hp in Hin.
  destruct (He l r) as [-> ->]; [by split|]. done.
Qed.
