(* ===== verification/Lookup.v ===== *)
(** * Finding the range of an address

    The two-level pointer cache in front of the page index never changes the
    answer for a page the index holds; for other pages it may answer with a
    range that contains the page but whose permissions there were revoked. *)

From S2P Require Import Prelude Pages MappedRange RangeProps AddressSpace SpaceInv RemoveRangeProps IndexProps MapChange.

(** ** Changes of the caches and the trace heads only *)

Definition cache_step (s s' : AddressSpace) : Prop :=
  exists c wc t, s' = with_heads (with_caches s c wc) t.

#[global] Instance cache_step_preorder : PreOrder cache_step.
Proof.
  split.
  - intros s. exists (last_map_cache s), (wnx_last_map_cache s), (trace_heads s). by destruct s.
  - intros s1 s2 s3 (c & wc & t & ->) (c' & wc' & t' & ->). by exists c', wc', t'.
Qed.

Lemma cache_step_caches s c wc : cache_step s (with_caches s c wc).
Proof. exists c, wc, (trace_heads s). by destruct s. Qed.

Lemma cache_step_heads s t : cache_step s (with_heads s t).
Proof. exists (last_map_cache s), (wnx_last_map_cache s), t. by destruct s. Qed.

#[export] Hint Resolve cache_step_caches cache_step_heads : space.

Lemma cache_step_abs s s' h a : cache_step s s' -> abs h s' a = abs h s a.
Proof. by intros (c & wc & t & ->). Qed.

Lemma cache_step_maps s s' : cache_step s s' -> maps s' = maps s /\ addr_mask s' = addr_mask s.
Proof. by intros (c & wc & t & ->). Qed.

Lemma cache_step_perms s s' p : cache_step s s' ->
  CanReadAligned s' p = CanReadAligned s p /\ CanWriteAligned s' p = CanWriteAligned s p /\
  CanExecuteAligned s' p = CanExecuteAligned s p.
Proof. by intros (c & wc & t & ->). Qed.

Lemma wf_space_caches h s c wc :
  wf_space h s -> cache_ok (page_to_map s) c -> cache_ok (wnx_page_to_map s) wc ->
  wf_space h (with_caches s c wc).
Proof. intros [[? ? ? ? ?] ? ? ? ? ?] ? ?. by split. Qed.

Lemma wf_space_heads h s t : wf_space h s -> wf_space h (with_heads s t).
Proof. intros [[? ? ? ? ?] ? ? ? ? ?]. by split. Qed.

(** ** The cached search *)

Lemma cache_ok_insert m c i l p : cache_ok m c -> m !! p = Some l -> cache_ok m (<[i := l]> c).
Proof. intros Hc Hp j l' [[<- <-]|[? ?]]%lookup_insert_Some; [by exists p|by eapply Hc]. Qed.

(** A pointer found in the cache is an entry that contains the page. *)
Lemma cache_hit_spec h ms perm m c i p :
  index_ok h ms perm m -> cache_ok m c ->
  exists o, cache_hit h c i p = Ok o /\
    forall l, o = Some l -> c !! i = Some l /\
      exists r, entry h ms l r /\ valid r = true /\ Contains r p = true.
Proof.
  intros Hi Hc. unfold cache_hit. destruct (c !! i) as [l|] eqn:El; [|by exists None].
  destruct (Hc i l El) as (q & (r & He & Hv & _)%Hi).
  rewrite (get_Some h l r) by apply He. cbn [mbind outcome_bind].
  eexists. split; [done|]. intros l'. destruct (Contains r p) eqn:E; [|done]. intros [= <-]. eauto.
Qed.

Record found (h : Heap) (ms : list loc) (m : gmap Z loc) (inv : loc) (p : Z) (l : loc) : Prop := {
  fd_entry : (exists r, entry h ms l r /\ valid r = true /\ Contains r p = true) \/
    (l = inv /\ m !! p = None);
  fd_index l' : m !! p = Some l' -> l = l'
}.

Lemma found_entry h mask ms perm m inv p l r :
  wf_maps h mask ms -> index_ok h ms perm m ->
  entry h ms l r -> valid r = true -> Contains r p = true -> found h ms m inv p l.
Proof.
  intros Hms Hi He Hv Hc. split; [left; eauto|].
  intros l' (r' & He' & _ & _ & Hc' & _)%Hi. by eapply (wm_disjoint _ _ _ Hms).
Qed.

Lemma find_cached_spec h mask ms perm m c inv p :
  wf_maps h mask ms -> index_ok h ms perm m -> cache_ok m c ->
  exists l c', find_cached h c m inv p = Ok (l, c') /\ cache_ok m c' /\ found h ms m inv p l.
Proof.
  intros Hms Hi Hc. unfold find_cached.
  destruct (cache_hit_spec h ms perm m c kRangeCacheSize p Hi Hc) as ([l|] & -> & Ho); cbn [mbind outcome_bind].
  { destruct (Ho l eq_refl) as (_ & r & He & Hv & Hcp). exists l, c. split_and!; try done.
    by eapply found_entry. }
  destruct (cache_hit_spec h ms perm m c (cache_index p) p Hi Hc) as ([l|] & -> & Ho'); cbn [mbind outcome_bind].
  { destruct (Ho' l eq_refl) as (Hl & r & He & Hv & Hcp). destruct (Hc _ _ Hl) as (q & Hq).
    eexists l, _. split_and!; [done|by eapply cache_ok_insert|by eapply found_entry]. }
  destruct (m !! p) as [l|] eqn:Em.
  - eexists l, _. split_and!; [done|by do 2 (eapply cache_ok_insert; [|done])|].
    pose proof (proj1 (Hi p l) Em) as (r & He & Hv & _ & Hcp & _). by eapply found_entry.
  - exists inv, c. split_and!; try done. split; [by right|congruence].
Qed.

Section lookups.
Context (h : Heap) (s : AddressSpace) (Hwf : wf_heap h) (Hw : wf_space h s).

Lemma FindRangeAligned_spec p :
  exists l s', FindRangeAligned h s p = Ok (l, s') /\ cache_step s s' /\ wf_space h s' /\
    trace_heads s' = trace_heads s /\
    found h (maps s) (page_to_map s) (invalid s) p l.
Proof.
  unfold FindRangeAligned.
  destruct (find_cached_spec h _ (maps s) _ (page_to_map s) (last_map_cache s) (invalid s) p
    (ws_maps _ _ Hw) (ws_index _ _ Hw) (ws_cache _ _ Hw)) as (l & c & -> & Hc & Hf).
  cbn [mbind outcome_bind]. eexists l, _. split_and!; auto with space.
  apply wf_space_caches; [done|done|apply Hw].
Qed.

Lemma FindWNXRangeAligned_spec p :
  exists l s', FindWNXRangeAligned h s p = Ok (l, s') /\ cache_step s s' /\ wf_space h s' /\
    trace_heads s' = trace_heads s /\
    found h (maps s) (wnx_page_to_map s) (invalid s) p l.
Proof.
  unfold FindWNXRangeAligned.
  destruct (find_cached_spec h _ (maps s) _ (wnx_page_to_map s) (wnx_last_map_cache s) (invalid s) p
    (ws_maps _ _ Hw) (ws_wnx _ _ Hw) (ws_wnx_cache _ _ Hw)) as (l & c & -> & Hc & Hf).
  cbn [mbind outcome_bind]. eexists l, _. split_and!; auto with space.
  apply wf_space_caches; [done|apply Hw|done].
Qed.

(** A mapped address has an entry; its page is indexed when permitted. *)
Lemma abs_entry a :
  is_Some (abs h s a) -> exists l r, entry h (maps s) l r /\ valid r = true /\ Contains r a = true.
Proof. intros [v (l & r & ? & ? & ? & _)%(abs_Some _ _ _ _ Hw)]. eauto. Qed.

Lemma abs_value a l r :
  entry h (maps s) l r -> valid r = true -> Contains r a = true -> abs h s a = Some (value_at h r a).
Proof. intros. apply (abs_Some _ _ _ _ Hw). by exists l, r. Qed.

Lemma entry_u64 l r a : entry h (maps s) l r -> Contains r a = true -> u64 a.
Proof.
  intros [_ Hl] Hc%Contains_iff. pose proof (wf_bounds h Hwf l r Hl). unfold bounds_ok, u64 in *. lia.
Qed.

Lemma index_lookup perm m a l r :
  index_ok h (maps s) perm m -> entry h (maps s) l r -> valid r = true -> Contains r a = true ->
  perm (AlignDownToPage a) = true -> m !! AlignDownToPage a = Some l.
Proof.
  intros Hi He Hv Hc Hp. pose proof (entry_u64 l r a He Hc) as Hu.
  apply Hi. exists r. split_and!; try done; [by apply AlignDownToPage_aligned|].
  eapply page_in_range; [done|by eapply (wm_range _ _ _ (ws_maps _ _ Hw))|done].
Qed.

(** The range found for the page of [a], when it contains [a]. *)
Lemma found_same m inv a p l l' r' :
  found h (maps s) m inv p l -> entry h (maps s) l' r' -> valid r' = true -> Contains r' a = true ->
  u64 a -> p = AlignDownToPage a -> l <> inv \/ is_Some (m !! p) -> l = l'.
Proof.
  intros [[(r & He & Hv & Hc)|[-> Hn]] Hidx] He' Hv' Hc' Hu -> Hor.
  - eapply (wm_disjoint _ _ _ (ws_maps _ _ Hw)); [done|done|done|].
    eapply page_in_range; [done|by eapply (wm_range _ _ _ (ws_maps _ _ Hw))|done].
  - destruct Hor as [?|[? ?]]; congruence.
Qed.
End lookups.

(** ** The end of a page inside a range *)

(** A valid range that contains a page contains all of it. *)
Lemma page_whole mask r p a :
  range_ok mask r -> valid r = true -> aligned p -> Contains r p = true ->
  p <= a < p + kPageSize -> Contains r a = true.
Proof.
  intros Hr Hv Hp Hc%Contains_iff Ha. destruct (ro_top _ _ Hr Hv) as [Hal _].
  pose proof (aligned_lt p (limit_address r) Hp Hal). apply Contains_iff. lia.
Qed.
