(* ===== verification/ReadProps.v ===== *)
(** * Reading guest memory

    Every read path of an address space (single byte, 16 to 64-bit, bulk)
    returns the bytes of the abstract memory. *)

From S2P Require Import Prelude Pages MappedRange RangeProps AddressSpace SpaceInv RemoveRangeProps IndexProps MapChange Lookup.

(** [vs] are the bytes of [m] from [addr] on. *)
Definition reads_at (m : Z -> option Z) (addr : Z) (vs : list Z) : Prop :=
  forall i v, vs !! i = Some v -> m (addr + Z.of_nat i) = Some v.

(** The addresses of an access are mapped and on pages that [perm] permits. *)
Definition accessible (h : Heap) (s : AddressSpace) (perm : Z -> bool) (addr n : Z) : Prop :=
  forall a, addr <= a < addr + n -> is_Some (abs h s a) /\ perm (AlignDownToPage a) = true.

Lemma reads_at_nil m addr : reads_at m addr [].
Proof. intros i v H. by rewrite lookup_nil in H. Qed.

Lemma reads_at_app m addr vs vs' :
  reads_at m addr vs -> reads_at m (addr + Z.of_nat (length vs)) vs' -> reads_at m addr (vs ++ vs').
Proof.
  intros H1 H2 i v [?|[Hle Hv]]%lookup_app_Some; [by apply H1|].
  apply H2 in Hv. rewrite <- Hv. f_equal. lia.
Qed.

Lemma reads_at_unique m addr vs vs' :
  length vs = length vs' -> reads_at m addr vs -> reads_at m addr vs' -> vs = vs'.
Proof.
  intros Hl H1 H2. apply list_eq_same_length with (length vs); [done|done|].
  intros i x y _ Hx%H1 Hy%H2. congruence.
Qed.

(** ** One range *)

Section one_range.
Context (h : Heap) (Hwf : wf_heap h).

Lemma Read_inside l r a :
  objs h !! l = Some r -> valid r = true -> Contains r a = true -> Read h l a = Ok (true, value_at h r a).
Proof.
  intros Hl Hv Hc. rewrite (Read_view h l r a Hwf Hl). destruct (view_ok h l r a Hwf Hl Hc) as [-> _].
  by apply valid_iff in Hv; rewrite bool_decide_eq_false_2.
Qed.

Lemma Read_invalid l r a : objs h !! l = Some r -> kind r = InvalidMemoryMap -> Read h l a = Ok (false, 0).
Proof. intros Hl Hk. rewrite (Read_view h l r a Hwf Hl). unfold view. by rewrite Hk. Qed.

Lemma read_run_inside l r addr n :
  objs h !! l = Some r -> valid r = true ->
  (forall a, addr <= a < addr + Z.of_nat n -> Contains r a = true) ->
  read_run h l addr n = Ok (true, value_at h r <$> seqZ addr (Z.of_nat n)).
Proof.
  intros Hl Hv. revert addr. induction n as [|n IH]; intros addr Hin; cbn [read_run]; [done|].
  rewrite (Read_inside l r) by (try done; apply Hin; lia). cbn [mbind outcome_bind].
  rewrite IH by (intros; apply Hin; lia). cbn [mbind outcome_bind].
  rewrite (seqZ_cons addr (Z.of_nat (S n))) by lia.
  replace (Z.pred (Z.of_nat (S n))) with (Z.of_nat n) by lia. done.
Qed.

Lemma read_run_invalid l r addr n :
  objs h !! l = Some r -> kind r = InvalidMemoryMap ->
  read_run h l addr n = Ok (match n with O => (true, []) | S _ => (false, [0]) end).
Proof. intros Hl Hk. destruct n; cbn [read_run]; [done|]. by rewrite (Read_invalid l r). Qed.
End one_range.

Lemma reads_at_entry h s l r addr n :
  wf_space h s -> entry h (maps s) l r -> valid r = true ->
  (forall a, addr <= a < addr + Z.of_nat n -> Contains r a = true) ->
  reads_at (abs h s) addr (value_at h r <$> seqZ addr (Z.of_nat n)).
Proof.
  intros Hw He Hv Hin i v. rewrite list_lookup_fmap. intros (x & [-> Hi]%lookup_seqZ & ->)%fmap_Some.
  eapply abs_value; [done|done|done|]. apply Hin. lia.
Qed.

(** ** The bulk read *)

(** What a read of [n] bytes at [addr] guarantees. *)
Record read_post (h : Heap) (s : AddressSpace) (addr n : Z) (ok : bool) (vs : list Z)
    (s' : AddressSpace) : Prop := {
  rd_step : cache_step s s';
  rd_wf : wf_space h s';
  rd_heads : trace_heads s' = trace_heads s;
  rd_ok : ok = true -> Z.of_nat (length vs) = n /\ reads_at (abs h s) addr vs;
  rd_succeeds : accessible h s (any_perm s) addr n -> ok = true
}.

Lemma accessible_step h s s' addr n :
  cache_step s s' -> accessible h s' (any_perm s') addr n <-> accessible h s (any_perm s) addr n.
Proof. by intros (c & wc & t & ->). Qed.

Lemma accessible_sub h s perm addr n addr' n' :
  addr <= addr' -> addr' + n' <= addr + n -> accessible h s perm addr n -> accessible h s perm addr' n'.
Proof. intros ? ? H a Ha. apply H. lia. Qed.

(** One iteration: the part of the access on the page [page_addr]. *)
Lemma read_page_spec h s page addr n :
  wf_heap h -> wf_space h s -> aligned page -> u64 page ->
  page <= addr -> addr + Z.of_nat n <= page + kPageSize ->
  exists l s1 ok vs, FindRangeAligned h s page = Ok (l, s1) /\ read_run h l addr n = Ok (ok, vs) /\
    read_post h s addr (Z.of_nat n) ok vs s1.
Proof.
  intros Hwf Hw Hal Hu H1 H2.
  destruct (FindRangeAligned_spec h s Hw page) as (l & s1 & HF & Hst & Hw1 & Hh & Hfd).
  exists l, s1. destruct (fd_entry _ _ _ _ _ _ Hfd) as [(r & He & Hv & Hc)|[-> Hnone]].
  - assert (Hin : forall a, addr <= a < addr + Z.of_nat n -> Contains r a = true).
    { intros a Ha. eapply (page_whole _ r page); try done; [|lia].
      by eapply (wm_range _ _ _ (ws_maps _ _ Hw)). }
    eexists _, _. split_and!; [done|by eapply read_run_inside; [done|apply He|..]|].
    split; try done. intros _. split; [rewrite length_fmap, length_seqZ; lia|by eapply reads_at_entry].
  - destruct (ws_invalid _ _ Hw) as (r & Hr & Hk).
    rewrite (read_run_invalid h Hwf _ r addr n Hr Hk). destruct n as [|n].
    + exists true, []. split_and!; [done|done|]. split; try done.
    + exists false, [0]. split_and!; try done. split; try done.
      intros Hacc. exfalso. destruct (Hacc addr) as [Hs Hp]; [lia|].
      assert (Hpg : AlignDownToPage addr = page).
      { apply AlignDownToPage_unique; [|done|lia].
        destruct (abs_entry h s Hw addr Hs) as (l & r' & He & _ & Hc). by eapply entry_u64. }
      destruct (abs_entry h s Hw addr Hs) as (l & r' & He & Hv & Hc).
      pose proof (index_lookup h s Hwf Hw (any_perm s) (page_to_map s) addr l r' (ws_index _ _ Hw) He Hv Hc Hp).
      congruence.
Qed.

Lemma read_pages_spec fuel h s page addr end_addr :
  wf_heap h -> wf_space h s -> aligned page -> u64 page -> end_addr <= two64 - kPageSize ->
  (page < end_addr -> page <= addr < page + kPageSize) -> addr <= end_addr ->
  (end_addr <= page -> addr = end_addr) ->
  end_addr - page <= kPageSize * Z.of_nat fuel ->
  exists ok vs s', read_pages fuel h s page addr end_addr = Ok (ok, vs, s') /\
    read_post h s addr (end_addr - addr) ok vs s'.
Proof.
  intros Hwf. revert s page addr. induction fuel as [|fuel IH]; intros s page addr Hw Hal Hu Htop Hin Hle Hend Hf;
    cbn [read_pages]; (destruct (Z.ltb_spec page end_addr) as [Hlt|Hge];
      [|exists true, [], s; split; [done|]; split; try done;
        [intros _; rewrite (Hend Hge); split; [cbn; lia|apply reads_at_nil]]]).
  { unfold kPageSize in *. lia. }
  assert (kPageSize = 4096) as Hk by done. unfold u64 in Hu.
  rewrite add64_small by lia. specialize (Hin Hlt). cbv zeta.
  set (n := Z.to_nat (Z.min end_addr (page + kPageSize) - addr)).
  destruct (read_page_spec h s page addr n) as (l & s1 & ok & vs & -> & Hrun & Hpost); try done; [lia|lia|].
  cbn [mbind outcome_bind]. rewrite Hrun. cbn [mbind outcome_bind].
  destruct Hpost as [Hst Hw1 Hh Hok Hsucc]. destruct ok.
  2:{ exists false, vs, s1. split; [done|]. split; try done. intros Hacc. apply Hsucc.
      eapply accessible_sub; [| |done]; lia. }
  destruct (Hok eq_refl) as [Hlen Hrd].
  destruct (IH s1 (page + kPageSize) (Z.max addr (Z.min end_addr (page + kPageSize))))
    as (ok2 & vs2 & s2 & -> & [Hst2 Hw2 Hh2 Hok2 Hsucc2]); try done; try lia.
  { by apply aligned_add. } { unfold u64. lia. }
  cbn [mbind outcome_bind]. exists ok2, (vs ++ vs2), s2. split; [done|].
  assert (Hmax : Z.max addr (Z.min end_addr (page + kPageSize)) = addr + Z.of_nat (length vs)) by lia.
  rewrite Hmax in *. split; try done.
  - by etrans.
  - congruence.
  - intros ->. destruct (Hok2 eq_refl) as [Hl2 Hr2]. split; [rewrite length_app; lia|].
    apply reads_at_app; [done|]. intros i v Hi%Hr2. by rewrite <- (cache_step_abs s s1).
  - intros Hacc. apply Hsucc2. apply (accessible_step h s s1); [done|].
    eapply accessible_sub; [| |done]; lia.
Qed.

(** The guest address an access really uses. *)
Definition masked (s : AddressSpace) (addr_ : Z) : Z := Z.land addr_ (addr_mask s).

Lemma masked_range s addr_ :
  mask_ok (addr_mask s) -> u64 addr_ -> 0 <= masked s addr_ <= addr_mask s.
Proof.
  intros Hm Hu. unfold masked, u64 in *. destruct Hm as [-> | ->].
  - assert (Z.land addr_ (two32 - 1) = addr_ mod two32) as -> by (apply (Z.land_ones addr_ 32); lia).
    pose proof (Z.mod_pos_bound addr_ two32). unfold two32 in *. lia.
  - assert (Z.land addr_ (two64 - 1) = addr_ mod two64) as -> by (apply (Z.land_ones addr_ 64); lia).
    pose proof (Z.mod_pos_bound addr_ two64). unfold two64 in *. lia.
Qed.

Lemma masked_u64 s addr_ : mask_ok (addr_mask s) -> u64 addr_ -> u64 (masked s addr_).
Proof. intros Hm Hu. pose proof (masked_range s addr_ Hm Hu). pose proof (mask_u64 _ Hm). unfold u64 in *. lia. Qed.

Lemma masked_masked s addr_ : masked s (masked s addr_) = masked s addr_.
Proof. unfold masked. by rewrite <- Z.land_assoc, Z.land_diag. Qed.

Lemma bulk_fuel_enough page end_addr :
  end_addr - page <= kPageSize * Z.of_nat (bulk_fuel page end_addr).
Proof.
  unfold bulk_fuel, page_fuel, kPageShift, kPageSize.
  pose proof (Z.div_mod (end_addr - page + (4096 - 1)) 4096).
  pose proof (Z.mod_pos_bound (end_addr - page + (4096 - 1)) 4096). lia.
Qed.

(** Bulk reads below the last page of the 64-bit space always return. *)
Lemma TryRead_bulk_spec h s addr_ size :
  wf_heap h -> wf_space h s -> u64 addr_ -> 0 <= size ->
  masked s addr_ + size <= two64 - kPageSize ->
  exists ok vs s', TryRead_bulk h s addr_ size = Ok (ok, vs, s') /\
    read_post h s (masked s addr_) size ok vs s'.
Proof.
  intros Hwf Hw Hu Hs Ht. unfold TryRead_bulk. cbv zeta. fold (masked s addr_).
  pose proof (masked_u64 s addr_ (ws_mask _ _ Hw) Hu) as Hmu.
  pose proof (AlignDownToPage_range _ Hmu). unfold u64 in Hmu.
  assert (kPageSize = 4096) as Hk by done.
  rewrite add64_small by lia.
  destruct (read_pages_spec (bulk_fuel (AlignDownToPage (masked s addr_)) (masked s addr_ + size)) h s
    (AlignDownToPage (masked s addr_)) (masked s addr_) (masked s addr_ + size))
    as (ok & vs & s' & -> & Hp); try done; try lia.
  - by apply AlignDownToPage_aligned.
  - by apply AlignDownToPage_u64.
  - apply bulk_fuel_enough.
  - exists ok, vs, s'. split; [done|].
    by replace (masked s addr_ + size - masked s addr_) with size in Hp by lia.
Qed.

(** ** Fixed-size reads *)

Lemma ToReadOnly_invalid h l r a :
  objs h !! l = Some r -> kind r = InvalidMemoryMap -> ToReadOnlyVirtualAddress h l a = Ok NullPtr.
Proof.
  intros Hl Hk. unfold ToReadOnlyVirtualAddress, chain_fuel. cbn [ToReadOnlyVirtualAddress_fuel].
  rewrite (get_Some h l r Hl). cbn [mbind outcome_bind]. by rewrite Hk.
Qed.

Lemma load_array_view h l r m a n :
  wf_heap h -> objs h !! l = Some r -> kind r = ArrayMemoryMap -> data r = Some m ->
  base_address r <= a -> a + Z.of_nat n <= limit_address r ->
  load h (DataPtr l (sub64 a (base_address r))) n 0 =
    Ok ((fun x => match array_read r x with Ok (_, v) => v | _ => 0 end) <$> seqZ a (Z.of_nat n)).
Proof.
  intros Hwf Hl Hk Hd H1 H2. pose proof (wf_bounds h Hwf l r Hl) as Hb. unfold bounds_ok in Hb.
  rewrite sub64_small by lia. rewrite (load_array_spec h l r m) by (try done; unfold Size; rewrite ?sub64_small; lia).
  f_equal. unfold seqZ. rewrite <- list_fmap_compose, Nat2Z.id. apply list_fmap_ext.
  intros i j [-> Hj]%lookup_seq. cbn.
  rewrite (array_read_Contains r m) by (try done; apply Contains_iff; lia). do 2 f_equal. lia.
Qed.

(** The pointer of a read-only access reads the bytes of the range. *)
Lemma ToReadOnly_spec h l r a n :
  wf_heap h -> objs h !! l = Some r -> valid r = true -> (n <= 64)%nat ->
  exists p, ToReadOnlyVirtualAddress h l a = Ok p /\ p <> NullPtr /\
    (base_address r <= a -> a + Z.of_nat n <= limit_address r ->
     load h p n 0 = Ok (value_at h r <$> seqZ a (Z.of_nat n))).
Proof.
  intros Hwf Hl Hv Hn. apply valid_iff in Hv. pose proof (wf_kind h Hwf l r Hl) as Hkd.
  destruct (chain_fuel_SS h) as [k Hk]. unfold ToReadOnlyVirtualAddress. rewrite Hk.
  cbn [ToReadOnlyVirtualAddress_fuel]. rewrite (get_Some h l r Hl). cbn [mbind outcome_bind].
  unfold kind_ok in Hkd. destruct (kind r) eqn:Ek; [done| | |].
  - destruct Hkd as (_ & _ & m & Hd & _). eexists. split_and!; try done. intros H1 H2.
    rewrite (load_array_view h l r m) by done. f_equal. apply list_fmap_ext. intros _ x _.
    unfold value_at, view. by rewrite Ek.
  - eexists. split_and!; try done. intros H1 H2. rewrite load_zeroes_spec by lia. f_equal.
    apply list_eq. intros i. rewrite list_lookup_fmap. destruct (decide (i < n)%nat) as [Hi|Hi].
    + rewrite lookup_replicate_2, lookup_seqZ_lt by lia. cbn. f_equal. unfold value_at, view. by rewrite Ek.
    + rewrite lookup_seqZ_ge by lia. apply lookup_replicate_None. lia.
  - destruct Hkd as (_ & p & rp & Hp & Hlp & Hkp & Hb & Hli). rewrite Hp. cbn [mbind outcome_bind deref_opt].
    rewrite (get_Some h p rp Hlp). cbn [mbind outcome_bind]. rewrite Hkp.
    pose proof (wf_kind h Hwf p rp Hlp) as Hkd. unfold kind_ok in Hkd. rewrite Hkp in Hkd.
    destruct Hkd as (_ & _ & m & Hd & _). eexists. split_and!; try done. intros H1 H2.
    rewrite (load_array_view h p rp m) by (try done; congruence). f_equal. apply list_fmap_ext. intros _ x _.
    unfold value_at, view. by rewrite Ek, Hp, Hlp.
Qed.

(** The fast path of [MAKE_TRY_READ] agrees with the bulk read. *)
Lemma MAKE_TRY_READ_spec n h s addr_ :
  wf_heap h -> wf_space h s -> u64 addr_ -> (0 < n <= 64)%nat ->
  masked s addr_ + Z.of_nat n <= two64 - kPageSize ->
  exists ok vs s', MAKE_TRY_READ n h s addr_ = Ok (ok, vs, s') /\
    read_post h s (masked s addr_) (Z.of_nat n) ok vs s'.
Proof.
  intros Hwf Hw Hu Hn Ht. unfold MAKE_TRY_READ. cbv zeta. fold (masked s addr_).
  pose proof (masked_u64 s addr_ (ws_mask _ _ Hw) Hu) as Hmu.
  set (addr := masked s addr_) in *. unfold FindRange.
  destruct (FindRangeAligned_spec h s Hw (AlignDownToPage addr)) as (l & s1 & -> & Hst & Hw1 & Hh & Hfd).
  cbn [mbind outcome_bind]. destruct (fd_entry _ _ _ _ _ _ Hfd) as [(r & He & Hv & Hc)|[-> Hnone]].
  - rewrite (get_Some h l r) by apply He. cbn [mbind outcome_bind].
    destruct (ToReadOnly_spec h l r addr n Hwf) as (p & -> & Hnn & Hload); [apply He|done|lia|].
    cbn [mbind outcome_bind]. pose proof (AlignDownToPage_range _ Hmu) as Hpr.
    pose proof (proj1 (Contains_iff _ _) Hc).
    assert (Hbulk : exists ok vs s', TryRead_bulk h s1 addr (Z.of_nat n) = Ok (ok, vs, s') /\
              read_post h s addr (Z.of_nat n) ok vs s').
    { assert (Hmm : masked s1 addr = addr).
      { destruct Hst as (? & ? & ? & ->). apply (masked_masked s). }
      destruct (TryRead_bulk_spec h s1 addr (Z.of_nat n)) as (ok & vs & s' & Hr & Hp);
        rewrite ?Hmm; try done; try lia.
      exists ok, vs, s'. split; [done|]. rewrite Hmm in Hp.
      destruct Hp as [? ? ? Hok Hsucc]. split; try done.
      - by etrans.
      - congruence.
      - intros Ho. destruct (Hok Ho) as [? Hr']. split; [done|]. intros i v Hi%Hr'. by rewrite <- (cache_step_abs s s1).
      - intros Hacc. by apply Hsucc, (accessible_step h s s1). }
    assert (Hsub : sub64 (add64 addr (Z.of_nat n)) 1 = addr + Z.of_nat n - 1).
    { unfold u64, kPageSize in *. rewrite add64_small, sub64_small by lia. done. }
    rewrite Hsub. destruct p; [done| |].
    all: match goal with |- context [if ?b then _ else _] => destruct b eqn:Eb end; [|exact Hbulk].
    all: bool_to_prop; rewrite Hload by lia; cbn [mbind outcome_bind].
    all: eexists _, _, _; split; [done|]; split; try done; intros _;
      (split; [rewrite length_fmap, length_seqZ; lia|]);
      eapply reads_at_entry; try done; intros a Ha; apply Contains_iff; lia.
  - destruct (ws_invalid _ _ Hw) as (r & Hr & Hk). rewrite (get_Some h _ r Hr). cbn [mbind outcome_bind].
    rewrite (ToReadOnly_invalid h _ r) by done. cbn [mbind outcome_bind].
    exists false, [], s1. split; [done|]. split; try done. intros Hacc. exfalso.
    destruct (Hacc addr) as [Hs Hp]; [lia|].
    destruct (abs_entry h s Hw addr Hs) as (l & r' & He & Hv & Hc).
    pose proof (index_lookup h s Hwf Hw (any_perm s) (page_to_map s) addr l r' (ws_index _ _ Hw) He Hv Hc Hp).
    congruence.
Qed.

(** The single-byte read. *)
Lemma read_8_page h s addr :
  wf_heap h -> wf_space h s -> u64 addr ->
  exists l s' ok v, FindRangeAligned h s (AlignDownToPage addr) = Ok (l, s') /\ Read h l addr = Ok (ok, v) /\
    read_post h s addr 1 ok [v] s'.
Proof.
  intros Hwf Hw Hu. pose proof (AlignDownToPage_range addr Hu) as Hr.
  destruct (read_page_spec h s (AlignDownToPage addr) addr 1) as (l & s' & ok & vs & HF & Hrun & Hp);
    [done|done|by apply AlignDownToPage_aligned|by apply AlignDownToPage_u64|lia|lia|].
  exists l, s'. cbn [read_run] in Hrun. apply bind_ok in Hrun as ([[] v] & HR & Hrun); cbn in Hrun;
    injection Hrun as <- <-; exists ok, v || eexists _, v; by split_and!.
Qed.

Lemma TryRead_8_spec h s addr_ :
  wf_heap h -> wf_space h s -> u64 addr_ ->
  exists ok v s', TryRead_8 h s addr_ = Ok (ok, v, s') /\ read_post h s (masked s addr_) 1 ok [v] s'.
Proof.
  intros Hwf Hw Hu. unfold TryRead_8, FindRange. cbv zeta. fold (masked s addr_).
  destruct (read_8_page h s (masked s addr_)) as (l & s' & ok & v & -> & HR & Hp);
    [done|done|by apply masked_u64; [apply Hw|]|].
  cbn [mbind outcome_bind]. rewrite HR. cbn [mbind outcome_bind]. eauto.
Qed.

(** Fetching an instruction byte additionally needs the execute permission. *)
Lemma TryReadExecutable_spec h s pc :
  wf_heap h -> wf_space h s -> u64 pc ->
  exists ok v s', TryReadExecutable h s pc = Ok (ok, v, s') /\ cache_step s s' /\ wf_space h s' /\
    trace_heads s' = trace_heads s /\
    (ok = true <-> is_Some (abs h s (masked s pc)) /\ CanExecute s pc = true) /\
    (ok = true -> abs h s (masked s pc) = Some v).
Proof.
  intros Hwf Hw Hu. unfold TryReadExecutable, CanExecute. cbv zeta. fold (masked s pc).
  destruct (read_8_page h s (masked s pc)) as (l & s' & ok & v & -> & HR & Hp);
    [done|done|by apply masked_u64; [apply Hw|]|].
  cbn [mbind outcome_bind]. rewrite HR. cbn [mbind outcome_bind].
  destruct Hp as [Hst Hw' Hh Hok Hsucc]. pose proof (cache_step_perms s s' (AlignDownToPage (masked s pc)) Hst) as (_ & _ & ->).
  eexists _, v, s'. split; [done|]. split_and!; try done.
  - rewrite andb_true_iff. split.
    + intros [Ho Hx]. split; [|done]. destruct (Hok Ho) as [_ Hr]. pose proof (Hr O v eq_refl) as Hv.
      rewrite Z.add_0_r in Hv. by rewrite Hv.
    + intros [Hs Hx]. split; [|done]. apply Hsucc. intros a Ha. replace a with (masked s pc) by lia.
      split; [done|]. unfold any_perm. rewrite Hx. by rewrite !orb_true_r.
  - intros [Ho _]%andb_true_iff. destruct (Hok Ho) as [_ Hr]. pose proof (Hr O v eq_refl) as Hv.
    by rewrite Z.add_0_r in Hv.
Qed.

(** [IsMapped] answers for pages with some permission. *)
Lemma IsMapped_spec h s a :
  wf_heap h -> wf_space h s -> u64 a ->
  exists b, IsMapped h s a = Ok b /\
    (b = true <-> is_Some (abs h s a) /\ any_perm s (AlignDownToPage a) = true).
Proof.
  intros Hwf Hw Hu. unfold IsMapped. rewrite (ws_alive _ _ Hw).
  destruct (page_to_map s !! AlignDownToPage a) as [l|] eqn:E.
  - pose proof (proj1 (ws_index _ _ Hw _ _) E) as (r & He & Hv & Hal & Hc & Hp).
    rewrite (IsValid_spec h l r Hwf) by apply He. eexists. split; [done|]. rewrite Hv.
    split; [intros _|done]. split; [|done].
    rewrite (abs_value h s Hw a l r); [done|done|done|].
    eapply (page_whole _ r (AlignDownToPage a)); try done.
    + by eapply (wm_range _ _ _ (ws_maps _ _ Hw)).
    + pose proof (AlignDownToPage_range a Hu). lia.
  - exists false. split; [done|]. split; [done|]. intros [Hs Hp]. exfalso.
    destruct (abs_entry h s Hw a Hs) as (l & r & He & Hv & Hc).
    pose proof (index_lookup h s Hwf Hw _ _ a l r (ws_index _ _ Hw) He Hv Hc Hp). congruence.
Qed.
