(* ===== verification/WriteProps.v ===== *)
(** * Writing guest memory

    Every write path stores exactly the bytes written into the abstract
    memory and leaves every other byte of this and every other address space
    as it was; a failing bulk write stores a prefix. *)

From S2P Require Import Prelude Pages MappedRange RangeProps AddressSpace SpaceInv RemoveRangeProps IndexProps MapChange Lookup ReadProps.

(** ** Heap changes by writes through the maps [ms] *)

(** Objects that may only change their cached code version. *)
Definition same_object (r r' : MappedRange) : Prop := exists v b, r' = with_version r v b.

#[global] Instance same_object_preorder : PreOrder same_object.
Proof.
  split.
  - intros r. exists (code_version r), (code_version_is_valid r). by destruct r.
  - intros r1 r2 r3 (v & b & ->) (v' & b' & ->). by exists v', b'.
Qed.

Lemma view_same_object h h' r r' a :
  kind_ok h r -> same_object r r' ->
  (forall p rp, parent r = Some p -> objs h !! p = Some rp ->
     exists rp', objs h' !! p = Some rp' /\ same_object rp rp') ->
  view h' r' a = view h r a.
Proof.
  intros Hk (v & b & ->) Hm. unfold view, kind_ok in *. cbn. destruct (kind r); try done.
  destruct Hk as (_ & p & rp & Hp & Hl & _). rewrite Hp, Hl.
  by destruct (Hm p rp Hp Hl) as (? & -> & v' & b' & ->).
Qed.

Record frame (h h' : Heap) (ms : list loc) : Prop := {
  fr_wf : wf_heap h';
  fr_old l r : objs h !! l = Some r ->
    exists r', objs h' !! l = Some r' /\ same_bounds r r' /\ valid r' = valid r;
  fr_new l : is_Some (objs h' !! l) -> is_Some (objs h !! l);
  fr_parent l : is_parent h' l -> is_parent h l;
  fr_same l r : objs h !! l = Some r -> l ∉ ms \/ valid r = false ->
    exists r', objs h' !! l = Some r' /\ same_object r r'
}.

Lemma frame_refl h ms : wf_heap h -> frame h h ms.
Proof. intros Hwf. split; try done; intros l r Hl; [by exists r|]. intros _. by exists r. Qed.

Lemma frame_trans h1 h2 h3 ms : frame h1 h2 ms -> frame h2 h3 ms -> frame h1 h3 ms.
Proof.
  intros [Hw1 Ho1 Hn1 Hp1 Hs1] [Hw2 Ho2 Hn2 Hp2 Hs2]. split; auto.
  - intros l r (r' & Hl' & [Hb1 Hb2] & Hv)%Ho1. destruct (Ho2 l r' Hl') as (r'' & Hl'' & [Hb1' Hb2'] & Hv').
    exists r''. unfold same_bounds. split_and!; congruence.
  - intros l r Hl Hor. destruct (Hs1 l r Hl Hor) as (r' & Hl' & Hso).
    destruct (Hs2 l r' Hl') as (r'' & Hl'' & Hso'); [destruct Hso as (? & ? & ->); tauto|].
    exists r''. split; [done|by etrans].
Qed.

Lemma frame_back h h' ms l r' : frame h h' ms -> objs h' !! l = Some r' ->
  exists r, objs h !! l = Some r /\ same_bounds r r' /\ valid r' = valid r.
Proof.
  intros Hf Hl'. destruct (fr_new _ _ _ Hf l) as [r Hl]; [by rewrite Hl'|]. exists r.
  destruct (fr_old _ _ _ Hf l r Hl) as (r2 & Hl2 & ? & ?). simplify_eq. done.
Qed.

(** The invariant only speaks about bounds, validity and parents. *)
Lemma frame_wf_space h h' ms s : frame h h' ms -> wf_space h s -> wf_space h' s.
Proof.
  intros Hf. apply keeps_wf_space. split; [apply (fr_old _ _ _ Hf)|]. intros l _. apply (fr_parent _ _ _ Hf).
Qed.

(** Another space that shares at most invalid ranges sees no change. *)
Definition isolated (h : Heap) (s1 s2 : AddressSpace) : Prop :=
  forall l r, l ∈ maps s1 -> entry h (maps s2) l r -> valid r = false.

Lemma frame_abs_other h h' s1 s2 a :
  wf_heap h -> frame h h' (maps s1) -> wf_space h s1 -> wf_space h s2 -> isolated h s1 s2 ->
  abs h' s2 a = abs h s2 a.
Proof.
  intros Hwf Hf Hw1 Hw2 Hiso.
  assert (Hsame : forall l r, entry h (maps s2) l r ->
    exists r', objs h' !! l = Some r' /\ same_object r r' /\ view h' r' a = view h r a).
  { intros l r He. destruct (fr_same _ _ _ Hf l r) as (r' & Hl' & Hso); [apply He| |].
    { destruct (decide (l ∈ maps s1)); [|by left]. right. by eapply Hiso. }
    exists r'. split_and!; try done. apply view_same_object; [eapply (wf_kind h Hwf), He|done|].
    intros p rp Hp Hlp. apply (fr_same _ _ _ Hf); [done|]. left. intros Hin.
    apply (wm_not_parent _ _ _ (ws_maps _ _ Hw1) p Hin). exists l, r. split; [apply He|done]. }
  pose proof (wm_alive _ _ _ (ws_maps _ _ Hw2)) as Hal. unfold abs.
  assert (Hgo : forall ms, ms ⊆ maps s2 -> abs_maps h' ms a = abs_maps h ms a); [|by apply Hgo].
  induction ms as [|l ms IH]; [done|]. intros [Hin Hsub]%list_subseteq_cons_iff. cbn.
  destruct (Hal l Hin) as [r Hl]. destruct (Hsame l r) as (r' & -> & (? & ? & ->) & Hv); [by split|].
  rewrite Hl, (value_at_view _ _ _ _ _ _ Hv), IH by done. done.
Qed.

(** ** Replacing one object *)

Record update_ok (h : Heap) (l : loc) (r r' : MappedRange) : Prop := {
  up_old : objs h !! l = Some r;
  up_wf : wf_heap (put h l r');
  up_bounds : same_bounds r r';
  up_valid : valid r = true /\ valid r' = true;
  up_parent p : parent r' = Some p -> parent r = Some p
}.

Lemma update_frame h l r r' ms : update_ok h l r r' -> l ∈ ms -> frame h (put h l r') ms.
Proof.
  intros [Hl Hwf Hb [Hv Hv'] Hp] Hin. split; try done.
  - intros l0 r0 Hl0. destruct (decide (l0 = l)) as [->|Hne].
    + simplify_eq. exists r'. rewrite put_lookup_eq. split; [done|]. split; [done|congruence].
    + exists r0. by rewrite put_lookup_ne.
  - intros l0. destruct (decide (l0 = l)) as [->|Hne]; [by rewrite Hl|by rewrite put_lookup_ne].
  - intros p (l0 & r0 & Hl0 & Hp0). destruct (decide (l0 = l)) as [->|Hne].
    + rewrite put_lookup_eq in Hl0. simplify_eq. exists l, r. auto.
    + rewrite put_lookup_ne in Hl0 by done. by exists l0, r0.
  - intros l0 r0 Hl0 Hor. destruct (decide (l0 = l)) as [->|Hne].
    + destruct Hor; [done|congruence].
    + exists r0. by rewrite put_lookup_ne.
Qed.

Lemma update_abs h s l r r' a :
  wf_space h s -> l ∈ maps s -> update_ok h l r r' ->
  abs (put h l r') s a = if Contains r a then Some (value_at (put h l r') r' a) else abs h s a.
Proof.
  intros Hw Hin Hup. pose proof (frame_wf_space _ _ _ _ (update_frame _ _ _ _ _ Hup Hin) Hw) as Hw'.
  pose proof (up_bounds _ _ _ _ Hup) as Hb. destruct (up_valid _ _ _ _ Hup) as [Hv Hv'].
  pose proof (up_old _ _ _ _ Hup) as Hl.
  destruct (Contains r a) eqn:Hc.
  - eapply abs_value; [done| |done|by rewrite (same_bounds_Contains r)].
    split; [done|apply put_lookup_eq].
  - apply option_eq. intros v. rewrite (abs_Some _ _ _ _ Hw), (abs_Some _ _ _ _ Hw').
    assert (Hother : forall l0 r0, l0 <> l -> objs h !! l0 = Some r0 ->
              objs (put h l r') !! l0 = Some r0 /\ value_at (put h l r') r0 a = value_at h r0 a).
    { intros l0 r0 Hne Hl0. rewrite put_lookup_ne by done. split; [done|]. apply value_at_view, view_put_ne.
      eapply not_parent; [|done]. by apply (wm_not_parent _ _ _ (ws_maps _ _ Hw)). }
    split; intros (l0 & r0 & [Hin0 Hl0] & Hc0 & Hv0 & Hval); exists l0, r0;
      (destruct (decide (l0 = l)) as [->|Hne]; [exfalso|]).
    + rewrite put_lookup_eq in Hl0. injection Hl0 as <-. rewrite (same_bounds_Contains r r') in Hc0 by done. congruence.
    + rewrite put_lookup_ne in Hl0 by done. destruct (Hother l0 r0 Hne Hl0) as [_ <-]. done.
    + simplify_eq. congruence.
    + destruct (Hother l0 r0 Hne Hl0) as [? ->]. done.
Qed.

(** ** Overlays *)

Definition overlay (m : Z -> option Z) (addr : Z) (bs : list Z) (x : Z) : option Z :=
  if decide (addr <= x < addr + Z.of_nat (length bs)) then bs !! Z.to_nat (x - addr) else m x.

Lemma overlay_nil m addr x : overlay m addr [] x = m x.
Proof. unfold overlay. by rewrite decide_False by (cbn; lia). Qed.

Lemma overlay_app m addr bs bs' x :
  overlay (overlay m addr bs) (addr + Z.of_nat (length bs)) bs' x = overlay m addr (bs ++ bs') x.
Proof.
  unfold overlay. rewrite length_app. repeat case_decide; try lia; try done.
  - rewrite lookup_app_r by lia. f_equal. lia.
  - by rewrite lookup_app_l by lia.
Qed.

Lemma overlay_ext m m' addr bs x : m x = m' x -> overlay m addr bs x = overlay m' addr bs x.
Proof. unfold overlay. by intros ->. Qed.

Lemma overlay_is_Some m addr bs x :
  (forall a, addr <= a < addr + Z.of_nat (length bs) -> is_Some (m a)) ->
  is_Some (overlay m addr bs x) <-> is_Some (m x).
Proof.
  intros Hm. unfold overlay. case_decide as Hd; [|done]. split; [intros _; by apply Hm|].
  intros _. apply lookup_lt_is_Some. lia.
Qed.

(** What was written is read back. *)
Lemma overlay_reads m addr bs : reads_at (overlay m addr bs) addr bs.
Proof.
  intros i v Hi. unfold overlay. pose proof (lookup_lt_Some _ _ _ Hi). rewrite decide_True by lia.
  rewrite <- Hi. f_equal. lia.
Qed.

(** ** Writes to one range *)

Lemma entry_aligned h s l r :
  wf_space h s -> entry h (maps s) l r -> valid r = true -> aligned (limit_address r - base_address r).
Proof.
  intros Hw He Hv. pose proof (wm_range _ _ _ (ws_maps _ _ Hw) l r He) as Hr.
  apply aligned_sub; [apply (ro_top _ _ Hr Hv)|apply Hr].
Qed.

(** A stored byte string, as a change of the space. *)
Lemma stored_overlay h s l r r' addr bs :
  wf_space h s -> entry h (maps s) l r -> valid r = true -> wf_heap (put h l r') ->
  kind r' = ArrayMemoryMap -> same_bounds r r' -> parent r' = None ->
  base_address r <= addr -> addr + Z.of_nat (length bs) <= limit_address r ->
  (forall a', Contains r a' = true ->
     view (put h l r') r' a' =
       Ok (true, if decide (addr <= a' < addr + Z.of_nat (length bs))
                 then default 0 (bs !! Z.to_nat (a' - addr)) else value_at h r a')) ->
  frame h (put h l r') (maps s) /\ forall x, abs (put h l r') s x = overlay (abs h s) addr bs x.
Proof.
  intros Hw [Hin Hl] Hv Hwf' Hk' Hb Hp' H1 H2 Hview.
  assert (Hup : update_ok h l r r').
  { split; try done. - split; [done|]. unfold valid. by rewrite Hk'. - congruence. }
  split; [by eapply update_frame|]. intros x. rewrite (update_abs h s l r r') by done.
  destruct (Contains r x) eqn:Hc.
  - unfold value_at. rewrite (Hview x Hc). unfold overlay. case_decide as Hd.
    + destruct (lookup_lt_is_Some_2 bs (Z.to_nat (x - addr))) as [v Hv']; [lia|]. by rewrite Hv'.
    + symmetry. eapply abs_value; [done|by split|done|done].
  - unfold overlay. rewrite decide_False; [done|]. intros Hd.
    apply not_true_iff_false in Hc. apply Hc, Contains_iff. lia.
Qed.

Lemma Write_entry h s l r a v :
  wf_heap h -> wf_space h s -> entry h (maps s) l r -> valid r = true -> byte_ok v -> Contains r a = true ->
  exists h', Write h l a v = Ok (true, h') /\ frame h h' (maps s) /\
    forall x, abs h' s x = overlay (abs h s) a [v] x.
Proof.
  intros Hwf Hw He Hv Hb Hc. pose proof (proj1 (Contains_iff _ _) Hc).
  destruct (Write_spec h l r a v) as (r' & HW & Hwf' & Hk' & Hsb & Hp' & Hview);
    [done|apply He|by apply valid_iff|by eapply entry_aligned|done|done|].
  exists (put h l r'). split; [done|]. apply (stored_overlay h s l r r'); try done; [lia|cbn; lia|].
  intros a' Ha'. rewrite Hview by done. do 2 f_equal. cbn. repeat case_decide; try lia.
  subst. by rewrite Z.sub_diag.
Qed.

Lemma frame_entry h h' s l r :
  frame h h' (maps s) -> entry h (maps s) l r ->
  exists r', entry h' (maps s) l r' /\ valid r' = valid r /\ same_bounds r r'.
Proof.
  intros Hf [Hin Hl]. destruct (fr_old _ _ _ Hf l r Hl) as (r' & ? & ? & ?). exists r'. by split; [split|].
Qed.

Lemma write_run_entry h s l r addr bs :
  wf_heap h -> wf_space h s -> entry h (maps s) l r -> valid r = true -> Forall byte_ok bs ->
  (forall a, addr <= a < addr + Z.of_nat (length bs) -> Contains r a = true) ->
  exists h', write_run h l addr bs = Ok (true, h') /\ frame h h' (maps s) /\
    forall x, abs h' s x = overlay (abs h s) addr bs x.
Proof.
  revert h r addr. induction bs as [|b bs IH]; intros h r addr Hwf Hw He Hv Hbs Hin; cbn [write_run].
  { exists h. split; [done|]. split; [by apply frame_refl|]. intros x. by rewrite overlay_nil. }
  apply Forall_cons in Hbs as [Hb Hbs]. cbn [length] in Hin.
  destruct (Write_entry h s l r addr b) as (h1 & -> & Hf1 & Ha1); try done; [apply Hin; lia|].
  cbn [mbind outcome_bind]. destruct (frame_entry _ _ _ _ _ Hf1 He) as (r1 & He1 & Hv1 & Hsb).
  destruct (IH h1 r1 (addr + 1)) as (h2 & -> & Hf2 & Ha2);
    [apply Hf1|by eapply frame_wf_space|done|congruence|done| |].
  { intros a Ha. rewrite (same_bounds_Contains r) by done. apply Hin. lia. }
  exists h2. split; [done|]. split; [by eapply frame_trans|]. intros x. rewrite Ha2.
  rewrite (overlay_ext _ _ _ _ _ (Ha1 x)). apply (overlay_app (abs h s) addr [b] bs x).
Qed.

Lemma write_run_invalid h l r addr bs :
  objs h !! l = Some r -> kind r = InvalidMemoryMap ->
  write_run h l addr bs = Ok (match bs with [] => true | _ => false end, h).
Proof. intros Hl Hk. destruct bs; cbn [write_run]; [done|]. by rewrite (Write_invalid h l r). Qed.

(** ** Dropping a cached code version *)

Lemma wf_put_version h l r v b :
  wf_heap h -> objs h !! l = Some r -> wf_heap (put h l (with_version r v b)).
Proof.
  intros Hwf Hl.
  assert (Hko : forall r0, kind_ok h r0 -> kind_ok (put h l (with_version r v b)) r0).
  { intros r0. unfold kind_ok. destruct (kind r0); try done.
    intros (Hd & p & rp & Hp & Hlp & Hkp & Hbp). split; [done|].
    destruct (decide (p = l)) as [->|Hne].
    - simplify_eq. exists l, (with_version r v b). by rewrite put_lookup_eq.
    - exists p, rp. by rewrite put_lookup_ne. }
  split; intros l0 r0 Hl0; destruct (decide (l0 = l)) as [->|Hne];
    rewrite ?put_lookup_eq, ?put_lookup_ne in Hl0 by done; try injection Hl0 as <-.
  - apply (wf_bounds h Hwf l r Hl).
  - by eapply wf_bounds.
  - apply (Hko r). by eapply wf_kind.
  - apply Hko. by eapply wf_kind.
  - by eapply (wf_fresh h).
  - by eapply (wf_fresh h).
Qed.

(** Updating the cached version of a range changes nothing else. *)
Lemma put_version_spec h s l r v0 b0 :
  wf_heap h -> wf_space h s -> objs h !! l = Some r ->
  frame h (put h l (with_version r v0 b0)) (maps s) /\ forall x, abs (put h l (with_version r v0 b0)) s x = abs h s x.
Proof.
  intros Hwf Hw Hl. set (r' := with_version r v0 b0).
  assert (Hob : forall l0 r0, objs h !! l0 = Some r0 -> exists r1, objs (put h l r') !! l0 = Some r1 /\ same_object r0 r1).
  { intros l0 r0 Hl0. destruct (decide (l0 = l)) as [->|Hne].
    - simplify_eq. exists r'. rewrite put_lookup_eq. split; [done|]. by eexists _, _.
    - exists r0. by rewrite put_lookup_ne. }
  assert (Hview : forall l0 r0 r1 x, objs h !! l0 = Some r0 -> same_object r0 r1 -> view (put h l r') r1 x = view h r0 x).
  { intros l0 r0 r1 x Hl0 Hso. apply view_same_object; [by eapply wf_kind|done|eauto]. }
  split.
  - split; [by apply wf_put_version|..].
    + intros l0 r0 (r1 & Hl1 & v & b & ->)%Hob. by eexists.
    + intros l0. destruct (decide (l0 = l)) as [->|Hne]; [by rewrite Hl|by rewrite put_lookup_ne].
    + intros p (l0 & r0 & Hl0 & Hp). destruct (decide (l0 = l)) as [->|Hne].
      * rewrite put_lookup_eq in Hl0. simplify_eq. by exists l, r.
      * rewrite put_lookup_ne in Hl0 by done. by exists l0, r0.
    + intros l0 r0 Hl0 _. by apply Hob.
  - intros x. unfold abs. pose proof (wm_alive _ _ _ (ws_maps _ _ Hw)) as Hal. revert Hal.
    induction (maps s) as [|l0 ms IH]; intros Hal; [done|]. cbn [abs_maps].
    destruct (Hal l0) as [r0 Hl0]; [by apply list_elem_of_here|].
    destruct (Hob l0 r0 Hl0) as (r1 & Hl1 & Hso).
    pose proof (value_at_view _ _ _ _ _ _ (Hview l0 r0 r1 x Hl0 Hso)) as Hva.
    rewrite Hl0, Hl1, IH by (intros; apply Hal; by apply list_elem_of_further).
    destruct Hso as (v & b & ->). by rewrite Hva.
Qed.

Lemma InvalidateCodeVersion_spec h s l r :
  wf_heap h -> wf_space h s -> objs h !! l = Some r ->
  exists h', InvalidateCodeVersion h l = Ok h' /\ frame h h' (maps s) /\ forall x, abs h' s x = abs h s x.
Proof.
  intros Hwf Hw Hl. unfold InvalidateCodeVersion. rewrite (get_Some h l r Hl). cbn [mbind outcome_bind].
  eexists. split; [done|]. by apply put_version_spec.
Qed.

(** ** The bulk write *)

(** What a write of [bs] at [addr] guarantees; [perm] are the pages that
    were checked. *)
Record write_post (h : Heap) (s : AddressSpace) (addr : Z) (bs : list Z) (perm : Z -> bool) (ok : bool)
    (h' : Heap) (s' : AddressSpace) : Prop := {
  wr_frame : frame h h' (maps s);
  wr_step : cache_step s s';
  wr_wf : wf_space h' s';
  wr_abs : exists k, (k <= length bs)%nat /\ (ok = true -> k = length bs) /\
    forall x, abs h' s' x = overlay (abs h s) addr (take k bs) x;
  wr_mapped : ok = true -> accessible h s perm addr (Z.of_nat (length bs));
  wr_succeeds : accessible h s (CanWriteAligned s) addr (Z.of_nat (length bs)) -> ok = true
}.

Lemma write_post_prefix_mapped h s addr bs perm ok h' s' :
  write_post h s addr bs perm ok h' s' -> ok = true ->
  forall x, abs h' s' x = overlay (abs h s) addr bs x.
Proof. intros Hp Ho x. destruct (wr_abs _ _ _ _ _ _ _ _ Hp) as (k & _ & Hk & Ha). by rewrite Ha, Hk, firstn_all. Qed.

Section bulk.
Context (version_code : bool).

(** The part of a page iteration before the stores. *)
Definition drop_version (h : Heap) (s : AddressSpace) (l : loc) (page_addr : Z) : outcome (Heap * AddressSpace) :=
  if version_code && CanExecuteAligned s page_addr then
    h ← InvalidateCodeVersion h l; Ok (h, with_heads s ∅)
  else Ok (h, s).

Lemma drop_version_spec h s l r page :
  wf_heap h -> wf_space h s -> objs h !! l = Some r ->
  exists h' s', drop_version h s l page = Ok (h', s') /\ frame h h' (maps s) /\ cache_step s s' /\
    wf_space h' s' /\ forall x, abs h' s' x = abs h s x.
Proof.
  intros Hwf Hw Hl. unfold drop_version. destruct (version_code && CanExecuteAligned s page).
  - destruct (InvalidateCodeVersion_spec h s l r) as (h' & -> & Hf & Ha); try done. cbn [mbind outcome_bind].
    eexists h', _. split_and!; try done; auto with space. apply wf_space_heads. by eapply frame_wf_space.
  - exists h, s. split_and!; try done. by apply frame_refl.
Qed.

Lemma write_page_spec h s page addr bs :
  wf_heap h -> wf_space h s -> aligned page -> u64 page -> CanWriteAligned s page = true -> Forall byte_ok bs ->
  page <= addr -> addr + Z.of_nat (length bs) <= page + kPageSize ->
  exists l s1 h2 s2 ok h3, FindRangeAligned h s page = Ok (l, s1) /\ drop_version h s1 l page = Ok (h2, s2) /\
    write_run h2 l addr bs = Ok (ok, h3) /\ write_post h s addr bs (CanWriteAligned s) ok h3 s2.
Proof.
  intros Hwf Hw Hal Hu Hcw Hbs H1 H2.
  destruct (FindRangeAligned_spec h s Hw page) as (l & s1 & HF & Hst & Hw1 & Hh & Hfd).
  assert (Hms1 : maps s1 = maps s) by apply (cache_step_maps _ _ Hst).
  assert (Hlr : exists r, objs h !! l = Some r).
  { destruct (fd_entry _ _ _ _ _ _ Hfd) as [(r & [_ He] & _)|[-> _]]; [eauto|].
    destruct (ws_invalid _ _ Hw) as (r & ? & _). eauto. }
  destruct Hlr as [r Hl].
  destruct (drop_version_spec h s1 l r page) as (h2 & s2 & HD & Hf2 & Hst2 & Hw2 & Ha2); try done.
  assert (Hms2 : maps s2 = maps s) by (rewrite <- Hms1; apply (cache_step_maps _ _ Hst2)).
  assert (Hst02 : cache_step s s2) by (by etrans). rewrite Hms1 in Hf2.
  assert (Habs2 : forall x, abs h2 s2 x = abs h s x) by (intros x; rewrite Ha2; by apply cache_step_abs).
  assert (Hpg : forall a, u64 a -> addr <= a < addr + Z.of_nat (length bs) -> AlignDownToPage a = page).
  { intros a ? Ha. apply AlignDownToPage_unique; [done|done|lia]. }
  destruct (fd_entry _ _ _ _ _ _ Hfd) as [(r0 & He & Hv & Hc)|[-> Hnone]].
  - assert (Hin : forall a, addr <= a < addr + Z.of_nat (length bs) -> Contains r0 a = true).
    { intros a Ha. eapply (page_whole _ r0 page); try done; [|lia]. by eapply (wm_range _ _ _ (ws_maps _ _ Hw)). }
    destruct (frame_entry _ _ _ _ _ Hf2 He) as (r2 & He2 & Hv2 & Hsb).
    destruct (write_run_entry h2 s2 l r2 addr bs) as (h3 & HW & Hf3 & Ha3);
      [apply Hf2|done|by rewrite Hms2|congruence|done| |].
    { intros a Ha. rewrite (same_bounds_Contains r0) by done. by apply Hin. }
    exists l, s1, h2, s2, true, h3. split_and!; try done. rewrite Hms2 in Hf3. split; try done.
    + by eapply frame_trans.
    + eapply frame_wf_space; [|done]. done.
    + exists (length bs). rewrite firstn_all. split_and!; try done. intros x. rewrite Ha3. by apply overlay_ext.
    + intros _ a Ha. pose proof (Hin a Ha) as Hca. split; [by erewrite abs_value|].
      rewrite Hpg; [done| |done]. by eapply entry_u64.
  - destruct (ws_invalid _ _ Hw) as (ri & Hri & Hki).
    destruct (fr_same _ _ _ Hf2 _ ri Hri) as (ri' & Hri' & vv & bb & ->).
    { right. unfold valid. by rewrite Hki. }
    eexists _, s1, h2, s2, _, h2. split_and!; [done|done|by eapply write_run_invalid|].
    split; try done.
    + exists O. split_and!; [lia|destruct bs; done|]. intros x. rewrite overlay_nil. apply Habs2.
    + destruct bs; [|done]. intros _ a Ha. cbn in Ha. lia.
    + intros Hacc. destruct bs as [|b bs]; [done|]. exfalso. destruct (Hacc addr) as [Hs Hp]; [cbn; lia|].
      destruct (abs_entry h s Hw addr Hs) as (l & r' & He & Hv & Hc).
      assert (Hua : u64 addr) by (by eapply entry_u64).
      rewrite (Hpg addr Hua) in Hp by (cbn; lia).
      pose proof (index_lookup h s Hwf Hw (any_perm s) (page_to_map s) addr l r' (ws_index _ _ Hw) He Hv Hc) as Hlk.
      rewrite (Hpg addr Hua) in Hlk by (cbn; lia). unfold any_perm in Hlk.
      rewrite Hp, orb_true_r in Hlk. specialize (Hlk eq_refl). congruence.
Qed.

(** Writing does not change what is accessible. *)
Lemma accessible_written h s addr bs h' s' perm addr' n' :
  cache_step s s' -> accessible h s perm addr (Z.of_nat (length bs)) ->
  (forall x, abs h' s' x = overlay (abs h s) addr bs x) ->
  accessible h' s' perm addr' n' <-> accessible h s perm addr' n'.
Proof.
  intros Hst Hacc Ha. unfold accessible. split; intros H a Hin; destruct (H a Hin) as [Hs Hp]; (split; [|done]).
  - rewrite Ha, overlay_is_Some in Hs; [done|]. intros b Hb. by apply Hacc.
  - rewrite Ha. apply overlay_is_Some; [|done]. intros b Hb. by apply Hacc.
Qed.

Lemma accessible_app h s perm addr n n' :
  accessible h s perm addr n -> accessible h s perm (addr + n) n' -> accessible h s perm addr (n + n').
Proof. intros H1 H2 a Ha. destruct (decide (a < addr + n)); [apply H1|apply H2]; lia. Qed.

(** Two consecutive writes make one. *)
Lemma write_post_app h s addr bs1 bs2 h1 s1 ok h2 s2 :
  write_post h s addr bs1 (CanWriteAligned s) true h1 s1 ->
  write_post h1 s1 (addr + Z.of_nat (length bs1)) bs2 (CanWriteAligned s1) ok h2 s2 ->
  write_post h s addr (bs1 ++ bs2) (CanWriteAligned s) ok h2 s2.
Proof.
  intros Hp1 Hp2. pose proof (write_post_prefix_mapped _ _ _ _ _ _ _ _ Hp1 eq_refl) as Ha1.
  destruct Hp1 as [Hf1 Hst1 Hw1 _ Hm1 _]. destruct Hp2 as [Hf2 Hst2 Hw2 (k & Hk & Hok & Ha2) Hm2 Hs2].
  specialize (Hm1 eq_refl). destruct (cache_step_maps _ _ Hst1) as [Hms _]. rewrite Hms in Hf2.
  assert (Hperm : forall p, CanWriteAligned s1 p = CanWriteAligned s p) by (intros p; by apply cache_step_perms).
  assert (Hacc : forall a n, accessible h1 s1 (CanWriteAligned s1) a n <-> accessible h s (CanWriteAligned s) a n).
  { intros a n. rewrite <- (accessible_written h s addr bs1 h1 s1) by done.
    unfold accessible. by setoid_rewrite Hperm. }
  split; try done.
  - by eapply frame_trans.
  - by etrans.
  - exists (length bs1 + k)%nat. rewrite length_app. split_and!; [lia|intros Ho; rewrite (Hok Ho); done|].
    intros x. rewrite Ha2, (overlay_ext _ _ _ _ _ (Ha1 x)).
    rewrite overlay_app. by rewrite firstn_app_2.
  - intros Ho. rewrite length_app, Nat2Z.inj_add. apply accessible_app; [done|]. apply Hacc, Hm2, Ho.
  - intros Hall. apply Hs2, Hacc. eapply accessible_sub; [| |done]; rewrite ?length_app; lia.
Qed.

Lemma write_pages_spec fuel h s page addr end_addr bs :
  wf_heap h -> wf_space h s -> aligned page -> u64 page -> end_addr <= two64 - kPageSize ->
  Forall byte_ok bs -> end_addr = addr + Z.of_nat (length bs) ->
  (page < end_addr -> page <= addr < page + kPageSize /\ bs <> []) -> (end_addr <= page -> bs = []) ->
  end_addr - page <= kPageSize * Z.of_nat fuel ->
  exists ok h' s', write_pages version_code fuel h s page addr end_addr bs = Ok (ok, h', s') /\
    write_post h s addr bs (CanWriteAligned s) ok h' s'.
Proof.
  revert h s page addr bs. induction fuel as [|fuel IH];
    intros h s page addr bs Hwf Hw Hal Hu Htop Hbs Hend Hin Hemp Hf; cbn [write_pages];
    (destruct (Z.ltb_spec page end_addr) as [Hlt|Hge];
      [|rewrite (Hemp Hge); exists true, h, s; split; [done|]; split; try done;
        [by apply frame_refl|exists O; split_and!; try done; intros x; by rewrite overlay_nil|intros _ a Ha; cbn in Ha; lia]]).
  { unfold kPageSize in *. lia. }
  assert (kPageSize = 4096) as Hk by done. unfold u64 in Hu. destruct (Hin Hlt) as [Hpa Hne].
  destruct (CanWriteAligned s page) eqn:Ecw.
  2:{ exists false, h, s. split; [done|]. split; try done; [by apply frame_refl| |].
      - exists O. split_and!; try done; [lia|]. intros x. by rewrite overlay_nil.
      - intros Hacc. exfalso. destruct bs as [|b bs]; [done|]. destruct (Hacc addr) as [_ Hp]; [cbn; lia|].
        rewrite (AlignDownToPage_unique addr page) in Hp by (try done; unfold u64; lia). congruence. }
  rewrite add64_small by lia. cbv zeta.
  set (n := Z.to_nat (Z.min end_addr (page + kPageSize) - addr)).
  destruct (write_page_spec h s page addr (take n bs)) as (l & s1 & h2 & s2 & ok & h3 & -> & HD & HW & Hpost);
    try done; [by apply Forall_take|lia|rewrite length_take; lia|].
  cbn [mbind outcome_bind]. unfold drop_version in HD. rewrite HD. cbn [mbind outcome_bind].
  rewrite HW. cbn [mbind outcome_bind].
  assert (Hsplit : take n bs ++ drop n bs = bs) by apply take_drop.
  destruct ok.
  - destruct (IH h3 s2 (page + kPageSize) (Z.max addr (Z.min end_addr (page + kPageSize))) (drop n bs))
      as (ok & h4 & s4 & -> & Hpost2); try done.
    { apply Hpost. } { apply Hpost. } { by apply aligned_add. } { unfold u64; lia. } { by apply Forall_drop. }
    { rewrite length_drop. lia. }
    { intros Hlt2. split; [lia|]. intros Hn%(f_equal length). rewrite length_drop in Hn. cbn in Hn. lia. }
    { intros Hge. apply nil_length_inv. rewrite length_drop. lia. }
    { lia. }
    exists ok, h4, s4. split; [done|]. rewrite <- Hsplit. eapply write_post_app; [done|].
    by replace (addr + Z.of_nat (length (take n bs))) with (Z.max addr (Z.min end_addr (page + kPageSize)))
      by (rewrite length_take; lia).
  - exists false, h3, s2. split; [done|]. destruct Hpost as [? ? ? (k & Hk' & _ & Ha) _ Hs]. split; try done.
    + exists k. rewrite length_take in Hk'. split_and!; [lia|done|]. intros x. rewrite Ha, take_take.
      do 2 f_equal. lia.
    + intros Hacc. apply Hs. eapply accessible_sub; [| |done]; rewrite ?length_take; lia.
Qed.

Lemma TryWrite_bulk_spec h s addr_ bs :
  wf_heap h -> wf_space h s -> u64 addr_ -> Forall byte_ok bs -> bs <> [] ->
  masked s addr_ + Z.of_nat (length bs) <= two64 - kPageSize ->
  exists ok h' s', TryWrite_bulk version_code h s addr_ bs = Ok (ok, h', s') /\
    write_post h s (masked s addr_) bs (CanWriteAligned s) ok h' s'.
Proof.
  intros Hwf Hw Hu Hbs Hne Ht. unfold TryWrite_bulk. cbv zeta. fold (masked s addr_).
  pose proof (masked_u64 s addr_ (ws_mask _ _ Hw) Hu) as Hmu.
  pose proof (AlignDownToPage_range _ Hmu). assert (kPageSize = 4096) as Hk by done. unfold u64 in Hmu.
  rewrite add64_small by lia.
  apply write_pages_spec; try done; try lia.
  - by apply AlignDownToPage_aligned.
  - by apply AlignDownToPage_u64.
  - intros _. split; [lia|done].
  - intros Hge. destruct bs; [done|cbn [length] in *; lia].
  - apply bulk_fuel_enough.
Qed.
End bulk.

(** ** Fixed-size writes *)

Definition any_page (p : Z) : bool := true.

Lemma write_post_step h s s1 addr bs perm ok h' s' :
  cache_step s s1 -> wf_space h s1 ->
  write_post h s1 addr bs perm ok h' s' -> write_post h s addr bs any_page ok h' s'.
Proof.
  intros Hst Hw1 [Hf Hst' Hw' (k & Hk & Hok & Ha) Hm Hs].
  assert (Hst0 : cache_step s s') by (by etrans).
  destruct Hst as (c & wc & t & ->). split; try done; [by exists k|].
  intros Ho a Hin. split; [by apply (Hm Ho)|done].
Qed.

(** Bytes written through the range found for the page. *)
Lemma write_post_direct h s s1 addr bs h' :
  cache_step s s1 -> wf_space h s1 -> frame h h' (maps s1) ->
  (forall x, abs h' s1 x = overlay (abs h s1) addr bs x) ->
  (forall a, addr <= a < addr + Z.of_nat (length bs) -> is_Some (abs h s1 a)) ->
  write_post h s addr bs any_page true h' s1.
Proof.
  intros Hst Hw1 Hf Ha Hm. apply (write_post_step h s s1 _ _ any_page); [done|done|]. split; try done.
  - by eapply frame_wf_space.
  - exists (length bs). by rewrite firstn_all.
  - intros _ a Hin. split; [by apply Hm|done].
Qed.

(** A preparing step that changes no byte. *)
Lemma write_post_prepare h h1 s addr bs perm ok h' s' :
  frame h h1 (maps s) -> (forall x, abs h1 s x = abs h s x) ->
  write_post h1 s addr bs perm ok h' s' -> write_post h s addr bs perm ok h' s'.
Proof.
  intros Hf Hsame [Hf' Hst Hw (k & Hk & Hok & Ha) Hm Hs].
  assert (Hacc : forall perm a n, accessible h1 s perm a n <-> accessible h s perm a n).
  { intros. unfold accessible. by setoid_rewrite Hsame. }
  split; try done.
  - by eapply frame_trans.
  - exists k. split_and!; try done. intros x. rewrite Ha. by apply overlay_ext.
  - intros Ho. by apply Hacc, Hm.
  - intros Hall. by apply Hs, Hacc.
Qed.

Lemma ToReadWrite_entry h s l r a :
  wf_heap h -> wf_space h s -> entry h (maps s) l r -> valid r = true -> Contains r a = true ->
  exists h', ToReadWriteVirtualAddress h l a = Ok (DataPtr l (a - base_address r), h') /\
    frame h h' (maps s) /\ forall x, abs h' s x = abs h s x.
Proof.
  intros Hwf Hw He Hv Hc. pose proof (proj1 (Contains_iff _ _) Hc).
  destruct (ToReadWrite_spec h l r a) as (r' & m & HT & Hk & Hsb & Hp & Hd & Hm & Hrd);
    [done|apply He|by apply valid_iff|by eapply entry_aligned|done|].
  eexists. split; [done|].
  destruct (stored_overlay h s l r r' a []) as [Hf Ha]; try done; try (cbn [length]; lia).
  - eapply (wf_put_array h l r r' m); try done; [apply He|by eapply entry_aligned].
  - intros a' Ha'. rewrite decide_False by (cbn; lia). unfold view. rewrite Hk. by apply Hrd.
  - split; [done|]. intros x. by rewrite Ha, overlay_nil.
Qed.

Lemma ToReadWrite_invalid h l r a :
  objs h !! l = Some r -> kind r = InvalidMemoryMap -> ToReadWriteVirtualAddress h l a = Ok (NullPtr, h).
Proof. intros Hl Hk. unfold ToReadWriteVirtualAddress. rewrite (get_Some h l r Hl). cbn. by rewrite Hk. Qed.

Lemma store_entry h s l r a bs :
  wf_heap h -> wf_space h s -> entry h (maps s) l r -> valid r = true -> Forall byte_ok bs -> bs <> [] ->
  base_address r <= a -> a + Z.of_nat (length bs) <= limit_address r ->
  exists h1 h', ToReadWriteVirtualAddress h l a = Ok (DataPtr l (a - base_address r), h1) /\
    store h1 (DataPtr l (a - base_address r)) bs 0 = Ok h' /\
    frame h h' (maps s) /\ forall x, abs h' s x = overlay (abs h s) a bs x.
Proof.
  intros Hwf Hw He Hv Hbs Hne H1 H2.
  destruct (write_bytes_spec h l r a bs) as (r' & h1 & HT & HS & Hwf' & Hk & Hsb & Hp & Hview);
    try done; [apply He|by apply valid_iff|by eapply entry_aligned|].
  exists h1, (put h l r'). split; [done|]. split; [done|]. by apply (stored_overlay h s l r r').
Qed.

Section fixed.
Context (version_code : bool) (h : Heap) (s : AddressSpace) (addr_ : Z).
Context (Hwf : wf_heap h) (Hw : wf_space h s) (Hu : u64 addr_).

(** Falling back to the bulk write from a state that only differs in the
    caches. *)
Lemma bulk_fallback s1 bs :
  cache_step s s1 -> wf_space h s1 -> Forall byte_ok bs -> bs <> [] ->
  masked s addr_ + Z.of_nat (length bs) <= two64 - kPageSize ->
  exists ok h' s', TryWrite_bulk version_code h s1 (masked s addr_) bs = Ok (ok, h', s') /\
    write_post h s (masked s addr_) bs any_page ok h' s'.
Proof.
  intros Hst Hw1 Hbs Hne Ht.
  assert (Hmm : masked s1 (masked s addr_) = masked s addr_).
  { destruct Hst as (? & ? & ? & ->). apply (masked_masked s). }
  destruct (TryWrite_bulk_spec version_code h s1 (masked s addr_) bs) as (ok & h' & s' & HT & Hp);
    rewrite ?Hmm in *; try done; [by apply masked_u64; [apply Hw|]|].
  exists ok, h', s'. split; [done|]. by eapply write_post_step.
Qed.

Lemma TryWrite_8_spec val :
  byte_ok val -> masked s addr_ + 1 <= two64 - kPageSize ->
  exists ok h' s', TryWrite_8 version_code h s addr_ val = Ok (ok, h', s') /\
    write_post h s (masked s addr_) [val] any_page ok h' s'.
Proof.
  intros Hv Ht. unfold TryWrite_8, FindWNXRange. cbv zeta. fold (masked s addr_).
  pose proof (masked_u64 s addr_ (ws_mask _ _ Hw) Hu) as Hmu.
  pose proof (AlignDownToPage_range _ Hmu).
  destruct (FindWNXRangeAligned_spec h s Hw (AlignDownToPage (masked s addr_)))
    as (l & s1 & -> & Hst & Hw1 & Hh & Hfd). cbn [mbind outcome_bind].
  assert (Hms : maps s1 = maps s) by apply (cache_step_maps _ _ Hst).
  destruct (fd_entry _ _ _ _ _ _ Hfd) as [(r & He & Hvr & Hc)|[-> Hnone]].
  - assert (Hca : Contains r (masked s addr_) = true).
    { eapply (page_whole _ r (AlignDownToPage (masked s addr_))); try done; [|by apply AlignDownToPage_aligned|lia].
      by eapply (wm_range _ _ _ (ws_maps _ _ Hw)). }
    rewrite <- Hms in He.
    destruct (Write_entry h s1 l r (masked s addr_) val) as (h' & -> & Hf & Ha); try done. cbn [mbind outcome_bind].
    exists true, h', s1. split; [done|]. apply write_post_direct; try done.
    intros a Ha'. cbn in Ha'. replace a with (masked s addr_) by lia. by erewrite abs_value.
  - destruct (ws_invalid _ _ Hw) as (r & Hr & Hk). rewrite (Write_invalid h _ r) by done. cbn [mbind outcome_bind].
    apply bulk_fallback; try done. by constructor.
Qed.

Lemma MAKE_TRY_WRITE_spec bs :
  Forall byte_ok bs -> bs <> [] -> masked s addr_ + Z.of_nat (length bs) <= two64 - kPageSize ->
  exists ok h' s', MAKE_TRY_WRITE version_code h s addr_ bs = Ok (ok, h', s') /\
    write_post h s (masked s addr_) bs any_page ok h' s'.
Proof.
  intros Hbs Hne Ht. unfold MAKE_TRY_WRITE, FindWNXRange. cbv zeta. fold (masked s addr_).
  pose proof (masked_u64 s addr_ (ws_mask _ _ Hw) Hu) as Hmu. set (addr := masked s addr_) in *.
  pose proof (AlignDownToPage_range _ Hmu).
  destruct (FindWNXRangeAligned_spec h s Hw (AlignDownToPage addr)) as (l & s1 & -> & Hst & Hw1 & Hh & Hfd).
  cbn [mbind outcome_bind].
  assert (Hms : maps s1 = maps s) by apply (cache_step_maps _ _ Hst).
  destruct (fd_entry _ _ _ _ _ _ Hfd) as [(r & He & Hvr & Hc)|[-> Hnone]].
  2:{ destruct (ws_invalid _ _ Hw) as (r & Hr & Hk). rewrite (ToReadWrite_invalid h _ r) by done.
      cbn [mbind outcome_bind]. by apply bulk_fallback. }
  assert (Hca : Contains r addr = true).
  { eapply (page_whole _ r (AlignDownToPage addr)); try done; [|by apply AlignDownToPage_aligned|lia].
    by eapply (wm_range _ _ _ (ws_maps _ _ Hw)). }
  rewrite <- Hms in He. pose proof (proj1 (Contains_iff _ _) Hca).
  assert (Hpos : 0 < Z.of_nat (length bs)) by (destruct bs; cbn [length]; [done|lia]).
  destruct (ToReadWrite_entry h s1 l r addr) as (h1 & HT & Hf1 & Ha1); try done.
  rewrite HT. cbn [mbind outcome_bind].
  destruct (frame_entry _ _ _ _ _ Hf1 He) as (r1 & He1 & Hv1 & Hb1 & Hb2).
  rewrite (get_Some h1 l r1) by apply He1. cbn [mbind outcome_bind]. rewrite Hb1, Hb2.
  assert (Hsub : sub64 (add64 addr (Z.of_nat (length bs))) 1 = addr + Z.of_nat (length bs) - 1).
  { unfold u64, kPageSize in *. rewrite add64_small, sub64_small by lia. done. }
  rewrite Hsub. match goal with |- context [if ?b then _ else _] => destruct b eqn:Eb end.
  - bool_to_prop.
    destruct (store_entry h s1 l r addr bs) as (h1' & h' & HT' & HS & Hf & Ha); try done; [lia|].
    rewrite HT in HT'. injection HT' as <-. rewrite HS. cbn [mbind outcome_bind].
    exists true, h', s1. split; [done|]. apply write_post_direct; try done.
    intros a Ha'. erewrite abs_value; [done|done|done|done|]. apply Contains_iff. lia.
  - assert (Hmm : masked s1 addr = addr).
    { destruct Hst as (? & ? & ? & ->). apply (masked_masked s). }
    destruct (TryWrite_bulk_spec version_code h1 s1 addr bs) as (ok & h' & s' & HB & Hp);
      rewrite ?Hmm in *; try done; [apply Hf1|by eapply frame_wf_space|].
    exists ok, h', s'. split; [done|]. eapply write_post_step; [done|done|]. by eapply write_post_prepare.
Qed.
End fixed.
