(* ===== verification/HoleProps.v ===== *)
(** * Searching for unmapped space

    [FindHole] returns only page-aligned free intervals inside the requested
    bounds, and finds one whenever a single invalid range has room for it. *)

From S2P Require Import Prelude Pages MappedRange RangeProps AddressSpace SpaceInv IndexProps.

Definition limit_of (h : Heap) (l : loc) : Z := default 0 (limit_address <$> objs h !! l).

(** Each map lies wholly above every later one. *)
Definition descending (h : Heap) (rl : list loc) : Prop :=
  StronglySorted (fun hi lo => limit_of h lo <= base_of h hi) rl.

Lemma StronglySorted_snoc {A} (R : A -> A -> Prop) l x :
  StronglySorted R l -> Forall (fun y => R y x) l -> StronglySorted R (l ++ [x]).
Proof.
  induction 1 as [|y l Hs IH Hall]; intros Hx; cbn; [repeat constructor|].
  apply Forall_cons in Hx as [Hyx Hx]. constructor; [by apply IH|].
  apply Forall_app. split; [done|]. by constructor.
Qed.

Lemma maps_descending h mask ms :
  wf_maps h mask ms -> sorted_maps h ms -> descending h (reverse ms).
Proof.
  intros Hms Hs. revert Hms. induction Hs as [|l ms Hs IH Hall]; intros Hms; [constructor|].
  rewrite reverse_cons. apply StronglySorted_snoc.
  { apply IH. destruct Hms as [Hal Hr Hd Hn Hp]. apply NoDup_cons in Hn as [_ Hn].
    assert (He : forall l' r, entry h ms l' r -> entry h (l :: ms) l' r).
    { intros l' r ?. apply entry_cons. by right. }
    split; eauto.
    - intros l' ?. apply Hal. by apply list_elem_of_further.
    - intros l1 r1 l2 r2 a ?%He ?%He. by eapply Hd.
    - intros l' ?. apply Hp. by apply list_elem_of_further. }
  apply Forall_forall. intros l' Hl'. rewrite elem_of_reverse in Hl'.
  pose proof (proj1 (Forall_forall _ _) Hall l' Hl') as Hle. cbn in Hle.
  pose proof (wm_nodup _ _ _ Hms) as Hnd. apply NoDup_cons in Hnd as [Hnd _].
  destruct (wm_alive _ _ _ Hms l) as [r Hr]; [by apply list_elem_of_here|].
  destruct (wm_alive _ _ _ Hms l') as [r' Hr']; [by apply list_elem_of_further|].
  unfold base_of, limit_of in *. rewrite Hr, Hr' in *. cbn in *.
  assert (He : entry h (l :: ms) l r) by (apply entry_cons; by left).
  assert (He' : entry h (l :: ms) l' r') by (split; [by apply list_elem_of_further|done]).
  destruct (decide (limit_address r <= base_address r')); [done|]. exfalso. apply Hnd.
  pose proof (ro_order _ _ (wm_range _ _ _ Hms _ _ He')).
  assert (l = l') as ->; [|done].
  eapply (wm_disjoint _ _ _ Hms l r l' r' (base_address r')); try done; apply Contains_iff; lia.
Qed.

(** What the search is given. *)
Record searchable (h : Heap) (mask : Z) (rl : list loc) : Prop := {
  sr_alive l : l ∈ rl -> exists r, objs h !! l = Some r /\ range_ok mask r;
  sr_desc : descending h rl
}.

Lemma searchable_cons h mask hi rl : searchable h mask (hi :: rl) ->
  searchable h mask rl /\ exists r, objs h !! hi = Some r /\ range_ok mask r /\
    forall l r', entry h rl l r' -> limit_address r' <= base_address r.
Proof.
  intros [Hal Hd]. destruct (Hal hi) as (r & Hr & Hro); [by apply list_elem_of_here|].
  inversion Hd as [|? ? Hd' Hall]; subst. split.
  - split; [|done]. intros l ?. apply Hal. by apply list_elem_of_further.
  - exists r. split_and!; try done. intros l r' [Hin Hl].
    pose proof (proj1 (Forall_forall _ _) Hall l Hin) as Hle. unfold base_of, limit_of in Hle.
    by rewrite Hr, Hl in Hle.
Qed.

(** The interval lies inside a single unmapped range. *)
Definition inside_invalid (h : Heap) (rl : list loc) (hole size : Z) : Prop :=
  exists l r, entry h rl l r /\ valid r = false /\ base_address r <= hole /\ hole + size <= limit_address r.

(** [hole] is a good answer. *)
Record hole_ok (h : Heap) (mask : Z) (rl : list loc) (mn mx size hole : Z) : Prop := {
  hl_min : mn <= hole;
  hl_max : hole + size <= mx;
  hl_free l r a : entry h rl l r -> Contains r a = true -> hole <= a < hole + size -> valid r = false;
  hl_aligned : aligned mx -> aligned size -> mx <= mask -> aligned hole;
  hl_inside : inside_invalid h rl hole size \/ forall l r, entry h rl l r -> Contains r hole = false
}.

(** An invalid range with room for the request. *)
Definition roomy (h : Heap) (rl : list loc) (mn mx size : Z) : Prop :=
  exists l r, entry h rl l r /\ valid r = false /\
    size <= Z.min mx (limit_address r) - Z.max mn (base_address r).

(** One candidate interval [[low_limit, high_base)]. *)
Definition candidate (rest : outcome (bool * Z)) (mn mx size high_base low_limit : Z) : outcome (bool * Z) :=
  if high_base <? mn then Ok (false, 0)
  else
    check (low_limit <=? high_base) ;;
    if mx <=? low_limit then rest
    else
      let alloc_max := Z.min mx high_base in
      let alloc_min := Z.max mn low_limit in
      let avail_size := sub64 alloc_max alloc_min in
      if avail_size <? size then rest
      else
        let hole := sub64 alloc_max size in
        check (alloc_min <=? hole) ;;
        Ok (true, hole).

Lemma candidate_spec rest mn mx size hb ll :
  0 <= mn < mx -> mx < two64 -> 0 < size -> 0 <= ll <= hb ->
  (candidate rest mn mx size hb ll = Ok (false, 0) /\ hb < mn) \/
  (candidate rest mn mx size hb ll = rest /\ Z.min mx hb - Z.max mn ll < size) \/
  (exists hole, candidate rest mn mx size hb ll = Ok (true, hole) /\
     hole = Z.min mx hb - size /\ Z.max mn ll <= hole).
Proof.
  intros Hm Hx Hs Hl. unfold candidate. destruct (Z.ltb_spec hb mn); [by left|right].
  destruct (Z.leb_spec ll hb); [|lia]. cbn [check mbind outcome_bind].
  destruct (Z.leb_spec mx ll); [left; split; [done|lia]|].
  rewrite (sub64_small (Z.min mx hb) (Z.max mn ll)) by lia.
  destruct (Z.ltb_spec (Z.min mx hb - Z.max mn ll) size); [left; split; [done|lia]|right].
  rewrite sub64_small by lia. destruct (Z.leb_spec (Z.max mn ll) (Z.min mx hb - size)); [|lia].
  cbn. eexists. split; [done|]. lia.
Qed.

Lemma min_aligned mask mx hb :
  aligned mx -> mx <= mask -> aligned hb \/ hb = mask -> aligned (Z.min mx hb).
Proof. intros Ha Hm [Hb| ->]; [destruct (Z.min_spec mx hb) as [[_ ->]|[_ ->]]; done|by rewrite Z.min_l]. Qed.

Lemma find_hole_spec h mask rl mn mx size :
  wf_heap h -> searchable h mask rl -> 0 <= mn < mx -> mx < two64 -> 0 < size ->
  exists b hole, find_hole h rl mn mx size = Ok (b, hole) /\
    (b = true -> hole_ok h mask rl mn mx size hole /\
       forall l r, rl = l :: tail rl -> objs h !! l = Some r -> hole + size <= limit_address r) /\
    (roomy h rl mn mx size -> b = true).
Proof.
  intros Hwf Hsr Hm Hx Hs. induction rl as [|hi rest IH].
  { exists false, 0. split_and!; try done. by intros (l & r & []%entry_nil & _). }
  apply searchable_cons in Hsr as [Hsr (r & Hr & Hro & Hbelow)].
  destruct (IH Hsr) as (b & hole & Hfind & Hok & Hroom). clear IH.
  destruct (ro_order _ _ Hro) as [Hb0 Hbl].
  assert (Hent : forall l r', entry h (hi :: rest) l r' -> (l = hi /\ r' = r) \/ entry h rest l r').
  { intros l r' [[-> ?]|?]%entry_cons; [left; split; [done|congruence]|by right]. }
  assert (Hrest : b = true -> hole_ok h mask (hi :: rest) mn mx size hole /\ hole + size <= limit_address r).
  { intros Hb. destruct (Hok Hb) as [[H1 H2 H3 H4 Hin] H5].
    assert (Hhb : hole + size <= base_address r).
    { destruct rest as [|lo rest']; [by cbn in Hfind; simplify_eq|].
      destruct (sr_alive _ _ _ Hsr lo) as (rlo & Hlo & _); [by apply list_elem_of_here|].
      pose proof (H5 lo rlo eq_refl Hlo). pose proof (Hbelow lo rlo). etrans; [done|].
      apply (Hbelow lo rlo). apply entry_cons. by left. }
    split; [|lia]. split; try done.
    - intros l r' a [[-> ->]|He]%Hent Hc Ha; [|by eapply H3]. apply Contains_iff in Hc. lia.
    - destruct Hin as [(l & r' & He & ?)|Hno]; [left; exists l, r'; split; [apply entry_cons; by right|done]|right].
      intros l r' [[-> ->]|He]%Hent; [|by eapply Hno]. apply not_true_iff_false. rewrite Contains_iff. lia. }
  assert (Hhole : forall hb ll, hb = limit_address r /\ ll = base_address r /\ valid r = false \/
             hb = base_address r /\ (forall l r', entry h rest l r' -> limit_address r' <= ll) ->
           Z.max mn ll <= Z.min mx hb - size -> 
           hole_ok h mask (hi :: rest) mn mx size (Z.min mx hb - size) /\
           Z.min mx hb - size + size <= limit_address r).
  { intros hb ll Hor Hle. split; [|lia]. split; [lia|lia| | |].
    - intros l r' a [[-> ->]|He]%Hent Hc%Contains_iff Ha.
      + destruct Hor as [(-> & -> & ?)|[-> _]]; [done|lia].
      + destruct Hor as [(-> & -> & ?)|[-> Hlo]]; [pose proof (Hbelow l r' He)|pose proof (Hlo l r' He)]; lia.
    - intros Hamx Has Hmk. apply aligned_sub; [|done]. eapply min_aligned; [done|done|].
      destruct Hor as [(-> & _)|[-> _]]; [apply Hro|left; apply Hro].
    - destruct Hor as [(-> & -> & Hv)|[-> Hlo]].
      + left. exists hi, r. split; [apply entry_cons; by left|]. split; [done|]. lia.
      + right. intros l r' [[-> ->]|He]%Hent; apply not_true_iff_false; rewrite Contains_iff; [lia|].
        pose proof (Hlo l r' He). lia. }
  assert (Hfinish : forall hb ll, hb = limit_address r /\ ll = base_address r /\ valid r = false \/
             (hb = base_address r /\ valid r = true /\ (forall l r', entry h rest l r' -> limit_address r' <= ll)) ->
             0 <= ll <= hb ->
     exists b hole, candidate (find_hole h rest mn mx size) mn mx size hb ll = Ok (b, hole) /\
       (b = true -> hole_ok h mask (hi :: rest) mn mx size hole /\ hole + size <= limit_address r) /\
       (roomy h (hi :: rest) mn mx size -> b = true)).
  { intros hb ll Hor Hll.
    destruct (candidate_spec (find_hole h rest mn mx size) mn mx size hb ll)
      as [[-> Hlt]|[[-> Hlt]|(hole' & -> & -> & Hle)]]; try done.
    - exists false, 0. split_and!; try done. intros (l & r' & [[-> ->]|He]%Hent & Hv & Hsz).
      + destruct Hor as [(-> & -> & _)|(_ & Hv' & _)]; [lia|congruence].
      + pose proof (Hbelow l r' He). destruct Hor as [(-> & -> & _)|(-> & _)]; lia.
    - exists b, hole. split_and!; try done. intros (l & r' & [[-> ->]|He]%Hent & Hv & Hsz).
      + destruct Hor as [(-> & -> & _)|(_ & Hv' & _)]; [lia|congruence].
      + apply Hroom. by exists l, r'.
    - eexists true, _. split_and!; try done. intros _. apply (Hhole hb ll); [|done].
      destruct Hor as [?|(? & _ & ?)]; [by left|by right]. }
  cbn [find_hole tail]. rewrite (get_Some h hi r Hr). cbn [mbind outcome_bind].
  rewrite (IsValid_spec h hi r Hwf Hr). cbn [mbind outcome_bind].
  assert (Hwrap : forall m, (exists b hole, m = Ok (b, hole) /\
       (b = true -> hole_ok h mask (hi :: rest) mn mx size hole /\ hole + size <= limit_address r) /\
       (roomy h (hi :: rest) mn mx size -> b = true)) ->
     exists b hole, m = Ok (b, hole) /\
       (b = true -> hole_ok h mask (hi :: rest) mn mx size hole /\
          forall l r, hi :: rest = l :: rest -> objs h !! l = Some r -> hole + size <= limit_address r) /\
       (roomy h (hi :: rest) mn mx size -> b = true)).
  { intros m (b' & hole' & -> & H1 & H2). exists b', hole'. split_and!; try done.
    intros Hb'. destruct (H1 Hb') as [? ?]. split; [done|]. intros l r' [= <-] Hl. congruence. }
  apply Hwrap. destruct (valid r) eqn:Ev.
  - destruct rest as [|lo rest'] eqn:Erest.
    + cbn. exists false, 0. split_and!; try done. intros (l & r' & [[-> ->]|[]%entry_nil]%Hent & Hv & _).
      congruence.
    + destruct (sr_alive _ _ _ Hsr lo) as (rlo & Hlo & Hrlo); [by apply list_elem_of_here|].
      rewrite (get_Some h lo rlo Hlo). cbn [mbind outcome_bind].
      assert (Helo : entry h (lo :: rest') lo rlo) by (apply entry_cons; by left).
      apply Hfinish.
      * right. split_and!; try done. intros l r' [[-> ?]|He]%entry_cons; [by simplify_eq|].
        apply searchable_cons in Hsr as [_ (rlo' & ? & _ & Hb')]. simplify_eq.
        pose proof (Hb' l r' He). destruct (ro_order _ _ Hrlo). lia.
      * pose proof (Hbelow lo rlo Helo). destruct (ro_order _ _ Hrlo). lia.
  - cbn [mbind outcome_bind]. apply Hfinish; [by left|lia].
Qed.

(** ** The whole search *)

Lemma FindHole_spec h s mn mx size :
  wf_heap h -> wf_space h s -> u64 mn -> u64 mx -> 0 < size <= two64 - kPageSize ->
  exists b hole, FindHole h s mn mx size = Ok (b, hole) /\
    (b = true -> AlignDownToPage mn <= hole /\ hole + size <= AlignDownToPage mx /\
       (AlignDownToPage mx <= addr_mask s -> aligned hole /\ inside_invalid h (maps s) hole (RoundUpToPage size)) /\
       forall a, hole <= a < hole + RoundUpToPage size -> abs h s a = None) /\
    (roomy h (maps s) (AlignDownToPage mn) (AlignDownToPage mx) (RoundUpToPage size) -> b = true).
Proof.
  intros Hwf Hw Hmn Hmx Hs. unfold FindHole. destruct (Z.eqb_spec size 0); [lia|]. cbv zeta.
  pose proof (AlignDownToPage_range _ Hmn). pose proof (AlignDownToPage_range _ Hmx).
  destruct (RoundUpToPage_range size) as [Hr Hra]; [lia|]. unfold u64 in *.
  destruct (Z.leb_spec (AlignDownToPage mx) (AlignDownToPage mn)).
  { exists false, 0. split_and!; try done. intros (l & r & _ & _ & Hsz). lia. }
  rewrite sub64_small by lia.
  destruct (Z.ltb_spec (AlignDownToPage mx - AlignDownToPage mn) (RoundUpToPage size)).
  { exists false, 0. split_and!; try done. intros (l & r & _ & _ & Hsz). lia. }
  assert (Hent : forall l r, entry h (reverse (maps s)) l r <-> entry h (maps s) l r).
  { intros l r. unfold entry. by rewrite elem_of_reverse. }
  destruct (find_hole_spec h (addr_mask s) (reverse (maps s)) (AlignDownToPage mn) (AlignDownToPage mx)
    (RoundUpToPage size)) as (b & hole & -> & Hok & Hroom); try done; try lia.
  { split; [|eapply maps_descending; [apply (ws_maps _ _ Hw)|apply Hw]].
    intros l Hl. rewrite elem_of_reverse in Hl. destruct (wm_alive _ _ _ (ws_maps _ _ Hw) l Hl) as [r Hlr].
    exists r. split; [done|]. by eapply (wm_range _ _ _ (ws_maps _ _ Hw) l). }
  exists b, hole. split_and!; [done| |].
  - intros Hb. destruct (Hok Hb) as [[Hh1 Hh2 Hh3 Hh4 Hh5] _]. split_and!; [done|lia| |].
    + intros Htop. split; [apply Hh4; [by apply AlignDownToPage_aligned|done|done]|].
      destruct Hh5 as [(l & r & He%Hent & Hin)|Hno]; [by exists l, r|]. exfalso.
      destruct (ws_cover _ _ Hw hole) as (l & r & He%Hent & Hc); [lia|]. by rewrite (Hno l r He) in Hc.
    + intros a Ha. destruct (abs h s a) eqn:Ea; [|done].
      apply (abs_Some _ _ _ _ Hw) in Ea as (l & r & He%Hent & Hc & Hv & _).
      pose proof (Hh3 l r a He Hc Ha). congruence.
  - intros (l & r & He & ?). apply Hroom. exists l, r. by rewrite Hent.
Qed.
