(* ===== verification/CloneProps.v ===== *)
(** * Cloning an address space (fork)

    The copy constructor of [AddressSpace] gives the child a memory equal to
    the parent's without changing the parent's, and the two share no range
    that can be written: array ranges become copy-on-write children of a
    hidden parent. *)

From S2P Require Import Prelude Pages MappedRange RangeProps AddressSpace SpaceInv RemoveRangeProps IndexProps MapChange Lookup ReadProps WriteProps.

(** The heap after cloning: old objects read as before. *)
Record clone_ext (h h' : Heap) : Prop := {
  ce_wf : wf_heap h';
  ce_keeps : keeps h h';
  ce_view l r : objs h !! l = Some r ->
    exists r', objs h' !! l = Some r' /\ same_bounds r r' /\ valid r' = valid r /\
      forall a, view h' r' a = view h r a
}.

Lemma clone_ext_refl h : wf_heap h -> clone_ext h h.
Proof. intros Hwf. split; [done| |intros l r ?; by exists r]. split; [intros l r ?; by exists r|done]. Qed.

Lemma clone_ext_trans h1 h2 h3 : clone_ext h1 h2 -> clone_ext h2 h3 -> clone_ext h1 h3.
Proof.
  intros [Hw1 [Ho1 Hp1] Hv1] [Hw2 [Ho2 Hp2] Hv2].
  assert (Hview : forall l r, objs h1 !! l = Some r ->
    exists r', objs h3 !! l = Some r' /\ same_bounds r r' /\ valid r' = valid r /\ forall a, view h3 r' a = view h1 r a).
  { intros l r Hl. destruct (Hv1 l r Hl) as (r1 & Hl1 & [Hb1 Hb1'] & Hva1 & Hvw1).
    destruct (Hv2 l r1 Hl1) as (r2 & Hl2 & [Hb2 Hb2'] & Hva2 & Hvw2). exists r2. unfold same_bounds.
    split_and!; congruence. }
  split; [done| |done]. split.
  - intros l r (r' & ? & ? & ? & _)%Hview. by exists r'.
  - intros l [r Hl] Hip. apply Hp1; [done|]. apply Hp2; [|done]. destruct (Ho1 l r Hl) as (? & -> & _). done.
Qed.

Lemma clone_post_ext h h' l l' r :
  objs h !! l = Some r -> clone_post h h' l l' r -> clone_ext h h'.
Proof.
  intros Hl [Hwf Hfr (r1 & Hl1 & Hb1 & Hk1 & Hv1) _ Hframe Hpo _].
  assert (Hview : forall l0 r0, objs h !! l0 = Some r0 ->
    exists r', objs h' !! l0 = Some r' /\ same_bounds r0 r' /\ valid r' = valid r0 /\ forall a, view h' r' a = view h r0 a).
  { intros l0 r0 Hl0. destruct (decide (l0 = l)) as [->|Hne].
    - simplify_eq. exists r1. split; [done|]. split; [done|]. split; [|done].
      unfold valid. f_equal. by apply bool_decide_ext.
    - destruct (Hframe l0 r0 Hne Hl0) as [? ?]. by exists r0. }
  split; [done| |done]. split; [|done]. intros l0 r0 (r' & ? & ? & ? & _)%Hview. by exists r'.
Qed.

(** One entry of the map list and its clone. *)
Record cloned (h h' : Heap) (l l' : loc) : Prop := {
  cd_range : exists r r', objs h !! l = Some r /\ objs h' !! l' = Some r' /\ same_bounds r r' /\
    valid r' = valid r /\ (forall a, view h' r' a = view h r a) /\
    ((l' = l /\ valid r = false) \/ objs h !! l' = None);
  cd_parent : ~ is_parent h' l'
}.

Lemma cloned_later h h1 h2 l l' :
  clone_ext h1 h2 -> cloned h h1 l l' -> cloned h h2 l l'.
Proof.
  intros Hx [(r & r' & Hl & Hl' & [Hb1 Hb1'] & Hv & Hvw & Hor) Hnp]. split.
  - destruct (ce_view _ _ Hx l' r' Hl') as (r2 & Hl2 & [Hb2 Hb2'] & Hv2 & Hvw2). exists r, r2. unfold same_bounds.
    split_and!; try done; congruence.
  - intros Hip%(kp_parent _ _ (ce_keeps _ _ Hx)); [done|by rewrite Hl'].
Qed.

Lemma cloned_earlier h h1 h2 l l' :
  clone_ext h h1 -> is_Some (objs h !! l) -> cloned h1 h2 l l' -> cloned h h2 l l'.
Proof.
  intros Hx [q0 Hq0] [(q & q' & Hq & Hq' & [Hb Hb'] & Hv & Hvw & Hor) Hnp]. split; [|done].
  destruct (ce_view _ _ Hx l q0 Hq0) as (q1 & Hq1 & [Hb1 Hb1'] & Hv1 & Hvw1).
  simplify_eq. exists q0, q'. unfold same_bounds. split_and!; try congruence.
  destruct Hor as [[-> ?]|Hn]; [left; split; congruence|right].
  destruct (objs h !! l') as [r2|] eqn:E; [|done]. destruct (ce_view _ _ Hx l' r2 E) as (? & ? & _). congruence.
Qed.

Lemma clone_one h l r :
  wf_heap h -> objs h !! l = Some r -> ~ is_parent h l ->
  exists l' h', (valid ← IsValid h l; if (valid : bool) then Clone h l else Ok (l, h)) = Ok (l', h') /\
    clone_ext h h' /\ cloned h h' l l'.
Proof.
  intros Hwf Hl Hnp. rewrite (IsValid_spec h l r Hwf Hl). cbn [mbind outcome_bind].
  destruct (valid r) eqn:Ev.
  - destruct (Clone_spec h l r Hwf Hl Hnp) as (l' & h' & -> & Hp). exists l', h'.
    split; [done|]. split; [by eapply clone_post_ext|].
    destruct Hp as [_ Hfr _ (r2 & Hl2 & Hb & Hk & Hv) _ _ Hpn]. split; [|done]. exists r, r2.
    split; [done|]. split; [done|]. split; [done|]. split; [|split; [done|by right]].
    unfold valid. f_equal. by apply bool_decide_ext.
  - exists l, h. split; [done|]. split; [by apply clone_ext_refl|]. split; [|done].
    exists r, r. split_and!; try done. by left.
Qed.

Lemma clone_maps_spec h ms :
  wf_heap h -> (forall l, l ∈ ms -> is_Some (objs h !! l) /\ ~ is_parent h l) -> NoDup ms ->
  exists ms' h', clone_maps h ms = Ok (ms', h') /\ clone_ext h h' /\ Forall2 (cloned h h') ms ms' /\
    NoDup ms' /\ (forall l', l' ∈ ms' -> l' ∈ ms \/ objs h !! l' = None).
Proof.
  revert h. induction ms as [|l ms IH]; intros h Hwf Hal Hnd.
  { exists [], h. split_and!; try done; [by apply clone_ext_refl|by intros l' ?%elem_of_nil]. }
  apply NoDup_cons in Hnd as [Hnin Hnd].
  destruct (Hal l) as [[r Hl] Hnp]; [by apply list_elem_of_here|].
  destruct (clone_one h l r Hwf Hl Hnp) as (l' & h1 & Hone & Hx1 & Hc1).
  assert (Halive : forall l0, l0 ∈ ms -> is_Some (objs h !! l0)).
  { intros l0 ?. apply Hal. by apply list_elem_of_further. }
  destruct (IH h1) as (ms' & h2 & Hrest & Hx2 & Hc2 & Hnd2 & Hold); [apply Hx1| |done|].
  { intros l0 Hl0. destruct (Hal l0) as [[r0 Hr0] Hnp0]; [by apply list_elem_of_further|]. split.
    - destruct (ce_view _ _ Hx1 l0 r0 Hr0) as (? & -> & _). done.
    - intros Hip%(kp_parent _ _ (ce_keeps _ _ Hx1)); [done|by rewrite Hr0]. }
  exists (l' :: ms'), h2. cbn [clone_maps].
  destruct (IsValid h l) as [v| | |]; try done. cbn [mbind outcome_bind] in *.
  rewrite Hone. cbn [mbind outcome_bind]. rewrite Hrest. cbn [mbind outcome_bind].
  destruct (cd_range _ _ _ _ Hc1) as (r0 & r' & Hr0 & Hl' & _ & _ & _ & Hor).
  assert (Hback : forall l0, l0 ∈ ms' -> l0 ∈ ms \/ objs h !! l0 = None).
  { intros l0 [?|Hn]%Hold; [by left|right]. destruct (objs h !! l0) as [r2|] eqn:E; [|done].
    destruct (ce_view _ _ Hx1 l0 r2 E) as (? & ? & _). congruence. }
  split_and!; [done|by eapply clone_ext_trans|..].
  - constructor; [by eapply cloned_later|]. eapply Forall2_impl_in; [done|].
    intros l0 l1 Hin Hcl. apply (cloned_earlier h h1 h2); auto.
  - apply NoDup_cons. split; [|done]. intros [Hin|Hn]%Hold; [|congruence].
    destruct Hor as [[-> _]|Hn]; [done|]. destruct (Halive l' Hin). congruence.
  - intros l0 [->|Hin]%elem_of_cons.
    + destruct Hor as [[-> _]|?]; [left; by apply list_elem_of_here|by right].
    + destruct (Hback l0 Hin); [left; by apply list_elem_of_further|by right].
Qed.

(** ** The cloned map list *)

Lemma cloned_abs h h' ms ms' a :
  Forall2 (cloned h h') ms ms' -> abs_maps h' ms' a = abs_maps h ms a.
Proof.
  induction 1 as [|l l' ms ms' [(r & r' & Hl & Hl' & Hb & Hv & Hvw & _) _] _ IH]; [done|]. cbn.
  rewrite Hl, Hl', (same_bounds_Contains r r' a Hb), Hv, (value_at_view _ _ _ _ _ _ (Hvw a)), IH. done.
Qed.

Lemma cloned_entry h h' ms ms' l' r' :
  Forall2 (cloned h h') ms ms' -> entry h' ms' l' r' ->
  exists i l r, ms !! i = Some l /\ ms' !! i = Some l' /\ objs h !! l = Some r /\ same_bounds r r' /\
    valid r' = valid r /\ ((l' = l /\ valid r = false) \/ objs h !! l' = None) /\ ~ is_parent h' l'.
Proof.
  intros Hf [Hin Hl']. apply list_elem_of_lookup in Hin as [i Hi].
  destruct (Forall2_lookup_r _ _ _ _ _ Hf Hi) as (l & Hli & [(r & r2 & Hl & Hl2 & Hb & Hv & _ & Hor) Hnp]).
  simplify_eq. by exists i, l, r.
Qed.

Lemma cloned_wf_maps h h' mask ms ms' :
  wf_maps h mask ms -> Forall2 (cloned h h') ms ms' -> NoDup ms' -> wf_maps h' mask ms'.
Proof.
  intros [Hal Hr Hd Hn Hp] Hf Hnd.
  assert (Halive : forall l', l' ∈ ms' -> exists r', entry h' ms' l' r').
  { intros l' Hin. pose proof Hin as Hin'. apply list_elem_of_lookup in Hin as [i Hi].
    destruct (Forall2_lookup_r _ _ _ _ _ Hf Hi) as (l & _ & [(r & r2 & _ & Hl2 & _) _]). by exists r2. }
  split; try done.
  - intros l' (r' & _ & ->)%Halive. done.
  - intros l' r' (i & l & r & Hi & _ & Hl & [Hb1 Hb2] & Hv & _)%(cloned_entry h h' ms ms' l' r' Hf).
    destruct (Hr l r) as [? ? ? ? ?]; [split; [by eapply list_elem_of_lookup_2|done]|].
    split; rewrite ?Hb1, ?Hb2, ?Hv; done.
  - intros l1 r1 l2 r2 a H1 H2 Hc1 Hc2.
    destruct (cloned_entry h h' ms ms' l1 r1 Hf H1) as (i1 & q1 & s1 & Hi1 & Hi1' & Hq1 & Hb1 & _).
    destruct (cloned_entry h h' ms ms' l2 r2 Hf H2) as (i2 & q2 & s2 & Hi2 & Hi2' & Hq2 & Hb2 & _).
    rewrite (same_bounds_Contains s1) in Hc1 by done. rewrite (same_bounds_Contains s2) in Hc2 by done.
    assert (q1 = q2) as ->.
    { eapply Hd; [..|exact Hc1|exact Hc2]; (split; [by eapply list_elem_of_lookup_2|done]). }
    assert (i1 = i2) as -> by exact (NoDup_lookup _ _ _ _ Hn Hi1 Hi2). congruence.
  - intros l' (r' & He)%Halive. by destruct (cloned_entry h h' ms ms' l' r' Hf He) as (? & ? & ? & _ & _ & _ & _ & _ & _ & ?).
Qed.

(** What forking guarantees. *)
Record forked (h : Heap) (p : AddressSpace) (h' : Heap) (s : AddressSpace) : Prop := {
  fk_wf : wf_heap h';
  fk_parent : wf_space h' p;
  fk_child : wf_space h' s;
  fk_abs a : abs h' s a = abs h p a;
  fk_parent_abs a : abs h' p a = abs h p a;
  fk_iso : isolated h' p s /\ isolated h' s p;
  fk_fresh l r : entry h' (maps s) l r -> valid r = false \/ objs h !! l = None;
  fk_perms pg : CanReadAligned s pg = CanReadAligned p pg /\ CanWriteAligned s pg = CanWriteAligned p pg /\
    CanExecuteAligned s pg = CanExecuteAligned p pg;
  fk_rest : addr_mask s = addr_mask p /\ trace_heads s = trace_heads p
}.

Lemma clone_ext_abs h h' s a :
  clone_ext h h' -> wf_space h s -> abs h' s a = abs h s a.
Proof.
  intros Hx Hw. unfold abs. pose proof (wm_alive _ _ _ (ws_maps _ _ Hw)) as Hal. revert Hal.
  induction (maps s) as [|l ms IH]; intros Hal; [done|]. cbn.
  destruct (Hal l) as [r Hl]; [by apply list_elem_of_here|].
  destruct (ce_view _ _ Hx l r Hl) as (r' & Hl' & Hb & Hv & Hvw).
  rewrite Hl, Hl', (same_bounds_Contains r r' a Hb), Hv, (value_at_view _ _ _ _ _ _ (Hvw a)).
  rewrite IH; [done|]. intros l0 ?. apply Hal. by apply list_elem_of_further.
Qed.

Lemma AddressSpace_clone_spec h p :
  wf_heap h -> wf_space h p ->
  exists h' s, AddressSpace_clone h p = Ok (h', s) /\ forked h p h' s /\ clone_ext h h'.
Proof.
  intros Hwf Hw. pose proof (ws_maps _ _ Hw) as Hms. unfold AddressSpace_clone.
  destruct (clone_maps_spec h (maps p)) as (ms' & h' & -> & Hx & Hf & Hnd & Hold); [done| |apply Hms|].
  { intros l Hl. split; [by apply Hms|by apply (wm_not_parent _ _ _ Hms)]. }
  cbn [mbind outcome_bind]. set (s0 := MkAS ms' _ _ _ _ _ _ _ _ _ _ _ _).
  destruct (wf_space_create h' s0) as (s & -> & Hws & Hp & Hsame); [apply Hx| |].
  { split; cbn; try apply Hw.
    - by eapply cloned_wf_maps.
    - intros a (l & r & [Hin Hl] & Hc)%(ws_cover _ _ Hw). apply list_elem_of_lookup in Hin as [i Hi].
      destruct (Forall2_lookup_l _ _ _ _ _ Hf Hi) as (l' & Hi' & [(r1 & r2 & Hl1 & Hl2 & Hb & _) _]). simplify_eq.
      exists l', r2. split; [split; [by eapply list_elem_of_lookup_2|done]|]. by rewrite (same_bounds_Contains r).
    - destruct (ws_invalid _ _ Hw) as (r & Hr & Hk). eapply keeps_invalid; [apply Hx|done|done]. }
  cbn [mbind outcome_bind]. exists h', s. split; [done|]. split; [|done]. cbn [maps s0] in Hp.
  assert (Hfresh : forall l r, entry h' (maps s) l r -> valid r = false \/ objs h !! l = None).
  { intros l r He. assert (He' : entry h' ms' l r) by (destruct He as [Hi ?]; split; [by rewrite Hp in Hi|done]).
    destruct (cloned_entry h h' (maps p) ms' l r Hf He') as (_ & l0 & r0 & _ & _ & _ & _ & Hv & Hor & _).
    destruct Hor as [[-> ?]|Hn]; [left; congruence|by right]. }
  assert (Hiso : forall l r, l ∈ maps p -> entry h' (maps s) l r -> valid r = false).
  { intros l r Hin [?|Hn]%Hfresh; [done|]. destruct (wm_alive _ _ _ Hms l Hin). congruence. }
  destruct Hsame as (Hm & Hin & Hr & Hwr & Hex & Hth & Hd).
  split; try done.
  - apply Hx.
  - eapply keeps_wf_space; [apply Hx|done].
  - intros a. unfold abs. rewrite (abs_maps_perm h' (maps s) ms'); [by eapply cloned_abs|done|apply Hws].
  - intros a. by apply clone_ext_abs.
  - split; [exact Hiso|]. intros l r Hl [Hlp Hlr]. apply (Hiso l r Hlp). by split.
  - intros pg. unfold CanReadAligned, CanWriteAligned, CanExecuteAligned. by rewrite Hr, Hwr, Hex.
Qed.
