(* ===== verification/SpaceTheorems.v ===== *)
(** * What an address space promises

    The correctness statements for [AddressSpace] and [MappedRange], each a
    consequence of the lemmas of the preceding files, with concrete instances,
    and the deviations of the code from its documentation. *)

From S2P Require Import Prelude Pages MappedRange RangeProps AddressSpace SpaceInv RemoveRangeProps IndexProps MapChange Lookup ReadProps WriteProps HoleProps CloneProps.

(** ** Concrete spaces for the instances *)

(** A 64-bit space with the two pages from [0x1000] mapped. *)
Definition demo : outcome (Heap * AddressSpace) :=
  '(h, s) ← AddressSpace_new empty_heap 64;
  AddMap h s 4096 8192 None 0.

(** An executable version of [all_removable]. *)
Definition removableb (r : MappedRange) (base limit : Z) : bool :=
  negb ((base <? base_address r) && (base_address r <? limit) && (limit <? limit_address r)) &&
  (negb (bool_decide (kind r = CopyOnWriteMemoryMap)) ||
   (limit_address r <=? base) || (limit <=? base_address r) ||
   ((base <=? base_address r) && (limit_address r <=? limit))).

Definition all_removableb (h : Heap) (s : AddressSpace) (base_ size : Z) : bool :=
  forallb (fun l => match objs h !! l with
                    | Some r => removableb r (AlignDownToPage base_) (request_limit base_ size)
                    | None => true end) (maps s).

Lemma removableb_ok r base limit : removableb r base limit = true -> removable r base limit.
Proof.
  unfold removableb, removable, left_overlap, untouched. intros H.
  apply andb_true_iff in H as [H1 H2]. split.
  - intros ((? & ?) & ?). apply negb_true_iff in H1. rewrite !andb_false_iff, !Z.ltb_ge in H1. lia.
  - intros Hk. rewrite (bool_decide_eq_true_2 _ Hk) in H2. cbn in H2.
    rewrite !orb_true_iff, andb_true_iff, !Z.leb_le in H2. lia.
Qed.

Lemma all_removableb_ok h s base_ size :
  all_removableb h s base_ size = true -> all_removable h s base_ size.
Proof.
  intros Hf l r [Hin Hl]. unfold all_removableb in Hf. rewrite forallb_forall in Hf.
  specialize (Hf l). rewrite <- list_elem_of_In in Hf. specialize (Hf Hin). rewrite Hl in Hf. by apply removableb_ok.
Qed.

Lemma wf_empty_heap : wf_heap empty_heap.
Proof. split; intros l r H; change (objs empty_heap) with (∅ : gmap loc MappedRange) in H; by rewrite lookup_empty in H. Qed.

Lemma request_ok_intro s base_ size :
  (0 <=? base_) && (base_ <? two64) && (0 <? size) &&
  (AlignDownToPage base_ + size <=? addr_mask s + 1 - kPageSize) = true -> request_ok s base_ size.
Proof.
  intros H. rewrite !andb_true_iff, !Z.leb_le, !Z.ltb_lt in H.
  destruct H as [[[? ?] ?] ?]. split; unfold u64; lia.
Qed.

Definition new64 : Heap * AddressSpace :=
  match AddressSpace_new empty_heap 64 with Ok p => p | _ => (empty_heap, MkAS [] ∅ ∅ 0 0 1 ∅ ∅ ∅ ∅ ∅ ∅ true) end.

Lemma new64_ok : AddressSpace_new empty_heap 64 = Ok new64 /\ wf_heap (fst new64) /\ wf_space (fst new64) (snd new64).
Proof.
  destruct (AddressSpace_new_spec empty_heap 64 wf_empty_heap) as (h & s & Heq & Hx & Hw & _).
  unfold new64. rewrite Heq. split_and!; [done|apply Hx|done].
Qed.

Definition demo_state : Heap * AddressSpace := match demo with Ok p => p | _ => new64 end.

Lemma demo_remapped :
  remapped (fst new64) (snd new64) (fst demo_state) (snd demo_state) 4096 8192 (Some 0) true true false.
Proof.
  destruct new64_ok as (Hn & Hwf & Hw).
  destruct (AddMap_spec (fst new64) (snd new64) 4096 8192 None 0) as (h & s & Heq & Hr); [done|done|..].
  - apply request_ok_intro. vm_compute. reflexivity.
  - apply all_removableb_ok. vm_compute. reflexivity.
  - unfold demo_state, demo. rewrite Hn. cbn [mbind outcome_bind].
    destruct new64 as [h0 s0]. cbn [fst snd] in *. by rewrite Heq.
Qed.

Lemma demo_ok : demo = Ok demo_state /\ wf_heap (fst demo_state) /\ wf_space (fst demo_state) (snd demo_state).
Proof.
  pose proof demo_remapped as [Hx Hw _ _ _ _ _]. split_and!; [vm_compute; reflexivity|apply Hx|done].
Qed.

(** ** Mapping and unmapping *)

(** C1: [AddMap] of a non-empty range that ends at least a page below the end
    of a well-formed space: when no existing range is overlapped from the left
    by the new one (starts inside it and goes on behind it) and no
    copy-on-write range is cut, [AddMap] returns and refines the abstract
    operation "map zeroes": the requested pages read as zero and become
    readable and writable but not executable; every other byte, every other
    permission and the trace heads stay; the invariant (disjoint sorted maps
    that cover the space, exact page indices, consistent caches) holds again;
    other spaces keep their invariant and their bytes.  These two conditions
    are necessary: if one fails, [AddMap] does not return a well-formed
    space. *)
Theorem AddMap_refines h s base_ size name_ offset_ :
  wf_heap h -> wf_space h s -> request_ok s base_ size ->
  (all_removable h s base_ size ->
   exists h' s', AddMap h s base_ size name_ offset_ = Ok (h', s') /\
    wf_heap h' /\ wf_space h' s' /\ trace_heads s' = trace_heads s /\
    (forall a, abs h' s' a = if decide (in_request base_ size a) then Some 0 else abs h s a) /\
    perms_set s s' (AlignDownToPage base_) (request_limit base_ size) true true false /\
    (forall s2 a, wf_space h s2 -> wf_space h' s2 /\ abs h' s2 a = abs h s2 a)) /\
  (forall h' s', AddMap h s base_ size name_ offset_ = Ok (h', s') -> wf_space h' s' -> all_removable h s base_ size).
Proof.
  intros Hwf Hw Hrq. split; [|intros; by eapply AddMap_only]. intros Hrem.
  destruct (AddMap_spec h s base_ size name_ offset_ Hwf Hw Hrq Hrem) as (h' & s' & Heq & [Hx Hw' _ Ht Ha Hp _]).
  exists h', s'. split_and!; try done; [apply Hx|]. intros s2 a Hw2.
  split; [eapply keeps_wf_space; [by apply hext_keeps|done]|]. apply abs_maps_hext; [done|done|apply (ws_maps _ _ Hw2)].
Qed.

Lemma AddMap_refines_witness :
  exists h' s', AddMap (fst demo_state) (snd demo_state) 4096 4096 None 0 = Ok (h', s') /\ abs h' s' 5000 = Some 0.
Proof.
  destruct demo_ok as (_ & Hwf & Hw).
  destruct (AddMap_refines (fst demo_state) (snd demo_state) 4096 4096 None 0 Hwf Hw) as [HA _].
  - apply request_ok_intro. vm_compute. reflexivity.
  - destruct HA as (h' & s' & Heq & _ & _ & _ & Ha & _); [apply all_removableb_ok; vm_compute; reflexivity|].
    exists h', s'. split; [exact Heq|]. rewrite Ha. rewrite decide_True; [reflexivity|]. vm_compute. split; congruence.
Defined.

(** C2: [RemoveMap] of a non-empty range that ends at least a page below the
    end of a well-formed space: when no existing range is overlapped from the
    left and no copy-on-write range is cut, [RemoveMap] returns, unmaps
    exactly the requested pages, revokes their permissions and keeps every
    other byte, permission, trace head and space, and the invariant holds
    again.  These two conditions are necessary: if one fails, [RemoveMap] does
    not return a well-formed space. *)
Theorem RemoveMap_refines h s base_ size :
  wf_heap h -> wf_space h s -> request_ok s base_ size ->
  (all_removable h s base_ size ->
   exists h' s', RemoveMap h s base_ size = Ok (h', s') /\
    wf_heap h' /\ wf_space h' s' /\ trace_heads s' = trace_heads s /\
    (forall a, abs h' s' a = if decide (in_request base_ size a) then None else abs h s a) /\
    perms_set s s' (AlignDownToPage base_) (request_limit base_ size) false false false /\
    (forall s2 a, wf_space h s2 -> wf_space h' s2 /\ abs h' s2 a = abs h s2 a)) /\
  (forall h' s', RemoveMap h s base_ size = Ok (h', s') -> wf_space h' s' -> all_removable h s base_ size).
Proof.
  intros Hwf Hw Hrq. split; [|intros; by eapply RemoveMap_only]. intros Hrem.
  destruct (RemoveMap_spec h s base_ size Hwf Hw Hrq Hrem) as (h' & s' & Heq & [Hx Hw' _ Ht Ha Hp _]).
  exists h', s'. split_and!; try done; [apply Hx|]. intros s2 a Hw2.
  split; [eapply keeps_wf_space; [by apply hext_keeps|done]|]. apply abs_maps_hext; [done|done|apply (ws_maps _ _ Hw2)].
Qed.

Lemma RemoveMap_refines_witness :
  exists h' s', RemoveMap (fst demo_state) (snd demo_state) 8192 1 = Ok (h', s') /\
    abs h' s' 8192 = None /\ abs h' s' 4096 = Some 0.
Proof.
  destruct demo_ok as (_ & Hwf & Hw).
  destruct (RemoveMap_refines (fst demo_state) (snd demo_state) 8192 1 Hwf Hw) as [HA _].
  - apply request_ok_intro. vm_compute. reflexivity.
  - destruct HA as (h' & s' & Heq & _ & _ & _ & Ha & _); [apply all_removableb_ok; vm_compute; reflexivity|].
    exists h', s'. split; [exact Heq|]. split; rewrite Ha.
    + rewrite decide_True; [reflexivity|]. vm_compute. split; congruence.
    + rewrite decide_False; [vm_compute; reflexivity|]. vm_compute. intros [H _]. by apply H.
Defined.

(** [SetPermissions] returns for every base and size, changes the
    permissions of exactly the pages of the rounded interval, rebuilds the
    indices and leaves the memory alone. *)
Theorem SetPermissions_exact h s base_ size r w x :
  wf_heap h -> wf_space h s -> u64 base_ -> u64 size ->
  exists s', SetPermissions h s base_ size r w x = Ok s' /\ wf_space h s' /\
    (forall a, abs h s' a = abs h s a) /\
    perms_set s s' (AlignDownToPage base_) (add64 (AlignDownToPage base_) (RoundUpToPage size)) r w x.
Proof.
  intros Hwf Hw Hb Hs. destruct (SetPermissions_spec h s base_ size r w x Hwf (ws_core _ _ Hw) Hb Hs)
    as (s' & Heq & Hw' & Hp & _ & _ & Hps).
  exists s'. split_and!; try done. intros a. apply abs_maps_perm; [done|apply Hw'].
Qed.

Lemma SetPermissions_exact_witness :
  exists s', SetPermissions (fst demo_state) (snd demo_state) 4096 1 true false true = Ok s' /\
    CanExecuteAligned s' 4096 = true /\ CanExecuteAligned s' 8192 = false.
Proof.
  destruct demo_ok as (_ & Hwf & Hw).
  destruct (SetPermissions_exact (fst demo_state) (snd demo_state) 4096 1 true false true Hwf Hw)
    as (s' & Heq & _ & _ & Hp); [vm_compute; split; congruence..|].
  exists s'. split; [exact Heq|]. destruct (Hp 4096) as (_ & _ & ->). destruct (Hp 8192) as (_ & _ & ->).
  split; vm_compute; reflexivity.
Defined.

(** A new address space is well formed, has nothing mapped, and its
    pointer width is the one of the architecture. *)
Theorem AddressSpace_new_empty h address_size :
  wf_heap h ->
  exists h' s, AddressSpace_new h address_size = Ok (h', s) /\ wf_heap h' /\ wf_space h' s /\
    addr_mask s = (if address_size =? 32 then two32 - 1 else two64 - 1) /\ (forall a, abs h' s a = None).
Proof.
  intros Hwf. destruct (AddressSpace_new_spec h address_size Hwf) as (h' & s & Heq & Hx & Hw & Hm & Ha).
  exists h', s. split_and!; try done; apply Hx.
Qed.

Lemma AddressSpace_new_empty_witness :
  exists h' s, AddressSpace_new empty_heap 32 = Ok (h', s) /\ addr_mask s = 4294967295.
Proof.
  destruct (AddressSpace_new_empty empty_heap 32 wf_empty_heap) as (h' & s & Heq & _ & _ & Hm & _).
  exists h', s. split; [exact Heq|]. rewrite Hm. reflexivity.
Defined.

(** ** Fork *)

(** C3: the copy constructor (fork) returns; the child's memory, permissions
    and trace heads are the parent's, the parent's memory is unchanged, both
    are well formed, and they share only ranges that cannot be written. *)
Theorem fork_copies h p :
  wf_heap h -> wf_space h p ->
  exists h' s, AddressSpace_clone h p = Ok (h', s) /\ forked h p h' s.
Proof. intros Hwf Hw. destruct (AddressSpace_clone_spec h p Hwf Hw) as (h' & s & ? & ? & _). eauto. Qed.

Lemma fork_copies_witness :
  exists h' s, AddressSpace_clone (fst demo_state) (snd demo_state) = Ok (h', s) /\ abs h' s 4097 = Some 0.
Proof.
  destruct demo_ok as (_ & Hwf & Hw).
  destruct (fork_copies (fst demo_state) (snd demo_state) Hwf Hw) as (h' & s & Heq & Hf).
  exists h', s. split; [exact Heq|]. rewrite (fk_abs _ _ _ _ Hf). vm_compute. reflexivity.
Defined.

(** ** Reads *)

(** Every fixed-size read (1 to 64 bytes; the sizes of the macro are 1 to
    8) that does not reach the last page of the 64-bit space returns; when it
    succeeds it yields the bytes of the abstract memory, and it succeeds when
    every byte is mapped on a page with some permission, also across ranges. *)
Theorem TryRead_fixed_correct n h s addr_ :
  wf_heap h -> wf_space h s -> u64 addr_ -> (0 < n <= 64)%nat ->
  masked s addr_ + Z.of_nat n <= two64 - kPageSize ->
  exists ok vs s', MAKE_TRY_READ n h s addr_ = Ok (ok, vs, s') /\
    read_post h s (masked s addr_) (Z.of_nat n) ok vs s'.
Proof. apply MAKE_TRY_READ_spec. Qed.

Lemma TryRead_fixed_correct_witness :
  exists vs s', MAKE_TRY_READ 4 (fst demo_state) (snd demo_state) 8190 = Ok (true, vs, s') /\
    reads_at (abs (fst demo_state) (snd demo_state)) 8190 vs.
Proof.
  destruct demo_ok as (_ & Hwf & Hw).
  destruct (TryRead_fixed_correct 4 (fst demo_state) (snd demo_state) 8190 Hwf Hw) as (ok & vs & s' & Heq & Hp).
  - vm_compute. split; congruence.
  - lia.
  - vm_compute. congruence.
  - exists vs, s'. assert (Hok : ok = true).
    { vm_compute in Heq. congruence. }
    subst ok. split; [exact Heq|]. exact (proj2 (rd_ok _ _ _ _ _ _ _ Hp eq_refl)).
Defined.

(** C27: a bulk read of any length that ends below the last page of the 64-bit
    space (the masked address plus the size is at most 2^64 - 4096) terminates
    and is correct in the same sense: when it succeeds it returns the bytes of
    the abstract memory, and it succeeds when every byte is mapped on a page
    with some permission.  A read that reaches the last page does not
    terminate, see below. *)
Theorem TryRead_bulk_correct h s addr_ size :
  wf_heap h -> wf_space h s -> u64 addr_ -> 0 <= size ->
  masked s addr_ + size <= two64 - kPageSize ->
  exists ok vs s', TryRead_bulk h s addr_ size = Ok (ok, vs, s') /\
    read_post h s (masked s addr_) size ok vs s'.
Proof. apply TryRead_bulk_spec. Qed.

Lemma TryRead_bulk_correct_witness :
  exists ok vs s', TryRead_bulk (fst demo_state) (snd demo_state) 4096 8192 = Ok (ok, vs, s') /\
    (ok = true -> Z.of_nat (length vs) = 8192).
Proof.
  destruct demo_ok as (_ & Hwf & Hw).
  destruct (TryRead_bulk_correct (fst demo_state) (snd demo_state) 4096 8192 Hwf Hw) as (ok & vs & s' & Heq & Hp).
  - vm_compute. split; congruence.
  - lia.
  - vm_compute. congruence.
  - exists ok, vs, s'. split; [exact Heq|]. intros Ho. exact (proj1 (rd_ok _ _ _ _ _ _ _ Hp Ho)).
Defined.

(** C32: an instruction byte is fetched exactly from mapped pages that are
    executable at the moment of the fetch, whatever the caches hold. *)
Theorem TryReadExecutable_exact h s pc :
  wf_heap h -> wf_space h s -> u64 pc ->
  exists ok v s', TryReadExecutable h s pc = Ok (ok, v, s') /\ cache_step s s' /\ wf_space h s' /\
    trace_heads s' = trace_heads s /\
    (ok = true <-> is_Some (abs h s (masked s pc)) /\ CanExecute s pc = true) /\
    (ok = true -> abs h s (masked s pc) = Some v).
Proof. apply TryReadExecutable_spec. Qed.

Lemma TryReadExecutable_exact_witness :
  exists ok v s', TryReadExecutable (fst demo_state) (snd demo_state) 4096 = Ok (ok, v, s') /\ ok = false.
Proof.
  destruct demo_ok as (_ & Hwf & Hw).
  destruct (TryReadExecutable_exact (fst demo_state) (snd demo_state) 4096 Hwf Hw) as (ok & v & s' & Heq & _ & _ & _ & Hok & _).
  - vm_compute. split; congruence.
  - exists ok, v, s'. split; [exact Heq|]. destruct ok; [|reflexivity].
    destruct (proj1 Hok eq_refl) as [_ Hx]. vm_compute in Hx. discriminate Hx.
Defined.

(** The pointer cache never changes the answer: for a page of the index
    [FindRangeAligned] returns the indexed range, and otherwise either the
    invalid range or a range that contains the page. *)
Theorem FindRangeAligned_agrees h s p :
  wf_space h s ->
  exists l s', FindRangeAligned h s p = Ok (l, s') /\ wf_space h s' /\
    (forall l', page_to_map s !! p = Some l' -> l = l') /\
    (l = invalid s \/ exists r, entry h (maps s) l r /\ Contains r p = true).
Proof.
  intros Hw. destruct (FindRangeAligned_spec h s Hw p) as (l & s' & Heq & _ & Hw' & _ & [He Hi]).
  exists l, s'. split_and!; try done. destruct He as [(r & ? & _ & ?)|[-> _]]; [right; eauto|by left].
Qed.

Lemma FindRangeAligned_agrees_witness :
  exists l s', FindRangeAligned (fst demo_state) (snd demo_state) 4096 = Ok (l, s') /\
    page_to_map (snd demo_state) !! 4096 = Some l.
Proof.
  destruct demo_ok as (_ & _ & Hw).
  destruct (FindRangeAligned_agrees (fst demo_state) (snd demo_state) 4096 Hw) as (l & s' & Heq & _ & Hi & _).
  exists l, s'. split; [exact Heq|].
  assert (Hs : exists l', page_to_map (snd demo_state) !! 4096 = Some l') by (eexists; vm_compute; reflexivity).
  destruct Hs as [l' Hl']. rewrite (Hi l' Hl'). exact Hl'.
Defined.

(** ** Writes *)

(** Every fixed-size write that does not reach the last page returns,
    and on success stores exactly its bytes; a failing one stores a prefix.
    It succeeds when every byte is mapped on a writable page.  Only ranges of
    this space change, and the invariant is preserved. *)
Theorem TryWrite_fixed_correct version_code h s addr_ bs :
  wf_heap h -> wf_space h s -> u64 addr_ ->
  Forall byte_ok bs -> bs <> [] -> masked s addr_ + Z.of_nat (length bs) <= two64 - kPageSize ->
  exists ok h' s', MAKE_TRY_WRITE version_code h s addr_ bs = Ok (ok, h', s') /\
    write_post h s (masked s addr_) bs any_page ok h' s'.
Proof. intros ? ? ? ? ? ?. by apply MAKE_TRY_WRITE_spec. Qed.

Lemma TryWrite_fixed_correct_witness :
  exists ok h' s', MAKE_TRY_WRITE true (fst demo_state) (snd demo_state) 8191 [171; 205] = Ok (ok, h', s') /\ wf_heap h'.
Proof.
  destruct demo_ok as (_ & Hwf & Hw).
  destruct (TryWrite_fixed_correct true (fst demo_state) (snd demo_state) 8191 [171; 205] Hwf Hw) as (ok & h' & s' & Heq & Hp).
  - vm_compute. split; congruence.
  - repeat constructor; vm_compute; congruence.
  - congruence.
  - vm_compute. congruence.
  - exists ok, h', s'. split; [exact Heq|]. exact (fr_wf _ _ _ (wr_frame _ _ _ _ _ _ _ _ Hp)).
Defined.

(** C10: a bulk write of at least one byte that ends below the last page of
    the 64-bit space (the masked address plus the length is at most
    2^64 - 4096) succeeds exactly when every byte lies on a mapped and writable
    page; it terminates, and stores its bytes (a prefix of them when it fails)
    and nothing else. *)
Theorem TryWrite_bulk_correct version_code h s addr_ bs :
  wf_heap h -> wf_space h s -> u64 addr_ ->
  Forall byte_ok bs -> bs <> [] -> masked s addr_ + Z.of_nat (length bs) <= two64 - kPageSize ->
  exists ok h' s', TryWrite_bulk version_code h s addr_ bs = Ok (ok, h', s') /\
    write_post h s (masked s addr_) bs (CanWriteAligned s) ok h' s' /\
    (ok = true <-> accessible h s (CanWriteAligned s) (masked s addr_) (Z.of_nat (length bs))).
Proof.
  intros. destruct (TryWrite_bulk_spec version_code h s addr_ bs) as (ok & h' & s' & Heq & Hp); try done.
  exists ok, h', s'. split; [done|]. split; [done|]. split; [apply (wr_mapped _ _ _ _ _ _ _ _ Hp)|apply (wr_succeeds _ _ _ _ _ _ _ _ Hp)].
Qed.

Lemma TryWrite_bulk_correct_witness :
  exists ok h' s', TryWrite_bulk true (fst demo_state) (snd demo_state) 12287 [1; 2] = Ok (ok, h', s') /\ ok = false.
Proof.
  destruct demo_ok as (_ & Hwf & Hw).
  destruct (TryWrite_bulk_correct true (fst demo_state) (snd demo_state) 12287 [1; 2] Hwf Hw)
    as (ok & h' & s' & Heq & _ & Hok).
  - vm_compute. split; congruence.
  - repeat constructor; vm_compute; congruence.
  - congruence.
  - vm_compute. congruence.
  - exists ok, h', s'. split; [exact Heq|]. destruct ok; [|reflexivity].
    destruct (proj1 Hok eq_refl 12288) as [_ Hx]; [vm_compute; split; congruence|]. vm_compute in Hx. discriminate Hx.
Defined.

Lemma any_perm_accessible h s addr n :
  accessible h s (CanWriteAligned s) addr n -> accessible h s (any_perm s) addr n.
Proof.
  intros Ha a Hin. destruct (Ha a Hin) as [? Hp]. split; [done|]. unfold any_perm. by rewrite Hp, orb_true_r.
Qed.

(** Round trip: an unsigned value of [n] bytes written to writable memory
    and read back with the same width is the value, modulo [256^n]. *)
Theorem write_read_roundtrip version_code n v h s addr_ :
  wf_heap h -> wf_space h s -> u64 addr_ -> (0 < n <= 8)%nat ->
  masked s addr_ + Z.of_nat n <= two64 - kPageSize ->
  accessible h s (CanWriteAligned s) (masked s addr_) (Z.of_nat n) ->
  exists h1 s1 vs s2, MAKE_TRY_WRITE version_code h s addr_ (le_bytes n v) = Ok (true, h1, s1) /\
    MAKE_TRY_READ n h1 s1 addr_ = Ok (true, vs, s2) /\ le_value vs = v mod 256 ^ Z.of_nat n.
Proof.
  intros Hwf Hw Hu Hn Ht Hacc. pose proof (length_le_bytes n v) as Hlen.
  assert (Hne : le_bytes n v <> []) by (intros E; rewrite E in Hlen; cbn in Hlen; lia).
  destruct (MAKE_TRY_WRITE_spec version_code h s addr_ Hwf Hw Hu (le_bytes n v)) as (ok & h1 & s1 & HW & Hp);
    [apply le_bytes_ok|done|by rewrite Hlen|].
  assert (ok = true) as -> by (apply (wr_succeeds _ _ _ _ _ _ _ _ Hp); by rewrite Hlen).
  pose proof (write_post_prefix_mapped _ _ _ _ _ _ _ _ Hp eq_refl) as Habs.
  destruct Hp as [Hf Hst Hw1 _ Hm _]. specialize (Hm eq_refl).
  assert (Hmask : masked s1 addr_ = masked s addr_) by (by destruct Hst as (? & ? & ? & ->)).
  destruct (MAKE_TRY_READ_spec n h1 s1 addr_) as (ok & vs & s2 & HR & Hr); rewrite ?Hmask; try done; [apply Hf|lia|].
  rewrite Hmask in Hr. assert (ok = true) as ->.
  { apply (rd_succeeds _ _ _ _ _ _ _ Hr). apply any_perm_accessible. intros a Ha. destruct (Hacc a Ha) as [Hs Hpm]. split.
    - rewrite Habs. apply overlay_is_Some; [|done]. intros b Hb. by apply Hm.
    - destruct (cache_step_perms s s1 (AlignDownToPage a) Hst) as (_ & -> & _). done. }
  destruct (rd_ok _ _ _ _ _ _ _ Hr eq_refl) as [Hl Hrd].
  exists h1, s1, vs, s2. split_and!; try done. rewrite <- le_value_le_bytes. f_equal.
  apply (reads_at_unique (abs h1 s1) (masked s addr_)); [lia|done|]. intros i b Hi. rewrite Habs.
  by apply (overlay_reads (abs h s) (masked s addr_) (le_bytes n v)).
Qed.

Lemma write_read_roundtrip_witness :
  exists h1 s1 vs s2, MAKE_TRY_WRITE true (fst demo_state) (snd demo_state) 8190 (le_bytes 4 3735928559) = Ok (true, h1, s1) /\
    MAKE_TRY_READ 4 h1 s1 8190 = Ok (true, vs, s2) /\ le_value vs = 3735928559.
Proof.
  destruct demo_ok as (_ & Hwf & Hw).
  destruct (write_read_roundtrip true 4 3735928559 (fst demo_state) (snd demo_state) 8190 Hwf Hw) as (h1 & s1 & vs & s2 & H1 & H2 & H3).
  - vm_compute. split; congruence.
  - lia.
  - vm_compute. congruence.
  - intros a Ha. replace (masked (snd demo_state) 8190) with 8190 in Ha by (vm_compute; reflexivity).
    assert (Hor : a = 8190 \/ a = 8191 \/ a = 8192 \/ a = 8193) by lia.
    destruct Hor as [-> |[-> |[-> | ->]]]; vm_compute; split; congruence || (eexists; reflexivity).
  - exists h1, s1, vs, s2. split; [exact H1|]. split; [exact H2|]. rewrite H3. vm_compute. reflexivity.
Defined.

(** ** Searching for space *)

(** C31: asked for at least one and at most 2^64 - 4096 bytes, [FindHole]
    answers; a hole it returns lies inside the page-aligned bounds and is
    unmapped over the whole rounded size; if the upper bound, rounded down, is
    not above the address mask (always so in a 64-bit space) the hole is
    page-aligned and lies inside one unmapped range; and one is found whenever
    some unmapped range intersected with the bounds has room. *)
Theorem FindHole_correct h s mn mx size :
  wf_heap h -> wf_space h s -> u64 mn -> u64 mx -> 0 < size <= two64 - kPageSize ->
  exists b hole, FindHole h s mn mx size = Ok (b, hole) /\
    (b = true -> AlignDownToPage mn <= hole /\ hole + size <= AlignDownToPage mx /\
       (AlignDownToPage mx <= addr_mask s -> aligned hole /\ inside_invalid h (maps s) hole (RoundUpToPage size)) /\
       forall a, hole <= a < hole + RoundUpToPage size -> abs h s a = None) /\
    (roomy h (maps s) (AlignDownToPage mn) (AlignDownToPage mx) (RoundUpToPage size) -> b = true).
Proof. apply FindHole_spec. Qed.

Lemma FindHole_correct_witness :
  exists hole, FindHole (fst demo_state) (snd demo_state) 0 65536 8192 = Ok (true, hole) /\ aligned hole /\
    abs (fst demo_state) (snd demo_state) hole = None.
Proof.
  destruct demo_ok as (_ & Hwf & Hw).
  destruct (FindHole_correct (fst demo_state) (snd demo_state) 0 65536 8192 Hwf Hw) as (b & hole & Heq & Hok & _).
  - vm_compute. split; congruence.
  - vm_compute. split; congruence.
  - vm_compute. split; congruence.
  - assert (b = true) as -> by (vm_compute in Heq; congruence).
    destruct (Hok eq_refl) as (_ & _ & Hal & Hfree). exists hole. split; [exact Heq|]. split.
    + apply Hal. vm_compute. congruence.
    + apply Hfree. vm_compute in Heq. injection Heq as <-. vm_compute. split; congruence.
Defined.

(** [IsMapped] answers, without changing anything, whether the address
    is mapped on a page with at least one permission. *)
Theorem IsMapped_exact h s a :
  wf_heap h -> wf_space h s -> u64 a ->
  exists b, IsMapped h s a = Ok b /\
    (b = true <-> is_Some (abs h s a) /\ any_perm s (AlignDownToPage a) = true).
Proof. apply IsMapped_spec. Qed.

Lemma IsMapped_exact_witness :
  exists b, IsMapped (fst demo_state) (snd demo_state) 4096 = Ok b /\ b = true.
Proof.
  destruct demo_ok as (_ & Hwf & Hw).
  destruct (IsMapped_exact (fst demo_state) (snd demo_state) 4096 Hwf Hw) as (b & Heq & Hb).
  - vm_compute. split; congruence.
  - exists b. split; [exact Heq|]. apply Hb. vm_compute. split; [eexists; reflexivity|reflexivity].
Defined.

(** ** Deviations *)

Lemma read_pages_last fuel h s page addr end_addr :
  wf_heap h -> wf_space h s -> u64 page -> aligned page -> two64 - kPageSize <= addr -> addr < end_addr < two64 ->
  read_pages fuel h s page addr end_addr = Diverges.
Proof.
  intros Hwf. revert s page. induction fuel as [|fuel IH]; intros s page Hw Hu Hal Ha He; cbn [read_pages].
  all: pose proof (aligned_u64_top page Hu Hal).
  all: rewrite (proj2 (Z.ltb_lt page end_addr)) by (unfold kPageSize in *; lia).
  { done. }
  destruct (FindRangeAligned_spec h s Hw page) as (l & s1 & -> & _ & Hw1 & _). cbn [mbind outcome_bind]. cbv zeta.
  assert (Hle : add64 page kPageSize <= addr).
  { pose proof (wrap64_u64 (page + kPageSize)) as Hwu.
    pose proof (aligned_u64_top (add64 page kPageSize) Hwu (aligned_add64 page kPageSize Hal eq_refl)). lia. }
  replace (Z.to_nat (Z.min end_addr (add64 page kPageSize) - addr)) with O by lia.
  cbn [read_run mbind outcome_bind].
  replace (Z.max addr (Z.min end_addr (add64 page kPageSize))) with addr by lia.
  rewrite IH; try done; [apply wrap64_u64|by apply aligned_add64].
Qed.

(** A bulk read that starts in the last page of a 64-bit space never
    returns: the page counter wraps to zero and the loop reads nothing. *)
Theorem TryRead_bulk_last_page_diverges h s addr_ size :
  wf_heap h -> wf_space h s -> u64 addr_ -> two64 - kPageSize <= masked s addr_ ->
  0 < size -> masked s addr_ + size < two64 ->
  TryRead_bulk h s addr_ size = Diverges.
Proof.
  intros Hwf Hw Hu Ha Hs Ht. unfold TryRead_bulk. cbv zeta. fold (masked s addr_).
  pose proof (masked_u64 s addr_ (ws_mask _ _ Hw) Hu) as Hmu. unfold u64 in Hmu.
  rewrite add64_small by lia. apply read_pages_last; try done; try lia.
  - by apply AlignDownToPage_u64.
  - by apply AlignDownToPage_aligned.
Qed.

Lemma TryRead_bulk_last_page_diverges_witness :
  TryRead_bulk (fst demo_state) (snd demo_state) (two64 - 4096) 8 = Diverges.
Proof.
  destruct demo_ok as (_ & Hwf & Hw).
  apply (TryRead_bulk_last_page_diverges (fst demo_state) (snd demo_state)); [exact Hwf|exact Hw|..].
  - vm_compute. split; congruence.
  - vm_compute. congruence.
  - lia.
  - vm_compute. reflexivity.
Defined.

(** removing an interval that overlaps a map from the left loses the
    whole map, not only the overlap: with [[0x2000, 0x4000)] mapped, unmapping
    [[0x1000, 0x3000)] also unmaps [0x3000]. *)
Theorem RemoveMap_left_overlap_loses_tail :
  (let '(h, s) := new64 in
   '(h, s) ← AddMap h s 8192 8192 None 0;
   '(h', s') ← RemoveMap h s 4096 8192;
   Ok (abs h s 12288, abs h' s' 12288)) = Ok (Some 0, None).
Proof. vm_compute. reflexivity. Qed.

(** A revoked write permission is not enforced while the range is
    cached: after [SetPermissions] makes the page [0x1000] read-only, a byte
    write to it fails, but succeeds once [0x2000] of the same range has been
    written. *)
Theorem TryWrite_8_stale_permission :
  (let '(h, s) := demo_state in
   s ← SetPermissions h s 4096 4096 true false false;
   '(ok1, h, s) ← TryWrite_8 false h s 4096 1;
   '(ok2, h, s) ← TryWrite_8 false h s 8192 1;
   '(ok3, h, s) ← TryWrite_8 false h s 4096 1;
   Ok (ok1, ok2, ok3, abs h s 4096)) = Ok (false, true, true, Some 1).
Proof. vm_compute. reflexivity. Qed.

(** [Kill] leaves the index of writable pages in place: reads of a dead
    space fail, but byte writes still succeed. *)
Theorem Kill_keeps_write_index :
  (let '(h, s) := demo_state in
   let s := Kill s in
   '(ok1, v, s) ← TryRead_8 h s 4096;
   '(ok2, h, s) ← TryWrite_8 false h s 4096 1;
   Ok (IsDead s, ok1, ok2)) = Ok (true, false, true).
Proof. vm_compute. reflexivity. Qed.

(** Unmapping part of a range of a forked process reads the member
    [parent] of the new range before it is constructed. *)
Theorem RemoveMap_splits_cow_undefined :
  (let '(h, s) := demo_state in
   '(ok, h, s) ← TryWrite_8 false h s 4096 1;
   '(h, c) ← AddressSpace_clone h s;
   RemoveMap h c 4096 4096) = Undefined.
Proof. vm_compute. reflexivity. Qed.

(** ** Code versions and instruction fetches

    [range_version] is the version of a range as a function of the heap;
    computing versions and fetching instruction bytes changes caches only,
    which [code_step] states, so every later fetch and version of the same
    decoding run agrees with the first one. *)

Module CodeVersions.
Section versions.
Context (Hash : list Z -> Z).

Definition range_bytes (r : MappedRange) : list Z :=
  match data r with Some m => (fun i => default 0 (m !! i)) <$> seqZ 0 (Size r) | None => [] end.

Definition array_version (r : MappedRange) : Z :=
  if code_version_is_valid r then code_version r else Hash (range_bytes r).

(** The version [ComputeCodeVersion] reports for the range at [l]. *)
Definition range_version (h : Heap) (l : loc) : Z :=
  match objs h !! l with
  | Some r =>
      match kind r with
      | InvalidMemoryMap | EmptyMemoryMap => 0
      | ArrayMemoryMap => array_version r
      | CopyOnWriteMemoryMap =>
          match parent r with
          | Some p => match objs h !! p with Some rp => array_version rp | None => 0 end
          | None => 0
          end
      end
  | None => 0
  end.

(** Pinning the version of an array leaves every version as it is. *)
Lemma range_version_pin h l0 r0 l :
  objs h !! l0 = Some r0 -> range_version (put h l0 (with_version r0 (array_version r0) true)) l = range_version h l.
Proof.
  intros H0. set (r' := with_version r0 (array_version r0) true).
  assert (Hv : forall q, match objs (put h l0 r') !! q with Some rp => array_version rp | None => 0 end =
                         match objs h !! q with Some rp => array_version rp | None => 0 end).
  { intros q. destruct (decide (q = l0)) as [->|Hne]; [by rewrite put_lookup_eq, H0|by rewrite put_lookup_ne]. }
  unfold range_version. destruct (decide (l = l0)) as [->|Hne].
  - rewrite put_lookup_eq, H0. cbn. destruct (kind r0); try done. destruct (parent r0); [apply Hv|done].
  - rewrite put_lookup_ne by done. destruct (objs h !! l) as [r|]; [|done].
    destruct (kind r); try done. destruct (parent r); [apply Hv|done].
Qed.

(** What computing the version of a range may change. *)
Record version_step (h h' : Heap) (s : AddressSpace) : Prop := {
  vs_frame : frame h h' (maps s);
  vs_abs a : abs h' s a = abs h s a;
  vs_versions l : range_version h' l = range_version h l
}.

Lemma version_step_refl h s : wf_heap h -> version_step h h s.
Proof. intros Hwf. split; try done. by apply frame_refl. Qed.

Lemma ComputeCodeVersion_array k h s l r :
  wf_heap h -> wf_space h s -> objs h !! l = Some r -> kind r = ArrayMemoryMap ->
  exists h', ComputeCodeVersion_fuel Hash (S k) h l = Ok (array_version r, h') /\ version_step h h' s.
Proof.
  intros Hwf Hw Hl Hk. cbn [ComputeCodeVersion_fuel]. rewrite (get_Some h l r Hl). cbn [mbind outcome_bind]. rewrite Hk.
  pose proof (wf_kind h Hwf l r Hl) as Hok. unfold kind_ok in Hok. rewrite Hk in Hok.
  destruct (code_version_is_valid r) eqn:Ev.
  { exists h. split; [by unfold array_version; rewrite Ev|by apply version_step_refl]. }
  unfold array_bytes. destruct (data r) as [m|] eqn:Ed; [|naive_solver]. cbn [mbind outcome_bind].
  assert (Ha : Hash ((fun i => default 0 (m !! i)) <$> seqZ 0 (Size r)) = array_version r)
    by (unfold array_version, range_bytes; by rewrite Ev, Ed).
  rewrite Ha. eexists. split; [done|].
  destruct (put_version_spec h s l r (array_version r) true Hwf Hw Hl) as [Hf Hab].
  split; [done|done|]. intros l0. by apply range_version_pin.
Qed.

Lemma ComputeCodeVersion_spec h s l r :
  wf_heap h -> wf_space h s -> objs h !! l = Some r ->
  exists h', ComputeCodeVersion Hash h l = Ok (range_version h l, h') /\ version_step h h' s.
Proof.
  intros Hwf Hw Hl. destruct (chain_fuel_SS h) as [k Hk]. unfold ComputeCodeVersion, range_version. rewrite Hk, Hl.
  pose proof (wf_kind h Hwf l r Hl) as Hok. unfold kind_ok in Hok.
  destruct (kind r) eqn:Ek; try (cbn [ComputeCodeVersion_fuel]; rewrite (get_Some h l r Hl); cbn [mbind outcome_bind]; rewrite Ek;
    exists h; split; [done|by apply version_step_refl]).
  - by apply ComputeCodeVersion_array.
  - destruct Hok as (_ & p & rp & Hp & Hlp & Hkp & _). rewrite Hp, Hlp.
    destruct (ComputeCodeVersion_array k h s p rp) as (h' & Heq & Hst); try done.
    exists h'. split; [|done]. cbn [ComputeCodeVersion_fuel] in *. rewrite (get_Some h l r Hl). cbn [mbind outcome_bind].
    rewrite Ek, Hp. exact Heq.
Qed.

(** ** Steps that keep the code *)

(** The heap and the space after fetches, version computations and marking:
    same contents, permissions, index and versions. *)
Record code_step (h : Heap) (s : AddressSpace) (h' : Heap) (s' : AddressSpace) : Prop := {
  cd_heap : wf_heap h';
  cd_space : wf_space h' s';
  cd_cache : cache_step s s';
  cd_abs a : abs h' s' a = abs h s a;
  cd_versions l : range_version h' l = range_version h l
}.

Lemma code_step_refl h s : wf_heap h -> wf_space h s -> code_step h s h s.
Proof. by split. Qed.

Lemma code_step_trans h1 s1 h2 s2 h3 s3 : code_step h1 s1 h2 s2 -> code_step h2 s2 h3 s3 -> code_step h1 s1 h3 s3.
Proof.
  intros [_ _ Hc Ha Hv] [Hh' Hs' Hc' Ha' Hv']. split; [done|done|by etrans|..]; intros; by rewrite ?Ha', ?Hv'.
Qed.

Lemma code_step_cache h s s' : wf_heap h -> wf_space h s' -> cache_step s s' -> code_step h s h s'.
Proof. intros Hwf Hw Hc. split; try done. intros a. by apply cache_step_abs. Qed.

(** ** What a program counter fetches *)

Definition fetch (h : Heap) (s : AddressSpace) (pc : Z) : option Z :=
  if CanExecute s pc then abs h s (masked s pc) else None.

Lemma code_step_fetch h s h' s' pc : code_step h s h' s' -> fetch h' s' pc = fetch h s pc.
Proof.
  intros [_ _ Hc Ha _]. unfold fetch, masked. rewrite Ha. destruct (cache_step_maps _ _ Hc) as [_ Hm].
  unfold CanExecute. rewrite Hm. by destruct (cache_step_perms _ _ (AlignDownToPage (Z.land pc (addr_mask s))) Hc) as (_ & _ & ->).
Qed.

Lemma TryReadExecutable_fetch h s pc :
  wf_heap h -> wf_space h s -> u64 pc ->
  exists v s', TryReadExecutable h s pc = Ok (bool_decide (is_Some (fetch h s pc)), v, s') /\ code_step h s h s' /\
    trace_heads s' = trace_heads s /\ (is_Some (fetch h s pc) -> fetch h s pc = Some v).
Proof.
  intros Hwf Hw Hu. destruct (TryReadExecutable_spec h s pc Hwf Hw Hu) as (ok & v & s' & -> & Hc & Hw' & Ht & Hiff & Hv).
  assert (Hf : is_Some (fetch h s pc) <-> ok = true).
  { unfold fetch. rewrite Hiff. destruct (CanExecute s pc); [tauto|]. rewrite is_Some_alt. naive_solver. }
  exists v, s'. split_and!; [|by apply code_step_cache|done|].
  - rewrite (bool_decide_ext _ _ Hf). by destruct ok.
  - intros Ho%Hf. unfold fetch. rewrite (Hv Ho). apply Hiff in Ho as [_ ->]. done.
Qed.

(** ** The version of a program counter *)

Context (version_code : bool).

(** The version of the indexed range that holds [pc]; nothing is promised of
    a page the index does not hold. *)
Definition version_at (h : Heap) (s : AddressSpace) (pc : Z) : option Z :=
  if version_code then range_version h <$> page_to_map s !! AlignDownToPage (masked s pc) else Some 0.

Lemma code_step_version h s h' s' pc : code_step h s h' s' -> version_at h' s' pc = version_at h s pc.
Proof.
  intros [_ _ (c & wc & t & ->) _ Hv]. unfold version_at, masked. destruct version_code; [|done]. cbn.
  by destruct (page_to_map s !! _) as [l|]; cbn; [rewrite Hv|].
Qed.

Lemma AS_ComputeCodeVersion_spec h s pc :
  wf_heap h -> wf_space h s ->
  exists v h' s', AS_ComputeCodeVersion version_code Hash h s pc = Ok (v, h', s') /\ code_step h s h' s' /\
    trace_heads s' = trace_heads s /\ forall w, version_at h s pc = Some w -> v = w.
Proof.
  intros Hwf Hw. unfold AS_ComputeCodeVersion, version_at. destruct version_code; [|exists 0, h, s; split_and!; [done|by apply code_step_refl|done|congruence]].
  cbv zeta. fold (masked s pc). unfold FindRange.
  destruct (FindRangeAligned_spec h s Hw (AlignDownToPage (masked s pc))) as (l & s1 & -> & Hc & Hw1 & Ht & [He Hi]).
  cbn [mbind outcome_bind].
  assert (Hl : exists r, objs h !! l = Some r).
  { destruct He as [(r & [_ He] & _)|[-> _]]; [eauto|]. destruct (ws_invalid _ _ Hw) as (r & Hr & _). eauto. }
  destruct Hl as [r Hl]. destruct (ComputeCodeVersion_spec h s1 l r Hwf Hw1 Hl) as (h' & -> & [Hf Ha Hv]).
  cbn [mbind outcome_bind]. exists (range_version h l), h', s1. split_and!; try done.
  - split; [apply Hf|by eapply frame_wf_space|done| |done]. intros a. rewrite Ha. by apply cache_step_abs.
  - intros w (l' & Hm & ->)%fmap_Some. by rewrite (Hi l' Hm).
Qed.
End versions.
End CodeVersions.
