(* ===== verification/Allocators.v ===== *)
(** * Area and zone allocators

    Models [vmill/Util/AreaAllocator.{h,cpp}] (a bump allocator over a growing
    contiguous mapping) and [vmill/Util/ZoneAllocator.{h,cpp}] (size-indexed
    free lists on top of it).  [ArrayMemoryMap] takes its blocks from a
    [ZoneAllocator].

    The host's [mmap] is a parameter: [mmap n addr size fixed] is the answer to
    the [n]-th call, [None] for [MAP_FAILED].  [madvise] and [munmap] do not
    affect the model; the address space of the host is the byte map [mem],
    an absent address reading as zero. *)

From S2P Require Import Prelude.

Inductive AreaAllocationPerms := kAreaRW | kAreaRWX.

Definition k2MiB : Z := 2097152.

Record AreaAllocator := MkArea {
  page_size : Z;
  preferred_base : Z;
  is_executable : bool;
  (** 0 is the null pointer. *)
  area_base : Z;
  area_limit : Z;
  bump : Z;
  mem : gmap Z Z;
  mmap_calls : nat
}.

Definition with_area (a : AreaAllocator) (b l p : Z) (m : gmap Z Z) (n : nat) : AreaAllocator :=
  MkArea (page_size a) (preferred_base a) (is_executable a) b l p m n.

Definition with_mem (a : AreaAllocator) (m : gmap Z Z) : AreaAllocator :=
  with_area a (area_base a) (area_limit a) (bump a) m (mmap_calls a).

Definition AreaAllocator_new (perms : AreaAllocationPerms) (preferred_base_ page_size_ : Z) : AreaAllocator :=
  MkArea page_size_ preferred_base_ (match perms with kAreaRWX => true | kAreaRW => false end) 0 0 0 ∅ 0.

(** [addr .. addr + n) := v]. *)
Fixpoint fill (m : gmap Z Z) (addr : Z) (n : nat) (v : Z) : gmap Z Z :=
  match n with
  | O => m
  | S n => fill (<[addr := v]> m) (addr + 1) n v
  end.

(** The inner loop of [FillWithBreakPoints]. *)
Fixpoint put_bytes (m : gmap Z Z) (addr : Z) (bs : list Z) : gmap Z Z :=
  match bs with
  | [] => m
  | b :: bs => put_bytes (<[addr := b]> m) (addr + 1) bs
  end.

Section area.
Variable mmap : nat -> Z -> Z -> bool -> option Z.
(** [kBreakPointBytes]: one byte on x86, four on AArch64. *)
Variable kBreakPointBytes : list Z.

Fixpoint FillWithBreakPoints (fuel : nat) (m : gmap Z Z) (base limit : Z) : outcome (gmap Z Z) :=
  if base <? limit then
    match fuel with
    | O => Diverges
    | S fuel => FillWithBreakPoints fuel (put_bytes m base kBreakPointBytes)
                  (base + Z.of_nat (length kBreakPointBytes)) limit
    end
  else Ok m.

(** [(n + (page_size - 1UL)) & ~(page_size - 1UL)] *)
Definition round_pages (page n : Z) : Z := Z.land (add64 n (page - 1)) (not64 (page - 1)).

(** The memory after a successful [mmap] of [n] bytes at [p]: zeroes, or
    break points in an executable area. *)
Definition mapped_memory (a : AreaAllocator) (p n : Z) : outcome (gmap Z Z) :=
  let m := fill (mem a) p (Z.to_nat n) 0 in
  if is_executable a then FillWithBreakPoints (Z.to_nat n) m p (p + n) else Ok m.

(** The initial mapping. *)
Definition area_init (a : AreaAllocator) (size : Z) : outcome AreaAllocator :=
  if area_base a =? 0 then
    let alloc_size := if page_size a <? size then round_pages (page_size a) size else page_size a in
    match mmap (mmap_calls a) (preferred_base a) alloc_size (negb (preferred_base a =? 0)) with
    | None => Fatal
    | Some ret =>
        m ← mapped_memory a ret alloc_size;
        Ok (with_area a ret (ret + alloc_size) ret m (S (mmap_calls a)))
    end
  else Ok a.

(** Align the bump pointer. *)
Definition area_align (a : AreaAllocator) (align : Z) : AreaAllocator :=
  let align_missing := if align =? 0 then 0 else bump a mod align in
  if align_missing =? 0 then a
  else with_area a (area_base a) (area_limit a) (bump a + (align - align_missing)) (mem a) (mmap_calls a).

(** Extend the mapping when [size] bytes do not fit. *)
Definition area_grow (a : AreaAllocator) (size : Z) : outcome AreaAllocator :=
  if area_limit a <=? bump a + size then
    let missing := bump a + size - area_limit a in
    let alloc_size := round_pages (page_size a) missing in
    let alloc_size := if alloc_size =? 0 then page_size a else alloc_size in
    match mmap (mmap_calls a) (area_limit a) alloc_size true with
    | None => Fatal
    | Some ret =>
        check (ret =? area_limit a) ;;
        m ← mapped_memory a ret alloc_size;
        Ok (with_area a (area_base a) (area_limit a + alloc_size) (bump a) m (S (mmap_calls a)))
    end
  else Ok a.

Definition AreaAllocator_Allocate (a : AreaAllocator) (size align : Z) : outcome (Z * AreaAllocator) :=
  a ← area_init a size;
  a ← area_grow (area_align a align) size;
  let ret := bump a in
  Ok (ret, with_area a (area_base a) (area_limit a) (bump a + size) (mem a) (mmap_calls a)).

Definition FreeAll (a : AreaAllocator) : AreaAllocator :=
  with_area a (area_base a) (area_limit a) (area_base a) (mem a) (mmap_calls a).

Definition AreaAllocator_Contains (a : AreaAllocator) (addr : Z) : bool :=
  (area_base a <=? addr) && (addr <? bump a).

(** ** Zones *)

Record ZoneAllocation := MkZoneAllocation { za_base : Z; za_size : Z }.

(** [free_list] is a [std::map], ordered by size. *)
Record ZoneAllocator := MkZone {
  allocator : AreaAllocator;
  free_list : list (Z * list Z)
}.

Definition ZoneAllocator_new (perms : AreaAllocationPerms) (preferred_base_ page_size_ : Z) : ZoneAllocator :=
  MkZone (AreaAllocator_new perms preferred_base_ page_size_) [].

(** [free_list[size].push_back(base)] *)
Fixpoint push_free (fl : list (Z * list Z)) (size base : Z) : list (Z * list Z) :=
  match fl with
  | [] => [(size, [base])]
  | (k, bs) :: rest =>
      if size =? k then (k, bs ++ [base]) :: rest
      else if size <? k then (size, [base]) :: fl
      else (k, bs) :: push_free rest size base
  end.

(** [lower_bound(size)] and, when its vector is not empty, [back()] and
    [pop_back()]. *)
Fixpoint pop_lower_bound (fl : list (Z * list Z)) (size : Z) : option (Z * Z * list (Z * list Z)) :=
  match fl with
  | [] => None
  | (k, bs) :: rest =>
      if size <=? k then
        match last bs with
        | None => None
        | Some b => Some (b, k, (k, removelast bs) :: rest)
        end
      else
        match pop_lower_bound rest size with
        | None => None
        | Some (b, k', rest') => Some (b, k', (k, bs) :: rest')
        end
  end.

(** [Free(alloc)]: the zone and the reset allocation. *)
Definition Free (z : ZoneAllocator) (alloc : ZoneAllocation) : ZoneAllocator * ZoneAllocation :=
  if za_base alloc =? 0 then (z, alloc)
  else (MkZone (allocator z) (push_free (free_list z) (za_size alloc) (za_base alloc)), MkZoneAllocation 0 0).

(** [ZoneAllocator.cpp] has its own [kPageSize]. *)
Definition zone_page_size : Z := 4096.

Definition bzero (z : ZoneAllocator) (base size : Z) : ZoneAllocator :=
  MkZone (with_mem (allocator z) (fill (mem (allocator z)) base (Z.to_nat size) 0)) (free_list z).

Definition ZoneAllocator_Allocate (z : ZoneAllocator) (size : Z) : outcome (ZoneAllocation * ZoneAllocator) :=
  '(alloc, z) ←
    match pop_lower_bound (free_list z) size with
    | Some (b, k, fl) =>
        let z := MkZone (allocator z) fl in
        if k =? size then Ok (MkZoneAllocation b k, z)
        else
          check (size <=? k) ;;
          let diff := k - size in
          if zone_page_size <? diff then
            let '(z, _) := Free z (MkZoneAllocation b diff) in
            Ok (MkZoneAllocation (b + diff) size, z)
          else Ok (MkZoneAllocation b k, z)
    | None =>
        '(b, a) ← AreaAllocator_Allocate (allocator z) size 64;
        Ok (MkZoneAllocation b size, MkZone a (free_list z))
    end;
  Ok (alloc, bzero z (za_base alloc) size).
End area.
