(* ===== verification/AllocatorProps.v ===== *)
(** * The allocators hand out disjoint, zeroed blocks *)

From S2P Require Import Prelude Allocators.

(** ** Filling memory *)

Lemma lookup_fill m addr n v x :
  fill m addr n v !! x = if decide (addr <= x < addr + Z.of_nat n) then Some v else m !! x.
Proof.
  revert m addr. induction n as [|n IH]; intros m addr; cbn [fill].
  - by rewrite decide_False by lia.
  - rewrite IH. destruct (decide (x = addr)) as [->|Hne].
    + rewrite decide_False, decide_True, lookup_insert_eq by lia. done.
    + rewrite lookup_insert_ne by done. by repeat case_decide; try lia.
Qed.

Lemma lookup_put_bytes m addr bs x :
  ~ addr <= x < addr + Z.of_nat (length bs) -> put_bytes m addr bs !! x = m !! x.
Proof.
  revert m addr. induction bs as [|b bs IH]; intros m addr Hx; cbn [put_bytes length] in *; [done|].
  rewrite IH by lia. apply lookup_insert_ne. lia.
Qed.

Lemma FillWithBreakPoints_spec bp fuel m base limit :
  (0 < length bp)%nat -> limit - base <= Z.of_nat fuel ->
  exists m', FillWithBreakPoints bp fuel m base limit = Ok m' /\ forall x, x < base -> m' !! x = m !! x.
Proof.
  intros Hbp. revert m base. induction fuel as [|fuel IH]; intros m base Hf; cbn [FillWithBreakPoints];
    destruct (Z.ltb_spec base limit); try lia; eauto.
  destruct (IH (put_bytes m base bp) (base + Z.of_nat (length bp))) as (m' & -> & Hm'); [lia|].
  exists m'. split; [done|]. intros x Hx. rewrite Hm', lookup_put_bytes by lia. done.
Qed.

(** ** Rounding *)

Definition page_ok (a : AreaAllocator) : Prop := exists k, 0 <= k <= 40 /\ page_size a = 2 ^ k.

Lemma page_ok_pos a : page_ok a -> 0 < page_size a < two64.
Proof.
  intros (k & Hk & ->). split; [apply Z.pow_pos_nonneg; lia|].
  apply Z.le_lt_trans with (2 ^ 40); [apply Z.pow_le_mono_r; lia|done].
Qed.

Lemma round_pages_spec a n :
  page_ok a -> 0 <= n -> n + page_size a < two64 ->
  n <= round_pages (page_size a) n /\ (round_pages (page_size a) n = 0 -> n = 0).
Proof.
  intros Hp Hn Hov. pose proof (page_ok_pos a Hp). destruct Hp as (k & Hk & Hps). unfold round_pages.
  rewrite add64_small by lia. rewrite Hps in *. rewrite land_not64_ones by (unfold u64; lia).
  pose proof (Z.mod_pos_bound (n + (2 ^ k - 1)) (2 ^ k)). lia.
Qed.

(** ** Areas *)

Definition area_inv (a : AreaAllocator) : Prop :=
  page_ok a /\
  ((area_base a = 0 /\ area_limit a = 0 /\ bump a = 0) \/ (0 < area_base a <= bump a /\ bump a <= area_limit a)).

Section area.
Context (mmap : nat -> Z -> Z -> bool -> option Z) (bp : list Z).
(** A successful [mmap] does not return the null page. *)
Hypothesis mmap_nonnull : forall n addr size fixed ret, mmap n addr size fixed = Some ret -> 0 < ret.
Hypothesis bp_nonempty : (0 < length bp)%nat.

Lemma mapped_memory_spec a p n :
  0 <= n -> exists m, mapped_memory bp a p n = Ok m /\ forall x, x < p -> m !! x = mem a !! x.
Proof.
  intros Hn. unfold mapped_memory. cbv zeta.
  assert (Hf : forall x, x < p -> fill (mem a) p (Z.to_nat n) 0 !! x = mem a !! x).
  { intros x Hx. rewrite lookup_fill, decide_False by lia. done. }
  destruct (is_executable a); [|eauto].
  destruct (FillWithBreakPoints_spec bp (Z.to_nat n) (fill (mem a) p (Z.to_nat n) 0) p (p + n)) as (m & -> & Hm);
    [done|lia|]. exists m. split; [done|]. intros x Hx. by rewrite Hm, Hf.
Qed.

(** What [Allocate] guarantees for the block [[ret, ret + size)]. *)
Record area_post (a : AreaAllocator) (size align ret : Z) (a' : AreaAllocator) : Prop := {
  ap_inv : area_inv a';
  ap_mapped : 0 < area_base a' <= ret /\ ret + size = bump a' /\ bump a' <= area_limit a';
  ap_base : area_base a <> 0 -> area_base a' = area_base a /\ bump a <= ret;
  ap_align : align <> 0 -> ret mod align = 0;
  ap_mem x : area_base a <> 0 -> x < bump a -> mem a' !! x = mem a !! x
}.

Lemma area_align_spec a align :
  area_inv a -> 0 <= align ->
  let a' := area_align a align in
  bump a <= bump a' /\ (align <> 0 -> bump a' mod align = 0 /\ bump a' < bump a + align) /\
  (align = 0 -> bump a' = bump a) /\
  page_size a' = page_size a /\ area_base a' = area_base a /\ area_limit a' = area_limit a /\ mem a' = mem a /\
  is_executable a' = is_executable a.
Proof.
  intros Hinv Ha. unfold area_align. cbv zeta. destruct (Z.eqb_spec align 0) as [->|Hne].
  { rewrite Z.eqb_refl. split_and!; done. }
  pose proof (Z.mod_pos_bound (bump a) align).
  destruct (Z.eqb_spec (bump a mod align) 0) as [E|E]; cbn; split_and!; try done; try lia.
  intros _. split; [|lia].
  replace (bump a + (align - bump a mod align)) with (bump a - bump a mod align + 1 * align) by lia.
  rewrite Z.mod_add by done. rewrite Zminus_mod_idemp_r, Z.sub_diag. by apply Z.mod_0_l.
Qed.

Lemma area_Allocate_spec a size align ret a' :
  area_inv a -> 0 <= size -> 0 <= align -> size + align + page_size a < two64 ->
  AreaAllocator_Allocate mmap bp a size align = Ok (ret, a') -> area_post a size align ret a'.
Proof.
  intros Hinv Hs Hal Hov Heq. unfold AreaAllocator_Allocate in Heq.
  apply bind_ok in Heq as (a1 & Hinit & Heq). apply bind_ok in Heq as (a2 & Hgrow & Heq).
  injection Heq as <- <-. destruct Hinv as [Hpg Hinv]. pose proof (page_ok_pos a Hpg) as Hpos.
  assert (H1 : page_size a1 = page_size a /\ 0 < area_base a1 <= bump a1 /\ bump a1 <= area_limit a1 /\
             (area_base a <> 0 -> a1 = a)).
  { unfold area_init in Hinit. destruct (Z.eqb_spec (area_base a) 0) as [E|E].
    - cbv zeta in Hinit. set (asz := if page_size a <? size then _ else _) in Hinit.
      destruct (mmap _ _ _ _) as [p|] eqn:Em; [|done]. apply mmap_nonnull in Em.
      apply bind_ok in Hinit as (m & _ & Hinit). injection Hinit as <-. cbn.
      assert (0 <= asz); [|split_and!; try done; lia]. subst asz.
      destruct (Z.ltb_spec (page_size a) size); [|lia].
      pose proof (round_pages_spec a size Hpg Hs). lia.
    - injection Hinit as <-. destruct Hinv as [(? & _)|?]; [done|]. split_and!; try done; tauto. }
  destruct H1 as (Hps1 & Hb1 & Hl1 & Hsame).
  assert (Hinv1 : area_inv a1).
  { split; [|right; lia]. destruct Hpg as (k & ? & ?). exists k. by rewrite Hps1. }
  destruct (area_align_spec a1 align Hinv1 Hal) as (Hbu & Halm & Hal0 & Hps2 & Hba & Hli & Hmem & Hex).
  set (b := area_align a1 align) in *.
  assert (H2 : page_size a2 = page_size a /\ area_base a2 = area_base a1 /\ bump a2 = bump b /\
             bump b + size <= area_limit a2 /\ (forall x, x < area_limit a1 -> mem a2 !! x = mem a1 !! x)).
  { unfold area_grow in Hgrow. rewrite Hli in Hgrow.
    destruct (Z.leb_spec (area_limit a1) (bump b + size)).
    - cbv zeta in Hgrow. set (asz := if _ =? 0 then _ else _) in Hgrow.
      destruct (mmap _ _ _ _) as [p|] eqn:Em; [|done].
      destruct (p =? area_limit a1) eqn:Ep; [|done]. apply Z.eqb_eq in Ep as ->. cbn [check mbind outcome_bind] in Hgrow.
      assert (Hasz : bump b + size - area_limit a1 <= asz /\ 0 <= asz).
      { assert (Hpb : page_ok b) by (destruct Hpg as (k & ? & ?); exists k; by rewrite Hps2, Hps1).
        assert (bump b + size - area_limit a1 + page_size b < two64).
        { rewrite Hps2, Hps1. destruct (decide (align = 0)) as [E|E]; [rewrite (Hal0 E)|pose proof (Halm E)]; lia. }
        pose proof (round_pages_spec b (bump b + size - area_limit a1) Hpb).
        subst asz. pose proof (page_ok_pos b Hpb).
        destruct (Z.eqb_spec (round_pages (page_size b) (bump b + size - area_limit a1)) 0); lia. }
      destruct (mapped_memory_spec b (area_limit a1) asz) as (m & Hm & Hmx); [lia|].
      rewrite Hm in Hgrow. cbn [mbind outcome_bind] in Hgrow. injection Hgrow as <-. cbn.
      split_and!; try congruence; [lia|]. intros x Hx. by rewrite Hmx, Hmem.
    - injection Hgrow as <-. split_and!; try congruence; lia. }
  destruct H2 as (Hps3 & Hba2 & Hbu2 & Hfit & Hmem2). rewrite Hbu2.
  split; cbn; rewrite ?Hba2, ?Hbu2 in *.
  - split; cbn; [destruct Hpg as (k & ? & ?); exists k; cbn; by rewrite Hps3|right; lia].
  - lia.
  - intros Hne. rewrite (Hsame Hne) in *. lia.
  - intros Hne. apply Halm, Hne.
  - intros x Hne Hx. rewrite (Hsame Hne) in *. rewrite Hmem2 by lia. done.
Qed.

Lemma AreaAllocator_Allocate_page a size align ret a' :
  AreaAllocator_Allocate mmap bp a size align = Ok (ret, a') -> page_size a' = page_size a.
Proof.
  unfold AreaAllocator_Allocate. intros (a1 & H1 & (a2 & H2 & [= <- <-])%bind_ok)%bind_ok. cbn.
  transitivity (page_size a1).
  - unfold area_grow in H2. assert (Hb : page_size (area_align a1 align) = page_size a1) by (unfold area_align; by repeat case_match).
    case_match; [|by injection H2 as <-]. case_match; [|done].
    apply bind_ok in H2 as (? & _ & H2). by apply bind_ok in H2 as (m & _ & [= <-]).
  - unfold area_init in H1. case_match; [|by injection H1 as <-]. case_match; [|done].
    by apply bind_ok in H1 as (m & _ & [= <-]).
Qed.

Lemma AreaAllocator_Allocate_preferred a size align ret a' :
  AreaAllocator_Allocate mmap bp a size align = Ok (ret, a') -> preferred_base a' = preferred_base a.
Proof.
  unfold AreaAllocator_Allocate. intros (a1 & H1 & (a2 & H2 & [= <- <-])%bind_ok)%bind_ok. cbn.
  transitivity (preferred_base a1).
  - unfold area_grow in H2. assert (Hb : preferred_base (area_align a1 align) = preferred_base a1)
      by (unfold area_align; by repeat case_match).
    case_match; [|by injection H2 as <-]. case_match; [|done].
    apply bind_ok in H2 as (? & _ & H2). by apply bind_ok in H2 as (m & _ & [= <-]).
  - unfold area_init in H1. case_match; [|by injection H1 as <-]. case_match; [|done].
    by apply bind_ok in H1 as (m & _ & [= <-]).
Qed.

(** With a host that grants every request, an allocation succeeds. *)
Lemma area_Allocate_total a size align :
  (forall n addr sz, exists ret, mmap n addr sz false = Some ret) ->
  (forall n addr sz, 0 < addr -> mmap n addr sz true = Some addr) ->
  0 <= preferred_base a -> area_inv a -> 0 <= size -> 0 <= align -> size + align + page_size a < two64 ->
  exists ret a', AreaAllocator_Allocate mmap bp a size align = Ok (ret, a').
Proof.
  intros Hany Hfixed Hpref Hinv Hs Hal Hov. pose proof (proj1 Hinv) as Hpg. pose proof (page_ok_pos a Hpg) as Hpos.
  unfold AreaAllocator_Allocate.
  assert (H1 : exists a1, area_init mmap bp a size = Ok a1 /\ page_size a1 = page_size a /\ area_inv a1 /\
             0 < area_limit a1).
  { unfold area_init. destruct (Z.eqb_spec (area_base a) 0) as [E|E].
    2:{ exists a. split_and!; try done; try apply Hinv. destruct Hinv as [_ [[? _]|?]]; [done|lia]. }
    cbv zeta. set (asz := if page_size a <? size then _ else _).
    assert (0 <= asz). { subst asz. case_match; [pose proof (round_pages_spec a size Hpg Hs)|]; lia. }
    assert (exists ret, mmap (mmap_calls a) (preferred_base a) asz (negb (preferred_base a =? 0)) = Some ret) as [ret Hr].
    { destruct (Z.eqb_spec (preferred_base a) 0); cbn; [apply Hany|rewrite Hfixed by lia; eauto]. }
    rewrite Hr. apply mmap_nonnull in Hr.
    destruct (mapped_memory_spec a ret asz) as (m & -> & _); [done|]. cbn [mbind outcome_bind].
    eexists. split; [done|]. split; [done|]. split; [|cbn; lia].
    split; [destruct Hpg as (k & ? & ?); by exists k|]. right. cbn. lia. }
  destruct H1 as (a1 & -> & Hps1 & Hinv1 & Hlim). cbn [mbind outcome_bind].
  destruct (area_align_spec a1 align Hinv1 Hal) as (Hbu & Halm & Hal0 & Hps2 & Hba & Hli & Hmem & Hex).
  set (b := area_align a1 align) in *. unfold area_grow.
  destruct (Z.leb_spec (area_limit b) (bump b + size)); [|cbn; eauto]. cbv zeta.
  set (asz := if _ =? 0 then _ else _). rewrite Hfixed, Z.eqb_refl by lia. cbn [check mbind outcome_bind].
  assert (0 <= asz).
  { assert (Hpb : page_ok b) by (destruct Hpg as (k & ? & ?); exists k; by rewrite Hps2, Hps1).
    pose proof (page_ok_pos b Hpb). subst asz. case_match; [lia|].
    unfold round_pages. apply Z.land_nonneg. left. apply wrap64_u64. }
  destruct (mapped_memory_spec b (area_limit b) asz) as (m & -> & _); [done|]. cbn. eauto.
Qed.
End area.

(** ** Zones *)

(** A block is a base and a size. *)
Definition sep (x y : Z * Z) : Prop := x.1 + x.2 <= y.1 \/ y.1 + y.2 <= x.1.

Fixpoint separate (bs : list (Z * Z)) : Prop :=
  match bs with
  | [] => True
  | b :: bs => Forall (sep b) bs /\ separate bs
  end.

#[global] Instance sep_symmetric : Symmetric sep.
Proof. intros x y. unfold sep. tauto. Qed.

#[global] Instance separate_proper : Proper ((≡ₚ) ==> iff) separate.
Proof.
  assert (Himp : forall l l', l ≡ₚ l' -> separate l -> separate l').
  { induction 1 as [|x l l' Hp IH|x y l|l l' l'' _ IH1 _ IH2]; cbn.
    - done.
    - intros [Hx Hl]. split; [by rewrite <- Hp|auto].
    - rewrite !Forall_cons. intros ([Hs Hx] & Hy & Hl). split_and!; done || by symmetry.
    - auto. }
  intros l l' Hp. split; apply Himp; [done|by symmetry].
Qed.

Lemma separate_app l1 l2 :
  separate (l1 ++ l2) <-> separate l1 /\ separate l2 /\ (forall x y, x ∈ l1 -> y ∈ l2 -> sep x y).
Proof.
  induction l1 as [|b l1 IH]; cbn.
  - split; [intros; split_and!; try done; by intros x y ?%elem_of_nil|tauto].
  - rewrite IH, Forall_app. split.
    + intros ([H1 H2] & H3 & H4 & H5). split_and!; try done.
      intros x y [->|Hx]%elem_of_cons Hy; [by apply (proj1 (Forall_forall _ _) H2)|by apply H5].
    + intros ([H1 H2] & H3 & H4). split_and!; try done.
      * apply Forall_forall. intros y Hy. apply H4; [by apply list_elem_of_here|done].
      * intros x y Hx Hy. apply H4; [by apply list_elem_of_further|done].
Qed.

(** The blocks of a free list. *)
Definition free_blocks (fl : list (Z * list Z)) : list (Z * Z) :=
  fl ≫= fun '(k, bs) => (fun b => (b, k)) <$> bs.

Lemma push_free_blocks fl size base :
  free_blocks (push_free fl size base) ≡ₚ (base, size) :: free_blocks fl.
Proof.
  induction fl as [|[k bs] fl IH]; [done|]. cbn [push_free].
  destruct (Z.eqb_spec size k) as [->|Hne].
  - unfold free_blocks. cbn. rewrite fmap_app. cbn. rewrite <- app_assoc. cbn. by rewrite <- Permutation_middle.
  - destruct (Z.ltb_spec size k); [done|]. unfold free_blocks in *. cbn. rewrite IH. by rewrite Permutation_middle.
Qed.

Lemma removelast_last {A} (l : list A) x : last l = Some x -> l = removelast l ++ [x].
Proof.
  induction l as [|y l IH]; [done|]. destruct l as [|z l]; cbn.
  - by intros [= ->].
  - intros H. f_equal. by apply IH.
Qed.

Lemma pop_lower_bound_blocks fl size b k fl' :
  pop_lower_bound fl size = Some (b, k, fl') ->
  size <= k /\ free_blocks fl ≡ₚ (b, k) :: free_blocks fl'.
Proof.
  revert fl'. induction fl as [|[k0 bs] fl IH]; intros fl'; cbn [pop_lower_bound]; [done|].
  destruct (Z.leb_spec size k0).
  - destruct (last bs) as [b0|] eqn:El; [|done]. intros [= <- <- <-]. split; [done|].
    unfold free_blocks. cbn. rewrite (removelast_last bs b0 El) at 1. rewrite fmap_app. cbn.
    rewrite <- app_assoc. cbn. by rewrite <- Permutation_middle.
  - destruct (pop_lower_bound fl size) as [[[b0 k1] fl0]|] eqn:Ep; [|done]. intros [= <- <- <-].
    destruct (IH fl0 eq_refl) as [? Hp]. split; [done|]. unfold free_blocks in *. cbn. rewrite Hp.
    by rewrite <- Permutation_middle.
Qed.

(** The invariant, with the blocks the clients hold as a ghost list: live and
    free blocks are pairwise disjoint and inside the used part of the area. *)
Record zone_inv (z : ZoneAllocator) (live : list (Z * Z)) : Prop := {
  zi_area : area_inv (allocator z);
  zi_sep : separate (live ++ free_blocks (free_list z));
  zi_in b : b ∈ live ++ free_blocks (free_list z) ->
    0 < area_base (allocator z) <= b.1 /\ 0 <= b.2 /\ b.1 + b.2 <= bump (allocator z)
}.

Section zone.
Context (mmap : nat -> Z -> Z -> bool -> option Z) (bp : list Z).
Hypothesis mmap_nonnull : forall n addr size fixed ret, mmap n addr size fixed = Some ret -> 0 < ret.
Hypothesis bp_nonempty : (0 < length bp)%nat.

(** Freeing a live block. *)
Lemma Free_spec z live base size :
  zone_inv z ((base, size) :: live) ->
  zone_inv (fst (Free z (MkZoneAllocation base size))) live /\
  snd (Free z (MkZoneAllocation base size)) = MkZoneAllocation 0 0 /\
  allocator (fst (Free z (MkZoneAllocation base size))) = allocator z.
Proof.
  intros [Ha Hs Hi]. unfold Free. cbn.
  destruct (Hi (base, size)) as (Hb & _); [by apply list_elem_of_here|]. cbn in Hb.
  destruct (Z.eqb_spec base 0); [lia|]. cbn. split_and!; try done.
  assert (Hp : live ++ free_blocks (push_free (free_list z) size base) ≡ₚ
               ((base, size) :: live) ++ free_blocks (free_list z)).
  { rewrite push_free_blocks. cbn. by rewrite Permutation_middle. }
  split; cbn; [done|by rewrite Hp|]. intros b Hb'. apply Hi. by rewrite <- Hp.
Qed.

(** The memory outside the new block. *)
Definition keeps_mem (z z' : ZoneAllocator) (live : list (Z * Z)) : Prop :=
  forall b x, b ∈ live -> b.1 <= x < b.1 + b.2 -> mem (allocator z') !! x = mem (allocator z) !! x.

Record zone_post (z : ZoneAllocator) (live : list (Z * Z)) (size : Z) (alloc : ZoneAllocation)
    (z' : ZoneAllocator) : Prop := {
  zp_inv : zone_inv z' ((za_base alloc, za_size alloc) :: live);
  zp_size : size <= za_size alloc;
  zp_zero x : za_base alloc <= x < za_base alloc + size -> mem (allocator z') !! x = Some 0;
  zp_mem : keeps_mem z z' live
}.

(** Before [bzero], only the invariant and the bounds matter. *)
Lemma zone_post_bzero z z1 live size alloc :
  0 <= size -> zone_inv z1 ((za_base alloc, za_size alloc) :: live) -> size <= za_size alloc ->
  keeps_mem z z1 live -> zone_post z live size alloc (bzero z1 (za_base alloc) size).
Proof.
  intros H0 [Ha Hs Hi] Hsz Hm. split; try done.
  - intros x Hx. cbn. rewrite lookup_fill, decide_True by lia. done.
  - intros b x Hb Hx. cbn. rewrite lookup_fill, decide_False; [by apply (Hm b x)|].
    cbn in Hs. destruct Hs as [Hs _]. apply Forall_app in Hs as [Hs _].
    pose proof (proj1 (Forall_forall _ _) Hs b Hb) as Hsep. unfold sep in Hsep. cbn in Hsep. lia.
Qed.

Lemma ZoneAllocator_Allocate_spec z live size alloc z' :
  zone_inv z live -> 0 <= size -> size + 64 + page_size (allocator z) < two64 ->
  ZoneAllocator_Allocate mmap bp z size = Ok (alloc, z') -> zone_post z live size alloc z'.
Proof.
  intros Hz Hs Hov Heq. unfold ZoneAllocator_Allocate in Heq. apply bind_ok in Heq as ([al z1] & Hal & Heq).
  injection Heq as <- <-. destruct Hz as [Ha Hsep Hin].
  destruct (pop_lower_bound (free_list z) size) as [[[b k] fl]|] eqn:Epop.
  - apply pop_lower_bound_blocks in Epop as [Hle Hp].
    assert (Hz0 : zone_inv (MkZone (allocator z) fl) ((b, k) :: live)).
    { assert (Hq : live ++ free_blocks (free_list z) ≡ₚ ((b, k) :: live) ++ free_blocks fl).
      { rewrite Hp. cbn. by rewrite Permutation_middle. }
      split; cbn [allocator free_list]; [done|by rewrite <- Hq|]. intros x Hx. apply Hin. by rewrite Hq. }
    destruct (Z.eqb_spec k size) as [->|Hne].
    { injection Hal as <- <-. by apply zone_post_bzero. }
    destruct (Z.leb_spec size k); [|lia]. cbn [check mbind outcome_bind] in Hal.
    destruct (Z.ltb_spec zone_page_size (k - size)) as [Hd|Hd]; [|injection Hal as <- <-; by apply zone_post_bzero].
    destruct Hz0 as [Ha0 Hs0 Hi0]. cbn [allocator free_list] in *. cbn in Hs0. destruct Hs0 as [Hf0 Hs0].
    assert (Hb0 : 0 < area_base (allocator z) <= b /\ b + k <= bump (allocator z)).
    { destruct (Hi0 (b, k)) as (? & ? & ?); [by apply list_elem_of_here|]. cbn in *. lia. }
    unfold zone_page_size in Hd.
    assert (Hz2 : zone_inv (MkZone (allocator z) fl) ((b, k - size) :: (b + (k - size), size) :: live)).
    { assert (Hsub : forall b', sep (b, k) b' -> sep (b, k - size) b' /\ sep (b + (k - size), size) b').
      { intros b'. unfold sep. cbn. lia. }
      split; cbn [allocator free_list]; [done| |].
      - cbn. rewrite Forall_cons. split_and!; try done.
        + unfold sep. cbn. lia.
        + eapply Forall_impl; [exact Hf0|]. intros b' Hb'. by apply Hsub.
        + eapply Forall_impl; [exact Hf0|]. intros b' Hb'. by apply Hsub.
      - intros x Hx. cbn in Hx. rewrite !elem_of_cons in Hx.
        destruct Hx as [->|[->|Hx]]; cbn; [lia|lia|]. apply Hi0. cbn. by apply list_elem_of_further. }
    apply Free_spec in Hz2 as (Hz3 & _ & Hall). destruct (Free _ _) as [z2 rst] eqn:EF. cbn [fst snd] in Hz3, Hall.
    injection Hal as <- <-. apply zone_post_bzero; [done|done|done|]. intros b' x _ _. by rewrite Hall.
  - apply bind_ok in Hal as ([b a] & Hal & Hret). injection Hret as <- <-.
    apply (area_Allocate_spec mmap bp mmap_nonnull bp_nonempty) in Hal; [|done|done|lia|lia].
    destruct Hal as [Hai (Hb1 & Hb2 & Hb3) Hbase _ Hmem].
    assert (Hold : forall x, x ∈ live ++ free_blocks (free_list z) -> area_base (allocator z) <> 0).
    { intros x Hx. destruct (Hin x Hx). lia. }
    apply zone_post_bzero; cbn; [done| |lia|].
    + split; cbn [allocator free_list]; [done| |].
      * cbn. split; [|done]. apply Forall_forall. intros x Hx. destruct (Hin x Hx) as (? & ? & ?).
        destruct (Hbase (Hold x Hx)). unfold sep. cbn. lia.
      * intros x [->|Hx]%elem_of_cons; cbn; [lia|]. destruct (Hin x Hx) as (? & ? & ?).
        destruct (Hbase (Hold x Hx)) as [-> ?]. lia.
    + intros b' x Hb' Hx. cbn. assert (Hb'' : b' ∈ live ++ free_blocks (free_list z)) by (apply elem_of_app; by left).
      apply Hmem; [by eapply Hold|]. destruct (Hin b' Hb'') as (? & ? & ?). lia.
Qed.

(** ** Client histories *)

(** A client allocates, frees what it holds and writes inside its blocks. *)
Inductive zone_step : ZoneAllocator * list (Z * Z) -> ZoneAllocator * list (Z * Z) -> Prop :=
| step_allocate z live size alloc z' :
    0 <= size -> size + 64 + page_size (allocator z) < two64 ->
    ZoneAllocator_Allocate mmap bp z size = Ok (alloc, z') ->
    zone_step (z, live) (z', (za_base alloc, za_size alloc) :: live)
| step_free z live1 live2 base size :
    zone_step (z, live1 ++ (base, size) :: live2) (fst (Free z (MkZoneAllocation base size)), live1 ++ live2)
| step_write z live base size x v :
    (base, size) ∈ live -> base <= x < base + size ->
    zone_step (z, live) (MkZone (with_mem (allocator z) (<[x := v]> (mem (allocator z)))) (free_list z), live).

Lemma zone_step_inv st st' :
  zone_step st st' -> zone_inv (fst st) (snd st) -> zone_inv (fst st') (snd st').
Proof.
  intros Hst. destruct Hst as [z live size alloc z' Hs Hov Heq|z live1 live2 base size|z live base size x v Hin Hx];
    cbn [fst snd]; intros Hz.
  - by apply (ZoneAllocator_Allocate_spec z live size alloc z').
  - apply Free_spec. destruct Hz as [Ha Hs Hi].
    assert (Hp : (live1 ++ (base, size) :: live2) ++ free_blocks (free_list z) ≡ₚ
                 ((base, size) :: live1 ++ live2) ++ free_blocks (free_list z)).
    { by rewrite <- (Permutation_middle live1 live2). }
    split; [done|by rewrite <- Hp|]. intros b Hb. apply Hi. by rewrite Hp.
  - destruct Hz as [Ha Hs Hi]. by split.
Qed.

Lemma zone_steps_inv st st' :
  rtc zone_step st st' -> zone_inv (fst st) (snd st) -> zone_inv (fst st') (snd st').
Proof. induction 1; eauto using zone_step_inv. Qed.
End zone.

Lemma zone_inv_new perms pref k :
  0 <= k <= 40 -> zone_inv (ZoneAllocator_new perms pref (2 ^ k)) [].
Proof.
  intros Hk. split; cbn; [|done|by intros b ?%elem_of_nil].
  split; [by exists k|by left].
Qed.

(** ** What the zone allocator promises *)

(** A host that maps every request where asked, and at [0x10000] otherwise. *)
Definition demo_mmap (n : nat) (addr size : Z) (fixed : bool) : option Z := Some (if fixed then Z.max 1 addr else 65536).

(** C33: in every history of allocations, frees and writes by clients, the
    blocks the clients hold are pairwise disjoint, whatever was reused or
    split from the free lists. *)
Theorem zone_blocks_disjoint mmap bp perms pref k z live :
  (forall n addr size fixed ret, mmap n addr size fixed = Some ret -> 0 < ret) -> (0 < length bp)%nat ->
  0 <= k <= 40 -> rtc (zone_step mmap bp) (ZoneAllocator_new perms pref (2 ^ k), []) (z, live) -> separate live.
Proof.
  intros Hnn Hbp Hk Hst. pose proof (zone_steps_inv mmap bp Hnn Hbp _ _ Hst (zone_inv_new perms pref k Hk)) as Hz.
  apply zi_sep, separate_app in Hz. tauto.
Qed.

(** An allocation returns at least the requested size, zeroed, disjoint
    from every block in use, and leaves the contents of those blocks alone. *)
Theorem zone_allocate_correct mmap bp z live size alloc z' :
  (forall n addr size fixed ret, mmap n addr size fixed = Some ret -> 0 < ret) -> (0 < length bp)%nat ->
  zone_inv z live -> 0 <= size -> size + 64 + page_size (allocator z) < two64 ->
  ZoneAllocator_Allocate mmap bp z size = Ok (alloc, z') -> zone_post z live size alloc z'.
Proof. intros ? ?. by apply ZoneAllocator_Allocate_spec. Qed.

Definition demo_zone : ZoneAllocator := ZoneAllocator_new kAreaRW 0 (2 ^ 7).
Definition demo_zone1 : ZoneAllocation * ZoneAllocator :=
  match ZoneAllocator_Allocate demo_mmap [204] demo_zone 100 with Ok p => p | _ => (MkZoneAllocation 0 0, demo_zone) end.

Lemma demo_mmap_nonnull n addr size fixed ret : demo_mmap n addr size fixed = Some ret -> 0 < ret.
Proof. unfold demo_mmap. intros [= <-]. destruct fixed; lia. Qed.

Lemma demo_zone1_eq :
  ZoneAllocator_Allocate demo_mmap [204] demo_zone 100 = Ok (fst demo_zone1, snd demo_zone1).
Proof. vm_compute. reflexivity. Qed.

Lemma zone_blocks_disjoint_witness :
  separate [(za_base (fst demo_zone1), za_size (fst demo_zone1))] /\ za_base (fst demo_zone1) = 65536.
Proof.
  split; [|vm_compute; reflexivity].
  apply (zone_blocks_disjoint demo_mmap [204] kAreaRW 0 7 (snd demo_zone1)).
  - exact demo_mmap_nonnull.
  - cbn. lia.
  - lia.
  - apply rtc_once. exact (step_allocate demo_mmap [204] demo_zone [] 100 _ _ ltac:(lia) eq_refl demo_zone1_eq).
Defined.

Lemma zone_allocate_correct_witness : zone_post demo_zone [] 100 (fst demo_zone1) (snd demo_zone1).
Proof.
  apply (zone_allocate_correct demo_mmap [204]).
  - exact demo_mmap_nonnull.
  - cbn. lia.
  - apply (zone_inv_new kAreaRW 0 7). lia.
  - lia.
  - reflexivity.
  - exact demo_zone1_eq.
Defined.

(** On a host that grants every mapping request the bump allocator
    always returns, aligned as asked and inside its mapping, after every
    earlier block. *)
Theorem area_allocate_total mmap bp a size align :
  (forall n addr size fixed ret, mmap n addr size fixed = Some ret -> 0 < ret) -> (0 < length bp)%nat ->
  (forall n addr sz, exists ret, mmap n addr sz false = Some ret) ->
  (forall n addr sz, 0 < addr -> mmap n addr sz true = Some addr) ->
  0 <= preferred_base a -> area_inv a -> 0 <= size -> 0 <= align -> size + align + page_size a < two64 ->
  exists ret a', AreaAllocator_Allocate mmap bp a size align = Ok (ret, a') /\ area_post a size align ret a'.
Proof.
  intros Hnn Hbp Hany Hfix Hpref Hinv Hs Hal Hov.
  destruct (area_Allocate_total mmap bp Hnn Hbp a size align) as (ret & a' & Heq); try done.
  exists ret, a'. split; [done|]. by apply (area_Allocate_spec mmap bp).
Qed.

Lemma area_allocate_total_witness :
  exists ret a', AreaAllocator_Allocate demo_mmap [204] (allocator demo_zone) 10 8 = Ok (ret, a') /\ ret mod 8 = 0.
Proof.
  destruct (area_allocate_total demo_mmap [204] (allocator demo_zone) 10 8) as (ret & a' & Heq & Hp).
  - exact demo_mmap_nonnull.
  - cbn. lia.
  - intros n addr sz. exists 65536. reflexivity.
  - intros n addr sz Ha. unfold demo_mmap. f_equal. lia.
  - cbn. lia.
  - exact (zi_area _ _ (zone_inv_new kAreaRW 0 7 ltac:(lia))).
  - lia.
  - lia.
  - reflexivity.
  - exists ret, a'. split; [exact Heq|]. apply (ap_align _ _ _ _ _ Hp). lia.
Defined.
