(* ===== verification/FileCache.v ===== *)
(** * File-backed caches

    Models [vmill/Util/FileBackedCache.h]: an append-only array of fixed-size
    entries that lives in a shared file mapping.  The file is its size and the
    entries written to it, by index; an absent entry reads as zero bytes.
    [sz] is [sizeof(T)].  The reservation [mmap] and [fstat] always succeed in
    the model; whether the file mapping succeeds is an argument of [Open]. *)

From S2P Require Import Prelude.

Section cache.
Context {T : Type} (sz : Z).

Record File := MkFile { fsize : Z; cells : gmap Z T }.

(** The cache: [soft_limit - base] and [hard_limit - base], in entries. *)
Record FileBackedCache := MkCache { cfile : File; soft_limit : Z; hard_limit : Z }.

Definition k1MiB : Z := 1048576.
Definition kMaxCacheFileSize : Z := 64 * k1MiB.

(** [(n + 4095ULL) & ~4095ULL] *)
Definition round4096 (n : Z) : Z := Z.land (add64 n 4095) (not64 4095).

Definition NumEntries (c : FileBackedCache) : Z := soft_limit c.
Definition AvailableNumEntries (c : FileBackedCache) : Z := hard_limit c.
Definition MaxNumEntries : Z := kMaxCacheFileSize / sz.

(** [ftruncate]: entries wholly beyond the new size are lost. *)
Definition ftruncate (f : File) (n : Z) : File :=
  MkFile n (if n <? fsize f then filter (fun p : Z * T => fst p < n / sz) (cells f) else cells f).

Definition Open (f : File) (map_succeeds : bool) : FileBackedCache :=
  let file_size := fsize f in
  let mapped_size := round4096 file_size in
  let f := if file_size <? mapped_size then ftruncate f mapped_size else f in
  let destroy := negb (mapped_size =? 0) && negb map_succeeds in
  let f := if destroy then ftruncate f 0 else f in
  let file_size := if destroy then 0 else file_size in
  let mapped_size := if destroy then 0 else mapped_size in
  MkCache f (file_size / sz) (mapped_size / sz).

Fixpoint copy_in (m : gmap Z T) (i : Z) (entries : list T) : gmap Z T :=
  match entries with
  | [] => m
  | e :: entries => copy_in (<[i := e]> m) (i + 1) entries
  end.

(** [Extend(entries)]; the mapping calls succeed. *)
Definition Extend (c : FileBackedCache) (entries : list T) : outcome FileBackedCache :=
  match entries with
  | [] => Ok c
  | _ =>
      let old_soft_limit := soft_limit c in
      let new_num_entries := Z.of_nat (length entries) + NumEntries c in
      let new_size := mul64 new_num_entries sz in
      let new_hard_size := round4096 new_size in
      f ← (if AvailableNumEntries c <? new_num_entries then
             check (new_hard_size <=? kMaxCacheFileSize) ;;
             Ok (ftruncate (cfile c) new_hard_size)
           else Ok (cfile c));
      let hard := new_hard_size / sz in
      let soft := new_num_entries in
      check (soft <=? hard) ;;
      Ok (MkCache (MkFile (fsize f) (copy_in (cells f) old_soft_limit entries)) soft hard)
  end.

Definition Append (c : FileBackedCache) (entry : T) : outcome FileBackedCache := Extend c [entry].

(** The destructor: the file it leaves behind. *)
Definition Close (c : FileBackedCache) : File :=
  if NumEntries c <? AvailableNumEntries c then ftruncate (cfile c) (mul64 sz (NumEntries c)) else cfile c.

(** ** Properties *)

Context (Hsz : 0 < sz <= kMaxCacheFileSize).

(** The entries, from [begin()] to [end()]. *)
Definition contents (c : FileBackedCache) : list (option T) :=
  (fun i => cells (cfile c) !! i) <$> seqZ 0 (soft_limit c).

Record cache_inv (c : FileBackedCache) : Prop := {
  ci_size : 0 <= fsize (cfile c) <= kMaxCacheFileSize /\ fsize (cfile c) mod 4096 = 0;
  ci_soft : 0 <= soft_limit c /\ soft_limit c * sz <= fsize (cfile c);
  ci_hard : hard_limit c = fsize (cfile c) / sz;
  ci_tight : fsize (cfile c) <= round4096 ((soft_limit c + 1) * sz)
}.

Lemma round4096_eq n : 0 <= n <= kMaxCacheFileSize * 4 -> round4096 n = (n + 4095) / 4096 * 4096.
Proof.
  intros Hn. unfold kMaxCacheFileSize, k1MiB in *. unfold round4096.
  rewrite add64_small by (unfold two64; lia).
  change (not64 4095) with (not64 (2 ^ 12 - 1)). rewrite land_not64_ones by (unfold u64, two64; lia).
  change (2 ^ 12) with 4096. pose proof (Z.div_mod (n + 4095) 4096). lia.
Qed.

Lemma round4096_spec n :
  0 <= n <= kMaxCacheFileSize * 4 ->
  n <= round4096 n < n + 4096 /\ round4096 n mod 4096 = 0.
Proof.
  intros Hn. rewrite round4096_eq by done. split; [|by apply Z.mod_mul].
  pose proof (Z.div_mod (n + 4095) 4096). pose proof (Z.mod_pos_bound (n + 4095) 4096). lia.
Qed.

Lemma round4096_mono n m : 0 <= n <= m -> m <= kMaxCacheFileSize * 4 -> round4096 n <= round4096 m.
Proof.
  intros Hn Hm. rewrite !round4096_eq by lia. pose proof (Z.div_le_mono (n + 4095) (m + 4095) 4096). lia.
Qed.

Lemma round4096_id n : 0 <= n <= kMaxCacheFileSize -> n mod 4096 = 0 -> round4096 n = n.
Proof.
  intros Hn Hm. rewrite round4096_eq by lia. pose proof (Z.div_mod n 4096).
  replace (n + 4095) with (4095 + n / 4096 * 4096) by lia. rewrite Z.div_add by done.
  change (4095 / 4096) with 0. lia.
Qed.

Lemma lookup_copy_in m i es x :
  copy_in m i es !! x = if decide (i <= x < i + Z.of_nat (length es)) then es !! Z.to_nat (x - i) else m !! x.
Proof.
  revert m i. induction es as [|e es IH]; intros m i; cbn [copy_in length].
  - by rewrite decide_False by lia.
  - rewrite IH. destruct (decide (x = i)) as [->|Hne].
    + rewrite decide_False, decide_True, lookup_insert_eq by lia. by rewrite Z.sub_diag.
    + rewrite lookup_insert_ne by done. repeat case_decide; try lia; [|done].
      replace (Z.to_nat (x - i)) with (S (Z.to_nat (x - (i + 1)))) by lia. done.
Qed.

Lemma contents_split (m : gmap Z T) n k :
  0 <= n -> (fun i => m !! i) <$> seqZ 0 (n + Z.of_nat k) =
    ((fun i => m !! i) <$> seqZ 0 n) ++ ((fun i => m !! i) <$> seqZ n (Z.of_nat k)).
Proof. intros Hn. rewrite seqZ_app by lia. by rewrite fmap_app. Qed.

Lemma Extend_spec c es :
  cache_inv c -> 0 <= (Z.of_nat (length es) + soft_limit c) * sz <= kMaxCacheFileSize ->
  exists c', Extend c es = Ok c' /\ cache_inv c' /\
    contents c' = contents c ++ (Some <$> es).
Proof.
  intros [[Hf0 Hfm] [Hs0 Hs1] Hh Ht] Hfit. destruct es as [|e es0].
  { exists c. split; [done|]. split; [done|]. by rewrite app_nil_r. }
  set (es := e :: es0) in *. assert (Hlen : 0 < Z.of_nat (length es)) by (cbn; lia).
  unfold Extend. cbn [es]. fold es. cbv zeta. unfold NumEntries, AvailableNumEntries.
  set (nn := Z.of_nat (length es) + soft_limit c) in *.
  assert (Hmul : mul64 nn sz = nn * sz).
  { apply mul64_small. unfold kMaxCacheFileSize, k1MiB, two64 in *. lia. }
  rewrite Hmul. assert (Hks : kMaxCacheFileSize mod 4096 = 0) by done.
  destruct (round4096_spec (nn * sz)) as [Hr Hrm]; [lia|].
  assert (Hmax : round4096 (nn * sz) <= kMaxCacheFileSize).
  { etrans; [apply (round4096_mono _ kMaxCacheFileSize); lia|]. by rewrite round4096_id. }
  assert (Hcov : nn <= round4096 (nn * sz) / sz) by (apply Z.div_le_lower_bound; lia).
  set (f := if hard_limit c <? nn then ftruncate (cfile c) (round4096 (nn * sz)) else cfile c).
  assert (Hff : (if hard_limit c <? nn then check (round4096 (nn * sz) <=? kMaxCacheFileSize) ;;
                   Ok (ftruncate (cfile c) (round4096 (nn * sz))) else Ok (cfile c)) = Ok f).
  { subst f. destruct (hard_limit c <? nn); [|done]. by rewrite (proj2 (Z.leb_le _ _) Hmax). }
  rewrite Hff. cbn [mbind outcome_bind]. rewrite (proj2 (Z.leb_le _ _) Hcov). cbn [check mbind outcome_bind].
  assert (Hfs : fsize f = round4096 (nn * sz) /\ forall i, i < soft_limit c -> cells f !! i = cells (cfile c) !! i).
  { subst f. destruct (Z.ltb_spec (hard_limit c) nn) as [Hlt|Hge]; cbn.
    - split; [done|]. intros i Hi. case_match eqn:E; [|done]. rewrite map_lookup_filter. cbn.
      destruct (cells (cfile c) !! i); [|done]. cbn. rewrite option_guard_True; [done|]. lia.
    - split; [|done]. rewrite Hh in Hge.
      assert (nn * sz <= fsize (cfile c)). { pose proof (Z.mul_div_le (fsize (cfile c)) sz). nia. }
      apply Z.le_antisymm.
      + etrans; [exact Ht|]. apply round4096_mono; nia.
      + rewrite <- (round4096_id (fsize (cfile c))) by done. apply round4096_mono; lia. }
  destruct Hfs as [Hfs Hcells]. eexists. split; [done|]. split.
  - split; cbn; rewrite ?Hfs; [lia|lia|done|]. apply round4096_mono; [lia|].
    unfold kMaxCacheFileSize, k1MiB in *. nia.
  - unfold contents. cbn [cfile soft_limit cells]. unfold nn.
    replace (Z.of_nat (length es) + soft_limit c) with (soft_limit c + Z.of_nat (length es)) by lia.
    rewrite contents_split by done. f_equal.
    + apply list_fmap_ext. intros i x [-> Hi]%lookup_seqZ. rewrite lookup_copy_in, decide_False by lia.
      apply Hcells. lia.
    + apply list_eq. intros i. rewrite !list_lookup_fmap.
      destruct (decide (i < length es)%nat) as [Hi|Hi].
      * rewrite lookup_seqZ_lt by lia. cbn [fmap option_fmap option_map]. rewrite lookup_copy_in, decide_True by lia.
        replace (Z.to_nat (soft_limit c + Z.of_nat i - soft_limit c)) with i by lia.
        destruct (lookup_lt_is_Some_2 es i Hi) as [v Hv]. by rewrite Hv.
      * rewrite lookup_seqZ_ge by lia. by rewrite lookup_ge_None_2 by lia.
Qed.

(** Opening a file: any size up to the maximum. *)
Lemma Open_inv f :
  0 <= fsize f <= kMaxCacheFileSize -> cache_inv (Open f true).
Proof.
  intros Hf. unfold Open. cbv zeta. rewrite andb_false_r.
  destruct (round4096_spec (fsize f)) as [Hr Hrm]; [lia|].
  assert (Hmax : round4096 (fsize f) <= kMaxCacheFileSize).
  { etrans; [apply (round4096_mono _ kMaxCacheFileSize); lia|]. by rewrite round4096_id. }
  set (f' := if fsize f <? _ then _ else f).
  assert (Hfs : fsize f' = round4096 (fsize f)).
  { subst f'. destruct (Z.ltb_spec (fsize f) (round4096 (fsize f))); [done|lia]. }
  pose proof (Z.mul_div_le (fsize f) sz). pose proof (Z.div_pos (fsize f) sz).
  pose proof (Z.mul_succ_div_gt (fsize f) sz).
  split; cbn [cfile soft_limit hard_limit]; rewrite ?Hfs; [lia|lia|done|].
  apply round4096_mono; [lia|]. unfold kMaxCacheFileSize, k1MiB in *. nia.
Qed.

(** Closing and opening again keeps the entries. *)
Lemma Close_Open c : cache_inv c -> contents (Open (Close c) true) = contents c /\ cache_inv (Open (Close c) true).
Proof.
  intros Hinv. destruct Hinv as [[Hf0 Hfm] [Hs0 Hs1] Hh Ht].
  assert (Hmul : mul64 sz (soft_limit c) = sz * soft_limit c).
  { apply mul64_small. unfold kMaxCacheFileSize, k1MiB, two64 in *. lia. }
  assert (Hsize : 0 <= fsize (Close c) <= kMaxCacheFileSize).
  { unfold Close, NumEntries. destruct (_ <? _); cbn; [rewrite Hmul; lia|lia]. }
  split; [|by apply Open_inv].
  unfold Open. cbv zeta. rewrite andb_false_r. unfold contents. cbn [cfile soft_limit].
  assert (Hnum : fsize (Close c) / sz = soft_limit c).
  { unfold Close, NumEntries, AvailableNumEntries. destruct (Z.ltb_spec (soft_limit c) (hard_limit c)); cbn.
    - rewrite Hmul, Z.mul_comm. apply Z.div_mul. lia.
    - rewrite <- Hh. apply Z.le_antisymm; [done|]. rewrite Hh. apply Z.div_le_lower_bound; lia. }
  rewrite Hnum. destruct (round4096_spec (fsize (Close c))) as [Hr _]; [lia|].
  assert (Hcl : forall i, i < soft_limit c -> cells (Close c) !! i = cells (cfile c) !! i).
  { intros i Hi. unfold Close, NumEntries. destruct (soft_limit c <? _); [|done]. cbn. case_match; [|done].
    rewrite map_lookup_filter. destruct (cells (cfile c) !! i); [|done]. cbn.
    rewrite option_guard_True; [done|]. rewrite Hmul, Z.mul_comm, Z.div_mul; lia. }
  apply list_fmap_ext. intros i x [-> Hi]%lookup_seqZ. rewrite <- Hcl by lia.
  destruct (Z.ltb_spec (fsize (Close c)) (round4096 (fsize (Close c)))); [|done]. cbn.
  destruct (Z.ltb_spec (round4096 (fsize (Close c))) (fsize (Close c))); [lia|done].
Qed.
End cache.
Arguments File : clear implicits.
Arguments FileBackedCache : clear implicits.

(** ** What a file-backed cache promises *)

(** C36: appending any entries to a cache opened from a file, closing it and
    opening it again yields the old entries followed by the appended ones, as
    long as they fit into the maximal file size; in between the hard limit is
    always the capacity of the mapped file. *)
Theorem cache_roundtrip {T} (sz : Z) (f : File T) (es : list T) :
  0 < sz <= kMaxCacheFileSize -> 0 <= fsize f <= kMaxCacheFileSize ->
  0 <= (Z.of_nat (length es) + soft_limit (Open sz f true)) * sz <= kMaxCacheFileSize ->
  exists c, Extend sz (Open sz f true) es = Ok c /\ hard_limit c = fsize (cfile c) / sz /\
    contents (Open sz (Close sz c) true) = contents (Open sz f true) ++ (Some <$> es).
Proof.
  intros Hsz Hf Hfit.
  destruct (Extend_spec sz Hsz (Open sz f true) es) as (c & Heq & Hinv & Hc); [by apply Open_inv|done|].
  exists c. split_and!; [done|apply Hinv|]. rewrite <- Hc. by apply Close_Open.
Qed.

Lemma cache_roundtrip_witness :
  exists c, Extend 24 (Open 24 (MkFile 24 {[0 := 7]}) true) [8; 9] = Ok c /\
    contents (Open 24 (Close 24 c) true) = [Some 7; Some 8; Some 9].
Proof.
  destruct (cache_roundtrip 24 (MkFile 24 {[0 := 7]}) [8; 9]) as (c & Heq & _ & Hc).
  - vm_compute. split; congruence.
  - vm_compute. split; congruence.
  - vm_compute. split; congruence.
  - exists c. split; [exact Heq|]. rewrite Hc. vm_compute. reflexivity.
Defined.
