(* ===== verification/ShadowMemory.v ===== *)
(** * Shadow memory

    Models [vmill/Program/ShadowMemory.{h,cpp}].  Shadow bytes live at
    [shadow_base + (addr >> shadow_granularity)] of the host address space and
    are mapped on demand by the [SIGSEGV] handler; addresses at or above
    [shadow_base] are kept in a hash table of objects of an [AreaAllocator].
    Host memory is a byte map; an access to an unmapped shadow byte faults.
    An access that faults is retried after the handler mapped its page, as the
    code intends; [ShadowSignals] has the handler and how it is installed. *)

From S2P Require Import Prelude Allocators.

(** ** References to single bits *)

(** [detail::BoolRef]: the byte it points to, the mask and the cached bit. *)
Record BoolRef := MkBoolRef { byte_ptr : Z; test_mask : Z; bcache : bool }.

Definition byte_at (m : gmap Z Z) (p : Z) : Z := default 0 (m !! p).

Definition BoolRef_new (m : gmap Z Z) (p bit_offset : Z) : BoolRef :=
  let mask := Z.shiftl 1 bit_offset in
  MkBoolRef p mask (negb (Z.land (byte_at m p) mask =? 0)).

(** [operator=(bool)]: the memory and the reference afterwards. *)
Definition BoolRef_assign (m : gmap Z Z) (r : BoolRef) (that : bool) : gmap Z Z * BoolRef :=
  if Bool.eqb that (bcache r) then (m, r)
  else
    let b := byte_at m (byte_ptr r) in
    let b := if that then Z.lor b (test_mask r) else Z.lxor b (test_mask r) in
    (<[byte_ptr r := b]> m, MkBoolRef (byte_ptr r) (test_mask r) that).

Definition BoolRef_get (r : BoolRef) : bool := bcache r.

(** ** Page sizes *)

Fixpoint GreatestCommonDivisor (fuel : nat) (k m : Z) : outcome Z :=
  if k =? m then Ok k
  else match fuel with
       | O => Diverges
       | S fuel => if m <? k then GreatestCommonDivisor fuel (k - m) m
                   else GreatestCommonDivisor fuel k (m - k)
       end.

(** Every iteration lowers [k + m]. *)
Definition gcd_fuel (k m : Z) : nat := Z.to_nat (k + m).

Definition LeastCommonMultiple (k m : Z) : outcome Z :=
  g ← GreatestCommonDivisor (gcd_fuel k m) k m;
  if g =? 0 then Undefined else Ok (mul64 k m / g).

(** ** The shadow *)

Record ShadowMemory := MkShadow {
  shadow_granularity : Z;
  shadow_base : Z;
  page_granularity : Z;
  last_shadow_address : Z;
  last_shadow_elem_size_bits : Z;
  last_forced_shadow_byte : Z;
  shadow_pages : list Z;
  last_shadow_page_size : Z;
  out_of_range : gmap Z Z;
  out_of_range_allocator : AreaAllocator;
  host : gmap Z Z
}.

Definition ShadowMemory_new (gran page_gran base : Z) : ShadowMemory :=
  MkShadow gran base page_gran 0 0 0 [] 0 ∅ (AreaAllocator_new kAreaRW 0 4096) ∅.

Definition with_last (s : ShadowMemory) (addr bits byte : Z) : ShadowMemory :=
  MkShadow (shadow_granularity s) (shadow_base s) (page_granularity s) addr bits byte
    (shadow_pages s) (last_shadow_page_size s) (out_of_range s) (out_of_range_allocator s) (host s).

Definition page_mapped (s : ShadowMemory) (a : Z) : bool :=
  existsb (fun p => (p <=? a) && (a <? p + last_shadow_page_size s)) (shadow_pages s).

(** [AddPageForAddress(addr)] with an [mmap] that returns the address asked
    for. *)
Definition AddPageForAddress (s : ShadowMemory) (addr : Z) : outcome (bool * ShadowMemory) :=
  if negb (addr =? last_shadow_address s) then Ok (false, s)
  else
    let page_size := Z.shiftl 1 (page_granularity s) in
    shadow_page_size ← LeastCommonMultiple
      (Z.shiftr page_size (shadow_granularity s) * last_shadow_elem_size_bits s / 8) 4096;
    check ((last_shadow_page_size s =? 0) || (last_shadow_page_size s =? shadow_page_size)) ;;
    let page_offset := (addr - shadow_base s) / shadow_page_size * shadow_page_size in
    let shadow_page := page_offset + shadow_base s in
    check ((shadow_page <=? addr) && (addr <? shadow_page + shadow_page_size)) ;;
    Ok (true, MkShadow (shadow_granularity s) (shadow_base s) (page_granularity s)
          (last_shadow_address s) (last_shadow_elem_size_bits s) (last_forced_shadow_byte s)
          (shadow_pages s ++ [shadow_page]) shadow_page_size (out_of_range s) (out_of_range_allocator s) (host s)).

(** [*byte_ptr]: when the page is missing the fault handler maps it and the
    access is retried. *)
Definition force_byte (s : ShadowMemory) (addr : Z) : outcome (Z * ShadowMemory) :=
  if page_mapped s addr then Ok (byte_at (host s) addr, s)
  else
    '(added, s) ← AddPageForAddress s addr;
    if (added : bool) then Ok (byte_at (host s) addr, s) else Fatal.

(** The memory an element lives in, with its address. *)
Inductive ShadowRef := InRange (p : Z) | OutOfRange (p : Z).

Section at_.
(** The host's [mmap] and break-point bytes, for the allocator. *)
Variable mmap : nat -> Z -> Z -> bool -> option Z.
Variable kBreakPointBytes : list Z.

(** The object for an out-of-range address, created zeroed on first use. *)
Definition out_of_range_at (s : ShadowMemory) (addr size align : Z) : outcome (Z * ShadowMemory) :=
  let key := Z.shiftr addr (shadow_granularity s) in
  match out_of_range s !! key with
  | Some p => Ok (p, s)
  | None =>
      '(p, a) ← AreaAllocator_Allocate mmap kBreakPointBytes (out_of_range_allocator s) size align;
      let a := with_mem a (fill (mem a) p (Z.to_nat size) 0) in
      Ok (p, MkShadow (shadow_granularity s) (shadow_base s) (page_granularity s) (last_shadow_address s)
               (last_shadow_elem_size_bits s) (last_forced_shadow_byte s) (shadow_pages s)
               (last_shadow_page_size s) (<[key := p]> (out_of_range s)) a (host s))
  end.

(** [At<T>(addr)] for a [T] of [size] bytes aligned to [align]. *)
Definition At (s : ShadowMemory) (addr size align : Z) : outcome (ShadowRef * ShadowMemory) :=
  if addr <? shadow_base s then
    let p := Z.shiftr addr (shadow_granularity s) + shadow_base s in
    let s := with_last s p (size * 8) (last_forced_shadow_byte s) in
    '(b, s) ← force_byte s p;
    Ok (InRange p, with_last s p (size * 8) b)
  else '(p, s) ← out_of_range_at s addr size align; Ok (OutOfRange p, s).

(** [At<bool>(addr)]. *)
Definition At_bool (s : ShadowMemory) (addr : Z) : outcome (ShadowRef * BoolRef * ShadowMemory) :=
  if addr <? shadow_base s then
    let p := Z.shiftr addr (shadow_granularity s) + shadow_base s in
    let s := with_last s p 1 (last_forced_shadow_byte s) in
    '(b, s) ← force_byte s p;
    Ok (InRange p, BoolRef_new (host s) p (p mod 8), with_last s p 1 b)
  else
    '(p, s) ← out_of_range_at s addr 1 0;
    Ok (OutOfRange p, BoolRef_new (mem (out_of_range_allocator s)) p 0, s).
End at_.

(** ** Bit references *)

Definition bit_at (m : gmap Z Z) (p i : Z) : bool := Z.testbit (byte_at m p) i.

Lemma land_bit_nonzero b i : 0 <= i -> negb (Z.land b (Z.shiftl 1 i) =? 0) = Z.testbit b i.
Proof.
  intros Hi. rewrite Z.shiftl_1_l. destruct (Z.testbit b i) eqn:E.
  - apply negb_true_iff, Z.eqb_neq. intros H0.
    assert (Z.testbit (Z.land b (2 ^ i)) i = true) by (rewrite Z.land_spec, E, Z.pow2_bits_true by done; done).
    rewrite H0, Z.bits_0 in H. done.
  - apply negb_false_iff, Z.eqb_eq. apply Z.bits_inj'. intros j Hj.
    rewrite Z.land_spec, Z.bits_0, Z.pow2_bits_eqb by done.
    destruct (Z.eqb_spec i j) as [->|]; [by rewrite E|apply andb_false_r].
Qed.

Lemma BoolRef_assign_spec m p i b j q :
  0 <= i -> 0 <= j ->
  let '(m', r') := BoolRef_assign m (BoolRef_new m p i) b in
  bit_at m' q j = (if decide (q = p /\ j = i) then b else bit_at m q j) /\ BoolRef_get r' = b.
Proof.
  intros Hi Hj. unfold BoolRef_assign. cbn [bcache BoolRef_new byte_ptr test_mask].
  rewrite land_bit_nonzero by done. fold (bit_at m p i).
  destruct (Bool.eqb_spec b (bit_at m p i)) as [->|Hne].
  { split; [|cbn; by rewrite land_bit_nonzero]. case_decide as Hd; [by destruct Hd as [-> ->]|done]. }
  split; [|done]. unfold bit_at, byte_at in *. destruct (decide (q = p)) as [->|Hq].
  2:{ rewrite lookup_insert_ne by done. rewrite decide_False by tauto. done. }
  rewrite lookup_insert_eq. rewrite Z.shiftl_1_l. destruct b; cbn [from_option id].
  - rewrite Z.lor_spec, Z.pow2_bits_eqb by done. destruct (Z.eqb_spec i j) as [->|Hij].
    + rewrite decide_True by done. apply orb_true_r.
    + rewrite decide_False by (intros [_ ?]; congruence). apply orb_false_r.
  - rewrite Z.lxor_spec, Z.pow2_bits_eqb by done. destruct (Z.eqb_spec i j) as [->|Hij].
    + rewrite decide_True by done. destruct (Z.testbit (default 0 (m !! p)) j); done.
    + rewrite decide_False by (intros [_ ?]; congruence). apply xorb_false_r.
Qed.

(** ** Page sizes *)

Lemma GreatestCommonDivisor_spec fuel k m :
  0 < k -> 0 < m -> k + m <= Z.of_nat fuel -> GreatestCommonDivisor fuel k m = Ok (Z.gcd k m).
Proof.
  revert k m. induction fuel as [|fuel IH]; intros k m Hk Hm Hf; [lia|]. cbn [GreatestCommonDivisor].
  destruct (Z.eqb_spec k m) as [->|Hne]; [by rewrite Z.gcd_diag, Z.abs_eq by lia|].
  destruct (Z.ltb_spec m k).
  - rewrite IH by lia. f_equal. by rewrite Z.gcd_comm, Z.gcd_sub_diag_r, Z.gcd_comm.
  - rewrite IH by lia. f_equal. by rewrite Z.gcd_sub_diag_r.
Qed.

Lemma GreatestCommonDivisor_zero fuel m : 0 < m -> GreatestCommonDivisor fuel 0 m = Diverges.
Proof.
  revert m. induction fuel as [|fuel IH]; intros m Hm; cbn [GreatestCommonDivisor];
    destruct (Z.eqb_spec 0 m); try lia; [done|].
  destruct (Z.ltb_spec m 0); [lia|]. rewrite Z.sub_0_r. by apply IH.
Qed.

Lemma LeastCommonMultiple_spec k m :
  0 < k -> 0 < m -> k * m < two64 -> LeastCommonMultiple k m = Ok (Z.lcm k m).
Proof.
  intros Hk Hm Hov. unfold LeastCommonMultiple, gcd_fuel.
  rewrite GreatestCommonDivisor_spec by lia. cbn [mbind outcome_bind].
  assert (Hg : Z.gcd k m <> 0) by (intros [? ?]%Z.gcd_eq_0; lia).
  pose proof (Z.gcd_nonneg k m).
  destruct (Z.eqb_spec (Z.gcd k m) 0); [done|]. rewrite mul64_small by lia. f_equal.
  rewrite Z.divide_div_mul_exact by (try done; apply Z.gcd_divide_r). unfold Z.lcm. rewrite Z.abs_eq; [done|].
  apply Z.mul_nonneg_nonneg; [lia|]. apply Z.div_pos; lia.
Qed.

(** The bytes of shadow for one page of the program. *)
Definition elem_bytes (s : ShadowMemory) (bits : Z) : Z :=
  Z.shiftr (Z.shiftl 1 (page_granularity s)) (shadow_granularity s) * bits / 8.

(** ** Faulting pages in *)

Lemma AddPageForAddress_spec s addr :
  0 < elem_bytes s (last_shadow_elem_size_bits s) -> elem_bytes s (last_shadow_elem_size_bits s) * 4096 < two64 ->
  addr = last_shadow_address s -> shadow_base s <= addr ->
  last_shadow_page_size s = 0 \/
    last_shadow_page_size s = Z.lcm (elem_bytes s (last_shadow_elem_size_bits s)) 4096 ->
  exists s', AddPageForAddress s addr = Ok (true, s') /\ page_mapped s' addr = true /\
    last_shadow_page_size s' = Z.lcm (elem_bytes s (last_shadow_elem_size_bits s)) 4096 /\
    host s' = host s /\ shadow_pages s ⊆ shadow_pages s'.
Proof.
  intros Hpos Hov -> Hb Hsz. unfold AddPageForAddress. rewrite Z.eqb_refl. cbn [negb]. cbv zeta.
  fold (elem_bytes s (last_shadow_elem_size_bits s)).
  rewrite LeastCommonMultiple_spec by lia. cbn [mbind outcome_bind].
  set (n := Z.lcm _ 4096) in *. assert (Hn : 0 < n).
  { subst n. pose proof (Z.lcm_nonneg (elem_bytes s (last_shadow_elem_size_bits s)) 4096).
    assert (Z.lcm (elem_bytes s (last_shadow_elem_size_bits s)) 4096 <> 0) by (rewrite Z.lcm_eq_0; lia). lia. }
  assert ((last_shadow_page_size s =? 0) || (last_shadow_page_size s =? n) = true) as ->.
  { destruct Hsz as [-> | ->]; [done|]. by rewrite Z.eqb_refl, orb_true_r. }
  cbn [check mbind outcome_bind].
  pose proof (Z.div_mod (last_shadow_address s - shadow_base s) n).
  pose proof (Z.mod_pos_bound (last_shadow_address s - shadow_base s) n).
  set (pg := (last_shadow_address s - shadow_base s) / n * n + shadow_base s) in *.
  assert (Hpg : (pg <=? last_shadow_address s) && (last_shadow_address s <? pg + n) = true).
  { apply andb_true_iff. rewrite Z.leb_le, Z.ltb_lt. subst pg. lia. }
  rewrite Hpg. cbn [check mbind outcome_bind]. eexists. split; [done|]. split_and!; try done.
  - unfold page_mapped. cbn. rewrite existsb_app. cbn. by rewrite Hpg, orb_true_r.
  - cbn. set_solver.
Qed.

(** ** What shadow memory promises *)

(** A shadow whose pages, if any, have the size for elements of [bits]. *)
Record shadow_ok (s : ShadowMemory) (bits : Z) : Prop := {
  so_gran : 0 <= shadow_granularity s;
  so_pos : 0 < elem_bytes s bits;
  so_small : elem_bytes s bits * 4096 < two64;
  so_size : last_shadow_page_size s = 0 \/ last_shadow_page_size s = Z.lcm (elem_bytes s bits) 4096
}.

Definition shadow_addr (s : ShadowMemory) (addr : Z) : Z := Z.shiftr addr (shadow_granularity s) + shadow_base s.

Lemma force_byte_spec s p bits :
  shadow_ok s bits -> last_shadow_address s = p -> last_shadow_elem_size_bits s = bits -> shadow_base s <= p ->
  exists s', force_byte s p = Ok (byte_at (host s) p, s') /\ shadow_ok s' bits /\ page_mapped s' p = true /\
    host s' = host s /\ shadow_granularity s' = shadow_granularity s /\ shadow_base s' = shadow_base s.
Proof.
  intros Hok Hp Hbits Hb. unfold force_byte. destruct (page_mapped s p) eqn:E; [by exists s|].
  destruct Hok as [Hg Hpos Hsm Hsz]. pose proof (AddPageForAddress_spec s p) as Hadd. rewrite Hbits in Hadd.
  destruct Hadd as (s' & Heq & Hmap & Hsize & Hhost & _); try done.
  assert (Hsame : shadow_granularity s' = shadow_granularity s /\ shadow_base s' = shadow_base s /\
                  page_granularity s' = page_granularity s).
  { unfold AddPageForAddress in Heq. case_match; [done|]. cbv zeta in Heq.
    apply bind_ok in Heq as (n & _ & Heq). apply bind_ok in Heq as (_ & _ & Heq).
    apply bind_ok in Heq as (_ & _ & Heq). by injection Heq as <-. }
  destruct Hsame as (H1 & H2 & H3). rewrite Heq. cbn [mbind outcome_bind]. rewrite Hhost.
  exists s'. split; [done|]. assert (He : elem_bytes s' bits = elem_bytes s bits) by (unfold elem_bytes; by rewrite H1, H3).
  split; [|done]. split; rewrite ?He, ?H1; try done. by right.
Qed.

(** Shadow bits round trip: taking the bit of an address of the shadowable
    range faults its page in, assigning to the reference and taking the bit
    again yields the value, and the bits of all other shadow bytes keep
    theirs. *)
Theorem shadow_bool_roundtrip mmap bp s addr b :
  shadow_ok s 1 -> 0 <= addr < shadow_base s ->
  exists r s1, At_bool mmap bp s addr = Ok (InRange (shadow_addr s addr), r, s1) /\
    let '(m, _) := BoolRef_assign (host s1) r b in
    let s2 := MkShadow (shadow_granularity s1) (shadow_base s1) (page_granularity s1) (last_shadow_address s1)
                (last_shadow_elem_size_bits s1) (last_forced_shadow_byte s1) (shadow_pages s1)
                (last_shadow_page_size s1) (out_of_range s1) (out_of_range_allocator s1) m in
    (exists r' s3, At_bool mmap bp s2 addr = Ok (InRange (shadow_addr s addr), r', s3) /\ BoolRef_get r' = b) /\
    (forall p j, 0 <= j -> p <> shadow_addr s addr -> bit_at m p j = bit_at (host s) p j).
Proof.
  intros Hok Ha. unfold At_bool at 1. destruct (Z.ltb_spec addr (shadow_base s)); [|lia]. cbv zeta.
  fold (shadow_addr s addr). set (p := shadow_addr s addr).
  assert (Hpb : shadow_base s <= p).
  { subst p. unfold shadow_addr. pose proof (Z.shiftr_nonneg addr (shadow_granularity s)). lia. }
  destruct (force_byte_spec (with_last s p 1 (last_forced_shadow_byte s)) p 1) as (s1 & Hf & Hok1 & Hmap1 & Hh1 & Hg1 & Hb1);
    [by destruct Hok; split|done|done|done|].
  rewrite Hf. cbn [mbind outcome_bind]. cbn in Hh1, Hg1, Hb1.
  assert (Hmod : 0 <= p mod 8) by (apply Z.mod_pos_bound; done).
  eexists _, _. split; [done|].
  pose proof (BoolRef_assign_spec (host s1) p (p mod 8) b) as Hset. cbn [host with_last].
  destruct (BoolRef_assign (host s1) (BoolRef_new (host s1) p (p mod 8)) b) as [m r2]. cbv zeta.
  cbn [shadow_granularity shadow_base page_granularity last_shadow_address last_shadow_elem_size_bits
       last_forced_shadow_byte shadow_pages last_shadow_page_size out_of_range out_of_range_allocator with_last].
  split.
  - set (s2 := MkShadow _ _ _ _ _ _ _ _ _ _ _). unfold At_bool.
    change (shadow_base s2) with (shadow_base s1). rewrite Hb1.
    destruct (Z.ltb_spec addr (shadow_base s)); [|lia]. cbv zeta.
    change (shadow_granularity s2) with (shadow_granularity s1). rewrite Hg1. fold (shadow_addr s addr). fold p.
    destruct (force_byte_spec (with_last s2 p 1 (last_forced_shadow_byte s2)) p 1) as (s3 & Hf3 & _ & _ & Hh3 & _);
      [destruct Hok1; by split|done|done|cbn; by rewrite Hb1|].
    rewrite Hf3. cbn [mbind outcome_bind]. eexists _, _. split; [done|]. unfold BoolRef_get. cbn.
    rewrite land_bit_nonzero by done. rewrite Hh3. cbn. fold (bit_at m p (p mod 8)).
    destruct (Hset (p mod 8) p Hmod Hmod) as [-> _]. by rewrite decide_True.
  - intros q j Hj Hq. destruct (Hset j q Hmod Hj) as [-> _]. rewrite decide_False by tauto.
    by rewrite Hh1.
Qed.

Lemma shadow_bool_roundtrip_witness :
  exists r s1, At_bool (fun _ a _ _ => Some a) [204] (ShadowMemory_new 0 12 17592186044416) 5000 =
    Ok (InRange 17592186049416, r, s1).
Proof.
  destruct (shadow_bool_roundtrip (fun _ a _ _ => Some a) [204] (ShadowMemory_new 0 12 17592186044416) 5000 true)
    as (r & s1 & Heq & _).
  - split; [cbn; lia|vm_compute; reflexivity|vm_compute; reflexivity|left; reflexivity].
  - vm_compute. split; congruence.
  - exists r, s1. exact Heq.
Defined.

(** A shadow granularity that leaves fewer than eight elements per
    page makes the first access to a shadow bit loop forever: the bytes of shadow
    per page round to zero and the subtraction-based GCD never changes. *)
Theorem shadow_coarse_granularity_diverges mmap bp s addr :
  elem_bytes s 1 = 0 -> shadow_pages s = [] -> 0 <= addr < shadow_base s ->
  At_bool mmap bp s addr = Diverges.
Proof.
  intros He Hp Ha. unfold At_bool. destruct (Z.ltb_spec addr (shadow_base s)); [|lia]. cbv zeta.
  unfold force_byte, page_mapped. cbn [with_last shadow_pages]. rewrite Hp. cbn [existsb].
  unfold AddPageForAddress. cbn [with_last last_shadow_address page_granularity shadow_granularity last_shadow_elem_size_bits].
  rewrite Z.eqb_refl. cbn [negb]. cbv zeta. fold (elem_bytes s 1). rewrite He.
  unfold LeastCommonMultiple. by rewrite GreatestCommonDivisor_zero.
Qed.

Lemma shadow_coarse_granularity_diverges_witness :
  At_bool (fun _ a _ _ => Some a) [204] (ShadowMemory_new 12 12 17592186044416) 5000 = Diverges.
Proof.
  apply shadow_coarse_granularity_diverges; [reflexivity|reflexivity|vm_compute; split; congruence].
Defined.

(** Two references to the same bit go out of step: clearing the bit
    through both sets it again, since the second one clears by [xor] on the
    strength of its cached value. *)
Theorem BoolRef_stale_clear_sets :
  (let m := ({[100 := 4]} : gmap Z Z) in
   let r1 := BoolRef_new m 100 2 in
   let r2 := BoolRef_new m 100 2 in
   let '(m, r1) := BoolRef_assign m r1 false in
   let '(m, r2) := BoolRef_assign m r2 false in
   (BoolRef_get r1, BoolRef_get r2, bit_at m 100 2)) = (false, false, true).
Proof. vm_compute. reflexivity. Qed.

(** ** The life of shadow memory

    Models the rest of [vmill/Program/ShadowMemory.cpp]: the one active
    instance ([gShadowMem]), the handler of [SIGSEGV] that maps its pages, how
    the handler is installed and removed, and the destructor.  [ShadowMemory]
    retries an access whose page the handler maps; here is what the kernel
    finds installed.  [defined_sa_handler] is the preprocessor's answer to
    [defined(sa_handler)]; the functions of other handlers are parameters. *)

Module ShadowSignals.
(** The functions a signal can be sent to; [SIG_DFL] is the null pointer. *)
Inductive Handler := SIG_DFL | SIG_IGN | h_CatchFault | h_sigreturn | h_other (n : nat).

#[global] Instance Handler_eq_dec : EqDecision Handler.
Proof. solve_decision. Defined.

(** [struct sigaction]: [sa_handler] and [sa_sigaction] are one field, a
    union; a field nothing was stored to is [None]. *)
Record sigaction_t := MkSigaction { sa_action : Handler; sa_restorer : option Handler; sa_siginfo : bool }.

Definition no_sigaction : sigaction_t := MkSigaction SIG_DFL (Some SIG_DFL) false.

(** The statics of the file, the instances, what the kernel has installed,
    the mapped shadow pages of the process and [errno]. *)
Record Signals := MkSignals {
  gShadowMem : option nat;
  gPrevSignalHandler : sigaction_t;
  instances : gmap nat ShadowMemory;
  installed : sigaction_t;
  unmapped : list (Z * Z);
  errno : Z
}.

Section signals.
Context (defined_sa_handler : bool).

(** [act.SIGNAL_HANDLER_FIELD] *)
Definition set_SIGNAL_HANDLER_FIELD (act : sigaction_t) (h : Handler) : sigaction_t :=
  if defined_sa_handler then MkSigaction h (sa_restorer act) (sa_siginfo act)
  else MkSigaction (sa_action act) (Some h) (sa_siginfo act).

Definition get_SIGNAL_HANDLER_FIELD (act : sigaction_t) : option Handler :=
  if defined_sa_handler then Some (sa_action act) else sa_restorer act.

(** The [act] that [ShadowMemory::Get] fills in. *)
Definition shadow_act : sigaction_t :=
  set_SIGNAL_HANDLER_FIELD (MkSigaction h_CatchFault None true) h_sigreturn.

(** [ShadowMemory::Get]; [sigaction_fails] is the answer of the kernel and
    [id] the address of the new object. *)
Definition ShadowMemory_Get (st : Signals) (sigaction_fails : bool) (id : nat) (gran page_gran base : Z) : outcome (nat * Signals) :=
  check (bool_decide (gShadowMem st = None)) ;;
  check (negb sigaction_fails) ;;
  Ok (id, MkSignals (Some id) (installed st) (<[id := ShadowMemory_new gran page_gran base]> (instances st)) shadow_act
            (unmapped st) (errno st)).

(** [ShadowMemory::Self] *)
Definition ShadowMemory_Self (st : Signals) : option nat := gShadowMem st.

(** The loop of the destructor over [shadow_pages]. *)
Fixpoint unmap_pages (pages : list Z) (size : Z) (freed : list (Z * Z)) : outcome (list (Z * Z)) :=
  match pages with
  | [] => Ok freed
  | base :: pages => check (0 <? size) ;; unmap_pages pages size (freed ++ [(base, size)])
  end.

(** [~ShadowMemory]: a previous handler is restored unless it was the null
    pointer. *)
Definition ShadowMemory_delete (st : Signals) (this : nat) : outcome Signals :=
  check (bool_decide (gShadowMem st = Some this)) ;;
  s ← deref_opt (instances st !! this);
  let '(prev, inst) := if decide (sa_action (gPrevSignalHandler st) = SIG_DFL) then (gPrevSignalHandler st, installed st)
                       else (no_sigaction, gPrevSignalHandler st) in
  freed ← unmap_pages (shadow_pages s) (last_shadow_page_size s) (unmapped st);
  Ok (MkSignals None prev (delete this (instances st)) inst freed (errno st)).

(** [ShadowMemory::Put]: [mem.reset(nullptr)]. *)
Definition ShadowMemory_Put (st : Signals) (mem : option nat) : outcome (option nat * Signals) :=
  match mem with None => Ok (None, st) | Some this => st ← ShadowMemory_delete st this; Ok (None, st) end.

Definition with_errno (st : Signals) (no : Z) : Signals :=
  MkSignals (gShadowMem st) (gPrevSignalHandler st) (instances st) (installed st) (unmapped st) no.

(** [SaveErrno]: whatever runs in its scope leaves [errno] as it was. *)
Definition SaveErrno (st : Signals) (body : Signals -> outcome Signals) : outcome Signals :=
  st' ← body st; Ok (with_errno st' (errno st)).

Context (other_handler : nat -> Z -> Signals -> outcome Signals).

(** [CatchFault] for a fault at [addr]; [fuel] bounds handlers that call
    handlers.  [abort] stops the process. *)
Fixpoint CatchFault (fuel : nat) (addr : Z) (st : Signals) : outcome Signals :=
  SaveErrno st (fun st =>
    '(added, st) ← match gShadowMem st with
                   | None => Ok (false, st)
                   | Some this =>
                       s ← deref_opt (instances st !! this);
                       '(added, s) ← AddPageForAddress s addr;
                       Ok (added, MkSignals (gShadowMem st) (gPrevSignalHandler st) (<[this := s]> (instances st)) (installed st)
                                    (unmapped st) (errno st))
                   end;
    if (added : bool) then Ok st
    else if decide (sa_action (gPrevSignalHandler st) = SIG_DFL) then Fatal
    else
      st ← match sa_action (gPrevSignalHandler st), fuel with
           | h_CatchFault, S fuel => CatchFault fuel addr st
           | h_CatchFault, O => Diverges
           | h_other n, _ => other_handler n addr st
           | SIG_DFL, _ | SIG_IGN, _ | h_sigreturn, _ => Undefined
           end;
      match get_SIGNAL_HANDLER_FIELD (gPrevSignalHandler st) with
      | None => Undefined
      | Some h => if decide (h = SIG_DFL) then Fatal else Ok st
      end).

(** The kernel delivers [SIGSEGV]: without a handler the process dies, also
    when the signal is ignored; [arch_sys_sigreturn] as a handler returns
    through a signal frame that is not at its stack pointer. *)
Definition deliver (fuel : nat) (addr : Z) (st : Signals) : outcome Signals :=
  match sa_action (installed st) with
  | SIG_DFL | SIG_IGN => Fatal
  | h_CatchFault => CatchFault fuel addr st
  | h_sigreturn => Undefined
  | h_other n => other_handler n addr st
  end.

(** ** One instance at a time *)

(** What clients do: get an instance, or put the one they own. *)
Inductive command := CGet (gran page_gran base : Z) | CPut.

(** The pointer of the client: empty until it gets an instance. *)
Definition run_command (c : command) (o : option nat * Signals) : outcome (option nat * Signals) :=
  let '(mem, st) := o in
  match c with
  | CGet gran page_gran base => '(id, st) ← ShadowMemory_Get st false (fresh (dom (instances st))) gran page_gran base; Ok (Some id, st)
  | CPut => ShadowMemory_Put st mem
  end.

(** The client's pointer is the active instance, whose pages have a size. *)
Definition owned (o : option nat * Signals) : Prop :=
  gShadowMem (snd o) = fst o /\
  match fst o with
  | None => instances (snd o) = ∅
  | Some id => exists s, instances (snd o) = {[ id := s ]} /\ (shadow_pages s <> [] -> 0 < last_shadow_page_size s)
  end.

Lemma unmap_pages_ok pages size freed :
  (pages <> [] -> 0 < size) -> unmap_pages pages size freed = Ok (freed ++ map (fun b => (b, size)) pages).
Proof.
  revert freed. induction pages as [|b pages IH]; intros freed Hs; cbn [unmap_pages map]; [by rewrite app_nil_r|].
  rewrite check_true by (apply Z.ltb_lt; by apply Hs). cbn. rewrite IH by (intros _; by apply Hs). by rewrite <- app_assoc.
Qed.

Lemma run_put_ok st id s :
  gShadowMem st = Some id -> instances st = {[ id := s ]} -> (shadow_pages s <> [] -> 0 < last_shadow_page_size s) ->
  exists st', ShadowMemory_Put st (Some id) = Ok (None, st') /\ gShadowMem st' = None /\ instances st' = ∅ /\
    unmapped st' = unmapped st ++ map (fun b => (b, last_shadow_page_size s)) (shadow_pages s) /\
    installed st' = (if decide (sa_action (gPrevSignalHandler st) = SIG_DFL) then installed st else gPrevSignalHandler st).
Proof.
  intros Hg Hi Hs. unfold ShadowMemory_Put, ShadowMemory_delete. rewrite bool_decide_true by done. cbn [check mbind outcome_bind].
  rewrite Hi, lookup_singleton_eq. cbn [deref_opt mbind outcome_bind].
  case_decide; rewrite unmap_pages_ok by done; cbn [mbind outcome_bind]; eexists; (split; [reflexivity|]); cbn;
    by rewrite delete_singleton_eq.
Qed.

(** Whatever clients do with the pointer they are given, there is at most one
    instance and the destructor's checks pass; getting fails only while an
    instance is active. *)
Lemma commands_owned c o :
  owned o -> match c with CGet _ _ _ => fst o = None | CPut => True end -> exists o', run_command c o = Ok o' /\ owned o'.
Proof.
  destruct o as [mem st]. intros [Hg Hi] Hc. cbn in Hg, Hi, Hc. destruct c as [gran page_gran base|]; unfold run_command.
  - rewrite Hc in Hg, Hi. unfold ShadowMemory_Get. rewrite bool_decide_true by done. cbn [check negb mbind outcome_bind]. eexists. split; [done|]. split; [done|].
    cbn [fst snd instances]. rewrite Hi. exists (ShadowMemory_new gran page_gran base). split; [apply insert_empty|done].
  - destruct mem as [id|]; [|by eexists; split].
    destruct Hi as (s & Hi & Hs). destruct (run_put_ok st id s Hg Hi Hs) as (st' & Heq & Hg' & Hi' & _).
    rewrite Heq. eexists. split; [done|]. by split.
Qed.

Lemma get_twice_fatal st f1 f2 i1 i2 g1 g2 p1 p2 b1 b2 id st' :
  ShadowMemory_Get st f1 i1 g1 p1 b1 = Ok (id, st') -> ShadowMemory_Get st' f2 i2 g2 p2 b2 = Fatal.
Proof. intros (? & _ & (? & _ & [= <- <-])%bind_ok)%bind_ok. done. Qed.

(** An instance that is put away gives the signal back to the handler that
    had it, if there was one. *)
Lemma get_put_restores st id st1 gran page_gran base :
  instances st = ∅ -> ShadowMemory_Get st false id gran page_gran base = Ok (id, st1) ->
  exists st2, ShadowMemory_Put st1 (Some id) = Ok (None, st2) /\
    installed st2 = if decide (sa_action (installed st) = SIG_DFL) then shadow_act else installed st.
Proof.
  intros Hi (? & _ & (? & _ & [= <-])%bind_ok)%bind_ok.
  destruct (run_put_ok (MkSignals (Some id) (installed st) (<[id := ShadowMemory_new gran page_gran base]> (instances st))
    shadow_act (unmapped st) (errno st)) id (ShadowMemory_new gran page_gran base)) as (st2 & Heq & _ & _ & _ & Hinst);
    [done|cbn; by rewrite Hi, insert_empty|done|].
  exists st2. split; [exact Heq|]. rewrite Hinst. cbn. done.
Qed.
End signals.

(** ** Faults *)

(** With a [sigaction] whose handler and restorer are different fields, a
    fault at the shadow byte being forced maps its page, leaves [errno] alone
    and returns to the access. *)
Lemma fault_adds_page other fuel st id s :
  sa_action (installed st) = h_CatchFault -> gShadowMem st = Some id -> instances st !! id = Some s ->
  shadow_ok s (last_shadow_elem_size_bits s) -> shadow_base s <= last_shadow_address s ->
  exists st' s', deliver false other fuel (last_shadow_address s) st = Ok st' /\ instances st' !! id = Some s' /\
    page_mapped s' (last_shadow_address s) = true /\ errno st' = errno st.
Proof.
  intros Hc Hg Hi [_ Hpos Hov Hsz] Hb. unfold deliver. rewrite Hc.
  destruct (AddPageForAddress_spec s (last_shadow_address s)) as (s' & Hadd & Hmap & _); [done..|].
  exists (MkSignals (gShadowMem st) (gPrevSignalHandler st) (<[id := s']> (instances st)) (installed st) (unmapped st) (errno st)), s'.
  split; [|cbn; by rewrite lookup_insert_eq].
  destruct fuel; cbn [CatchFault]; unfold SaveErrno; rewrite Hg, Hi; cbn [deref_opt mbind outcome_bind]; rewrite Hadd; cbn; done.
Qed.

(** Where [sa_handler] is a macro for the member of the union, as on Linux,
    the handler that gets installed is the restorer: [CatchFault] is
    overwritten before the call, and no fault ever reaches the active
    instance. *)
Theorem handler_overwritten st f id gran page_gran base id' st' :
  ShadowMemory_Get true st f id gran page_gran base = Ok (id', st') ->
  sa_action (installed st') = h_sigreturn /\ (forall other fuel addr, deliver true other fuel addr st' = Undefined).
Proof. intros (? & _ & (? & _ & [= <- <-])%bind_ok)%bind_ok. done. Qed.

(** An instance that was put away while the signal had its default action
    leaves its handler behind; the next instance takes that for the previous
    handler, and a fault that is not its own never stops. *)
Theorem second_instance_recurses other addr st0 id1 id2 st1 st2 st3 g1 p1 b1 g2 p2 b2 fuel :
  sa_action (installed st0) = SIG_DFL -> instances st0 = ∅ ->
  ShadowMemory_Get false st0 false id1 g1 p1 b1 = Ok (id1, st1) ->
  ShadowMemory_Put st1 (Some id1) = Ok (None, st2) ->
  ShadowMemory_Get false st2 false id2 g2 p2 b2 = Ok (id2, st3) ->
  addr <> 0 -> deliver false other fuel addr st3 = Diverges.
Proof.
  intros Hd Hi H1 H2 H3 Ha.
  destruct (get_put_restores false st0 id1 st1 g1 p1 b1 Hi H1) as (st2' & H2' & Hinst).
  rewrite H2 in H2'. injection H2' as <-. rewrite decide_True in Hinst by done.
  apply bind_ok in H3 as (? & _ & H3). apply bind_ok in H3 as (? & _ & [= <-]). cbn [deliver installed sa_action shadow_act].
  unfold deliver. cbn [installed sa_action shadow_act set_SIGNAL_HANDLER_FIELD]. rewrite Hinst.
  set (st := MkSignals _ _ _ _ _ _).
  assert (Hlast : forall st, gShadowMem st = Some id2 -> sa_action (gPrevSignalHandler st) = h_CatchFault ->
    (exists s, instances st !! id2 = Some s /\ last_shadow_address s = 0) -> CatchFault false other fuel addr st = Diverges).
  { clear -Ha. induction fuel as [|fuel IH]; intros st Hg Hp (s & Hs & Hl); cbn [CatchFault]; unfold SaveErrno;
      rewrite Hg, Hs; cbn [deref_opt mbind outcome_bind]; unfold AddPageForAddress; rewrite Hl, (proj2 (Z.eqb_neq addr 0) Ha);
      cbn [negb mbind outcome_bind gPrevSignalHandler]; rewrite decide_False by (rewrite Hp; done); rewrite Hp; [done|].
    rewrite IH; [done|done|done|]. exists s. cbn. by rewrite lookup_insert_eq. }
  apply Hlast; [done|done|]. eexists. cbn. by rewrite lookup_insert_eq.
Qed.
End ShadowSignals.
