(* ===== verification/GuestMemory.v ===== *)
(** * Guest memory as the runtime sees it

    The emulated operating system reaches guest memory only through the
    functions declared in [vmill/Runtime/Generic/Intrinsics.h].  [MemoryOps]
    is that interface and [MemoryLaws] what its users may rely on; the
    functions of [vmill/Runtime/Generic/Memory.cpp] and the inline functions of
    [Intrinsics.h] are defined and verified against the interface alone.
    [MemoryInstance.v] discharges the laws for address spaces. *)

From S2P Require Import Prelude Pages.

Class MemoryOps (M : Type) := {
  (** [ADDRESS_SIZE_BITS] of the runtime: the width of [addr_t]. *)
  addr_bits : Z;
  vmill_can_read_byte : M -> Z -> bool;
  vmill_can_write_byte : M -> Z -> bool;
  (** [__remill_read_memory_N] and [__remill_write_memory_N] for values of
      [n] bytes: a failing access records a fault and reads as zero. *)
  remill_read_memory : nat -> M -> Z -> outcome (Z * M);
  remill_write_memory : nat -> M -> Z -> Z -> outcome M;
  vmill_allocate_memory : M -> Z -> Z -> option string -> Z -> outcome M;
  vmill_free_memory : M -> Z -> Z -> outcome M;
  vmill_protect_memory : M -> Z -> Z -> bool -> bool -> bool -> outcome M;
  vmill_find_unmapped_address : M -> Z -> Z -> Z -> outcome Z
}.

(** Arithmetic on [addr_t]. *)
Definition addr_wrap {M} `{MemoryOps M} (z : Z) : Z := z mod 2 ^ addr_bits.

(** [m'] differs from [m] in nothing a guest can see. *)
Definition same_bytes {M} `{MemoryOps M} (byte : M -> Z -> option Z) (m m' : M) : Prop :=
  (forall a, byte m' a = byte m a) /\
  (forall a, vmill_can_read_byte m' a = vmill_can_read_byte m a) /\
  (forall a, vmill_can_write_byte m' a = vmill_can_write_byte m a).

(** The bytes of [m'] are those of [m] with [bs] stored at [addr]. *)
Definition stored {M} `{MemoryOps M} (byte : M -> Z -> option Z) (m m' : M) (addr : Z) (bs : list Z) : Prop :=
  (forall a, byte m' a = if decide (addr <= a < addr + Z.of_nat (length bs))
                         then bs !! Z.to_nat (a - addr) else byte m a) /\
  (forall a, vmill_can_read_byte m' a = vmill_can_read_byte m a) /\
  (forall a, vmill_can_write_byte m' a = vmill_can_write_byte m a).

Class MemoryLaws (M : Type) `{MemoryOps M} := {
  mem_ok : M -> Prop;
  byte : M -> Z -> option Z;
  (** Addresses at and above the limit are outside the contract. *)
  mem_limit : M -> Z;
  addr_bits_ok : addr_bits = 32 \/ addr_bits = 64;
  mem_limit_range m : mem_ok m -> 0 <= mem_limit m <= 2 ^ addr_bits - kPageSize;
  (** Permissions are per page. *)
  can_read_page m a : mem_ok m -> 0 <= a < mem_limit m ->
    vmill_can_read_byte m a = vmill_can_read_byte m (AlignDownToPage a);
  can_write_page m a : mem_ok m -> 0 <= a < mem_limit m ->
    vmill_can_write_byte m a = vmill_can_write_byte m (AlignDownToPage a);
  byte_range m a v : mem_ok m -> byte m a = Some v -> byte_ok v;
  read_law n m a :
    mem_ok m -> n ∈ [1; 2; 4; 8]%nat -> 0 <= a -> a + Z.of_nat n <= mem_limit m ->
    (forall x, a <= x < a + Z.of_nat n -> is_Some (byte m x) /\ vmill_can_read_byte m x = true) ->
    exists v m', remill_read_memory n m a = Ok (v, m') /\ mem_ok m' /\ mem_limit m' = mem_limit m /\
      same_bytes byte m m' /\ 0 <= v < 256 ^ Z.of_nat n /\
      forall i, (i < n)%nat -> byte m (a + Z.of_nat i) = Some (nth i (le_bytes n v) 0);
  write_law n m a v :
    mem_ok m -> n ∈ [1; 2; 4; 8]%nat -> 0 <= a -> a + Z.of_nat n <= mem_limit m ->
    (forall x, a <= x < a + Z.of_nat n -> is_Some (byte m x) /\ vmill_can_write_byte m x = true) ->
    exists m', remill_write_memory n m a v = Ok m' /\ mem_ok m' /\ mem_limit m' = mem_limit m /\
      stored byte m m' a (le_bytes n v);
  access_total n m a :
    mem_ok m -> n ∈ [1; 2; 4; 8]%nat -> 0 <= a -> a + Z.of_nat n <= mem_limit m ->
    exists v m', remill_read_memory n m a = Ok (v, m') /\ mem_ok m' /\ mem_limit m' = mem_limit m
}.

(** ** [Runtime/Generic/Memory.cpp] *)

Section copying.
Context {M : Type} `{MemoryOps M}.

(** The loop of [NumReadableBytes] and [NumWritableBytes], from offset [i]:
    [can] is the permission asked for.  [addr + i] and [i]
    are [addr_t]. *)
Fixpoint num_bytes (fuel : nat) (can : M -> Z -> bool) (m : M) (addr size i : Z) : outcome Z :=
  if i <? size then
    match fuel with
    | O => Diverges
    | S fuel =>
        if can m (addr_wrap (addr + i)) then num_bytes fuel can m addr size (addr_wrap (i + 4096))
        else Ok (if i =? 0 then 0 else sub64 (Z.land (addr_wrap (addr + i)) (not64 4095)) addr)
    end
  else Ok (Z.min i size).

(** One iteration per started page of the request. *)
Definition num_fuel (size : Z) : nat := Z.to_nat ((size + 4095) / 4096).

Definition NumReadableBytes (m : M) (addr size : Z) : outcome Z :=
  num_bytes (num_fuel size) vmill_can_read_byte m addr size 0.

Definition NumWritableBytes (m : M) (addr size : Z) : outcome Z :=
  num_bytes (num_fuel size) vmill_can_write_byte m addr size 0.

(** [Intrinsics.h] *)
Definition CanReadMemory (m : M) (addr size : Z) : outcome bool :=
  n ← NumReadableBytes m addr size; Ok (size =? n).

Definition CanWriteMemory (m : M) (addr size : Z) : outcome bool :=
  n ← NumWritableBytes m addr size; Ok (size =? n).

Fixpoint CopyToMemory (m : M) (addr : Z) (data : list Z) : outcome M :=
  match data with
  | [] => Ok m
  | b :: data => m ← remill_write_memory 1 m addr b; CopyToMemory m (addr_wrap (addr + 1)) data
  end.

Fixpoint CopyFromMemory (m : M) (addr : Z) (size : nat) : outcome (list Z * M) :=
  match size with
  | O => Ok ([], m)
  | S size =>
      '(b, m) ← remill_read_memory 1 m addr;
      '(bs, m) ← CopyFromMemory m (addr_wrap (addr + 1)) size;
      Ok (b :: bs, m)
  end.

(** The characters copied before the terminating NUL or the end. *)
Fixpoint copy_string_from (m : M) (addr : Z) (n : nat) : outcome (list Z * M) :=
  match n with
  | O => Ok ([], m)
  | S n =>
      '(c, m) ← remill_read_memory 1 m addr;
      if c =? 0 then Ok ([], m)
      else '(cs, m) ← copy_string_from m (addr_wrap (addr + 1)) n; Ok (c :: cs, m)
  end.

Definition CopyStringFromMemory (m : M) (addr max_len : Z) : outcome (list Z * M) :=
  n ← NumReadableBytes m addr max_len;
  copy_string_from m addr (Z.to_nat n).

(** The number of characters copied before the NUL or the end of [val];
    the NUL itself is stored too. *)
Fixpoint copy_string_to (m : M) (addr : Z) (val : list Z) (n : nat) : outcome (Z * M) :=
  match n, val with
  | S n, c :: val =>
      m ← remill_write_memory 1 m addr c;
      if c =? 0 then Ok (0, m)
      else '(k, m) ← copy_string_to m (addr_wrap (addr + 1)) val n; Ok (k + 1, m)
  | _, _ => Ok (0, m)
  end.

Definition CopyStringToMemory (m : M) (addr : Z) (val : list Z) (len : Z) : outcome (Z * M) :=
  n ← NumWritableBytes m addr len;
  copy_string_to m addr val (Z.to_nat n).

(** [TryReadMemory<T>]: the bytes of the value, when readable. *)
Definition TryReadMemory (m : M) (addr : Z) (size : nat) : outcome (option (list Z) * M) :=
  ok ← CanReadMemory m addr (Z.of_nat size);
  if (ok : bool) then '(bs, m) ← CopyFromMemory m addr size; Ok (Some bs, m) else Ok (None, m).

Definition ReadMemory (m : M) (addr : Z) (size : nat) : outcome (list Z * M) := CopyFromMemory m addr size.

(** [TryWriteMemory<T>(memory, addr, const T &)]. *)
Definition TryWriteMemory (m : M) (addr : Z) (data : list Z) : outcome (bool * M) :=
  ok ← CanWriteMemory m addr (Z.of_nat (length data));
  if (ok : bool) then m ← CopyToMemory m addr data; Ok (true, m) else Ok (false, m).

(** [TryWriteMemory<T>(memory, addr, const T * )] is [abort()]. *)
Definition TryWriteMemory_pointer (m : M) (addr : Z) : outcome (bool * M) := Fatal.

(** The sums are [unsigned long], the results [addr_t]. *)
Definition AlignToPage (addr : Z) : Z := addr_wrap (Z.land addr (not64 4095)).
Definition AlignToNextPage (addr : Z) : Z := addr_wrap (Z.land (add64 addr 4095) (not64 4095)).

(** [MAKE_CMPXCHG(size)]: the memory and the new value of [expected]. *)
Definition compare_exchange_memory (n : nat) (m : M) (addr expected desired : Z) : outcome (Z * M) :=
  '(old_val, m) ← remill_read_memory n m addr;
  if old_val =? expected then m ← remill_write_memory n m addr desired; Ok (expected, m)
  else m ← remill_write_memory n m addr old_val; Ok (old_val, m).

(** [MAKE_RMW(name, size, op)]: the memory and the new content of [value]. *)
Definition fetch_and_op (op : Z -> Z -> Z) (n : nat) (m : M) (addr value : Z) : outcome (Z * M) :=
  '(old_val, m) ← remill_read_memory n m addr;
  let new_val := op old_val value mod 256 ^ Z.of_nat n in
  m ← remill_write_memory n m addr new_val;
  Ok (old_val, m).
Definition fetch_and_add := fetch_and_op Z.add.
Definition fetch_and_sub := fetch_and_op Z.sub.
Definition fetch_and_or := fetch_and_op Z.lor.
Definition fetch_and_and := fetch_and_op Z.land.
Definition fetch_and_xor := fetch_and_op Z.lxor.
End copying.

(** ** Properties *)

Section copying_props.
Context {M : Type} `{MemoryLaws M}.

Lemma two_bits : 2 ^ addr_bits = two32 \/ 2 ^ addr_bits = two64.
Proof. destruct addr_bits_ok as [-> | ->]; [by left|by right]. Qed.

Lemma addr_wrap_small z : 0 <= z < 2 ^ addr_bits -> addr_wrap z = z.
Proof. intros. by apply Z.mod_small. Qed.

Lemma below_limit m a : mem_ok m -> 0 <= a <= mem_limit m -> 0 <= a < 2 ^ addr_bits.
Proof.
  intros Hm Ha. pose proof (mem_limit_range m Hm). unfold kPageSize in *. lia.
Qed.

(** Every byte of an access is mapped and permitted. *)
Definition accessible_bytes (can : M -> Z -> bool) (m : M) (a n : Z) : Prop :=
  forall x, a <= x < a + n -> is_Some (byte m x) /\ can m x = true.

Lemma same_bytes_trans m1 m2 m3 : same_bytes byte m1 m2 -> same_bytes byte m2 m3 -> same_bytes byte m1 m3.
Proof. intros (A1 & B1 & C1) (A2 & B2 & C2). split_and!; intros a; congruence. Qed.

Lemma one_in : 1%nat ∈ [1; 2; 4; 8]%nat.
Proof. apply list_elem_of_here. Qed.

Lemma read_1 m a :
  mem_ok m -> 0 <= a -> a + 1 <= mem_limit m -> is_Some (byte m a) -> vmill_can_read_byte m a = true ->
  exists v m', remill_read_memory 1 m a = Ok (v, m') /\ mem_ok m' /\ mem_limit m' = mem_limit m /\
    same_bytes byte m m' /\ byte m a = Some v.
Proof.
  intros Hm Ha Hl Hs Hc. destruct (read_law 1 m a) as (v & m' & Hr & Hok & Hlim & Hsame & Hb & Hv); try done; [apply one_in| |].
  - intros x Hx. replace x with a by lia. done.
  - exists v, m'. split_and!; try done. pose proof (Hv 0%nat ltac:(lia)) as Hv0. rewrite Z.add_0_r in Hv0.
    rewrite Hv0. cbn. f_equal. change (256 ^ Z.of_nat 1) with 256 in Hb. by apply Z.mod_small.
Qed.

Lemma write_1 m a v :
  mem_ok m -> 0 <= a -> a + 1 <= mem_limit m -> is_Some (byte m a) -> vmill_can_write_byte m a = true ->
  byte_ok v ->
  exists m', remill_write_memory 1 m a v = Ok m' /\ mem_ok m' /\ mem_limit m' = mem_limit m /\
    stored byte m m' a [v].
Proof.
  intros Hm Ha Hl Hs Hc Hv. destruct (write_law 1 m a v) as (m' & Hr & Hok & Hlim & Hst); try done; [apply one_in| |].
  - intros x Hx. replace x with a by lia. done.
  - exists m'. split_and!; try done. cbn in Hst. by rewrite Z.mod_small in Hst.
Qed.

Lemma CopyFromMemory_spec n m a :
  mem_ok m -> 0 <= a -> a + Z.of_nat n <= mem_limit m -> accessible_bytes vmill_can_read_byte m a (Z.of_nat n) ->
  exists bs m', CopyFromMemory m a n = Ok (bs, m') /\ mem_ok m' /\ mem_limit m' = mem_limit m /\
    same_bytes byte m m' /\ length bs = n /\
    forall i v, bs !! i = Some v -> byte m (a + Z.of_nat i) = Some v.
Proof.
  revert m a. induction n as [|n IH]; intros m a Hm Ha Hl Hacc; cbn [CopyFromMemory].
  { exists [], m. by split_and!. }
  destruct (Hacc a) as [Hs Hc]; [lia|].
  destruct (read_1 m a) as (v & m1 & -> & Hm1 & Hl1 & Hsame & Hv); try done; [lia|].
  cbn [mbind outcome_bind]. rewrite addr_wrap_small by (apply (below_limit m); lia || done).
  destruct Hsame as (HA & HB & HC).
  destruct (IH m1 (a + 1)) as (bs & m2 & -> & Hm2 & Hl2 & Hsame2 & Hlen & Hbs); [done|lia|lia| |].
  { intros x Hx. rewrite HA, HB. apply Hacc. lia. }
  cbn [mbind outcome_bind]. exists (v :: bs), m2. split; [done|]. split; [done|]. split; [congruence|].
  split; [by apply (same_bytes_trans m m1 m2)|]. split; [cbn; congruence|].
  intros [|i] w; cbn; [intros [= <-]; by rewrite Z.add_0_r|]. intros Hw%Hbs. rewrite <- HA, <- Hw. f_equal. lia.
Qed.

Lemma stored_cons m m1 m2 a b bs :
  stored byte m m1 a [b] -> stored byte m1 m2 (a + 1) bs -> stored byte m m2 a (b :: bs).
Proof.
  intros (HA & HB & HC) (HA' & HB' & HC'). split_and!; intros x; [|congruence|congruence].
  rewrite HA', HA. cbn [length]. repeat case_decide; try lia; try done.
  - replace (Z.to_nat (x - a)) with (S (Z.to_nat (x - (a + 1)))) by lia. done.
  - replace (Z.to_nat (x - a)) with O by lia. done.
Qed.

Lemma CopyToMemory_spec data m a :
  mem_ok m -> 0 <= a -> a + Z.of_nat (length data) <= mem_limit m -> Forall byte_ok data ->
  accessible_bytes vmill_can_write_byte m a (Z.of_nat (length data)) ->
  exists m', CopyToMemory m a data = Ok m' /\ mem_ok m' /\ mem_limit m' = mem_limit m /\ stored byte m m' a data.
Proof.
  revert m a. induction data as [|b data IH]; intros m a Hm Ha Hl Hb Hacc; cbn [CopyToMemory].
  { exists m. split; [done|]. split; [done|]. split; [done|]. split; [|done].
    intros x. by rewrite decide_False by (cbn; lia). }
  apply Forall_cons in Hb as [Hb Hbs]. cbn [length] in *. destruct (Hacc a) as [Hs Hc]; [lia|].
  destruct (write_1 m a b) as (m1 & -> & Hm1 & Hl1 & Hst); try done; [lia|].
  cbn [mbind outcome_bind]. rewrite addr_wrap_small by (apply (below_limit m); lia || done).
  destruct (IH m1 (a + 1)) as (m2 & -> & Hm2 & Hl2 & Hst2); [done|lia|lia|done| |].
  { intros x Hx. destruct Hst as (HA & _ & HC). rewrite HA, HC. case_decide as Hd; [cbn in Hd; lia|]. apply Hacc. lia. }
  exists m2. split_and!; try done; [congruence|]. by eapply stored_cons.
Qed.

(** ** How many bytes can be accessed *)

Lemma num_bytes_step (can : M -> Z -> bool) m addr size fuel i :
  0 <= i -> i + 4096 < 2 ^ addr_bits -> size - i <= 4096 * Z.of_nat (S fuel) -> i < size ->
  num_bytes (S fuel) can m addr size i =
    if can m (addr_wrap (addr + i)) then num_bytes fuel can m addr size (i + 4096)
    else Ok (if i =? 0 then 0 else sub64 (Z.land (addr_wrap (addr + i)) (not64 4095)) addr).
Proof.
  intros Hi Hw Hf Hlt. cbn [num_bytes]. destruct (Z.ltb_spec i size); [|lia]. by rewrite (addr_wrap_small (i + 4096)) by lia.
Qed.

(** Requests of at most a page only look at the first byte. *)
Lemma num_bytes_small (can : M -> Z -> bool) m addr size :
  0 < size <= 4096 -> num_bytes (num_fuel size) can m addr size 0 = Ok (if can m (addr_wrap addr) then size else 0).
Proof.
  intros Hs. unfold num_fuel. replace (Z.to_nat ((size + 4095) / 4096)) with 1%nat.
  2:{ assert ((size + 4095) / 4096 = 1) as ->; [|done]. symmetry. apply (Z.div_unique _ _ _ (size + 4095 - 4096)); lia. }
  rewrite num_bytes_step by (try lia; destruct two_bits as [-> | ->]; done).
  rewrite Z.add_0_r. destruct (can m (addr_wrap addr)); [|done]. cbn [num_bytes].
  destruct (Z.ltb_spec (0 + 4096) size); [lia|]. f_equal. lia.
Qed.

(** Page-aligned requests: every page is looked at. *)
Lemma num_bytes_aligned (can : M -> Z -> bool) m addr size fuel i :
  aligned addr -> aligned i -> 0 <= i < size + 4096 -> 0 <= addr -> 0 <= size ->
  addr + size <= 2 ^ addr_bits - 4096 -> size - i <= 4096 * Z.of_nat fuel ->
  exists n, num_bytes fuel can m addr size i = Ok n /\ Z.min i size <= n <= size /\
    (forall p, aligned p -> addr + i <= p < addr + n -> can m p = true) /\
    (n < size -> can m (addr + n) = false).
Proof.
  intros Hal. assert (Hb : 2 ^ addr_bits <= two64) by (destruct two_bits as [-> | ->]; done).
  revert i. induction fuel as [|fuel IH]; intros i Hai Hi Ha Hs Htop Hf.
  { cbn [num_bytes]. destruct (Z.ltb_spec i size); [lia|]. exists (Z.min i size). split_and!; try done; try lia. }
  destruct (decide (i < size)) as [Hlt|Hge].
  2:{ cbn [num_bytes]. destruct (Z.ltb_spec i size); [lia|]. exists (Z.min i size). split_and!; try done; try lia. }
  rewrite num_bytes_step by lia. rewrite addr_wrap_small by lia. destruct (can m (addr + i)) eqn:Ec.
  - destruct (IH (i + 4096)) as (n & -> & Hn & Hall & Hstop); try lia; [by apply aligned_add|].
    exists n. split_and!; try done; try lia. intros p Hp Hr. destruct (decide (p = addr + i)) as [->|Hne]; [done|].
    apply Hall; [done|]. pose proof (aligned_lt (addr + i) p (aligned_add _ _ Hal Hai) Hp) as Hgap.
    unfold kPageSize in Hgap. lia.
  - assert (Hval : (if i =? 0 then 0 else sub64 (Z.land (addr + i) (not64 4095)) addr) = i).
    { destruct (Z.eqb_spec i 0) as [->|Hne]; [done|]. change (not64 4095) with (not64 (2 ^ 12 - 1)).
      rewrite land_not64_ones by (unfold u64; lia). change (2 ^ 12) with kPageSize.
      rewrite (aligned_add addr i Hal Hai). rewrite sub64_small; lia. }
    rewrite Hval. exists i. split_and!; try done; lia.
Qed.

Lemma num_fuel_enough size : 0 <= size -> size - 0 <= 4096 * Z.of_nat (num_fuel size).
Proof.
  intros Hs. unfold num_fuel. pose proof (Z.div_mod (size + 4095) 4096). pose proof (Z.mod_pos_bound (size + 4095) 4096). lia.
Qed.

(** ** Objects on one page *)

(** [[a, a + n)] does not cross a page boundary. *)
Definition one_page (a n : Z) : Prop := AlignDownToPage a = AlignDownToPage (a + n - 1).

Lemma one_page_all a n x : 0 <= a -> a + n <= two64 - 1 -> one_page a n -> a <= x < a + n -> AlignDownToPage x = AlignDownToPage a.
Proof.
  intros Ha Ht Hp Hx. unfold one_page in Hp.
  pose proof (AlignDownToPage_range a ltac:(unfold u64; lia)).
  pose proof (AlignDownToPage_range (a + n - 1) ltac:(unfold u64; lia)).
  apply AlignDownToPage_unique; [unfold u64; lia|apply AlignDownToPage_aligned; unfold u64; lia|]. lia.
Qed.

Lemma limit_two64 m : mem_ok m -> mem_limit m <= two64 - 4096.
Proof.
  intros Hm. pose proof (mem_limit_range m Hm). unfold kPageSize in *.
  destruct two_bits as [E|E]; rewrite E in *; unfold two32, two64 in *; lia.
Qed.

Definition mapped_bytes (m : M) (a n : Z) : Prop := forall x, a <= x < a + n -> is_Some (byte m x).

Lemma TryReadMemory_spec n m a :
  mem_ok m -> 0 <= a -> (0 < n <= 4096)%nat -> a + Z.of_nat n <= mem_limit m -> one_page a (Z.of_nat n) ->
  mapped_bytes m a (Z.of_nat n) ->
  exists r m', TryReadMemory m a n = Ok (r, m') /\ mem_ok m' /\ mem_limit m' = mem_limit m /\ same_bytes byte m m' /\
    match r with
    | None => vmill_can_read_byte m a = false
    | Some bs => vmill_can_read_byte m a = true /\ length bs = n /\
        forall i v, bs !! i = Some v -> byte m (a + Z.of_nat i) = Some v
    end.
Proof.
  intros Hm Ha Hn Hl Hp Hmap. pose proof (limit_two64 m Hm). unfold TryReadMemory, CanReadMemory, NumReadableBytes.
  rewrite num_bytes_small by lia. rewrite addr_wrap_small by (apply (below_limit m); lia || done).
  cbn [mbind outcome_bind]. destruct (vmill_can_read_byte m a) eqn:Ec.
  - rewrite Z.eqb_refl.
    destruct (CopyFromMemory_spec n m a) as (bs & m' & -> & Hm' & Hl' & Hs & Hlen & Hbs); try done.
    { intros x Hx. split; [by apply Hmap|]. rewrite can_read_page by (done || lia).
      rewrite (one_page_all a (Z.of_nat n)) by (done || lia). by rewrite <- can_read_page by (done || lia). }
    cbn [mbind outcome_bind]. exists (Some bs), m'. by split_and!.
  - destruct (Z.eqb_spec (Z.of_nat n) 0); [lia|]. exists None, m. by split_and!.
Qed.

Lemma TryWriteMemory_spec data m a :
  mem_ok m -> 0 <= a -> (0 < length data <= 4096)%nat -> a + Z.of_nat (length data) <= mem_limit m ->
  one_page a (Z.of_nat (length data)) -> mapped_bytes m a (Z.of_nat (length data)) -> Forall byte_ok data ->
  exists ok m', TryWriteMemory m a data = Ok (ok, m') /\ mem_ok m' /\ mem_limit m' = mem_limit m /\
    ok = vmill_can_write_byte m a /\ (if ok then stored byte m m' a data else m' = m).
Proof.
  intros Hm Ha Hn Hl Hp Hmap Hb. pose proof (limit_two64 m Hm). unfold TryWriteMemory, CanWriteMemory, NumWritableBytes.
  rewrite num_bytes_small by lia. rewrite addr_wrap_small by (apply (below_limit m); lia || done).
  cbn [mbind outcome_bind]. destruct (vmill_can_write_byte m a) eqn:Ec.
  - rewrite Z.eqb_refl.
    destruct (CopyToMemory_spec data m a) as (m' & -> & Hm' & Hl' & Hst); try done.
    { intros x Hx. split; [by apply Hmap|]. rewrite can_write_page by (done || lia).
      rewrite (one_page_all a (Z.of_nat (length data))) by (done || lia). by rewrite <- can_write_page by (done || lia). }
    cbn [mbind outcome_bind]. exists true, m'. by split_and!.
  - destruct (Z.eqb_spec (Z.of_nat (length data)) 0); [lia|]. exists false, m. by split_and!.
Qed.

(** ** Atomics *)

(** The little-endian value of [n] bytes of guest memory. *)
Definition holds (m : M) (n : nat) (a v : Z) : Prop :=
  0 <= v < 256 ^ Z.of_nat n /\ forall i, (i < n)%nat -> byte m (a + Z.of_nat i) = Some (nth i (le_bytes n v) 0).

Lemma stored_holds m m' n a v : stored byte m m' a (le_bytes n v) -> 0 <= v < 256 ^ Z.of_nat n -> holds m' n a v.
Proof.
  intros (HA & _) Hv. split; [done|]. intros i Hi. rewrite HA. rewrite decide_True by (rewrite length_le_bytes; lia).
  replace (Z.to_nat (a + Z.of_nat i - a)) with i by lia.
  destruct (lookup_lt_is_Some_2 (le_bytes n v) i) as [b Hb]; [by rewrite length_le_bytes|].
  rewrite Hb. f_equal. symmetry. by apply nth_lookup_Some.
Qed.

Lemma holds_unique m n a v w : holds m n a v -> holds m n a w -> v = w.
Proof.
  intros [Hv Hv'] [Hw Hw']. rewrite <- (Z.mod_small v (256 ^ Z.of_nat n)), <- (Z.mod_small w (256 ^ Z.of_nat n)) by done.
  rewrite <- !le_value_le_bytes. f_equal. apply list_eq_same_length with n; [apply length_le_bytes..|].
  intros i x y Hi Hx%(nth_lookup_Some _ _ 0) Hy%(nth_lookup_Some _ _ 0). pose proof (Hv' i Hi) as E1. pose proof (Hw' i Hi) as E2.
  rewrite E1 in E2. injection E2 as E2. rewrite <- Hx, <- Hy. exact E2.
Qed.

Context (n : nat) (Hn : n ∈ [1; 2; 4; 8]%nat).

(** Memory on which an atomic operation of [n] bytes may run. *)
Record atomic_ok (m : M) (a : Z) : Prop := {
  at_ok : mem_ok m;
  at_range : 0 <= a /\ a + Z.of_nat n <= mem_limit m;
  at_access x : a <= x < a + Z.of_nat n ->
    is_Some (byte m x) /\ vmill_can_read_byte m x = true /\ vmill_can_write_byte m x = true
}.

Lemma atomic_read m a : atomic_ok m a ->
  exists v m', remill_read_memory n m a = Ok (v, m') /\ holds m n a v /\ atomic_ok m' a /\ same_bytes byte m m'.
Proof.
  intros [Hm [Ha Hl] Hacc].
  destruct (read_law n m a) as (v & m' & Hr & Hm' & Hl' & Hs & Hb & Hv); try done.
  { intros x Hx. destruct (Hacc x Hx) as (? & ? & ?). done. }
  exists v, m'. split_and!; try done. destruct Hs as (HA & HB & HC). split; [done|lia|].
  intros x Hx. rewrite HA, HB, HC. by apply Hacc.
Qed.

Lemma atomic_write m a v : atomic_ok m a -> 0 <= v < 256 ^ Z.of_nat n ->
  exists m', remill_write_memory n m a v = Ok m' /\ stored byte m m' a (le_bytes n v) /\ holds m' n a v /\ mem_ok m'.
Proof.
  intros [Hm [Ha Hl] Hacc] Hv.
  destruct (write_law n m a v) as (m' & Hr & Hm' & Hl' & Hst); try done.
  { intros x Hx. destruct (Hacc x Hx) as (? & ? & ?). done. }
  exists m'. split_and!; try done. by eapply stored_holds.
Qed.

Lemma same_stored m m1 m2 a bs : same_bytes byte m m1 -> stored byte m1 m2 a bs -> stored byte m m2 a bs.
Proof. intros (A1 & B1 & C1) (A2 & B2 & C2). split_and!; intros x; rewrite ?A2, ?A1; congruence. Qed.

(** Compare-exchange stores [desired] exactly when the value was
    [expected], and reports the value it found. *)
Lemma compare_exchange_spec m a v expected desired :
  atomic_ok m a -> holds m n a v -> 0 <= desired < 256 ^ Z.of_nat n ->
  exists m', compare_exchange_memory n m a expected desired = Ok (v, m') /\ mem_ok m' /\
    stored byte m m' a (le_bytes n (if v =? expected then desired else v)).
Proof.
  intros Hat Hv Hd. unfold compare_exchange_memory.
  destruct (atomic_read m a Hat) as (w & m1 & -> & Hw & Hat1 & Hs). cbn [mbind outcome_bind].
  rewrite <- (holds_unique m n a v w Hv Hw). destruct (Z.eqb_spec v expected) as [->|Hne].
  - destruct (atomic_write m1 a desired Hat1 Hd) as (m2 & -> & Hst & _ & Hm2). cbn [mbind outcome_bind].
    exists m2. split_and!; try done. by eapply same_stored.
  - destruct (atomic_write m1 a v Hat1) as (m2 & -> & Hst & _ & Hm2); [apply Hv|]. cbn [mbind outcome_bind].
    exists m2. split_and!; try done. by eapply same_stored.
Qed.

(** Read-modify-write returns the old value and stores the result at the
    width of the operand, and nothing else. *)
Lemma fetch_and_op_spec op m a v value :
  atomic_ok m a -> holds m n a v ->
  exists m', fetch_and_op op n m a value = Ok (v, m') /\ mem_ok m' /\
    stored byte m m' a (le_bytes n (op v value mod 256 ^ Z.of_nat n)).
Proof.
  intros Hat Hv. unfold fetch_and_op.
  destruct (atomic_read m a Hat) as (w & m1 & -> & Hw & Hat1 & Hs). cbn [mbind outcome_bind].
  rewrite <- (holds_unique m n a v w Hv Hw). cbv zeta.
  destruct (atomic_write m1 a (op v value mod 256 ^ Z.of_nat n) Hat1) as (m2 & -> & Hst & _ & Hm2).
  { apply Z.mod_pos_bound. apply Z.pow_pos_nonneg; lia. }
  cbn [mbind outcome_bind]. exists m2. split_and!; try done. by eapply same_stored.
Qed.
End copying_props.
