(* ===== verification/Tasks.v ===== *)
(** * Tasks and their status

    Models [vmill/Runtime/Task.h], the task-status parts of
    [vmill/Executor/Runtime.cpp] (fault recording, stop locations,
    [__vmill_execute], [__vmill_run]) and [vmill/Executor/Coroutine.cpp].

    Lifted code is generated, so running it is a parameter: a function on the
    task that reports whether it returned or paused its coroutine.
    [Coroutine] has the stack switch itself and floating point rounding modes;
    logging is not modelled. *)

From S2P Require Import Prelude.

Inductive TaskStatus :=
| kTaskStatusRunnable
| kTaskStatusResumable
| kTaskStatusError
| kTaskStatusExited.

Inductive TaskStopLocation :=
| kTaskNotYetStarted
| kTaskStoppedAtSnapshotEntryPoint
| kTaskStoppedAtJumpTarget
| kTaskStoppedAtCallTarget
| kTaskStoppedAtReturnTarget
| kTaskStoppedAtError
| kTaskStoppedAfterHyperCall
| kTaskStoppedBeforeUnhandledHyperCall
| kTaskStoppedAtUnsupportedInstruction
| kTaskStoppedAtExit.

Inductive MemoryAccessFaultKind :=
| kMemoryAccessNoFault
| kMemoryAccessFaultOnRead
| kMemoryAccessFaultOnWrite
| kMemoryAccessFaultOnExecute.

Inductive MemoryValueType :=
| kMemoryValueTypeInvalid
| kMemoryValueTypeInteger
| kMemoryValueTypeFloatingPoint
| kMemoryValueTypeInstruction.

#[global] Instance TaskStatus_eq_dec : EqDecision TaskStatus.
Proof. solve_decision. Defined.
#[global] Instance TaskStopLocation_eq_dec : EqDecision TaskStopLocation.
Proof. solve_decision. Defined.
#[global] Instance MemoryAccessFaultKind_eq_dec : EqDecision MemoryAccessFaultKind.
Proof. solve_decision. Defined.

Record MemoryFault := MkFault {
  fault_address : Z;
  access_size : Z;
  fault_kind : MemoryAccessFaultKind;
  value_type : MemoryValueType
}.

Definition no_fault : MemoryFault := MkFault 0 0 kMemoryAccessNoFault kMemoryValueTypeInvalid.

Record Task := MkTask {
  pc : Z;
  status : TaskStatus;
  status_on_resume : TaskStatus;
  location : TaskStopLocation;
  last_pc : Z;
  mem_access_fault : MemoryFault
}.

Definition with_status (t : Task) (s r : TaskStatus) : Task :=
  MkTask (pc t) s r (location t) (last_pc t) (mem_access_fault t).

Definition with_location (t : Task) (p : Z) (l : TaskStopLocation) : Task :=
  MkTask p (status t) (status_on_resume t) l (last_pc t) (mem_access_fault t).

Definition with_fault (t : Task) (f : MemoryFault) : Task :=
  MkTask (pc t) kTaskStatusError kTaskStatusError (location t) (last_pc t) f.

(** [MAKE_MEM_FAULT]: only the first fault is recorded. *)
Definition record_fault (kind : MemoryAccessFaultKind) (vtype : MemoryValueType) (size addr : Z) (t : Task) : Task :=
  if bool_decide (fault_kind (mem_access_fault t) = kMemoryAccessNoFault)
  then with_fault t (MkFault addr size kind vtype)
  else t.

(** [__vmill_set_location] *)
Definition vmill_set_location (t : Task) (new_pc : Z) (loc : TaskStopLocation) : Task :=
  let t := with_location t new_pc loc in
  match loc with
  | kTaskStoppedAtError | kTaskStoppedBeforeUnhandledHyperCall | kTaskStoppedAtUnsupportedInstruction =>
      with_status t kTaskStatusError kTaskStatusError
  | kTaskStoppedAtExit => with_status t kTaskStatusExited kTaskStatusExited
  | _ => t
  end.

(** [__remill_error] *)
Definition remill_error (t : Task) (new_pc : Z) : Task :=
  with_status (with_location t new_pc kTaskStoppedAtError) kTaskStatusError kTaskStatusError.

(** The task updates of [__remill_jump], [__remill_function_call] and
    [__remill_function_return], before control leaves the task. *)
Definition remill_jump (t : Task) (new_pc : Z) : Task := with_location t new_pc kTaskStoppedAtJumpTarget.
Definition remill_function_call (t : Task) (new_pc : Z) : Task := with_location t new_pc kTaskStoppedAtCallTarget.
Definition remill_function_return (t : Task) (new_pc : Z) : Task := with_location t new_pc kTaskStoppedAtReturnTarget.

(** [Coroutine::Pause] *)
Definition Pause (t : Task) : Task :=
  let t' := with_status t (status t) (status t) in
  match status t with
  | kTaskStatusRunnable => with_status t' kTaskStatusResumable (status t)
  | _ => t'
  end.

(** [Coroutine::Resume]; its [DCHECK] is a check of debug builds. *)
Definition Resume (t : Task) : outcome Task :=
  check (bool_decide (status_on_resume t = kTaskStatusRunnable)) ;;
  Ok (with_status t (status_on_resume t) (status_on_resume t)).

(** The end of [__vmill_execute], once the lifted code has returned;
    [entry_pc] is the program counter it was entered with. *)
Definition after_lifted (t : Task) (entry_pc : Z) : Task :=
  let t := MkTask (pc t) (status t) (status_on_resume t) (location t) entry_pc (mem_access_fault t) in
  let new_status :=
    if bool_decide (fault_kind (mem_access_fault t) = kMemoryAccessNoFault) then
      match location t with
      | kTaskStoppedAtError | kTaskStoppedBeforeUnhandledHyperCall => kTaskStatusError
      | _ => kTaskStatusRunnable
      end
    else kTaskStatusError in
  with_status t new_status (status_on_resume t).

(** What lifted code does when it runs: it returns to [__vmill_execute], or
    it pauses its coroutine and returns to [__vmill_run]. *)
Inductive LiftedResult := Returned (t : Task) | Paused (t : Task).

Section run.
(** The lifted function of a task and the program counter its current
    activation was entered with. *)
Variable lifted : Task -> LiftedResult.
Variable resume_lifted : Task -> LiftedResult.
Variable entry_pc : Task -> Z.

Definition vmill_execute (t : Task) : Task :=
  match lifted t with
  | Returned t' => after_lifted t' (pc t)
  | Paused t' => Pause t'
  end.

(** [__vmill_run]: [gTask] is null on entry and on exit. *)
Definition vmill_run (t : Task) : outcome Task :=
  match status t with
  | kTaskStatusResumable =>
      t ← Resume t;
      Ok (match resume_lifted t with
          | Returned t' => after_lifted t' (entry_pc t)
          | Paused t' => Pause t'
          end)
  | kTaskStatusRunnable => Ok (vmill_execute t)
  | _ => Fatal
  end.
End run.

(** ** The task state machine *)

(** Steps of a task while it runs and between runs. *)
Inductive task_step : Task -> Task -> Prop :=
| ts_fault t kind vtype size addr :
    kind <> kMemoryAccessNoFault -> task_step t (record_fault kind vtype size addr t)
| ts_location t new_pc loc : task_step t (vmill_set_location t new_pc loc)
| ts_error t new_pc : task_step t (remill_error t new_pc)
| ts_jump t new_pc : task_step t (remill_jump t new_pc)
| ts_call t new_pc : task_step t (remill_function_call t new_pc)
| ts_return t new_pc : task_step t (remill_function_return t new_pc)
| ts_pause t : status t <> kTaskStatusResumable -> task_step t (Pause t)
| ts_resume t t' : status t = kTaskStatusResumable -> Resume t = Ok t' -> task_step t t'
| ts_finish t entry : task_step t (after_lifted t entry).

(** A paused task always satisfies the check of [Resume]; a faulted task has
    the error status, unless it was explicitly stopped. *)
Record task_inv (t : Task) : Prop := {
  ti_resumable : status t = kTaskStatusResumable -> status_on_resume t = kTaskStatusRunnable;
  ti_fault : fault_kind (mem_access_fault t) <> kMemoryAccessNoFault ->
    status t = kTaskStatusError \/ status t = kTaskStatusExited
}.

Lemma task_inv_step t t' : task_step t t' -> task_inv t -> task_inv t'.
Proof.
  intros Hst [Hr Hf]. destruct Hst as [t kind vt size addr Hk|t p loc|t p|t p|t p|t p|t Hne|t t' Hs Heq|t entry].
  - unfold record_fault. case_bool_decide; [|done]. split; cbn; [done|by left].
  - unfold vmill_set_location. destruct loc; cbn; split; cbn; try done; auto.
  - split; cbn; [done|by left].
  - by split.
  - by split.
  - by split.
  - unfold Pause. destruct (status t) eqn:E; cbn; split; cbn; try done; intros Hk;
      destruct (Hf Hk); congruence || (by left) || (by right).
  - unfold Resume in Heq. case_bool_decide as Hb; [|done]. cbn in Heq. injection Heq as <-.
    split; cbn; [congruence|]. intros Hk. destruct (Hf Hk); congruence.
  - unfold after_lifted. cbn. split; cbn; [|intros Hk; rewrite bool_decide_eq_false_2 by done; by left].
    case_bool_decide; [|done]. by destruct (location t).
Qed.

(** The first fault is the one that stays. *)
Lemma fault_sticky t t' :
  task_step t t' -> fault_kind (mem_access_fault t) <> kMemoryAccessNoFault ->
  mem_access_fault t' = mem_access_fault t.
Proof.
  intros Hst Hk. destruct Hst as [t kind vt size addr Hkd|t p loc|t p|t p|t p|t p|t Hne|t t' Hs Heq|t entry]; try done.
  - unfold record_fault. by rewrite bool_decide_eq_false_2.
  - unfold vmill_set_location. by destruct loc.
  - unfold Pause. by destruct (status t).
  - unfold Resume in Heq. case_bool_decide; [|done]. cbn in Heq. by injection Heq as <-.
Qed.

Lemma task_inv_steps t t' : rtc task_step t t' -> task_inv t -> task_inv t'.
Proof. induction 1; eauto using task_inv_step. Qed.

Lemma fault_sticky_steps t t' :
  rtc task_step t t' -> fault_kind (mem_access_fault t) <> kMemoryAccessNoFault ->
  mem_access_fault t' = mem_access_fault t.
Proof.
  induction 1 as [|t1 t2 t3 H1 _ IH]; intros Hk; [done|].
  pose proof (fault_sticky _ _ H1 Hk) as E. rewrite IH; [done|]. by rewrite E.
Qed.

(** A task as [__vmill_init_task] leaves it. *)
Definition initial_task (p : Z) : Task :=
  MkTask p kTaskStatusRunnable kTaskStatusRunnable kTaskNotYetStarted 0 no_fault.

(** ** What the task machine promises *)

(** In every history of a task, [Resume] never finds a paused task whose
    saved status is not runnable (its debug check cannot fail), and a task
    that faulted is in an error or exited status. *)
Theorem task_machine_invariant p t :
  rtc task_step (initial_task p) t ->
  (status t = kTaskStatusResumable -> exists t', Resume t = Ok t' /\ status t' = kTaskStatusRunnable) /\
  (fault_kind (mem_access_fault t) <> kMemoryAccessNoFault ->
   status t = kTaskStatusError \/ status t = kTaskStatusExited).
Proof.
  intros Hst. assert (Hi : task_inv (initial_task p)) by (by split; cbn).
  destruct (task_inv_steps _ _ Hst Hi) as [Hr Hf]. split; [|done]. intros Hs. specialize (Hr Hs).
  unfold Resume. rewrite Hr. cbn. eauto.
Qed.

Lemma task_machine_invariant_witness :
  exists t', Resume (Pause (initial_task 4096)) = Ok t' /\ status t' = kTaskStatusRunnable.
Proof.
  destruct (task_machine_invariant 4096 (Pause (initial_task 4096))) as [Hr _].
  - apply rtc_once. apply ts_pause. cbn. congruence.
  - apply Hr. reflexivity.
Defined.

(** The recorded fault of a task is its first one: no later step of any
    history changes it. *)
Theorem first_fault_recorded p t t' kind vtype size addr :
  rtc task_step (initial_task p) t -> fault_kind (mem_access_fault t) = kMemoryAccessNoFault ->
  kind <> kMemoryAccessNoFault ->
  rtc task_step (record_fault kind vtype size addr t) t' ->
  mem_access_fault t' = MkFault addr size kind vtype.
Proof.
  intros _ Hno Hk Hst. assert (Hrec : mem_access_fault (record_fault kind vtype size addr t) = MkFault addr size kind vtype).
  { unfold record_fault. by rewrite bool_decide_eq_true_2. }
  rewrite (fault_sticky_steps _ _ Hst); [done|]. by rewrite Hrec.
Qed.

Lemma first_fault_recorded_witness :
  mem_access_fault (record_fault kMemoryAccessFaultOnWrite kMemoryValueTypeInteger 8 5000
    (record_fault kMemoryAccessFaultOnRead kMemoryValueTypeInteger 4 16 (initial_task 0))) =
  MkFault 16 4 kMemoryAccessFaultOnRead kMemoryValueTypeInteger.
Proof.
  apply (first_fault_recorded 0 (initial_task 0)).
  - apply rtc_refl.
  - reflexivity.
  - congruence.
  - apply rtc_once. apply ts_fault. congruence.
Defined.

(** The exit of a task is forgotten: lifted code that stops the task with
    [kTaskStoppedAtExit] and returns leaves it runnable, since
    [__vmill_execute] recomputes the status from the location and only treats
    errors specially. *)
Theorem exit_is_overwritten lifted t t1 exit_pc :
  lifted t = Returned (vmill_set_location t1 exit_pc kTaskStoppedAtExit) ->
  fault_kind (mem_access_fault t1) = kMemoryAccessNoFault ->
  status (vmill_set_location t1 exit_pc kTaskStoppedAtExit) = kTaskStatusExited /\
  status (vmill_execute lifted t) = kTaskStatusRunnable.
Proof.
  intros Hl Hno. split; [done|]. unfold vmill_execute. rewrite Hl. unfold after_lifted. cbn.
  by rewrite bool_decide_eq_true_2.
Qed.

Lemma exit_is_overwritten_witness :
  status (vmill_execute (fun t => Returned (vmill_set_location t 5 kTaskStoppedAtExit)) (initial_task 0)) =
  kTaskStatusRunnable.
Proof.
  apply (exit_is_overwritten (fun t => Returned (vmill_set_location t 5 kTaskStoppedAtExit)) (initial_task 0)
           (initial_task 0) 5); reflexivity.
Defined.
