(* ===== verification/MemoryInstance.v ===== *)
(** * The memory intrinsics on address spaces

    [vmill/Executor/Runtime.cpp] implements the intrinsics of
    [Intrinsics.h] on [AddressSpace]: the [__vmill_*] memory functions, the
    accesses of [MAKE_MEM_READ] and [MAKE_MEM_WRITE] with the recording of
    faults in the current task, and the 80-bit accesses.  (On AMD64 hosts the
    integer accesses are assembly versions of the same functions, which
    [RuntimeAsm] compares with these.)  The
    intrinsics satisfy [MemoryLaws], so every result of [GuestMemory.v] holds
    of address spaces. *)

From S2P Require Import Prelude Pages MappedRange RangeProps AddressSpace SpaceInv Lookup ReadProps WriteProps.
From S2P Require Import MapChange SpaceTheorems GuestMemory Tasks.

(** The process-wide memory, the space a task runs in and [gTask].  The type
    carries the flag [--version_code] and the width of [addr_t]. *)
Record Mem (version_code : bool) (bits : Z) := MkMem {
  mheap : Heap;
  mspace : AddressSpace;
  gTask : option Task
}.
Arguments MkMem {_ _}.
Arguments mheap {_ _}.
Arguments mspace {_ _}.
Arguments gTask {_ _}.

Section intrinsics.
Context {version_code : bool} {bits : Z}.
Local Abbreviation M := (Mem version_code bits).

Definition vmill_is_mapped_address (m : M) (where_ : Z) : outcome bool :=
  IsMapped (mheap m) (mspace m) where_.

Definition allocate_memory (m : M) (where_ size : Z) (name_ : option string) (offset_ : Z) : outcome M :=
  '(h, s) ← AddMap (mheap m) (mspace m) where_ size name_ offset_; Ok (MkMem h s (gTask m)).

Definition free_memory (m : M) (where_ size : Z) : outcome M :=
  '(h, s) ← RemoveMap (mheap m) (mspace m) where_ size; Ok (MkMem h s (gTask m)).

Definition protect_memory (m : M) (where_ size : Z) (r w x : bool) : outcome M :=
  s ← SetPermissions (mheap m) (mspace m) where_ size r w x; Ok (MkMem (mheap m) s (gTask m)).

Definition find_unmapped_address (m : M) (base limit size : Z) : outcome Z :=
  '(found, hole) ← FindHole (mheap m) (mspace m) base limit size;
  Ok (if (found : bool) then hole else 0).

(** [MAKE_MEM_FAULT]: nothing is recorded outside a task. *)
Definition fault (kind : MemoryAccessFaultKind) (vtype : MemoryValueType) (size addr : Z) (t : option Task) :
    option Task := record_fault kind vtype size addr <$> t.

(** [memory->TryRead(addr, &ret_val)] for a value of [n] bytes. *)
Definition try_read (n : nat) (h : Heap) (s : AddressSpace) (addr : Z) : outcome (bool * list Z * AddressSpace) :=
  match n with
  | 1%nat => '(ok, v, s) ← TryRead_8 h s addr; Ok (ok, [v], s)
  | _ => MAKE_TRY_READ n h s addr
  end.

(** [MAKE_MEM_READ]: the bits of the value read. *)
Definition read_memory (vtype : MemoryValueType) (n : nat) (m : M) (addr : Z) : outcome (Z * M) :=
  '(ok, vs, s) ← try_read n (mheap m) (mspace m) addr;
  if (ok : bool) then Ok (le_value vs, MkMem (mheap m) s (gTask m))
  else Ok (0, MkMem (mheap m) s (fault kMemoryAccessFaultOnRead vtype (Z.of_nat n) addr (gTask m))).

(** [memory->TryWrite(addr, val)]. *)
Definition try_write (h : Heap) (s : AddressSpace) (addr : Z) (bs : list Z) : outcome (bool * Heap * AddressSpace) :=
  match bs with
  | [b] => TryWrite_8 version_code h s addr b
  | _ => MAKE_TRY_WRITE version_code h s addr bs
  end.

(** [MAKE_MEM_WRITE] *)
Definition write_memory (vtype : MemoryValueType) (n : nat) (m : M) (addr val : Z) : outcome M :=
  '(ok, h, s) ← try_write (mheap m) (mspace m) addr (le_bytes n val);
  Ok (MkMem h s (if (ok : bool) then gTask m
                 else fault kMemoryAccessFaultOnWrite vtype (Z.of_nat n) addr (gTask m))).

(** The bytes of [__remill_read_memory_f80], [None] for the 0.0 returned
    after a fault, and [__remill_write_memory_f80] on the ten bytes of its
    value. *)
Definition read_memory_f80 (m : M) (addr : Z) : outcome (option (list Z) * M) :=
  '(ok, vs, s) ← TryRead_bulk (mheap m) (mspace m) addr 10;
  if (ok : bool) then Ok (Some vs, MkMem (mheap m) s (gTask m))
  else Ok (None, MkMem (mheap m) s
                   (fault kMemoryAccessFaultOnRead kMemoryValueTypeFloatingPoint 10 addr (gTask m))).

Definition write_memory_f80 (m : M) (addr : Z) (long_val : list Z) : outcome M :=
  '(ok, h, s) ← TryWrite_bulk version_code (mheap m) (mspace m) addr (take 10 long_val);
  Ok (MkMem h s (if (ok : bool) then gTask m
                 else fault kMemoryAccessFaultOnWrite kMemoryValueTypeFloatingPoint 10 addr (gTask m))).

#[global] Instance space_ops : MemoryOps M := {
  addr_bits := bits;
  vmill_can_read_byte m := CanRead (mspace m);
  vmill_can_write_byte m := CanWrite (mspace m);
  remill_read_memory := read_memory kMemoryValueTypeInteger;
  remill_write_memory := write_memory kMemoryValueTypeInteger;
  vmill_allocate_memory := allocate_memory;
  vmill_free_memory := free_memory;
  vmill_protect_memory := protect_memory;
  vmill_find_unmapped_address := find_unmapped_address
}.

(** ** The laws *)

Record space_ok (m : M) : Prop := {
  so_heap : wf_heap (mheap m);
  so_space : wf_space (mheap m) (mspace m);
  so_mask : addr_mask (mspace m) = 2 ^ bits - 1
}.

Definition sizes : list nat := [1; 2; 4; 8]%nat.

Lemma sizes_range n : n ∈ [1; 2; 4; 8]%nat -> (0 < n <= 8)%nat.
Proof. rewrite !elem_of_cons, elem_of_nil. lia. Qed.

(** An address below the limit is not changed by the mask. *)
Lemma so_masked m a :
  bits = 32 \/ bits = 64 -> space_ok m -> 0 <= a < 2 ^ bits - kPageSize -> u64 a /\ masked (mspace m) a = a.
Proof.
  intros Hb [_ Hw Hm] Ha. unfold masked. split.
  - unfold u64, kPageSize in *. destruct Hb as [-> | ->]; unfold two64; lia.
  - apply land_mask; [apply Hw|]. rewrite Hm. unfold kPageSize in *. lia.
Qed.

Lemma try_read_spec n m a :
  bits = 32 \/ bits = 64 -> space_ok m -> n ∈ [1; 2; 4; 8]%nat -> 0 <= a -> a + Z.of_nat n <= 2 ^ bits - kPageSize ->
  exists ok vs s', try_read n (mheap m) (mspace m) a = Ok (ok, vs, s') /\
    read_post (mheap m) (mspace m) a (Z.of_nat n) ok vs s'.
Proof.
  intros Hb Hok Hn Ha Hl. pose proof (sizes_range n Hn).
  destruct (so_masked m a Hb Hok) as [Hu Hma]; [lia|]. destruct Hok as [Hh Hw Hm].
  assert (2 ^ bits <= two64) by (destruct Hb as [-> | ->]; unfold two64; lia).
  unfold try_read. destruct (decide (n = 1%nat)) as [->|Hne].
  - destruct (TryRead_8_spec (mheap m) (mspace m) a) as (ok & v & s' & Heq & Hp); [done..|].
    rewrite Hma in *. rewrite Heq. cbn. eauto.
  - destruct (MAKE_TRY_READ_spec n (mheap m) (mspace m) a) as (ok & vs & s' & Heq & Hp);
      [done|done|done|lia|rewrite Hma; lia|].
    rewrite Hma in *. destruct n as [|[|n]]; [lia|lia|]. eauto.
Qed.

Lemma try_write_spec m a bs :
  bits = 32 \/ bits = 64 -> space_ok m -> bs <> [] -> Forall byte_ok bs -> 0 <= a ->
  a + Z.of_nat (length bs) <= 2 ^ bits - kPageSize ->
  exists ok h' s', try_write (mheap m) (mspace m) a bs = Ok (ok, h', s') /\
    write_post (mheap m) (mspace m) a bs any_page ok h' s'.
Proof.
  intros Hb Hok Hne Hbs Ha Hl. assert (length bs <> 0%nat) by (by destruct bs).
  destruct (so_masked m a Hb Hok) as [Hu Hma]; [lia|]. destruct Hok as [Hh Hw Hm].
  assert (2 ^ bits <= two64) by (destruct Hb as [-> | ->]; unfold two64; lia).
  unfold try_write. destruct bs as [|b [|b' bs]]; [done| |].
  - pose proof (TryWrite_8_spec version_code (mheap m) (mspace m) a Hh Hw Hu b) as HW. rewrite Hma in HW.
    apply HW; [by inversion Hbs|]. cbn in Hl. lia.
  - pose proof (MAKE_TRY_WRITE_spec version_code (mheap m) (mspace m) a Hh Hw Hu (b :: b' :: bs)) as HW.
    rewrite Hma in HW. apply HW; [done..|]. lia.
Qed.

Lemma can_page (perm : AddressSpace -> Z -> bool) m a :
  bits = 32 \/ bits = 64 -> space_ok m -> 0 <= a < 2 ^ bits - kPageSize ->
  AlignDownToPage (Z.land a (addr_mask (mspace m))) = AlignDownToPage a /\
  AlignDownToPage (Z.land (AlignDownToPage a) (addr_mask (mspace m))) = AlignDownToPage a.
Proof.
  intros Hb Hok Ha. destruct (so_masked m a Hb Hok Ha) as [Hu Hma]. pose proof (AlignDownToPage_range a Hu) as Hr.
  destruct (so_masked m (AlignDownToPage a) Hb Hok) as [_ Hma']; [lia|].
  unfold masked in *. rewrite Hma, Hma'. split; [done|]. apply AlignDownToPage_id; [by apply AlignDownToPage_u64|].
  by apply AlignDownToPage_aligned.
Qed.

Lemma abs_byte_ok (m : M) a v : space_ok m -> abs (mheap m) (mspace m) a = Some v -> byte_ok v.
Proof.
  intros [Hh Hw _] Ha. apply (abs_Some _ _ _ _ Hw) in Ha as (l & r & [_ Hl] & Hc & Hv & <-).
  pose proof (view_ok _ l r a Hh Hl Hc) as [Hvw Hb]. exact Hb.
Qed.

(** Operations that only move the pointer caches keep everything a guest can
    see. *)
Lemma cache_step_same (m : M) s t :
  cache_step (mspace m) s -> wf_space (mheap m) s -> space_ok m ->
  space_ok (MkMem (mheap m) s t : M) /\
  same_bytes (fun m a => abs (mheap m) (mspace m) a) m (MkMem (mheap m) s t : M).
Proof.
  intros Hst Hw [Hh _ Hm]. destruct (cache_step_maps _ _ Hst) as [_ Hmask]. split.
  - split; cbn; [done|done|by rewrite Hmask].
  - split; [|split]; intros a; cbn.
    + by apply cache_step_abs.
    + unfold CanRead. rewrite Hmask. by apply cache_step_perms.
    + unfold CanWrite. rewrite Hmask. by apply cache_step_perms.
Qed.

Lemma permitted_accessible (perm : AddressSpace -> Z -> bool) (m : M) a n :
  bits = 32 \/ bits = 64 -> space_ok m -> 0 <= a -> a + n <= 2 ^ bits - kPageSize ->
  (forall x, a <= x < a + n -> is_Some (abs (mheap m) (mspace m) x) /\
     perm (mspace m) (AlignDownToPage (Z.land x (addr_mask (mspace m)))) = true) ->
  accessible (mheap m) (mspace m) (perm (mspace m)) a n.
Proof.
  intros Hb Hok Ha Hl H x Hx. destruct (H x Hx) as [? Hp]. split; [done|].
  destruct (can_page perm m x Hb Hok) as [Heq _]; [lia|]. by rewrite Heq in Hp.
Qed.

Lemma space_read_total n (m : M) a :
  bits = 32 \/ bits = 64 -> space_ok m -> n ∈ [1; 2; 4; 8]%nat -> 0 <= a -> a + Z.of_nat n <= 2 ^ bits - kPageSize ->
  exists v m', remill_read_memory n m a = Ok (v, m') /\ space_ok m' /\
    same_bytes (fun m a => abs (mheap m) (mspace m) a) m m' /\
    (accessible (mheap m) (mspace m) (any_perm (mspace m)) a (Z.of_nat n) ->
     0 <= v < 256 ^ Z.of_nat n /\
     forall i, (i < n)%nat -> abs (mheap m) (mspace m) (a + Z.of_nat i) = Some (nth i (le_bytes n v) 0)).
Proof.
  intros Hb Hok Hn Ha Hl. destruct (try_read_spec n m a) as (ok & vs & s' & Heq & [Hst Hw _ Hr Hs]); [done..|].
  cbn [remill_read_memory space_ops]. unfold read_memory. rewrite Heq. cbn [mbind outcome_bind].
  destruct ok.
  - destruct (Hr eq_refl) as [Hlen Hre]. destruct (cache_step_same m s' (gTask m)) as [? ?]; [done..|].
    eexists _, _. split; [done|]. split; [done|]. split; [done|]. intros _.
    assert (Hbo : Forall byte_ok vs).
    { apply Forall_lookup. intros i v Hi. eapply (abs_byte_ok m); [done|]. by apply Hre. }
    assert (length vs = n) by lia. subst n. pose proof (le_value_bound vs Hbo). split; [lia|].
    intros i Hi. rewrite le_bytes_le_value by done. apply Hre.
    destruct (nth_lookup_or_length vs i 0) as [?|?]; [done|lia].
  - destruct (cache_step_same m s' (fault kMemoryAccessFaultOnRead kMemoryValueTypeInteger (Z.of_nat n) a (gTask m)))
      as [? ?]; [done..|].
    eexists _, _. split; [done|]. split; [done|]. split; [done|]. intros Hacc. by apply Hs in Hacc.
Qed.

Lemma space_write n (m : M) a v :
  bits = 32 \/ bits = 64 -> space_ok m -> n ∈ [1; 2; 4; 8]%nat -> 0 <= a -> a + Z.of_nat n <= 2 ^ bits - kPageSize ->
  accessible (mheap m) (mspace m) (CanWriteAligned (mspace m)) a (Z.of_nat n) ->
  exists m', remill_write_memory n m a v = Ok m' /\ space_ok m' /\
    stored (fun m a => abs (mheap m) (mspace m) a) m m' a (le_bytes n v).
Proof.
  intros Hb Hok Hn Ha Hl Hacc. pose proof (sizes_range n Hn).
  destruct (try_write_spec m a (le_bytes n v)) as (ok & h' & s' & Heq & Hp);
    [done|done| |apply le_bytes_ok|done|by rewrite length_le_bytes|].
  { intros Hnil. apply (f_equal length) in Hnil. rewrite length_le_bytes in Hnil. cbn in Hnil. lia. }
  cbn [remill_write_memory space_ops]. unfold write_memory. rewrite Heq. cbn [mbind outcome_bind].
  assert (ok = true) as -> by (apply (wr_succeeds _ _ _ _ _ _ _ _ Hp); by rewrite length_le_bytes).
  eexists. split; [done|]. pose proof (wr_step _ _ _ _ _ _ _ _ Hp) as Hst.
  destruct (cache_step_maps _ _ Hst) as [_ Hmask]. split.
  - split; cbn; [apply (wr_frame _ _ _ _ _ _ _ _ Hp)|apply (wr_wf _ _ _ _ _ _ _ _ Hp)|].
    rewrite Hmask. apply Hok.
  - split; [|split]; intros x; cbn.
    + by apply (write_post_prefix_mapped _ _ _ _ _ _ _ _ Hp).
    + unfold CanRead. rewrite Hmask. by apply cache_step_perms.
    + unfold CanWrite. rewrite Hmask. by apply cache_step_perms.
Qed.
End intrinsics.

(** [ADDRESS_SIZE_BITS] of the runtimes. *)
Class AddrBits (bits : Z) := addr_bits_valid : bits = 32 \/ bits = 64.
#[global] Instance addr_bits_32 : AddrBits 32. Proof. by left. Qed.
#[global] Instance addr_bits_64 : AddrBits 64. Proof. by right. Qed.

#[global] Program Instance space_laws {vc bits} `{Hb : !AddrBits bits} : MemoryLaws (Mem vc bits) := {
  mem_ok := space_ok;
  byte m a := abs (mheap m) (mspace m) a;
  mem_limit _ := 2 ^ bits - kPageSize
}.
Next Obligation. intros. apply Hb. Qed.
Next Obligation. intros vc bits Hb m _. cbn. destruct Hb as [-> | ->]; unfold kPageSize; lia. Qed.
Next Obligation.
  intros vc bits Hb m a Hok Ha. cbn. unfold CanRead.
  by destruct (can_page CanReadAligned m a Hb Hok Ha) as [-> ->].
Qed.
Next Obligation.
  intros vc bits Hb m a Hok Ha. cbn. unfold CanWrite.
  by destruct (can_page CanWriteAligned m a Hb Hok Ha) as [-> ->].
Qed.
Next Obligation. intros vc bits Hb m a v Hok Ha. exact (abs_byte_ok m a v Hok Ha). Qed.
Next Obligation.
  intros vc bits Hb n m a Hok Hn Ha Hl Hacc.
  destruct (space_read_total n m a) as (v & m' & Heq & Hok' & Hs & Hv); [done..|].
  exists v, m'. destruct Hv as [? ?]; [|done]. intros x Hx.
  destruct (permitted_accessible CanReadAligned m a (Z.of_nat n) Hb Hok Ha Hl Hacc x Hx) as [? Hr].
  split; [done|]. unfold any_perm. by rewrite Hr.
Qed.
Next Obligation.
  intros vc bits Hb n m a v Hok Hn Ha Hl Hacc.
  destruct (space_write n m a v) as (m' & Heq & Hok' & Hs); [done..| |by exists m'].
  by apply (permitted_accessible CanWriteAligned).
Qed.
Next Obligation.
  intros vc bits Hb n m a Hok Hn Ha Hl.
  destruct (space_read_total n m a) as (v & m' & Heq & Hok' & _); [done..|]. by exists v, m'.
Qed.

(** ** Atomic operations on guest memory *)

(** The space of the demonstration: [[0x1000, 0x3000)] mapped and writable. *)
Definition demo_mem : Mem false 64 := MkMem (fst demo_state) (snd demo_state) None.

Lemma demo_mem_ok : mem_ok demo_mem.
Proof. destruct demo_ok as (_ & ? & ?). split; [done|done|vm_compute; reflexivity]. Qed.

Lemma demo_mem_byte x : 4096 <= x < 12288 -> byte demo_mem x = Some 0.
Proof.
  intros Hx. change (byte demo_mem x) with (abs (fst demo_state) (snd demo_state) x).
  pose proof demo_remapped as Hr. rewrite (rp_abs _ _ _ _ _ _ _ _ _ _ Hr). rewrite decide_True; [done|].
  unfold in_request, request_limit. change (AlignDownToPage 4096) with 4096. change (RoundUpToPage 8192) with 8192. lia.
Qed.

Lemma demo_mem_perm x : 4096 <= x < 12288 ->
  vmill_can_read_byte demo_mem x = true /\ vmill_can_write_byte demo_mem x = true.
Proof.
  intros Hx. assert (Hm : 0 <= x < mem_limit demo_mem) by (change (mem_limit demo_mem) with (two64 - 4096); unfold two64; lia).
  rewrite can_read_page, can_write_page by (exact Hm || apply demo_mem_ok).
  assert (AlignDownToPage x = 4096 \/ AlignDownToPage x = 8192) as [-> | ->]; [|by vm_compute..].
  rewrite AlignDownToPage_eq by (unfold u64, two64; lia). unfold kPageSize.
  pose proof (Z.div_mod x 4096). pose proof (Z.mod_pos_bound x 4096).
  assert (1 <= x / 4096 < 3); [|lia]. split; [apply Z.div_le_lower_bound|apply Z.div_lt_upper_bound]; lia.
Qed.

Lemma demo_mem_zero : atomic_ok 4 demo_mem 4100 /\ holds demo_mem 4 4100 0.
Proof.
  split; [split|].
  - apply demo_mem_ok.
  - vm_compute. split; congruence.
  - intros x Hx. rewrite demo_mem_byte by lia. split; [done|]. apply demo_mem_perm. lia.
  - split; [lia|]. intros i Hi. rewrite demo_mem_byte by lia. do 4 (destruct i as [|i]; [done|]). lia.
Qed.

(** Called with any operand, the intrinsic [rmw] reports the old value of the
    [n] bytes at [a] and replaces it, and no other byte, by the one [new]
    computes from the operand. *)
Definition replaces {vc bits} `{!AddrBits bits} (n : nat) (m : Mem vc bits) (a v : Z)
    (rmw : nat -> Mem vc bits -> Z -> Z -> outcome (Z * Mem vc bits)) (new : Z -> Z) : Prop :=
  forall value, exists m', rmw n m a value = Ok (v, m') /\ mem_ok m' /\ stored byte m m' a (le_bytes n (new value)).

(** C39: the atomic intrinsics of 8, 16, 32 and 64 bits, on memory below the
    last page that is mapped, readable and writable, leave every other byte
    and all permissions as they were.  A compare-exchange reports the value
    found and stores [desired] exactly when that value is [expected],
    rewriting the same bytes otherwise.  [add], [sub], [or], [and] and [xor]
    report the old value and store its sum, its difference (wrapped to the
    width of the operand), its bitwise disjunction, conjunction and exclusive
    disjunction with the operand.  (The 128-bit compare-exchange is not
    covered: the accesses it calls are not part of the program.) *)
Theorem atomics_correct {vc bits} `{!AddrBits bits} n (m : Mem vc bits) a v :
  n ∈ [1; 2; 4; 8]%nat -> atomic_ok n m a -> holds m n a v ->
  (forall expected desired, 0 <= desired < 256 ^ Z.of_nat n ->
   exists m', compare_exchange_memory n m a expected desired = Ok (v, m') /\ mem_ok m' /\
     stored byte m m' a (le_bytes n (if v =? expected then desired else v))) /\
  replaces n m a v fetch_and_add (fun value => (v + value) mod 256 ^ Z.of_nat n) /\
  replaces n m a v fetch_and_sub (fun value => (v - value) mod 256 ^ Z.of_nat n) /\
  replaces n m a v fetch_and_or (fun value => Z.lor v value mod 256 ^ Z.of_nat n) /\
  replaces n m a v fetch_and_and (fun value => Z.land v value mod 256 ^ Z.of_nat n) /\
  replaces n m a v fetch_and_xor (fun value => Z.lxor v value mod 256 ^ Z.of_nat n).
Proof.
  intros Hn Hat Hv. split; [intros; by apply compare_exchange_spec|].
  split_and!; intros value; by apply fetch_and_op_spec.
Qed.

Lemma atomics_correct_witness :
  (exists m', compare_exchange_memory 4 demo_mem 4100 0 7 = Ok (0, m') /\ holds m' 4 4100 7) /\
  (exists m', fetch_and_sub 4 demo_mem 4100 1 = Ok (0, m') /\ holds m' 4 4100 4294967295).
Proof.
  destruct demo_mem_zero as [Hat Hv].
  destruct (atomics_correct 4 demo_mem 4100 0) as (HC & _ & HS & _); [set_solver|exact Hat|exact Hv|].
  split.
  - destruct (HC 0 7) as (m' & Heq & _ & Hst); [lia|]. exists m'. split; [exact Heq|].
    apply (stored_holds demo_mem); [exact Hst|lia].
  - destruct (HS 1) as (m' & Heq & _ & Hst). exists m'. split; [exact Heq|].
    apply (stored_holds demo_mem); [exact Hst|lia].
Defined.

(** An object that lies on one mapped page round trips through
    [TryWriteMemory] and [TryReadMemory]: the write succeeds exactly when the
    page is writable, a failing write changes nothing, and after a successful
    one the read, if the page is readable, returns the bytes written. *)
Theorem object_roundtrip {vc bits} `{!AddrBits bits} (m : Mem vc bits) a data :
  mem_ok m -> 0 <= a -> (0 < length data <= 4096)%nat -> a + Z.of_nat (length data) <= mem_limit m ->
  one_page a (Z.of_nat (length data)) -> mapped_bytes m a (Z.of_nat (length data)) -> Forall byte_ok data ->
  exists ok m1 r m2, TryWriteMemory m a data = Ok (ok, m1) /\ TryReadMemory m1 a (length data) = Ok (r, m2) /\
    ok = vmill_can_write_byte m a /\ (ok = false -> m1 = m) /\
    (ok = true -> r = if vmill_can_read_byte m a then Some data else None).
Proof.
  intros Hm Ha Hn Hl Hp Hmap Hb.
  destruct (TryWriteMemory_spec data m a) as (ok & m1 & Hw & Hm1 & Hl1 & Hok & Hst); [done..|].
  assert (Hread : forall x, vmill_can_read_byte m1 x = vmill_can_read_byte m x).
  { intros x. destruct ok; [apply Hst|by rewrite Hst]. }
  destruct (TryReadMemory_spec (length data) m1 a) as (r & m2 & Hr & _ & _ & _ & Hcase); [done..|by rewrite Hl1|done| |].
  { intros x Hx. destruct ok; [|subst m1; by apply Hmap]. destruct Hst as (HA & _). rewrite HA.
    rewrite decide_True by lia. apply lookup_lt_is_Some. lia. }
  exists ok, m1, r, m2. split; [done|]. split; [done|]. split; [done|]. split; [by intros ->|]. intros ->.
  destruct r as [bs|].
  - destruct Hcase as (Hc & Hlen & Hbs). rewrite Hread in Hc. rewrite Hc. f_equal. apply list_eq_same_length with (length bs); [done|done|].
    intros i v w Hi Hv Hw'. apply Hbs in Hv. destruct Hst as (HA & _). rewrite HA, decide_True in Hv by lia.
    replace (Z.to_nat (a + Z.of_nat i - a)) with i in Hv by lia. congruence.
  - rewrite Hread in Hcase. by rewrite Hcase.
Qed.

Lemma object_roundtrip_witness :
  exists m1 m2, TryWriteMemory demo_mem 5000 [1; 2; 3] = Ok (true, m1) /\
    TryReadMemory m1 5000 3 = Ok (Some [1; 2; 3], m2).
Proof.
  destruct (object_roundtrip demo_mem 5000 [1; 2; 3]) as (ok & m1 & r & m2 & Hw & Hr & Hok & _ & Heq).
  - apply demo_mem_ok.
  - lia.
  - cbn. lia.
  - change (mem_limit demo_mem) with (two64 - 4096). cbn. unfold two64. lia.
  - vm_compute. reflexivity.
  - intros x Hx. cbn in Hx. rewrite demo_mem_byte by lia. done.
  - repeat constructor; unfold byte_ok; lia.
  - destruct (demo_mem_perm 5000) as [Hcr Hcw]; [lia|]. rewrite Hcr in Heq. rewrite Hcw in Hok. subst ok.
    rewrite (Heq eq_refl) in Hr. eauto.
Defined.

(** The check before a copy is incomplete for unaligned requests: 4096
    bytes from [0x2fff] are reported readable although all but the first are
    on an unmapped page. *)
Theorem unaligned_request_unchecked :
  CanReadMemory demo_mem 12287 4096 = Ok true /\ byte demo_mem 12288 = None /\
  vmill_can_read_byte demo_mem 12288 = false.
Proof. vm_compute. done. Qed.
