(* ===== verification/LinuxTasks.v ===== *)
(** * The task list of the emulated Linux

    [vmill/Runtime/Linux/Run.h] and [vmill/Runtime/Linux/Run.cpp] with the
    task set-up of [vmill/Runtime/Generic/Run.cpp]: the linked task lists
    ([next] from [gTaskList], the ring [next_circular]), task creation and
    the scheduler loop of [__vmill_resume].

    Tasks are objects of a store, and the list pointers are pointers into
    it, so that the two linked structures and their sharing are as in the
    code.  [__vmill_run] is a parameter of the scheduler; [Tasks.v] models it
    for one task. *)

From S2P Require Import Prelude Tasks.

Local Abbreviation ptr := positive.

(** ** [Run.h] *)

Definition kLinuxMinIndexForTLSInGDT : Z := 12.
Definition kLinuxMaxIndexForTLSInGDT : Z := 14.
Definition kNumTLSSlots : Z := kLinuxMaxIndexForTLSInGDT - kLinuxMinIndexForTLSInGDT + 1.

Definition kParentProcessId : Z := 1.
Definition kProcessId : Z := 2.
Definition kParentProcessGroupId : Z := 0.
Definition kFutexBlockedForABit : Z := 100.
Definition kBlockedForever : Z := two32 - 1.

(** [linux_x86_user_desc], with [contents] as its two bits. *)
Record user_desc := MkDesc {
  entry_number : Z;
  base_addr : Z;
  limit : Z;
  seg_32bit : bool;
  contents : Z;
  read_exec_only : bool;
  limit_in_pages : bool;
  seg_not_present : bool;
  useable : bool
}.

Definition zero_desc : user_desc := MkDesc 0 0 0 false 0 false false false false.

Definition IsEmpty (d : user_desc) : bool :=
  (base_addr d =? 0) && (limit d =? 0) && (contents d =? 0) && read_exec_only d &&
  negb (seg_32bit d) && negb (limit_in_pages d) && seg_not_present d && negb (useable d).

Definition IsZero (d : user_desc) : bool :=
  (base_addr d =? 0) && (limit d =? 0) && (contents d =? 0) && negb (read_exec_only d) &&
  negb (seg_32bit d) && negb (limit_in_pages d) && negb (seg_not_present d) && negb (useable d).

(** [linux_task]; [task_memory] stands for the pointer to the address space
    and [St] for the architecture's register state, which each task owns. *)
Record linux_task (St : Type) := MkLinuxTask {
  base_task : Task;
  task_state : St;
  task_memory : positive;
  next : option ptr;
  next_circular : option ptr;
  tls_slots : list user_desc;
  blocked_count : Z;
  wake_count : Z;
  futex_bitset : Z;
  futex_uaddr : Z;
  tid : Z;
  clear_child_tid : Z;
  set_child_tid : Z
}.
Arguments MkLinuxTask {_}.
Arguments base_task {_}.
Arguments task_state {_}.
Arguments task_memory {_}.
Arguments next {_}.
Arguments next_circular {_}.
Arguments tls_slots {_}.
Arguments blocked_count {_}.
Arguments wake_count {_}.
Arguments futex_bitset {_}.
Arguments futex_uaddr {_}.
Arguments tid {_}.
Arguments clear_child_tid {_}.
Arguments set_child_tid {_}.

(** The globals of [Run.cpp] and the store the task objects live in. *)
Record OS (St : Type) := MkOS {
  tasks : gmap ptr (linux_task St);
  gTaskList : option ptr;
  gLastTask : option ptr;
  gNextTid : Z;
  next_ptr : ptr
}.
Arguments MkOS {_}.
Arguments tasks {_}.
Arguments gTaskList {_}.
Arguments gLastTask {_}.
Arguments gNextTid {_}.
Arguments next_ptr {_}.

Section run.
Context {St : Type}.
Implicit Types (os : OS St) (t : linux_task St) (p : ptr).

Definition with_base t (b : Task) : linux_task St :=
  MkLinuxTask b (task_state t) (task_memory t) (next t) (next_circular t) (tls_slots t) (blocked_count t)
    (wake_count t) (futex_bitset t) (futex_uaddr t) (tid t) (clear_child_tid t) (set_child_tid t).
Definition with_state t (s : St) : linux_task St :=
  MkLinuxTask (base_task t) s (task_memory t) (next t) (next_circular t) (tls_slots t) (blocked_count t)
    (wake_count t) (futex_bitset t) (futex_uaddr t) (tid t) (clear_child_tid t) (set_child_tid t).
Definition with_circular t (o : option ptr) : linux_task St :=
  MkLinuxTask (base_task t) (task_state t) (task_memory t) (next t) o (tls_slots t) (blocked_count t)
    (wake_count t) (futex_bitset t) (futex_uaddr t) (tid t) (clear_child_tid t) (set_child_tid t).
Definition with_slots t (l : list user_desc) : linux_task St :=
  MkLinuxTask (base_task t) (task_state t) (task_memory t) (next t) (next_circular t) l (blocked_count t)
    (wake_count t) (futex_bitset t) (futex_uaddr t) (tid t) (clear_child_tid t) (set_child_tid t).
Definition with_blocked t (n : Z) : linux_task St :=
  MkLinuxTask (base_task t) (task_state t) (task_memory t) (next t) (next_circular t) (tls_slots t) n
    (wake_count t) (futex_bitset t) (futex_uaddr t) (tid t) (clear_child_tid t) (set_child_tid t).
Definition with_futex t (bitset uaddr : Z) : linux_task St :=
  MkLinuxTask (base_task t) (task_state t) (task_memory t) (next t) (next_circular t) (tls_slots t) (blocked_count t)
    (wake_count t) bitset uaddr (tid t) (clear_child_tid t) (set_child_tid t).
Definition with_child_tids t (c s : Z) : linux_task St :=
  MkLinuxTask (base_task t) (task_state t) (task_memory t) (next t) (next_circular t) (tls_slots t) (blocked_count t)
    (wake_count t) (futex_bitset t) (futex_uaddr t) (tid t) c s.

Definition get_task os p : outcome (linux_task St) := deref_opt (tasks os !! p).

Definition put_task os p t : OS St :=
  MkOS (<[p := t]> (tasks os)) (gTaskList os) (gLastTask os) (gNextTid os) (next_ptr os).

Definition update_task os p (f : linux_task St -> linux_task St) : outcome (OS St) :=
  t ← get_task os p; Ok (put_task os p (f t)).

(** ** [Run.cpp] *)

Definition vmill_init os : OS St := MkOS (tasks os) None None kProcessId (next_ptr os).

(** [__vmill_fini]: every task of the list is deleted. *)
Fixpoint fini_loop (fuel : nat) os (o : option ptr) : outcome (OS St) :=
  match o with
  | None => Ok os
  | Some p =>
      match fuel with
      | O => Diverges
      | S fuel =>
          t ← get_task os p;
          fini_loop fuel (MkOS (delete p (tasks os)) (gTaskList os) (gLastTask os) (gNextTid os) (next_ptr os)) (next t)
      end
  end.

Definition vmill_fini os : outcome (OS St) :=
  os ← fini_loop (size (tasks os)) os (gTaskList os);
  Ok (MkOS (tasks os) None None (gNextTid os) (next_ptr os)).

(** [__vmill_init_task] on a zeroed task. *)
Definition init_task (s : St) (pc : Z) (memory : positive) : linux_task St :=
  MkLinuxTask (MkTask pc kTaskStatusRunnable kTaskStatusRunnable kTaskNotYetStarted 0 no_fault) s memory None None
    (replicate (Z.to_nat kNumTLSSlots) zero_desc) 0 0 0 0 0 0 0.

Definition vmill_create_task os (s : St) (pc : Z) (memory : positive) : outcome (ptr * OS St) :=
  let task := next_ptr os in
  let t := init_task s pc memory in
  let new_tid := gNextTid os in
  '(last, circular, os) ←
    match gTaskList os with
    | Some head =>
        last ← deref_opt (gLastTask os);
        os ← update_task os last (fun l => with_circular l (Some task));
        Ok (Some last, Some head, os)
    | None => Ok (Some task, Some task, os)
    end;
  let t := MkLinuxTask (base_task t) (task_state t) (task_memory t) (gTaskList os) circular (tls_slots t)
             (blocked_count t) (wake_count t) (futex_bitset t) (futex_uaddr t) new_tid (clear_child_tid t)
             (set_child_tid t) in
  Ok (task, MkOS (<[task := t]> (tasks os)) (Some task) last (gNextTid os + 1) (Pos.succ task)).

(** [__vmill_resume]: one pass over the list from [o], and the outer loop.
    [run] is [__vmill_run], which may change the whole system. *)
Section scheduler.
Context (run : OS St -> ptr -> outcome (OS St)).

Definition is_live t : bool :=
  match status (base_task t) with kTaskStatusRunnable | kTaskStatusResumable => true | _ => false end.

Definition schedule os p t : outcome (OS St) :=
  if blocked_count t =? 0 then run os p else Ok (put_task os p (with_blocked t (blocked_count t - 1))).

Fixpoint resume_pass (fuel : nat) os (o : option ptr) (progressed : bool) : outcome (bool * OS St) :=
  match o with
  | None => Ok (progressed, os)
  | Some p =>
      match fuel with
      | O => Diverges
      | S fuel =>
          t ← get_task os p;
          '(progressed, os) ← (if is_live t then os ← schedule os p t; Ok (true, os) else Ok (progressed, os));
          t ← get_task os p;
          resume_pass fuel os (next t) progressed
      end
  end.

(** A pass visits the tasks that were on the list when it started. *)
Definition one_pass os : outcome (bool * OS St) := resume_pass (size (tasks os)) os (gTaskList os) false.

Fixpoint vmill_resume (fuel : nat) os : outcome (OS St) :=
  match fuel with
  | O => Diverges
  | S fuel =>
      '(progressed, os) ← one_pass os;
      if (progressed : bool) then vmill_resume fuel os else Ok os
  end.
End scheduler.
End run.

(** ** The two linked structures represent one list *)

Section invariant.
Context {St : Type}.
Implicit Types (os : OS St) (t : linux_task St) (p : ptr) (l : list ptr).

(** The successor in the ring: the next element of [l], and the first one
    after the last. *)
Definition ring_next l (i : nat) : option ptr :=
  match l !! S i with Some p => Some p | None => head l end.

(** [l] lists the tasks, newest first: it is what [next] visits from
    [gTaskList], [next_circular] goes round it, and [gLastTask] is its last
    element.  Thread ids count up from [kProcessId]. *)
Record os_ok os l : Prop := {
  os_nodup : NoDup l;
  os_dom p : is_Some (tasks os !! p) <-> p ∈ l;
  os_head : gTaskList os = head l;
  os_last : gLastTask os = last l;
  os_next i p t : l !! i = Some p -> tasks os !! p = Some t -> next t = l !! S i;
  os_ring i p t : l !! i = Some p -> tasks os !! p = Some t -> next_circular t = ring_next l i;
  os_tid i p t : l !! i = Some p -> tasks os !! p = Some t -> tid t = kProcessId + Z.of_nat (length l - 1 - i);
  os_next_tid : gNextTid os = kProcessId + Z.of_nat (length l);
  os_fresh p : p ∈ l -> (p < next_ptr os)%positive
}.

Lemma os_ok_lookup os l i p : os_ok os l -> l !! i = Some p -> exists t, tasks os !! p = Some t.
Proof. intros Hok Hi. apply (os_dom _ _ Hok). by eapply list_elem_of_lookup_2. Qed.

Lemma get_task_Some os p t : tasks os !! p = Some t -> get_task os p = Ok t.
Proof. unfold get_task. by intros ->. Qed.

Lemma os_size os l : os_ok os l -> size (tasks os) = length l.
Proof.
  intros Hok. rewrite <- size_dom. rewrite <- (size_list_to_set (C := gset ptr) l) by apply Hok.
  f_equal. apply set_eq. intros p. rewrite elem_of_dom, elem_of_list_to_set. apply Hok.
Qed.

(** Updates that keep the links and the thread id keep the invariant. *)
Definition same_links t t' : Prop := next t' = next t /\ next_circular t' = next_circular t /\ tid t' = tid t.

Lemma os_ok_put os l p t t' :
  os_ok os l -> tasks os !! p = Some t -> same_links t t' -> os_ok (put_task os p t') l.
Proof.
  intros [Hnd Hdom Hh Hl Hn Hr Ht Hnt Hf] Hp (E1 & E2 & E3). split; try done.
  - intros q. cbn. rewrite lookup_insert_is_Some. destruct (decide (p = q)) as [<-|Hne].
    + split; [intros _; apply Hdom; by exists t|by left].
    + rewrite Hdom. tauto.
  - intros i q t0 Hi. cbn. intros [[<- <-]|[? ?]]%lookup_insert_Some; [rewrite E1|]; eauto.
  - intros i q t0 Hi. cbn. intros [[<- <-]|[? ?]]%lookup_insert_Some; [rewrite E2|]; eauto.
  - intros i q t0 Hi. cbn. intros [[<- <-]|[? ?]]%lookup_insert_Some; [rewrite E3|]; eauto.
Qed.

Lemma vmill_init_ok os : tasks os = ∅ -> os_ok (vmill_init os) [].
Proof.
  intros He. split; cbn; try done.
  - constructor.
  - intros p. rewrite He, lookup_empty, elem_of_nil. split; [by intros []|done].
  - intros p Hp%elem_of_nil. done.
Qed.

Lemma os_empty_list os l : os_ok os l -> gTaskList os = None -> l = [].
Proof. intros Hok Hn. rewrite (os_head _ _ Hok) in Hn. by destruct l. Qed.

Lemma last_index l i p q : NoDup l -> last l = Some q -> l !! i = Some p -> (p = q <-> l !! S i = None).
Proof.
  intros Hnd Hl Hi. rewrite last_lookup in Hl. pose proof (lookup_lt_Some _ _ _ Hi). split.
  - intros ->. assert (i = pred (length l)) as -> by (by eapply NoDup_lookup). apply lookup_ge_None. lia.
  - intros Hn%lookup_ge_None. replace i with (pred (length l)) in Hi by lia. congruence.
Qed.

(** A new task is put in front, closes the ring, and gets the next thread
    id. *)
Lemma vmill_create_task_spec os l s pc memory :
  os_ok os l ->
  exists p os', vmill_create_task os s pc memory = Ok (p, os') /\ os_ok os' (p :: l) /\ ~ p ∈ l /\
    (exists t, tasks os' !! p = Some t /\ base_task t = base_task (init_task s pc memory) /\ task_state t = s /\
       task_memory t = memory /\ tid t = gNextTid os /\ blocked_count t = 0 /\ futex_uaddr t = 0) /\
    (forall q t, tasks os !! q = Some t ->
       exists t', tasks os' !! q = Some t' /\ t' = with_circular t (next_circular t')).
Proof.
  intros Hok. unfold vmill_create_task. set (p := next_ptr os). cbv zeta.
  assert (Hp : p ∉ l) by (intros Hin%(os_fresh _ _ Hok); lia).
  assert (Hpn : tasks os !! p = None).
  { apply eq_None_not_Some. rewrite (os_dom _ _ Hok). done. }
  rewrite (os_head _ _ Hok). destruct (last l) as [q|] eqn:Elast.
  2:{ apply last_None in Elast as ->. cbn [head mbind outcome_bind]. eexists p, _. split; [done|].
      rewrite (os_head _ _ Hok). cbn [head]. split; [|split; [done|split]].
      - assert (He : forall r, tasks os !! r = None).
        { intros r. apply eq_None_not_Some. rewrite (os_dom _ _ Hok). apply not_elem_of_nil. }
        split; cbn; try done.
        + by apply NoDup_singleton.
        + intros r. rewrite lookup_insert_is_Some, list_elem_of_singleton, He.
          split; [intros [?|[_ [? ?]]]; done|]. intros ->. by left.
        + intros [|i] r t; [|done]. intros [= <-]. rewrite lookup_insert_eq. by intros [= <-].
        + intros [|i] r t; [|done]. intros [= <-]. rewrite lookup_insert_eq. by intros [= <-].
        + intros [|i] r t; [|done]. intros [= <-]. rewrite lookup_insert_eq. intros [= <-]. cbn.
          apply (os_next_tid _ _ Hok).
        + by rewrite (os_next_tid _ _ Hok).
        + intros r ->%list_elem_of_singleton. lia.
      - cbn. rewrite lookup_insert_eq. eexists. split; [done|]. done.
      - intros r t Hr. exfalso. assert (r ∈ []) as []%not_elem_of_nil. apply (os_dom _ _ Hok). by exists t. }
  assert (exists hd, head l = Some hd) as [hd Ehd] by (destruct l; [done|by eexists]). rewrite Ehd.
  rewrite (os_last _ _ Hok), Elast. cbn [deref_opt mbind outcome_bind].
  destruct (os_ok_lookup os l (pred (length l)) q) as [tq Hq]; [done|by rewrite <- last_lookup|].
  unfold update_task. rewrite (get_task_Some _ _ _ Hq). cbn [mbind outcome_bind].
  assert (Hqp : q <> p) by congruence.
  eexists p, _. split; [done|]. cbn [put_task gTaskList tasks gNextTid].
  rewrite (os_head _ _ Hok), Ehd. split; [|split; [done|split]].
  - split; cbn [tasks gTaskList gLastTask gNextTid next_ptr].
    + constructor; [done|apply Hok].
    + intros r. rewrite !lookup_insert_is_Some, elem_of_cons, (os_dom _ _ Hok).
      destruct (decide (p = r)) as [<-|]; [tauto|]. destruct (decide (q = r)) as [<-|]; [|intuition congruence].
      assert (q ∈ l) by (apply (os_dom _ _ Hok); by exists tq). tauto.
    + done.
    + by rewrite last_cons, Elast.
    + intros [|i] r t; cbn.
      * intros [= <-]. rewrite lookup_insert_eq. intros [= <-]. by destruct l; simplify_eq/=.
      * intros Hi Ht. assert (r <> p) by (intros ->; by apply Hp; eapply list_elem_of_lookup_2).
        rewrite lookup_insert_ne in Ht by done. apply lookup_insert_Some in Ht as [[<- <-]|[? ?]].
        -- cbn. by eapply (os_next _ _ Hok).
        -- by eapply (os_next _ _ Hok).
    + intros [|i] r t Hi Ht.
      * injection Hi as <-. rewrite lookup_insert_eq in Ht. injection Ht as <-. by destruct l; simplify_eq/=.
      * change (l !! i = Some r) in Hi.
        change (ring_next (p :: l) (S i)) with (match l !! S i with Some x => Some x | None => Some p end).
        assert (r <> p) by (intros ->; by apply Hp; eapply list_elem_of_lookup_2).
        pose proof (last_index l i r q (os_nodup _ _ Hok) Elast Hi) as Hlast.
        rewrite lookup_insert_ne in Ht by done. apply lookup_insert_Some in Ht as [[<- <-]|[Hne Ht]].
        -- cbn. by rewrite (proj1 Hlast eq_refl).
        -- rewrite (os_ring _ _ Hok i r t Hi Ht). unfold ring_next. destruct (l !! S i) eqn:Es; [done|].
           exfalso. apply Hne. symmetry. by apply Hlast.
    + intros [|i] r t; cbn.
      * intros [= <-]. rewrite lookup_insert_eq. intros [= <-]. cbn. rewrite (os_next_tid _ _ Hok). f_equal. lia.
      * intros Hi Ht. assert (r <> p) by (intros ->; by apply Hp; eapply list_elem_of_lookup_2).
        replace (length l - 0 - S i)%nat with (length l - 1 - i)%nat by lia.
        rewrite lookup_insert_ne in Ht by done. apply lookup_insert_Some in Ht as [[<- <-]|[? ?]].
        -- cbn. by eapply (os_tid _ _ Hok).
        -- by eapply (os_tid _ _ Hok).
    + rewrite (os_next_tid _ _ Hok). cbn [length]. lia.
    + intros r [->|Hr]%elem_of_cons; [lia|]. pose proof (os_fresh _ _ Hok r Hr). lia.
  - rewrite lookup_insert_eq. eexists. split; [done|]. done.
  - intros r t Hr. assert (r <> p) by congruence. rewrite lookup_insert_ne by done.
    destruct (decide (q = r)) as [<-|Hne].
    + rewrite lookup_insert_eq. eexists. split; [done|]. cbn. congruence.
    + rewrite lookup_insert_ne by done. exists t. split; [done|]. by destruct t.
Qed.
End invariant.

(** ** The scheduler *)

Section scheduling.
Context {St : Type} (run : OS St -> ptr -> outcome (OS St)).
Implicit Types (os : OS St) (t : linux_task St) (p q : ptr) (l : list ptr).

(** Running a task returns and may add tasks in front of the list. *)
Context (run_ok : forall os l p, os_ok os l -> p ∈ l -> exists os' l', run os p = Ok os' /\ os_ok os' (l' ++ l)).

Lemma schedule_ok os l p t :
  os_ok os l -> tasks os !! p = Some t -> exists os' l', schedule run os p t = Ok os' /\ os_ok os' (l' ++ l).
Proof.
  intros Hok Hp. unfold schedule. destruct (blocked_count t =? 0).
  - apply run_ok; [done|]. apply (os_dom _ _ Hok). by exists t.
  - eexists _, []. split; [done|]. by eapply os_ok_put.
Qed.

(** A pass from position [i] returns with the fuel it is given; it reports
    no progress only when it found every remaining task stopped, and then it
    has changed nothing. *)
Lemma resume_pass_spec fuel os l i b :
  os_ok os l -> (length l - i <= fuel)%nat ->
  exists b' os' l', resume_pass run fuel os (l !! i) b = Ok (b', os') /\ os_ok os' (l' ++ l) /\
    (b' = false -> b = false /\ os' = os /\
     forall j q t, (i <= j)%nat -> l !! j = Some q -> tasks os !! q = Some t -> is_live t = false).
Proof.
  revert os l i b. induction fuel as [|fuel IH]; intros os l i b Hok Hf.
  { rewrite lookup_ge_None_2 by lia. exists b, os, []. split; [done|]. split; [done|]. intros ->.
    split; [done|]. split; [done|]. intros j q t Hj Hq%lookup_lt_Some. lia. }
  destruct (l !! i) as [p|] eqn:Ei; cbn [resume_pass].
  2:{ exists b, os, []. split; [done|]. split; [done|]. intros ->. split; [done|]. split; [done|].
      intros j q t Hj Hq%lookup_lt_Some. apply lookup_ge_None in Ei. lia. }
  destruct (os_ok_lookup _ _ _ _ Hok Ei) as [t Ht]. rewrite (get_task_Some _ _ _ Ht). cbn [mbind outcome_bind].
  destruct (is_live t) eqn:El.
  - destruct (schedule_ok os l p t) as (os1 & l1 & -> & Hok1); [done..|]. cbn [mbind outcome_bind].
    assert (Ei1 : (l1 ++ l) !! (length l1 + i)%nat = Some p).
    { rewrite lookup_app_r by lia. by replace (length l1 + i - length l1)%nat with i by lia. }
    destruct (os_ok_lookup _ _ _ _ Hok1 Ei1) as [t1 Ht1]. rewrite (get_task_Some _ _ _ Ht1). cbn [mbind outcome_bind].
    rewrite (os_next _ _ Hok1 _ _ _ Ei1 Ht1).
    destruct (IH os1 (l1 ++ l) (S (length l1 + i)) true) as (b' & os' & l' & -> & Hok' & Hb);
      [done|rewrite length_app; lia|].
    exists b', os', (l' ++ l1). split; [done|]. rewrite <- (assoc_L (++)). split; [done|].
    intros ->. by destruct (Hb eq_refl).
  - cbn [mbind outcome_bind]. rewrite (get_task_Some _ _ _ Ht). cbn [mbind outcome_bind].
    rewrite (os_next _ _ Hok _ _ _ Ei Ht).
    destruct (IH os l (S i) b) as (b' & os' & l' & -> & Hok' & Hb); [done|lia|].
    exists b', os', l'. split; [done|]. split; [done|]. intros ->. destruct (Hb eq_refl) as (-> & -> & Hall).
    split; [done|]. split; [done|]. intros j q t' Hj Hq Ht'. destruct (decide (j = i)) as [->|].
    + congruence.
    + eapply Hall; [|done|done]. lia.
Qed.

Lemma one_pass_spec os l :
  os_ok os l ->
  exists b os' l', one_pass run os = Ok (b, os') /\ os_ok os' (l' ++ l) /\
    (b = false -> os' = os /\ forall p t, tasks os !! p = Some t -> is_live t = false).
Proof.
  intros Hok. unfold one_pass. rewrite (os_head _ _ Hok), (os_size _ _ Hok), head_lookup.
  destruct (resume_pass_spec (length l) os l 0 false) as (b & os' & l' & -> & Hok' & Hb); [done|lia|].
  exists b, os', l'. split; [done|]. split; [done|]. intros ->. destruct (Hb eq_refl) as (_ & -> & Hall).
  split; [done|]. intros p t Hp. assert (p ∈ l) as [i Hi]%list_elem_of_lookup by (apply (os_dom _ _ Hok); by exists t).
  eapply Hall; [|done|done]. lia.
Qed.

Lemma vmill_resume_idle fuel os l os' :
  os_ok os l -> vmill_resume run fuel os = Ok os' ->
  exists l', os_ok os' (l' ++ l) /\ forall p t, tasks os' !! p = Some t -> is_live t = false.
Proof.
  revert os l. induction fuel as [|fuel IH]; intros os l Hok; cbn [vmill_resume]; [done|].
  destruct (one_pass_spec os l Hok) as (b & os1 & l1 & -> & Hok1 & Hb). cbn [mbind outcome_bind].
  destruct b.
  - intros Hr. destruct (IH os1 (l1 ++ l) Hok1 Hr) as (l2 & Hok2 & Hall).
    exists (l2 ++ l1). rewrite <- (assoc_L (++)). by split.
  - intros [= <-]. destruct (Hb eq_refl) as [-> Hall]. by exists l1.
Qed.

(** *** A blocked task *)

Context (q : ptr) (run_frame : forall os p os', run os p = Ok os' -> p <> q -> tasks os' !! q = tasks os !! q).

(** Scheduling another task leaves [q] alone. *)
Lemma schedule_frame os l p t os1 :
  os_ok os l -> tasks os !! p = Some t -> p <> q -> schedule run os p t = Ok os1 ->
  tasks os1 !! q = tasks os !! q /\ exists l1, os_ok os1 (l1 ++ l).
Proof.
  intros Hok Hp Hne Hs. destruct (schedule_ok os l p t Hok Hp) as (os1' & l1 & Hs' & Hok1).
  rewrite Hs in Hs'. injection Hs' as <-. split; [|by exists l1]. unfold schedule in Hs.
  destruct (blocked_count t =? 0); [by eapply run_frame|]. injection Hs as <-. cbn. by apply lookup_insert_ne.
Qed.

(** One step of a pass over a task other than [q]. *)
Lemma resume_pass_other fuel os l i p b b' os' :
  os_ok os l -> l !! i = Some p -> p <> q -> resume_pass run (S fuel) os (Some p) b = Ok (b', os') ->
  exists os1 l1 b1, os_ok os1 (l1 ++ l) /\ tasks os1 !! q = tasks os !! q /\
    resume_pass run fuel os1 ((l1 ++ l) !! (length l1 + S i)%nat) b1 = Ok (b', os').
Proof.
  intros Hok Ei Hne Hr. cbn [resume_pass] in Hr. destruct (os_ok_lookup _ _ _ _ Hok Ei) as [tp Hp].
  rewrite (get_task_Some _ _ _ Hp) in Hr. cbn [mbind outcome_bind] in Hr. destruct (is_live tp).
  - destruct (schedule run os p tp) as [os1| | |] eqn:Es; try done. cbn [mbind outcome_bind] in Hr.
    destruct (schedule_frame os l p tp os1) as [Hq [l1 Hok1]]; [done..|].
    assert (Ei1 : (l1 ++ l) !! (length l1 + i)%nat = Some p).
    { rewrite lookup_app_r by lia. by replace (length l1 + i - length l1)%nat with i by lia. }
    destruct (os_ok_lookup _ _ _ _ Hok1 Ei1) as [t1 Ht1]. rewrite (get_task_Some _ _ _ Ht1) in Hr.
    cbn [mbind outcome_bind] in Hr. rewrite (os_next _ _ Hok1 _ _ _ Ei1 Ht1) in Hr.
    exists os1, l1, true. rewrite Nat.add_succ_r. done.
  - cbn [mbind outcome_bind] in Hr. rewrite (get_task_Some _ _ _ Hp) in Hr. cbn [mbind outcome_bind] in Hr.
    rewrite (os_next _ _ Hok _ _ _ Ei Hp) in Hr. exists os, [], b. done.
Qed.

Lemma resume_pass_past fuel os l i k b b' os' :
  os_ok os l -> l !! k = Some q -> (k < i)%nat -> resume_pass run fuel os (l !! i) b = Ok (b', os') ->
  tasks os' !! q = tasks os !! q.
Proof.
  revert os l i k b. induction fuel as [|fuel IH]; intros os l i k b Hok Hk Hlt Hr.
  { destruct (l !! i); [done|]. by injection Hr as <- <-. }
  destruct (l !! i) as [p|] eqn:Ei; [|by injection Hr as <- <-].
  assert (p <> q) by (intros ->; assert (i = k) by (eapply NoDup_lookup; [apply Hok|done|done]); lia).
  destruct (resume_pass_other fuel os l i p b b' os') as (os1 & l1 & b1 & Hok1 & <- & Hr1); [done..|].
  eapply (IH os1 (l1 ++ l) (length l1 + S i)%nat (length l1 + k)%nat); [done| |lia|exact Hr1].
  rewrite lookup_app_r by lia. by replace (length l1 + k - length l1)%nat with k by lia.
Qed.

(** A pass that reaches a blocked task decrements its count. *)
Lemma resume_pass_blocked fuel os l i k b b' os' t :
  os_ok os l -> l !! k = Some q -> tasks os !! q = Some t -> is_live t = true -> 0 < blocked_count t -> (i <= k)%nat ->
  resume_pass run fuel os (l !! i) b = Ok (b', os') ->
  tasks os' !! q = Some (with_blocked t (blocked_count t - 1)).
Proof.
  revert os l i k b. induction fuel as [|fuel IH]; intros os l i k b Hok Hk Hq Hl Hb Hik Hr;
    pose proof (lookup_lt_Some _ _ _ Hk).
  { destruct (lookup_lt_is_Some_2 l i) as [p Hp]; [lia|]. by rewrite Hp in Hr. }
  destruct (lookup_lt_is_Some_2 l i) as [p Ei]; [lia|]. rewrite Ei in Hr. destruct (decide (p = q)) as [->|Hne].
  - assert (k = i) as -> by (eapply NoDup_lookup; [apply Hok|done|done]). cbn [resume_pass] in Hr.
    rewrite (get_task_Some _ _ _ Hq) in Hr. cbn [mbind outcome_bind] in Hr.
    rewrite Hl in Hr. unfold schedule in Hr. destruct (Z.eqb_spec (blocked_count t) 0); [lia|]. cbn [mbind outcome_bind] in Hr.
    set (os1 := put_task os q (with_blocked t (blocked_count t - 1))) in *.
    assert (Hok1 : os_ok os1 l) by (by eapply os_ok_put).
    assert (Hq1 : tasks os1 !! q = Some (with_blocked t (blocked_count t - 1))) by apply lookup_insert_eq.
    rewrite (get_task_Some _ _ _ Hq1) in Hr. cbn [mbind outcome_bind] in Hr.
    rewrite (os_next _ _ Hok1 _ _ _ Ei Hq1) in Hr. rewrite <- Hq1. eapply resume_pass_past; [done|done| |exact Hr]. lia.
  - destruct (resume_pass_other fuel os l i p b b' os') as (os1 & l1 & b1 & Hok1 & Hq1 & Hr1); [done..|].
    eapply (IH os1 (l1 ++ l) (length l1 + S i)%nat (length l1 + k)%nat); [done| |congruence|done|done| |exact Hr1].
    + rewrite lookup_app_r by lia. by replace (length l1 + k - length l1)%nat with k by lia.
    + assert (i <> k) by congruence. lia.
Qed.

(** The state after [n] passes of the outer loop. *)
Fixpoint passes (n : nat) os : outcome (OS St) :=
  match n with
  | O => Ok os
  | S n => '(_, os) ← one_pass run os; passes n os
  end.

Lemma passes_blocked n os l t :
  os_ok os l -> tasks os !! q = Some t -> is_live t = true -> Z.of_nat n <= blocked_count t ->
  exists os' l', passes n os = Ok os' /\ os_ok os' (l' ++ l) /\
    tasks os' !! q = Some (with_blocked t (blocked_count t - Z.of_nat n)).
Proof.
  revert os l t. induction n as [|n IH]; intros os l t Hok Hq Hl Hn; cbn [passes].
  { exists os, []. split; [done|]. split; [done|]. rewrite Hq. f_equal. destruct t. cbn. unfold with_blocked; cbn.
    f_equal. lia. }
  destruct (one_pass_spec os l Hok) as (b & os1 & l1 & Hp & Hok1 & _). rewrite Hp. cbn [mbind outcome_bind].
  assert (q ∈ l) as [k Hk]%list_elem_of_lookup by (apply (os_dom _ _ Hok); by exists t).
  unfold one_pass in Hp. rewrite (os_head _ _ Hok), head_lookup in Hp.
  pose proof (resume_pass_blocked _ os l 0 k false b os1 t Hok Hk Hq Hl ltac:(lia) ltac:(lia) Hp) as Hq1.
  destruct (IH os1 (l1 ++ l) _ Hok1 Hq1) as (os' & l' & -> & Hok' & Hq'); [done|cbn; lia|].
  exists os', (l' ++ l1). split; [done|]. rewrite <- (assoc_L (++)). split; [done|]. rewrite Hq'. f_equal.
  unfold with_blocked. cbn. f_equal. lia.
Qed.
End scheduling.

(** ** What the task list and the scheduler promise *)

(** C25: creating a task refines "put in front of a list": from a state in
    which both linked structures represent the list [l] it returns a fresh
    task, the structures represent the new task followed by [l] (the [next]
    chain, the closed ring, the last element, consecutive thread ids), the task is
    runnable at [pc] with the given registers and memory, and of the other
    tasks at most the ring pointer changes. *)
Theorem create_task_refines {St} (os : OS St) l s pc memory :
  os_ok os l ->
  exists p os', vmill_create_task os s pc memory = Ok (p, os') /\ os_ok os' (p :: l) /\ ~ p ∈ l /\
    (exists t, tasks os' !! p = Some t /\ base_task t = base_task (init_task s pc memory) /\ task_state t = s /\
       task_memory t = memory /\ tid t = gNextTid os /\ blocked_count t = 0 /\ futex_uaddr t = 0) /\
    (forall q t, tasks os !! q = Some t ->
       exists t', tasks os' !! q = Some t' /\ t' = with_circular t (next_circular t')).
Proof. apply vmill_create_task_spec. Qed.

Definition os0 : OS unit := vmill_init (MkOS ∅ None None 0 1%positive).

Lemma os0_ok : os_ok os0 [].
Proof. by apply vmill_init_ok. Qed.

Lemma create_task_refines_witness :
  exists p os', vmill_create_task os0 tt 64 1%positive = Ok (p, os') /\ os_ok os' [p].
Proof.
  destruct (create_task_refines os0 [] tt 64 1%positive os0_ok) as (p & os' & Heq & Hok & _). eauto.
Defined.

(** A system of three tasks, and a [run] that lets a task exit at once. *)
Definition three_tasks : outcome (OS unit) :=
  '(_, os) ← vmill_create_task os0 tt 64 1%positive;
  '(_, os) ← vmill_create_task os tt 128 1%positive;
  '(_, os) ← vmill_create_task os tt 192 1%positive;
  Ok os.
Definition os3 : OS unit := match three_tasks with Ok os => os | _ => os0 end.

Lemma os3_ok : os_ok os3 [3; 2; 1]%positive.
Proof.
  destruct (vmill_create_task_spec os0 [] tt 64 1%positive os0_ok) as (p1 & o1 & E1 & H1 & _).
  destruct (vmill_create_task_spec o1 [p1] tt 128 1%positive H1) as (p2 & o2 & E2 & H2 & _).
  destruct (vmill_create_task_spec o2 [p2; p1] tt 192 1%positive H2) as (p3 & o3 & E3 & H3 & _).
  assert (E : three_tasks = Ok o3) by (unfold three_tasks; rewrite E1; cbn [mbind outcome_bind]; rewrite E2;
    cbn [mbind outcome_bind]; rewrite E3; done).
  unfold os3. rewrite E. vm_compute in E1. injection E1 as <- <-. vm_compute in E2. injection E2 as <- <-.
  vm_compute in E3. injection E3 as <- <-. exact H3.
Qed.

Definition run_exit (os : OS unit) (p : ptr) : outcome (OS unit) :=
  update_task os p (fun t => with_base t (vmill_set_location (base_task t) 0 kTaskStoppedAtExit)).

Lemma run_exit_ok os l p :
  os_ok os l -> p ∈ l -> exists os' l', run_exit os p = Ok os' /\ os_ok os' (l' ++ l).
Proof.
  intros Hok [t Ht]%(os_dom _ _ Hok). unfold run_exit, update_task. rewrite (get_task_Some _ _ _ Ht).
  eexists _, []. split; [done|]. by eapply os_ok_put.
Qed.

Lemma run_exit_frame q os p os' : run_exit os p = Ok os' -> p <> q -> tasks os' !! q = tasks os !! q.
Proof.
  unfold run_exit, update_task, get_task. destruct (tasks os !! p); [|done]. intros [= <-] ?. by apply lookup_insert_ne.
Qed.

(** [__vmill_resume] returns only when nothing can run: in the state it
    leaves every task has stopped with an error or exited, whatever the tasks
    did, as long as running a task keeps the task list in shape; and one pass
    over the list always returns. *)
Theorem resume_stops_when_idle {St} (run : OS St -> ptr -> outcome (OS St)) fuel os l :
  (forall os l p, os_ok os l -> p ∈ l -> exists os' l', run os p = Ok os' /\ os_ok os' (l' ++ l)) ->
  os_ok os l ->
  (exists b os', one_pass run os = Ok (b, os')) /\
  (forall os', vmill_resume run fuel os = Ok os' ->
   forall p t, tasks os' !! p = Some t -> status (base_task t) = kTaskStatusError \/ status (base_task t) = kTaskStatusExited).
Proof.
  intros Hrun Hok. split.
  - destruct (one_pass_spec run Hrun os l Hok) as (b & os' & _ & ? & _). eauto.
  - intros os' Hr p t Hp. destruct (vmill_resume_idle run Hrun fuel os l os' Hok Hr) as (_ & _ & Hall).
    specialize (Hall p t Hp). unfold is_live in Hall. destruct (status (base_task t)); auto; done.
Qed.

Lemma resume_stops_when_idle_witness :
  exists os', vmill_resume run_exit 2 os3 = Ok os' /\
    forall p t, tasks os' !! p = Some t -> status (base_task t) = kTaskStatusError \/ status (base_task t) = kTaskStatusExited.
Proof.
  destruct (resume_stops_when_idle run_exit 2 os3 [3; 2; 1]%positive run_exit_ok os3_ok) as [_ H].
  eexists. split; [vm_compute; reflexivity|]. apply H. vm_compute. reflexivity.
Defined.

(** A blocked task gets its turn: if no running task touches it, a live
    task blocked for [n] rounds is unblocked, and otherwise unchanged, after
    exactly [n] passes of the scheduler, however many tasks are created in the
    meantime. *)
Theorem blocked_task_resumes {St} (run : OS St -> ptr -> outcome (OS St)) os l q t :
  (forall os l p, os_ok os l -> p ∈ l -> exists os' l', run os p = Ok os' /\ os_ok os' (l' ++ l)) ->
  (forall os p os', run os p = Ok os' -> p <> q -> tasks os' !! q = tasks os !! q) ->
  os_ok os l -> tasks os !! q = Some t -> is_live t = true -> 0 <= blocked_count t ->
  exists os', passes run (Z.to_nat (blocked_count t)) os = Ok os' /\ tasks os' !! q = Some (with_blocked t 0).
Proof.
  intros Hrun Hframe Hok Hq Hl Hn.
  destruct (passes_blocked run Hrun q Hframe (Z.to_nat (blocked_count t)) os l t) as (os' & _ & Hp & _ & Hq'); [done..|lia|].
  exists os'. split; [done|]. rewrite Hq'. do 2 f_equal. lia.
Qed.

Lemma blocked_task_resumes_witness :
  exists os t, update_task os3 2%positive (fun t => with_blocked t 7) = Ok os /\ tasks os !! 2%positive = Some t /\
    exists os', passes run_exit 7 os = Ok os' /\ tasks os' !! 2%positive = Some (with_blocked t 0).
Proof.
  destruct (os_ok_lookup os3 _ 1%nat 2%positive os3_ok) as [t Ht]; [reflexivity|].
  exists (put_task os3 2%positive (with_blocked t 7)), (with_blocked t 7). split; [|split].
  - unfold update_task. rewrite (get_task_Some _ _ _ Ht). reflexivity.
  - apply lookup_insert_eq.
  - apply (blocked_task_resumes run_exit _ [3; 2; 1]%positive 2%positive (with_blocked t 7) run_exit_ok (run_exit_frame 2%positive)).
    + eapply os_ok_put; [apply os3_ok|exact Ht|]. done.
    + apply lookup_insert_eq.
    + vm_compute in Ht. injection Ht as <-. reflexivity.
    + vm_compute. congruence.
Defined.
