(* ===== verification/SystemCalls.v ===== *)
(** * System calls: the calling conventions

    [vmill/Runtime/Generic/SystemCallABI.h] and the conventions of
    [vmill/Runtime/Linux/X86.cpp] and [AArch64.cpp]: reading arguments,
    setting the result and finding the return address.

    A handler is a function of the monad [sys], which threads what a system
    call can reach: guest memory, the task list, the flag of the ABI object,
    the path buffer and the host.  A handler that returns has the type [sys unit]; one
    that can also suspend the task ([__vmill_yield]) has the type
    [sys status]. *)

From S2P Require Import Prelude GuestMemory Tasks LinuxTasks.

Local Abbreviation ptr := positive.

(** ** Error numbers of the host *)
Definition EPERM : Z := 1.
Definition ESRCH : Z := 3.
Definition EBADF : Z := 9.
Definition EAGAIN : Z := 11.
Definition ENOMEM : Z := 12.
Definition EACCES : Z := 13.
Definition EFAULT : Z := 14.
Definition EINVAL : Z := 22.
Definition ENAMETOOLONG : Z := 36.
Definition ENOSYS : Z := 38.
Definition EOVERFLOW : Z := 75.
Definition EBADFD : Z := 77.
Definition ETIMEDOUT : Z := 110.

(** ** The state of a system call *)

(** [M]: guest memory; [St]: the register state of the architecture; [H]: the
    host.  [current] is [__vmill_current()]. *)
Record World (M St H : Type) := MkWorld {
  memory : M;
  os : OS St;
  current : ptr;
  completed : bool;
  gPath : gmap Z Z;
  host : H
}.
Arguments MkWorld {_ _ _}.
Arguments memory {_ _ _}.
Arguments os {_ _ _}.
Arguments current {_ _ _}.
Arguments completed {_ _ _}.
Arguments gPath {_ _ _}.
Arguments host {_ _ _}.

Definition sys (M St H A : Type) : Type := World M St H -> outcome (A * World M St H).

#[global] Instance sys_ret {M St H} : MRet (sys M St H) := fun A a w => Ok (a, w).
#[global] Instance sys_bind {M St H} : MBind (sys M St H) := fun A B f m w =>
  match m w with
  | Ok (a, w') => f a w'
  | Fatal => Fatal
  | Undefined => Undefined
  | Diverges => Diverges
  end.

(** How a handler comes back: it returns to lifted code, or it has paused
    the task inside of the system call. *)
Inductive status := Returned | Yielded.

Section primitives.
Context {M St H : Type}.
Local Abbreviation world := (World M St H).
Local Abbreviation sys := (SystemCalls.sys M St H).

Definition with_memory (w : world) (m : M) : world := MkWorld m (os w) (current w) (completed w) (gPath w) (host w).
Definition with_os (w : world) (o : OS St) : world := MkWorld (memory w) o (current w) (completed w) (gPath w) (host w).
Definition with_completed (w : world) (b : bool) : world := MkWorld (memory w) (os w) (current w) b (gPath w) (host w).
Definition with_path (w : world) (p : gmap Z Z) : world := MkWorld (memory w) (os w) (current w) (completed w) p (host w).
Definition with_host (w : world) (h : H) : world := MkWorld (memory w) (os w) (current w) (completed w) (gPath w) h.

(** Running memory functions inside a system call. *)
Definition on_memory {A} (f : M -> outcome (A * M)) : sys A := fun w =>
  '(a, m) ← f (memory w); Ok (a, with_memory w m).
Definition ask_memory {A} (f : M -> outcome A) : sys A := fun w => a ← f (memory w); Ok (a, w).
Definition change_memory (f : M -> outcome M) : sys unit := fun w => m ← f (memory w); Ok (tt, with_memory w m).

(** Running functions of the host. *)
Definition on_host {A} (f : H -> A * H) : sys A := fun w =>
  let '(a, h) := f (host w) in Ok (a, with_host w h).

Definition stop {A} (o : outcome A) : sys A := fun w => a ← o; Ok (a, w).

(** Task objects. *)
Definition vmill_current : sys ptr := fun w => Ok (current w, w).
Definition read_task (p : ptr) : sys (linux_task St) := fun w => t ← get_task (os w) p; Ok (t, w).
Definition modify_task (p : ptr) (f : linux_task St -> linux_task St) : sys unit := fun w =>
  o ← update_task (os w) p f; Ok (tt, with_os w o).

(** [*state]: the registers of a task. *)
Definition read_state (state : ptr) : sys St := t ← read_task state; mret (task_state t).
Definition modify_state (state : ptr) (f : St -> St) : sys unit :=
  modify_task state (fun t => with_state t (f (task_state t))).

(** [__vmill_set_location], on the current task. *)
Definition set_location (pc : Z) (loc : TaskStopLocation) : sys unit :=
  task ← vmill_current;
  modify_task task (fun t => with_base t (vmill_set_location (base_task t) pc loc)).

(** [__vmill_yield]: the coroutine of the task is paused. *)
Definition vmill_yield (task : ptr) : sys unit :=
  modify_task task (fun t => with_base t (Pause (base_task t))).
End primitives.

(** ** [SystemCallABI] *)

Record SystemCallABI (M St : Type) := MkABI {
  GetPC : St -> Z;
  SetPC : St -> Z -> St;
  SetSP : St -> Z -> St;
  GetSystemCallNum : St -> Z;
  GetReturnAddress : M -> St -> Z -> outcome (Z * M);
  DoSetReturn : St -> Z -> St;
  CanReadArgs : M -> St -> Z -> outcome bool;
  GetArg : M -> St -> Z -> outcome (Z * M)
}.
Arguments MkABI {_ _}.
Arguments GetPC {_ _}.
Arguments SetPC {_ _}.
Arguments SetSP {_ _}.
Arguments GetSystemCallNum {_ _}.
Arguments GetReturnAddress {_ _}.
Arguments DoSetReturn {_ _}.
Arguments CanReadArgs {_ _}.
Arguments GetArg {_ _}.

Section abi.
Context {M St H : Type} `{MemoryOps M} (syscall : SystemCallABI M St).
Local Abbreviation sys := (SystemCalls.sys M St H).

(** [GetArg<T, i>] for [i] from [k] up to [n]; the conversion to [T] is
    where the argument is used. *)
Fixpoint get_args (state : ptr) (n : nat) (k : Z) : sys (list Z) :=
  match n with
  | O => mret []
  | S n =>
      s ← read_state state;
      a ← on_memory (fun m => GetArg syscall m s k);
      rest ← get_args state n (k + 1);
      mret (a :: rest)
  end.

(** The number of arguments that the overload of [TryGetArgs] for [n]
    arguments asks [CanReadArgs] for. *)
Definition checked_args (n : nat) : Z := match n with 1%nat => 1 | _ => 2 end.

(** [TryGetArgs] with [n] arguments, [1 <= n <= 6]. *)
Definition TryGetArgs (state : ptr) (n : nat) : sys (option (list Z)) :=
  s ← read_state state;
  ok ← ask_memory (fun m => CanReadArgs syscall m s (checked_args n));
  if (ok : bool) then args ← get_args state n 0; mret (Some args) else mret None.

(** [SetReturn]: the value is sign-extended to [long] and cut to [addr_t]. *)
Definition SetReturn (state : ptr) (val : Z) : sys unit := fun w =>
  modify_state state (fun s => DoSetReturn syscall s (addr_wrap val)) (with_completed w true).

(** [return syscall.SetReturn(...)] of a handler that may also suspend. *)
Definition Return (state : ptr) (val : Z) : sys status := SetReturn state val;; mret Returned.
End abi.

(** Arguments of the C types the handlers use. *)
Definition as_int (z : Z) : Z := to_signed 32 (wrap32 z).
Definition as_uint32 (z : Z) : Z := wrap32 z.
Definition as_int64 (z : Z) : Z := to_signed 64 (wrap64 z).

(** ** Running handlers *)

Section steps.
Context {M St H : Type}.
Local Abbreviation world := (World M St H).
Implicit Types (w : world) (p : ptr) (t : linux_task St).

Lemma sys_bind_Ok {A B} (m : sys M St H A) (f : A -> sys M St H B) w a w' :
  m w = Ok (a, w') -> (m ≫= f) w = f a w'.
Proof. unfold mbind, sys_bind. by intros ->. Qed.

Lemma put_task_put (o : OS St) p t1 t2 : put_task (put_task o p t1) p t2 = put_task o p t2.
Proof. unfold put_task. cbn. by rewrite insert_insert_eq. Qed.

(** [w] with the object of task [p] replaced. *)
Definition world_task w p t : world := with_os w (put_task (os w) p t).

Lemma world_task_twice w p t1 t2 : world_task (world_task w p t1) p t2 = world_task w p t2.
Proof. unfold world_task, with_os. cbn. by rewrite put_task_put. Qed.

Lemma world_task_completed w p t1 t2 b :
  world_task (with_completed (world_task w p t1) b) p t2 = world_task (with_completed w b) p t2.
Proof. unfold world_task, with_os, with_completed. cbn. by rewrite put_task_put. Qed.

Lemma world_task_lookup w p t : tasks (os (world_task w p t)) !! p = Some t.
Proof. apply lookup_insert_eq. Qed.

Lemma modify_task_step w p t f : tasks (os w) !! p = Some t -> modify_task p f w = Ok (tt, world_task w p (f t)).
Proof. intros Ht. unfold modify_task, update_task. by rewrite (get_task_Some _ _ _ Ht). Qed.

Lemma read_task_step w p t : tasks (os w) !! p = Some t -> read_task p w = Ok (t, w).
Proof. intros Ht. unfold read_task. by rewrite (get_task_Some _ _ _ Ht). Qed.

Lemma read_state_step w p t : tasks (os w) !! p = Some t -> read_state p w = Ok (task_state t, w).
Proof. intros Ht. unfold read_state. by rewrite (sys_bind_Ok _ _ _ _ _ (read_task_step w p t Ht)). Qed.

Lemma on_memory_step {A} (f : M -> outcome (A * M)) w a m : f (memory w) = Ok (a, m) -> on_memory f w = Ok (a, with_memory w m).
Proof. unfold on_memory. by intros ->. Qed.

Lemma ask_memory_step {A} (f : M -> outcome A) w a : f (memory w) = Ok a -> ask_memory f w = Ok (a, w).
Proof. unfold ask_memory. by intros ->. Qed.

Lemma current_step w : vmill_current w = Ok (current w, w).
Proof. done. Qed.

Context `{MO : MemoryOps M} (syscall : SystemCallABI M St).

(** What returning [val] from a system call does to the task. *)
Definition returned (t : linux_task St) (val : Z) : linux_task St :=
  with_state t (DoSetReturn syscall (task_state t) (addr_wrap val)).

Lemma Return_step w p t val :
  tasks (os w) !! p = Some t ->
  Return syscall p val w = Ok (Returned, world_task (with_completed w true) p (returned t val)).
Proof.
  intros Ht. unfold Return, SetReturn, modify_state. unfold mbind at 1, sys_bind at 1.
  rewrite (modify_task_step (with_completed w true) p t) by done. done.
Qed.
End steps.

(** Runs the first operation of a handler. *)
Ltac sys_step H := rewrite (sys_bind_Ok _ _ _ _ _ H); cbn beta iota.
