(* ===== verification/ArchAbi.v ===== *)
(** * The calling conventions of x86, AMD64 and AArch64

    [vmill/Runtime/Linux/X86.cpp] and [vmill/Runtime/Linux/AArch64.cpp]: the
    three x86 system call conventions, the AArch64 one, the dispatch of
    asynchronous hypercalls and the segment part of the synchronous ones.

    The register states are those members of remill's [State] that the
    runtime touches.  A register holds its [aword], the part of the width of
    [addr_t]. *)

From S2P Require Import Prelude Pages GuestMemory Tasks LinuxTasks SystemCalls.

Local Abbreviation ptr := positive.

Inductive X86Reg := RAX | RBX | RCX | RDX | RSI | RDI | RBP | RSP | RIP | R8 | R9 | R10.
#[global] Instance X86Reg_eq_dec : EqDecision X86Reg.
Proof. solve_decision. Defined.

Inductive Seg := SS | ES | GS | FS | DS | CS.
#[global] Instance Seg_eq_dec : EqDecision Seg.
Proof. solve_decision. Defined.

Inductive AsyncHyperCall := kX86SysEnter | kX86IntN | kX86SysCall | kAArch64SupervisorCall | kOtherHyperCall.

(** [gpr], [seg.*.index], [addr.*_base], [hyper_call] and
    [hyper_call_vector]. *)
Record X86State := MkX86 {
  gpr : X86Reg -> Z;
  seg_index : Seg -> Z;
  seg_base : Seg -> Z;
  hyper_call : AsyncHyperCall;
  hyper_call_vector : Z
}.

Definition set_reg (s : X86State) (r : X86Reg) (v : Z) : X86State :=
  MkX86 (fun r' => if decide (r' = r) then v else gpr s r') (seg_index s) (seg_base s) (hyper_call s) (hyper_call_vector s).

Definition set_base (s : X86State) (g : Seg) (v : Z) : X86State :=
  MkX86 (gpr s) (seg_index s) (fun g' => if decide (g' = g) then v else seg_base s g') (hyper_call s) (hyper_call_vector s).

(** Assigning the [dword] of a base: its upper half, if any, stays. *)
Definition set_base_dword (s : X86State) (g : Seg) (v : Z) : X86State :=
  set_base s g (seg_base s g - wrap32 (seg_base s g) + wrap32 v).

Section x86.
Context {M : Type} `{MO : MemoryOps M}.

(** The registers of the first arguments, and a default. *)
Definition reg_arg (rs : list X86Reg) (m : M) (s : X86State) (i : Z) : outcome (Z * M) :=
  Ok (match rs !! Z.to_nat i with Some r => gpr s r | None => 0 end, m).

Definition X86Int0x80SystemCall : SystemCallABI M X86State := {|
  GetPC s := gpr s RIP;
  SetPC s v := set_reg s RIP v;
  SetSP s v := set_reg s RSP v;
  GetSystemCallNum s := gpr s RAX;
  GetReturnAddress m _ ret_addr := Ok (ret_addr, m);
  DoSetReturn s v := set_reg s RAX v;
  CanReadArgs _ _ num_args := Ok (num_args <=? 6);
  GetArg := reg_arg [RBX; RCX; RDX; RSI; RDI; RBP]
|}.

Definition Amd64SyscallSystemCall : SystemCallABI M X86State := {|
  GetPC s := gpr s RIP;
  SetPC s v := set_reg s RIP v;
  SetSP s v := set_reg s RSP v;
  GetSystemCallNum s := gpr s RAX;
  GetReturnAddress m _ ret_addr := Ok (ret_addr, m);
  DoSetReturn s v := set_reg s RAX v;
  CanReadArgs _ _ num_args := Ok (num_args <=? 6);
  GetArg := reg_arg [RDI; RSI; RDX; R10; R8; R9]
|}.

(** The loop of [X86SysEnter32SystemCall::GetReturnAddress], with [n]
    iterations left from offset [i]: it skips [NOP]s, unreadable bytes and an
    [int N] instruction. *)
Fixpoint sysenter_scan (n : nat) (m : M) (addr i : Z) : outcome (Z * M) :=
  match n with
  | O => Ok (addr, m)
  | S n =>
      '(b0, m) ← TryReadMemory m (addr_wrap (addr + i)) 1;
      match b0 with
      | Some [b0] =>
          if b0 =? 144 then sysenter_scan n m addr (i + 1)
          else if b0 =? 205 then Ok (addr_wrap (addr + i + 2), m)
          else Ok (addr_wrap (addr + i), m)
      | _ => sysenter_scan n m addr (i + 1)
      end
  end.

Definition sysenter_GetReturnAddress (m : M) (_ : X86State) (ret_addr : Z) : outcome (Z * M) :=
  sysenter_scan 15 m ret_addr 0.

(** The sixth argument is on the user stack. *)
Definition sysenter_CanReadArgs (m : M) (s : X86State) (num_args : Z) : outcome bool :=
  if num_args =? 6 then CanReadMemory m (gpr s RBP) (addr_bits / 8) else Ok (num_args <? 6).

Definition sysenter_GetArg (m : M) (s : X86State) (i : Z) : outcome (Z * M) :=
  if i =? 5 then '(bs, m) ← ReadMemory m (gpr s RBP) (Z.to_nat (addr_bits / 8)); Ok (le_value bs, m)
  else reg_arg [RBX; RCX; RDX; RSI; RDI] m s i.

Definition X86SysEnter32SystemCall : SystemCallABI M X86State := {|
  GetPC s := gpr s RIP;
  SetPC s v := set_reg s RIP v;
  SetSP s v := set_reg s RSP v;
  GetSystemCallNum s := gpr s RAX;
  GetReturnAddress := sysenter_GetReturnAddress;
  DoSetReturn s v := set_reg s RAX v;
  CanReadArgs := sysenter_CanReadArgs;
  GetArg := sysenter_GetArg
|}.

(** ** Asynchronous hypercalls *)

Context {H : Type}.
Local Abbreviation sys := (SystemCalls.sys M X86State H).
Context (X86SystemCall : SystemCallABI M X86State -> ptr -> sys status).
Context (AMD64SystemCall : SystemCallABI M X86State -> ptr -> sys status).

(** What follows a system call: when it completed, the task goes on at its
    return address. [resume] are the further register updates. *)
Definition after_system_call (syscall : SystemCallABI M X86State) (state : ptr) (ret_addr : Z)
    (resume : X86State -> Z -> X86State) : sys unit := fun w =>
  if completed w then
    (s ← read_state state;
     ret_addr ← on_memory (fun m => GetReturnAddress syscall m s ret_addr);
     modify_state state (fun s => resume (set_reg s RIP ret_addr) ret_addr);;
     set_location ret_addr kTaskStoppedAfterHyperCall) w
  else Ok (tt, w).

Definition run_system_call (syscall : SystemCallABI M X86State) (state : ptr) (ret_addr : Z)
    (call : SystemCallABI M X86State -> ptr -> sys status) (resume : X86State -> Z -> X86State) : sys status := fun w =>
  (r ← call syscall state;
   match r with
   | Yielded => mret Yielded
   | Returned => after_system_call syscall state ret_addr resume;; mret Returned
   end) (with_completed w false).

(** [__remill_async_hyper_call]; a system call that suspends comes back to
    the point after the call when it is resumed. *)
Definition remill_async_hyper_call (state : ptr) (ret_addr : Z) : sys status :=
  s ← read_state state;
  let unhandled : sys status := set_location ret_addr kTaskStoppedBeforeUnhandledHyperCall;; mret Returned in
  if addr_bits =? 32 then
    match hyper_call s with
    | kX86SysEnter =>
        let user_stack := gpr s RSP in
        run_system_call X86SysEnter32SystemCall state ret_addr X86SystemCall (fun s _ => set_reg s RSP user_stack)
    | kX86IntN =>
        if hyper_call_vector s =? 128
        then run_system_call X86Int0x80SystemCall state ret_addr X86SystemCall (fun s _ => s)
        else mret Returned
    | _ => unhandled
    end
  else
    match hyper_call s with
    | kX86SysCall =>
        run_system_call Amd64SyscallSystemCall state ret_addr AMD64SystemCall (fun s ret_addr => set_reg s RCX ret_addr)
    | _ => unhandled
    end.

(** ** Synchronous hypercalls *)

(** [kX86SetSegmentGS] and [kX86SetSegmentFS]: the base comes from the TLS
    slot of the current task when the selector is one of the TLS entries. *)
Definition set_segment_base (state : ptr) (g : Seg) : sys unit :=
  task ← vmill_current;
  t ← read_task task;
  s ← read_state state;
  let index := seg_index s g in
  if (kLinuxMinIndexForTLSInGDT <=? index) && (index <=? kLinuxMaxIndexForTLSInGDT) then
    d ← stop (deref_opt (tls_slots t !! Z.to_nat (index - kLinuxMinIndexForTLSInGDT)));
    modify_state state (fun s => set_base_dword s g (base_addr d))
  else mret tt.

(** [kX86CPUID] reports nothing. *)
Definition hyper_call_cpuid (state : ptr) : sys unit :=
  modify_state state (fun s => set_reg (set_reg (set_reg (set_reg s RAX 0) RBX 0) RCX 0) RDX 0).

(** [kX86EmulateInstruction]: the task stops; the call does not return. *)
Definition hyper_call_emulate_instruction (state : ptr) : sys unit :=
  task ← vmill_current;
  s ← read_state state;
  set_location (gpr s RIP) kTaskStoppedAtUnsupportedInstruction;;
  vmill_yield task.
End x86.

(** ** AArch64 *)

Record AArch64State := MkAArch64 {
  xreg : nat -> Z;
  pc_reg : Z;
  sp_reg : Z;
  tpidr_el0 : Z;
  a64_hyper_call : AsyncHyperCall
}.

Definition set_xreg (s : AArch64State) (i : nat) (v : Z) : AArch64State :=
  MkAArch64 (fun j => if decide (j = i) then v else xreg s j) (pc_reg s) (sp_reg s) (tpidr_el0 s) (a64_hyper_call s).

Definition AArch64SupervisorCall {M} : SystemCallABI M AArch64State := {|
  GetPC s := pc_reg s;
  SetPC s v := MkAArch64 (xreg s) v (sp_reg s) (tpidr_el0 s) (a64_hyper_call s);
  SetSP s v := MkAArch64 (xreg s) (pc_reg s) v (tpidr_el0 s) (a64_hyper_call s);
  GetSystemCallNum s := xreg s 8%nat;
  GetReturnAddress m _ ret_addr := Ok (ret_addr, m);
  DoSetReturn s v := set_xreg s 0 v;
  CanReadArgs _ _ num_args := Ok (num_args <=? 6);
  GetArg m s i := Ok (if (0 <=? i) && (i <=? 5) then xreg s (Z.to_nat i) else 0, m)
|}.

Section aarch64.
Context {M H : Type} `{MemoryOps M}.
Local Abbreviation sys := (SystemCalls.sys M AArch64State H).
Context (AArch64SystemCall : SystemCallABI M AArch64State -> ptr -> sys status).

Definition a64_after_system_call (state : ptr) (ret_addr : Z) : sys unit := fun w =>
  if completed w then
    (s ← read_state state;
     ret_addr ← on_memory (fun m => GetReturnAddress (AArch64SupervisorCall (M := M)) m s ret_addr);
     modify_state state (fun s => SetPC (AArch64SupervisorCall (M := M)) s ret_addr);;
     set_location ret_addr kTaskStoppedAfterHyperCall) w
  else Ok (tt, w).

(** [__remill_async_hyper_call] of AArch64. *)
Definition a64_async_hyper_call (state : ptr) (ret_addr : Z) : sys status := fun w =>
  (s ← read_state state;
   match a64_hyper_call s with
   | kAArch64SupervisorCall =>
       r ← AArch64SystemCall AArch64SupervisorCall state;
       match r with
       | Yielded => mret Yielded : sys status
       | Returned => a64_after_system_call state ret_addr;; mret Returned
       end
   | _ => set_location ret_addr kTaskStoppedBeforeUnhandledHyperCall;; mret Returned
   end : sys status) (with_completed w false).
End aarch64.
