(* ===== verification/Futex.v ===== *)
(** * Futexes

    [vmill/Runtime/Linux/Futex.cpp].  A waiting task sits inside of
    [DoFutexWaitBitSet]; every time the scheduler resumes it, it goes round
    the loop of that function once, which is [futex_wait_round] here. *)

From S2P Require Import Prelude GuestMemory Tasks LinuxTasks SystemCalls.

Local Abbreviation ptr := positive.

Inductive FutexCommand :=
| kFutexWait
| kFutexWake
| kFutedFd
| kFutexRequeue
| kFutexCompareAndRequeue
| kFutexWakeOp
| kFutexLockWithPriorityInheritance
| kFutexUnlockWithPriorityInheritance
| kFutexTryLockWithPriorityInheritance
| kFutexWaitBitset
| kFutexWakeBitset
| kFutexWaitRequeueWithPriorityInheritance
| kFutexCompareAndRequeueWithPriorityInheritance
| kFutexInvalidCommand.

Definition futex_commands : list FutexCommand :=
  [kFutexWait; kFutexWake; kFutedFd; kFutexRequeue; kFutexCompareAndRequeue; kFutexWakeOp;
   kFutexLockWithPriorityInheritance; kFutexUnlockWithPriorityInheritance; kFutexTryLockWithPriorityInheritance;
   kFutexWaitBitset; kFutexWakeBitset; kFutexWaitRequeueWithPriorityInheritance;
   kFutexCompareAndRequeueWithPriorityInheritance].

Definition FutexOpToCommand (op : Z) : FutexCommand :=
  if op <? 0 then kFutexInvalidCommand
  else
    let op := Z.land op 127 in
    match futex_commands !! Z.to_nat op with Some c => c | None => kFutexInvalidCommand end.

(** [FutexCommandName] *)
Definition FutexCommandName (op : FutexCommand) : string :=
  match op with
  | kFutexWait => "FUTEX_WAIT"
  | kFutexWake => "FUTEX_WAKE"
  | kFutedFd => "FUTEX_FD"
  | kFutexRequeue => "FUTEX_REQUEUE"
  | kFutexCompareAndRequeue => "FUTEX_CMP_REQUEUE"
  | kFutexWakeOp => "FUTEX_WAKE_OP"
  | kFutexLockWithPriorityInheritance => "FUTEX_LOCK_PI"
  | kFutexUnlockWithPriorityInheritance => "FUTEX_UNLOCK_PI"
  | kFutexTryLockWithPriorityInheritance => "FUTEX_TRYLOCK_PI"
  | kFutexWaitBitset => "FUTEX_WAIT_BITSET"
  | kFutexWakeBitset => "FUTEX_WAKE_BITSET"
  | kFutexWaitRequeueWithPriorityInheritance => "FUTEX_WAIT_REQUEUE_PI"
  | kFutexCompareAndRequeueWithPriorityInheritance => "FUTEX_CMP_REQUEUE_PI"
  | kFutexInvalidCommand => "<invalid>"
  end.

(** Commands have different names, so a trace tells them apart. *)
Lemma FutexCommandName_inj c d : FutexCommandName c = FutexCommandName d -> c = d.
Proof. by destruct c, d. Qed.

(** ** [DoWake] *)

Section wake.
Context {St : Type}.
Implicit Types (o : OS St) (t : linux_task St).

(** A task that [DoWake] unblocks. *)
Definition waits_on (task : linux_task St) (uaddr bitset : Z) t : bool :=
  bool_decide (task_memory task = task_memory t) && (futex_uaddr t =? uaddr) && (0 <? blocked_count t) &&
  negb (Z.land (futex_bitset t) bitset =? 0).

(** The loop over the ring, from [next_task]. *)
Fixpoint wake_loop (fuel : nat) o (task : ptr) (next_task : option ptr) (uaddr bitset num_to_wake num_woken : Z) :
    outcome (Z * OS St) :=
  if bool_decide (next_task = Some task) then Ok (num_woken, o)
  else
    match fuel with
    | O => Diverges
    | S fuel =>
        p ← deref_opt next_task;
        t ← get_task o p;
        self ← get_task o task;
        if waits_on self uaddr bitset t then
          let o := put_task o p (with_blocked t 0) in
          let num_woken := num_woken + 1 in
          if num_to_wake <=? num_woken then Ok (num_woken, o)
          else wake_loop fuel o task (next_circular t) uaddr bitset num_to_wake num_woken
        else wake_loop fuel o task (next_circular t) uaddr bitset num_to_wake num_woken
    end.

Definition DoWake o (task : ptr) (uaddr bitset num_to_wake : Z) : outcome (Z * OS St) :=
  self ← get_task o task;
  wake_loop (size (tasks o)) o task (next_circular self) uaddr bitset num_to_wake 0.
End wake.

(** ** The handlers *)

(** [FutexOp]: the bit-fields of a word. *)
Record FutexOp := MkFutexOp { cmparg : Z; oparg : Z; cmp : Z; op : Z }.

Definition FutexOp_of (flat : Z) : FutexOp :=
  MkFutexOp (to_signed 12 flat) (to_signed 12 (Z.shiftr flat 12)) (Z.shiftr flat 24 mod 16) (Z.shiftr flat 28 mod 16).

Definition kFutexShiftOpArg : Z := 8.
Definition kFutexOperatorXor : Z := 4.
Definition kFutexCompareGreaterThanEqual : Z := 5.

(** Signed 32-bit addition; overflow is undefined. *)
Definition add_int (a b : Z) : outcome Z :=
  if (- 2 ^ 31 <=? a + b) && (a + b <? 2 ^ 31) then Ok (a + b) else Undefined.

(** [FutexOperator]: the new value. *)
Definition futex_operate (o old_val arg : Z) : outcome Z :=
  if o =? 0 then Ok arg
  else if o =? 1 then add_int old_val arg
  else if o =? 2 then Ok (Z.lor old_val arg)
  else if o =? 3 then Ok (Z.land old_val (Z.lnot arg))
  else Ok (Z.lxor old_val arg).

(** [FutexComparator] *)
Definition futex_compare (c old_val arg : Z) : bool :=
  if c =? 0 then old_val =? arg
  else if c =? 1 then negb (old_val =? arg)
  else if c =? 2 then old_val <? arg
  else if c =? 3 then old_val <=? arg
  else if c =? 4 then arg <? old_val
  else arg <=? old_val.

Section futex.
Context {M St H : Type} `{MemoryOps M} (syscall : SystemCallABI M St).
Local Abbreviation sys := (SystemCalls.sys M St H).

Definition do_wake (task : ptr) (uaddr bitset num_to_wake : Z) : sys Z := fun w =>
  '(n, o) ← DoWake (os w) task uaddr bitset num_to_wake; Ok (n, with_os w o).

(** The loop body of [DoFutexWaitBitSet] once the futex word has been read. *)
Definition futex_wait_value (state task : ptr) (uaddr val : Z) (timeout : bool) (bitset uval : Z) : sys status :=
  if uval =? val then
    t ← read_task task;
    if negb (futex_uaddr t =? 0) && (blocked_count t =? 0) then
      stop (check (futex_uaddr t =? uaddr));;
      modify_task task (fun t => with_futex t 0 0);;
      Return syscall state 0
    else
      let blocked :=
        if negb (blocked_count t =? 0) then blocked_count t - 1
        else if timeout then kFutexBlockedForABit else kBlockedForever in
      modify_task task (fun t => with_blocked t blocked);;
      if blocked =? 0 then
        modify_task task (fun t => with_futex t 0 0);;
        Return syscall state (- ETIMEDOUT)
      else
        modify_task task (fun t => with_futex t bitset uaddr);;
        vmill_yield task;;
        mret Yielded
  else
    modify_task task (fun t => with_blocked (with_futex t (futex_bitset t) 0) 0);;
    Return syscall state (- EAGAIN).

(** One round of the loop of [DoFutexWaitBitSet]. *)
Definition futex_wait_round (state : ptr) (uaddr val : Z) (timeout : bool) (bitset : Z) : sys status :=
  task ← vmill_current;
  uval ← on_memory (fun m => TryReadMemory m uaddr 4);
  can_write ← (match uval with
               | Some _ => ask_memory (fun m => CanWriteMemory m uaddr 4)
               | None => mret false
               end : sys bool);
  match uval, can_write with
  | Some uval, true => futex_wait_value state task uaddr val timeout bitset (le_value uval)
  | _, _ => Return syscall state (- EFAULT)
  end.

(** Up to the first return or yield. *)
Definition DoFutexWaitBitSet (state : ptr) (uaddr val : Z) (timeout : bool) (bitset : Z) : sys status :=
  if negb (uaddr mod 4 =? 0) then Return syscall state (- EINVAL)
  else if bitset =? 0 then Return syscall state (- EINVAL)
  else futex_wait_round state uaddr val timeout bitset.

Definition DoFutexWakeBitSet (state : ptr) (uaddr num_to_wake bitset : Z) : sys status :=
  task ← vmill_current;
  modify_task task (fun t => with_blocked t 0);;
  if negb (uaddr mod 4 =? 0) then Return syscall state (- EINVAL)
  else if bitset =? 0 then Return syscall state (- EINVAL)
  else
    can_read ← ask_memory (fun m => CanReadMemory m uaddr 4);
    can_write ← (if (can_read : bool) then ask_memory (fun m => CanWriteMemory m uaddr 4) else mret false : sys bool);
    if (can_write : bool) then
      num_woken ← do_wake task uaddr bitset num_to_wake;
      Return syscall state num_woken
    else Return syscall state (- EFAULT).

(** The argument of the operator, shifted if the operation says so: [None]
    when it is out of bounds; shifting by a negative count is undefined. *)
Definition shifted_oparg (f : FutexOp) : outcome (option (Z * Z)) :=
  if Z.land (op f) kFutexShiftOpArg =? 0 then Ok (Some (op f, oparg f))
  else if (0 <? oparg f) || (31 <? oparg f) then Ok None
  else if oparg f <? 0 then Undefined
  else Ok (Some (Z.lxor (op f) kFutexShiftOpArg, Z.shiftl 1 (oparg f))).

Definition DoFutexWakeOp (state : ptr) (uaddr1 uaddr2 num_to_wake1 num_to_wake2 op_ : Z) : sys status :=
  let f := FutexOp_of op_ in
  arg ← stop (shifted_oparg f);
  match arg with
  | None => Return syscall state (- EINVAL)
  | Some (op, oparg) =>
      if kFutexOperatorXor <? op then Return syscall state (- ENOSYS)
      else if kFutexCompareGreaterThanEqual <? cmp f then Return syscall state (- ENOSYS)
      else
        old ← on_memory (fun m => TryReadMemory m uaddr2 4);
        match old with
        | None => Return syscall state (- EFAULT)
        | Some old =>
            let old_val := to_signed 32 (le_value old) in
            can_write ← ask_memory (fun m => CanWriteMemory m uaddr2 4);
            if negb can_write then Return syscall state (- EFAULT)
            else
              new_val ← stop (futex_operate op old_val oparg);
              _ ← on_memory (fun m => TryWriteMemory m uaddr2 (le_bytes 4 new_val));
              task ← vmill_current;
              num_woken1 ← do_wake task uaddr1 (two32 - 1) num_to_wake1;
              num_woken2 ← (if futex_compare (cmp f) old_val (cmparg f)
                            then do_wake task uaddr2 (two32 - 1) num_to_wake2 else mret 0 : sys Z);
              Return syscall state (wrap32 (num_woken1 + num_woken2))
        end
  end.

(** [TimeSpecT]: two unsigned members of [tsz] bytes; the result is a host
    [timespec]. *)
Definition timespec_of (tsz : nat) (bs : list Z) : Z * Z :=
  (as_int64 (le_value (take tsz bs)), as_int64 (le_value (drop tsz bs))).

(** Commands that take a timeout, and commands that take [val2] in its
    place. *)
Definition takes_timeout (c : FutexCommand) : bool :=
  match c with
  | kFutexWait | kFutexLockWithPriorityInheritance | kFutexWaitBitset | kFutexWaitRequeueWithPriorityInheritance => true
  | _ => false
  end.
Definition takes_val2 (c : FutexCommand) : bool :=
  match c with
  | kFutexRequeue | kFutexCompareAndRequeue | kFutexCompareAndRequeueWithPriorityInheritance | kFutexWakeOp => true
  | _ => false
  end.

(** The final [switch] of [SysFutex]; the address of the local [timeout] is
    never null. *)
Definition futex_command (state : ptr) (cmd : FutexCommand) (uaddr val val2 uaddr2 val3 : Z) : sys status :=
  match cmd with
  | kFutexWait => DoFutexWaitBitSet state uaddr val true (two32 - 1)
  | kFutexWaitBitset => DoFutexWaitBitSet state uaddr val true val3
  | kFutexWake => DoFutexWakeBitSet state uaddr val (two32 - 1)
  | kFutexWakeBitset => DoFutexWakeBitSet state uaddr val val3
  | kFutexWakeOp => DoFutexWakeOp state uaddr uaddr2 val val2 val3
  | kFutexInvalidCommand => Return syscall state (- EINVAL)
  | _ => Return syscall state (- ENOSYS)
  end.

Definition SysFutex (tsz : nat) (state : ptr) : sys status :=
  args ← TryGetArgs syscall state 6;
  match args with
  | Some [uaddr; op; val; utime; uaddr2; val3] =>
      let op := as_int op in
      let val := as_uint32 val in
      let val3 := as_uint32 val3 in
      let cmd := FutexOpToCommand op in
      match cmd with
      | kFutexInvalidCommand => Return syscall state (- ENOSYS)
      | _ =>
          timeout ← (if takes_timeout cmd && negb (utime =? 0) then
                       t ← on_memory (fun m => TryReadMemory m utime (2 * tsz)%nat);
                       mret (timespec_of tsz <$> t)
                     else mret (Some (0, 0)) : sys (option (Z * Z)));
          let val2 := if takes_val2 cmd then as_uint32 utime else 0 in
          match timeout with
          | None => Return syscall state (- EFAULT)
          | Some (tv_sec, tv_nsec) =>
              if (tv_sec <? 0) || (1000000000 <? tv_nsec) then Return syscall state (- EINVAL)
              else futex_command state cmd uaddr val val2 uaddr2 val3
          end
      end
  | _ => Return syscall state (- EFAULT)
  end.
End futex.
