(* ===== verification/FutexProps.v ===== *)
(** * What futexes promise

    [DoWake] unblocks the right tasks, and waiting and waking fit
    together. *)

From S2P Require Import Prelude GuestMemory MemoryInstance Tasks LinuxTasks SystemCalls Futex.

Local Abbreviation ptr := positive.

(** ** Walking the ring *)

Section ring.
Context {St : Type}.
Implicit Types (o : OS St) (t : linux_task St) (l ws : list ptr) (p q task : ptr).

(** The pointers [ws] are what the ring visits from [nx] before [task]. *)
Fixpoint ring_path o task (nx : option ptr) ws : Prop :=
  match ws with
  | [] => nx = Some task
  | p :: ws => nx = Some p /\ p <> task /\ exists t, tasks o !! p = Some t /\ ring_path o task (next_circular t) ws
  end.

Lemma ring_path_ext o o' task nx ws :
  (forall q, q ∈ ws -> tasks o' !! q = tasks o !! q) -> ring_path o task nx ws -> ring_path o' task nx ws.
Proof.
  revert nx. induction ws as [|p ws IH]; intros nx Heq; cbn; [done|]. intros (-> & Hne & t & Ht & Hr).
  split; [done|]. split; [done|]. exists t. split; [by rewrite Heq by left|]. apply IH; [|done].
  intros q Hq. apply Heq. by right.
Qed.

Lemma ring_path_low o l i k p :
  os_ok o l -> l !! i = Some p -> (k <= i)%nat -> ring_path o p (l !! k) (drop k (take i l)).
Proof.
  intros Hok Hi. remember (i - k)%nat as d eqn:Hd. revert k Hd. induction d as [|d IH]; intros k Hd Hk.
  { replace k with i by lia. rewrite drop_ge by (rewrite length_take; lia). done. }
  pose proof (lookup_lt_Some _ _ _ Hi). destruct (lookup_lt_is_Some_2 l k) as [q Hq]; [lia|].
  assert (Hqt : take i l !! k = Some q) by (by rewrite lookup_take_lt by lia).
  rewrite (drop_S _ _ _ Hqt), Hq. cbn. split; [done|]. split.
  { intros ->. assert (i = k) by (eapply NoDup_lookup; [apply Hok|done|done]). lia. }
  destruct (os_ok_lookup _ _ _ _ Hok Hq) as [t Ht]. exists t. split; [done|].
  rewrite (os_ring _ _ Hok k q t Hq Ht). unfold ring_next.
  destruct (lookup_lt_is_Some_2 l (S k)) as [q' Hq']; [lia|]. rewrite Hq', <- Hq'. apply IH; lia.
Qed.

Lemma ring_path_high o l i k p :
  os_ok o l -> l !! i = Some p -> (i < k)%nat ->
  ring_path o p (match l !! k with Some x => Some x | None => head l end) (drop k l ++ take i l).
Proof.
  intros Hok Hi. remember (length l - k)%nat as d eqn:Hd. revert k Hd. induction d as [|d IH]; intros k Hd Hk.
  { rewrite lookup_ge_None_2 by lia. rewrite drop_ge by lia. cbn [app].
    rewrite head_lookup, <- (drop_0 (take i l)). apply ring_path_low; [done|done|lia]. }
  destruct (lookup_lt_is_Some_2 l k) as [q Hq]; [lia|]. rewrite (drop_S _ _ _ Hq), Hq. cbn. split; [done|]. split.
  { intros ->. assert (i = k) by (eapply NoDup_lookup; [apply Hok|done|done]). lia. }
  destruct (os_ok_lookup _ _ _ _ Hok Hq) as [t Ht]. exists t. split; [done|].
  rewrite (os_ring _ _ Hok k q t Hq Ht). apply IH; lia.
Qed.

(** The other tasks, in the order of the ring from the [i]-th task. *)
Definition others l (i : nat) : list ptr := drop (S i) l ++ take i l.

Lemma ring_path_others o l i p t :
  os_ok o l -> l !! i = Some p -> tasks o !! p = Some t -> ring_path o p (next_circular t) (others l i).
Proof.
  intros Hok Hi Ht. rewrite (os_ring _ _ Hok i p t Hi Ht). apply ring_path_high; [done|done|lia].
Qed.

Lemma others_perm l i p : l !! i = Some p -> l ≡ₚ p :: others l i.
Proof.
  intros Hi. unfold others. rewrite <- (take_drop_middle l i p Hi) at 1. rewrite (comm (++) (drop _ _)).
  by rewrite Permutation_middle.
Qed.

(** ** Unblocking *)

Definition unblock_one o p : OS St :=
  match tasks o !! p with Some t => put_task o p (with_blocked t 0) | None => o end.

Definition unblock o ws : OS St := foldl unblock_one o ws.

Lemma unblock_one_lookup o p q :
  tasks (unblock_one o p) !! q = if decide (q = p) then (fun t => with_blocked t 0) <$> tasks o !! q else tasks o !! q.
Proof.
  unfold unblock_one. destruct (tasks o !! p) eqn:E; case_decide as Hd; subst; cbn; rewrite ?E; try done.
  - by rewrite lookup_insert_eq.
  - by rewrite lookup_insert_ne by done.
Qed.

Lemma unblock_lookup ws : forall o q t, tasks o !! q = Some t ->
  tasks (unblock o ws) !! q = Some (if decide (q ∈ ws) then with_blocked t 0 else t).
Proof.
  induction ws as [|p ws IH]; intros o q t Hq;
    [|change (unblock o (p :: ws)) with (unblock (unblock_one o p) ws)].
  { cbn. by rewrite decide_False by (by intros ?%elem_of_nil). }
  pose proof (unblock_one_lookup o p q) as Ho. rewrite Hq in Ho. destruct (decide (q = p)) as [->|Hne]; cbn in Ho.
  - rewrite (IH _ _ _ Ho). rewrite (decide_True (P := p ∈ p :: ws)) by left. by case_decide.
  - rewrite (IH _ _ _ Ho). f_equal. assert (q ∈ p :: ws <-> q ∈ ws) as Hi by (rewrite elem_of_cons; tauto).
    repeat case_decide; tauto.
Qed.

Lemma unblock_ok ws : forall o l, os_ok o l -> os_ok (unblock o ws) l.
Proof.
  induction ws as [|p ws IH]; intros o l Hok; cbn; [done|]. apply IH. unfold unblock_one.
  destruct (tasks o !! p) eqn:E; [|done]. by eapply os_ok_put.
Qed.

(** ** [DoWake] *)

(** Whether the pointer is to a task that waits. *)
Definition waiting o (self : linux_task St) (uaddr bitset : Z) p : Prop :=
  exists t, tasks o !! p = Some t /\ waits_on self uaddr bitset t = true.

#[global] Instance waiting_dec o self uaddr bitset p : Decision (waiting o self uaddr bitset p).
Proof.
  unfold waiting. destruct (tasks o !! p) as [t|] eqn:E.
  - destruct (waits_on self uaddr bitset t) eqn:Ew; [left; by exists t|right; intros (t' & ? & ?); congruence].
  - right. intros (t' & ? & _). done.
Defined.

Lemma wake_loop_spec ws : forall fuel o task self nx uaddr bitset num woken,
  NoDup ws -> task ∉ ws -> ring_path o task nx ws -> tasks o !! task = Some self -> (length ws <= fuel)%nat ->
  (woken = 0 \/ 0 <= woken < num) ->
  let ps := take (Z.to_nat (Z.max 1 (num - woken))) (filter (waiting o self uaddr bitset) ws) in
  wake_loop fuel o task nx uaddr bitset num woken = Ok (woken + Z.of_nat (length ps), unblock o ps).
Proof.
  induction ws as [|p ws IH]; intros fuel o task self nx uaddr bitset num woken Hnd Hnin Hr Hself Hf Hw; cbv zeta.
  { cbn in Hr. subst nx. rewrite filter_nil, take_nil. destruct fuel; cbn [wake_loop]; rewrite bool_decide_eq_true_2 by done;
      cbn; do 2 f_equal; lia. }
  destruct Hr as (-> & Hne & t & Ht & Hr). apply NoDup_cons in Hnd as [Hp Hnd]. apply not_elem_of_cons in Hnin as [_ Hnin].
  destruct fuel as [|fuel]; [cbn in Hf; lia|]. cbn [wake_loop].
  rewrite bool_decide_eq_false_2 by congruence. cbn [deref_opt mbind outcome_bind].
  rewrite (get_task_Some _ _ _ Ht), (get_task_Some _ _ _ Hself). cbn [mbind outcome_bind].
  destruct (waits_on self uaddr bitset t) eqn:Ew.
  - rewrite filter_cons_True by (by exists t).
    set (n := Z.to_nat (Z.max 1 (num - woken))). assert (exists n', n = S n') as [n' Hn] by (exists (pred n); lia).
    rewrite Hn. rewrite firstn_cons. cbn [length]. change (unblock o (p :: ?ps)) with (unblock (unblock_one o p) ps).
    assert (Hone : unblock_one o p = put_task o p (with_blocked t 0)) by (unfold unblock_one; by rewrite Ht).
    destruct (Z.leb_spec num (woken + 1)).
    + assert (n' = 0)%nat as -> by lia. rewrite take_0. cbn. by rewrite Hone.
    + assert (Hother : forall q, q <> p -> tasks (put_task o p (with_blocked t 0)) !! q = tasks o !! q)
        by (intros q Hq; cbn; by rewrite lookup_insert_ne by done).
      rewrite (IH fuel (put_task o p (with_blocked t 0)) task self); [|done|done| |by rewrite Hother|cbn in Hf; lia|lia].
      2:{ eapply ring_path_ext; [|exact Hr]. intros q Hq. apply Hother. by intros ->. }
      assert (Hfil : filter (waiting (put_task o p (with_blocked t 0)) self uaddr bitset) ws =
                     filter (waiting o self uaddr bitset) ws).
      { apply filter_agree. intros q Hq. unfold waiting. rewrite Hother by (by intros ->). done. }
      rewrite Hfil. replace (Z.to_nat (Z.max 1 (num - (woken + 1)))) with n' by lia. rewrite Hone. f_equal. f_equal. lia.
  - rewrite filter_cons_False by (intros (t' & Ht' & Hw'); congruence).
    apply IH; [done|done|done|done|cbn in Hf; lia|done].
Qed.
End ring.

(** C22: waking a futex from the [i]-th task of the list returns, and unblocks
    exactly the first tasks of the ring after it that share its memory, are
    blocked on that address and have a common bit with the bitset: at most
    the number asked for (but at least one, if there is one); it reports how
    many, and changes nothing else. *)
Theorem DoWake_correct {St} (o : OS St) l i p self uaddr bitset num :
  os_ok o l -> l !! i = Some p -> tasks o !! p = Some self ->
  let woken := take (Z.to_nat (Z.max 1 num)) (filter (waiting o self uaddr bitset) (others l i)) in
  exists o', DoWake o p uaddr bitset num = Ok (Z.of_nat (length woken), o') /\ os_ok o' l /\
    forall q t, tasks o !! q = Some t -> tasks o' !! q = Some (if decide (q ∈ woken) then with_blocked t 0 else t).
Proof.
  intros Hok Hi Hp woken. exists (unblock o woken). split; [|split; [by apply unblock_ok|intros q t; apply unblock_lookup]].
  unfold DoWake. rewrite (get_task_Some _ _ _ Hp). cbn [mbind outcome_bind]. rewrite (os_size _ _ Hok).
  pose proof (others_perm l i p Hi) as Hperm. pose proof (os_nodup _ _ Hok) as Hnd. rewrite Hperm in Hnd.
  apply NoDup_cons in Hnd as [Hnin Hnd].
  rewrite (wake_loop_spec (others l i) (length l) o p self); [|done|done|by eapply ring_path_others|done| |by left].
  - unfold woken. by rewrite Z.sub_0_r.
  - apply Permutation_length in Hperm. cbn in Hperm. lia.
Qed.

(** A system in which the second and third of three tasks wait. *)
Definition waiting_os : OS unit :=
  match update_task os3 2%positive (fun t => with_futex (with_blocked t 100) 1 64) with
  | Ok o => match update_task o 1%positive (fun t => with_futex (with_blocked t 100) 2 64) with Ok o => o | _ => os3 end
  | _ => os3
  end.

Lemma waiting_os_ok : os_ok waiting_os [3; 2; 1]%positive.
Proof.
  destruct (os_ok_lookup os3 _ 1%nat 2%positive os3_ok) as [t2 H2]; [reflexivity|].
  destruct (os_ok_lookup os3 _ 2%nat 1%positive os3_ok) as [t1 H1]; [reflexivity|].
  unfold waiting_os, update_task. rewrite (get_task_Some _ _ _ H2). cbn [mbind outcome_bind].
  set (o2 := put_task os3 2%positive _). assert (H1' : tasks o2 !! 1%positive = Some t1) by (unfold o2; cbn; by rewrite lookup_insert_ne).
  rewrite (get_task_Some _ _ _ H1'). cbn [mbind outcome_bind].
  eapply os_ok_put; [|exact H1'|done]. eapply os_ok_put; [apply os3_ok|exact H2|done].
Qed.

Lemma DoWake_correct_witness :
  exists o', DoWake waiting_os 3%positive 64 2 5 = Ok (1, o') /\ os_ok o' [3; 2; 1]%positive.
Proof.
  destruct (os_ok_lookup waiting_os _ 0%nat 3%positive waiting_os_ok) as [self Hs]; [reflexivity|].
  destruct (DoWake_correct waiting_os [3; 2; 1]%positive 0 3%positive self 64 2 5 waiting_os_ok) as (o' & Heq & Hok & _);
    [reflexivity|exact Hs|].
  exists o'. split; [|exact Hok]. vm_compute in Hs. injection Hs as <-. rewrite Heq. vm_compute. reflexivity.
Defined.

(** ** Waiting *)

Section waiting.
Context {M St H : Type} `{MO : MemoryOps M} (syscall : SystemCallABI M St).
Implicit Types (w : World M St H) (t : linux_task St).

(** The futex word is accessible and has the value [v]; [m'] is the memory
    after looking at it. *)
Definition word_at (m : M) (uaddr v : Z) (m' : M) : Prop :=
  TryReadMemory m uaddr 4 = Ok (Some (le_bytes 4 v), m') /\ CanWriteMemory m' uaddr 4 = Ok true /\ 0 <= v < two32.

Lemma word_at_value m uaddr v m' : word_at m uaddr v m' -> le_value (le_bytes 4 v) = v.
Proof. intros (_ & _ & Hv). rewrite le_value_le_bytes. by apply Z.mod_small. Qed.

(** The reads at the start of a round. *)
Lemma round_reads w uaddr val timeout bitset v m' :
  word_at (memory w) uaddr v m' ->
  futex_wait_round syscall (current w) uaddr val timeout bitset w =
    futex_wait_value syscall (current w) (current w) uaddr val timeout bitset v (with_memory w m').
Proof.
  intros Hword. pose proof (word_at_value _ _ _ _ Hword) as Hv. destruct Hword as (Hr & Hc & _).
  unfold futex_wait_round. sys_step (current_step w).
  sys_step (on_memory_step (fun m => TryReadMemory m uaddr 4) w _ _ Hr).
  sys_step (ask_memory_step (fun m => CanWriteMemory m uaddr 4) (with_memory w m') true Hc). by rewrite Hv.
Qed.

(** A round returns [EAGAIN] when the word has changed, returns success when
    the task has been unblocked, and blocks the task the first time. *)
Lemma futex_wait_round_spec w uaddr val timeout bitset v m' t :
  tasks (os w) !! current w = Some t -> word_at (memory w) uaddr v m' ->
  (v <> val ->
   futex_wait_round syscall (current w) uaddr val timeout bitset w =
     Ok (Returned, world_task (with_completed (with_memory w m') true) (current w)
                     (returned syscall (with_blocked (with_futex t (futex_bitset t) 0) 0) (- EAGAIN)))) /\
  (v = val -> futex_uaddr t = uaddr -> uaddr <> 0 -> blocked_count t = 0 ->
   futex_wait_round syscall (current w) uaddr val timeout bitset w =
     Ok (Returned, world_task (with_completed (with_memory w m') true) (current w)
                     (returned syscall (with_futex t 0 0) 0))) /\
  (v = val -> futex_uaddr t = 0 -> blocked_count t = 0 ->
   futex_wait_round syscall (current w) uaddr val timeout bitset w =
     Ok (Yielded, world_task (with_memory w m') (current w)
                    (with_base (with_futex (with_blocked t (if timeout then kFutexBlockedForABit else kBlockedForever)) bitset uaddr)
                       (Pause (base_task t))))).
Proof.
  intros Ht Hword. rewrite (round_reads _ _ _ _ _ _ _ Hword). unfold futex_wait_value.
  set (w1 := with_memory w m'). assert (Ht1 : tasks (os w1) !! current w = Some t) by done.
  split; [|split].
  - intros Hne. apply Z.eqb_neq in Hne. rewrite Hne. sys_step (modify_task_step w1 _ t (fun t => with_blocked (with_futex t (futex_bitset t) 0) 0) Ht1).
    erewrite Return_step by apply world_task_lookup. by rewrite world_task_completed.
  - intros -> Hu Hne Hb. rewrite Z.eqb_refl. sys_step (read_task_step w1 _ t Ht1). rewrite Hu, Hb.
    rewrite (proj2 (Z.eqb_neq uaddr 0) Hne), !Z.eqb_refl. cbn [negb andb check].
    unfold mbind at 1, sys_bind at 1, stop at 1. cbn [mbind outcome_bind].
    sys_step (modify_task_step w1 _ t (fun t => with_futex t 0 0) Ht1).
    erewrite Return_step by apply world_task_lookup. by rewrite world_task_completed.
  - intros -> Hu Hb. rewrite Z.eqb_refl. sys_step (read_task_step w1 _ t Ht1). rewrite Hu, Hb. rewrite !Z.eqb_refl. cbn [negb andb].
    set (n := if timeout then _ else _). assert ((n =? 0) = false) as -> by (by destruct timeout).
    sys_step (modify_task_step w1 _ t (fun t => with_blocked t n) Ht1).
    sys_step (modify_task_step _ _ _ (fun t => with_futex t bitset uaddr) (world_task_lookup w1 (current w) (with_blocked t n))).
    rewrite world_task_twice. unfold vmill_yield.
    sys_step (modify_task_step _ _ _ (fun t => with_base t (Pause (base_task t)))
                (world_task_lookup w1 (current w) (with_futex (with_blocked t n) bitset uaddr))).
    rewrite world_task_twice. reflexivity.
Qed.
End waiting.

(** ** Waiting, waking and timing out *)

(** *** A concrete system *)

(** A convention whose register state is the result register alone. *)
Definition demo_abi : SystemCallABI (Mem false 64) Z :=
  MkABI (fun _ => 0) (fun s _ => s) (fun s _ => s) (fun _ => 0) (fun m _ a => Ok (a, m)) (fun _ v => v)
    (fun _ _ _ => Ok true) (fun m _ _ => Ok (0, m)).

Definition two_tasks : outcome (OS Z) :=
  '(_, o) ← vmill_create_task (vmill_init (MkOS ∅ None None 0 1%positive)) 5 64 1%positive;
  '(_, o) ← vmill_create_task o 5 128 1%positive;
  Ok o.
Definition os2 : OS Z := match two_tasks with Ok o => o | _ => vmill_init (MkOS ∅ None None 0 1%positive) end.

Lemma os2_ok : os_ok os2 [2; 1]%positive.
Proof.
  assert (H0 : os_ok (vmill_init (MkOS (∅ : gmap ptr (linux_task Z)) None None 0 1%positive)) []) by (by apply vmill_init_ok).
  destruct (vmill_create_task_spec _ [] 5 64 1%positive H0) as (p1 & o1 & E1 & H1 & _).
  destruct (vmill_create_task_spec o1 [p1] 5 128 1%positive H1) as (p2 & o2 & E2 & H2 & _).
  assert (E : two_tasks = Ok o2) by (unfold two_tasks; rewrite E1; cbn [mbind outcome_bind]; rewrite E2; done).
  unfold os2. rewrite E. vm_compute in E1. injection E1 as <- <-. vm_compute in E2. injection E2 as <- <-. exact H2.
Qed.

(** The first task is current; it is to wait on the word at 4100. *)
Definition demo_world : World (Mem false 64) Z unit := MkWorld demo_mem os2 1%positive false ∅ tt.

Definition demo_word_mem : Mem false 64 :=
  match TryReadMemory demo_mem 4100 4 with Ok (_, m) => m | _ => demo_mem end.

Lemma demo_word : word_at demo_mem 4100 0 demo_word_mem.
Proof. split; [vm_compute; reflexivity|]. split; [vm_compute; reflexivity|]. unfold two32. lia. Qed.

Definition run_exits (o : OS Z) (p : ptr) : outcome (OS Z) :=
  update_task o p (fun t => with_base t (vmill_set_location (base_task t) 0 kTaskStoppedAtExit)).

Lemma run_exits_ok o l p :
  os_ok o l -> p ∈ l -> exists o' l', run_exits o p = Ok o' /\ os_ok o' (l' ++ l).
Proof.
  intros Hok [t Ht]%(os_dom _ _ Hok). unfold run_exits, update_task. rewrite (get_task_Some _ _ _ Ht).
  eexists _, []. split; [done|]. by eapply os_ok_put.
Qed.

Lemma run_exits_frame q o p o' : run_exits o p = Ok o' -> p <> q -> tasks o' !! q = tasks o !! q.
Proof.
  unfold run_exits, update_task, get_task. destruct (tasks o !! p); [|done]. intros [= <-] ?. by apply lookup_insert_ne.
Qed.

(** The waiters on a futex, in the order in which the ring of tasks is visited
    from the [i]-th one. *)
Definition waiters {St} (o : OS St) l i (self : linux_task St) (uaddr bits : Z) : list ptr :=
  filter (waiting o self uaddr bits) (others l i).

(** C23: no wakeup is lost.  A task waits on a futex (a non-null address) that
    another task of the same address space wakes with a common bit, asking for
    [num] wakeups.  If fewer than [num] waiters precede it in the ring from
    the waker, or none does, whatever [num] is, then it is woken: its next
    round, if the futex word is then readable and writable, returns to the
    program, with success if the word still has the value it waited for and
    with [EAGAIN] if not.  (With [FUTEX_WAKE 1] this is the first waiter of
    the ring.) *)
Theorem futex_wake_delivered {M St H} `{MO : MemoryOps M} (syscall : SystemCallABI M St) (w : World M St H) l i p self t
    uaddr val bitset bits num timeout v m' k :
  os_ok (os w) l -> l !! i = Some p -> tasks (os w) !! p = Some self -> tasks (os w) !! current w = Some t ->
  waiters (os w) l i self uaddr bits !! k = Some (current w) -> (k = 0%nat \/ Z.of_nat k < num) ->
  uaddr <> 0 -> word_at (memory w) uaddr v m' ->
  exists n o w' t', DoWake (os w) p uaddr bits num = Ok (n, o) /\ Z.of_nat k < n /\
    futex_wait_round syscall (current w) uaddr val timeout bitset (with_os w o) = Ok (Returned, w') /\
    completed w' = true /\ tasks (os w') !! current w = Some t' /\
    task_state t' = DoSetReturn syscall (task_state t) (addr_wrap (if v =? val then 0 else - EAGAIN)) /\
    blocked_count t' = 0 /\ futex_uaddr t' = 0.
Proof.
  intros Hok Hi Hp Ht Hk Hnum Hu Hword. set (q := current w) in *.
  pose proof (os_size _ _ Hok) as Hsz. pose proof (others_perm l i p Hi) as Hperm.
  pose proof (os_nodup _ _ Hok) as Hnd. rewrite Hperm in Hnd. apply NoDup_cons in Hnd as [Hnin Hnd].
  set (woken := take (Z.to_nat (Z.max 1 num)) (waiters (os w) l i self uaddr bits)).
  assert (Hwl : wake_loop (size (tasks (os w))) (os w) p (next_circular self) uaddr bits num 0 =
    Ok (Z.of_nat (length woken), unblock (os w) woken)).
  { rewrite (wake_loop_spec (others l i) _ (os w) p self); [|done|done|by eapply ring_path_others|done| |by left].
    - unfold woken. by rewrite Z.sub_0_r.
    - rewrite Hsz. apply Permutation_length in Hperm. cbn in Hperm. lia. }
  assert (Hkw : woken !! k = Some q) by (unfold woken; rewrite lookup_take_lt by lia; done).
  pose proof (list_elem_of_lookup_2 _ _ _ Hkw) as Hq. pose proof (lookup_lt_Some _ _ _ Hkw) as Hpos.
  set (o := unblock (os w) woken). assert (Hto : tasks o !! q = Some (with_blocked t 0)).
  { unfold o. rewrite (unblock_lookup woken (os w) q t Ht). by rewrite decide_True. }
  assert (Hfu : futex_uaddr t = uaddr).
  { apply list_elem_of_lookup_2, list_elem_of_filter in Hk as [(t0 & Ht0 & Hw) _].
    unfold waits_on in Hw. rewrite !andb_true_iff, !Z.eqb_eq in Hw. assert (t0 = t) as -> by congruence. tauto. }
  destruct (futex_wait_round_spec syscall (with_os w o) uaddr val timeout bitset v m' (with_blocked t 0) Hto Hword)
    as (Hchanged & Hwoken & _). cbn [with_os current] in Hchanged, Hwoken. fold q in Hchanged, Hwoken.
  exists (Z.of_nat (length woken)), o.
  assert (Hdw : DoWake (os w) p uaddr bits num = Ok (Z.of_nat (length woken), o)) by (unfold DoWake; by rewrite (get_task_Some _ _ _ Hp)).
  destruct (Z.eqb_spec v val) as [->|Hv]; [rewrite Hwoken by done|rewrite Hchanged by done];
    (eexists _, _; split; [exact Hdw|]; split; [lia|]; split; [done|]; split; [done|]; split; [apply world_task_lookup|done]).
Qed.

(** [FUTEX_WAKE 1] reaches a task that waits. *)
Lemma futex_wake_delivered_witness :
  exists (w : World (Mem false 64) Z unit) t, update_task os2 1%positive (fun t => with_futex (with_blocked t 100) 1 4100) = Ok (os w) /\
    tasks (os w) !! 1%positive = Some t /\ current w = 1%positive /\
    exists o w', DoWake (os w) 2%positive 4100 1 1 = Ok (1, o) /\
      futex_wait_round demo_abi 1%positive 4100 0 true 1 (with_os w o) = Ok (Returned, w').
Proof.
  destruct (os_ok_lookup os2 _ 1%nat 1%positive os2_ok) as [t Ht]; [reflexivity|].
  destruct (os_ok_lookup os2 _ 0%nat 2%positive os2_ok) as [self Hs]; [reflexivity|].
  set (t' := with_futex (with_blocked t 100) 1 4100). set (w := with_os demo_world (put_task os2 1%positive t')).
  assert (Ht' : tasks (os w) !! 1%positive = Some t') by apply lookup_insert_eq.
  assert (Hs' : tasks (os w) !! 2%positive = Some self) by (cbn; rewrite lookup_insert_ne; [exact Hs|discriminate]).
  exists w, t'. split; [unfold update_task; rewrite (get_task_Some _ _ _ Ht); reflexivity|]. split; [exact Ht'|]. split; [reflexivity|].
  destruct (futex_wake_delivered demo_abi w [2; 1]%positive 0 2%positive self t' 4100 0 1 1 1 true 0 demo_word_mem 0)
    as (n & o & w' & _ & Hd & Hn & Hr & _).
  - eapply os_ok_put; [apply os2_ok|exact Ht|done].
  - reflexivity.
  - exact Hs'.
  - exact Ht'.
  - unfold waiters. change (others [2; 1]%positive 0) with [1%positive]. rewrite filter_cons_True; [reflexivity|].
    exists t'. split; [exact Ht'|]. vm_compute in Ht. injection Ht as <-. vm_compute in Hs. injection Hs as <-. reflexivity.
  - left. reflexivity.
  - lia.
  - exact demo_word.
  - exists o, w'. split; [|exact Hr]. rewrite Hd. f_equal. f_equal.
    vm_compute in Ht. injection Ht as <-. vm_compute in Hd. injection Hd as <- _. reflexivity.
Defined.

(** a wait that times out is reported as a wakeup: a task that waits with
    a timeout is blocked for [kFutexBlockedForABit] rounds; if nobody touches
    it, the scheduler counts them down to zero, and since the round that
    follows takes a zero count for a wakeup the call returns 0 although no
    task woke it: [ETIMEDOUT] is never returned. *)
Theorem futex_timeout_reports_success {M St H} `{MO : MemoryOps M} (syscall : SystemCallABI M St) run
    (w : World M St H) l t uaddr val bitset m' :
  (forall os l p, os_ok os l -> p ∈ l -> exists os' l', run os p = Ok os' /\ os_ok os' (l' ++ l)) ->
  (forall os p os', run os p = Ok os' -> p <> current w -> tasks os' !! current w = tasks os !! current w) ->
  os_ok (os w) l -> tasks (os w) !! current w = Some t -> futex_uaddr t = 0 -> blocked_count t = 0 ->
  Tasks.status (base_task t) = kTaskStatusRunnable ->
  uaddr <> 0 -> uaddr mod 4 = 0 -> bitset <> 0 -> word_at (memory w) uaddr val m' ->
  exists w1 o2, DoFutexWaitBitSet syscall (current w) uaddr val true bitset w = Ok (Yielded, w1) /\
    passes run (Z.to_nat kFutexBlockedForABit) (os w1) = Ok o2 /\
    forall m2 m3, word_at m2 uaddr val m3 ->
    exists w2 t2, futex_wait_round syscall (current w) uaddr val true bitset (with_memory (with_os w1 o2) m2) = Ok (Returned, w2) /\
      tasks (os w2) !! current w = Some t2 /\ task_state t2 = DoSetReturn syscall (task_state t) (addr_wrap 0).
Proof.
  intros Hrun Hframe Hok Ht Hu Hb Hst Hne Hal Hbit Hword. set (q := current w) in *.
  destruct (futex_wait_round_spec syscall w uaddr val true bitset val m' t Ht Hword) as (_ & _ & Hfirst).
  specialize (Hfirst eq_refl Hu Hb). fold q in Hfirst. set (w1 := world_task _ _ _) in Hfirst.
  set (t1 := with_base _ _) in w1. assert (Ht1 : tasks (os w1) !! q = Some t1) by apply world_task_lookup.
  assert (Hok1 : os_ok (os w1) l) by (by eapply os_ok_put).
  assert (Hlive : is_live t1 = true) by (unfold is_live, t1, Pause; cbn; rewrite Hst; done).
  destruct (passes_blocked run Hrun q Hframe (Z.to_nat kFutexBlockedForABit) (os w1) l t1) as (o2 & l2 & Hp & Hok2 & Hq2);
    [done|done|done|done|].
  exists w1, o2. split; [|split; [done|]].
  - unfold DoFutexWaitBitSet. rewrite Hal. apply Z.eqb_neq in Hbit. rewrite Hbit. exact Hfirst.
  - intros m2 m3 Hword2.
    destruct (futex_wait_round_spec syscall (with_memory (with_os w1 o2) m2) uaddr val true bitset val m3 _ Hq2 Hword2)
      as (_ & Hwoken & _). cbn [with_memory with_os current] in Hwoken.
    change (current w1) with q in Hwoken. rewrite Hwoken by done.
    eexists _, _. split; [done|]. split; [apply world_task_lookup|done].
Qed.

Lemma futex_timeout_reports_success_witness :
  exists w1, DoFutexWaitBitSet demo_abi 1%positive 4100 0 true 1 demo_world = Ok (Yielded, w1) /\
    exists o2, passes run_exits 100 (os w1) = Ok o2 /\
    exists w2 t2, futex_wait_round demo_abi 1%positive 4100 0 true 1 (with_memory (with_os w1 o2) demo_mem) = Ok (Returned, w2) /\
      tasks (os w2) !! 1%positive = Some t2 /\ task_state t2 = 0.
Proof.
  destruct (os_ok_lookup os2 _ 1%nat 1%positive os2_ok) as [t Ht]; [reflexivity|].
  assert (Hf : futex_uaddr t = 0 /\ blocked_count t = 0 /\ Tasks.status (base_task t) = kTaskStatusRunnable)
    by (vm_compute in Ht; injection Ht as <-; done).
  destruct Hf as (Hu & Hb & Hst).
  destruct (futex_timeout_reports_success demo_abi run_exits demo_world [2; 1]%positive t 4100 0 1 demo_word_mem
    run_exits_ok (run_exits_frame 1%positive) os2_ok Ht Hu Hb Hst) as (w1 & o2 & H1 & H2 & H3);
    [discriminate|reflexivity|discriminate|exact demo_word|].
  exists w1. split; [exact H1|]. exists o2. split; [exact H2|].
  destruct (H3 demo_mem demo_word_mem demo_word) as (w2 & t2 & Hr & Ht2 & Hs). exists w2, t2. split; [exact Hr|].
  split; [exact Ht2|]. rewrite Hs. reflexivity.
Defined.
