(* ===== verification/LinuxMM.v ===== *)
(** * Memory management calls

    [vmill/Runtime/Linux/MM.cpp]: [brk], [mmap], [munmap] and [mprotect],
    against the memory interface; and the part of the host they use
    ([lseek], [read], and [GetBasePathAt] of [FS.cpp]). *)

From S2P Require Import Prelude GuestMemory Tasks LinuxTasks SystemCalls.

Local Abbreviation ptr := positive.

(** What a host call returns: a value, or -1 with [errno]. *)
Inductive hostret (A : Type) := HostOk (a : A) | HostErr (errno : Z).
Arguments HostOk {A}.
Arguments HostErr {A}.

(** The host calls of files; the state of the host is opaque.  [h_read] is
    [read] with the bytes it stored. *)
Class FileHost (H : Type) := {
  h_lseek : Z -> Z -> Z -> H -> hostret Z * H;
  h_read : Z -> Z -> H -> hostret (list Z) * H;
  h_write : Z -> list Z -> H -> hostret Z * H;
  h_open : Z -> list Z -> Z -> Z -> H -> hostret Z * H;
  h_close : Z -> H -> hostret unit * H;
  h_getcwd : H -> hostret unit * H;
  (** [readlink] of [/proc/self/fd/<fd>]. *)
  h_readlink_fd : Z -> H -> hostret string * H
}.

Definition SEEK_SET : Z := 0.
Definition SEEK_CUR : Z := 1.
Definition AT_FDCWD : Z := -100.

Definition MAP_SHARED : Z := 1.
Definition MAP_PRIVATE : Z := 2.
Definition MAP_FIXED : Z := 16.
Definition MAP_ANONYMOUS : Z := 32.
Definition MAP_32BIT : Z := 64.
Definition MAP_GROWSDOWN : Z := 256.
Definition MAP_GROWSUP : Z := 0.
Definition MAP_STACK : Z := 131072.
Definition PROT_READ : Z := 1.
Definition PROT_WRITE : Z := 2.
Definition PROT_EXEC : Z := 4.

Definition has (flags f : Z) : bool := negb (Z.land flags f =? 0).

Definition kIOBufferSize : Z := 4096 * 4.
Definition kMmapMinAddr : Z := 65536.
Definition k1GiB : Z := 2 ^ 30.
Definition k4GiB : Z := k1GiB * 4.

Section mm.
Context {M St H : Type} `{MO : MemoryOps M} `{FH : FileHost H} (syscall : SystemCallABI M St).
Local Abbreviation sys := (SystemCalls.sys M St H).

Definition kAllocMin : Z := if addr_bits =? 64 then k4GiB else k1GiB.
Definition kAllocMax : Z := if addr_bits =? 64 then 2 ^ 47 else 4143972352.

(** [GetBasePathAt] on Linux. *)
Definition GetBasePathAt (fd : Z) : sys (option string) :=
  let link := p ← on_host (h_readlink_fd fd);
              mret (match p with HostOk s => Some s | HostErr _ => None end) : sys (option string) in
  if fd =? AT_FDCWD then
    cwd ← on_host h_getcwd;
    match cwd with HostErr _ => mret None | HostOk _ => link end
  else if fd <? 0 then mret None
  else link.

Definition SysBrk (state : ptr) : sys status :=
  args ← TryGetArgs syscall state 1;
  match args with
  | Some [addr] => Return syscall state (- ENOMEM)
  | _ => Return syscall state (- EFAULT)
  end.

(** The checks of [SysMmap] on a file descriptor: the error to return. *)
Definition mmap_check_fd (fd offset size : Z) : option Z :=
  if fd =? -1 then None
  else if (fd =? 0) || (fd =? 1) || (fd =? 2) then Some EACCES
  else if fd <? -1 then Some EBADFD
  else if (offset <? 0) || negb (Z.rem offset 4096 =? 0) then Some EINVAL
  else if as_int64 (offset + as_int64 size) <? offset then Some EOVERFLOW
  else None.

(** The checks of the flags, and the flags from there on. *)
Definition mmap_check_flags (fd flags : Z) : Z + Z :=
  if has flags MAP_GROWSDOWN then inl EINVAL
  else if has flags MAP_GROWSUP then inl EINVAL
  else
    let flags := if has flags MAP_SHARED then Z.lor (Z.land flags (Z.lnot MAP_SHARED)) MAP_PRIVATE else flags in
    if negb (has flags MAP_PRIVATE) then inl EINVAL
    else if (0 <=? fd) && has flags MAP_ANONYMOUS then inl EINVAL
    else inr flags.

(** The address asked for with [MAP_FIXED], and 0 otherwise. *)
Definition mmap_check_addr (flags addr size max_addr : Z) : Z + Z :=
  if has flags MAP_FIXED then
    let addr := AlignToPage addr in
    if addr =? 0 then inl EINVAL
    else
      let addr := if addr <? kMmapMinAddr then kMmapMinAddr else addr in
      if max_addr <? addr_wrap (addr + size) then inl ENOMEM else inr addr
  else inr 0.

(** The copy loop: [remaining] bytes to [addr + i].  [None]: the file has
    ended or everything is copied; [Some e]: a read failed. *)
Fixpoint mmap_copy (fuel : nat) (fd addr i remaining : Z) : sys (option Z) :=
  if remaining =? 0 then mret None
  else
    match fuel with
    | O => stop Diverges
    | S fuel =>
        ret ← on_host (h_read fd (Z.min remaining kIOBufferSize));
        match ret with
        | HostErr e => mret (Some e)
        | HostOk [] => mret None
        | HostOk bytes =>
            change_memory (fun m => CopyToMemory m (addr_wrap (addr + i)) bytes);;
            let n := Z.of_nat (length bytes) in
            mmap_copy fuel fd addr (addr_wrap (i + n)) (addr_wrap (remaining - n))
        end
    end.

(** Changing the permissions, when they are not the default ones, and
    returning the address. *)
Definition mmap_finish (state : ptr) (addr size prot : Z) : sys status :=
  let can_read := has prot PROT_READ in
  let can_write := has prot PROT_WRITE in
  let can_exec := has prot PROT_EXEC in
  (if can_exec || negb can_read || negb can_write
   then change_memory (fun m => vmill_protect_memory m addr size can_read can_write can_exec)
   else mret tt : sys unit);;
  Return syscall state addr.

(** The part of [SysMmap] after an address has been found. *)
Definition mmap_map (state : ptr) (addr size prot flags fd offset : Z) : sys status :=
  let map_anonymous (fd_name : option string) (fd_offset : Z) : sys unit :=
    let fd_name := match fd_name with None => if has flags MAP_STACK then Some "[stack]"%string else None | s => s end in
    change_memory (fun m => vmill_allocate_memory m addr size fd_name fd_offset) in
  if 0 <=? fd then
    old ← on_host (h_lseek fd 0 SEEK_CUR);
    match old with
    | HostErr e => Return syscall state (- e)
    | HostOk old_offset =>
        ret ← on_host (h_lseek fd (as_int64 (offset + as_int64 size)) SEEK_SET);
        (match ret with HostErr e => SetReturn syscall state (- e) | HostOk _ => mret tt end : sys unit);;
        ret ← on_host (h_lseek fd offset SEEK_SET);
        match ret with
        | HostErr e =>
            SetReturn syscall state (- e);;
            on_host (h_lseek fd old_offset SEEK_SET);;
            mret Returned
        | HostOk _ =>
            fd_name ← GetBasePathAt fd;
            map_anonymous fd_name (wrap64 offset);;
            err ← mmap_copy (Z.to_nat size) fd addr 0 size;
            match err with
            | Some e =>
                SetReturn syscall state (- e);;
                on_host (h_lseek fd old_offset SEEK_SET);;
                change_memory (fun m => vmill_free_memory m addr size);;
                mret Returned
            | None =>
                on_host (h_lseek fd old_offset SEEK_SET);;
                mmap_finish state addr size prot
            end
        end
    end
  else map_anonymous None 0;; mmap_finish state addr size prot.

(** The highest address of a mapping, and the hint with [MAP_32BIT]. *)
Definition mmap_bounds (flags addr : Z) : Z * Z :=
  if (addr_bits =? 64) && has flags MAP_32BIT then
    (k4GiB, if negb (addr =? 0) && (k4GiB <=? addr) then 0 else addr)
  else (kAllocMax, addr).

Definition SysMmap (offset_scale : Z) (state : ptr) : sys status :=
  args ← TryGetArgs syscall state 6;
  match args with
  | Some [addr; size; prot; flags; fd; offset] =>
      let prot := as_int prot in
      let flags := as_int flags in
      let fd := as_int fd in
      let offset := as_int64 (as_int64 offset * offset_scale) in
      let size := AlignToNextPage size in
      if size =? 0 then Return syscall state (- EINVAL)
      else
        match mmap_check_fd fd offset size with
        | Some e => Return syscall state (- e)
        | None =>
            let '(max_addr, addr) := mmap_bounds flags addr in
            match mmap_check_flags fd flags with
            | inl e => Return syscall state (- e)
            | inr flags =>
                match mmap_check_addr flags addr size max_addr with
                | inl e => Return syscall state (- e)
                | inr addr =>
                    addr ← (if addr =? 0
                            then ask_memory (fun m => vmill_find_unmapped_address m kMmapMinAddr max_addr size)
                            else mret addr : sys Z);
                    if addr =? 0 then Return syscall state (- ENOMEM)
                    else mmap_map state addr size prot flags fd offset
                end
            end
        end
  | _ => Return syscall state (- EFAULT)
  end.

Definition SysMunmap (state : ptr) : sys status :=
  args ← TryGetArgs syscall state 2;
  match args with
  | Some [addr; size] =>
      if negb (addr =? AlignToPage addr) then Return syscall state (- EINVAL)
      else
        let size := AlignToNextPage size in
        if size =? 0 then Return syscall state (- EINVAL)
        else
          change_memory (fun m => vmill_free_memory m addr size);;
          Return syscall state 0
  | _ => Return syscall state (- EFAULT)
  end.

Definition SysMprotect (state : ptr) : sys status :=
  args ← TryGetArgs syscall state 3;
  match args with
  | Some [addr; size; prot] =>
      let prot := as_int prot in
      let size := AlignToNextPage size in
      if size =? 0 then Return syscall state (- EINVAL)
      else
        change_memory (fun m => vmill_protect_memory m addr size (has prot PROT_READ) (has prot PROT_WRITE) (has prot PROT_EXEC));;
        Return syscall state 0
  | _ => Return syscall state (- EFAULT)
  end.
End mm.
