(* ===== verification/LinuxThread.v ===== *)
(** * Threads

    [vmill/Runtime/Linux/Thread.cpp]: [set_thread_area], [clone],
    [arch_prctl] and [set_tid_address], and [SysExit] of [Sys.cpp].  The state
    argument of a handler is a task pointer: the registers of that task. *)

From S2P Require Import Prelude GuestMemory Tasks LinuxTasks SystemCalls ArchAbi Futex LinuxMM.

Local Abbreviation ptr := positive.

Definition CLONE_VM : Z := 256.
Definition CLONE_FS : Z := 512.
Definition CLONE_FILES : Z := 1024.
Definition CLONE_SIGHAND : Z := 2048.
Definition CLONE_PARENT : Z := 32768.
Definition CLONE_THREAD : Z := 65536.
Definition CLONE_NEWNS : Z := 131072.
Definition CLONE_SETTLS : Z := 524288.
Definition CLONE_PARENT_SETTID : Z := 1048576.
Definition CLONE_CHILD_CLEARTID : Z := 2097152.
Definition CLONE_CHILD_SETTID : Z := 16777216.
Definition CLONE_NEWCGROUP : Z := 33554432.
Definition CLONE_NEWUTS : Z := 67108864.
Definition CLONE_NEWIPC : Z := 134217728.
Definition CLONE_NEWUSER : Z := 268435456.
Definition CLONE_NEWPID : Z := 536870912.
Definition CLONE_NEWNET : Z := 1073741824.
Definition CLONE_IO : Z := 2147483648.
Definition CLONE_PID : Z := 0.

Definition ARCH_SET_GS : Z := 4097.
Definition ARCH_SET_FS : Z := 4098.
Definition ARCH_GET_FS : Z := 4099.
Definition ARCH_GET_GS : Z := 4100.

Definition kSegContentsData : Z := 0.
Definition kSegContentsDataExpandDown : Z := 1.

(** [linux_x86_user_desc] as it lies in memory: three words and a word of
    bit-fields. *)
Definition user_desc_size : nat := 16.

Definition user_desc_of (bs : list Z) : user_desc :=
  let flags := le_value (drop 12 bs) in
  MkDesc (le_value (take 4 bs)) (le_value (take 4 (drop 4 bs))) (le_value (take 4 (drop 8 bs)))
    (Z.testbit flags 0) (Z.shiftr flags 1 mod 4) (Z.testbit flags 3) (Z.testbit flags 4) (Z.testbit flags 5)
    (Z.testbit flags 6).

Definition with_entry (d : user_desc) (index : Z) : user_desc :=
  MkDesc index (base_addr d) (limit d) (seg_32bit d) (contents d) (read_exec_only d) (limit_in_pages d)
    (seg_not_present d) (useable d).

Section set_thread_area.
Context {M H : Type} `{MO : MemoryOps M} (syscall : SystemCallABI M X86State).
Local Abbreviation sys := (SystemCalls.sys M X86State H).

(** Whether the descriptor itself is refused. *)
Definition desc_refused (info : user_desc) : bool :=
  negb (IsEmpty info) && negb (IsZero info) &&
  (negb (seg_32bit info) ||
   (negb (contents info =? kSegContentsData) && negb (contents info =? kSegContentsDataExpandDown)) ||
   seg_not_present info).

(** The loop over the TLS entries: the first index that neither [fs] nor
    [gs] selects. *)
Fixpoint free_tls_index (s : X86State) (indexes : list Z) : option Z :=
  match indexes with
  | [] => None
  | index :: indexes =>
      if negb (seg_index s FS =? index) && negb (seg_index s GS =? index) then Some index
      else free_tls_index s indexes
  end.

Definition tls_indexes : list Z := seqZ kLinuxMinIndexForTLSInGDT kNumTLSSlots.

(** The base of each segment register that selects [index]. *)
Definition update_bases (s : X86State) (index base : Z) : X86State :=
  foldl (fun s g => if seg_index s g =? index then set_base_dword s g base else s) s [SS; ES; GS; FS; DS; CS].

(** The end of [DoSetThreadArea], when the index is known. *)
Definition install_thread_area (state : ptr) (info : user_desc) (index : Z) : sys status :=
  modify_state state (fun s => update_bases s index (base_addr info));;
  task ← vmill_current;
  modify_task task (fun t =>
    with_slots t (<[Z.to_nat (index - kLinuxMinIndexForTLSInGDT) := with_entry info index]> (tls_slots t)));;
  Return syscall state 0.

Definition DoSetThreadArea (state : ptr) (addr : Z) : sys status :=
  info ← on_memory (fun m => TryReadMemory m addr user_desc_size);
  match info with
  | None => Return syscall state (- EFAULT)
  | Some bs =>
      let info := user_desc_of bs in
      if desc_refused info then Return syscall state (- EINVAL)
      else
        let index := entry_number info in
        if negb (index =? two32 - 1) then
          if (index <? kLinuxMinIndexForTLSInGDT) || (kLinuxMaxIndexForTLSInGDT <? index)
          then Return syscall state (- EINVAL)
          else install_thread_area state info index
        else
          s ← read_state state;
          match free_tls_index s tls_indexes with
          | None => Return syscall state (- ESRCH)
          | Some index =>
              ok ← on_memory (fun m => TryWriteMemory m addr (le_bytes 4 index));
              if (ok : bool) then install_thread_area state info index
              else Return syscall state (- EFAULT)
          end
  end.

Definition SysSetThreadArea (state : ptr) : sys status :=
  args ← TryGetArgs syscall state 1;
  match args with
  | Some [addr] => DoSetThreadArea state addr
  | _ => Return syscall state (- EFAULT)
  end.
End set_thread_area.

(** ** [clone] *)

Section clone.
Context {M St H : Type} `{MO : MemoryOps M} (syscall : SystemCallABI M St).
Local Abbreviation sys := (SystemCalls.sys M St H).
(** The code of the architecture for [CLONE_SETTLS]: the child's registers
    and [newtls]. *)
Context (set_tls : ptr -> Z -> sys status).

Definition thread_flags : Z := Z.lor CLONE_FILES (Z.lor CLONE_FS (Z.lor CLONE_IO (Z.lor CLONE_PID CLONE_VM))).

Definition not_thread_flags : Z :=
  Z.lor CLONE_NEWCGROUP (Z.lor CLONE_NEWIPC (Z.lor CLONE_NEWNET (Z.lor CLONE_NEWNS (Z.lor CLONE_NEWPID
    (Z.lor CLONE_NEWUSER (Z.lor CLONE_NEWUTS CLONE_PARENT)))))).

(** The first check: the flags ask for a process. *)
Definition wants_process (flags : Z) : bool :=
  negb (thread_flags =? Z.land thread_flags flags) && has flags not_thread_flags.

(** The writability checks of the places for the thread id. *)
Definition clone_can_write (flags flag addr : Z) : sys bool :=
  if has flags flag then ask_memory (fun m => CanWriteMemory m addr 4) else mret true.

(** [__vmill_create_task] with the registers and memory of the parent. *)
Definition on_os {A} (f : OS St -> outcome (A * OS St)) : sys A := fun w =>
  '(a, o) ← f (os w); Ok (a, with_os w o).

Definition create_thread (parent : ptr) (pc : Z) : sys ptr :=
  t ← read_task parent;
  on_os (fun o => vmill_create_task o (task_state t) pc (task_memory t)).

(** The child goes on where the parent does, after the system call. *)
Definition child_task (parent child : linux_task St) (ret_addr child_stack flags ctid : Z) : linux_task St :=
  let s := SetPC syscall (task_state child) ret_addr in
  let s := if child_stack =? 0 then s else SetSP syscall s child_stack in
  let b := base_task child in
  let t := with_state child s in
  let t := with_base t (MkTask (pc b) kTaskStatusRunnable (status_on_resume b) kTaskStoppedAfterHyperCall
                          (last_pc (base_task parent)) (mem_access_fault b)) in
  with_child_tids t (if has flags CLONE_CHILD_CLEARTID then ctid else clear_child_tid t)
    (if has flags CLONE_CHILD_SETTID then ctid else set_child_tid t).

(** Writing the thread id; a failing write is ignored. *)
Definition write_tid (flags flag addr tid : Z) : sys unit :=
  if has flags flag then _ ← on_memory (fun m => TryWriteMemory m addr (le_bytes 4 tid)); mret tt else mret tt.

(** [DoClone] from the creation of the thread on. *)
Definition clone_thread (state : ptr) (child_stack flags ptid newtls ctid : Z) : sys status :=
  s ← read_state state;
  ret_addr ← on_memory (fun m => GetReturnAddress syscall m s (GetPC syscall s));
  parent ← vmill_current;
  child ← create_thread parent ret_addr;
  p ← read_task parent;
  modify_task child (fun t => child_task p t ret_addr child_stack flags ctid);;
  c ← read_task child;
  write_tid flags CLONE_PARENT_SETTID ptid (tid c);;
  write_tid flags CLONE_CHILD_SETTID ctid (tid c);;
  SetReturn syscall child 0;;
  SetReturn syscall state (tid c);;
  if has flags CLONE_SETTLS then set_tls child newtls else mret Returned.

Definition DoClone (state : ptr) (child_stack flags ptid newtls ctid : Z) : sys status :=
  if wants_process flags then set_location 0 kTaskStoppedAtExit;; mret Returned
  else if has flags CLONE_THREAD && negb (has flags CLONE_SIGHAND) then Return syscall state (- EINVAL)
  else if has flags CLONE_SIGHAND && negb (has flags CLONE_VM) then Return syscall state (- EINVAL)
  else
    ok ← clone_can_write flags CLONE_PARENT_SETTID ptid;
    if negb ok then Return syscall state (- EFAULT)
    else
      ok ← clone_can_write flags CLONE_CHILD_SETTID ctid;
      if negb ok then Return syscall state (- EFAULT)
      else clone_thread state child_stack flags ptid newtls ctid.

(** The argument orders of x86-64, and of x86 and AArch64. *)
Definition SysCloneA (state : ptr) : sys status :=
  args ← TryGetArgs syscall state 5;
  match args with
  | Some [flags; child_stack; ptid; ctid; newtls] => DoClone state child_stack flags ptid newtls ctid
  | _ => Return syscall state (- EFAULT)
  end.

Definition SysCloneB (state : ptr) : sys status :=
  args ← TryGetArgs syscall state 5;
  match args with
  | Some [flags; child_stack; ptid; newtls; ctid] => DoClone state child_stack flags ptid newtls ctid
  | _ => Return syscall state (- EFAULT)
  end.

Definition SysSetThreadIdAddress (state : ptr) : sys status :=
  args ← TryGetArgs syscall state 1;
  match args with
  | Some [tidptr] =>
      task ← vmill_current;
      modify_task task (fun t => with_child_tids t tidptr (set_child_tid t));;
      t ← read_task task;
      Return syscall state (tid t)
  | _ => Return syscall state (- EFAULT)
  end.

(** [SysExit]: a joiner that waits on [clear_child_tid] is woken. *)
Definition SysExit (state : ptr) : sys status :=
  args ← TryGetArgs syscall state 1;
  (match args with
   | Some [exit_code] => mret tt
   | _ => SetReturn syscall state (- EFAULT)
   end : sys unit);;
  task ← vmill_current;
  t ← read_task task;
  (if negb (clear_child_tid t =? 0)
   then _ ← do_wake task (clear_child_tid t) (two32 - 1) 1; mret tt
   else mret tt : sys unit);;
  t ← read_task task;
  set_location (addr_wrap (pc (base_task t))) kTaskStoppedAtExit;;
  mret Returned.
End clone.

(** [CLONE_SETTLS] on x86, AMD64 and AArch64. *)
Definition x86_set_tls {M H} `{MemoryOps M} (syscall : SystemCallABI M X86State) (child : ptr) (newtls : Z) :
    sys M X86State H status :=
  if addr_bits =? 32 then DoSetThreadArea syscall child newtls
  else modify_state child (fun s => set_base s FS newtls);; mret Returned.

Definition a64_set_tls {M H} (child : ptr) (newtls : Z) : sys M AArch64State H status :=
  modify_state child (fun s => MkAArch64 (xreg s) (pc_reg s) (sp_reg s) newtls (a64_hyper_call s));; mret Returned.

(** ** [arch_prctl] *)

Section prctl.
Context {M H : Type} `{MO : MemoryOps M} (syscall : SystemCallABI M X86State).
Local Abbreviation sys := (SystemCalls.sys M X86State H).

Definition prctl_set (state : ptr) (g : Seg) (addr : Z) : sys status :=
  ok ← ask_memory (fun m => Ok (vmill_can_read_byte m addr));
  if negb ok then Return syscall state (- EPERM)
  else modify_state state (fun s => set_base s g addr);; Return syscall state 0.

Definition prctl_get (state : ptr) (g : Seg) (addr : Z) : sys status :=
  s ← read_state state;
  ok ← on_memory (fun m => TryWriteMemory m addr (le_bytes (Z.to_nat (addr_bits / 8)) (seg_base s g)));
  if negb ok then Return syscall state (- EFAULT) else Return syscall state 0.

Definition SysArchPrctl (state : ptr) : sys status :=
  args ← TryGetArgs syscall state 2;
  match args with
  | Some [code; addr] =>
      let code := as_int code in
      if code =? ARCH_SET_FS then prctl_set state FS addr
      else if code =? ARCH_SET_GS then prctl_set state GS addr
      else if code =? ARCH_GET_FS then prctl_get state FS addr
      else if code =? ARCH_GET_GS then prctl_get state GS addr
      else Return syscall state (- EINVAL)
  | _ => Return syscall state (- EFAULT)
  end.
End prctl.
