(* ===== verification/ThreadProps.v ===== *)
(** * What the thread calls promise *)

From S2P Require Import Prelude GuestMemory MemoryInstance Tasks LinuxTasks SystemCalls ArchAbi Futex FutexProps LinuxMM LinuxThread.

Local Abbreviation ptr := positive.

(** ** Creating a thread *)

(** What [vmill_create_task_spec] leaves open of a new task. *)
Lemma create_task_fresh {St} (o : OS St) s pc memory p o' t :
  vmill_create_task o s pc memory = Ok (p, o') -> tasks o' !! p = Some t ->
  tls_slots t = replicate (Z.to_nat kNumTLSSlots) zero_desc /\ clear_child_tid t = 0 /\ set_child_tid t = 0.
Proof.
  unfold vmill_create_task. intros Hc Ht.
  destruct (gTaskList o) as [hd|].
  - destruct (gLastTask o) as [q|]; [|done]. cbn [deref_opt mbind outcome_bind] in Hc.
    destruct (update_task o q _) as [o1| | |]; try done. cbn [mbind outcome_bind] in Hc. injection Hc as <- <-.
    cbn in Ht. rewrite lookup_insert_eq in Ht. by injection Ht as <-.
  - cbn [mbind outcome_bind] in Hc. injection Hc as <- <-. cbn in Ht. rewrite lookup_insert_eq in Ht. by injection Ht as <-.
Qed.

Section clone.
Context {M St H : Type} `{ML : MemoryLaws M} (syscall : SystemCallABI M St) (set_tls : ptr -> Z -> sys M St H status).
Implicit Types (w : World M St H) (t : linux_task St).

(** A thread id can be stored at [addr]. *)
Record tid_place (m : M) (addr : Z) : Prop := {
  tp_ok : mem_ok m;
  tp_range : 0 <= addr /\ addr + 4 <= mem_limit m;
  tp_page : one_page addr 4;
  tp_mapped : mapped_bytes m addr 4;
  tp_writable : vmill_can_write_byte m addr = true
}.

Definition maybe_stored (b : bool) (m m' : M) (addr tid : Z) : Prop :=
  if b then stored byte m m' addr (le_bytes 4 tid) else m' = m.

Lemma tid_place_can m addr : tid_place m addr -> CanWriteMemory m addr 4 = Ok true.
Proof.
  intros [Hm [Ha Hl] Hp Hmap Hw]. unfold CanWriteMemory, NumWritableBytes. rewrite num_bytes_small by lia.
  rewrite addr_wrap_small by (apply (below_limit m); [done|lia]). cbn [mbind outcome_bind]. by rewrite Hw.
Qed.

Lemma tid_place_stored m m' addr addr' bs :
  mem_ok m' -> mem_limit m' = mem_limit m -> stored byte m m' addr' bs -> tid_place m addr -> tid_place m' addr.
Proof.
  intros Hok Hl (HA & _ & HC) [Hm Hr Hp Hmap Hw]. split; [done|by rewrite Hl|done| |by rewrite HC].
  intros x Hx. rewrite HA. case_decide as Hd; [|by apply Hmap]. apply lookup_lt_is_Some_2. lia.
Qed.

(** One conditional write of the thread id, and its effect on another
    place. *)
Lemma write_tid_step w flags flag addr tid :
  (has flags flag = true -> tid_place (memory w) addr) ->
  exists m', write_tid flags flag addr tid w = Ok (tt, with_memory w m') /\
    maybe_stored (has flags flag) (memory w) m' addr tid /\
    (forall a, tid_place (memory w) a -> tid_place m' a).
Proof.
  intros Hp. unfold write_tid, maybe_stored. destruct (has flags flag) eqn:E.
  2:{ exists (memory w). split; [by destruct w|done]. }
  pose proof (Hp eq_refl) as Hpl. destruct Hpl as [Hm [Ha Hl] Hpg Hmap Hw].
  destruct (TryWriteMemory_spec (le_bytes 4 tid) (memory w) addr) as (ok & m' & Hr & Hm' & Hl' & -> & Hst);
    rewrite ?length_le_bytes; try done; [lia|apply le_bytes_ok|].
  rewrite Hw in Hst. exists m'. split.
  - sys_step (on_memory_step (fun m => TryWriteMemory m addr (le_bytes 4 tid)) w _ _ Hr). done.
  - split; [done|]. intros a. by eapply tid_place_stored.
Qed.

Lemma clone_can_write_step w flags flag addr :
  (has flags flag = true -> tid_place (memory w) addr) -> clone_can_write flags flag addr w = Ok (true, w).
Proof.
  intros Hp. unfold clone_can_write. destruct (has flags flag) eqn:E; [|done].
  apply ask_memory_step. by apply tid_place_can, Hp.
Qed.

(** The flags of a thread that [DoClone] accepts. *)
Definition thread_request (flags : Z) : Prop :=
  wants_process flags = false /\
  (has flags CLONE_THREAD = true -> has flags CLONE_SIGHAND = true) /\
  (has flags CLONE_SIGHAND = true -> has flags CLONE_VM = true).

(** The registers a child starts with. *)
Definition child_state (s : St) (ret_addr child_stack : Z) : St :=
  let s := SetPC syscall s ret_addr in
  DoSetReturn syscall (if child_stack =? 0 then s else SetSP syscall s child_stack) (addr_wrap 0).

(** [tc] is the object of a thread cloned from [t]. *)
Record cloned t tc (tid_ ret_addr child_stack flags ctid : Z) : Prop := {
  cl_state : task_state tc = child_state (task_state t) ret_addr child_stack;
  cl_memory : task_memory tc = task_memory t;
  cl_tid : tid tc = tid_;
  cl_status : Tasks.status (base_task tc) = kTaskStatusRunnable;
  cl_pc : pc (base_task tc) = ret_addr;
  cl_location : location (base_task tc) = kTaskStoppedAfterHyperCall;
  cl_blocked : blocked_count tc = 0;
  cl_slots : tls_slots tc = replicate (Z.to_nat kNumTLSSlots) zero_desc;
  cl_clear : clear_child_tid tc = if has flags CLONE_CHILD_CLEARTID then ctid else 0;
  cl_set : set_child_tid tc = if has flags CLONE_CHILD_SETTID then ctid else 0
}.

Lemma SetReturn_step w p t val :
  tasks (os w) !! p = Some t ->
  SetReturn syscall p val w = Ok (tt, world_task (with_completed w true) p (returned syscall t val)).
Proof.
  intros Ht. unfold SetReturn, modify_state. by rewrite (modify_task_step (with_completed w true) p t) by done.
Qed.

Lemma create_thread_step w p t pc c o :
  tasks (os w) !! p = Some t -> vmill_create_task (os w) (task_state t) pc (task_memory t) = Ok (c, o) ->
  create_thread p pc w = Ok (c, with_os w o).
Proof.
  intros Ht Hc. unfold create_thread. sys_step (read_task_step w p t Ht). unfold on_os. by rewrite Hc.
Qed.

Lemma DoClone_checks w child_stack flags ptid newtls ctid :
  thread_request flags ->
  (has flags CLONE_PARENT_SETTID = true -> tid_place (memory w) ptid) ->
  (has flags CLONE_CHILD_SETTID = true -> tid_place (memory w) ctid) ->
  DoClone syscall set_tls (current w) child_stack flags ptid newtls ctid w =
    clone_thread syscall set_tls (current w) child_stack flags ptid newtls ctid w.
Proof.
  intros (Hw & Ht & Hs) Hp Hc. unfold DoClone. rewrite Hw.
  assert (has flags CLONE_THREAD && negb (has flags CLONE_SIGHAND) = false) as ->.
  { destruct (has flags CLONE_THREAD); [by rewrite Ht|done]. }
  assert (has flags CLONE_SIGHAND && negb (has flags CLONE_VM) = false) as ->.
  { destruct (has flags CLONE_SIGHAND); [by rewrite Hs|done]. }
  sys_step (clone_can_write_step w flags CLONE_PARENT_SETTID ptid Hp). cbn [negb].
  by sys_step (clone_can_write_step w flags CLONE_CHILD_SETTID ctid Hc).
Qed.

(** The part of [clone_thread] before [CLONE_SETTLS]. *)
Lemma clone_thread_spec w l t ret_addr child_stack flags ptid newtls ctid :
  os_ok (os w) l -> tasks (os w) !! current w = Some t ->
  GetReturnAddress syscall (memory w) (task_state t) (GetPC syscall (task_state t)) = Ok (ret_addr, memory w) ->
  (has flags CLONE_PARENT_SETTID = true -> tid_place (memory w) ptid) ->
  (has flags CLONE_CHILD_SETTID = true -> tid_place (memory w) ctid) ->
  exists child w' m tc,
    clone_thread syscall set_tls (current w) child_stack flags ptid newtls ctid w =
      (if has flags CLONE_SETTLS then set_tls child newtls else mret Returned) w' /\
    current w' = current w /\ completed w' = true /\ host w' = host w /\
    os_ok (os w') (child :: l) /\ ~ child ∈ l /\
    tasks (os w') !! child = Some tc /\ cloned t tc (gNextTid (os w)) ret_addr child_stack flags ctid /\
    (forall q u, tasks (os w) !! q = Some u -> exists u', tasks (os w') !! q = Some u' /\
       u' = with_circular (if decide (q = current w) then returned syscall u (gNextTid (os w)) else u) (next_circular u')) /\
    maybe_stored (has flags CLONE_PARENT_SETTID) (memory w) m ptid (gNextTid (os w)) /\
    maybe_stored (has flags CLONE_CHILD_SETTID) m (memory w') ctid (gNextTid (os w)).
Proof.
  intros Hok Ht Hra Hpp Hcp. set (p := current w) in *. unfold clone_thread.
  sys_step (read_state_step w p t Ht).
  sys_step (on_memory_step (fun m => GetReturnAddress syscall m (task_state t) (GetPC syscall (task_state t))) w _ _ Hra).
  replace (with_memory w (memory w)) with w by (by destruct w). sys_step (current_step w). fold p.
  destruct (vmill_create_task_spec (os w) l (task_state t) ret_addr (task_memory t) Hok)
    as (c & o1 & Hc & Hok1 & Hcl & (tc & Htc & Hb & Hs & Hm & Htid & Hbl & Hfu) & Hoth).
  pose proof (create_task_fresh _ _ _ _ _ _ _ Hc Htc) as (Hsl & Hcc & Hsc).
  sys_step (create_thread_step w p t ret_addr c o1 Ht Hc).
  destruct (Hoth p t Ht) as (t1 & Ht1 & Et1). assert (Hpc : p <> c).
  { intros ->. apply Hcl. apply (os_dom _ _ Hok). by exists t. }
  sys_step (read_task_step (with_os w o1) p t1 Ht1).
  set (f := fun t0 => child_task syscall t1 t0 ret_addr child_stack flags ctid).
  sys_step (modify_task_step (with_os w o1) c tc f Htc). set (w1 := world_task (with_os w o1) c (f tc)).
  sys_step (read_task_step w1 c (f tc) (world_task_lookup _ _ _)).
  assert (Hftid : tid (f tc) = gNextTid (os w)) by done. rewrite Hftid.
  destruct (write_tid_step w1 flags CLONE_PARENT_SETTID ptid (gNextTid (os w)) Hpp) as (m1 & Hw1 & Hst1 & Hkeep).
  sys_step Hw1.
  destruct (write_tid_step (with_memory w1 m1) flags CLONE_CHILD_SETTID ctid (gNextTid (os w))) as (m2 & Hw2 & Hst2 & _).
  { intros E. apply Hkeep. by apply Hcp. }
  sys_step Hw2. set (w2 := with_memory (with_memory w1 m1) m2).
  assert (Hw2c : tasks (os w2) !! c = Some (f tc)) by apply world_task_lookup.
  sys_step (SetReturn_step w2 c (f tc) 0 Hw2c).
  set (w3 := world_task (with_completed w2 true) c (returned syscall (f tc) 0)).
  assert (Hw3p : tasks (os w3) !! p = Some t1).
  { unfold w3, w2, w1. cbn. rewrite !lookup_insert_ne by done. done. }
  sys_step (SetReturn_step w3 p t1 (gNextTid (os w)) Hw3p).
  set (w4 := world_task (with_completed w3 true) p (returned syscall t1 (gNextTid (os w)))).
  exists c, w4, m1, (returned syscall (f tc) 0). split; [done|]. split; [done|]. split; [done|]. split; [done|].
  split.
  { unfold w4, w3, w2, w1, world_task. cbn [with_os with_completed with_memory os].
    eapply os_ok_put; [eapply os_ok_put; [eapply os_ok_put; [exact Hok1|exact Htc|done]|apply lookup_insert_eq|done]|exact Hw3p|done]. }
  split; [done|]. split; [|split; [|split; [|done]]].
  - unfold w4. cbn. rewrite lookup_insert_ne by done. apply lookup_insert_eq.
  - split; cbn; rewrite ?Hs, ?Hm, ?Hcc, ?Hsc; try done.
    by rewrite Hb.
  - intros q u Hq. destruct (Hoth q u Hq) as (u1 & Hu1 & Eu1). unfold w4. cbn. case_decide as Hd.
    + subst q. rewrite lookup_insert_eq. eexists. split; [done|]. assert (u1 = t1) as -> by congruence.
      unfold returned, with_state, with_circular in *. cbn. rewrite Eu1. cbn. done.
    + rewrite lookup_insert_ne by done. unfold w3, w2, w1. cbn.
      assert (c <> q) by (intros <-; apply Hcl; apply (os_dom _ _ Hok); by exists u).
      rewrite !lookup_insert_ne by done. exists u1. done.
Qed.
End clone.

(** ** TLS descriptors *)

Section tls.
Context {M H : Type} `{MO : MemoryOps M} (syscall : SystemCallABI M X86State).
Implicit Types (w : World M X86State H) (t : linux_task X86State) (s : X86State).

Definition dword_base s g : Z := wrap32 (seg_base s g).

Lemma set_base_dword_base s g v g' :
  dword_base (set_base_dword s g v) g' = if decide (g' = g) then wrap32 v else dword_base s g'.
Proof.
  unfold dword_base, set_base_dword, set_base. cbn. case_decide; [|done]. unfold wrap32.
  rewrite Zplus_mod, Zminus_mod, Zmod_mod, Z.sub_diag, Zmod_0_l, Z.add_0_l, !Zmod_mod. done.
Qed.

Lemma update_bases_base s index base g :
  dword_base (update_bases s index base) g = if seg_index s g =? index then wrap32 base else dword_base s g.
Proof.
  unfold update_bases.
  assert (Hgen : forall gs s0, NoDup gs -> (forall g, seg_index s0 g = seg_index s g) ->
    dword_base (foldl (fun s g => if seg_index s g =? index then set_base_dword s g base else s) s0 gs) g =
      if decide (g ∈ gs /\ seg_index s g = index) then wrap32 base else dword_base s0 g).
  { induction gs as [|h gs IH]; intros s0 Hnd Hi; cbn [foldl].
    { rewrite decide_False; [done|]. by intros [?%elem_of_nil _]. }
    apply NoDup_cons in Hnd as [Hh Hnd]. rewrite IH; [|done|intros g0; destruct (_ =? _); cbn; apply Hi].
    destruct (Z.eqb_spec (seg_index s0 h) index) as [E|E]; rewrite Hi in E.
    - rewrite set_base_dword_base. repeat case_decide; try done; set_solver.
    - repeat case_decide; try done; set_solver. }
  rewrite Hgen; [|by vm_compute; repeat constructor; set_solver|done].
  destruct (Z.eqb_spec (seg_index s g) index) as [E|E]; [rewrite decide_True|rewrite decide_False]; try done.
  - split; [destruct g; set_solver|done].
  - by intros [_ ?].
Qed.

Lemma DoSetThreadArea_step w state addr bs m :
  TryReadMemory (memory w) addr user_desc_size = Ok (Some bs, m) ->
  desc_refused (user_desc_of bs) = false ->
  kLinuxMinIndexForTLSInGDT <= entry_number (user_desc_of bs) <= kLinuxMaxIndexForTLSInGDT ->
  DoSetThreadArea syscall state addr w =
    install_thread_area syscall state (user_desc_of bs) (entry_number (user_desc_of bs)) (with_memory w m).
Proof.
  intros Hr Href Hi. unfold DoSetThreadArea.
  sys_step (on_memory_step (fun m => TryReadMemory m addr user_desc_size) w _ _ Hr). rewrite Href.
  unfold kLinuxMinIndexForTLSInGDT, kLinuxMaxIndexForTLSInGDT, two32 in *.
  destruct (Z.eqb_spec (entry_number (user_desc_of bs)) (4294967296 - 1)) as [E|_]; [lia|]. cbn [negb].
  destruct (Z.ltb_spec (entry_number (user_desc_of bs)) 12); [lia|].
  destruct (Z.ltb_spec 14 (entry_number (user_desc_of bs))); [lia|]. done.
Qed.

(** The slot that receives a descriptor is the current task's, whichever
    registers the call works on. *)
Definition slotted t (info : user_desc) (index : Z) : linux_task X86State :=
  with_slots t (<[Z.to_nat (index - kLinuxMinIndexForTLSInGDT) := with_entry info index]> (tls_slots t)).

Definition rebased t (info : user_desc) (index : Z) : linux_task X86State :=
  with_state t (update_bases (task_state t) index (base_addr info)).

Lemma install_own w t info index :
  tasks (os w) !! current w = Some t ->
  install_thread_area syscall (current w) info index w =
    Ok (Returned, world_task (with_completed w true) (current w) (returned syscall (slotted (rebased t info index) info index) 0)).
Proof.
  intros Ht. unfold install_thread_area, modify_state.
  sys_step (modify_task_step w _ t (fun t => with_state t (update_bases (task_state t) index (base_addr info))) Ht).
  sys_step (current_step (world_task w (current w) (rebased t info index))).
  sys_step (modify_task_step _ _ _ (fun t => slotted t info index) (world_task_lookup w (current w) (rebased t info index))).
  rewrite world_task_twice. erewrite Return_step by apply world_task_lookup. by rewrite world_task_completed.
Qed.

Lemma install_other w state t tc info index :
  state <> current w -> tasks (os w) !! state = Some t -> tasks (os w) !! current w = Some tc ->
  exists w', install_thread_area syscall state info index w = Ok (Returned, w') /\ memory w' = memory w /\
    tasks (os w') !! state = Some (returned syscall (rebased t info index) 0) /\
    tasks (os w') !! current w = Some (slotted tc info index).
Proof.
  intros Hne Ht Htc. unfold install_thread_area, modify_state.
  sys_step (modify_task_step w _ t (fun t => with_state t (update_bases (task_state t) index (base_addr info))) Ht).
  set (w1 := world_task w state _). sys_step (current_step w1).
  assert (Htc1 : tasks (os w1) !! current w1 = Some tc) by (unfold w1; cbn; by rewrite lookup_insert_ne).
  sys_step (modify_task_step w1 _ tc (fun t => slotted t info index) Htc1).
  set (w2 := world_task w1 (current w1) _).
  assert (Ht2 : tasks (os w2) !! state = Some (rebased t info index)).
  { unfold w2, w1. cbn. rewrite lookup_insert_ne by done. apply lookup_insert_eq. }
  rewrite (Return_step syscall w2 state (rebased t info index) 0 Ht2). eexists. split; [done|]. split; [done|]. split; cbn.
  - apply lookup_insert_eq.
  - rewrite lookup_insert_ne by done. apply lookup_insert_eq.
Qed.

(** Loading a selector reads the current task's slot. *)
Lemma set_segment_base_step w g t d :
  tasks (os w) !! current w = Some t ->
  kLinuxMinIndexForTLSInGDT <= seg_index (task_state t) g <= kLinuxMaxIndexForTLSInGDT ->
  tls_slots t !! Z.to_nat (seg_index (task_state t) g - kLinuxMinIndexForTLSInGDT) = Some d ->
  set_segment_base (current w) g w =
    Ok (tt, world_task w (current w) (with_state t (set_base_dword (task_state t) g (base_addr d)))).
Proof.
  intros Ht Hi Hd. unfold set_segment_base. sys_step (current_step w).
  sys_step (read_task_step w _ t Ht). sys_step (read_state_step w _ t Ht).
  destruct (Z.leb_spec kLinuxMinIndexForTLSInGDT (seg_index (task_state t) g)); [|lia].
  destruct (Z.leb_spec (seg_index (task_state t) g) kLinuxMaxIndexForTLSInGDT); [|lia]. cbn [andb].
  rewrite Hd. cbn [deref_opt]. unfold mbind at 1, sys_bind at 1, stop at 1. cbn [mbind outcome_bind].
  unfold modify_state. by rewrite (modify_task_step w _ t) by done.
Qed.
End tls.

(** ** The theorems *)

(** *** A concrete system *)

Definition x86_state : X86State := MkX86 (fun r => match r with RIP => 4242 | RSP => 9000 | _ => 7 end) (fun _ => 0) (fun _ => 0) kX86IntN 128.

Definition one_thread : outcome (ptr * OS X86State) :=
  vmill_create_task (vmill_init (MkOS ∅ None None 0 1%positive)) x86_state 4242 1%positive.
Definition os1 : OS X86State :=
  match one_thread with Ok (_, o) => o | _ => vmill_init (MkOS ∅ None None 0 1%positive) end.

Lemma os1_ok : os_ok os1 [1%positive] /\ exists t, tasks os1 !! 1%positive = Some t /\ task_state t = x86_state.
Proof.
  destruct (vmill_create_task_spec (vmill_init (MkOS ∅ None None 0 1%positive)) [] x86_state 4242 1%positive)
    as (p & o & E & Hok & _ & (t & Ht & _ & Hs & _) & _); [by apply vmill_init_ok|].
  fold one_thread in E. unfold os1. rewrite E. assert (p = 1%positive) as -> by (vm_compute in E; by injection E).
  split; [done|]. by exists t.
Qed.

(** A flat 32-bit data segment at 0x1000, entry 12, in guest memory. *)
Definition tls_bytes : list Z := le_bytes 4 12 ++ le_bytes 4 4096 ++ le_bytes 4 1048575 ++ le_bytes 4 81.
Definition tls_mem : Mem false 64 := match TryWriteMemory demo_mem 4096 tls_bytes with Ok (_, m) => m | _ => demo_mem end.
Definition tls_mem' : Mem false 64 := match TryReadMemory tls_mem 4096 16 with Ok (_, m) => m | _ => tls_mem end.

Lemma tls_mem_read : TryReadMemory tls_mem 4096 user_desc_size = Ok (Some tls_bytes, tls_mem').
Proof. vm_compute. reflexivity. Qed.

Definition thread_world : World (Mem false 64) X86State unit := MkWorld tls_mem os1 1%positive false ∅ tt.

(** C24: [clone] creates a thread: a request that passes the checks, with
    places for the thread id that can be written, puts a new task in front of
    the list; the child shares the parent's memory, has the parent's registers
    except for the program counter, the given stack and the result 0, resumes
    after the call and remembers the address to clear on exit; the parent's
    result is the child's thread id, which is also stored where the flags ask
    for it; the other tasks stay as they are; and what is left to do is
    [CLONE_SETTLS]. *)
Theorem clone_creates_thread {M St H} `{ML : MemoryLaws M} (syscall : SystemCallABI M St)
    (set_tls : ptr -> Z -> sys M St H status) (w : World M St H) l t ret_addr child_stack flags ptid newtls ctid :
  thread_request flags -> os_ok (os w) l -> tasks (os w) !! current w = Some t ->
  GetReturnAddress syscall (memory w) (task_state t) (GetPC syscall (task_state t)) = Ok (ret_addr, memory w) ->
  (has flags CLONE_PARENT_SETTID = true -> tid_place (memory w) ptid) ->
  (has flags CLONE_CHILD_SETTID = true -> tid_place (memory w) ctid) ->
  exists child w' m tc,
    DoClone syscall set_tls (current w) child_stack flags ptid newtls ctid w =
      (if has flags CLONE_SETTLS then set_tls child newtls else mret Returned) w' /\
    current w' = current w /\ completed w' = true /\ host w' = host w /\
    os_ok (os w') (child :: l) /\ ~ child ∈ l /\
    tasks (os w') !! child = Some tc /\ cloned syscall t tc (gNextTid (os w)) ret_addr child_stack flags ctid /\
    (forall q u, tasks (os w) !! q = Some u -> exists u', tasks (os w') !! q = Some u' /\
       u' = with_circular (if decide (q = current w) then returned syscall u (gNextTid (os w)) else u) (next_circular u')) /\
    maybe_stored (has flags CLONE_PARENT_SETTID) (memory w) m ptid (gNextTid (os w)) /\
    maybe_stored (has flags CLONE_CHILD_SETTID) m (memory w') ctid (gNextTid (os w)).
Proof. intros Hreq Hok Ht Hra Hp Hc. rewrite DoClone_checks by done. by eapply clone_thread_spec. Qed.

(** The flags of [pthread_create] without the thread id. *)
Definition pthread_flags : Z :=
  Z.lor CLONE_VM (Z.lor CLONE_FS (Z.lor CLONE_FILES (Z.lor CLONE_SIGHAND (Z.lor CLONE_THREAD CLONE_CHILD_CLEARTID)))).

Lemma clone_creates_thread_witness :
  exists child w' tc,
    DoClone (Amd64SyscallSystemCall (M := Mem false 64)) (x86_set_tls Amd64SyscallSystemCall) 1%positive 8192 pthread_flags 0 0 5000 thread_world =
      Ok (Returned, w') /\ os_ok (os w') [child; 1%positive] /\
    tasks (os w') !! child = Some tc /\ gpr (task_state tc) RSP = 8192 /\ gpr (task_state tc) RAX = 0 /\
    clear_child_tid tc = 5000.
Proof.
  destruct os1_ok as (Hok & t & Ht & Hs).
  destruct (clone_creates_thread (Amd64SyscallSystemCall (M := Mem false 64)) (x86_set_tls Amd64SyscallSystemCall)
    thread_world [1%positive] t 4242 8192 pthread_flags 0 0 5000) as (child & w' & m & tc & Hd & _ & _ & _ & Hok' & _ & Hc & Hcl & _).
  - split; [reflexivity|]. split; intros _; reflexivity.
  - exact Hok.
  - exact Ht.
  - rewrite Hs. reflexivity.
  - intros E. discriminate E.
  - intros E. discriminate E.
  - exists child, w', tc. split; [exact Hd|]. split; [exact Hok'|]. split; [exact Hc|].
    rewrite (cl_state _ _ _ _ _ _ _ _ Hcl), Hs. split; [vm_compute; reflexivity|]. split; [vm_compute; reflexivity|].
    rewrite (cl_clear _ _ _ _ _ _ _ _ Hcl). reflexivity.
Defined.

(** [set_thread_area] takes effect: a valid descriptor with an explicit
    entry is accepted with result 0, the bases of exactly those segment
    registers that select the entry change, and whenever the task later
    loads a selector of that entry, it gets the base of the descriptor. *)
Theorem set_thread_area_loads {M H} `{MO : MemoryOps M} (w : World M X86State H) t addr bs m :
  let info := user_desc_of bs in
  let index := entry_number info in
  tasks (os w) !! current w = Some t -> length (tls_slots t) = 3%nat ->
  TryReadMemory (memory w) addr user_desc_size = Ok (Some bs, m) -> desc_refused info = false ->
  kLinuxMinIndexForTLSInGDT <= index <= kLinuxMaxIndexForTLSInGDT ->
  exists w1 t1, DoSetThreadArea X86Int0x80SystemCall (current w) addr w = Ok (Returned, w1) /\
    tasks (os w1) !! current w = Some t1 /\ gpr (task_state t1) RAX = 0 /\
    (forall g, dword_base (task_state t1) g =
       if seg_index (task_state t) g =? index then wrap32 (base_addr info) else dword_base (task_state t) g) /\
    (forall g (w2 : World M X86State H) t2,
       current w2 = current w -> tasks (os w2) !! current w = Some t2 -> tls_slots t2 = tls_slots t1 ->
       seg_index (task_state t2) g = index ->
       exists w3 t3, set_segment_base (current w) g w2 = Ok (tt, w3) /\ tasks (os w3) !! current w = Some t3 /\
         dword_base (task_state t3) g = wrap32 (base_addr info)).
Proof.
  intros info index Ht Hlen Hr Href Hi.
  assert (Hslot : (Z.to_nat (index - kLinuxMinIndexForTLSInGDT) < length (tls_slots t))%nat).
  { rewrite Hlen. unfold kLinuxMinIndexForTLSInGDT, kLinuxMaxIndexForTLSInGDT in Hi |- *. lia. }
  rewrite (DoSetThreadArea_step _ w (current w) addr bs m Hr Href Hi).
  change (current w) with (current (with_memory w m)). rewrite (install_own _ (with_memory w m) t) by done.
  eexists _, _. split; [done|]. split; [apply world_task_lookup|]. split.
  { unfold returned, slotted, rebased. cbn. rewrite decide_True by done. unfold addr_wrap. by rewrite Zmod_0_l. }
  split; [intros g; apply update_bases_base|].
  intros g w2 t2 Hc Ht2 Hs Hg. cbn [current with_memory] in *. rewrite <- Hc in Ht2 |- *.
  rewrite (set_segment_base_step w2 g t2 (with_entry info index)).
  - eexists _, _. split; [done|]. split; [apply world_task_lookup|]. cbn. rewrite set_base_dword_base.
    by rewrite decide_True.
  - done.
  - by rewrite Hg.
  - rewrite Hs, Hg. by apply list_lookup_insert_eq.
Qed.

Lemma set_thread_area_loads_witness :
  exists w1 t1, DoSetThreadArea X86Int0x80SystemCall 1%positive 4096 thread_world = Ok (Returned, w1) /\
    tasks (os w1) !! 1%positive = Some t1 /\ gpr (task_state t1) RAX = 0.
Proof.
  destruct os1_ok as (Hok & t & Ht & Hs).
  assert (Hl : length (tls_slots t) = 3%nat) by (vm_compute in Ht; injection Ht as <-; reflexivity).
  destruct (set_thread_area_loads thread_world t 4096 tls_bytes tls_mem' Ht Hl) as (w1 & t1 & H1 & H2 & H3 & _).
  - exact tls_mem_read.
  - reflexivity.
  - vm_compute. split; congruence.
  - exists w1, t1. split; [exact H1|]. split; [exact H2|exact H3].
Defined.

(** The TLS of a new 32-bit thread is lost: [CLONE_SETTLS] loads the
    child's segment registers that already select the entry, but files the
    descriptor in the slots of the task that called [clone], so that when the child
    loads the selector itself it gets a base of zero. *)
Theorem clone_tls_lost {M H} `{MO : MemoryOps M} (w : World M X86State H) child tc tp addr bs m :
  let info := user_desc_of bs in
  let index := entry_number info in
  addr_bits = 32 -> child <> current w ->
  tasks (os w) !! child = Some tc -> tls_slots tc = replicate (Z.to_nat kNumTLSSlots) zero_desc ->
  tasks (os w) !! current w = Some tp -> length (tls_slots tp) = 3%nat ->
  TryReadMemory (memory w) addr user_desc_size = Ok (Some bs, m) -> desc_refused info = false ->
  kLinuxMinIndexForTLSInGDT <= index <= kLinuxMaxIndexForTLSInGDT ->
  exists w1 tc1 tp1, x86_set_tls X86Int0x80SystemCall child addr w = Ok (Returned, w1) /\
    tasks (os w1) !! child = Some tc1 /\ gpr (task_state tc1) RAX = 0 /\
    tasks (os w1) !! current w = Some tp1 /\
    tls_slots tp1 !! Z.to_nat (index - kLinuxMinIndexForTLSInGDT) = Some info /\
    (forall g (w2 : World M X86State H) t2,
       current w2 = child -> tasks (os w2) !! child = Some t2 -> tls_slots t2 = tls_slots tc1 ->
       seg_index (task_state t2) g = index ->
       exists w3 t3, set_segment_base child g w2 = Ok (tt, w3) /\ tasks (os w3) !! child = Some t3 /\
         dword_base (task_state t3) g = 0).
Proof.
  intros info index Hbits Hne Htc Hslots Htp Hlen Hr Href Hi.
  assert (Hn : (Z.to_nat (index - kLinuxMinIndexForTLSInGDT) < 3)%nat).
  { unfold kLinuxMinIndexForTLSInGDT, kLinuxMaxIndexForTLSInGDT in Hi |- *. lia. }
  unfold x86_set_tls. rewrite Hbits. cbn [Z.eqb Pos.eqb].
  rewrite (DoSetThreadArea_step _ w child addr bs m Hr Href Hi). fold info. fold index.
  destruct (install_other X86Int0x80SystemCall (with_memory w m) child tc tp info index) as (w1 & -> & _ & Hc & Hp); [done..|].
  eexists w1, _, _. split; [done|]. split; [exact Hc|]. split.
  { unfold returned. cbn. rewrite decide_True by done. unfold addr_wrap. by rewrite Zmod_0_l. }
  split; [exact Hp|]. split.
  { cbn. rewrite list_lookup_insert_eq by (by rewrite Hlen). done. }
  intros g w2 t2 <- Ht2 Hs Hg.
  rewrite (set_segment_base_step w2 g t2 zero_desc).
  - eexists _, _. split; [done|]. split; [apply world_task_lookup|]. cbn. rewrite set_base_dword_base.
    by rewrite decide_True.
  - done.
  - by rewrite Hg.
  - rewrite Hs, Hg. cbn [returned rebased with_state tls_slots]. rewrite Hslots. by apply lookup_replicate_2.
Qed.

(** A parent, the first task, and its child on a 32-bit machine. *)
Definition tls_mem32 : Mem false 32 :=
  match TryWriteMemory (MkMem (mheap demo_mem) (mspace demo_mem) None : Mem false 32) 4096 tls_bytes with
  | Ok (_, m) => m
  | _ => MkMem (mheap demo_mem) (mspace demo_mem) None
  end.
Definition tls_mem32' : Mem false 32 := match TryReadMemory tls_mem32 4096 16 with Ok (_, m) => m | _ => tls_mem32 end.

Definition os_child : OS X86State :=
  match vmill_create_task os1 x86_state 4242 1%positive with Ok (_, o) => o | _ => os1 end.
Definition clone_world : World (Mem false 32) X86State unit := MkWorld tls_mem32 os_child 1%positive false ∅ tt.

Lemma clone_tls_lost_witness :
  exists w1 tp1, x86_set_tls X86Int0x80SystemCall 2%positive 4096 clone_world = Ok (Returned, w1) /\
    tasks (os w1) !! 1%positive = Some tp1 /\ tls_slots tp1 !! 0%nat = Some (user_desc_of tls_bytes).
Proof.
  destruct os1_ok as (Hok & _).
  destruct (vmill_create_task_spec os1 _ x86_state 4242 1%positive Hok) as (p & o & E & Hok2 & _ & (tc & Htc & _) & _).
  assert (p = 2%positive /\ os_child = o) as [-> Eo].
  { unfold os_child. rewrite E. split; [|reflexivity]. vm_compute in E. by injection E. }
  destruct (os_ok_lookup o _ 1%nat 1%positive Hok2 eq_refl) as [tp Htp].
  destruct (create_task_fresh _ _ _ _ _ _ _ E Htc) as (Hs & _). rewrite <- Eo in Htc, Htp.
  assert (Hl : length (tls_slots tp) = 3%nat) by (vm_compute in Htp; injection Htp as <-; reflexivity).
  assert (Hr : TryReadMemory (memory clone_world) 4096 user_desc_size = Ok (Some tls_bytes, tls_mem32')) by (vm_compute; reflexivity).
  destruct (clone_tls_lost clone_world 2%positive tc tp 4096 tls_bytes tls_mem32') as (w1 & tc1 & tp1 & H1 & _ & _ & H2 & H3 & _);
    [reflexivity|discriminate|exact Htc|exact Hs|exact Htp|exact Hl|exact Hr|reflexivity|vm_compute; split; congruence|].
  exists w1, tp1. split; [exact H1|]. split; [exact H2|exact H3].
Defined.

(** C30: a thread that exits wakes its joiner: the first task of the ring
    that is blocked on the exiting thread's [clear_child_tid], in the same
    address space, is unblocked, the thread is exited, and nothing else
    changes: guest memory is not written, although the word at that address
    is what the joiner looks at. *)
Theorem exit_wakes_joiner {M St H} `{MO : MemoryOps M} (syscall : SystemCallABI M St) (w : World M St H) l i t code :
  os_ok (os w) l -> l !! i = Some (current w) -> tasks (os w) !! current w = Some t -> clear_child_tid t <> 0 ->
  TryGetArgs syscall (current w) 1 w = Ok (Some [code], w) ->
  let woken := take 1 (filter (waiting (os w) t (clear_child_tid t) (two32 - 1)) (others l i)) in
  exists w' t', SysExit syscall (current w) w = Ok (Returned, w') /\
    memory w' = memory w /\ host w' = host w /\ os_ok (os w') l /\
    tasks (os w') !! current w = Some t' /\ Tasks.status (base_task t') = kTaskStatusExited /\
    location (base_task t') = kTaskStoppedAtExit /\
    forall q u, q <> current w -> tasks (os w) !! q = Some u ->
      tasks (os w') !! q = Some (if decide (q ∈ woken) then with_blocked u 0 else u).
Proof.
  intros Hok Hi Ht Hne Hargs woken. set (p := current w) in *.
  assert (Hpw : ~ p ∈ woken).
  { intros Hin. assert (p ∈ others l i) as Ho.
    { unfold woken in Hin. apply elem_of_take in Hin as (k & Hk & _). apply list_elem_of_lookup_2 in Hk.
      by apply list_elem_of_filter in Hk as [_ ?]. }
    pose proof (os_nodup _ _ Hok) as Hnd. rewrite (others_perm l i p Hi) in Hnd. by apply NoDup_cons in Hnd as [? _]. }
  unfold SysExit. fold p in Hargs. sys_step Hargs.
  unfold mbind at 1, sys_bind at 1. cbn [mret sys_ret].
  sys_step (current_step w). fold p. sys_step (read_task_step w p t Ht).
  destruct (Z.eqb_spec (clear_child_tid t) 0); [done|]. cbn [negb].
  assert (Hd : DoWake (os w) p (clear_child_tid t) (two32 - 1) 1 = Ok (Z.of_nat (length woken), unblock (os w) woken)).
  { unfold DoWake. rewrite (get_task_Some _ _ _ Ht). cbn [mbind outcome_bind]. rewrite (os_size _ _ Hok).
    pose proof (others_perm l i p Hi) as Hperm. pose proof (os_nodup _ _ Hok) as Hnd. rewrite Hperm in Hnd.
    apply NoDup_cons in Hnd as [Hnin Hnd].
    rewrite (wake_loop_spec (others l i) (length l) (os w) p t); [done|done|done|by eapply ring_path_others|done| |by left].
    apply Permutation_length in Hperm. cbn in Hperm. lia. }
  set (w1 := with_os w (unblock (os w) woken)).
  assert (Hw1 : do_wake p (clear_child_tid t) (two32 - 1) 1 w = Ok (Z.of_nat (length woken), w1)) by (unfold do_wake; by rewrite Hd).
  unfold mbind at 1, sys_bind at 1. sys_step Hw1. cbn [mret sys_ret].
  assert (Ht1 : tasks (os w1) !! p = Some t) by (unfold w1; cbn; rewrite (unblock_lookup _ _ _ _ Ht); by rewrite decide_False).
  sys_step (read_task_step w1 p t Ht1). unfold set_location.
  unfold mbind at 1, sys_bind at 1. sys_step (current_step w1). change (current w1) with p.
  rewrite (modify_task_step w1 p t _ Ht1). eexists _, _. split; [done|].
  split; [done|]. split; [done|]. split.
  { eapply os_ok_put; [by apply unblock_ok|exact Ht1|done]. }
  split; [apply world_task_lookup|]. split; [done|]. split; [done|].
  intros q u Hq Hu. cbn. rewrite lookup_insert_ne by done. by apply unblock_lookup.
Qed.

(** The first of three tasks exits; the others wait on its address 64. *)
Definition unit_abi : SystemCallABI (Mem false 64) unit :=
  MkABI (fun _ => 0) (fun s _ => s) (fun s _ => s) (fun _ => 0) (fun m _ a => Ok (a, m)) (fun s _ => s)
    (fun _ _ _ => Ok true) (fun m _ _ => Ok (0, m)).
Definition exit_os : OS unit :=
  match update_task waiting_os 3%positive (fun t => with_child_tids t 64 0) with Ok o => o | _ => waiting_os end.
Definition exit_world : World (Mem false 64) unit unit := MkWorld demo_mem exit_os 3%positive false ∅ tt.

Lemma exit_wakes_joiner_witness :
  exists w' u, SysExit unit_abi 3%positive exit_world = Ok (Returned, w') /\
    tasks exit_os !! 2%positive = Some u /\ blocked_count u = 100 /\
    tasks (os w') !! 2%positive = Some (with_blocked u 0).
Proof.
  destruct (os_ok_lookup waiting_os _ 0%nat 3%positive waiting_os_ok eq_refl) as [s Hs].
  assert (E : exit_os = put_task waiting_os 3%positive (with_child_tids s 64 0)).
  { unfold exit_os, update_task. by rewrite (get_task_Some _ _ _ Hs). }
  assert (Hok : os_ok exit_os [3; 2; 1]%positive) by (rewrite E; eapply os_ok_put; [apply waiting_os_ok|exact Hs|done]).
  destruct (os_ok_lookup exit_os _ 0%nat 3%positive Hok eq_refl) as [t Ht].
  destruct (os_ok_lookup exit_os _ 1%nat 2%positive Hok eq_refl) as [u Hu].
  destruct (exit_wakes_joiner unit_abi exit_world [3; 2; 1]%positive 0 t 0 Hok eq_refl Ht)
    as (w' & t' & Hx & _ & _ & _ & _ & _ & _ & Hall).
  - vm_compute in Ht. injection Ht as <-. discriminate.
  - reflexivity.
  - exists w', u. split; [exact Hx|]. split; [exact Hu|]. split; [vm_compute in Hu; injection Hu as <-; reflexivity|].
    rewrite (Hall 2%positive u ltac:(discriminate) Hu). vm_compute in Ht. injection Ht as <-. reflexivity.
Defined.
