(* ===== verification/LinuxSys.v ===== *)
(** * Process, system and clock calls

    [vmill/Runtime/Linux/Process.cpp], [Sys.cpp] (except [SysExit], which is
    with the threads) and [Clock.cpp].  The host's answers are parameters: a
    host object is given by its members, a structure that is copied whole by
    its bytes. *)

From S2P Require Import Prelude GuestMemory Tasks LinuxTasks SystemCalls LinuxMM.

Local Abbreviation ptr := positive.

(** [struct sysinfo] *)
Record HostSysInfo := MkSysInfo {
  uptime : Z;
  load0 : Z; load1 : Z; load2 : Z;
  totalram : Z; freeram : Z; sharedram : Z; bufferram : Z;
  totalswap : Z; freeswap : Z;
  procs : Z;
  totalhigh : Z; freehigh : Z;
  mem_unit : Z
}.

(** The host calls of these handlers. *)
Class SysHost (H : Type) := {
  h_kill : Z -> Z -> H -> hostret unit * H;
  h_sethostname : list Z -> H -> hostret unit * H;
  h_uname : H -> hostret (list Z) * H;
  h_getuid : H -> Z * H;
  h_geteuid : H -> Z * H;
  h_getgid : H -> Z * H;
  h_getegid : H -> Z * H;
  h_getrlimit : Z -> H -> hostret (Z * Z) * H;
  h_getresuid : H -> hostret (Z * Z * Z) * H;
  h_getresgid : H -> hostret (Z * Z * Z) * H;
  h_sysinfo : H -> hostret HostSysInfo * H;
  (** Seconds and microseconds; minutes west and daylight saving. *)
  h_gettimeofday : H -> hostret (Z * Z * (Z * Z)) * H;
  h_settimeofday : option (Z * Z) -> option (Z * Z) -> H -> hostret unit * H;
  h_clock_gettime : Z -> H -> hostret (Z * Z) * H;
  h_clock_getres : Z -> H -> hostret (Z * Z) * H;
  h_time : H -> hostret Z * H
}.

Definition HOST_NAME_MAX : Z := 64.

Section handlers.
Context {M St H : Type} `{MO : MemoryOps M} `{SH : SysHost H} (syscall : SystemCallABI M St).
Local Abbreviation sys := (SystemCalls.sys M St H).

(** [addr_t] in bytes. *)
Definition addr_bytes : nat := Z.to_nat (addr_bits / 8).

(** ** [Process.cpp] *)

Definition SysGetProcessId (state : ptr) : sys status := Return syscall state kProcessId.
Definition SysGetParentProcessId (state : ptr) : sys status := Return syscall state kParentProcessId.
Definition SysGetProcessGroupId (state : ptr) : sys status := Return syscall state kParentProcessGroupId.

Definition SysGetThreadId (state : ptr) : sys status :=
  current ← vmill_current;
  t ← read_task current;
  Return syscall state (tid t).

Definition SysKill (state : ptr) : sys status :=
  args ← TryGetArgs syscall state 2;
  match args with
  | Some [pid; signum] =>
      let pid := as_int pid in
      if (pid =? -1) || (pid =? 0) || (pid =? kProcessId) then Return syscall state 0
      else
        ret ← on_host (h_kill pid (as_int signum));
        match ret with
        | HostErr err => Return syscall state (- err)
        | HostOk _ => Return syscall state 0
        end
  | _ => Return syscall state (- EFAULT)
  end.

(** ** [Sys.cpp] *)

Definition SysSetHostName (state : ptr) : sys status :=
  args ← TryGetArgs syscall state 2;
  match args with
  | Some [name; len] =>
      if HOST_NAME_MAX <? len then Return syscall state (- EINVAL)
      else
        gHostName ← on_memory (fun m => CopyStringFromMemory m name HOST_NAME_MAX);
        if Z.of_nat (length gHostName) <? len then Return syscall state (- ENAMETOOLONG)
        else
          ret ← on_host (h_sethostname (take (Z.to_nat len) gHostName));
          match ret with
          | HostOk _ => Return syscall state 0
          | HostErr err => Return syscall state (- err)
          end
  | _ => Return syscall state (- EFAULT)
  end.

(** The host's structure is what is written; the translated [compat] is not
    used. *)
Definition SysUname (state : ptr) : sys status :=
  args ← TryGetArgs syscall state 1;
  match args with
  | Some [buf] =>
      info ← on_host h_uname;
      match info with
      | HostErr err => Return syscall state (- err)
      | HostOk info =>
          ok ← on_memory (fun m => TryWriteMemory m buf info);
          if (ok : bool) then Return syscall state 0 else Return syscall state (- EFAULT)
      end
  | _ => Return syscall state (- EFAULT)
  end.

Definition SysGetUserId (state : ptr) : sys status := id ← on_host h_getuid; Return syscall state id.
Definition SysGetEffectiveUserId (state : ptr) : sys status := id ← on_host h_geteuid; Return syscall state id.
Definition SysGetGroupId (state : ptr) : sys status := id ← on_host h_getgid; Return syscall state id.
Definition SysGetEffectiveGroupId (state : ptr) : sys status := id ← on_host h_getegid; Return syscall state id.

(** A limit of the host in [n] bytes. *)
Definition compat_limit (n : nat) (limit : Z) : Z := Z.min (256 ^ Z.of_nat n - 1) limit.

(** [n]: the bytes of a member of [T]. *)
Definition SysGetRlimit (n : nat) (state : ptr) : sys status :=
  args ← TryGetArgs syscall state 2;
  match args with
  | Some [resource; rlim_addr] =>
      limit ← on_host (h_getrlimit (as_int resource));
      match limit with
      | HostErr err => Return syscall state (- err)
      | HostOk (rlim_cur, rlim_max) =>
          ok ← on_memory (fun m =>
                 TryWriteMemory m rlim_addr (le_bytes n (compat_limit n rlim_cur) ++ le_bytes n (compat_limit n rlim_max)));
          if negb ok then Return syscall state (- EFAULT) else Return syscall state 0
      end
  | _ => Return syscall state (- EFAULT)
  end.

(** Writing one id, unless its address is null: whether it succeeded. *)
Definition write_id (addr id : Z) : sys bool :=
  if addr =? 0 then mret true else on_memory (fun m => TryWriteMemory m addr (le_bytes 4 id)).

Definition write_ids (state : ptr) (rid eid sid : Z) (ids : hostret (Z * Z * Z)) : sys status :=
  match ids with
  | HostErr err => Return syscall state (- err)
  | HostOk (real, effective, set) =>
      ok ← write_id rid real;
      if negb ok then Return syscall state (- EFAULT)
      else
        ok ← write_id eid effective;
        if negb ok then Return syscall state (- EFAULT)
        else
          ok ← write_id sid set;
          if negb ok then Return syscall state (- EFAULT) else Return syscall state 0
  end.

Definition SysGetRESUserId (state : ptr) : sys status :=
  args ← TryGetArgs syscall state 3;
  match args with
  | Some [rid; eid; sid] => ids ← on_host h_getresuid; write_ids state rid eid sid ids
  | _ => Return syscall state (- EFAULT)
  end.

Definition SysGetRESGroupId (state : ptr) : sys status :=
  args ← TryGetArgs syscall state 3;
  match args with
  | Some [rid; eid; sid] => ids ← on_host h_getresgid; write_ids state rid eid sid ids
  | _ => Return syscall state (- EFAULT)
  end.

(** [linux_sysinfo]: ten words, two halves, padding to the word, two words,
    the unit and padding. *)
Definition sysinfo_high : nat := if addr_bits =? 64 then 88%nat else 44%nat.
Definition sysinfo_size : nat := if addr_bits =? 64 then 112%nat else 56%nat.

(** The assignments to members: offset, width and value.  [loads[1]] is
    assigned twice. *)
Definition sysinfo_members (info : HostSysInfo) : list (nat * nat * Z) :=
  let a := addr_bytes in
  [(0, a, uptime info); (a, a, load0 info); (2 * a, a, load1 info); (2 * a, a, load2 info);
   (4 * a, a, totalram info); (5 * a, a, freeram info); (6 * a, a, sharedram info); (7 * a, a, bufferram info);
   (8 * a, a, totalswap info); (9 * a, a, freeswap info); (10 * a, 2, procs info);
   (sysinfo_high, a, totalhigh info); (sysinfo_high + a, a, freehigh info); (sysinfo_high + 2 * a, 4, mem_unit info)]%nat.

Definition assign_members (bs : list Z) (members : list (nat * nat * Z)) : list Z :=
  foldl (fun bs '(off, n, v) => list_inserts off (le_bytes n v) bs) bs members.

Definition SysGetSysInfo (state : ptr) : sys status :=
  args ← TryGetArgs syscall state 1;
  match args with
  | Some [info_addr] =>
      compat_info ← on_memory (fun m => TryReadMemory m info_addr sysinfo_size);
      match compat_info with
      | None => Return syscall state (- EFAULT)
      | Some compat_info =>
          info ← on_host h_sysinfo;
          match info with
          | HostErr err => Return syscall state (- err)
          | HostOk info =>
              ok ← on_memory (fun m => TryWriteMemory m info_addr (assign_members compat_info (sysinfo_members info)));
              if negb ok then Return syscall state (- EFAULT) else Return syscall state 0
          end
      end
  | _ => Return syscall state (- EFAULT)
  end.

(** ** [Clock.cpp] *)

(** [tv_compat] and [tz_compat] are the host addresses of the two local
    objects: [TryWriteMemory(memory, addr, &object)] is the overload for
    [const T &] with [T] a pointer type, so it stores the address. *)
Definition SysGetTimeOfDay (tv_compat tz_compat : Z) (state : ptr) : sys status :=
  args ← TryGetArgs syscall state 2;
  match args with
  | Some [tv_addr; tz_addr] =>
      ret ← on_host h_gettimeofday;
      match ret with
      | HostErr err => Return syscall state (- err)
      | HostOk _ =>
          let write addr p : sys bool :=
            if addr =? 0 then mret true else on_memory (fun m => TryWriteMemory m addr (le_bytes 8 p)) in
          ok ← write tv_addr tv_compat;
          if negb ok then Return syscall state (- EFAULT)
          else
            ok ← write tz_addr tz_compat;
            if negb ok then Return syscall state (- EFAULT) else Return syscall state 0
      end
  | _ => Return syscall state (- EFAULT)
  end.

(** A structure of two members, read at [addr] unless it is null; [None] when
    it cannot be read. *)
Definition read_pair (addr : Z) (n : nat) (conv : Z -> Z) : sys (option (option (Z * Z))) :=
  if addr =? 0 then mret (Some None)
  else
    bs ← on_memory (fun m => TryReadMemory m addr (2 * n));
    mret (match bs with
          | None => None
          | Some bs => Some (Some (conv (le_value (take n bs)), conv (le_value (drop n bs))))
          end).

(** [n]: the bytes of a member of [TimeVal]. *)
Definition SysSetTimeOfDay (n : nat) (state : ptr) : sys status :=
  args ← TryGetArgs syscall state 2;
  match args with
  | Some [tv_addr; tz_addr] =>
      _ ← on_host h_gettimeofday;
      tv ← read_pair tv_addr n as_int64;
      match tv with
      | None => Return syscall state (- EFAULT)
      | Some tv =>
          tz ← read_pair tz_addr 4 as_int;
          match tz with
          | None => Return syscall state (- EFAULT)
          | Some tz =>
              ret ← on_host (h_settimeofday tv tz);
              match ret with
              | HostOk _ => Return syscall state 0
              | HostErr err => Return syscall state (- err)
              end
          end
      end
  | _ => Return syscall state (- EFAULT)
  end.

(** Storing a [TimeSpec] with members of [n] bytes. *)
Definition write_timespec (state : ptr) (n : nat) (addr : Z) (time : hostret (Z * Z)) : sys status :=
  match time with
  | HostErr err => Return syscall state (- err)
  | HostOk (tv_sec, tv_nsec) =>
      ok ← on_memory (fun m => TryWriteMemory m addr (le_bytes n tv_sec ++ le_bytes n tv_nsec));
      if negb ok then Return syscall state (- EFAULT) else Return syscall state 0
  end.

Definition SysClockGetTime (n : nat) (state : ptr) : sys status :=
  args ← TryGetArgs syscall state 2;
  match args with
  | Some [clock_id; tp] => time ← on_host (h_clock_gettime (as_int clock_id)); write_timespec state n tp time
  | _ => Return syscall state (- EFAULT)
  end.

Definition SysClockGetResolution (n : nat) (state : ptr) : sys status :=
  args ← TryGetArgs syscall state 2;
  match args with
  | Some [clock_id; res] => time ← on_host (h_clock_getres (as_int clock_id)); write_timespec state n res time
  | _ => Return syscall state (- EFAULT)
  end.

Definition SysTime (state : ptr) : sys status :=
  args ← TryGetArgs syscall state 1;
  match args with
  | Some [time_addr] =>
      now ← on_host h_time;
      match now with
      | HostErr err => Return syscall state (- err)
      | HostOk now =>
          let ret_time := addr_wrap now in
          ok ← (if time_addr =? 0 then mret true
                else on_memory (fun m => TryWriteMemory m time_addr (le_bytes addr_bytes ret_time)) : sys bool);
          if negb ok then Return syscall state (- EFAULT) else Return syscall state ret_time
      end
  | _ => Return syscall state (- EFAULT)
  end.
End handlers.
