(* ===== verification/LinuxIO.v ===== *)
(** * File and terminal calls

    [vmill/Runtime/Linux/IO.cpp] and the first part of [FS.cpp] ([access],
    [faccessat], [lseek], [llseek]).  The kernel's side of a call is a
    parameter; the translation between guest memory and the host, and every
    error path, is the code's. *)

From S2P Require Import Prelude GuestMemory Tasks LinuxTasks SystemCalls LinuxMM LinuxSys.

Local Abbreviation ptr := positive.

Definition PATH_MAX : Z := 4096.
Definition RLIMIT_NOFILE : Z := 7.
Definition kLinuxNumTerminalControlChars : nat := 19.
Definition NCCS : nat := 32.

(** The host's [struct termios]. *)
Record termios := MkTermios {
  c_iflag : Z; c_oflag : Z; c_cflag : Z; c_lflag : Z; c_line : Z; c_cc : list Z
}.

(** The terminal and file calls of these handlers.  [TIOCGWINSZ] and [poll]
    give and take their structures as bytes. *)
Class IOHost (H : Type) := {
  h_access : Z -> list Z -> Z -> Z -> H -> hostret Z * H;
  h_tcgetattr : Z -> H -> hostret termios * H;
  h_tcsetattr : Z -> Z -> termios -> H -> hostret unit * H;
  h_get_winsize : Z -> H -> hostret (list Z) * H;
  h_set_winsize : Z -> list Z -> H -> hostret unit * H;
  h_poll : list Z -> Z -> Z -> H -> hostret (Z * list Z) * H
}.

(** [linux_termios] as it lies in memory. *)
Definition linux_termios_size : nat := 36.

Definition linux_termios_of (info : termios) : list Z :=
  le_bytes 4 (c_iflag info) ++ le_bytes 4 (c_oflag info) ++ le_bytes 4 (c_cflag info) ++ le_bytes 4 (c_lflag info) ++
  le_bytes 1 (c_line info) ++ take (min NCCS kLinuxNumTerminalControlChars) (c_cc info).

Definition termios_of (kinfo : list Z) : termios :=
  MkTermios (le_value (take 4 kinfo)) (le_value (take 4 (drop 4 kinfo))) (le_value (take 4 (drop 8 kinfo)))
    (le_value (take 4 (drop 12 kinfo))) (le_value (take 1 (drop 16 kinfo)))
    (take kLinuxNumTerminalControlChars (drop 17 kinfo) ++ replicate (NCCS - kLinuxNumTerminalControlChars) 0).

Section io.
Context {M St H : Type} `{MO : MemoryOps M} `{FH : FileHost H} `{SH : SysHost H} `{IH : IOHost H}.
Context (syscall : SystemCallABI M St).
Local Abbreviation sys := (SystemCalls.sys M St H).

(** ** Reading and writing *)

(** [DoRead]: the error, and the count with the new bytes added. *)
Definition DoRead (fd buf size num_bytes : Z) : sys (Z * Z) :=
  ok ← ask_memory (fun m => CanWriteMemory m buf size);
  if negb ok then mret (EFAULT, num_bytes)
  else
    ret ← on_host (h_read fd size);
    match ret with
    | HostErr err => mret (err, num_bytes)
    | HostOk bytes_read =>
        change_memory (fun m => CopyToMemory m buf bytes_read);;
        mret (0, wrap64 (num_bytes + Z.of_nat (length bytes_read)))
    end.

Definition SysRead (state : ptr) : sys status :=
  args ← TryGetArgs syscall state 3;
  match args with
  | Some [fd; buf; size] =>
      '(err, num_read_bytes) ← DoRead (as_int fd) buf size 0;
      if negb (err =? 0) then Return syscall state (- err) else Return syscall state (addr_wrap num_read_bytes)
  | _ => Return syscall state (- EFAULT)
  end.

Definition DoWrite (fd buf size num_bytes : Z) : sys (Z * Z) :=
  ok ← ask_memory (fun m => CanReadMemory m buf size);
  if negb ok then mret (EFAULT, num_bytes)
  else
    write_bytes ← on_memory (fun m => CopyFromMemory m buf (Z.to_nat size));
    ret ← on_host (h_write fd write_bytes);
    match ret with
    | HostErr err => mret (err, num_bytes)
    | HostOk n => mret (0, wrap64 (num_bytes + n))
    end.

Definition SysWrite (state : ptr) : sys status :=
  args ← TryGetArgs syscall state 3;
  match args with
  | Some [fd; buf; size] =>
      '(err, num_written_bytes) ← DoWrite (as_int fd) buf size 0;
      if negb (err =? 0) then Return syscall state (- err) else Return syscall state (addr_wrap num_written_bytes)
  | _ => Return syscall state (- EFAULT)
  end.

(** The loop of [SysReadV] and [SysWriteV] over the elements from [i]: [io]
    is [DoRead] or [DoWrite].  [None]: an element failed. *)
Fixpoint vector_loop (io : Z -> Z -> Z -> sys (Z * Z)) (n : nat) (iov i num_bytes : Z) : sys (option Z) :=
  match n with
  | O => mret (Some num_bytes)
  | S n =>
      vec ← on_memory (fun m => TryReadMemory m (addr_wrap (iov + Z.of_nat (2 * addr_bytes) * i)) (2 * addr_bytes));
      match vec with
      | None => mret None
      | Some vec =>
          '(err, num_bytes) ← io (le_value (take addr_bytes vec)) (le_value (drop addr_bytes vec)) num_bytes;
          if negb (err =? 0) then mret None else vector_loop io n iov (i + 1) num_bytes
      end
  end.

Definition SysReadV (state : ptr) : sys status :=
  args ← TryGetArgs syscall state 3;
  match args with
  | Some [fd; iov; iovcount] =>
      num_read_bytes ← vector_loop (DoRead (as_int fd)) (Z.to_nat iovcount) iov 0 0;
      match num_read_bytes with
      | None => Return syscall state (- EFAULT)
      | Some n => Return syscall state (addr_wrap n)
      end
  | _ => Return syscall state (- EFAULT)
  end.

Definition SysWriteV (state : ptr) : sys status :=
  args ← TryGetArgs syscall state 3;
  match args with
  | Some [fd; iov; iovcount] =>
      num_written_bytes ← vector_loop (DoWrite (as_int fd)) (Z.to_nat iovcount) iov 0 0;
      match num_written_bytes with
      | None => Return syscall state (- EFAULT)
      | Some n => Return syscall state (addr_wrap n)
      end
  | _ => Return syscall state (- EFAULT)
  end.

(** ** Paths *)

(** The path buffer starts as zeros. *)
Definition gPath_at (buf : gmap Z Z) (i : Z) : Z := default 0 (buf !! i).

(** The buffer after [CopyStringFromMemory]: the characters, and the NUL if
    the copy stopped at one (before the [n] readable bytes were used up). *)
Definition gPath_store (buf : gmap Z Z) (chars : list Z) (n : Z) : gmap Z Z :=
  let len := Z.of_nat (length chars) in
  let buf := foldl (fun buf '(i, c) => <[i := c]> buf) buf (zip (seqZ 0 len) chars) in
  if len <? n then <[len := 0]> buf else buf.

Definition store_path (chars : list Z) (n : Z) : sys unit := fun w =>
  Ok (tt, with_path w (<[PATH_MAX := 0]> (gPath_store (gPath w) chars n))).

Definition read_path (i : Z) : sys Z := fun w => Ok (gPath_at (gPath w) i, w).

(** [CopyStringFromMemory(memory, path, gPath, PATH_MAX)]: the characters. *)
Definition copy_path (path : Z) : sys (list Z) :=
  n ← ask_memory (fun m => NumReadableBytes m path PATH_MAX);
  chars ← on_memory (fun m => CopyStringFromMemory m path PATH_MAX);
  store_path chars n;;
  mret chars.

(** Fetching a path argument: an error, or the path, which is what [gPath]
    holds up to its first NUL. *)
Definition path_arg (path : Z) : sys (Z + list Z) :=
  chars ← copy_path path;
  let path_len := Z.of_nat (length chars) in
  if PATH_MAX <=? path_len then mret (inl ENAMETOOLONG)
  else
    c ← read_path path_len;
    mret (if c =? 0 then inr chars else inl EFAULT).

(** The common end of the calls that return the host's value. *)
Definition return_host (state : ptr) (ret : hostret Z) : sys status :=
  match ret with
  | HostErr err => Return syscall state (- err)
  | HostOk v => Return syscall state v
  end.

Definition SysOpen (state : ptr) : sys status :=
  args ← TryGetArgs syscall state 3;
  match args with
  | Some [path; oflag; mode] =>
      p ← path_arg path;
      match p with
      | inl err => Return syscall state (- err)
      | inr p => fd ← on_host (h_open AT_FDCWD p (as_int oflag) (as_uint32 mode)); return_host state fd
      end
  | _ => Return syscall state (- EFAULT)
  end.

Definition SysOpenAt (state : ptr) : sys status :=
  args ← TryGetArgs syscall state 4;
  match args with
  | Some [dirfd; path; oflag; mode] =>
      p ← path_arg path;
      match p with
      | inl err => Return syscall state (- err)
      | inr p => fd ← on_host (h_open (as_int dirfd) p (as_int oflag) (as_uint32 mode)); return_host state fd
      end
  | _ => Return syscall state (- EFAULT)
  end.

Definition SysClose (state : ptr) : sys status :=
  args ← TryGetArgs syscall state 1;
  match args with
  | Some [fd] =>
      ret ← on_host (h_close (as_int fd));
      match ret with
      | HostErr err => Return syscall state (- err)
      | HostOk _ => Return syscall state 0
      end
  | _ => Return syscall state (- EFAULT)
  end.

(** ** [ioctl] *)

Definition set_attributes (state : ptr) (fd action argp : Z) : sys status :=
  kinfo ← on_memory (fun m => TryReadMemory m argp linux_termios_size);
  match kinfo with
  | None => Return syscall state (- EFAULT)
  | Some kinfo =>
      ret ← on_host (h_tcsetattr fd action (termios_of kinfo));
      match ret with
      | HostOk _ => Return syscall state 0
      | HostErr err => Return syscall state (- err)
      end
  end.

Definition TCSANOW : Z := 0.
Definition TCSADRAIN : Z := 1.
Definition TCSAFLUSH : Z := 2.

(** Writing a structure of the host back to guest memory. *)
Definition write_back (state : ptr) (argp : Z) (info : hostret (list Z)) : sys status :=
  match info with
  | HostErr err => Return syscall state (- err)
  | HostOk bs =>
      ok ← on_memory (fun m => TryWriteMemory m argp bs);
      if negb ok then Return syscall state (- EFAULT) else Return syscall state 0
  end.

Definition ioctl_command (state : ptr) (fd cmd argp : Z) : sys status :=
  if cmd =? 21505 then
    info ← on_host (h_tcgetattr fd);
    write_back state argp (match info with HostOk i => HostOk (linux_termios_of i) | HostErr e => HostErr e end)
  else if cmd =? 21506 then set_attributes state fd TCSANOW argp
  else if cmd =? 21507 then set_attributes state fd TCSADRAIN argp
  else if cmd =? 21508 then set_attributes state fd TCSAFLUSH argp
  else if cmd =? 21523 then
    window_size ← on_host (h_get_winsize fd);
    write_back state argp window_size
  else if cmd =? 21524 then
    window_size ← on_memory (fun m => TryReadMemory m argp 8);
    match window_size with
    | None => Return syscall state (- EFAULT)
    | Some window_size =>
        ret ← on_host (h_set_winsize fd window_size);
        match ret with
        | HostOk _ => Return syscall state 0
        | HostErr err => Return syscall state (- err)
        end
    end
  else Return syscall state 0.

Definition SysIoctl (state : ptr) : sys status :=
  args ← TryGetArgs syscall state 3;
  match args with
  | Some [fd; cmd; argp] =>
      if as_int fd <? 0 then Return syscall state (- EBADF) else ioctl_command state (as_int fd) cmd argp
  | _ => Return syscall state (- EFAULT)
  end.

(** ** [poll] *)

Definition SysPoll (state : ptr) : sys status :=
  args ← TryGetArgs syscall state 3;
  match args with
  | Some [fds; nfds; timeout_msec] =>
      let nfds := as_uint32 nfds in
      lim ← on_host (h_getrlimit RLIMIT_NOFILE);
      let max_fds := match lim with HostOk (rlim_cur, rlim_max) => Z.min rlim_cur rlim_max | HostErr _ => 0 end in
      if max_fds <=? nfds then Return syscall state (- ENOMEM)
      else
        let fd_mem_size := nfds * 8 in
        can_read ← ask_memory (fun m => CanReadMemory m fds fd_mem_size);
        if negb can_read then Return syscall state (- EFAULT)
        else
          poll_fds ← on_memory (fun m => CopyFromMemory m fds (Z.to_nat fd_mem_size));
          ret ← on_host (h_poll poll_fds nfds (as_int timeout_msec));
          match ret with
          | HostErr err => Return syscall state (- err)
          | HostOk (ret, poll_fds) =>
              can_write ← ask_memory (fun m => CanWriteMemory m fds fd_mem_size);
              if negb can_write then Return syscall state (- EFAULT)
              else
                change_memory (fun m => CopyToMemory m fds poll_fds);;
                Return syscall state ret
          end
  | _ => Return syscall state (- EFAULT)
  end.

(** ** [FS.cpp]: access and seeking *)

Definition SysAccess (state : ptr) : sys status :=
  args ← TryGetArgs syscall state 2;
  match args with
  | Some [path; type] =>
      p ← path_arg path;
      match p with
      | inl err => Return syscall state (- err)
      | inr p => ret ← on_host (h_access AT_FDCWD p (as_int type) 0); return_host state ret
      end
  | _ => Return syscall state (- EFAULT)
  end.

Definition SysFAccessAt (state : ptr) : sys status :=
  args ← TryGetArgs syscall state 4;
  match args with
  | Some [dirfd; path; mode; flags] =>
      p ← path_arg path;
      match p with
      | inl err => Return syscall state (- err)
      | inr p => ret ← on_host (h_access (as_int dirfd) p (as_int mode) (as_int flags)); return_host state ret
      end
  | _ => Return syscall state (- EFAULT)
  end.

(** The offset is not sign-extended from [addr_t]. *)
Definition SysLseek (state : ptr) : sys status :=
  args ← TryGetArgs syscall state 3;
  match args with
  | Some [fd; offset; whence] =>
      new_offset64 ← on_host (h_lseek (as_int fd) (as_int64 offset) (as_int whence));
      return_host state new_offset64
  | _ => Return syscall state (- EFAULT)
  end.

Definition SysLlseek (state : ptr) : sys status :=
  args ← TryGetArgs syscall state 5;
  match args with
  | Some [fd; offset_high; offset_low; result_addr; whence] =>
      let offset := Z.lor (wrap64 (Z.shiftl offset_high 32)) offset_low in
      new_offset64 ← on_host (h_lseek (as_int fd) (as_int64 offset) (as_int whence));
      match new_offset64 with
      | HostErr err => Return syscall state (- err)
      | HostOk new_offset64 =>
          ok ← on_memory (fun m => TryWriteMemory m result_addr (le_bytes 8 new_offset64));
          if negb ok then Return syscall state (- EFAULT) else Return syscall state 0
      end
  | _ => Return syscall state (- EFAULT)
  end.
End io.
