(* ===== verification/IOProps.v ===== *)
(** * What the file calls promise *)

From S2P Require Import Prelude Pages GuestMemory MemoryInstance Tasks LinuxTasks SystemCalls FutexProps LinuxMM LinuxSys LinuxIO.

Local Abbreviation ptr := positive.

(** ** Buffers *)

Section buffers.
Context {M : Type} `{ML : MemoryLaws M}.

(** A buffer on one page, or one that starts on a page boundary: the buffers
    whose every page is checked. *)
Definition checkable (a n : Z) : Prop := (one_page a n /\ n <= 4096) \/ aligned a.

Definition all_bytes (can : M -> Z -> bool) (m : M) (a n : Z) : Prop := forall x, a <= x < a + n -> can m x = true.

Lemma can_access_spec (can : M -> Z -> bool) m a n :
  (forall x, 0 <= x < mem_limit m -> can m x = can m (AlignDownToPage x)) ->
  mem_ok m -> 0 <= a -> 0 < n -> a + n <= mem_limit m -> checkable a n ->
  exists b, (k ← num_bytes (num_fuel n) can m a n 0; Ok (n =? k)) = Ok b /\ (b = true <-> all_bytes can m a n).
Proof.
  intros Hpage Hm Ha Hn Hl Hc. pose proof (limit_two64 m Hm) as Ht. unfold kPageSize in Hpage. destruct Hc as [[Hp Hs]|Hal].
  - rewrite num_bytes_small by lia. rewrite addr_wrap_small by (apply (below_limit m); [done|lia]).
    cbn [mbind outcome_bind]. eexists. split; [done|]. unfold all_bytes. destruct (can m a) eqn:E.
    + rewrite Z.eqb_refl. split; [intros _ x Hx|done]. rewrite Hpage by lia.
      rewrite (one_page_all a n x) by (done || lia). by rewrite <- Hpage by lia.
    + destruct (Z.eqb_spec n 0); [lia|]. split; [done|]. intros Hall. rewrite Hall in E; [done|lia].
  - pose proof (mem_limit_range m Hm) as Hlim. unfold kPageSize in Hlim.
    destruct (num_bytes_aligned can m a n (num_fuel n) 0) as (k & -> & Hk & Hall & Hstop);
      [done|done|lia|lia|lia|lia|apply num_fuel_enough; lia|].
    cbn [mbind outcome_bind]. eexists. split; [done|]. unfold all_bytes. destruct (Z.eqb_spec n k) as [<-|Hne].
    + split; [intros _ x Hx|done]. rewrite Hpage by lia. pose proof (AlignDownToPage_range x ltac:(unfold u64; lia)).
      pose proof (AlignDownToPage_aligned x ltac:(unfold u64; lia)) as Hax. rewrite Hall; [done|done|].
      split; [|lia]. rewrite Z.add_0_r. destruct (Z.lt_ge_cases (AlignDownToPage x) a) as [Hlt|]; [|done].
      pose proof (aligned_lt _ _ Hax Hal Hlt). unfold kPageSize in *. lia.
    + split; [done|]. intros Hx. rewrite Hx in Hstop; [|lia]. assert (true = false) by (apply Hstop; lia). done.
Qed.

Lemma CanReadMemory_all m a n :
  mem_ok m -> 0 <= a -> 0 < n -> a + n <= mem_limit m -> checkable a n ->
  exists b, CanReadMemory m a n = Ok b /\ (b = true <-> all_bytes vmill_can_read_byte m a n).
Proof. intros Hm. apply can_access_spec; [|done]. intros x. by apply can_read_page. Qed.

Lemma CanWriteMemory_all m a n :
  mem_ok m -> 0 <= a -> 0 < n -> a + n <= mem_limit m -> checkable a n ->
  exists b, CanWriteMemory m a n = Ok b /\ (b = true <-> all_bytes vmill_can_write_byte m a n).
Proof. intros Hm. apply can_access_spec; [|done]. intros x. by apply can_write_page. Qed.
End buffers.

(** ** Reading and writing *)

Section io.
Context {M St H : Type} `{ML : MemoryLaws M} `{FH : FileHost H} (syscall : SystemCallABI M St).
Implicit Types (w : World M St H) (t : linux_task St).

Lemma on_host_step {A} (f : H -> A * H) w a h : f (host w) = (a, h) -> on_host f w = Ok (a, with_host w h).
Proof. unfold on_host. by intros ->. Qed.

Lemma change_memory_step (f : M -> outcome M) w m : f (memory w) = Ok m -> change_memory f w = Ok (tt, with_memory w m).
Proof. unfold change_memory. by intros ->. Qed.

(** The outcome of a call that returns [val], with the given memory and
    host. *)
Definition call_returns w m h (val : Z) (r : outcome (status * World M St H)) : Prop :=
  exists w' t', r = Ok (Returned, w') /\ memory w' = m /\ host w' = h /\ completed w' = true /\
    tasks (os w') !! current w = Some t' /\
    (forall t, tasks (os w) !! current w = Some t -> t' = returned syscall t val) /\
    (forall q, q <> current w -> tasks (os w') !! q = tasks (os w) !! q).

Lemma Return_returns w w' t m h val :
  tasks (os w) !! current w = Some t -> w' = with_host (with_memory w m) h ->
  call_returns w m h val (Return syscall (current w) val w').
Proof.
  intros Ht ->. set (w' := with_host _ _). assert (Ht' : tasks (os w') !! current w = Some t) by done.
  rewrite (Return_step syscall w' (current w) t val Ht'). eexists _, _. split; [done|].
  split; [done|]. split; [done|]. split; [done|]. split; [apply world_task_lookup|]. split; [intros t0 Ht0; by simplify_eq|].
  intros q Hq. cbn. by apply lookup_insert_ne.
Qed.

(** The bodies of [write] and [read] once the buffer has been checked. *)
Lemma DoWrite_refused fd buf size k w :
  CanReadMemory (memory w) buf size = Ok false -> DoWrite fd buf size k w = Ok ((EFAULT, k), w).
Proof. intros Hc. unfold DoWrite. by sys_step (ask_memory_step (fun m => CanReadMemory m buf size) w _ Hc). Qed.

Lemma DoWrite_done fd buf size k w bs m :
  CanReadMemory (memory w) buf size = Ok true -> CopyFromMemory (memory w) buf (Z.to_nat size) = Ok (bs, m) ->
  DoWrite fd buf size k w =
    match h_write fd bs (host w) with
    | (HostOk n, h) => Ok ((0, wrap64 (k + n)), with_host (with_memory w m) h)
    | (HostErr e, h) => Ok ((e, k), with_host (with_memory w m) h)
    end.
Proof.
  intros Hc Hr. unfold DoWrite. sys_step (ask_memory_step (fun m => CanReadMemory m buf size) w _ Hc). cbn [negb].
  sys_step (on_memory_step (fun m => CopyFromMemory m buf (Z.to_nat size)) w _ _ Hr).
  destruct (h_write fd bs (host w)) as [r h] eqn:Eh.
  sys_step (on_host_step (h_write fd bs) (with_memory w m) _ _ Eh). by destruct r.
Qed.

Lemma DoRead_refused fd buf size k w :
  CanWriteMemory (memory w) buf size = Ok false -> DoRead fd buf size k w = Ok ((EFAULT, k), w).
Proof. intros Hc. unfold DoRead. by sys_step (ask_memory_step (fun m => CanWriteMemory m buf size) w _ Hc). Qed.

Lemma DoRead_done fd buf size k w bs h m :
  CanWriteMemory (memory w) buf size = Ok true -> h_read fd size (host w) = (HostOk bs, h) ->
  CopyToMemory (memory w) buf bs = Ok m ->
  DoRead fd buf size k w = Ok ((0, wrap64 (k + Z.of_nat (length bs))), with_memory (with_host w h) m).
Proof.
  intros Hc Hh Hw. unfold DoRead. sys_step (ask_memory_step (fun m => CanWriteMemory m buf size) w _ Hc). cbn [negb].
  sys_step (on_host_step (h_read fd size) w _ _ Hh).
  by sys_step (change_memory_step (fun m => CopyToMemory m buf bs) (with_host w h) _ Hw).
Qed.

Lemma DoRead_failed fd buf size k w e h :
  CanWriteMemory (memory w) buf size = Ok true -> h_read fd size (host w) = (HostErr e, h) ->
  DoRead fd buf size k w = Ok ((e, k), with_host w h).
Proof.
  intros Hc Hh. unfold DoRead. sys_step (ask_memory_step (fun m => CanWriteMemory m buf size) w _ Hc). cbn [negb].
  by sys_step (on_host_step (h_read fd size) w _ _ Hh).
Qed.

(** A count that fits the buffer is returned as it is. *)
Lemma count_fits m a n k : mem_ok m -> 0 <= a -> a + n <= mem_limit m -> 0 <= k <= n -> addr_wrap (wrap64 (0 + k)) = k.
Proof.
  intros Hm Ha Hl Hk. pose proof (limit_two64 m Hm). pose proof (below_limit m (a + n) Hm ltac:(lia)).
  unfold wrap64. rewrite Z.mod_small by (unfold two64 in *; lia). rewrite addr_wrap_small by lia. lia.
Qed.
End io.

(** [write] hands the guest's bytes to the host: for a buffer of mapped
    memory that lies on one page or starts at a page boundary, the call
    returns; if every byte is readable, the host's [write] gets exactly the bytes
    of guest memory, and its count, or its error negated, is the result;
    otherwise the result is [-EFAULT] and the host is not called.  Guest memory
    looks the same afterwards. *)
Theorem write_delivers {M St H} `{ML : MemoryLaws M} `{FH : FileHost H} (syscall : SystemCallABI M St) (w : World M St H)
    t fd buf size :
  tasks (os w) !! current w = Some t -> TryGetArgs syscall (current w) 3 w = Ok (Some [fd; buf; size], w) ->
  mem_ok (memory w) -> 0 <= buf -> 0 < size -> buf + size <= mem_limit (memory w) -> checkable buf size ->
  mapped_bytes (memory w) buf size ->
  (all_bytes vmill_can_read_byte (memory w) buf size /\
   exists bs m, length bs = Z.to_nat size /\
     (forall i v, bs !! i = Some v -> byte (memory w) (buf + Z.of_nat i) = Some v) /\
     mem_ok m /\ same_bytes byte (memory w) m /\
     match h_write (as_int fd) bs (host w) with
     | (HostOk n, h) => 0 <= n <= size ->
         call_returns syscall w m h n (SysWrite syscall (current w) w)
     | (HostErr e, h) => e <> 0 -> call_returns syscall w m h (- e) (SysWrite syscall (current w) w)
     end) \/
  (~ all_bytes vmill_can_read_byte (memory w) buf size /\
   call_returns syscall w (memory w) (host w) (- EFAULT) (SysWrite syscall (current w) w)).
Proof.
  intros Ht Hargs Hm Hb Hs Hl Hc Hmap.
  destruct (CanReadMemory_all (memory w) buf size Hm Hb Hs Hl Hc) as (b & Hcan & Hiff).
  unfold SysWrite. sys_step Hargs. destruct b.
  2:{ right. split; [intros Hall; by apply Hiff in Hall|]. sys_step (DoWrite_refused (as_int fd) buf size 0 w Hcan).
      eapply Return_returns; [exact Ht|]. by destruct w. }
  left. assert (Hall : all_bytes vmill_can_read_byte (memory w) buf size) by (by apply Hiff). split; [done|].
  destruct (CopyFromMemory_spec (Z.to_nat size) (memory w) buf) as (bs & m & Hr & Hm' & Hl' & Hsame & Hlen & Hbs);
    [done|done|lia|intros x Hx; split; [apply Hmap; lia|apply Hall; lia]|].
  exists bs, m. split; [done|]. split; [done|]. split; [done|]. split; [done|].
  pose proof (DoWrite_done (as_int fd) buf size 0 w bs m Hcan Hr) as Hd.
  destruct (h_write (as_int fd) bs (host w)) as [[n|e] h] eqn:Eh.
  - intros Hn. sys_step Hd. cbn [Z.eqb negb]. rewrite (count_fits (memory w) buf size n) by done. by eapply Return_returns.
  - intros He. sys_step Hd. apply Z.eqb_neq in He. rewrite He. cbn [negb]. by eapply Return_returns.
Qed.

(** [read] stores what the host read: for a buffer of mapped memory that
    lies on one page or starts at a page boundary, the call returns; if every byte
    is writable, the bytes the host's [read] delivered are stored at the start of the
    buffer and their number is the result, and if the host fails, its error
    negated is the result and memory is untouched; otherwise the result is
    [-EFAULT] and the host is not called. *)
Theorem read_stores {M St H} `{ML : MemoryLaws M} `{FH : FileHost H} (syscall : SystemCallABI M St) (w : World M St H)
    t fd buf size :
  tasks (os w) !! current w = Some t -> TryGetArgs syscall (current w) 3 w = Ok (Some [fd; buf; size], w) ->
  mem_ok (memory w) -> 0 <= buf -> 0 < size -> buf + size <= mem_limit (memory w) -> checkable buf size ->
  mapped_bytes (memory w) buf size ->
  (all_bytes vmill_can_write_byte (memory w) buf size /\
   match h_read (as_int fd) size (host w) with
   | (HostOk bs, h) => Z.of_nat (length bs) <= size -> Forall byte_ok bs ->
       exists m, mem_ok m /\ stored byte (memory w) m buf bs /\
         call_returns syscall w m h (Z.of_nat (length bs)) (SysRead syscall (current w) w)
   | (HostErr e, h) => e <> 0 -> call_returns syscall w (memory w) h (- e) (SysRead syscall (current w) w)
   end) \/
  (~ all_bytes vmill_can_write_byte (memory w) buf size /\
   call_returns syscall w (memory w) (host w) (- EFAULT) (SysRead syscall (current w) w)).
Proof.
  intros Ht Hargs Hm Hb Hs Hl Hc Hmap.
  destruct (CanWriteMemory_all (memory w) buf size Hm Hb Hs Hl Hc) as (b & Hcan & Hiff).
  unfold SysRead. sys_step Hargs. destruct b.
  2:{ right. split; [intros Hall; by apply Hiff in Hall|]. sys_step (DoRead_refused (as_int fd) buf size 0 w Hcan).
      eapply Return_returns; [exact Ht|]. by destruct w. }
  left. assert (Hall : all_bytes vmill_can_write_byte (memory w) buf size) by (by apply Hiff). split; [done|].
  destruct (h_read (as_int fd) size (host w)) as [[bs|e] h] eqn:Eh.
  - intros Hlen Hbs. destruct (CopyToMemory_spec bs (memory w) buf) as (m & Hw & Hm' & _ & Hst); [done|done|lia|done| |].
    { intros x Hx. split; [apply Hmap; lia|apply Hall; lia]. }
    exists m. split; [done|]. split; [done|]. sys_step (DoRead_done (as_int fd) buf size 0 w bs h m Hcan Eh Hw).
    cbn [Z.eqb negb]. rewrite (count_fits (memory w) buf size) by (done || lia). by eapply Return_returns.
  - intros He. sys_step (DoRead_failed (as_int fd) buf size 0 w e h Hcan Eh). apply Z.eqb_neq in He. rewrite He. cbn [negb].
    eapply Return_returns; [exact Ht|]. by destruct w.
Qed.

(** ** Paths *)

Section paths.
Context {M St H : Type} `{ML : MemoryLaws M}.
Implicit Types (w : World M St H) (m : M).

(** The bytes [cs] and a NUL lie at [a]. *)
Definition string_at m (a : Z) (cs : list Z) : Prop :=
  Forall (fun c => c <> 0) cs /\
  (forall i c, (cs ++ [0]) !! i = Some c -> byte m (a + Z.of_nat i) = Some c) /\
  (forall x, a <= x < a + Z.of_nat (length cs) + 1 -> vmill_can_read_byte m x = true).

Lemma copy_string_from_spec cs : forall m a n,
  mem_ok m -> 0 <= a -> a + Z.of_nat (length cs) + 1 <= mem_limit m -> (length cs < n)%nat -> string_at m a cs ->
  exists m', copy_string_from m a n = Ok (cs, m') /\ mem_ok m' /\ mem_limit m' = mem_limit m /\ same_bytes byte m m'.
Proof.
  induction cs as [|c cs IH]; intros m a [|n] Hm Ha Hl Hn (Hnz & Hb & Hr); try (cbn in Hn; lia); cbn [copy_string_from].
  - pose proof (Hb 0%nat 0 eq_refl) as Hb0. rewrite Z.add_0_r in Hb0.
    destruct (read_1 m a) as (v & m1 & -> & Hm1 & Hl1 & Hs & Hv); [done|done|cbn in Hl; lia|by eexists|apply Hr; cbn; lia|].
    assert (v = 0) as -> by congruence. cbn. by exists m1.
  - pose proof (Hb 0%nat c eq_refl) as Hb0. rewrite Z.add_0_r in Hb0. cbn [length] in *.
    destruct (read_1 m a) as (v & m1 & -> & Hm1 & Hl1 & Hs & Hv); [done|done|lia|by eexists|apply Hr; lia|].
    assert (v = c) as -> by congruence. apply Forall_cons in Hnz as [Hc Hnz]. apply Z.eqb_neq in Hc.
    cbn [mbind outcome_bind]. rewrite Hc. rewrite addr_wrap_small by (apply (below_limit m); [done|lia]).
    pose proof Hs as (HA & HB & _).
    destruct (IH m1 (a + 1) n) as (m2 & -> & Hm2 & Hl2 & Hs2); [done|lia|lia|lia| |].
    { split; [done|]. split.
      - intros i x Hx. rewrite HA. replace (a + 1 + Z.of_nat i) with (a + Z.of_nat (S i)) by lia. by apply Hb.
      - intros x Hx. rewrite HB. apply Hr. lia. }
    cbn. exists m2. split; [done|]. split; [done|]. split; [congruence|]. by eapply same_bytes_trans.
Qed.

Lemma path_readable m a : vmill_can_read_byte m (addr_wrap a) = true -> NumReadableBytes m a PATH_MAX = Ok PATH_MAX.
Proof. intros Hc. unfold NumReadableBytes. rewrite num_bytes_small by (unfold PATH_MAX; lia). by rewrite Hc. Qed.

Lemma path_unreadable m a : vmill_can_read_byte m (addr_wrap a) = false -> NumReadableBytes m a PATH_MAX = Ok 0.
Proof. intros Hc. unfold NumReadableBytes. rewrite num_bytes_small by (unfold PATH_MAX; lia). by rewrite Hc. Qed.

(** Fetching a path: a string shorter than [PATH_MAX] arrives unchanged. *)
Lemma path_arg_string w a cs :
  mem_ok (memory w) -> 0 <= a -> a + Z.of_nat (length cs) + 1 <= mem_limit (memory w) ->
  Z.of_nat (length cs) < PATH_MAX -> string_at (memory w) a cs ->
  exists m p, path_arg a w = Ok (inr cs, with_path (with_memory w m) p) /\ mem_ok m /\
    mem_limit m = mem_limit (memory w) /\ same_bytes byte (memory w) m.
Proof.
  intros Hm Ha Hl Hn Hs. pose proof Hs as (_ & _ & Hr).
  assert (Hn' : NumReadableBytes (memory w) a PATH_MAX = Ok PATH_MAX).
  { apply path_readable. rewrite addr_wrap_small by (apply (below_limit (memory w)); [done|lia]). apply Hr. lia. }
  destruct (copy_string_from_spec cs (memory w) a (Z.to_nat PATH_MAX)) as (m & Hc & Hm' & Hlim & Hsame); [done|done|done|lia|done|].
  assert (Hc' : CopyStringFromMemory (memory w) a PATH_MAX = Ok (cs, m)) by (unfold CopyStringFromMemory; by rewrite Hn').
  unfold path_arg, copy_path. unfold mbind at 1, sys_bind at 1.
  sys_step (ask_memory_step (fun m => NumReadableBytes m a PATH_MAX) w _ Hn').
  sys_step (on_memory_step (fun m => CopyStringFromMemory m a PATH_MAX) w _ _ Hc').
  unfold store_path. unfold mbind at 1, sys_bind at 1. cbn [mret sys_ret].
  destruct (Z.leb_spec PATH_MAX (Z.of_nat (length cs))); [lia|].
  unfold mbind at 1, sys_bind at 1, read_path at 1. cbn [gPath with_path with_memory].
  unfold gPath_at. rewrite lookup_insert_ne by lia. unfold gPath_store.
  destruct (Z.ltb_spec (Z.of_nat (length cs)) PATH_MAX); [|lia]. rewrite lookup_insert_eq. cbn.
  eexists _, _. done.
Qed.

(** An unreadable path: what counts is the old first byte of the buffer. *)
Lemma path_arg_unreadable w a :
  vmill_can_read_byte (memory w) (addr_wrap a) = false ->
  exists p, path_arg a w = Ok (if gPath_at (gPath w) 0 =? 0 then inr [] else inl EFAULT, with_path w p).
Proof.
  intros Hr. pose proof (path_unreadable _ _ Hr) as Hn.
  assert (Hc : CopyStringFromMemory (memory w) a PATH_MAX = Ok ([], memory w)) by (unfold CopyStringFromMemory; by rewrite Hn).
  unfold path_arg, copy_path. unfold mbind at 1, sys_bind at 1.
  sys_step (ask_memory_step (fun m => NumReadableBytes m a PATH_MAX) w _ Hn).
  sys_step (on_memory_step (fun m => CopyStringFromMemory m a PATH_MAX) w _ _ Hc).
  unfold store_path. unfold mbind at 1, sys_bind at 1. cbn [mret sys_ret length]. cbn [Z.of_nat Z.leb].
  unfold mbind at 1, sys_bind at 1, read_path at 1. cbn.
  change (PATH_MAX <=? Z.of_nat 0) with false. cbv iota beta. cbn [gPath with_path with_memory]. change (Z.of_nat 0) with 0.
  assert (gPath_at (<[PATH_MAX := 0]> (gPath_store (gPath w) [] 0)) 0 = gPath_at (gPath w) 0) as ->.
  { unfold gPath_at. by rewrite lookup_insert_ne. }
  eexists. by destruct w.
Qed.
End paths.

(** [open] hands the host the guest's path and returns its answer: a
    NUL-terminated readable path shorter than [PATH_MAX] is passed byte for byte.
    But for a path that cannot be read at all the result depends on what an
    earlier call left in the path buffer: only if its first byte is not NUL the call
    fails with [EFAULT], otherwise the host is asked to open the empty
    path. *)
Theorem open_passes_path {M St H} `{ML : MemoryLaws M} `{FH : FileHost H} (syscall : SystemCallABI M St) (w : World M St H)
    t path oflag mode cs :
  tasks (os w) !! current w = Some t -> TryGetArgs syscall (current w) 3 w = Ok (Some [path; oflag; mode], w) ->
  mem_ok (memory w) -> 0 <= path < mem_limit (memory w) ->
  let result (r : hostret Z) := match r with HostOk fd => fd | HostErr e => - e end in
  let asked m p := let '(r, h) := h_open AT_FDCWD p (as_int oflag) (as_uint32 mode) (host w) in
                   call_returns syscall w m h (result r) (SysOpen syscall (current w) w) in
  (string_at (memory w) path cs -> Z.of_nat (length cs) < PATH_MAX -> path + Z.of_nat (length cs) + 1 <= mem_limit (memory w) ->
   exists m, mem_ok m /\ same_bytes byte (memory w) m /\ asked m cs) /\
  (vmill_can_read_byte (memory w) path = false ->
   if gPath_at (gPath w) 0 =? 0 then asked (memory w) []
   else call_returns syscall w (memory w) (host w) (- EFAULT) (SysOpen syscall (current w) w)).
Proof.
  intros Ht Hargs Hm Hp result asked.
  assert (Hask : forall m p b, path_arg path w = Ok (inr p, with_path (with_memory w m) b) -> asked m p).
  { intros m p b Hpa. unfold asked. destruct (h_open _ _ _ _ _) as [r h] eqn:Eh. unfold SysOpen. sys_step Hargs.
    sys_step Hpa. sys_step (on_host_step (h_open AT_FDCWD p (as_int oflag) (as_uint32 mode)) (with_path (with_memory w m) b) _ _ Eh).
    unfold return_host. unfold call_returns.
    assert (Ht' : tasks (os (with_host (with_path (with_memory w m) b) h)) !! current w = Some t) by done.
    destruct r; rewrite (Return_step syscall _ _ _ _ Ht'); eexists _, _; repeat (split; [done|]);
      (split; [apply world_task_lookup|]); (split; [intros t0 Ht0; by simplify_eq|]);
      intros q Hq; cbn; by apply lookup_insert_ne. }
  split.
  - intros Hs Hn Hl. destruct (path_arg_string w path cs) as (m & b & Hpa & Hok & _ & Hsame); [done|lia|done..|].
    exists m. split; [done|]. split; [done|]. by eapply Hask.
  - intros Hr. destruct (path_arg_unreadable w path) as (b & Hpa).
    { rewrite addr_wrap_small by (apply (below_limit (memory w)); [done|lia]). done. }
    destruct (gPath_at (gPath w) 0 =? 0).
    + apply (Hask _ _ b). rewrite Hpa. by destruct w.
    + unfold SysOpen. sys_step Hargs. sys_step Hpa. unfold call_returns.
      assert (Ht' : tasks (os (with_path w b)) !! current w = Some t) by done.
      rewrite (Return_step syscall _ _ _ _ Ht'). eexists _, _. repeat (split; [done|]).
      split; [apply world_task_lookup|]. split; [intros t0 Ht0; by simplify_eq|].
      intros q Hq. cbn. by apply lookup_insert_ne.
Qed.

(** *** A concrete host and concrete calls *)

(** A host with one pipe; opening a path answers with its length. *)
#[local] Instance pipe_host : FileHost (list Z) := {
  h_lseek _ _ _ h := (HostErr 29, h);
  h_read _ n h := (HostOk (take (Z.to_nat n) h), drop (Z.to_nat n) h);
  h_write _ bs h := (HostOk (Z.of_nat (length bs)), h ++ bs);
  h_open _ path _ _ h := (HostOk (Z.of_nat (length path)), h);
  h_close _ h := (HostOk tt, h);
  h_getcwd h := (HostOk tt, h);
  h_readlink_fd _ h := (HostErr 2, h)
}.

(** A convention with the given arguments; the state is the result. *)
Definition args_abi (args : list Z) : SystemCallABI (Mem false 64) Z :=
  MkABI (fun _ => 0) (fun s _ => s) (fun s _ => s) (fun _ => 0) (fun m _ a => Ok (a, m)) (fun _ v => v)
    (fun _ _ _ => Ok true) (fun m _ i => Ok (nth (Z.to_nat i) args 0, m)).

Definition pipe_world (m : Mem false 64) (pipe : list Z) : World (Mem false 64) Z (list Z) :=
  MkWorld m os2 1%positive false ∅ pipe.

Lemma pipe_task m pipe : exists t, tasks (os (pipe_world m pipe)) !! 1%positive = Some t.
Proof. apply (os_ok_lookup os2 _ 1%nat 1%positive os2_ok). reflexivity. Qed.

Lemma demo_limit : mem_limit demo_mem = two64 - 4096.
Proof. reflexivity. Qed.

Lemma demo_all (can : Mem false 64 -> Z -> bool) a n :
  can = vmill_can_read_byte \/ can = vmill_can_write_byte -> 4096 <= a -> a + n <= 12288 -> all_bytes can demo_mem a n.
Proof. intros [-> | ->] Ha Hn x Hx; apply demo_mem_perm; lia. Qed.

Lemma demo_mapped a n : 4096 <= a -> a + n <= 12288 -> mapped_bytes demo_mem a n.
Proof. intros Ha Hn x Hx. rewrite demo_mem_byte by lia. done. Qed.

Lemma write_delivers_witness :
  exists w' t', SysWrite (args_abi [1; 4100; 3]) 1%positive (pipe_world demo_mem [9]) = Ok (Returned, w') /\
    host w' = [9; 0; 0; 0] /\ tasks (os w') !! 1%positive = Some t' /\ task_state t' = 3.
Proof.
  destruct (pipe_task demo_mem [9]) as [t Ht].
  destruct (write_delivers (args_abi [1; 4100; 3]) (pipe_world demo_mem [9]) t 1 4100 3 Ht) as [[_ Hw]|[Hn _]].
  - reflexivity.
  - apply demo_mem_ok.
  - lia.
  - lia.
  - change (memory (pipe_world demo_mem [9])) with demo_mem. rewrite demo_limit. unfold two64. lia.
  - left. split; [reflexivity|lia].
  - apply demo_mapped; lia.
  - destruct Hw as (bs & m & Hlen & Hbs & _ & _ & Hr). cbn [h_write pipe_host] in Hr.
    change (Z.to_nat 3) with 3%nat in Hlen. destruct bs as [|b0 [|b1 [|b2 [|]]]]; try discriminate Hlen.
    destruct Hr as (w' & t' & Hx & _ & Hh & _ & Ht' & Heq & _); [cbn; lia|]. exists w', t'.
    split; [exact Hx|]. split; [|split; [exact Ht'|rewrite (Heq t Ht); reflexivity]]. rewrite Hh. cbn.
    change (memory (pipe_world demo_mem [9])) with demo_mem in Hbs.
    pose proof (Hbs 0%nat b0 eq_refl) as E0. pose proof (Hbs 1%nat b1 eq_refl) as E1. pose proof (Hbs 2%nat b2 eq_refl) as E2.
    rewrite demo_mem_byte in E0, E1, E2 by lia. injection E0 as <-. injection E1 as <-. injection E2 as <-. reflexivity.
  - exfalso. apply Hn. apply demo_all; [by left|lia|lia].
Defined.

Lemma read_stores_witness :
  exists w' t', SysRead (args_abi [0; 4100; 8]) 1%positive (pipe_world demo_mem [104; 105]) = Ok (Returned, w') /\
    host w' = [] /\ stored byte demo_mem (memory w') 4100 [104; 105] /\
    tasks (os w') !! 1%positive = Some t' /\ task_state t' = 2.
Proof.
  destruct (pipe_task demo_mem [104; 105]) as [t Ht].
  destruct (read_stores (args_abi [0; 4100; 8]) (pipe_world demo_mem [104; 105]) t 0 4100 8 Ht) as [[_ Hr]|[Hn _]].
  - reflexivity.
  - apply demo_mem_ok.
  - lia.
  - lia.
  - change (memory (pipe_world demo_mem [104; 105])) with demo_mem. rewrite demo_limit. unfold two64. lia.
  - left. split; [reflexivity|lia].
  - apply demo_mapped; lia.
  - destruct Hr as (m & _ & Hst & w' & t' & Hx & Hm & Hh & _ & Ht' & Heq & _); [vm_compute; discriminate|repeat constructor; unfold byte_ok; lia|].
    exists w', t'. split; [exact Hx|]. split; [exact Hh|]. split; [rewrite Hm; exact Hst|]. split; [exact Ht'|].
    rewrite (Heq t Ht). reflexivity.
  - exfalso. apply Hn. apply demo_all; [by right|lia|lia].
Defined.

(** Memory with the path ["ab"] at 4100. *)
Lemma path_mem : exists m : Mem false 64, mem_ok m /\ mem_limit m = two64 - 4096 /\ string_at m 4100 [97; 98].
Proof.
  destruct (TryWriteMemory_spec [97; 98; 0] demo_mem 4100) as (ok & m & _ & Hm & Hl & Hok & Hst).
  - apply demo_mem_ok.
  - lia.
  - cbn. lia.
  - rewrite demo_limit. cbn. unfold two64. lia.
  - reflexivity.
  - apply demo_mapped; cbn; lia.
  - repeat constructor; unfold byte_ok; lia.
  - destruct (demo_mem_perm 4100) as [_ Hw]; [lia|]. rewrite Hw in Hok. subst ok. destruct Hst as (HA & HB & _).
    exists m. split; [done|]. split; [by rewrite Hl|]. split; [by repeat constructor|]. split.
    + intros i c Hi. pose proof (lookup_lt_Some _ _ _ Hi) as Hlt. cbn in Hlt.
      rewrite HA, decide_True by (cbn; lia). by replace (Z.to_nat (4100 + Z.of_nat i - 4100)) with i by lia.
    + intros x Hx. cbn in Hx. rewrite HB. apply demo_mem_perm. lia.
Qed.

Lemma open_passes_path_witness :
  (exists m w' t', SysOpen (args_abi [4100; 0; 0]) 1%positive (pipe_world m []) = Ok (Returned, w') /\
    tasks (os w') !! 1%positive = Some t' /\ task_state t' = 2) /\
  (exists w' t', SysOpen (args_abi [64; 0; 0]) 1%positive (pipe_world demo_mem []) = Ok (Returned, w') /\
    tasks (os w') !! 1%positive = Some t' /\ task_state t' = 0).
Proof.
  destruct path_mem as (m & Hm & Hl & Hs). split.
  - destruct (pipe_task m []) as [t Ht].
    destruct (open_passes_path (args_abi [4100; 0; 0]) (pipe_world m []) t 4100 0 0 [97; 98] Ht) as [Hopen _];
      [reflexivity|exact Hm|change (memory (pipe_world m [])) with m; rewrite Hl; unfold two64; lia|].
    destruct (Hopen Hs) as (m' & _ & _ & w' & t' & Hx & _ & _ & _ & Ht' & Heq & _); [cbn; unfold PATH_MAX; lia|change (memory (pipe_world m [])) with m; rewrite Hl; unfold two64; cbn; lia|].
    exists m, w', t'. split; [exact Hx|]. split; [exact Ht'|]. rewrite (Heq t Ht). reflexivity.
  - destruct (pipe_task demo_mem []) as [t Ht].
    destruct (open_passes_path (args_abi [64; 0; 0]) (pipe_world demo_mem []) t 64 0 0 [] Ht) as [_ Hopen];
      [reflexivity|exact demo_mem_ok|change (memory (pipe_world demo_mem [])) with demo_mem; rewrite demo_limit; unfold two64; lia|].
    destruct Hopen as (w' & t' & Hx & _ & _ & _ & Ht' & Heq & _); [vm_compute; reflexivity|].
    exists w', t'. split; [exact Hx|]. split; [exact Ht'|]. rewrite (Heq t Ht). reflexivity.
Defined.
