(* ===== verification/MMProps.v ===== *)
(** * What [mmap], [munmap] and [mprotect] promise

    The system calls on top of the address space: the theorems go from the
    arguments in registers to the bytes and permissions of guest memory. *)

From S2P Require Import Prelude Pages MappedRange RangeProps AddressSpace SpaceInv RemoveRangeProps IndexProps MapChange HoleProps SpaceTheorems.
From S2P Require Import GuestMemory MemoryInstance Tasks LinuxTasks SystemCalls FutexProps LinuxMM IOProps.

Local Abbreviation ptr := positive.

(** ** Mapping into a hole *)

(** Nothing has to be split to put a map inside one unmapped range. *)
Lemma hole_removable h s hole size :
  wf_space h s -> u64 hole -> aligned hole -> 0 < RoundUpToPage size ->
  inside_invalid h (maps s) hole (RoundUpToPage size) -> all_removable h s hole size.
Proof.
  intros Hw Hu Hal Hs (l0 & r0 & He0 & Hv0 & Hlo & Hhi) l r He. unfold request_limit. rewrite AlignDownToPage_id by done.
  set (n := RoundUpToPage size) in *. pose proof (wm_range _ _ _ (ws_maps _ _ Hw) _ _ He) as Hro.
  destruct (ro_order _ _ Hro) as [Hb0 Hbl]. destruct (decide (l = l0)) as [->|Hne].
  - assert (r = r0) as -> by (destruct He as [_ E], He0 as [_ E0]; congruence). split; [unfold left_overlap; lia|].
    intros Hk. unfold valid in Hv0. rewrite Hk in Hv0. done.
  - assert (Hd : forall a, base_address r0 <= a < limit_address r0 -> base_address r <= a < limit_address r -> False).
    { intros a Ha0 Ha. apply Hne. by eapply (wm_disjoint _ _ _ (ws_maps _ _ Hw) l r l0 r0 a); try done; apply Contains_iff. }
    assert (limit_address r <= hole \/ hole + n <= base_address r) as Hside.
    { destruct (Z.le_gt_cases (limit_address r) hole); [by left|]. right.
      destruct (Z.le_gt_cases (hole + n) (base_address r)); [done|]. exfalso.
      apply (Hd (Z.max hole (base_address r))); lia. }
    split; [unfold left_overlap; lia|]. intros _. unfold untouched. lia.
Qed.

Section calls.
Context {vc : bool} {bits : Z} `{HB : !AddrBits bits}.
Local Abbreviation M := (Mem vc bits).
Implicit Types (m : M).

Lemma addr_bits_eq : addr_bits (M := M) = bits.
Proof. done. Qed.

Lemma two_pow_bits : 2 ^ bits = two32 \/ 2 ^ bits = two64.
Proof. destruct HB as [-> | ->]; [by left|by right]. Qed.

(** [AlignToNextPage] gives whole pages of the address space. *)
Lemma AlignToNextPage_spec z :
  let n := AlignToNextPage (M := M) z in aligned n /\ 0 <= n <= 2 ^ bits - kPageSize.
Proof.
  cbv zeta. unfold AlignToNextPage, addr_wrap. rewrite addr_bits_eq.
  change (not64 4095) with (not64 (2 ^ 12 - 1)). rewrite land_not64_ones by (lia || apply wrap64_u64).
  set (x := add64 z 4095). change (2 ^ 12) with 4096. pose proof (Z.div_mod x 4096 ltac:(lia)) as Hx.
  assert (Hmul : exists k, 2 ^ bits = 4096 * k /\ 0 < k).
  { destruct two_pow_bits as [-> | ->]; [exists 1048576|exists 4503599627370496]; done. }
  destruct Hmul as (k & Hk & Hpos). rewrite Hk. replace (x - x mod 4096) with (4096 * (x / 4096)) by lia.
  rewrite Zmult_mod_distr_l. pose proof (Z.mod_pos_bound (x / 4096) k Hpos). unfold kPageSize.
  split; [|lia]. unfold aligned, kPageSize. rewrite Z.mul_comm. apply Z_mod_mult.
Qed.

(** [m'] is [m] with [[a, a + n)] mapped to zeroes with the given
    permissions. *)
Record mapped_at m m' (a n : Z) (r w x : bool) : Prop := {
  ma_ok : space_ok m';
  ma_byte y : byte m' y = if decide (a <= y < a + n) then Some 0 else byte m y;
  ma_perms : perms_set (mspace m) (mspace m') a (a + n) r w x
}.

Lemma bits_top : 2 ^ bits <= two64.
Proof. destruct two_pow_bits as [-> | ->]; done. Qed.

Lemma allocate_hole m a n name off :
  space_ok m -> aligned a -> 0 <= a -> aligned n -> 0 < n -> a + n <= 2 ^ bits - kPageSize ->
  inside_invalid (mheap m) (maps (mspace m)) a n ->
  exists m', vmill_allocate_memory m a n name off = Ok m' /\ mapped_at m m' a n true true false.
Proof.
  intros [Hwf Hw Hmask] Hal Ha Hn Hpos Htop Hin. pose proof bits_top. unfold kPageSize in *.
  assert (Hr : RoundUpToPage n = n) by (apply RoundUp_whole; [done|unfold kPageSize; lia]).
  assert (Hu : u64 a) by (unfold u64; lia). assert (Hd : AlignDownToPage a = a) by (by apply AlignDownToPage_id).
  destruct (AddMap_spec (mheap m) (mspace m) a n name off) as (h' & s' & Heq & [Hx Hw' Hm' Ht Habs Hp _]); [done|done| | |].
  - split; [done|done|]. rewrite Hd, Hmask. unfold kPageSize. lia.
  - apply hole_removable; try done; rewrite Hr; done.
  - exists (MkMem h' s' (gTask m)). split; [cbn; unfold allocate_memory; by rewrite Heq|].
    unfold request_limit in Hp. rewrite Hd, Hr in Hp. split; [split; [apply Hx|done|cbn; by rewrite Hm']| |done].
    intros y. cbn. rewrite Habs. assert (in_request a n y <-> a <= y < a + n) by (unfold in_request, request_limit; by rewrite Hd, Hr).
    repeat case_decide; tauto.
Qed.

Lemma protect_step m a n r w x :
  space_ok m -> aligned a -> 0 <= a -> aligned n -> 0 < n -> a + n <= 2 ^ bits - kPageSize ->
  exists m', vmill_protect_memory m a n r w x = Ok m' /\ space_ok m' /\ (forall y, byte m' y = byte m y) /\
    perms_set (mspace m) (mspace m') a (a + n) r w x.
Proof.
  intros [Hwf Hw Hmask] Hal Ha Hn Hpos Htop. pose proof bits_top. unfold kPageSize in *.
  assert (Hr : RoundUpToPage n = n) by (apply RoundUp_whole; [done|unfold kPageSize; lia]).
  assert (Hu : u64 a) by (unfold u64; lia). assert (Hd : AlignDownToPage a = a) by (by apply AlignDownToPage_id).
  destruct (SetPermissions_spec (mheap m) (mspace m) a n r w x) as (s' & Heq & Hw' & Hp & Hm' & _ & Hps);
    [done|apply Hw|done|unfold u64; lia|].
  exists (MkMem (mheap m) s' (gTask m)). split; [cbn; unfold protect_memory; by rewrite Heq|].
  split; [split; [done|done|cbn; by rewrite Hm']|]. split.
  - intros y. cbn. unfold abs. apply abs_maps_perm; [done|]. apply (wm_disjoint _ _ _ (ws_maps _ _ Hw')).
  - cbn. rewrite Hd, Hr, add64_small in Hps by lia. done.
Qed.

Lemma perms_set_twice s1 s2 s3 a b r1 w1 x1 r2 w2 x2 :
  perms_set s1 s2 a b r1 w1 x1 -> perms_set s2 s3 a b r2 w2 x2 -> perms_set s1 s3 a b r2 w2 x2.
Proof.
  intros H1 H2 p. destruct (H1 p) as (A1 & B1 & C1), (H2 p) as (A2 & B2 & C2). rewrite A2, B2, C2, A1, B1, C1.
  by destruct (in_pages a b p).
Qed.

(** The highest address of any mapping is below the top of the space. *)
Lemma mmap_bounds_top flags a : 0 < fst (mmap_bounds (M := M) flags a) <= 2 ^ bits - kPageSize.
Proof.
  unfold mmap_bounds, kAllocMax, k4GiB, k1GiB, kPageSize. rewrite addr_bits_eq.
  destruct HB as [-> | ->]; cbn; [lia|]. destruct (has flags MAP_32BIT); cbn; lia.
Qed.

Lemma find_hole_call m lo hi n :
  space_ok m -> u64 lo -> aligned lo -> 0 <= hi <= 2 ^ bits - kPageSize -> aligned n -> 0 < n <= 2 ^ bits - kPageSize ->
  exists a, vmill_find_unmapped_address m lo hi n = Ok a /\
    (a <> 0 -> aligned a /\ lo <= a /\ a + n <= hi /\ inside_invalid (mheap m) (maps (mspace m)) a n) /\
    (0 < lo -> roomy (mheap m) (maps (mspace m)) lo (AlignDownToPage hi) n -> a <> 0).
Proof.
  intros [Hwf Hw Hmask] Hlo Hal Hhi Hn Hpos. pose proof bits_top. unfold kPageSize in *.
  assert (Hr : RoundUpToPage n = n) by (apply RoundUp_whole; [done|unfold kPageSize; lia]).
  assert (Hd : AlignDownToPage lo = lo) by (by apply AlignDownToPage_id).
  assert (Hu : u64 hi) by (unfold u64; lia).
  destruct (FindHole_spec (mheap m) (mspace m) lo hi n) as (b & hole & Heq & Hok & Hroom); [done..|unfold kPageSize; lia|].
  pose proof (AlignDownToPage_range hi Hu). rewrite Hd, Hr in *.
  exists (if b then hole else 0). split; [cbn; unfold find_unmapped_address; by rewrite Heq|]. split.
  - destruct b; [|done]. intros _. destruct (Hok eq_refl) as (E1 & E2 & E3 & _).
    destruct E3 as [E3 E4]; [rewrite Hmask; unfold kPageSize; lia|]. split; [done|]. split; [done|]. split; [lia|done].
  - intros Hl0 Hroomy. rewrite (Hroom Hroomy) in *. destruct (Hok eq_refl) as (E1 & _). lia.
Qed.
Context {St H : Type} `{FH : FileHost H} (syscall : SystemCallABI M St).
Implicit Types (w : World M St H).

(** The end of [mmap]: the permissions asked for are in force. *)
Lemma mmap_anonymous_spec w t a n prot flags offset :
  tasks (os w) !! current w = Some t -> space_ok (memory w) ->
  aligned a -> 0 <= a -> aligned n -> 0 < n -> a + n <= 2 ^ bits - kPageSize ->
  inside_invalid (mheap (memory w)) (maps (mspace (memory w))) a n ->
  exists m', mapped_at (memory w) m' a n (has prot PROT_READ) (has prot PROT_WRITE) (has prot PROT_EXEC) /\
    call_returns syscall w m' (host w) a (mmap_map syscall (current w) a n prot flags (-1) offset w).
Proof.
  intros Ht Hok Hal Ha Hn Hpos Htop Hin. unfold mmap_map. cbn [Z.leb Z.compare].
  set (name := if has flags MAP_STACK then Some "[stack]"%string else None).
  destruct (allocate_hole (memory w) a n name 0) as (m1 & Hm1 & [Hok1 Hb1 Hp1]); [done..|].
  sys_step (change_memory_step (fun m => vmill_allocate_memory m a n name 0) w m1 Hm1).
  unfold mmap_finish.
  destruct (has prot PROT_EXEC || negb (has prot PROT_READ) || negb (has prot PROT_WRITE)) eqn:Ec.
  - destruct (protect_step m1 a n (has prot PROT_READ) (has prot PROT_WRITE) (has prot PROT_EXEC)) as (m2 & Hm2 & Hok2 & Hb2 & Hp2); [done..|].
    sys_step (change_memory_step (fun m => vmill_protect_memory m a n (has prot PROT_READ) (has prot PROT_WRITE) (has prot PROT_EXEC))
                (with_memory w m1) m2 Hm2).
    exists m2. split; [split; [done|intros y; by rewrite Hb2, Hb1|by eapply perms_set_twice]|].
    eapply Return_returns; [exact Ht|]. by destruct w.
  - apply orb_false_iff in Ec as [[Ex Er]%orb_false_iff Ew]. apply negb_false_iff in Er, Ew. rewrite Ex, Er, Ew.
    exists m1. split; [done|]. eapply Return_returns; [exact Ht|]. by destruct w.
Qed.

End calls.

(** C21: an anonymous [mmap] without [MAP_FIXED] returns fresh memory: for
    acceptable flags and a non-empty size the call returns either [-ENOMEM], with
    nothing changed, or a page-aligned address at or above [kMmapMinAddr] such that the
    pages below the limit of the allocator that it names were inside one
    unmapped range, now read as zero and have exactly the permissions asked
    for, while every other byte and permission is as before and the address space
    is well formed; and it does not fail if some unmapped range has room. *)
Theorem mmap_fresh_memory {vc bits} `{HB : !AddrBits bits} {St H} `{FH : FileHost H} (syscall : SystemCallABI (Mem vc bits) St)
    (w : World (Mem vc bits) St H) t scale addr size prot flags fd offset flags' :
  let n := AlignToNextPage (M := Mem vc bits) size in
  let top := fst (mmap_bounds (M := Mem vc bits) (as_int flags) addr) in
  let m := memory w in
  tasks (os w) !! current w = Some t ->
  TryGetArgs syscall (current w) 6 w = Ok (Some [addr; size; prot; flags; fd; offset], w) ->
  space_ok m -> as_int fd = -1 -> n <> 0 ->
  mmap_check_flags (-1) (as_int flags) = inr flags' -> has flags' MAP_FIXED = false ->
  let result := SysMmap syscall scale (current w) w in
  (exists a m', call_returns syscall w m' (host w) a result /\ aligned a /\ kMmapMinAddr <= a /\ a + n <= top /\
     inside_invalid (mheap m) (maps (mspace m)) a n /\
     mapped_at m m' a n (has (as_int prot) PROT_READ) (has (as_int prot) PROT_WRITE) (has (as_int prot) PROT_EXEC)) \/
  (call_returns syscall w m (host w) (- ENOMEM) result /\
   ~ roomy (mheap m) (maps (mspace m)) kMmapMinAddr (AlignDownToPage top) n).
Proof.
  intros n top m Ht Hargs Hok Hfd Hn Hfl Hfix result. subst result. unfold SysMmap. sys_step Hargs. fold n.
  destruct (AlignToNextPage_spec (vc := vc) (bits := bits) size) as [Hna Hnr]. fold n in Hna, Hnr.
  apply Z.eqb_neq in Hn as Hn0. rewrite Hn0, Hfd. unfold mmap_check_fd. cbn [Z.eqb Pos.eqb].
  pose proof (mmap_bounds_top (vc := vc) (bits := bits) (as_int flags) addr) as Htop. fold top in Htop.
  assert (Hb : exists a0, mmap_bounds (M := Mem vc bits) (as_int flags) addr = (top, a0)) by (exists (snd (mmap_bounds (M := Mem vc bits) (as_int flags) addr)); by destruct (mmap_bounds _ _)).
  destruct Hb as [a0 ->]. rewrite Hfl. unfold mmap_check_addr. rewrite Hfix. cbn [Z.eqb].
  destruct (find_hole_call m kMmapMinAddr top n) as (a & Hfind & Hgood & Hroom); [done|by vm_compute|done|lia|done|lia|].
  sys_step (ask_memory_step (fun m => vmill_find_unmapped_address m kMmapMinAddr top n) w a Hfind).
  destruct (Z.eqb_spec a 0) as [->|Ha].
  - right. split; [eapply Return_returns; [exact Ht|by destruct w]|]. intros Hr. by apply (Hroom eq_refl Hr).
  - left. destruct (Hgood Ha) as (Hal & Hlo & Hhi & Hin). unfold kMmapMinAddr in *.
    destruct (mmap_anonymous_spec syscall w t a n (as_int prot) flags' (as_int64 (as_int64 offset * scale)))
      as (m' & Hmap & Hret); [done|done|done|lia|done|lia|lia|done|].
    exists a, m'. done.
Qed.

#[local] Existing Instance pipe_host.

(** The demonstration space: two pages for reading only. *)
Lemma mmap_fresh_memory_witness :
  exists a w' t', SysMmap (args_abi [0; 5000; 1; 34; -1; 0]) 1 1%positive (pipe_world demo_mem []) = Ok (Returned, w') /\
    tasks (os w') !! 1%positive = Some t' /\ task_state t' = a /\ kMmapMinAddr <= a /\
    byte (memory w') a = Some 0 /\ CanWriteAligned (mspace (memory w')) a = false.
Proof.
  destruct (pipe_task demo_mem []) as [t Ht].
  destruct (mmap_fresh_memory (args_abi [0; 5000; 1; 34; -1; 0]) (pipe_world demo_mem []) t 1 0 5000 1 34 (-1) 0 34 Ht)
    as [(a & m' & (w' & t' & Hx & Hm & _ & _ & Ht' & Heq & _) & Hal & Hlo & Hhi & _ & Hmap)|[_ Hno]].
  - reflexivity.
  - exact demo_mem_ok.
  - reflexivity.
  - vm_compute. discriminate.
  - reflexivity.
  - reflexivity.
  - exists a, w', t'. split; [exact Hx|]. split; [exact Ht'|].
    change (AlignToNextPage 5000) with 8192 in *. unfold kMmapMinAddr in Hlo.
    change (fst (mmap_bounds (as_int 34) 0)) with 140737488355328 in Hhi.
    split; [rewrite (Heq t Ht); cbn; apply addr_wrap_small; change (2 ^ addr_bits) with two64; unfold two64; lia|].
    split; [exact Hlo|]. rewrite Hm. split.
    + rewrite (ma_byte _ _ _ _ _ _ _ Hmap). rewrite decide_True by lia. reflexivity.
    + destruct (ma_perms _ _ _ _ _ _ _ Hmap a) as (_ & Hw & _). rewrite Hw.
      assert (in_pages a (a + 8192) a = true) as ->; [|reflexivity].
      apply in_pages_iff. split; [exact Hal|lia].
  - exfalso. apply Hno. destruct (objs (mheap demo_mem) !! 4%positive) as [r|] eqn:Er; [|vm_compute in Er; discriminate Er].
    exists 4%positive, r. split; [split; [vm_compute; do 2 apply list_elem_of_further; apply list_elem_of_here|exact Er]|].
    vm_compute in Er. injection Er as <-. split; [reflexivity|]. vm_compute. discriminate.
Defined.
