(* ===== verification/LinuxFS.v ===== *)
(** * File system calls

    [vmill/Runtime/Linux/FS.cpp] after its first calls (which are in
    [LinuxIO.v]): the [stat] family, paths relative to a descriptor, links,
    directory entries and the small calls at the end.  Host structures are
    records, guest structures are the bytes that are stored. *)

From S2P Require Import Prelude GuestMemory Tasks LinuxTasks SystemCalls LinuxMM LinuxSys LinuxIO.

Local Abbreviation ptr := positive.

(** The members of the host's [struct stat], [struct statfs64] and
    [struct dirent] that are translated. *)
Record HostStat := MkStat {
  st_dev : Z; st_ino : Z; st_mode : Z; st_nlink : Z; st_uid : Z; st_gid : Z; st_rdev : Z;
  st_size : Z; st_blksize : Z; st_blocks : Z;
  (** Seconds and nanoseconds. *)
  st_atim : Z * Z; st_mtim : Z * Z; st_ctim : Z * Z
}.

Record HostStatFs := MkStatFs {
  f_type : Z; f_bsize : Z; f_blocks : Z; f_bfree : Z; f_bavail : Z; f_files : Z; f_ffree : Z;
  f_namelen : Z; f_frsize : Z; f_flags : Z
}.

Record HostDirEntry := MkDirEntry { d_ino : Z; d_off : Z; d_type : Z; d_name : list Z }.

(** The host calls of these handlers; a directory stream is a number. *)
Class FSHost (H : Type) := {
  h_stat : list Z -> H -> hostret HostStat * H;
  h_lstat : list Z -> H -> hostret HostStat * H;
  h_fstat : Z -> H -> hostret HostStat * H;
  h_statfs : list Z -> H -> hostret HostStatFs * H;
  h_fstatfs : Z -> H -> hostret HostStatFs * H;
  h_readlinkat : Z -> list Z -> Z -> H -> hostret (list Z) * H;
  h_getcwd_path : Z -> H -> hostret (list Z) * H;
  h_fcntl : Z -> Z -> Z -> H -> hostret Z * H;
  (** The result and [errno]. *)
  h_posix_fadvise : Z -> Z -> Z -> Z -> H -> (Z * Z) * H;
  h_eventfd : Z -> Z -> H -> hostret Z * H;
  h_mkdirat : Z -> list Z -> Z -> H -> hostret unit * H;
  h_rmdir : list Z -> H -> hostret unit * H;
  h_dup : Z -> H -> hostret Z * H;
  h_fdopendir : Z -> H -> hostret Z * H;
  h_seekdir : Z -> Z -> H -> unit * H;
  h_telldir : Z -> H -> Z * H;
  h_readdir : Z -> H -> option HostDirEntry * H;
  h_closedir : Z -> H -> unit * H
}.

Definition ERANGE : Z := 34.
Definition AT_SYMLINK_NOFOLLOW : Z := 256.
Definition AT_SYMLINK_FOLLOW : Z := 1024.
Definition gAtFollowNoFollow : Z := Z.lor AT_SYMLINK_FOLLOW AT_SYMLINK_NOFOLLOW.

(** ** Guest structures *)

(** The members of the guest's [stat] structures; [m_pad] is zero.  A structure
    is the list of its members with their sizes. *)
Inductive stat_member :=
  | m_pad | m_dev | m_ino | m_mode | m_nlink | m_uid | m_gid | m_rdev | m_size | m_blksize | m_blocks
  | m_atim_sec | m_atim_nsec | m_mtim_sec | m_mtim_nsec | m_ctim_sec | m_ctim_nsec.

Definition times (n : nat) : list (stat_member * nat) :=
  [(m_atim_sec, n); (m_atim_nsec, n); (m_mtim_sec, n); (m_mtim_nsec, n); (m_ctim_sec, n); (m_ctim_nsec, n)].

Definition linux32_stat : list (stat_member * nat) :=
  [(m_dev, 8); (m_pad, 2); (m_mode, 4); (m_nlink, 4); (m_uid, 4); (m_gid, 4); (m_rdev, 8); (m_pad, 2); (m_size, 8);
   (m_blksize, 4); (m_blocks, 8)]%nat ++ times 4 ++ [(m_ino, 8%nat)].

Definition linux64_stat : list (stat_member * nat) :=
  [(m_dev, 8); (m_ino, 8); (m_mode, 8); (m_nlink, 4); (m_uid, 4); (m_gid, 4); (m_pad, 4); (m_rdev, 8); (m_size, 8);
   (m_blksize, 8); (m_blocks, 8)]%nat ++ times 8 ++ [(m_pad, 24%nat)].

Definition linux32_stat64 : list (stat_member * nat) :=
  [(m_dev, 8); (m_pad, 4); (m_ino, 4); (m_mode, 4); (m_nlink, 4); (m_uid, 4); (m_gid, 4); (m_rdev, 8); (m_pad, 4);
   (m_size, 8); (m_blksize, 4); (m_blocks, 8)]%nat ++ times 4 ++ [(m_ino, 8%nat)].

(** [CopyStat] and [SetInodeNumber]: each member is converted to its type in
    the structure. *)
Definition stat_value (info : HostStat) (member : stat_member) : Z :=
  match member with
  | m_pad => 0
  | m_dev => st_dev info
  | m_ino => st_ino info
  | m_mode => st_mode info
  | m_nlink => st_nlink info
  | m_uid => st_uid info
  | m_gid => st_gid info
  | m_rdev => st_rdev info
  | m_size => st_size info
  | m_blksize => st_blksize info
  | m_blocks => st_blocks info
  | m_atim_sec => fst (st_atim info)
  | m_atim_nsec => snd (st_atim info)
  | m_mtim_sec => fst (st_mtim info)
  | m_mtim_nsec => snd (st_mtim info)
  | m_ctim_sec => fst (st_ctim info)
  | m_ctim_nsec => snd (st_ctim info)
  end.

Definition CopyStat (T : list (stat_member * nat)) (info : HostStat) : list Z :=
  '(member, size) ← T; le_bytes size (stat_value info member).

Definition linux32_statfs64 (info : HostStatFs) : list Z :=
  le_bytes 4 (f_type info) ++ le_bytes 4 (f_bsize info) ++ le_bytes 8 (f_blocks info) ++ le_bytes 8 (f_bfree info) ++
  le_bytes 8 (f_bavail info) ++ le_bytes 8 (f_files info) ++ le_bytes 8 (f_ffree info) ++ le_bytes 8 0 ++
  le_bytes 4 (f_namelen info) ++ le_bytes 4 (f_frsize info) ++ le_bytes 4 (f_flags info) ++ replicate 16 0.
Definition sizeof_linux32_statfs64 : Z := 84.

(** [linux_dirent64] without the name. *)
Definition dirent_size : Z := 19.
Definition linux_dirent64 (e : HostDirEntry) (reclen : Z) : list Z :=
  le_bytes 8 (d_ino e) ++ le_bytes 8 (d_off e) ++ le_bytes 2 reclen ++ le_bytes 1 (d_type e).

(** The C string a path buffer holds. *)
Fixpoint c_string (buf : gmap Z Z) (i : Z) (n : nat) : list Z :=
  match n with
  | O => []
  | S n => let c := gPath_at buf i in if c =? 0 then [] else c :: c_string buf (i + 1) n
  end.
Definition gPath_string (buf : gmap Z Z) : list Z := c_string buf 0 (Z.to_nat PATH_MAX).

Definition bytes_of_string (s : string) : list Z :=
  (fun c => Z.of_N (Ascii.N_of_ascii c)) <$> String.list_ascii_of_string s.

Section fs.
Context {M St H : Type} `{MO : MemoryOps M} `{FH : FileHost H} `{SH : SysHost H} `{IH : IOHost H} `{XH : FSHost H}.
Context (syscall : SystemCallABI M St).
Local Abbreviation sys := (SystemCalls.sys M St H).

(** The common end of the [stat] calls. *)
Definition write_stat {S : Type} (copy : S -> list Z) (state : ptr) (buf : Z) (info : hostret S) : sys status :=
  match info with
  | HostErr err => Return syscall state (- err)
  | HostOk info =>
      ok ← on_memory (fun m => TryWriteMemory m buf (copy info));
      if (ok : bool) then Return syscall state 0 else Return syscall state (- EFAULT)
  end.

(** [T] is the structure of the template. *)
Definition SysStat (T : list (stat_member * nat)) (state : ptr) : sys status :=
  args ← TryGetArgs syscall state 2;
  match args with
  | Some [path; buf] =>
      if (path =? 0) || (buf =? 0) then Return syscall state (- EINVAL)
      else
        p ← path_arg path;
        match p with
        | inl err => Return syscall state (- err)
        | inr p => info ← on_host (h_stat p); write_stat (CopyStat T) state buf info
        end
  | _ => Return syscall state (- EFAULT)
  end.

Definition SysLstat (T : list (stat_member * nat)) (state : ptr) : sys status :=
  args ← TryGetArgs syscall state 2;
  match args with
  | Some [path; buf] =>
      if (path =? 0) || (buf =? 0) then Return syscall state (- EINVAL)
      else
        p ← path_arg path;
        match p with
        | inl err => Return syscall state (- err)
        | inr p => info ← on_host (h_lstat p); write_stat (CopyStat T) state buf info
        end
  | _ => Return syscall state (- EFAULT)
  end.

Definition SysFstat (T : list (stat_member * nat)) (state : ptr) : sys status :=
  args ← TryGetArgs syscall state 2;
  match args with
  | Some [fd; buf] =>
      let fd := as_int fd in
      if fd <? 0 then Return syscall state (- EBADFD)
      else if buf =? 0 then Return syscall state (- EINVAL)
      else info ← on_host (h_fstat fd); write_stat (CopyStat T) state buf info
  | _ => Return syscall state (- EFAULT)
  end.

(** ** Paths relative to a descriptor *)

(** What [gIOBuffer] holds from position [n] to the next NUL, left there by
    earlier calls: the copy of the path is not terminated. *)
Context (gIOBuffer_tail : nat -> list Z).

(** [GetPathAt]; the condition on the flags is the code's
    [!(flags & AT_SYMLINK_NOFOLLOW) | (flags | AT_SYMLINK_FOLLOW)]. *)
Definition GetPathAt (fd : Z) (path : list Z) (flags : Z) : sys (option (list Z)) :=
  if bool_decide (head path = Some 47) then mret (Some path)
  else
    base_path ← GetBasePathAt fd;
    match base_path with
    | None => mret None
    | Some base_path =>
        let base_path := bytes_of_string base_path in
        let follow := Z.lor (if Z.land flags AT_SYMLINK_NOFOLLOW =? 0 then 1 else 0) (Z.lor flags AT_SYMLINK_FOLLOW) in
        let finish base := Some (base ++ [47] ++ path ++ gIOBuffer_tail (length base + 1 + length path)) in
        if negb (follow =? 0) then
          ret ← on_host (h_readlinkat AT_FDCWD base_path PATH_MAX);
          match ret with
          | HostErr _ => mret None
          | HostOk link => mret (finish link)
          end
        else mret (finish base_path)
    end.

Definition SysFStatAt (T : list (stat_member * nat)) (state : ptr) : sys status :=
  args ← TryGetArgs syscall state 4;
  match args with
  | Some [fd; path; buf; flag] =>
      let fd := as_int fd in
      let flag := as_int flag in
      if (path =? 0) || (buf =? 0) then Return syscall state (- EINVAL)
      else if Z.land flag gAtFollowNoFollow =? gAtFollowNoFollow then Return syscall state (- EINVAL)
      else
        p ← path_arg path;
        match p with
        | inl err => Return syscall state (- err)
        | inr p =>
            final_path ← GetPathAt fd p flag;
            match final_path with
            | None => Return syscall state (- EBADFD)
            | Some final_path => info ← on_host (h_stat final_path); write_stat (CopyStat T) state buf info
            end
        end
  | _ => Return syscall state (- EFAULT)
  end.

Definition path_string : sys (list Z) := fun w => Ok (gPath_string (SystemCalls.gPath w), w).

Definition store_cwd (chars : list Z) (size : Z) : sys () :=
  fun w => Ok (tt, with_path w (gPath_store (SystemCalls.gPath w) chars size)).

(** A path is stored without looking at how it ends. *)
Definition unchecked_path (path : Z) : sys (Z * list Z) :=
  chars ← copy_path path;
  p ← path_string;
  mret (Z.of_nat (length chars), p).

Definition SysGetCurrentWorkingDirectory (state : ptr) : sys status :=
  args ← TryGetArgs syscall state 2;
  match args with
  | Some [buf; size] =>
      if buf =? 0 then Return syscall state (- EINVAL)
      else
        ret ← on_host (h_getcwd_path size);
        match ret with
        | HostErr err => Return syscall state (- err)
        | HostOk cwd =>
            (if size <? PATH_MAX then store_cwd cwd size else mret tt);;
            let cwd_len := Z.of_nat (length cwd) in
            if size <=? cwd_len then Return syscall state (- ERANGE)
            else
              copied_len ← on_memory (fun m => CopyStringToMemory m buf (cwd ++ [0]) (cwd_len + 1));
              if (copied_len : Z) =? cwd_len then Return syscall state (cwd_len + 1) else Return syscall state (- EFAULT)
        end
  | _ => Return syscall state (- EFAULT)
  end.

(** [SysReadLink] ([dirfd] is then [AT_FDCWD]) and [SysReadLinkAt]. *)
Definition read_link (dirfd path buf size : Z) (state : ptr) : sys status :=
  if to_signed addr_bits size <? 0 then Return syscall state (- EINVAL)
  else if buf =? 0 then Return syscall state (- EINVAL)
  else
    '(path_len, p) ← unchecked_path path;
    if path_len =? 0 then Return syscall state (- EFAULT)
    else
      max_size ← ask_memory (fun m => NumWritableBytes m buf size);
      if max_size =? 0 then Return syscall state (- EFAULT)
      else
        link_path ← on_memory (fun m => CopyFromMemory m buf (Z.to_nat max_size));
        ret ← on_host (h_readlinkat dirfd p max_size);
        match ret with
        | HostErr err => Return syscall state (- err)
        | HostOk link =>
            change_memory (fun m => CopyToMemory m buf (link ++ drop (length link) link_path));;
            Return syscall state (Z.of_nat (length link))
        end.

Definition SysReadLink (state : ptr) : sys status :=
  args ← TryGetArgs syscall state 3;
  match args with
  | Some [path; buf; size] => read_link AT_FDCWD path buf size state
  | _ => Return syscall state (- EFAULT)
  end.

Definition SysReadLinkAt (state : ptr) : sys status :=
  args ← TryGetArgs syscall state 4;
  match args with
  | Some [fd; path; buf; size] => read_link (as_int fd) path buf size state
  | _ => Return syscall state (- EFAULT)
  end.

(** ** Directory entries *)

(** [alignof(entry.d_ino)]: the compiler's answer for a packed member. *)
Context (d_ino_align : Z).

Definition entry_size (name_len : Z) : Z :=
  let to_write := dirent_size + name_len + 1 in
  if to_write mod d_ino_align =? 0 then to_write else to_write + (d_ino_align - to_write mod d_ino_align).

(** The loop; the result is the number of bytes and the position to go back
    to.  Each iteration stores at least one byte more. *)
Fixpoint dirent_loop (fuel : nat) (dir dirent count pos written : Z) : sys (Z * Z) :=
  match fuel with
  | O => stop Diverges
  | S fuel =>
      pos ← (if written =? 0 then mret pos else on_host (h_telldir dir));
      our_entry ← on_host (h_readdir dir);
      match our_entry with
      | None => mret (written, pos)
      | Some e =>
          let name_len := Z.of_nat (length (d_name e)) in
          let entry_addr := addr_wrap (dirent + written) in
          let to_write := entry_size name_len in
          if count <? written + to_write then mret (written, pos)
          else
            _ ← on_memory (fun m => TryWriteMemory m entry_addr (linux_dirent64 e (to_write mod 65536)));
            _ ← on_memory (fun m => CopyStringToMemory m (addr_wrap (entry_addr + dirent_size)) (d_name e ++ [0]) (name_len + 1));
            dirent_loop fuel dir dirent count pos (as_uint32 (written + to_write))
      end
  end.

Definition SysGetDirEntries64 (state : ptr) : sys status :=
  args ← TryGetArgs syscall state 3;
  match args with
  | Some [fd; dirent; count] =>
      let fd := as_int fd in
      let count := as_uint32 count in
      ok ← ask_memory (fun m => CanWriteMemory m dirent count);
      if negb ok then Return syscall state (- EFAULT)
      else
        pos ← on_host (h_lseek fd 0 SEEK_CUR);
        let pos := match pos with HostOk p => p | HostErr _ => -1 end in
        our_fd ← on_host (h_dup fd);
        match our_fd with
        | HostErr err => Return syscall state (- err)
        | HostOk our_fd =>
            dir ← on_host (h_fdopendir our_fd);
            match dir with
            | HostErr err => _ ← on_host (h_close our_fd); Return syscall state (- err)
            | HostOk dir =>
                _ ← on_host (h_seekdir dir pos);
                '(ret, pos) ← dirent_loop (S (Z.to_nat count)) dir dirent count pos 0;
                _ ← on_host (h_lseek fd pos SEEK_SET);
                _ ← on_host (h_closedir dir);
                Return syscall state ret
            end
        end
  | _ => Return syscall state (- EFAULT)
  end.

(** ** Small calls *)

(** [F_DUPFD], [F_GETFD], [F_SETFD], [F_GETFL] and [F_SETFL]; any other
    command is reported as done. *)
Definition SysFcntl64 (state : ptr) : sys status :=
  args ← TryGetArgs syscall state 3;
  match args with
  | Some [fd; cmd; arg] =>
      let cmd := as_int cmd in
      if (0 <=? cmd) && (cmd <=? 4) then ret ← on_host (h_fcntl (as_int fd) cmd arg); return_host syscall state ret
      else Return syscall state 0
  | _ => Return syscall state (- EFAULT)
  end.

Definition SysStatFs64 (copy : HostStatFs -> list Z) (sizeof : Z) (state : ptr) : sys status :=
  args ← TryGetArgs syscall state 3;
  match args with
  | Some [file; buf_size; buf] =>
      if negb (buf_size =? sizeof) then Return syscall state (- EINVAL)
      else
        p ← path_arg file;
        match p with
        | inl err => Return syscall state (- err)
        | inr p => info ← on_host (h_statfs p); write_stat copy state buf info
        end
  | _ => Return syscall state (- EFAULT)
  end.

Definition SysFStatFs64 (copy : HostStatFs -> list Z) (sizeof : Z) (state : ptr) : sys status :=
  args ← TryGetArgs syscall state 3;
  match args with
  | Some [fd; buf_size; buf] =>
      if negb (buf_size =? sizeof) then Return syscall state (- EINVAL)
      else info ← on_host (h_fstatfs (as_int fd)); write_stat copy state buf info
  | _ => Return syscall state (- EFAULT)
  end.

(** With [int32_t] offsets and lengths. *)
Definition SysFAdvise (state : ptr) : sys status :=
  args ← TryGetArgs syscall state 4;
  match args with
  | Some [fd; offset; len; advice] =>
      '(ret, err) ← on_host (h_posix_fadvise (as_int fd) (as_int offset) (as_int len) (as_int advice));
      if ret =? -1 then Return syscall state (- err) else Return syscall state 0
  | _ => Return syscall state (- EFAULT)
  end.

Definition SysEventFd (state : ptr) : sys status :=
  args ← TryGetArgs syscall state 1;
  match args with
  | Some [count] => ret ← on_host (h_eventfd (as_uint32 count) 0); return_host syscall state ret
  | _ => Return syscall state (- EFAULT)
  end.

Definition SysEventFd2 (state : ptr) : sys status :=
  args ← TryGetArgs syscall state 2;
  match args with
  | Some [count; flags] => ret ← on_host (h_eventfd (as_uint32 count) (as_int flags)); return_host syscall state ret
  | _ => Return syscall state (- EFAULT)
  end.

(** The common end of the calls that return 0. *)
Definition return_done (state : ptr) (ret : hostret unit) : sys status :=
  match ret with
  | HostErr err => Return syscall state (- err)
  | HostOk _ => Return syscall state 0
  end.

Definition SysMakeDirectory (state : ptr) : sys status :=
  args ← TryGetArgs syscall state 2;
  match args with
  | Some [path; mode] =>
      '(_, p) ← unchecked_path path;
      ret ← on_host (h_mkdirat AT_FDCWD p (as_uint32 mode)); return_done state ret
  | _ => Return syscall state (- EFAULT)
  end.

Definition SysMakeDirectoryAt (state : ptr) : sys status :=
  args ← TryGetArgs syscall state 3;
  match args with
  | Some [dirfd; path; mode] =>
      '(_, p) ← unchecked_path path;
      ret ← on_host (h_mkdirat (as_int dirfd) p (as_uint32 mode)); return_done state ret
  | _ => Return syscall state (- EFAULT)
  end.

Definition SysRemoveDirectory (state : ptr) : sys status :=
  args ← TryGetArgs syscall state 1;
  match args with
  | Some [path] => '(_, p) ← unchecked_path path; ret ← on_host (h_rmdir p); return_done state ret
  | _ => Return syscall state (- EFAULT)
  end.

Definition SysDup (state : ptr) : sys status :=
  args ← TryGetArgs syscall state 1;
  match args with
  | Some [fd] => ret ← on_host (h_dup (as_int fd)); return_host syscall state ret
  | _ => Return syscall state (- EFAULT)
  end.
End fs.
