(* ===== verification/FSProps.v ===== *)
(** * What the directory and path calls promise

    [getdents64] delivers a prefix of the directory and leaves the descriptor
    at the first entry it did not deliver; the calls that take a path relative
    to a descriptor reject most of them. *)

From S2P Require Import Prelude Pages GuestMemory MemoryInstance Tasks LinuxTasks SystemCalls FutexProps LinuxMM LinuxSys LinuxIO IOProps LinuxFS.

Local Abbreviation ptr := positive.

(** The [static_assert]s of [Run.h]. *)
Lemma CopyStat_length T info : length (CopyStat T info) = sum_list_with snd T.
Proof. induction T as [|[m n] T IH]; [done|]. cbn. rewrite length_app, length_le_bytes. by f_equal. Qed.

Lemma stat_sizes info : length (CopyStat linux32_stat info) = 88%nat /\ length (CopyStat linux64_stat info) = 144%nat /\
  length (CopyStat linux32_stat64 info) = 96%nat.
Proof. by rewrite !CopyStat_length. Qed.

Lemma CopyStat_ok T info : Forall byte_ok (CopyStat T info).
Proof. induction T as [|[m n] T IH]; [by constructor|]. cbn. apply Forall_app. split; [apply le_bytes_ok|done]. Qed.

Lemma statfs_size info : Z.of_nat (length (linux32_statfs64 info)) = sizeof_linux32_statfs64.
Proof. unfold linux32_statfs64. by rewrite !length_app, !length_le_bytes. Qed.

(** ** Records in guest memory *)

Section records.
Context {M : Type} `{ML : MemoryLaws M} (align : Z) (Halign : 0 < align).
Implicit Types (m : M) (e : HostDirEntry).

Lemma entry_size_lower n : 0 <= n -> n + 20 <= entry_size align n.
Proof.
  intros Hn. unfold entry_size, dirent_size. pose proof (Z.mod_pos_bound (19 + n + 1) align Halign).
  destruct (_ =? 0); lia.
Qed.

(** The size of an entry's record, and the bytes stored of it. *)
Definition record_size e : Z := entry_size align (Z.of_nat (length (d_name e))).
Definition record_bytes e : list Z := linux_dirent64 e (record_size e mod 65536) ++ d_name e ++ [0].

(** A name as the host delivers it. *)
Definition good_entry e : Prop :=
  Z.of_nat (length (d_name e)) <= 255 /\ Forall (fun c => c <> 0 /\ byte_ok c) (d_name e).

Fixpoint total_size (es : list HostDirEntry) : Z :=
  match es with [] => 0 | e :: es => record_size e + total_size es end.

(** The longest prefix of [es] whose records fit [room] bytes. *)
Fixpoint fitting (room : Z) (es : list HostDirEntry) : list HostDirEntry :=
  match es with
  | [] => []
  | e :: es => if room <? record_size e then [] else e :: fitting (room - record_size e) es
  end.

(** The records of [es] lie one after the other from [a] on. *)
Fixpoint records_at m (a : Z) (es : list HostDirEntry) : Prop :=
  match es with
  | [] => True
  | e :: es => (forall i b, record_bytes e !! i = Some b -> byte m (a + Z.of_nat i) = Some b) /\
               records_at m (a + record_size e) es
  end.

(** [m'] differs from [m] in no permission and in no byte outside
    [[lo, hi)]. *)
Definition changed_within m m' (lo hi : Z) : Prop :=
  (forall x, ~ (lo <= x < hi) -> byte m' x = byte m x) /\ (forall x, is_Some (byte m x) -> is_Some (byte m' x)) /\
  (forall x, vmill_can_read_byte m' x = vmill_can_read_byte m x) /\
  (forall x, vmill_can_write_byte m' x = vmill_can_write_byte m x).

Lemma changed_refl m lo hi : changed_within m m lo hi.
Proof. done. Qed.

Lemma changed_trans m1 m2 m3 lo1 hi1 lo2 hi2 lo hi :
  changed_within m1 m2 lo1 hi1 -> changed_within m2 m3 lo2 hi2 ->
  (hi1 <= lo1 \/ lo <= lo1 /\ hi1 <= hi) -> (hi2 <= lo2 \/ lo <= lo2 /\ hi2 <= hi) -> changed_within m1 m3 lo hi.
Proof.
  intros (A1 & B1 & C1 & D1) (A2 & B2 & C2 & D2) H1 H2. split_and!; intros x; [|by eauto|congruence|congruence].
  intros Hx. rewrite A2 by lia. apply A1. lia.
Qed.

Lemma stored_changed m m' a bs : stored byte m m' a bs -> changed_within m m' a (a + Z.of_nat (length bs)).
Proof.
  intros (HA & HB & HC). split_and!; [| |done|done]; intros x Hx; rewrite HA.
  - by rewrite decide_False.
  - case_decide; [|done]. apply lookup_lt_is_Some. lia.
Qed.

Lemma length_linux_dirent64 e r : length (linux_dirent64 e r) = 19%nat.
Proof. unfold linux_dirent64. by rewrite !length_app, !length_le_bytes. Qed.

Lemma length_record_bytes e : Z.of_nat (length (record_bytes e)) = 20 + Z.of_nat (length (d_name e)).
Proof. unfold record_bytes. rewrite !length_app, length_linux_dirent64. cbn. lia. Qed.

Lemma record_size_lower e : 20 + Z.of_nat (length (d_name e)) <= record_size e.
Proof. unfold record_size. pose proof (entry_size_lower (Z.of_nat (length (d_name e)))). lia. Qed.

Lemma total_size_nonneg es : 0 <= total_size es.
Proof. induction es as [|e es IH]; cbn; [done|]. pose proof (record_size_lower e). lia. Qed.

Lemma fitting_total es : forall room, 0 <= room -> total_size (fitting room es) <= room.
Proof.
  induction es as [|e es IH]; intros room Hr; cbn; [done|]. destruct (Z.ltb_spec room (record_size e)); cbn; [done|].
  specialize (IH (room - record_size e)). lia.
Qed.

Lemma fitting_prefix es : forall room, fitting room es `prefix_of` es.
Proof.
  induction es as [|e es IH]; intros room; cbn; [done|]. destruct (_ <? _); [apply prefix_nil|]. by apply prefix_cons.
Qed.

(** Bytes stored behind a list of records do not disturb it. *)
Lemma records_at_changed es : forall m m' a lo hi,
  records_at m a es -> changed_within m m' lo hi -> a + total_size es <= lo -> records_at m' a es.
Proof.
  induction es as [|e es IH]; intros m m' a lo hi; [done|]. cbn [records_at total_size]. intros [Hb Hr] Hc Hlo.
  pose proof (record_size_lower e). pose proof (total_size_nonneg es). split.
  - intros i b Hi. pose proof (lookup_lt_Some _ _ _ Hi) as Hlt. pose proof (length_record_bytes e).
    destruct Hc as (HA & _). rewrite HA by lia. by apply Hb.
  - eapply IH; [done|done|lia].
Qed.

Lemma records_at_app es1 es2 m a :
  records_at m a es1 -> records_at m (a + total_size es1) es2 -> records_at m a (es1 ++ es2).
Proof.
  revert a. induction es1 as [|e es IH]; intros a; cbn; [by rewrite Z.add_0_r|]. intros [Hb Hr] H2. split; [done|].
  apply IH; [done|]. by rewrite <- Z.add_assoc.
Qed.

Lemma total_size_app es1 es2 : total_size (es1 ++ es2) = total_size es1 + total_size es2.
Proof. induction es1 as [|e es IH]; cbn; [done|]. lia. Qed.

(** ** Stores into memory that is known to be writable *)

Lemma num_writable_small m a n :
  mem_ok m -> 0 < n <= 4096 -> 0 <= a < mem_limit m -> vmill_can_write_byte m a = true -> NumWritableBytes m a n = Ok n.
Proof.
  intros Hm Hn Ha Hc. unfold NumWritableBytes. rewrite num_bytes_small by lia.
  rewrite addr_wrap_small by (apply (below_limit m); [done|lia]). by rewrite Hc.
Qed.

Lemma TryWriteMemory_accessible m a data :
  mem_ok m -> 0 <= a -> (0 < length data <= 4096)%nat -> a + Z.of_nat (length data) <= mem_limit m -> Forall byte_ok data ->
  accessible_bytes vmill_can_write_byte m a (Z.of_nat (length data)) ->
  exists m', TryWriteMemory m a data = Ok (true, m') /\ mem_ok m' /\ mem_limit m' = mem_limit m /\ stored byte m m' a data.
Proof.
  intros Hm Ha Hn Hl Hb Hacc. unfold TryWriteMemory, CanWriteMemory.
  rewrite num_writable_small by (try lia; try done; apply Hacc; lia). cbn [mbind outcome_bind]. rewrite Z.eqb_refl.
  destruct (CopyToMemory_spec data m a) as (m' & -> & Hrest); try done. by exists m'.
Qed.

Lemma copy_string_to_spec cs : forall m a n,
  mem_ok m -> 0 <= a -> a + Z.of_nat (length cs) + 1 <= mem_limit m -> n = S (length cs) ->
  Forall (fun c => c <> 0 /\ byte_ok c) cs -> accessible_bytes vmill_can_write_byte m a (Z.of_nat (length cs) + 1) ->
  exists m', copy_string_to m a (cs ++ [0]) n = Ok (Z.of_nat (length cs), m') /\ mem_ok m' /\ mem_limit m' = mem_limit m /\
    stored byte m m' a (cs ++ [0]).
Proof.
  induction cs as [|c cs IH]; intros m a n Hm Ha Hl -> Hcs Hacc; cbn [app copy_string_to].
  - destruct (Hacc a) as [Hs Hc]; [cbn; lia|]. cbn [length] in Hl.
    destruct (write_1 m a 0) as (m' & -> & Hrest); [done|done|lia|done|done|unfold byte_ok; lia|]. cbn. by exists m'.
  - apply Forall_cons in Hcs as [[Hc Hbc] Hcs]. cbn [length] in *. destruct (Hacc a) as [Hs Hw]; [lia|].
    destruct (write_1 m a c) as (m1 & -> & Hm1 & Hl1 & Hst); [done|done|lia|done|done|done|]. cbn [mbind outcome_bind].
    apply Z.eqb_neq in Hc. rewrite Hc. rewrite addr_wrap_small by (apply (below_limit m); [done|lia]).
    destruct (IH m1 (a + 1) (S (length cs))) as (m2 & -> & Hm2 & Hl2 & Hst2); [done|lia|lia|done|done| |].
    { intros x Hx. destruct Hst as (HA & _ & HC). rewrite HA, HC. case_decide as Hd; [cbn in Hd; lia|]. apply Hacc. lia. }
    cbn. exists m2. split; [do 2 f_equal; lia|]. split; [done|]. split; [congruence|]. by eapply stored_cons.
Qed.

Lemma CopyStringToMemory_accessible m a cs :
  mem_ok m -> 0 <= a -> Z.of_nat (length cs) < 4096 -> a + Z.of_nat (length cs) + 1 <= mem_limit m ->
  Forall (fun c => c <> 0 /\ byte_ok c) cs -> accessible_bytes vmill_can_write_byte m a (Z.of_nat (length cs) + 1) ->
  exists m', CopyStringToMemory m a (cs ++ [0]) (Z.of_nat (length cs) + 1) = Ok (Z.of_nat (length cs), m') /\ mem_ok m' /\
    mem_limit m' = mem_limit m /\ stored byte m m' a (cs ++ [0]).
Proof.
  intros Hm Ha Hn Hl Hcs Hacc. unfold CopyStringToMemory.
  rewrite num_writable_small by (try lia; try done; apply Hacc; lia). cbn [mbind outcome_bind].
  apply copy_string_to_spec; try done. lia.
Qed.

Lemma linux_dirent64_bytes e r : Forall byte_ok (linux_dirent64 e r).
Proof. unfold linux_dirent64. rewrite !Forall_app. repeat split; apply le_bytes_ok. Qed.

Lemma stored_app m m1 m2 a bs1 bs2 :
  stored byte m m1 a bs1 -> stored byte m1 m2 (a + Z.of_nat (length bs1)) bs2 -> stored byte m m2 a (bs1 ++ bs2).
Proof.
  intros (A1 & B1 & C1) (A2 & B2 & C2). split_and!; intros x; [|congruence|congruence]. rewrite A2, A1, length_app.
  repeat case_decide; try lia; try done.
  - rewrite lookup_app_r by lia. f_equal. lia.
  - by rewrite lookup_app_l by lia.
Qed.

(** The two stores of an iteration write the record. *)
Lemma store_record m a e :
  mem_ok m -> 0 <= a -> good_entry e -> a + record_size e <= mem_limit m ->
  accessible_bytes vmill_can_write_byte m a (record_size e) ->
  exists m1 m2, TryWriteMemory m a (linux_dirent64 e (record_size e mod 65536)) = Ok (true, m1) /\
    CopyStringToMemory m1 (addr_wrap (a + dirent_size)) (d_name e ++ [0]) (Z.of_nat (length (d_name e)) + 1)
      = Ok (Z.of_nat (length (d_name e)), m2) /\
    mem_ok m2 /\ mem_limit m2 = mem_limit m /\ stored byte m m2 a (record_bytes e).
Proof.
  intros Hm Ha [Hn Hcs] Hl Hacc. pose proof (record_size_lower e) as Hlow. unfold dirent_size.
  destruct (TryWriteMemory_accessible m a (linux_dirent64 e (record_size e mod 65536))) as (m1 & Hw & Hm1 & Hl1 & Hst1);
    rewrite ?length_linux_dirent64; [done|done|lia|lia|apply linux_dirent64_bytes|intros x Hx; apply Hacc; lia|].
  destruct (CopyStringToMemory_accessible m1 (a + 19) (d_name e)) as (m2 & Hc & Hm2 & Hl2 & Hst2); [done|lia|lia|lia|done| |].
  { intros x Hx. destruct (stored_changed _ _ _ _ Hst1) as (HA & _ & _ & HD).
    rewrite length_linux_dirent64 in HA. rewrite HD, HA by lia. apply Hacc. lia. }
  exists m1, m2. split; [done|]. rewrite addr_wrap_small by (apply (below_limit m); [done|lia]).
  split; [done|]. split; [done|]. split; [congruence|]. unfold record_bytes. eapply stored_app; [done|].
  by rewrite length_linux_dirent64.
Qed.
End records.

(** ** The directory loop *)

(** What the loop relies on of the host's directory streams: [reads h] are the
    entries still to be read from [dir]; [readdir] delivers them in order,
    [telldir] does not move, and a position it returned stands for the entries
    that were still to be read then. *)
Record dir_laws {H} `{XH : FSHost H} (dir : Z) (reads : H -> list HostDirEntry) (at_pos : Z -> list HostDirEntry) : Prop := {
  law_readdir h : fst (h_readdir dir h) = head (reads h) /\ reads (snd (h_readdir dir h)) = tail (reads h);
  law_telldir h : at_pos (fst (h_telldir dir h)) = reads h /\ reads (snd (h_telldir dir h)) = reads h
}.

Section directory.
Context {M St H : Type} `{ML : MemoryLaws M} `{XH : FSHost H} (align : Z) (Halign : 0 < align).
Context (dir : Z) (reads : H -> list HostDirEntry) (at_pos : Z -> list HostDirEntry) (laws : dir_laws dir reads at_pos).
Implicit Types (w : World M St H).

(** Room for [room] more bytes at [a]. *)
Record room_at (m : M) (a room : Z) : Prop := {
  room_ok : mem_ok m;
  room_range : 0 <= a /\ 0 <= room /\ a + room <= mem_limit m;
  room_access : accessible_bytes vmill_can_write_byte m a room
}.

Lemma room_after m m' a room e :
  room_at m a room -> stored byte m m' a (record_bytes align e) -> mem_ok m' -> mem_limit m' = mem_limit m ->
  record_size align e <= room -> room_at m' (a + record_size align e) (room - record_size align e).
Proof.
  intros [Hm Hr Ha] Hst Hm' Hl' Hs. pose proof (record_size_lower align Halign e). split; [done|lia|].
  intros x Hx. destruct (stored_changed _ _ _ _ Hst) as (_ & HB & _ & HD). rewrite HD.
  destruct (Ha x) as [Hs' Hc]; [lia|]. split; [by apply HB|done].
Qed.

(** Reading the next entry. *)
Lemma next_entry w (written pos : Z) :
  (written = 0 -> at_pos pos = reads (host w)) ->
  exists pos' h1 h2,
    (if written =? 0 then mret pos else on_host (h_telldir dir)) w = Ok (pos', with_host w h1) /\
    on_host (h_readdir dir) (with_host w h1) = Ok (head (reads (host w)), with_host w h2) /\
    at_pos pos' = reads (host w) /\ reads h2 = tail (reads (host w)).
Proof.
  intros Hpos. assert (exists pos' h, (if written =? 0 then mret pos else on_host (h_telldir dir)) w = Ok (pos', with_host w h) /\
    at_pos pos' = reads (host w) /\ reads h = reads (host w)) as (pos' & h & Hp & Hat & Hrd).
  { destruct (Z.eqb_spec written 0) as [E|_].
    - exists pos, (host w). split; [by destruct w|]. split; [by apply Hpos|done].
    - destruct (law_telldir _ _ _ laws (host w)) as [Ht Hr]. exists (fst (h_telldir dir (host w))), (snd (h_telldir dir (host w))).
      split; [|done]. apply on_host_step. apply surjective_pairing. }
  destruct (law_readdir _ _ _ laws h) as [Hh Ht].
  exists pos', h, (snd (h_readdir dir h)). split; [done|]. split; [|by rewrite Ht, Hrd].
  rewrite <- Hrd, <- Hh. apply (on_host_step (h_readdir dir) (with_host w h)). apply surjective_pairing.
Qed.

(** The loop delivers the longest prefix that fits and stops at a position
    that stands for the rest. *)
Lemma dirent_loop_spec dirent count fuel : forall w pos written,
  0 <= dirent -> 0 <= written -> count < two32 -> room_at (memory w) (dirent + written) (count - written) ->
  count - written < Z.of_nat fuel -> Forall good_entry (reads (host w)) -> (written = 0 -> at_pos pos = reads (host w)) ->
  let es := fitting align (count - written) (reads (host w)) in
  exists m h pos', dirent_loop align fuel dir dirent count pos written w
      = Ok ((written + total_size align es, pos'), with_host (with_memory w m) h) /\ mem_ok m /\
    changed_within (memory w) m (dirent + written) (dirent + written + total_size align es) /\
    records_at align m (dirent + written) es /\ at_pos pos' = drop (length es) (reads (host w)).
Proof.
  induction fuel as [|fuel IH]; intros w pos written Hd Hw Hc Hroom Hf Hgood Hpos; pose proof Hroom as [Hm Hr Hacc]; [lia|].
  destruct (next_entry w written pos Hpos) as (pos' & h1 & h2 & Hp & Hn & Hat & Hrd).
  cbn [dirent_loop]. sys_step Hp. sys_step Hn. destruct (reads (host w)) as [|e es] eqn:Er; cbn [head fitting].
  { exists (memory w), h2, pos'. cbn. rewrite Z.add_0_r. by repeat split; destruct w. }
  fold (record_size align e). apply Forall_cons in Hgood as [Hge Hgood]. pose proof (record_size_lower align Halign e).
  destruct (Z.ltb_spec count (written + record_size align e)) as [Hlt|Hfit], (Z.ltb_spec (count - written) (record_size align e)); try lia.
  { exists (memory w), h2, pos'. cbn. rewrite Z.add_0_r. by repeat split; destruct w. }
  assert (Hwrap : addr_wrap (dirent + written) = dirent + written) by (apply addr_wrap_small, (below_limit (memory w)); [done|lia]).
  rewrite Hwrap. destruct (store_record align Halign (memory w) (dirent + written) e) as (m1 & m2 & Hs1 & Hs2 & Hm2 & Hl2 & Hst);
    [done|lia|done|lia|intros x Hx; apply Hacc; lia|].
  sys_step (on_memory_step (fun m => TryWriteMemory m (dirent + written) (linux_dirent64 e (record_size align e mod 65536))) (with_host w h2) _ _ Hs1).
  sys_step (on_memory_step (fun m => CopyStringToMemory m _ _ _) (with_memory (with_host w h2) m1) _ _ Hs2).
  assert (as_uint32 (written + record_size align e) = written + record_size align e) as ->.
  { apply Z.mod_small. unfold two32 in *. lia. }
  set (w2 := with_memory (with_memory (with_host w h2) m1) m2).
  destruct (IH w2 pos' (written + record_size align e)) as (m3 & h3 & p3 & Hl & Hm3 & Hch & Hrec & Hat3); try (done || lia).
  - cbn [memory w2 with_memory]. replace (dirent + (written + record_size align e)) with (dirent + written + record_size align e) by lia.
    replace (count - (written + record_size align e)) with (count - written - record_size align e) by lia.
    by apply (room_after (memory w)).
  - cbn [host w2 with_memory with_host]. by rewrite Hrd.
  - cbn [host w2 with_memory with_host] in *. rewrite Hrd in *. cbn [tail] in *.
    replace (count - (written + record_size align e)) with (count - written - record_size align e) in * by lia.
    set (es' := fitting align (count - written - record_size align e) es) in *. cbn [memory w2 with_memory] in Hch.
    pose proof (total_size_nonneg align Halign es'). pose proof (stored_changed _ _ _ _ Hst) as Hch1. rewrite length_record_bytes in Hch1.
    exists m3, h3, p3. split; [rewrite Hl; cbn [total_size]; do 3 f_equal; lia|]. split; [done|]. cbn [total_size length drop].
    split; [eapply changed_trans; [exact Hch1|exact Hch|lia..]|]. split; [|done]. split; [|by rewrite Z.add_assoc in Hrec].
    apply (records_at_changed align Halign [e] m2 m3 (dirent + written) (dirent + (written + record_size align e))
             (dirent + (written + record_size align e) + total_size align es')); [|done|cbn [total_size]; lia].
    split; [|done]. intros i b Hi. destruct Hst as (HA & _). pose proof (lookup_lt_Some _ _ _ Hi).
    rewrite HA, decide_True by lia. by replace (Z.to_nat (dirent + written + Z.of_nat i - (dirent + written))) with i by lia.
Qed.
End directory.


(** *** A concrete directory *)

(** A directory of two entries; the host's state is the position in it. *)
Definition demo_entries : list HostDirEntry := [MkDirEntry 11 1 8 [97]; MkDirEntry 12 2 4 [98; 99]].

#[local] Instance dir_host : FSHost nat := {
  h_stat _ h := (HostErr 2, h);
  h_lstat _ h := (HostErr 2, h);
  h_fstat _ h := (HostErr 9, h);
  h_statfs _ h := (HostErr 2, h);
  h_fstatfs _ h := (HostErr 9, h);
  h_readlinkat _ _ _ h := (HostErr 22, h);
  h_getcwd_path _ h := (HostOk [47], h);
  h_fcntl _ _ _ h := (HostOk 0, h);
  h_posix_fadvise _ _ _ _ h := ((9, 0), h);
  h_eventfd _ _ h := (HostOk 5, h);
  h_mkdirat _ _ _ h := (HostOk tt, h);
  h_rmdir _ h := (HostOk tt, h);
  h_dup fd h := (HostOk (fd + 1), h);
  h_fdopendir fd h := (HostOk fd, h);
  h_seekdir _ pos h := (tt, Z.to_nat pos);
  h_telldir _ h := (Z.of_nat h, h);
  h_readdir _ h := (demo_entries !! h, S h);
  h_closedir _ h := (tt, h)
}.

#[local] Instance dir_file_host : FileHost nat := {
  h_lseek _ pos whence h := if whence =? SEEK_SET then (HostOk pos, Z.to_nat pos) else (HostOk (Z.of_nat h), h);
  h_read _ _ h := (HostErr 21, h);
  h_write _ _ h := (HostErr 9, h);
  h_open _ _ _ _ h := (HostErr 2, h);
  h_close _ h := (HostOk tt, h);
  h_getcwd h := (HostOk tt, h);
  h_readlink_fd _ h := (HostOk "/tmp"%string, h)
}.

Lemma tail_drop {A} (l : list A) n : tail (drop n l) = drop (S n) l.
Proof. revert n. induction l as [|x l IH]; intros [|n]; [done..|]. apply IH. Qed.

Lemma demo_dir_laws : dir_laws 4 (fun h => drop h demo_entries) (fun p => drop (Z.to_nat p) demo_entries).
Proof.
  split; intros h; cbn [h_readdir h_telldir dir_host fst snd].
  - split; [by rewrite head_lookup, lookup_drop, Nat.add_0_r|symmetry; apply tail_drop].
  - by rewrite Nat2Z.id.
Qed.


(** ** Paths relative to a descriptor *)

Section at_paths.
Context {M St H : Type} `{ML : MemoryLaws M} `{FH : FileHost H} `{XH : FSHost H} (syscall : SystemCallABI M St).
Context (tail_of : nat -> list Z).
Implicit Types (w : World M St H).

Lemma call_returns_from w w1 m h t val :
  tasks (os w) !! current w = Some t -> current w1 = current w -> os w1 = os w -> memory w1 = m -> host w1 = h ->
  call_returns syscall w m h val (Return syscall (current w) val w1).
Proof.
  intros Ht Hc Ho <- <-. assert (Ht' : tasks (os w1) !! current w = Some t) by (by rewrite Ho).
  rewrite (Return_step syscall w1 (current w) t val Ht'). eexists _, _. repeat (split; [done|]).
  split; [apply world_task_lookup|]. split; [intros t0 Ht0; by simplify_eq|].
  intros q Hq. cbn. rewrite Ho. by apply lookup_insert_ne.
Qed.

(** The common end of the [stat] calls: the structure is stored, or the host's
    error is returned. *)
Lemma write_stat_spec {S : Type} (copy : S -> list Z) w w1 t buf info :
  tasks (os w) !! current w = Some t -> current w1 = current w -> os w1 = os w ->
  mem_ok (memory w1) -> 0 <= buf -> (0 < length (copy info) <= 4096)%nat ->
  buf + Z.of_nat (length (copy info)) <= mem_limit (memory w1) -> one_page buf (Z.of_nat (length (copy info))) ->
  mapped_bytes (memory w1) buf (Z.of_nat (length (copy info))) -> Forall byte_ok (copy info) ->
  exists m, mem_ok m /\
    (if vmill_can_write_byte (memory w1) buf then stored byte (memory w1) m buf (copy info) else m = memory w1) /\
    call_returns syscall w m (host w1) (if vmill_can_write_byte (memory w1) buf then 0 else - EFAULT)
      (write_stat syscall copy (current w) buf (HostOk info) w1).
Proof.
  intros Ht Hc Ho Hm Hb Hn Hl Hp Hmap Hok.
  destruct (TryWriteMemory_spec (copy info) (memory w1) buf Hm Hb Hn Hl Hp Hmap Hok) as (ok & m & Hw & Hm' & _ & -> & Hst).
  exists m. split; [done|]. split; [done|]. unfold write_stat.
  sys_step (on_memory_step (fun m => TryWriteMemory m buf (copy info)) w1 _ _ Hw).
  destruct (vmill_can_write_byte (memory w1) buf); by eapply call_returns_from.
Qed.

(** A relative path is rejected when the path of its base is not itself a
    symbolic link, whatever the flags. *)
Lemma GetPathAt_relative w fd p flags base e h1 h2 :
  head p <> Some 47 -> 0 <= fd -> h_readlink_fd fd (host w) = (HostOk base, h1) ->
  h_readlinkat AT_FDCWD (bytes_of_string base) PATH_MAX h1 = (HostErr e, h2) ->
  GetPathAt tail_of fd p flags w = Ok (None, with_host w h2).
Proof.
  intros Hp Hfd Hb Hl. unfold GetPathAt. rewrite bool_decide_false by done.
  assert (Hbase : GetBasePathAt fd w = Ok (Some base, with_host w h1)).
  { unfold GetBasePathAt, AT_FDCWD. destruct (Z.eqb_spec fd (-100)), (Z.ltb_spec fd 0); try lia.
    by sys_step (on_host_step (h_readlink_fd fd) w _ _ Hb). }
  sys_step Hbase. destruct (_ =? 0) eqn:E; cbn [negb].
  - apply Z.eqb_eq, Z.lor_eq_0_iff in E as [_ E]. by apply Z.lor_eq_0_iff in E as [_ E].
  - by sys_step (on_host_step (h_readlinkat AT_FDCWD (bytes_of_string base) PATH_MAX) (with_host w h1) _ _ Hl).
Qed.
End at_paths.

(** [fstatat]: an absolute path is handed to the host's [stat] byte for byte;
    the structure is stored in the guest's buffer and the result is 0, [-EFAULT]
    with memory untouched if the buffer is not writable, or the host's error
    negated.  But every relative path fails with [EBADFD] unless the base
    directory's own path is a symbolic link, with or without
    [AT_SYMLINK_NOFOLLOW]: the test of the flags is always true, so the base path is
    always passed to [readlink]. *)
Theorem fstatat_paths {M St H} `{ML : MemoryLaws M} `{FH : FileHost H} `{XH : FSHost H} (syscall : SystemCallABI M St)
    (w : World M St H) t tail_of T fd path buf flag cs :
  tasks (os w) !! current w = Some t -> TryGetArgs syscall (current w) 4 w = Ok (Some [fd; path; buf; flag], w) ->
  mem_ok (memory w) -> 0 < path -> 0 < buf -> Z.land (as_int flag) gAtFollowNoFollow <> gAtFollowNoFollow ->
  string_at (memory w) path cs -> Z.of_nat (length cs) < PATH_MAX -> path + Z.of_nat (length cs) + 1 <= mem_limit (memory w) ->
  let call := SysFStatAt syscall tail_of T (current w) w in
  (head cs = Some 47 ->
   match h_stat cs (host w) with
   | (HostErr e, h) => exists m, same_bytes byte (memory w) m /\ call_returns syscall w m h (- e) call
   | (HostOk info, h) => let n := Z.of_nat (length (CopyStat T info)) in
       0 < n <= 4096 -> one_page buf n -> buf + n <= mem_limit (memory w) -> mapped_bytes (memory w) buf n ->
       exists m, if vmill_can_write_byte (memory w) buf
         then stored byte (memory w) m buf (CopyStat T info) /\ call_returns syscall w m h 0 call
         else same_bytes byte (memory w) m /\ call_returns syscall w m h (- EFAULT) call
   end) /\
  (head cs <> Some 47 ->
   forall base h1 e h2, 0 <= as_int fd -> h_readlink_fd (as_int fd) (host w) = (HostOk base, h1) ->
   h_readlinkat AT_FDCWD (bytes_of_string base) PATH_MAX h1 = (HostErr e, h2) ->
   exists m, same_bytes byte (memory w) m /\ call_returns syscall w m h2 (- EBADFD) call).
Proof.
  intros Ht Hargs Hm Hpath Hbuf Hflag Hs Hn Hl call.
  destruct (path_arg_string w path cs) as (m & p & Hpa & Hm' & Hlim & Hsame); [done|lia|done..|].
  set (w1 := with_path (with_memory w m) p) in *.
  assert (Hcall : call = (final_path ← GetPathAt tail_of (as_int fd) cs (as_int flag);
            match final_path with
            | None => Return syscall (current w) (- EBADFD)
            | Some final_path => info ← on_host (h_stat final_path); write_stat syscall (CopyStat T) (current w) buf info
            end) w1).
  { unfold call, SysFStatAt. sys_step Hargs. destruct (Z.eqb_spec path 0), (Z.eqb_spec buf 0); try lia. cbn [orb].
    destruct (Z.eqb_spec (Z.land (as_int flag) gAtFollowNoFollow) gAtFollowNoFollow); [done|]. by sys_step Hpa. }
  split.
  - intros Habs. assert (Hget : GetPathAt tail_of (as_int fd) cs (as_int flag) w1 = Ok (Some cs, w1)).
    { unfold GetPathAt. by rewrite bool_decide_true. }
    rewrite Hcall. destruct (h_stat cs (host w)) as [[info|e] h] eqn:Eh.
    + intros n Hlen Hone Hbl Hmap. sys_step Hget. sys_step (on_host_step (h_stat cs) w1 _ _ Eh).
      pose proof Hsame as (HA & HB & HC).
      destruct (write_stat_spec syscall (CopyStat T) w (with_host w1 h) t buf info) as (m2 & _ & Hst & Hret);
        try (done || lia); [cbn; rewrite Hlim; lia|intros x Hx; cbn; rewrite HA; by apply Hmap|apply CopyStat_ok|].
      cbn [memory w1 with_host with_path with_memory] in *. rewrite HC in *. exists m2.
      destruct (vmill_can_write_byte (memory w) buf); [split; [by eapply same_stored|done]|by subst m2].
    + exists m. split; [done|]. sys_step Hget. sys_step (on_host_step (h_stat cs) w1 _ _ Eh). by eapply call_returns_from.
  - intros Hrel base h1 e h2 Hfd Hb Hr. exists m. split; [done|]. rewrite Hcall.
    assert (Hget := GetPathAt_relative tail_of w1 (as_int fd) cs (as_int flag) base e h1 h2 Hrel Hfd Hb Hr).
    sys_step Hget. by eapply call_returns_from.
Qed.

Lemma fstatat_paths_witness :
  exists (m : Mem false 64) w' t',
    SysFStatAt (args_abi [3; 4100; 5000; 0]) (fun _ => []) linux64_stat 1%positive (MkWorld m os2 1%positive false ∅ 0%nat) = Ok (Returned, w') /\
    tasks (os w') !! 1%positive = Some t' /\ task_state t' = two64 - EBADFD.
Proof.
  destruct path_mem as (m & Hm & Hl & Hs). set (w := MkWorld m os2 1%positive false ∅ 0%nat).
  assert (exists t, tasks (os w) !! 1%positive = Some t) as [t Ht] by (apply (os_ok_lookup os2 _ 1%nat 1%positive os2_ok); reflexivity).
  destruct (fstatat_paths (args_abi [3; 4100; 5000; 0]) w t (fun _ => []) linux64_stat 3 4100 5000 0 [97; 98] Ht) as [_ Hrel].
  - reflexivity.
  - exact Hm.
  - lia.
  - lia.
  - vm_compute. discriminate.
  - exact Hs.
  - cbn. unfold PATH_MAX. lia.
  - change (memory w) with m. rewrite Hl. unfold two64. cbn. lia.
  - destruct (Hrel ltac:(discriminate) "/tmp"%string 0%nat 22 0%nat) as (m2 & _ & w' & t' & Hx & _ & _ & _ & Ht' & Heq & _);
      [vm_compute; discriminate|reflexivity|reflexivity|].
    exists m, w', t'. split; [exact Hx|]. split; [exact Ht'|]. rewrite (Heq t Ht). reflexivity.
Defined.
