(* ===== verification/LinuxNet.v ===== *)
(** * Network system calls

    [vmill/Runtime/Linux/Net.cpp]: sockets, the calls that carry socket
    addresses, options and messages, and [socketcall], which runs the other
    handlers on arguments packed in guest memory.  The host's sockets are an
    interface. *)

From S2P Require Import Prelude GuestMemory Tasks LinuxTasks SystemCalls LinuxMM LinuxSys LinuxIO.

Local Abbreviation ptr := positive.

(** [sizeof(struct sockaddr)] and [sizeof(linux_sockaddr)]. *)
Definition sockaddr_size : nat := 16.
Definition linux_sockaddr_size : nat := 128.

(** What the host wrote to an address buffer: the bytes, at most as many as
    the given length, and the length it reports. *)
Definition addr_out : Type := list Z * Z.

(** The [msghdr] handed to [sendmsg] and [recvmsg], with the buffers its
    pointers refer to. *)
Record HostMsg := MkHostMsg {
  hm_name : option (list Z); hm_namelen : Z;
  hm_iov : option (list (list Z)); hm_iovlen : Z;
  hm_control : option (list Z); hm_controllen : Z;
  hm_flags : Z
}.

Class NetHost (H : Type) := {
  h_socket : Z -> Z -> Z -> H -> hostret Z * H;
  (** The address is [None] for a null pointer; the length is passed on as
      it is. *)
  h_bind : Z -> option (list Z) -> Z -> H -> hostret Z * H;
  h_connect : Z -> option (list Z) -> Z -> H -> hostret Z * H;
  h_listen : Z -> Z -> H -> hostret Z * H;
  (** [accept], or [accept4] when the flags are not zero. *)
  h_accept : Z -> Z -> Z -> H -> hostret (Z * addr_out) * H;
  h_getsockname : Z -> Z -> H -> hostret addr_out * H;
  h_getpeername : Z -> Z -> H -> hostret addr_out * H;
  h_socketpair : Z -> Z -> Z -> H -> hostret (Z * Z) * H;
  h_sendto : Z -> list Z -> Z -> option (list Z) -> Z -> H -> hostret Z * H;
  (** Descriptor, buffer size, flags and address length; the value returned,
      the bytes written to the buffer and the address. *)
  h_recvfrom : Z -> Z -> Z -> Z -> H -> hostret (Z * list Z * addr_out) * H;
  h_shutdown : Z -> Z -> H -> hostret Z * H;
  h_setsockopt : Z -> Z -> Z -> list Z -> H -> hostret Z * H;
  h_getsockopt : Z -> Z -> Z -> Z -> H -> hostret (Z * addr_out) * H;
  h_sendmsg : Z -> HostMsg -> Z -> H -> hostret Z * H;
  h_recvmsg : Z -> HostMsg -> Z -> H -> hostret (Z * HostMsg) * H
}.

(** The buffer [old] after [bs] was written to its front. *)
Definition overwrite (bs old : list Z) : list Z := bs ++ drop (length bs) old.

Section net.
Context {M St H : Type} `{MO : MemoryOps M} `{NH : NetHost H}.
Context (syscall : SystemCallABI M St).
Local Abbreviation sys := (SystemCalls.sys M St H).

Definition SysSocket (state : ptr) : sys status :=
  args ← TryGetArgs syscall state 3;
  match args with
  | Some [domain; type; protocol] =>
      fd ← on_host (h_socket (as_int domain) (as_int type) (as_int protocol)); return_host syscall state fd
  | _ => Return syscall state (- EFAULT)
  end.

(** The address is a [struct sockaddr], however long the guest says it is. *)
Definition SysBind (state : ptr) : sys status :=
  args ← TryGetArgs syscall state 3;
  match args with
  | Some [sockfd; addr; addrlen] =>
      let bind addr_val := ret ← on_host (h_bind (as_int sockfd) addr_val (as_uint32 addrlen)); return_host syscall state ret in
      if addr =? 0 then bind None
      else
        addr_val ← on_memory (fun m => TryReadMemory m addr sockaddr_size);
        match addr_val with
        | None => Return syscall state (- EFAULT)
        | Some addr_val => bind (Some addr_val)
        end
  | _ => Return syscall state (- EFAULT)
  end.

Definition SysConnect (state : ptr) : sys status :=
  args ← TryGetArgs syscall state 3;
  match args with
  | Some [sockfd; addr; addrlen] =>
      let addrlen := as_uint32 addrlen in
      let connect info := ret ← on_host (h_connect (as_int sockfd) info addrlen); return_host syscall state ret in
      if Z.of_nat linux_sockaddr_size <? addrlen then Return syscall state (- EINVAL)
      else if addrlen =? 0 then connect None
      else
        info ← on_memory (fun m => TryReadMemory m addr linux_sockaddr_size);
        match info with
        | None => Return syscall state (- EFAULT)
        | Some info => connect (Some info)
        end
  | _ => Return syscall state (- EFAULT)
  end.

Definition SysListen (state : ptr) : sys status :=
  args ← TryGetArgs syscall state 2;
  match args with
  | Some [sockfd; backlog] => ret ← on_host (h_listen (as_int sockfd) (as_int backlog)); return_host syscall state ret
  | _ => Return syscall state (- EFAULT)
  end.

(** A [socklen_t] and an address buffer of the guest: an error, or the length
    and the bytes. *)
Definition read_socklen (addrlen_addr : Z) : sys (option Z) :=
  bs ← on_memory (fun m => TryReadMemory m addrlen_addr 4); mret (le_value <$> bs).

Definition read_sockaddr (addr addrlen_addr : Z) : sys (Z + Z * list Z) :=
  addrlen ← read_socklen addrlen_addr;
  match addrlen with
  | None => mret (inl EFAULT)
  | Some addrlen =>
      if Z.of_nat linux_sockaddr_size <? addrlen then mret (inl EINVAL)
      else
        info ← on_memory (fun m => TryReadMemory m addr linux_sockaddr_size);
        mret (match info with None => inl EFAULT | Some info => inr (addrlen, info) end)
  end.

(** [orig_addrlen] bytes of the address. *)
Definition copy_sockaddr (addr orig_addrlen : Z) (info : list Z) : sys unit :=
  change_memory (fun m => CopyToMemory m addr (take (Z.to_nat orig_addrlen) info)).

Definition DoSysAccept (state : ptr) (fd addr addrlen_addr flags : Z) : sys status :=
  (* [info] is only stored if it has been read *)
  arg ← (if addr =? 0 then mret (inr (0, [])) else read_sockaddr addr addrlen_addr);
  match arg with
  | inl err => Return syscall state (- err)
  | inr (orig_addrlen, info) =>
      ret ← on_host (h_accept fd orig_addrlen flags);
      match ret with
      | HostErr err => Return syscall state (- err)
      | HostOk (ret_fd, (bs, addrlen)) =>
          (if addr =? 0 then mret tt else copy_sockaddr addr orig_addrlen (overwrite bs info));;
          if addrlen_addr =? 0 then Return syscall state ret_fd
          else
            ok ← on_memory (fun m => TryWriteMemory m addrlen_addr (le_bytes 4 addrlen));
            if negb ok then Return syscall state (- EFAULT) else Return syscall state ret_fd
      end
  end.

Definition SysAccept (state : ptr) : sys status :=
  args ← TryGetArgs syscall state 3;
  match args with
  | Some [fd; addr; addr_len] => DoSysAccept state (as_int fd) addr addr_len 0
  | _ => Return syscall state (- EFAULT)
  end.

Definition SysAccept4 (state : ptr) : sys status :=
  args ← TryGetArgs syscall state 4;
  match args with
  | Some [fd; addr; addr_len; flags] => DoSysAccept state (as_int fd) addr addr_len (as_int flags)
  | _ => Return syscall state (- EFAULT)
  end.

(** [getsockname] and [getpeername]; [null_ok] is [getsockname]'s test of the
    address after the call. *)
Definition socket_name (null_ok : bool) (name : Z -> Z -> H -> hostret addr_out * H) (state : ptr) : sys status :=
  args ← TryGetArgs syscall state 3;
  match args with
  | Some [fd; addr; addrlen_addr] =>
      arg ← read_sockaddr addr addrlen_addr;
      match arg with
      | inl err => Return syscall state (- err)
      | inr (orig_addrlen, info) =>
          ret ← on_host (name (as_int fd) orig_addrlen);
          match ret with
          | HostErr err => Return syscall state (- err)
          | HostOk (bs, addrlen) =>
              (if null_ok && (addr =? 0) then mret tt else copy_sockaddr addr orig_addrlen (overwrite bs info));;
              ok ← on_memory (fun m => TryWriteMemory m addrlen_addr (le_bytes 4 addrlen));
              if negb ok then Return syscall state (- EFAULT) else Return syscall state 0
          end
      end
  | _ => Return syscall state (- EFAULT)
  end.

Definition SysGetSockName : ptr -> sys status := socket_name true h_getsockname.
Definition SysGetPeerName : ptr -> sys status := socket_name false h_getpeername.

Definition SysSocketPair (state : ptr) : sys status :=
  args ← TryGetArgs syscall state 4;
  match args with
  | Some [domain; type; protocol; socket_vector] =>
      vec ← on_memory (fun m => TryReadMemory m socket_vector 8);
      match vec with
      | None => Return syscall state (- EFAULT)
      | Some _ =>
          ret ← on_host (h_socketpair (as_int domain) (as_int type) (as_int protocol));
          match ret with
          | HostErr err => Return syscall state (- err)
          | HostOk (a, b) =>
              ok ← on_memory (fun m => TryWriteMemory m socket_vector (le_bytes 4 a ++ le_bytes 4 b));
              if negb ok then Return syscall state (- EFAULT) else Return syscall state 0
          end
      end
  | _ => Return syscall state (- EFAULT)
  end.

Definition DoSysSendTo (state : ptr) (fd buf n flags addr addrlen : Z) : sys status :=
  if Z.of_nat linux_sockaddr_size <? addrlen then Return syscall state (- EINVAL)
  else if n =? 0 then Return syscall state (- EINVAL)
  else
    info ← (if addrlen =? 0 then mret (Some [])
            else on_memory (fun m => TryReadMemory m addr linux_sockaddr_size));
    match info with
    | None => Return syscall state (- EFAULT)
    | Some info =>
        ok ← ask_memory (fun m => CanReadMemory m buf n);
        if negb ok then Return syscall state (- EFAULT)
        else
          buf_val ← on_memory (fun m => CopyFromMemory m buf (Z.to_nat n));
          ret ← on_host (h_sendto fd buf_val flags (if addrlen =? 0 then None else Some info) addrlen);
          return_host syscall state ret
    end.

Definition SysSend (state : ptr) : sys status :=
  args ← TryGetArgs syscall state 4;
  match args with
  | Some [fd; buf; n; flags] => DoSysSendTo state (as_int fd) buf n (as_int flags) 0 0
  | _ => Return syscall state (- EFAULT)
  end.

Definition SysSendTo (state : ptr) : sys status :=
  args ← TryGetArgs syscall state 6;
  match args with
  | Some [fd; buf; n; flags; addr; addr_len] => DoSysSendTo state (as_int fd) buf n (as_int flags) addr (as_uint32 addr_len)
  | _ => Return syscall state (- EFAULT)
  end.

(** The first [n] bytes of a host buffer; the code reads past its end if it is
    shorter. *)
Definition buffer_bytes (n : Z) (bs : list Z) : outcome (list Z) :=
  if n <=? Z.of_nat (length bs) then Ok (take (Z.to_nat n) bs) else Undefined.

(** Storing [n] bytes of a host buffer, when the guest's is writable. *)
Definition export_buffer (addr n : Z) (bs : list Z) : sys bool :=
  ok ← ask_memory (fun m => CanWriteMemory m addr n);
  if negb ok then mret false
  else
    bs ← stop (buffer_bytes n bs);
    change_memory (fun m => CopyToMemory m addr bs);;
    mret true.

(** The address argument of [recvfrom]. *)
Definition recv_addr (addr addrlen_addr : Z) : sys (Z + Z * list Z) :=
  if addrlen_addr =? 0 then mret (inr (0, replicate linux_sockaddr_size 0))
  else
    addrlen ← read_socklen addrlen_addr;
    match addrlen with
    | None => mret (inl EFAULT)
    | Some addrlen =>
        if Z.of_nat linux_sockaddr_size <? addrlen then mret (inl EINVAL)
        else if addrlen =? 0 then mret (inr (0, replicate linux_sockaddr_size 0))
        else
          info ← on_memory (fun m => TryReadMemory m addr linux_sockaddr_size);
          mret (match info with None => inl EFAULT | Some info => inr (addrlen, info) end)
    end.

(** The host is called before the buffers are checked. *)
Definition DoSysRecvFrom (state : ptr) (fd buf n flags addr addrlen_addr : Z) : sys status :=
  if n =? 0 then Return syscall state (- EINVAL)
  else
    arg ← recv_addr addr addrlen_addr;
    match arg with
    | inl err => Return syscall state (- err)
    | inr (orig_addrlen, info) =>
        buf_val ← on_memory (fun m => CopyFromMemory m buf (Z.to_nat n));
        ret ← on_host (h_recvfrom fd n flags orig_addrlen);
        let '(val, bs, (addr_bs, addrlen)) :=
          match ret with
          | HostOk (r, bs, out) => (r, bs, out)
          | HostErr err => (- err, [], ([], orig_addrlen))
          end in
        ok ← export_buffer buf n (overwrite bs buf_val);
        if negb ok then Return syscall state (- EFAULT)
        else if orig_addrlen =? 0 then Return syscall state val
        else
          ok ← export_buffer addr orig_addrlen (overwrite addr_bs info);
          if negb ok then Return syscall state (- EFAULT)
          else
            ok ← on_memory (fun m => TryWriteMemory m addrlen_addr (le_bytes 4 addrlen));
            if negb ok then Return syscall state (- EFAULT) else Return syscall state val
    end.

Definition SysRecv (state : ptr) : sys status :=
  args ← TryGetArgs syscall state 4;
  match args with
  | Some [fd; buf; n; flags] => DoSysRecvFrom state (as_int fd) buf n (as_int flags) 0 0
  | _ => Return syscall state (- EFAULT)
  end.

Definition SysRecvFrom (state : ptr) : sys status :=
  args ← TryGetArgs syscall state 6;
  match args with
  | Some [fd; buf; n; flags; addr; addr_len] => DoSysRecvFrom state (as_int fd) buf n (as_int flags) addr addr_len
  | _ => Return syscall state (- EFAULT)
  end.

Definition SysShutdown (state : ptr) : sys status :=
  args ← TryGetArgs syscall state 2;
  match args with
  | Some [socket; how] =>
      ret ← on_host (h_shutdown (as_int socket) (as_int how));
      match ret with
      | HostErr err => Return syscall state (- err)
      | HostOk _ => Return syscall state 0
      end
  | _ => Return syscall state (- EFAULT)
  end.

(** ** Options *)

Definition SysSetSockOpt (state : ptr) : sys status :=
  args ← TryGetArgs syscall state 5;
  match args with
  | Some [socket; level; option_name; optval; optlen] =>
      let optlen := as_uint32 optlen in
      if optlen =? 0 then Return syscall state (- EINVAL)
      else
        ok ← ask_memory (fun m => CanReadMemory m optval optlen);
        if negb ok then Return syscall state (- EFAULT)
        else
          option_value_data ← on_memory (fun m => CopyFromMemory m optval (Z.to_nat optlen));
          ret ← on_host (h_setsockopt (as_int socket) (as_int level) (as_int option_name) option_value_data);
          return_host syscall state ret
  | _ => Return syscall state (- EFAULT)
  end.

(** [optlen_local] is the host address of the local variable: the overload of
    [TryWriteMemory] for [const T &] is taken, with [T] a pointer type. *)
Definition SysGetSockOpt (optlen_local : Z) (state : ptr) : sys status :=
  args ← TryGetArgs syscall state 5;
  match args with
  | Some [socket; level; option_name; optval; optlen_ptr] =>
      optlen ← read_socklen optlen_ptr;
      match optlen with
      | None => Return syscall state (- EFAULT)
      | Some optlen =>
          ok ← ask_memory (fun m => CanReadMemory m optval optlen);
          if negb ok then Return syscall state (- EFAULT)
          else if optlen =? 0 then Return syscall state (- EINVAL)
          else
            option_value_data ← on_memory (fun m => CopyFromMemory m optval (Z.to_nat optlen));
            ret ← on_host (h_getsockopt (as_int socket) (as_int level) (as_int option_name) optlen);
            match ret with
            | HostErr err => Return syscall state (- err)
            | HostOk (ret, (bs, optlen)) =>
                ok ← ask_memory (fun m => CanWriteMemory m optval optlen);
                if negb ok then Return syscall state (- EFAULT)
                else
                  ok ← on_memory (fun m => TryWriteMemory m optlen_ptr (le_bytes 8 optlen_local));
                  if negb ok then Return syscall state (- EFAULT)
                  else
                    data ← stop (buffer_bytes optlen (overwrite bs option_value_data));
                    change_memory (fun m => CopyToMemory m optval data);;
                    Return syscall state ret
            end
      end
  | _ => Return syscall state (- EFAULT)
  end.
End net.

(** ** Messages *)

(** A guest [msghdr] type: its size, the width of a member of its [iovec], and
    offset and width of the members. *)
Record MsgLayout := MkMsgLayout {
  msghdr_size : nat; iov_word : nat;
  o_name : nat * nat; o_namelen : nat * nat; o_iov : nat * nat; o_iovlen : nat * nat;
  o_control : nat * nat; o_controllen : nat * nat; o_flags : nat * nat
}.

Definition linux32_msghdr : MsgLayout :=
  (MkMsgLayout 28 4 (0, 4) (4, 4) (8, 4) (12, 4) (16, 4) (20, 4) (24, 4))%nat.
Definition linux64_msghdr : MsgLayout :=
  (MkMsgLayout 48 8 (0, 8) (8, 4) (16, 8) (24, 4) (32, 8) (40, 4) (44, 4))%nat.

(** A member of a structure in memory. *)
Definition member (bs : list Z) (o : nat * nat) : Z := le_value (take (snd o) (drop (fst o) bs)).

Record CompatMsg := MkCompatMsg {
  msg_name : Z; msg_namelen : Z; msg_iov : Z; msg_iovlen : Z; msg_control : Z; msg_controllen : Z; msg_flags : Z
}.

Definition msg_of (L : MsgLayout) (bs : list Z) : CompatMsg :=
  MkCompatMsg (member bs (o_name L)) (member bs (o_namelen L)) (member bs (o_iov L)) (member bs (o_iovlen L))
    (member bs (o_control L)) (member bs (o_controllen L)) (member bs (o_flags L)).

(** The structure with its members assigned; the padding is kept. *)
Definition msg_bytes (L : MsgLayout) (bs : list Z) (c : CompatMsg) : list Z :=
  assign_members bs
    [(fst (o_name L), snd (o_name L), msg_name c); (fst (o_namelen L), snd (o_namelen L), msg_namelen c);
     (fst (o_iov L), snd (o_iov L), msg_iov c); (fst (o_iovlen L), snd (o_iovlen L), msg_iovlen c);
     (fst (o_control L), snd (o_control L), msg_control c); (fst (o_controllen L), snd (o_controllen L), msg_controllen c);
     (fst (o_flags L), snd (o_flags L), msg_flags c)].

(** An array of [iovec]s: base and length. *)
Fixpoint iovecs_of (w n : nat) (bs : list Z) : list (Z * Z) :=
  match n with
  | O => []
  | S n => (le_value (take w bs), le_value (take w (drop w bs))) :: iovecs_of w n (drop (2 * w) bs)
  end.
Definition iovecs_bytes (w : nat) (vs : list (Z * Z)) : list Z := '(base, len) ← vs; le_bytes w base ++ le_bytes w len.

Section messages.
Context {M St H : Type} `{MO : MemoryOps M} `{NH : NetHost H}.
Context (syscall : SystemCallABI M St) (L : MsgLayout).
Local Abbreviation sys := (SystemCalls.sys M St H).

(** [IOVec::Import] of all elements: an error, or the elements as they are
    kept in [orig_iov] and their data. *)
Fixpoint import_iovecs (vs : list (Z * Z)) : sys (Z + list (Z * Z) * list (list Z)) :=
  match vs with
  | [] => mret (inr ([], []))
  | (base, len) :: vs =>
      let len := if base =? 0 then 0 else len in
      ok ← ask_memory (fun m => CanReadMemory m base len);
      if negb ok then mret (inl EFAULT)
      else
        data ← on_memory (fun m => CopyFromMemory m base (Z.to_nat len));
        rest ← import_iovecs vs;
        mret (match rest with
              | inl err => inl err
              | inr (vs, datas) => inr ((base, len) :: vs, data :: datas)
              end)
  end.

(** An optional buffer of the header. *)
Definition import_buffer (present : bool) (addr len : Z) : sys (Z + option (list Z)) :=
  if present then
    ok ← ask_memory (fun m => CanReadMemory m addr len);
    if negb ok then mret (inl EFAULT)
    else bs ← on_memory (fun m => CopyFromMemory m addr (Z.to_nat len)); mret (inr (Some bs))
  else mret (inr None).

(** The first assignments of [MessageHeader::Import], on the guest's header. *)
Definition null_lengths (c : CompatMsg) : CompatMsg :=
  MkCompatMsg (msg_name c) (if msg_name c =? 0 then 0 else msg_namelen c)
    (msg_iov c) (if msg_iov c =? 0 then 0 else msg_iovlen c)
    (msg_control c) (if msg_control c =? 0 then 0 else msg_controllen c) (msg_flags c).

(** The vectors of the header. *)
Definition import_iov (c : CompatMsg) : sys (Z + option (list (Z * Z) * list (list Z))) :=
  if msg_iovlen c =? 0 then mret (inr None)
  else
    let total_len := msg_iovlen c * Z.of_nat (2 * iov_word L) in
    ok ← ask_memory (fun m => CanReadMemory m (msg_iov c) total_len);
    if negb ok then mret (inl EFAULT)
    else
      orig_iov ← on_memory (fun m => CopyFromMemory m (msg_iov c) (Z.to_nat total_len));
      iov ← import_iovecs (iovecs_of (iov_word L) (Z.to_nat (msg_iovlen c)) orig_iov);
      mret (match iov with inl err => inl err | inr iov => inr (Some iov) end).

(** [MessageHeader::Import]: an error, or [orig_iov] and the header for the
    host. *)
Definition MessageHeader_Import (c : CompatMsg) : sys (Z + option (list (Z * Z)) * HostMsg) :=
  let c := null_lengths c in
  name ← import_buffer (negb (msg_namelen c =? 0)) (msg_name c) (msg_namelen c);
  match name with
  | inl err => mret (inl err)
  | inr name =>
      iov ← import_iov c;
      match iov with
      | inl err => mret (inl err)
      | inr iov =>
          control ← import_buffer (negb (msg_control c =? 0)) (msg_control c) (msg_controllen c);
          mret (match control with
                | inl err => inl err
                | inr control =>
                    inr (fst <$> iov, MkHostMsg name (msg_namelen c) (snd <$> iov) (msg_iovlen c) control (msg_controllen c) 0)
                end)
      end
  end.

(** [IOVec::Export] of all elements. *)
Fixpoint export_iovecs (vs : list (Z * Z)) (datas : list (list Z)) : sys bool :=
  match vs, datas with
  | (base, len) :: vs, data :: datas =>
      ok ← (if len =? 0 then mret true else export_buffer base len data);
      if (ok : bool) then export_iovecs vs datas else mret false
  | _, _ => mret true
  end.

(** [MessageHeader::Export]: the guest's header is only updated at the end; of
    the array of vectors [msg_iovlen] bytes are checked. *)
Definition MessageHeader_Export (c : CompatMsg) (orig_iov : option (list (Z * Z))) (hm : HostMsg) : sys CompatMsg :=
  let buffer addr len (bs : option (list Z)) : sys bool :=
    match bs with None => mret true | Some bs => export_buffer addr len bs end in
  ok ← buffer (msg_name c) (hm_namelen hm) (hm_name hm);
  if negb ok then mret c
  else
    ok ← match orig_iov, hm_iov hm with
         | Some vs, Some datas =>
             ok ← export_iovecs vs datas;
             if negb ok then mret false
             else
               ok ← ask_memory (fun m => CanWriteMemory m (msg_iov c) (hm_iovlen hm));
               if negb ok then mret false
               else
                 change_memory (fun m => CopyToMemory m (msg_iov c) (iovecs_bytes (iov_word L) vs));;
                 mret true
         | _, _ => mret true
         end;
    if negb ok then mret c
    else
      ok ← buffer (msg_control c) (hm_controllen hm) (hm_control hm);
      if negb ok then mret c
      else mret (MkCompatMsg (msg_name c) (hm_namelen hm) (msg_iov c) (hm_iovlen hm)
                   (msg_control c) (hm_controllen hm) (hm_flags hm)).

Definition SysSendMsg (state : ptr) : sys status :=
  args ← TryGetArgs syscall state 3;
  match args with
  | Some [socket; message; flags] =>
      compat_header ← on_memory (fun m => TryReadMemory m message (msghdr_size L));
      match compat_header with
      | None => Return syscall state (- EFAULT)
      | Some bs =>
          header ← MessageHeader_Import (msg_of L bs);
          match header with
          | inl err => Return syscall state (- err)
          | inr (_, header) =>
              ret ← on_host (h_sendmsg (as_int socket) header (as_int flags)); return_host syscall state ret
          end
      end
  | _ => Return syscall state (- EFAULT)
  end.

(** The result of [Export] is not looked at. *)
Definition SysRecvMsg (state : ptr) : sys status :=
  args ← TryGetArgs syscall state 3;
  match args with
  | Some [socket; message; flags] =>
      compat_header ← on_memory (fun m => TryReadMemory m message (msghdr_size L));
      match compat_header with
      | None => Return syscall state (- EFAULT)
      | Some bs =>
          let c := msg_of L bs in
          header ← MessageHeader_Import c;
          match header with
          | inl err => Return syscall state (- err)
          | inr (orig_iov, header) =>
              ret ← on_host (h_recvmsg (as_int socket) header (as_int flags));
              match ret with
              | HostErr err => Return syscall state (- err)
              | HostOk (ret, header) =>
                  c ← MessageHeader_Export (null_lengths c) orig_iov header;
                  ok ← on_memory (fun m => TryWriteMemory m message (msg_bytes L bs c));
                  if negb ok then Return syscall state (- EFAULT) else Return syscall state ret
              end
          end
      end
  | _ => Return syscall state (- EFAULT)
  end.
End messages.

(** ** [socketcall] *)

Section socketcall.
Context {M St H : Type} `{MO : MemoryOps M} `{NH : NetHost H}.
Local Abbreviation sys := (SystemCalls.sys M St H).

(** [SocketCallABI<AddrT>], [word] being the size of [AddrT]. *)
Definition SocketCallABI (word : nat) (syscall : SystemCallABI M St) (arg_addr : Z) : SystemCallABI M St :=
  MkABI (GetPC syscall) (SetPC syscall) (SetSP syscall) (GetSystemCallNum syscall) (GetReturnAddress syscall)
    (fun s ret_val => DoSetReturn syscall s (addr_wrap ret_val))
    (fun m _ num_args => CanReadMemory m arg_addr (num_args * Z.of_nat word))
    (fun m _ i => '(bs, m) ← ReadMemory m (addr_wrap (arg_addr + addr_wrap (i * Z.of_nat word))) word; Ok (le_value bs, m)).

Definition SysSocketCall (word : nat) (optlen_local : Z) (syscall : SystemCallABI M St) (state : ptr) : sys status :=
  args ← TryGetArgs syscall state 2;
  match args with
  | Some [call; args] =>
      let call := as_int call in
      if (call <? 0) || (20 <? call) then Return syscall state (- EINVAL)
      else
        let abi := SocketCallABI word syscall (args mod 256 ^ Z.of_nat word) in
        match call with
        | 1 => SysSocket abi state
        | 2 => SysBind abi state
        | 3 => SysConnect abi state
        | 4 => SysListen abi state
        | 5 => SysAccept abi state
        | 6 => SysGetSockName abi state
        | 7 => SysGetPeerName abi state
        | 8 => SysSocketPair abi state
        | 9 => SysSend abi state
        | 10 => SysRecv abi state
        | 11 => SysSendTo abi state
        | 12 => SysRecvFrom abi state
        | 13 => SysShutdown abi state
        | 14 => SysSetSockOpt abi state
        | 15 => SysGetSockOpt abi optlen_local state
        | 16 => SysSendMsg abi linux32_msghdr state
        | 17 => SysRecvMsg abi linux32_msghdr state
        | 18 => SysAccept4 abi state
        | _ => Return abi state (- ENOSYS)
        end
  | _ => Return syscall state (- EFAULT)
  end.
End socketcall.
