(* ===== verification/NetProps.v ===== *)
(** * What the message calls promise

    [sendmsg] gathers a message that is scattered over guest memory. *)

From S2P Require Import Prelude Pages GuestMemory MemoryInstance Tasks LinuxTasks SystemCalls FutexProps LinuxMM LinuxSys LinuxIO IOProps LinuxFS FSProps LinuxNet.

Local Abbreviation ptr := positive.

(** ** Buffers with known contents *)

Section buffers.
Context {M : Type} `{ML : MemoryLaws M}.

(** The readable bytes [bs] lie at [a], in a buffer every page of which is
    checked. *)
Record has_buffer (m : M) (a : Z) (bs : list Z) : Prop := {
  hb_range : 0 <= a /\ a + Z.of_nat (length bs) <= mem_limit m;
  hb_checkable : bs <> [] -> checkable a (Z.of_nat (length bs));
  hb_bytes i v : bs !! i = Some v -> byte m (a + Z.of_nat i) = Some v;
  hb_readable : all_bytes vmill_can_read_byte m a (Z.of_nat (length bs))
}.

Lemma has_buffer_same m m' a bs : same_bytes byte m m' -> mem_limit m' = mem_limit m -> has_buffer m a bs -> has_buffer m' a bs.
Proof.
  intros (HA & HB & _) Hl [Hr Hc Hb Hre]. split; [by rewrite Hl|done| |].
  - intros i v Hi. rewrite HA. by apply Hb.
  - intros x Hx. rewrite HB. by apply Hre.
Qed.

Lemma has_buffer_can_read m a bs : mem_ok m -> has_buffer m a bs -> CanReadMemory m a (Z.of_nat (length bs)) = Ok true.
Proof.
  intros Hm [[Ha Hl] Hc _ Hre]. destruct bs as [|b bs]; [done|].
  destruct (CanReadMemory_all m a (Z.of_nat (length (b :: bs)))) as (r & -> & Hiff); [done|done|cbn; lia|done|by apply Hc|].
  f_equal. by apply Hiff.
Qed.

Lemma has_buffer_copy m a bs : mem_ok m -> has_buffer m a bs ->
  exists m', CopyFromMemory m a (length bs) = Ok (bs, m') /\ mem_ok m' /\ mem_limit m' = mem_limit m /\ same_bytes byte m m'.
Proof.
  intros Hm [[Ha Hl] _ Hb Hre].
  destruct (CopyFromMemory_spec (length bs) m a) as (bs' & m' & Hc & Hm' & Hl' & Hs & Hlen & Hbs); [done|done|lia| |].
  { intros x Hx. split; [|by apply Hre]. destruct (lookup_lt_is_Some_2 bs (Z.to_nat (x - a))) as [v Hv]; [lia|].
    exists v. rewrite <- (Hb _ _ Hv). f_equal. lia. }
  exists m'. rewrite Hc. split; [|done]. do 2 f_equal. apply list_eq_same_length with (length bs); [done|done|].
  intros i x y _ Hx Hy. specialize (Hbs _ _ Hx). specialize (Hb _ _ Hy). congruence.
Qed.
End buffers.

(** ** Importing a message *)

Section import.
Context {M St H : Type} `{ML : MemoryLaws M} `{NH : NetHost H} (L : MsgLayout).
Implicit Types (w : World M St H).

(** A step that reads guest memory and leaves the rest of the world alone. *)
Definition reads {A} (f : sys M St H A) w (a : A) : Prop :=
  exists m', f w = Ok (a, with_memory w m') /\ mem_ok m' /\ mem_limit m' = mem_limit (memory w) /\ same_bytes byte (memory w) m'.

Lemma reads_ret {A} w (a : A) : mem_ok (memory w) -> reads (mret a) w a.
Proof. exists (memory w). by destruct w. Qed.

Lemma reads_bind {A B} (f : sys M St H A) (g : A -> sys M St H B) w a b :
  reads f w a ->
  (forall m', mem_ok m' -> mem_limit m' = mem_limit (memory w) -> same_bytes byte (memory w) m' -> reads (g a) (with_memory w m') b) ->
  reads (f ≫= g) w b.
Proof.
  intros (m1 & Hf & Hm1 & Hl1 & Hs1) Hg. destruct (Hg m1 Hm1 Hl1 Hs1) as (m2 & Hg2 & Hm2 & Hl2 & Hs2).
  exists m2. rewrite (sys_bind_Ok _ _ _ _ _ Hf), Hg2. split; [done|]. split; [done|]. split; [by rewrite Hl2|].
  by eapply same_bytes_trans.
Qed.

Lemma reads_can w a bs : mem_ok (memory w) -> has_buffer (memory w) a bs ->
  reads (ask_memory (fun m => CanReadMemory m a (Z.of_nat (length bs)))) w true.
Proof.
  intros Hm Hb. exists (memory w). split; [|done].
  rewrite (ask_memory_step (fun m => CanReadMemory m a (Z.of_nat (length bs))) w true); [by destruct w|by apply has_buffer_can_read].
Qed.

Lemma reads_copy w a bs : mem_ok (memory w) -> has_buffer (memory w) a bs ->
  reads (on_memory (fun m => CopyFromMemory m a (length bs))) w bs.
Proof.
  intros Hm Hb. destruct (has_buffer_copy _ _ _ Hm Hb) as (m' & Hc & Hrest). exists m'. split; [|done].
  by apply (on_memory_step (fun m => CopyFromMemory m a (length bs))).
Qed.

Lemma reads_try w a bs : mem_ok (memory w) -> has_buffer (memory w) a bs ->
  reads (on_memory (fun m => TryReadMemory m a (length bs))) w (Some bs).
Proof.
  intros Hm Hb. destruct (has_buffer_copy _ _ _ Hm Hb) as (m' & Hc & Hrest). exists m'. split; [|done].
  apply (on_memory_step (fun m => TryReadMemory m a (length bs))). unfold TryReadMemory.
  rewrite (has_buffer_can_read _ _ _ Hm Hb). cbn [mbind outcome_bind]. by rewrite Hc.
Qed.

(** Checking a buffer and copying it, whatever comes next. *)
Lemma reads_buffer {B} w a bs n (g : list Z -> sys M St H B) (e b : B) :
  mem_ok (memory w) -> has_buffer (memory w) a bs -> n = Z.of_nat (length bs) ->
  (forall m', mem_ok m' -> mem_limit m' = mem_limit (memory w) -> same_bytes byte (memory w) m' -> reads (g bs) (with_memory w m') b) ->
  reads (ok ← ask_memory (fun m => CanReadMemory m a n);
         if negb ok then mret e else data ← on_memory (fun m => CopyFromMemory m a (Z.to_nat n)); g data) w b.
Proof.
  intros Hm Hb -> Hg. eapply reads_bind; [by apply reads_can|]. intros m1 Hm1 Hl1 Hs1. cbn [negb]. rewrite Nat2Z.id.
  eapply reads_bind; [apply reads_copy; [done|by eapply has_buffer_same]|]. intros m2 Hm2 Hl2 Hs2.
  apply Hg; [done|by rewrite Hl2|by eapply same_bytes_trans].
Qed.

(** An optional buffer as the guest describes it. *)
Definition optional_buffer (m : M) (addr len : Z) (o : option (list Z)) : Prop :=
  match o with
  | None => addr = 0
  | Some bs => addr <> 0 /\ bs <> [] /\ len = Z.of_nat (length bs) /\ has_buffer m addr bs
  end.

Definition buffer_len (o : option (list Z)) : Z := match o with None => 0 | Some bs => Z.of_nat (length bs) end.

Lemma optional_buffer_same m m' a n o :
  same_bytes byte m m' -> mem_limit m' = mem_limit m -> optional_buffer m a n o -> optional_buffer m' a n o.
Proof. destruct o; [|done]. intros Hs Hl (? & ? & ? & ?). split_and!; try done. by eapply has_buffer_same. Qed.

Lemma optional_len m addr len o : optional_buffer m addr len o -> (if addr =? 0 then 0 else len) = buffer_len o.
Proof. destruct o as [bs|]; cbn; [|by intros ->]. intros (Ha & _ & -> & _). apply Z.eqb_neq in Ha. by rewrite Ha. Qed.

Lemma buffer_len_present m addr len o : optional_buffer m addr len o -> negb (buffer_len o =? 0) = bool_decide (is_Some o) /\
  negb (addr =? 0) = bool_decide (is_Some o).
Proof.
  destruct o as [bs|]; cbn; [|by intros ->]. intros (Ha & Hn & _). apply Z.eqb_neq in Ha. rewrite Ha.
  destruct bs; [done|]. done.
Qed.

Lemma import_buffer_spec w addr len o : mem_ok (memory w) -> optional_buffer (memory w) addr len o ->
  reads (import_buffer (bool_decide (is_Some o)) addr (buffer_len o)) w (inr o).
Proof.
  intros Hm. destruct o as [bs|]; cbn [import_buffer buffer_len optional_buffer].
  - intros (_ & _ & _ & Hb). rewrite bool_decide_true by done. unfold import_buffer.
    eapply reads_buffer; [done|exact Hb|done|]. intros. by apply reads_ret.
  - intros _. by apply reads_ret.
Qed.

(** The vectors and their data. *)
Definition vectors (m : M) (vs : list (Z * Z)) (datas : list (list Z)) : Prop :=
  Forall2 (fun v data => fst v <> 0 /\ snd v = Z.of_nat (length data) /\ has_buffer m (fst v) data) vs datas.

Lemma vectors_same m m' vs datas : same_bytes byte m m' -> mem_limit m' = mem_limit m -> vectors m vs datas -> vectors m' vs datas.
Proof. intros Hs Hl Hv. eapply Forall2_impl; [exact Hv|]. intros v d (? & ? & ?). split_and!; try done. by eapply has_buffer_same. Qed.

Lemma import_iovecs_spec vs : forall w datas, mem_ok (memory w) -> vectors (memory w) vs datas ->
  reads (import_iovecs vs) w (inr (vs, datas)).
Proof.
  induction vs as [|[base len] vs IH]; intros w datas Hm Hv; inversion Hv as [|? d ? ds (Hb & Hlen & Hbuf) Hrest]; subst; [by apply reads_ret|].
  cbn [fst snd] in *. cbn [import_iovecs]. apply Z.eqb_neq in Hb. rewrite Hb.
  eapply reads_buffer; [done|exact Hbuf|done|]. intros m1 Hm1 Hl1 Hs1.
  eapply reads_bind; [apply IH; [done|by eapply vectors_same]|]. intros m2 Hm2 _ _. by apply reads_ret.
Qed.

(** An array of vectors in memory is read back. *)
Lemma iovecs_roundtrip n vs : (0 < n)%nat ->
  Forall (fun v => 0 <= fst v < 256 ^ Z.of_nat n /\ 0 <= snd v < 256 ^ Z.of_nat n) vs ->
  iovecs_of n (length vs) (iovecs_bytes n vs) = vs.
Proof.
  intros Hn. induction vs as [|[b l] vs IH]; intros Hvs; [done|]. apply Forall_cons in Hvs as [[Hb Hl] Hvs]. cbn [fst snd] in *.
  unfold iovecs_bytes in *. cbn [length iovecs_of mbind list_bind]. rewrite <- !(assoc_L (++)).
  rewrite take_app_length' by (by rewrite length_le_bytes). rewrite drop_app_length' by (by rewrite length_le_bytes).
  rewrite take_app_length' by (by rewrite length_le_bytes). rewrite !le_value_le_bytes, !Z.mod_small by done. f_equal.
  rewrite (assoc_L (++)), drop_app_length' by (rewrite length_app, !length_le_bytes; lia). by apply IH.
Qed.

Lemma iovecs_bytes_cons n v vs : iovecs_bytes n (v :: vs) = le_bytes n (fst v) ++ le_bytes n (snd v) ++ iovecs_bytes n vs.
Proof. destruct v. unfold iovecs_bytes. cbn. by rewrite <- (assoc_L (++)). Qed.

Lemma length_iovecs_bytes n vs : length (iovecs_bytes n vs) = (2 * n * length vs)%nat.
Proof. induction vs as [|v vs IH]; [cbn; lia|]. rewrite iovecs_bytes_cons, !length_app, !length_le_bytes, IH. cbn. lia. Qed.

(** A message header whose parts are scattered over guest memory. *)
Record message (m : M) (c : CompatMsg) (name : option (list Z)) (vs : list (Z * Z)) (datas : list (list Z))
    (control : option (list Z)) : Prop := {
  ms_name : optional_buffer m (msg_name c) (msg_namelen c) name;
  ms_iov : msg_iov c <> 0 /\ vs <> [] /\ msg_iovlen c = Z.of_nat (length vs);
  ms_words : Forall (fun v => 0 <= fst v < 256 ^ Z.of_nat (iov_word L) /\ 0 <= snd v < 256 ^ Z.of_nat (iov_word L)) vs;
  ms_vectors : has_buffer m (msg_iov c) (iovecs_bytes (iov_word L) vs);
  ms_datas : vectors m vs datas;
  ms_control : optional_buffer m (msg_control c) (msg_controllen c) control
}.

Definition host_message name (datas : list (list Z)) control : HostMsg :=
  MkHostMsg name (buffer_len name) (Some datas) (Z.of_nat (length datas)) control (buffer_len control) 0.

Lemma import_iov_spec w c vs datas : (0 < iov_word L)%nat -> mem_ok (memory w) -> vs <> [] -> msg_iovlen c = Z.of_nat (length vs) ->
  Forall (fun v => 0 <= fst v < 256 ^ Z.of_nat (iov_word L) /\ 0 <= snd v < 256 ^ Z.of_nat (iov_word L)) vs ->
  has_buffer (memory w) (msg_iov c) (iovecs_bytes (iov_word L) vs) -> vectors (memory w) vs datas ->
  reads (import_iov L c) w (inr (Some (vs, datas))).
Proof.
  intros HL Hm Hne Hlen Hw Hb Hv. unfold import_iov. rewrite Hlen. destruct (Z.eqb_spec (Z.of_nat (length vs)) 0) as [E|_].
  { destruct vs; [done|cbn in E; lia]. }
  eapply reads_buffer; [done|exact Hb|rewrite length_iovecs_bytes; lia|]. intros m1 Hm1 Hl1 Hs1.
  rewrite Nat2Z.id, iovecs_roundtrip by done.
  eapply reads_bind; [apply import_iovecs_spec; [done|by eapply vectors_same]|]. intros m2 Hm2 _ _. by apply reads_ret.
Qed.

Lemma Import_spec w c name vs datas control : (0 < iov_word L)%nat -> mem_ok (memory w) -> message (memory w) c name vs datas control ->
  reads (MessageHeader_Import L c) w (inr (Some vs, host_message name datas control)).
Proof.
  intros HL Hm [Hname (Hiov & Hne & Hlen) Hw Hb Hv Hctl]. unfold MessageHeader_Import. cbn [null_lengths msg_name msg_namelen msg_control msg_controllen].
  apply Z.eqb_neq in Hiov. rewrite (optional_len _ _ _ _ Hname), (optional_len _ _ _ _ Hctl).
  destruct (buffer_len_present _ _ _ _ Hname) as [-> _], (buffer_len_present _ _ _ _ Hctl) as [_ ->].
  eapply reads_bind; [by apply import_buffer_spec with (len := msg_namelen c)|]. intros m1 Hm1 Hl1 Hs1.
  eapply reads_bind; [apply (import_iov_spec _ _ vs datas); cbn [null_lengths msg_iov msg_iovlen memory with_memory];
    [done|done|done|by rewrite Hiov|done|by eapply has_buffer_same|by eapply vectors_same]|]. intros m2 Hm2 Hl2 Hs2.
  eapply reads_bind; [apply import_buffer_spec with (len := msg_controllen c);
    [done|eapply optional_buffer_same; [exact Hs2|exact Hl2|]; by eapply optional_buffer_same]|]. intros m3 Hm3 _ _.
  cbn [fmap option_fmap option_map fst snd null_lengths msg_iov msg_iovlen]. rewrite Hiov, Hlen.
  unfold host_message. rewrite (Forall2_length _ _ _ Hv). by apply reads_ret.
Qed.
End import.


(** *** A concrete message *)

(** A [linux32_msghdr] without name and control data, its vector and the two
    bytes the vector describes, one after the other from 4096. *)
Definition demo_header : list Z := le_bytes 4 0 ++ le_bytes 4 0 ++ le_bytes 4 4124 ++ le_bytes 4 1 ++ le_bytes 4 0 ++ le_bytes 4 0 ++ le_bytes 4 0.
Definition demo_block : list Z := demo_header ++ iovecs_bytes 4 [(4132, 2)] ++ [7; 8].

Lemma block_mem : exists m : Mem false 64, mem_ok m /\ mem_limit m = two64 - 4096 /\ stored byte demo_mem m 4096 demo_block.
Proof.
  destruct (TryWriteMemory_accessible demo_mem 4096 demo_block) as (m & _ & Hm & Hl & Hst).
  - exact demo_mem_ok.
  - lia.
  - vm_compute. lia.
  - rewrite demo_limit. change (Z.of_nat (length demo_block)) with 38. unfold two64. lia.
  - repeat apply Forall_cons_2; unfold byte_ok; try (vm_compute; split; congruence). constructor.
  - change (Z.of_nat (length demo_block)) with 38. intros x Hx. rewrite demo_mem_byte by lia. split; [done|]. apply demo_mem_perm. lia.
  - exists m. split; [done|]. split; [by rewrite Hl, demo_limit|done].
Qed.

Lemma block_buffer (m : Mem false 64) off bs :
  mem_limit m = two64 - 4096 -> stored byte demo_mem m 4096 demo_block -> (off + length bs <= 38)%nat ->
  (forall i v, bs !! i = Some v -> demo_block !! (off + i)%nat = Some v) -> has_buffer m (4096 + Z.of_nat off) bs.
Proof.
  intros Hl (HA & HB & _) Hle Hbs. assert (Hd : forall x, 4096 <= x < 4096 + 38 -> AlignDownToPage x = 4096).
  { intros x Hx. rewrite (one_page_all 4096 38); [reflexivity|lia|unfold two64; lia|reflexivity|lia]. }
  split.
  - rewrite Hl. unfold two64. lia.
  - intros Hne. left. split; [|lia]. unfold one_page. destruct bs; [done|]. cbn [length] in *. by rewrite !Hd by lia.
  - intros i v Hi. pose proof (lookup_lt_Some _ _ _ Hi). rewrite HA, decide_True by (change (length demo_block) with 38%nat; lia).
    rewrite <- (Hbs _ _ Hi). f_equal. lia.
  - intros x Hx. rewrite HB. apply demo_mem_perm. lia.
Qed.

(** A host that keeps the bytes of every message it sends. *)
#[local] Instance net_host : NetHost (list Z) := {
  h_socket _ _ _ h := (HostOk 3, h);
  h_bind _ _ _ h := (HostOk 0, h);
  h_connect _ _ _ h := (HostOk 0, h);
  h_listen _ _ h := (HostOk 0, h);
  h_accept _ _ _ h := (HostErr 11, h);
  h_getsockname _ _ h := (HostErr 9, h);
  h_getpeername _ _ h := (HostErr 107, h);
  h_socketpair _ _ _ h := (HostErr 95, h);
  h_sendto _ bs _ _ _ h := (HostOk (Z.of_nat (length bs)), h ++ bs);
  h_recvfrom _ _ _ _ h := (HostErr 11, h);
  h_shutdown _ _ h := (HostOk 0, h);
  h_setsockopt _ _ _ _ h := (HostOk 0, h);
  h_getsockopt _ _ _ _ h := (HostErr 92, h);
  h_sendmsg _ hm _ h := let bs := concat (default [] (hm_iov hm)) in (HostOk (Z.of_nat (length bs)), h ++ bs);
  h_recvmsg _ _ _ h := (HostErr 11, h)
}.

