(* ===== verification/Dispatch.v ===== *)
(** * System call dispatch

    [vmill/Runtime/Linux/SystemCall.cpp]: the three dispatchers.  A [switch] is
    the list of its cases; a number without a case is reported as done. *)

From S2P Require Import Prelude Pages GuestMemory MemoryInstance Tasks LinuxTasks SystemCalls ArchAbi Futex LinuxMM LinuxThread ThreadProps LinuxSys LinuxIO LinuxFS LinuxNet.

Local Abbreviation ptr := positive.

(** The case for a number. *)
Definition switch_case {A} (cases : list (Z * A)) (num : Z) : option A :=
  '(_, (_, handler)) ← list_find (fun c => fst c = num) cases; Some handler.

Section dispatch.
Context {M St H : Type} `{MO : MemoryOps M}.
Local Abbreviation sys := (SystemCalls.sys M St H).

Definition dispatch (syscall : SystemCallABI M St) (cases : list (Z * (ptr -> sys status))) (state : ptr) : sys status :=
  s ← read_state state;
  match switch_case cases (GetSystemCallNum syscall s) with
  | Some handler => handler state
  | None => Return syscall state 0
  end.
End dispatch.

Section tables.
Context {M H : Type} `{MO : MemoryOps M} `{FH : FileHost H} `{SH : SysHost H} `{IH : IOHost H} `{XH : FSHost H} `{NH : NetHost H}.

(** Host addresses of local variables, the alignment of a packed member, and
    the old contents of [gIOBuffer]. *)
Context (tv_compat tz_compat optlen_local d_ino_align : Z) (gIOBuffer_tail : nat -> list Z).

Section x86.
Context (syscall : SystemCallABI M X86State).
Local Abbreviation sys := (SystemCalls.sys M X86State H).

Definition x86_cases : list (Z * (ptr -> sys status)) :=
  [(1, SysExit syscall); (3, SysRead syscall); (4, SysWrite syscall); (5, SysOpen syscall); (6, SysClose syscall);
   (13, SysTime syscall); (20, SysGetProcessId syscall); (24, SysGetUserId syscall); (33, SysAccess syscall);
   (37, SysKill syscall); (39, SysMakeDirectory syscall); (40, SysRemoveDirectory syscall); (41, SysDup syscall);
   (45, SysBrk syscall); (47, SysGetGroupId syscall); (49, SysGetEffectiveUserId syscall);
   (50, SysGetEffectiveGroupId syscall); (54, SysIoctl syscall); (59, SysUname syscall);
   (64, SysGetParentProcessId syscall); (65, SysGetProcessGroupId syscall); (74, SysSetHostName syscall);
   (76, SysGetRlimit syscall addr_bytes); (78, SysGetTimeOfDay syscall tv_compat tz_compat);
   (79, SysSetTimeOfDay syscall 4); (85, SysReadLink syscall); (90, SysMmap syscall 1); (91, SysMunmap syscall);
   (102, SysSocketCall 4 optlen_local syscall); (106, SysStat syscall linux32_stat);
   (107, SysLstat syscall linux32_stat); (108, SysFstat syscall linux32_stat); (109, SysUname syscall);
   (116, SysGetSysInfo syscall); (120, SysCloneB syscall (x86_set_tls syscall)); (122, SysUname syscall);
   (125, SysMprotect syscall); (140, SysLlseek syscall); (145, SysReadV syscall); (146, SysWriteV syscall);
   (165, SysGetRESUserId syscall); (168, SysPoll syscall); (171, SysGetRESGroupId syscall);
   (174, (fun state => Return syscall state 0)); (175, (fun state => Return syscall state 0));
   (183, SysGetCurrentWorkingDirectory syscall); (191, SysGetRlimit syscall 4); (192, SysMmap syscall kPageSize);
   (195, SysStat syscall linux32_stat64); (196, SysLstat syscall linux32_stat64);
   (197, SysFstat syscall linux32_stat64); (199, SysGetUserId syscall); (200, SysGetGroupId syscall);
   (201, SysGetEffectiveUserId syscall); (202, SysGetEffectiveGroupId syscall); (209, SysGetRESUserId syscall);
   (211, SysGetRESGroupId syscall); (220, SysGetDirEntries64 syscall d_ino_align); (221, SysFcntl64 syscall);
   (224, SysGetThreadId syscall); (240, SysFutex syscall 4); (243, SysSetThreadArea syscall);
   (258, SysSetThreadIdAddress syscall); (265, SysClockGetTime syscall 4); (266, SysClockGetResolution syscall 4);
   (268, SysStatFs64 syscall linux32_statfs64 sizeof_linux32_statfs64);
   (269, SysFStatFs64 syscall linux32_statfs64 sizeof_linux32_statfs64); (272, SysFAdvise syscall);
   (295, SysOpenAt syscall); (296, SysMakeDirectoryAt syscall);
   (300, SysFStatAt syscall gIOBuffer_tail linux32_stat64); (305, SysReadLinkAt syscall); (307, SysFAccessAt syscall);
   (323, SysEventFd syscall); (328, SysEventFd2 syscall)].
Definition X86SystemCall : ptr -> sys status := dispatch syscall x86_cases.

Definition amd64_cases : list (Z * (ptr -> sys status)) :=
  [(0, SysRead syscall); (1, SysWrite syscall); (2, SysOpen syscall); (3, SysClose syscall);
   (4, SysStat syscall linux64_stat); (5, SysFstat syscall linux64_stat); (6, SysLstat syscall linux64_stat);
   (7, SysPoll syscall); (8, SysLseek syscall); (9, SysMmap syscall 1); (10, SysMprotect syscall);
   (11, SysMunmap syscall); (12, SysBrk syscall); (13, (fun state => Return syscall state 0));
   (14, (fun state => Return syscall state 0)); (16, SysIoctl syscall); (19, SysReadV syscall);
   (20, SysWriteV syscall); (21, SysAccess syscall); (32, SysDup syscall); (39, SysGetProcessId syscall);
   (41, SysSocket syscall); (42, SysConnect syscall); (43, SysAccept syscall); (44, SysSendTo syscall);
   (45, SysRecvFrom syscall); (46, SysSendMsg syscall linux64_msghdr); (47, SysRecvMsg syscall linux64_msghdr);
   (48, SysShutdown syscall); (49, SysBind syscall); (50, SysListen syscall); (51, SysGetSockName syscall);
   (52, SysGetPeerName syscall); (53, SysSocketPair syscall); (54, SysSetSockOpt syscall);
   (55, SysGetSockOpt syscall optlen_local); (56, SysCloneA syscall (x86_set_tls syscall)); (60, SysExit syscall);
   (62, SysKill syscall); (63, SysUname syscall); (78, SysGetDirEntries64 syscall d_ino_align);
   (97, SysGetRlimit syscall addr_bytes); (102, SysGetUserId syscall); (158, SysArchPrctl syscall);
   (202, SysFutex syscall 8); (218, SysSetThreadIdAddress syscall)].
Definition AMD64SystemCall : ptr -> sys status := dispatch syscall amd64_cases.
End x86.

Section aarch64.
Context {St : Type} (syscall : SystemCallABI M St).
Local Abbreviation sys := (SystemCalls.sys M St H).

Definition aarch64_cases : list (Z * (ptr -> sys status)) :=
  [(93, SysExit syscall); (63, SysRead syscall); (64, SysWrite syscall); (56, SysOpenAt syscall);
   (57, SysClose syscall); (172, SysGetProcessId syscall); (174, SysGetUserId syscall); (48, SysFAccessAt syscall);
   (214, SysBrk syscall); (176, SysGetGroupId syscall); (175, SysGetEffectiveUserId syscall);
   (177, SysGetEffectiveGroupId syscall); (29, SysIoctl syscall); (160, SysUname syscall);
   (173, SysGetParentProcessId syscall); (155, SysGetProcessGroupId syscall); (161, SysSetHostName syscall);
   (163, SysGetRlimit syscall addr_bytes); (169, SysGetTimeOfDay syscall tv_compat tz_compat);
   (170, SysSetTimeOfDay syscall 8); (78, SysReadLinkAt syscall); (222, SysMmap syscall 1); (215, SysMunmap syscall);
   (96, SysSetThreadIdAddress syscall)].
Definition AArch64SystemCall : ptr -> sys status := dispatch syscall aarch64_cases.
End aarch64.
End tables.

(** ** What a program sees of the dispatcher *)

(** The registers after a 64-bit [syscall] instruction: the task goes on at the
    return address, which is also in [RCX]. *)
Definition resumed (t : linux_task X86State) (ret_addr : Z) : linux_task X86State :=
  let t := with_state t (set_reg (set_reg (task_state t) RIP ret_addr) RCX ret_addr) in
  with_base t (vmill_set_location (base_task t) ret_addr kTaskStoppedAfterHyperCall).

Lemma switch_case_None {A} (cases : list (Z * A)) num : ~ num ∈ fst <$> cases -> switch_case cases num = None.
Proof.
  intros Hn. unfold switch_case. destruct (list_find _ cases) as [[i [k h]]|] eqn:E; [|done].
  apply list_find_Some in E as (Hl & Hk & _). cbn in Hk. subst k. exfalso. apply Hn.
  apply list_elem_of_fmap. exists (num, h). split; [done|]. by eapply list_elem_of_lookup_2.
Qed.

Lemma switch_case_Some {A} (cases : list (Z * A)) i num h :
  NoDup (fst <$> cases) -> cases !! i = Some (num, h) -> switch_case cases num = Some h.
Proof.
  intros Hnd Hl. unfold switch_case. destruct (list_find (fun c => fst c = num) cases) as [[j [k h']]|] eqn:E.
  - apply list_find_Some in E as (Hl' & Hk & _). cbn in Hk. subst k.
    assert (i = j) as <-.
    { eapply NoDup_lookup; [exact Hnd| |]; rewrite list_lookup_fmap, ?Hl, ?Hl'; done. }
    rewrite Hl in Hl'. by simplify_eq.
  - apply list_find_None in E. rewrite Forall_forall in E. exfalso.
    apply (E (num, h)); [by eapply list_elem_of_lookup_2|done].
Qed.

Section async.
Context {M H : Type} `{MO : MemoryOps M}.
Implicit Types (w : World M X86State H) (t : linux_task X86State).
Local Abbreviation abi := (Amd64SyscallSystemCall (M := M)).

Lemma after_amd64_call w t ret_addr :
  completed w = true -> tasks (os w) !! current w = Some t ->
  exists w', after_system_call abi (current w) ret_addr (fun s r => set_reg s RCX r) w = Ok (tt, w') /\
    memory w' = memory w /\ host w' = host w /\ current w' = current w /\
    tasks (os w') !! current w = Some (resumed t ret_addr) /\ (forall q, q <> current w -> tasks (os w') !! q = tasks (os w) !! q).
Proof.
  intros Hc Ht. unfold after_system_call. rewrite Hc. sys_step (read_state_step w (current w) t Ht).
  sys_step (on_memory_step (fun m => GetReturnAddress abi m (task_state t) ret_addr) w ret_addr (memory w) eq_refl).
  unfold modify_state. set (w1 := with_memory w (memory w)).
  sys_step (modify_task_step w1 (current w) t (fun t => with_state t (set_reg (set_reg (task_state t) RIP ret_addr) RCX ret_addr)) Ht).
  unfold set_location. set (w2 := world_task w1 _ _). sys_step (current_step w2).
  rewrite (modify_task_step w2 (current w2) _ _ (world_task_lookup _ _ _)). unfold w2. rewrite world_task_twice.
  eexists. split; [done|]. repeat (split; [done|]). split; [apply world_task_lookup|].
  intros q Hq. cbn. by apply lookup_insert_ne.
Qed.

Lemma run_amd64_call w t ret_addr call x86 :
  addr_bits (M := M) = 64 -> tasks (os w) !! current w = Some t -> hyper_call (task_state t) = kX86SysCall ->
  remill_async_hyper_call x86 call (current w) ret_addr w =
    run_system_call abi (current w) ret_addr call (fun s r => set_reg s RCX r) w.
Proof.
  intros Hb Ht Hh. unfold remill_async_hyper_call. sys_step (read_state_step w (current w) t Ht). by rewrite Hb, Hh.
Qed.

(** A system call that comes back at once. *)
Lemma run_returning w ret_addr call w1 t1 :
  call abi (current w) (with_completed w false) = Ok (Returned, w1) -> completed w1 = true -> current w1 = current w ->
  tasks (os w1) !! current w = Some t1 ->
  exists w', run_system_call abi (current w) ret_addr call (fun s r => set_reg s RCX r) w = Ok (Returned, w') /\
    memory w' = memory w1 /\ host w' = host w1 /\ current w' = current w /\
    tasks (os w') !! current w = Some (resumed t1 ret_addr) /\ (forall q, q <> current w -> tasks (os w') !! q = tasks (os w1) !! q).
Proof.
  intros Hcall Hc Hcur Ht. rewrite <- Hcur in Ht. destruct (after_amd64_call w1 t1 ret_addr Hc Ht) as (w' & Ha & Hm & Hh & Hcu & Ht' & Ho).
  rewrite Hcur in *. exists w'. split; [|done]. unfold run_system_call. sys_step Hcall. by sys_step Ha.
Qed.
End async.

(** C26: what a program sees of a 64-bit [syscall] instruction: if the dispatcher
    has a case for the number in [RAX] whose handler comes back, the program goes
    on after the instruction with the handler's memory, host and registers; and for
    {e every} number without a case, the program goes on with result 0: a call that
    was not done is reported as a success, with memory, host and all other
    registers untouched. *)
Theorem amd64_syscall_resumes {M H} `{MO : MemoryOps M} `{FH : FileHost H} `{SH : SysHost H} `{IH : IOHost H} `{XH : FSHost H}
    `{NH : NetHost H} optlen align x86 (w : World M X86State H) t ret_addr :
  let cases := amd64_cases optlen align Amd64SyscallSystemCall in
  let call := remill_async_hyper_call x86 (AMD64SystemCall optlen align) (current w) ret_addr w in
  let goes_on m h o t1 := exists w', call = Ok (Returned, w') /\ memory w' = m /\ host w' = h /\ current w' = current w /\
    tasks (os w') !! current w = Some (resumed t1 ret_addr) /\ (forall q, q <> current w -> tasks (os w') !! q = tasks o !! q) in
  addr_bits (M := M) = 64 -> tasks (os w) !! current w = Some t -> hyper_call (task_state t) = kX86SysCall ->
  (forall i handler w1 t1, cases !! i = Some (gpr (task_state t) RAX, handler) ->
     handler (current w) (with_completed w false) = Ok (Returned, w1) -> completed w1 = true -> current w1 = current w ->
     tasks (os w1) !! current w = Some t1 -> goes_on (memory w1) (host w1) (os w1) t1) /\
  (~ gpr (task_state t) RAX ∈ fst <$> cases ->
   goes_on (memory w) (host w) (os w) (with_state t (set_reg (task_state t) RAX 0))).
Proof.
  intros cases call goes_on Hb Ht Hh.
  assert (Hrun : call = run_system_call Amd64SyscallSystemCall (current w) ret_addr (AMD64SystemCall optlen align)
                          (fun s r => set_reg s RCX r) w) by (by eapply run_amd64_call).
  unfold goes_on. rewrite Hrun. assert (Ht0 : tasks (os (with_completed w false)) !! current w = Some t) by done.
  split.
  - intros i handler w1 t1 Hi Hhand Hc Hcur Ht1. eapply run_returning; [|done..].
    unfold AMD64SystemCall, dispatch. sys_step (read_state_step (with_completed w false) (current w) t Ht0). cbn [GetSystemCallNum Amd64SyscallSystemCall].
    fold cases. rewrite (switch_case_Some cases i _ handler); [done| |done].
    apply (bool_decide_unpack _). vm_compute. exact I.
  - intros Hn. set (w1 := world_task (with_completed (with_completed w false) true) (current w) (returned Amd64SyscallSystemCall t 0)).
    destruct (run_returning w ret_addr (AMD64SystemCall optlen align) w1 (returned Amd64SyscallSystemCall t 0))
      as (w' & Hr & Hm & Hho & Hcu & Ht' & Ho); [|done|done|apply world_task_lookup|].
    { unfold AMD64SystemCall, dispatch. sys_step (read_state_step (with_completed w false) (current w) t Ht0). cbn [GetSystemCallNum Amd64SyscallSystemCall].
      fold cases. rewrite (switch_case_None cases _ Hn). exact (Return_step _ (with_completed w false) (current w) t 0 Ht0). }
    exists w'. split; [exact Hr|]. split; [exact Hm|]. split; [exact Hho|]. split; [exact Hcu|]. split.
    + rewrite Ht'. unfold returned. cbn [DoSetReturn Amd64SyscallSystemCall]. unfold addr_wrap. by rewrite Z.mod_0_l by (rewrite Hb; lia).
    + intros q Hq. rewrite Ho by done. cbn. by apply lookup_insert_ne.
Qed.

(** *** A concrete call *)

(** A host on which every call fails. *)
#[local] Instance failing_file_host : FileHost unit := {
  h_lseek _ _ _ h := (HostErr 9, h); h_read _ _ h := (HostErr 9, h); h_write _ _ h := (HostErr 9, h);
  h_open _ _ _ _ h := (HostErr 2, h); h_close _ h := (HostErr 9, h); h_getcwd h := (HostErr 2, h);
  h_readlink_fd _ h := (HostErr 2, h)
}.
#[local] Instance failing_sys_host : SysHost unit := {
  h_kill _ _ h := (HostErr 1, h); h_sethostname _ h := (HostErr 1, h); h_uname h := (HostErr 14, h);
  h_getuid h := (0, h); h_geteuid h := (0, h); h_getgid h := (0, h); h_getegid h := (0, h);
  h_getrlimit _ h := (HostErr 22, h); h_getresuid h := (HostErr 14, h); h_getresgid h := (HostErr 14, h);
  h_sysinfo h := (HostErr 14, h); h_gettimeofday h := (HostErr 14, h); h_settimeofday _ _ h := (HostErr 1, h);
  h_clock_gettime _ h := (HostErr 22, h); h_clock_getres _ h := (HostErr 22, h); h_time h := (HostErr 14, h)
}.
#[local] Instance failing_io_host : IOHost unit := {
  h_access _ _ _ _ h := (HostErr 2, h); h_tcgetattr _ h := (HostErr 25, h); h_tcsetattr _ _ _ h := (HostErr 25, h);
  h_get_winsize _ h := (HostErr 25, h); h_set_winsize _ _ h := (HostErr 25, h); h_poll _ _ _ h := (HostErr 14, h)
}.
#[local] Instance failing_fs_host : FSHost unit := {
  h_stat _ h := (HostErr 2, h); h_lstat _ h := (HostErr 2, h); h_fstat _ h := (HostErr 9, h);
  h_statfs _ h := (HostErr 2, h); h_fstatfs _ h := (HostErr 9, h); h_readlinkat _ _ _ h := (HostErr 2, h);
  h_getcwd_path _ h := (HostErr 2, h); h_fcntl _ _ _ h := (HostErr 9, h); h_posix_fadvise _ _ _ _ h := ((9, 9), h);
  h_eventfd _ _ h := (HostErr 22, h); h_mkdirat _ _ _ h := (HostErr 13, h); h_rmdir _ h := (HostErr 2, h);
  h_dup _ h := (HostErr 9, h); h_fdopendir _ h := (HostErr 9, h); h_seekdir _ _ h := (tt, h); h_telldir _ h := (0, h);
  h_readdir _ h := (None, h); h_closedir _ h := (tt, h)
}.
#[local] Instance failing_net_host : NetHost unit := {
  h_socket _ _ _ h := (HostErr 97, h); h_bind _ _ _ h := (HostErr 9, h); h_connect _ _ _ h := (HostErr 9, h);
  h_listen _ _ h := (HostErr 9, h); h_accept _ _ _ h := (HostErr 9, h); h_getsockname _ _ h := (HostErr 9, h);
  h_getpeername _ _ h := (HostErr 9, h); h_socketpair _ _ _ h := (HostErr 95, h); h_sendto _ _ _ _ _ h := (HostErr 9, h);
  h_recvfrom _ _ _ _ h := (HostErr 9, h); h_shutdown _ _ h := (HostErr 9, h); h_setsockopt _ _ _ _ h := (HostErr 9, h);
  h_getsockopt _ _ _ _ h := (HostErr 9, h); h_sendmsg _ _ _ h := (HostErr 9, h); h_recvmsg _ _ _ h := (HostErr 9, h)
}.

(** A task at [openat], number 257, on a host without files. *)
Definition openat_state : X86State :=
  MkX86 (fun r => match r with RAX => 257 | RSP => 9000 | _ => 7 end) (fun _ => 0) (fun _ => 0) kX86SysCall 0.

(** The call succeeds: the program gets descriptor 0. *)
Lemma amd64_syscall_resumes_witness :
  exists (w w' : World (Mem false 64) X86State unit) t',
    remill_async_hyper_call (fun _ _ => mret Returned) (AMD64SystemCall 0 1) 1%positive 4244 w = Ok (Returned, w') /\
    (exists t, tasks (os w) !! 1%positive = Some t /\ task_state t = openat_state) /\
    tasks (os w') !! 1%positive = Some t' /\ gpr (task_state t') RAX = 0 /\ gpr (task_state t') RIP = 4244.
Proof.
  destruct os1_ok as (_ & t & Ht & _). set (t0 := with_state t openat_state).
  set (w := MkWorld demo_mem (put_task os1 1%positive t0) 1%positive false ∅ tt : World (Mem false 64) X86State unit).
  assert (Hw : tasks (os w) !! current w = Some t0) by apply lookup_insert_eq.
  destruct (amd64_syscall_resumes 0 1 (fun _ _ => mret Returned) w t0 4244) as [_ Hno].
  - reflexivity.
  - exact Hw.
  - reflexivity.
  - destruct Hno as (w' & Hr & _ & _ & _ & Ht' & _).
    + change (gpr (task_state t0) RAX) with 257. apply (bool_decide_unpack _). vm_compute. exact I.
    + exists w, w'. eexists. split; [exact Hr|]. split; [exists t0; split; [exact Hw|reflexivity]|].
      split; [exact Ht'|]. split; reflexivity.
Defined.

(** [getdents64], [exit_group] and [openat], which a 64-bit C library uses to
    list directories, to exit and to open files, have no case. *)
Lemma amd64_missing optlen align : forall num : Z, num ∈ [217; 231; 257] ->
  ~ num ∈ fst <$> amd64_cases optlen align (M := Mem false 64) (H := unit) Amd64SyscallSystemCall.
Proof.
  apply Forall_forall. repeat (apply Forall_cons_2; [apply (bool_decide_unpack _); vm_compute; exact I|]). by apply Forall_nil_2.
Qed.

(** ** Synchronous hypercalls

    [__remill_sync_hyper_call] of the Linux runtimes
    ([vmill/Runtime/Linux/X86.cpp], [vmill/Runtime/Linux/AArch64.cpp]): what
    lifted code asks of the runtime in the middle of a trace.  The time stamp
    counter of the host is a parameter. *)

Module HyperCalls.
Local Abbreviation ptr := positive.

(** [SyncHyperCall::Name] as the x86 runtime tells it apart. *)
Inductive SyncHyperCall :=
| kX86SetSegmentES
| kX86SetSegmentSS
| kX86SetSegmentDS
| kX86SetSegmentGS
| kX86SetSegmentFS
| kX86CPUID
| kX86ReadTSC
| kX86ReadTSCP
| kX86EmulateInstruction
| kAMD64EmulateInstruction
| kOtherSyncHyperCall.

#[global] Instance SyncHyperCall_eq_dec : EqDecision SyncHyperCall.
Proof. solve_decision. Defined.

Section x86.
Context {M H : Type}.
Local Abbreviation sys := (SystemCalls.sys M X86State H).

(** [rdtsc] and [rdtscp] of the host: [eax], [ecx] and [edx]. *)
Variable rdtscp : Z * Z * Z.

Definition read_tsc (s : X86State) : X86State :=
  let '(eax, _, edx) := rdtscp in set_reg (set_reg s RAX (wrap32 eax)) RDX (wrap32 edx).

Definition read_tscp (s : X86State) : X86State :=
  let '(eax, ecx, edx) := rdtscp in
  set_reg (set_reg (set_reg s RAX (wrap32 eax)) RCX (wrap32 ecx)) RDX (wrap32 edx).

(** [__remill_sync_hyper_call]: the first three calls and selectors outside
    of the TLS entries are only reported; an instruction that remill does not
    lift stops the task, whose coroutine is not resumed; other calls trap. *)
Definition remill_sync_hyper_call (state : ptr) (call : SyncHyperCall) : sys status :=
  match call with
  | kX86SetSegmentES | kX86SetSegmentSS | kX86SetSegmentDS => mret Returned
  | kX86SetSegmentGS => set_segment_base state GS;; mret Returned
  | kX86SetSegmentFS => set_segment_base state FS;; mret Returned
  | kX86CPUID => hyper_call_cpuid state;; mret Returned
  | kX86ReadTSC => modify_state state read_tsc;; mret Returned
  | kX86ReadTSCP => modify_state state read_tscp;; mret Returned
  | kX86EmulateInstruction | kAMD64EmulateInstruction => hyper_call_emulate_instruction state;; mret Yielded
  | kOtherSyncHyperCall => stop Fatal
  end.
End x86.

(** [__remill_sync_hyper_call] of AArch64 only reports. *)
Definition a64_sync_hyper_call {M H : Type} (state : ptr) (call : Z) : SystemCalls.sys M AArch64State H status :=
  mret Returned.

(** ** What a call does to its task *)

(** The base of a segment register after its selector was loaded. *)
Definition loaded_base (t : linux_task X86State) (g : Seg) : X86State :=
  let s := task_state t in
  if (kLinuxMinIndexForTLSInGDT <=? seg_index s g) && (seg_index s g <=? kLinuxMaxIndexForTLSInGDT) then
    match tls_slots t !! Z.to_nat (seg_index s g - kLinuxMinIndexForTLSInGDT) with
    | Some d => set_base_dword s g (base_addr d)
    | None => s
    end
  else s.

Definition sync_effect (rdtscp : Z * Z * Z) (t : linux_task X86State) (call : SyncHyperCall) : X86State :=
  match call with
  | kX86SetSegmentGS => loaded_base t GS
  | kX86SetSegmentFS => loaded_base t FS
  | kX86CPUID => set_reg (set_reg (set_reg (set_reg (task_state t) RAX 0) RBX 0) RCX 0) RDX 0
  | kX86ReadTSC => read_tsc rdtscp (task_state t)
  | kX86ReadTSCP => read_tscp rdtscp (task_state t)
  | _ => task_state t
  end.

Definition emulates (call : SyncHyperCall) : bool :=
  match call with kX86EmulateInstruction | kAMD64EmulateInstruction => true | _ => false end.

Lemma with_same_state {St} (t : linux_task St) : with_state t (task_state t) = t.
Proof. by destruct t. Qed.

Lemma world_task_same {M St H} (w : World M St H) p t : tasks (os w) !! p = Some t -> world_task w p t = w.
Proof.
  intros Ht. unfold world_task, with_os, put_task. destruct w as [m o c b pa h]. cbn in *. f_equal.
  destruct o as [ts l c2 tid nx]. cbn in *. f_equal. by apply insert_id.
Qed.

Section proofs.
Context {M H : Type} `{MO : MemoryOps M} (rdtscp : Z * Z * Z).
Implicit Types (w : World M X86State H) (t : linux_task X86State).

Lemma set_segment_base_effect w g t :
  tasks (os w) !! current w = Some t -> length (tls_slots t) = 3%nat ->
  set_segment_base (current w) g w = Ok (tt, world_task w (current w) (with_state t (loaded_base t g))).
Proof.
  intros Ht Hl. unfold loaded_base. destruct (_ && _) eqn:E.
  - bool_to_prop. destruct (lookup_lt_is_Some_2 (tls_slots t) (Z.to_nat (seg_index (task_state t) g - kLinuxMinIndexForTLSInGDT))) as [d Hd].
    { rewrite Hl. unfold kLinuxMinIndexForTLSInGDT, kLinuxMaxIndexForTLSInGDT in *. lia. }
    rewrite Hd. by apply set_segment_base_step.
  - unfold set_segment_base. sys_step (current_step w). sys_step (read_task_step w _ t Ht).
    sys_step (read_state_step w _ t Ht). rewrite E. rewrite with_same_state. by rewrite world_task_same.
Qed.

(** Every synchronous hypercall of a task acts on that task alone: it
    returns with the registers [sync_effect] tells and nothing else changed,
    or stops the task with an error that no later round of the scheduler can
    undo, or traps. *)
Theorem sync_hyper_call_correct w t call :
  tasks (os w) !! current w = Some t -> length (tls_slots t) = 3%nat ->
  remill_sync_hyper_call rdtscp (current w) call w =
    if decide (call = kOtherSyncHyperCall) then Fatal
    else if emulates call then
      Ok (Yielded, world_task w (current w)
        (with_base t (with_status (with_location (base_task t) (gpr (task_state t) RIP) kTaskStoppedAtUnsupportedInstruction)
                        kTaskStatusError kTaskStatusError)))
    else Ok (Returned, world_task w (current w) (with_state t (sync_effect rdtscp t call))).
Proof.
  intros Ht Hl.
  assert (Hseg : forall g, (set_segment_base (current w) g;; mret Returned) w =
            Ok (Returned, world_task w (current w) (with_state t (loaded_base t g)))).
  { intros g. by sys_step (set_segment_base_effect w g t Ht Hl). }
  assert (Hmod : forall f, (modify_state (current w) f;; mret Returned) w =
            Ok (Returned, world_task w (current w) (with_state t (f (task_state t))))).
  { intros f. by sys_step (modify_task_step w _ t (fun t => with_state t (f (task_state t))) Ht). }
  assert (Hnop : Ok (Returned, w) = Ok (Returned, world_task w (current w) (with_state t (task_state t)))).
  { rewrite with_same_state. by rewrite world_task_same. }
  assert (Hem : (hyper_call_emulate_instruction (current w);; mret Yielded) w =
      Ok (Yielded, world_task w (current w)
        (with_base t (with_status (with_location (base_task t) (gpr (task_state t) RIP) kTaskStoppedAtUnsupportedInstruction)
                        kTaskStatusError kTaskStatusError)))).
  { unfold mbind at 1, sys_bind at 1. unfold hyper_call_emulate_instruction. sys_step (current_step w).
    sys_step (read_state_step w _ t Ht). unfold set_location. unfold mbind at 1, sys_bind at 1. sys_step (current_step w).
    rewrite (modify_task_step w _ t) by done. cbn [mbind outcome_bind].
    unfold vmill_yield. rewrite (modify_task_step _ _ _ _ (world_task_lookup w _ _)). cbn [mbind outcome_bind].
    rewrite world_task_twice. done. }
  destruct call; cbn [remill_sync_hyper_call sync_effect emulates]; (case_decide; [try done|try done]).
  all: try exact Hnop; try apply Hseg; try exact Hem; apply Hmod.
Qed.

(** The registers a hypercall may change. *)
Corollary sync_effect_frame t call :
  (forall r, r ∉ [RAX; RBX; RCX; RDX] -> gpr (sync_effect rdtscp t call) r = gpr (task_state t) r) /\
  seg_index (sync_effect rdtscp t call) = seg_index (task_state t) /\
  (forall g, g <> GS -> g <> FS -> seg_base (sync_effect rdtscp t call) g = seg_base (task_state t) g).
Proof.
  assert (Hl : forall g0, g0 = GS \/ g0 = FS -> (forall r, gpr (loaded_base t g0) r = gpr (task_state t) r) /\
    seg_index (loaded_base t g0) = seg_index (task_state t) /\
    (forall g, g <> GS -> g <> FS -> seg_base (loaded_base t g0) g = seg_base (task_state t) g)).
  { intros g0 Hg. unfold loaded_base. destruct (_ && _); [|done]. destruct (tls_slots t !! _); [|done].
    split_and!; [done|done|]. intros g H1 H2. cbn. rewrite decide_False; [done|]. destruct Hg; congruence. }
  destruct call; cbn [sync_effect]; try done; try (destruct (Hl GS) as (? & ? & ?); [by left|by split_and!]);
    try (destruct (Hl FS) as (? & ? & ?); [by right|by split_and!]).
  all: unfold read_tsc, read_tscp; destruct rdtscp as [[eax ecx] edx]; split_and!; try done.
  all: intros r Hr; cbn; repeat (rewrite decide_False; [|set_solver]); done.
Qed.
End proofs.

(** The selector of a thread's TLS entry, loaded in a concrete system. *)
Lemma sync_hyper_call_correct_witness :
  exists t w', tasks (os thread_world) !! 1%positive = Some t /\
    remill_sync_hyper_call (5, 0, 6) 1%positive kX86ReadTSC thread_world = Ok (Returned, w') /\
    exists t', tasks (os w') !! 1%positive = Some t' /\ gpr (task_state t') RAX = 5 /\ gpr (task_state t') RDX = 6.
Proof.
  destruct os1_ok as (Hok & t & Ht & Hs). exists t.
  assert (Hl : length (tls_slots t) = 3%nat) by (vm_compute in Ht; injection Ht as <-; reflexivity).
  eexists. split; [exact Ht|]. split; [exact (sync_hyper_call_correct (5, 0, 6) thread_world t kX86ReadTSC Ht Hl)|].
  eexists. split; [apply world_task_lookup|]. split; reflexivity.
Defined.
End HyperCalls.
