(* ===== verification/Tools.v ===== *)
(** * Instrumentation tools

    Models [vmill/Workspace/Tool.{h,cpp}] and [vmill/Util/Util.cpp]: the tools
    that resolve symbols for the JIT linker and instrument bitcode, the proxy
    and compositor tools that combine them, and the list of tools of the
    command line.  [M] is what the tools act on (an LLVM module and the tools'
    own state); strings are lists of characters.  [ToolClasses] has the classes
    one by one. *)

From S2P Require Import Prelude.

(** [SplitPathList]; the loop runs as long as there is a separator left. *)
Fixpoint split_loop (fuel : nat) (path_list : list Z) (sep : Z) (parts : list (list Z)) : outcome (list (list Z)) :=
  match list_find (fun c => c = sep) path_list with
  | None => Ok (match path_list with [] => parts | _ => parts ++ [path_list] end)
  | Some (pos, _) =>
      match fuel with
      | O => Diverges
      | S fuel =>
          let part := take pos path_list in
          split_loop fuel (drop (S pos) path_list) sep (match part with [] => parts | _ => parts ++ [part] end)
      end
  end.

Definition SplitPathList (path_list : list Z) (sep : Z) : outcome (list (list Z)) :=
  match path_list with
  | [] => Ok []
  | _ => if sep =? 0 then Ok [path_list] else split_loop (length path_list) path_list sep []
  end.

(** The members of [Tool]. *)
Record Symbols := MkSymbols { provided_symbols : gmap (list Z) Z; offered_symbols : gmap (list Z) Z }.

Definition no_symbols : Symbols := MkSymbols ∅ ∅.
Definition ProvideSymbol (s : Symbols) (name : list Z) (pc : Z) : Symbols :=
  MkSymbols (<[name := pc]> (provided_symbols s)) (offered_symbols s).
Definition OfferSymbol (s : Symbols) (name : list Z) (pc : Z) : Symbols :=
  MkSymbols (provided_symbols s) (<[name := pc]> (offered_symbols s)).

(** [Tool::FindSymbolForLinking] *)
Definition Tool_FindSymbolForLinking (s : Symbols) (name : list Z) (resolved : Z) : Z :=
  let resolved := default resolved (provided_symbols s !! name) in
  if resolved =? 0 then default resolved (offered_symbols s !! name) else resolved.

Section tools.
Context {M : Type}.

(** The entry points of a tool that does something of its own: the function
    pointers of [SharedLibraryTool]. *)
Record Library := MkLibrary {
  find_symbol_for_linking : list Z -> Z -> Z;
  prepare_module : M -> M;
  instrument_runtime : M -> bool * M;
  instrument_trace : Z -> M -> bool * M;
  set_up : M -> M;
  tear_down : M -> M
}.

Definition StubFindSymbolForLinking (_ : list Z) (resolved : Z) : Z := resolved.
Definition StubPrepareModule (m : M) : M := m.
Definition StubInstrumentRuntime (m : M) : bool * M := (false, m).
Definition StubInstrumentTrace (_ : Z) (m : M) : bool * M := (false, m).
Definition StubSetUpTearDown (m : M) : M := m.

(** [SharedLibraryTool]'s constructor: a symbol the library does not export
    keeps its stub. *)
Definition SharedLibraryTool (find : option (list Z -> Z -> Z)) (prep : option (M -> M)) (rt : option (M -> bool * M))
    (tr : option (Z -> M -> bool * M)) (up down : option (M -> M)) : Library :=
  MkLibrary (default StubFindSymbolForLinking find) (default StubPrepareModule prep) (default StubInstrumentRuntime rt)
    (default StubInstrumentTrace tr) (default StubSetUpTearDown up) (default StubSetUpTearDown down).

Definition stub_library : Library := SharedLibraryTool None None None None None None.

Inductive Tool :=
| NullTool (s : Symbols)
| LibraryTool (s : Symbols) (lib : Library)
| ProxyTool (s : Symbols) (tool : Tool)
| CompositorTool (s : Symbols) (tools : list Tool).

Definition AddTool (t tool : Tool) : Tool :=
  match t with CompositorTool s ts => CompositorTool s (ts ++ [tool]) | _ => t end.

Fixpoint FindSymbolForLinking (t : Tool) (name : list Z) (resolved : Z) : Z :=
  match t with
  | NullTool s => Tool_FindSymbolForLinking s name resolved
  | LibraryTool s lib => Tool_FindSymbolForLinking s name (find_symbol_for_linking lib name resolved)
  | ProxyTool s tool => Tool_FindSymbolForLinking s name (FindSymbolForLinking tool name resolved)
  | CompositorTool s ts =>
      Tool_FindSymbolForLinking s name
        ((fix go ts r := match ts with [] => r | t :: ts => go ts (FindSymbolForLinking t name r) end) ts resolved)
  end.

Fixpoint PrepareModule (t : Tool) (m : M) : M :=
  match t with
  | NullTool _ => m
  | LibraryTool _ lib => prepare_module lib m
  | ProxyTool _ tool => PrepareModule tool m
  | CompositorTool _ ts => (fix go ts m := match ts with [] => m | t :: ts => go ts (PrepareModule t m) end) ts m
  end.

Fixpoint InstrumentRuntime (t : Tool) (m : M) : bool * M :=
  match t with
  | NullTool _ => (false, m)
  | LibraryTool _ lib => instrument_runtime lib m
  | ProxyTool _ tool => InstrumentRuntime tool m
  | CompositorTool _ ts =>
      (fix go ts changed m := match ts with
                              | [] => (changed, m)
                              | t :: ts => let '(c, m) := InstrumentRuntime t m in go ts (c || changed) m
                              end) ts false m
  end.

Fixpoint InstrumentTrace (t : Tool) (pc : Z) (m : M) : bool * M :=
  match t with
  | NullTool _ => (false, m)
  | LibraryTool _ lib => instrument_trace lib pc m
  | ProxyTool _ tool => InstrumentTrace tool pc m
  | CompositorTool _ ts =>
      (fix go ts changed m := match ts with
                              | [] => (changed, m)
                              | t :: ts => let '(c, m) := InstrumentTrace t pc m in go ts (c || changed) m
                              end) ts false m
  end.

Fixpoint SetUp (t : Tool) (m : M) : M :=
  match t with
  | NullTool _ => m
  | LibraryTool _ lib => set_up lib m
  | ProxyTool _ tool => SetUp tool m
  | CompositorTool _ ts => (fix go ts m := match ts with [] => m | t :: ts => go ts (SetUp t m) end) ts m
  end.

(** A compositor calls its tools in reverse order. *)
Fixpoint TearDown (t : Tool) (m : M) : M :=
  match t with
  | NullTool _ => m
  | LibraryTool _ lib => tear_down lib m
  | ProxyTool _ tool => TearDown tool m
  | CompositorTool _ ts => (fix go ts m := match ts with [] => m | t :: ts => TearDown t (go ts m) end) ts m
  end.

(** [LoadOneTool]: [find_tool] is the tool of a name (the built-in tools and
    the shared libraries); [Tool::Load] builds the tree. *)
Context (find_tool : list Z -> option Tool).

Definition LoadOneTool (name_or_path : list Z) : outcome Tool :=
  match find_tool name_or_path with Some t => Ok t | None => Fatal end.

Fixpoint load_tools (tool : Tool) (names : list (list Z)) : outcome Tool :=
  match names with
  | [] => Ok tool
  | n :: names => sub_tool ← LoadOneTool n; load_tools (AddTool tool sub_tool) names
  end.

Definition kPathListSep : Z := 58.

Definition Tool_Load (request : list Z) : outcome Tool :=
  match request with
  | [] => Ok (NullTool no_symbols)
  | _ =>
      names ← SplitPathList request kPathListSep;
      match names with
      | [] => LoadOneTool request
      | [n] => LoadOneTool n
      | _ => load_tools (CompositorTool no_symbols []) names
      end
  end.
End tools.
Arguments Library : clear implicits.
Arguments Tool : clear implicits.
Arguments stub_library {M}.

(** ** Path lists *)

(** The pieces between separators. *)
Fixpoint split_ref (p : list Z) (sep : Z) (cur : list Z) : list (list Z) :=
  match p with
  | [] => [cur]
  | c :: p => if decide (c = sep) then cur :: split_ref p sep [] else split_ref p sep (cur ++ [c])
  end.

Definition nonempty (l : list Z) : Prop := l <> [].
#[global] Instance nonempty_dec l : Decision (nonempty l).
Proof. unfold nonempty. apply _. Defined.

Lemma split_ref_none p sep cur : sep ∉ p -> split_ref p sep cur = [cur ++ p].
Proof.
  revert cur. induction p as [|c p IH]; intros cur Hn; cbn [split_ref]; [by rewrite app_nil_r|].
  rewrite decide_False by set_solver. rewrite IH by set_solver. by rewrite <- app_assoc.
Qed.

Lemma split_ref_at p sep cur q : sep ∉ p -> split_ref (p ++ sep :: q) sep cur = (cur ++ p) :: split_ref q sep [].
Proof.
  revert cur. induction p as [|c p IH]; intros cur Hn; cbn [split_ref app].
  - by rewrite decide_True, app_nil_r.
  - rewrite decide_False by set_solver. rewrite IH by set_solver. by rewrite <- app_assoc.
Qed.

Lemma filter_nonempty_cons (l : list Z) parts rest :
  (match l with [] => parts | _ => parts ++ [l] end) ++ filter nonempty rest = parts ++ filter nonempty (l :: rest).
Proof.
  destruct l; [by rewrite filter_cons_False by (intros []; done)|].
  rewrite filter_cons_True by done. by rewrite <- app_assoc.
Qed.

Lemma split_loop_spec fuel p sep parts :
  (length p <= fuel)%nat -> split_loop fuel p sep parts = Ok (parts ++ filter nonempty (split_ref p sep [])).
Proof.
  revert p parts. induction fuel as [|fuel IH]; intros p parts Hf.
  { destruct p; [|cbn in Hf; lia]. cbn. by rewrite app_nil_r. }
  cbn [split_loop]. destruct (list_find _ p) as [[pos c]|] eqn:E.
  - apply list_find_Some in E as (Hp & -> & Hb).
    pose proof (lookup_lt_Some _ _ _ Hp) as Hlt.
    assert (Hn : sep ∉ take pos p).
    { intros (i & Hi)%list_elem_of_lookup. apply lookup_take_Some in Hi as [Hi Hlt']. by eapply Hb. }
    rewrite IH by (rewrite length_drop; lia). rewrite filter_nonempty_cons. do 2 f_equal. f_equal.
    rewrite <- (take_drop_middle p pos sep Hp) at 3. rewrite split_ref_at by done. done.
  - apply list_find_None in E. rewrite split_ref_none by (intros Hin; rewrite Forall_forall in E; by apply (E sep Hin)).
    rewrite <- filter_nonempty_cons. cbn [filter list_filter app]. by rewrite app_nil_r.
Qed.

Lemma SplitPathList_spec p sep :
  sep <> 0 -> SplitPathList p sep = Ok (filter nonempty (split_ref p sep [])).
Proof.
  intros Hs. unfold SplitPathList. destruct p as [|c p]; [done|].
  rewrite (proj2 (Z.eqb_neq sep 0) Hs). by rewrite split_loop_spec.
Qed.

(** ** Trees of tools *)

Section linear.
Context {M : Type}.

Fixpoint Tool_nested_ind (P : Tool M -> Prop) (Hn : forall s, P (NullTool s)) (Hl : forall s lib, P (LibraryTool s lib))
    (Hp : forall s t, P t -> P (ProxyTool s t)) (Hc : forall s ts, Forall P ts -> P (CompositorTool s ts)) (t : Tool M) : P t :=
  match t with
  | NullTool s => Hn s
  | LibraryTool s lib => Hl s lib
  | ProxyTool s t => Hp s t (Tool_nested_ind P Hn Hl Hp Hc t)
  | CompositorTool s ts =>
      Hc s ts ((fix go ts : Forall P ts := match ts with
                                          | [] => Forall_nil_2 P
                                          | t :: ts => Forall_cons_2 P t ts (Tool_nested_ind P Hn Hl Hp Hc t) (go ts)
                                          end) ts)
  end.

(** The tools with code of their own, from left to right. *)
Fixpoint leaves (t : Tool M) : list (Library M) :=
  match t with
  | NullTool _ => []
  | LibraryTool _ lib => [lib]
  | ProxyTool _ tool => leaves tool
  | CompositorTool _ ts => flat_map leaves ts
  end.

(** Everything that resolves symbols; a combination comes after its parts. *)
Fixpoint resolvers (t : Tool M) : list (list Z -> Z -> Z) :=
  match t with
  | NullTool s => [Tool_FindSymbolForLinking s]
  | LibraryTool s lib => [find_symbol_for_linking lib; Tool_FindSymbolForLinking s]
  | ProxyTool s tool => resolvers tool ++ [Tool_FindSymbolForLinking s]
  | CompositorTool s ts => flat_map resolvers ts ++ [Tool_FindSymbolForLinking s]
  end.

(** One instrumentation pass after another; any change counts. *)
Definition instrument_all (run : Library M -> M -> bool * M) (st : bool * M) (libs : list (Library M)) : bool * M :=
  foldl (fun '(changed, m) lib => let '(c, m) := run lib m in (c || changed, m)) st libs.

Lemma instrument_all_changed run c m libs :
  instrument_all run (c, m) libs =
    let '(c', m') := instrument_all run (false, m) libs in (c' || c, m').
Proof.
  unfold instrument_all. revert c m. induction libs as [|lib libs IH]; intros c m; cbn [foldl]; [done|].
  destruct (run lib m) as [c1 m1]. rewrite (IH (c1 || c)), (IH (c1 || false)).
  destruct (foldl _ _ _) as [c2 m2]. f_equal. by destruct c2, c1, c.
Qed.

Lemma instrument_all_app run st libs1 libs2 :
  instrument_all run st (libs1 ++ libs2) = instrument_all run (instrument_all run st libs1) libs2.
Proof. apply foldl_app. Qed.

Lemma FindSymbolForLinking_fold t name r :
  FindSymbolForLinking t name r = foldl (fun r f => f name r) r (resolvers t).
Proof.
  revert r. induction t as [s|s lib|s t IH|s ts IH] using Tool_nested_ind; intros r; cbn [FindSymbolForLinking resolvers]; try done.
  - by rewrite foldl_app, IH.
  - rewrite foldl_app. cbn [foldl]. f_equal. revert r. induction IH as [|t ts Ht _ IHts]; intros r; cbn [flat_map]; [done|].
    by rewrite foldl_app, IHts, Ht.
Qed.

Lemma SetUp_fold t m : SetUp t m = foldl (fun m lib => set_up lib m) m (leaves t).
Proof.
  revert m. induction t as [s|s lib|s t IH|s ts IH] using Tool_nested_ind; intros m; cbn [SetUp leaves]; try done.
  revert m. induction IH as [|t ts Ht _ IHts]; intros m; cbn [flat_map]; [done|]. by rewrite foldl_app, IHts, Ht.
Qed.

Lemma TearDown_fold t m : TearDown t m = foldr (fun lib m => tear_down lib m) m (leaves t).
Proof.
  revert m. induction t as [s|s lib|s t IH|s ts IH] using Tool_nested_ind; intros m; cbn [TearDown leaves]; try done.
  revert m. induction IH as [|t ts Ht _ IHts]; intros m; cbn [flat_map]; [done|]. by rewrite foldr_app, IHts, Ht.
Qed.

Lemma InstrumentTrace_fold t pc m :
  InstrumentTrace t pc m = instrument_all (fun lib => instrument_trace lib pc) (false, m) (leaves t).
Proof.
  revert m. induction t as [s|s lib|s t IH|s ts IH] using Tool_nested_ind; intros m; cbn [InstrumentTrace leaves]; try done.
  - cbn. destruct (instrument_trace lib pc m) as [c m']. by rewrite orb_false_r.
  - generalize false. revert m. induction IH as [|t ts Ht _ IHts]; intros m b; cbn [flat_map]; [done|].
    rewrite instrument_all_app, instrument_all_changed, <- Ht. destruct (InstrumentTrace t pc m) as [c m']. apply IHts.
Qed.
End linear.

(** C35: a tree of proxy and compositor tools acts as its parts in sequence:
    set-up runs the tools from left to right and tear-down from right to left,
    instrumenting runs every tool even after one reported a change and reports
    whether any did, and a symbol goes through every part before the
    combination that contains it. *)
Theorem tool_tree_linear {M} (t : Tool M) name resolved pc m :
  SetUp t m = foldl (fun m lib => set_up lib m) m (leaves t) /\
  TearDown t m = foldl (fun m lib => tear_down lib m) m (reverse (leaves t)) /\
  InstrumentTrace t pc m = instrument_all (fun lib => instrument_trace lib pc) (false, m) (leaves t) /\
  FindSymbolForLinking t name resolved = foldl (fun r f => f name r) resolved (resolvers t).
Proof.
  split_and!; [apply SetUp_fold| |apply InstrumentTrace_fold|apply FindSymbolForLinking_fold].
  rewrite TearDown_fold. induction (leaves t) as [|lib libs IH]; [done|].
  rewrite reverse_cons, foldl_app. cbn [foldr foldl]. by rewrite IH.
Qed.

(** ** The classes of tools

    Models the classes of [vmill/Workspace/Tool.{h,cpp}] as the C++ has them:
    an object is its table of virtual functions, every class overrides some of
    them and calls its sub-tools through their tables.  [Tools] describes the
    same objects as a tree with one recursive function per operation; the
    theorems say that calling through the tables computes the functions of the
    tree.  The macros for wrapped symbols are here too. *)

Module ToolClasses.
Section classes.
Context {M : Type}.

(** The virtual functions of [Tool], bound to an object. *)
Record ToolOps := MkToolOps {
  op_FindSymbolForLinking : list Z -> Z -> Z;
  op_PrepareModule : M -> M;
  op_InstrumentRuntime : M -> bool * M;
  op_InstrumentTrace : Z -> M -> bool * M;
  op_SetUp : M -> M;
  op_TearDown : M -> outcome M
}.

(** What [Tool] itself does. *)
Definition base_SetUp (m : M) : M := m.
Definition base_TearDown (m : M) : outcome M := Ok m.
Definition base_PrepareModule (m : M) : M := m.
Definition base_InstrumentRuntime (m : M) : bool * M := (false, m).
Definition base_InstrumentTrace (pc : Z) (m : M) : bool * M := (false, m).

(** A [NullTool] overrides nothing. *)
Definition NullTool_ops (s : Symbols) : ToolOps :=
  MkToolOps (Tool_FindSymbolForLinking s) base_PrepareModule base_InstrumentRuntime base_InstrumentTrace base_SetUp base_TearDown.

(** [SharedLibraryTool]: the functions the library exports. *)
Definition library_FindSymbolForLinking (s : Symbols) (lib : Library M) (name : list Z) (resolved : Z) : Z :=
  Tool_FindSymbolForLinking s name (find_symbol_for_linking lib name resolved).

Definition SharedLibraryTool_ops (s : Symbols) (lib : Library M) : ToolOps :=
  MkToolOps (library_FindSymbolForLinking s lib) (prepare_module lib) (instrument_runtime lib) (instrument_trace lib)
    (set_up lib) (fun m => Ok (tear_down lib m)).

(** [ProxyTool]: the tool behind it. *)
Definition proxy_FindSymbolForLinking (s : Symbols) (tool : ToolOps) (name : list Z) (resolved : Z) : Z :=
  Tool_FindSymbolForLinking s name (op_FindSymbolForLinking tool name resolved).
Definition proxy_PrepareModule (tool : ToolOps) (m : M) : M := op_PrepareModule tool m.
Definition proxy_InstrumentRuntime (tool : ToolOps) (m : M) : bool * M := op_InstrumentRuntime tool m.
Definition proxy_InstrumentTrace (tool : ToolOps) (pc : Z) (m : M) : bool * M := op_InstrumentTrace tool pc m.
Definition proxy_SetUp (tool : ToolOps) (m : M) : M := op_SetUp tool m.
Definition proxy_TearDown (tool : ToolOps) (m : M) : outcome M := op_TearDown tool m.

Definition ProxyTool_ops (s : Symbols) (tool : ToolOps) : ToolOps :=
  MkToolOps (proxy_FindSymbolForLinking s tool) (proxy_PrepareModule tool) (proxy_InstrumentRuntime tool)
    (proxy_InstrumentTrace tool) (proxy_SetUp tool) (proxy_TearDown tool).

(** [CompositorTool]: the vector of its tools. *)
Definition compositor_of (tool : ToolOps) : list ToolOps := [tool].
Definition compositor_AddTool (tools : list ToolOps) (tool : ToolOps) : list ToolOps := tools ++ [tool].

Definition compositor_FindSymbolForLinking (s : Symbols) (tools : list ToolOps) (name : list Z) (resolved : Z) : Z :=
  Tool_FindSymbolForLinking s name (foldl (fun resolved tool => op_FindSymbolForLinking tool name resolved) resolved tools).

Definition compositor_PrepareModule (tools : list ToolOps) (m : M) : M :=
  foldl (fun m tool => op_PrepareModule tool m) m tools.

Definition compositor_InstrumentRuntime (tools : list ToolOps) (m : M) : bool * M :=
  foldl (fun '(changed, m) tool => let '(c, m) := op_InstrumentRuntime tool m in (c || changed, m)) (false, m) tools.

Definition compositor_InstrumentTrace (tools : list ToolOps) (pc : Z) (m : M) : bool * M :=
  foldl (fun '(changed, m) tool => let '(c, m) := op_InstrumentTrace tool pc m in (c || changed, m)) (false, m) tools.

Definition compositor_SetUp (tools : list ToolOps) (m : M) : M :=
  foldl (fun m tool => op_SetUp tool m) m tools.

(** The loop of [TearDown]: [n] iterations are left, [i] counts from one. *)
Fixpoint compositor_teardown_loop (n : nat) (tools : list ToolOps) (i : nat) (m : M) : outcome M :=
  match n with
  | O => Ok m
  | S n =>
      tool ← deref_opt (tools !! (length tools - i)%nat);
      m ← op_TearDown tool m;
      compositor_teardown_loop n tools (S i) m
  end.

Definition compositor_TearDown (tools : list ToolOps) (m : M) : outcome M :=
  compositor_teardown_loop (length tools) tools 1 m.

Definition CompositorTool_ops (s : Symbols) (tools : list ToolOps) : ToolOps :=
  MkToolOps (compositor_FindSymbolForLinking s tools) (compositor_PrepareModule tools) (compositor_InstrumentRuntime tools)
    (compositor_InstrumentTrace tools) (compositor_SetUp tools) (compositor_TearDown tools).

(** The object that a tree describes. *)
Fixpoint object (t : Tool M) : ToolOps :=
  match t with
  | NullTool s => NullTool_ops s
  | LibraryTool s lib => SharedLibraryTool_ops s lib
  | ProxyTool s tool => ProxyTool_ops s (object tool)
  | CompositorTool s ts => CompositorTool_ops s (map object ts)
  end.

(** ** Wrapped symbols *)

(** [ProvideWrappedSymbol(name)] with the address of the host's function and
    of the wrapper's [run]: the symbols afterwards and what the wrapper will
    call.  [find] is the virtual [FindSymbolForLinking] of the object, which
    depends on its symbols. *)
Definition ProvideWrappedSymbol (find : Symbols -> list Z -> Z -> Z) (s : Symbols) (name : list Z) (native_addr run : Z) : Symbols * Z :=
  let resolved := find s name native_addr in
  (ProvideSymbol s name run, resolved).

(** ** The tables compute the functions of the tree *)

(** A table agrees with a tree. *)
Record implements (o : ToolOps) (t : Tool M) : Prop := {
  im_find : forall name r, op_FindSymbolForLinking o name r = FindSymbolForLinking t name r;
  im_prepare : forall m, op_PrepareModule o m = PrepareModule t m;
  im_runtime : forall m, op_InstrumentRuntime o m = InstrumentRuntime t m;
  im_trace : forall pc m, op_InstrumentTrace o pc m = InstrumentTrace t pc m;
  im_setup : forall m, op_SetUp o m = SetUp t m;
  im_teardown : forall m, op_TearDown o m = Ok (TearDown t m)
}.

Lemma null_implements s : implements (NullTool_ops s) (NullTool s).
Proof. by split. Qed.

Lemma library_implements s lib : implements (SharedLibraryTool_ops s lib) (LibraryTool s lib).
Proof. by split. Qed.

Lemma proxy_implements s o t : implements o t -> implements (ProxyTool_ops s o) (ProxyTool s t).
Proof.
  intros [Hf Hp Hr Ht Hs Hd].
  split; intros; cbn [ProxyTool_ops op_FindSymbolForLinking op_PrepareModule op_InstrumentRuntime op_InstrumentTrace op_SetUp op_TearDown].
  - unfold proxy_FindSymbolForLinking. by rewrite Hf.
  - apply Hp.
  - apply Hr.
  - apply Ht.
  - apply Hs.
  - apply Hd.
Qed.

(** The loop of [TearDown] with [rest] behind it visits [tools] from the
    back. *)
Lemma teardown_loop_spec tools ts rest (m : M) :
  Forall2 implements tools ts ->
  compositor_teardown_loop (length tools) (tools ++ rest) (S (length rest)) m = Ok (foldr (fun t m => TearDown t m) m ts).
Proof.
  revert ts rest m. induction tools as [|o tools IH] using rev_ind; intros ts rest m HF.
  { by apply Forall2_nil_inv_l in HF as ->. }
  apply Forall2_app_inv_l in HF as (ts' & l & HF & Hl & ->).
  apply Forall2_cons_inv_l in Hl as (t & l' & Ho & Hl & ->). apply Forall2_nil_inv_l in Hl as ->.
  rewrite length_app, Nat.add_comm. cbn [length Nat.add compositor_teardown_loop].
  rewrite <- app_assoc. cbn [app]. rewrite !length_app. cbn [length].
  replace (_ - _)%nat with (length tools) by lia. rewrite list_lookup_middle by done. cbn [deref_opt mbind outcome_bind].
  rewrite (im_teardown _ _ Ho). cbn [mbind outcome_bind]. rewrite foldr_app. cbn [foldr].
  apply (IH ts' (o :: rest)). done.
Qed.

(** Folds over objects that agree with trees. *)
Lemma foldl_implements {A} (f : A -> ToolOps -> A) (g : A -> Tool M -> A) tools ts a :
  Forall2 implements tools ts -> (forall a o t, implements o t -> f a o = g a t) -> foldl f a tools = foldl g a ts.
Proof. intros HF Hfg. revert a. induction HF as [|o t tools ts Ho _ IH]; intros a; cbn [foldl]; [done|]. by rewrite (Hfg a o t Ho), IH. Qed.

(** The loops of the tree's functions are folds. *)
Lemma tree_fold {A} (f : A -> Tool M -> A) ts a :
  (fix go ts a := match ts with [] => a | t :: ts => go ts (f a t) end) ts a = foldl f a ts.
Proof. revert a. induction ts as [|t ts IH]; intros a; cbn [foldl]; [done|]. apply IH. Qed.

Lemma tree_fold_changed (f : Tool M -> M -> bool * M) ts c m :
  (fix go ts (changed : bool) m := match ts with [] => (changed, m) | t :: ts => let '(c, m) := f t m in go ts (c || changed) m end) ts c m =
  foldl (fun '(changed, m) t => let '(c, m) := f t m in (c || changed, m)) (c, m) ts.
Proof. revert c m. induction ts as [|t ts IH]; intros c m; cbn [foldl]; [done|]. destruct (f t m). apply IH. Qed.

Lemma tree_foldr (f : Tool M -> M -> M) ts m :
  (fix go ts m := match ts with [] => m | t :: ts => f t (go ts m) end) ts m = foldr f m ts.
Proof. induction ts as [|t ts IH]; cbn [foldr]; [done|]. by rewrite IH. Qed.

Lemma compositor_implements s tools ts :
  Forall2 implements tools ts -> implements (CompositorTool_ops s tools) (CompositorTool s ts).
Proof.
  intros HF.
  split; intros; cbn [CompositorTool_ops op_FindSymbolForLinking op_PrepareModule op_InstrumentRuntime op_InstrumentTrace op_SetUp op_TearDown
    FindSymbolForLinking PrepareModule InstrumentRuntime InstrumentTrace SetUp TearDown].
  - unfold compositor_FindSymbolForLinking. rewrite (tree_fold (fun r t => FindSymbolForLinking t name r)). f_equal.
    apply foldl_implements; [done|]. intros a o t Ho. apply (im_find _ _ Ho).
  - rewrite (tree_fold (fun m t => PrepareModule t m)). apply foldl_implements; [done|]. intros a o t Ho. apply (im_prepare _ _ Ho).
  - rewrite tree_fold_changed. apply foldl_implements; [done|]. intros [c a] o t Ho. by rewrite (im_runtime _ _ Ho).
  - rewrite tree_fold_changed. apply foldl_implements; [done|]. intros [c a] o t Ho. by rewrite (im_trace _ _ Ho).
  - rewrite (tree_fold (fun m t => SetUp t m)). apply foldl_implements; [done|]. intros a o t Ho. apply (im_setup _ _ Ho).
  - rewrite (tree_foldr (fun t m => TearDown t m)). unfold compositor_TearDown.
    rewrite <- (teardown_loop_spec tools ts [] m HF). by rewrite app_nil_r.
Qed.

(** Calling a tool through its table of virtual functions computes what the
    tree of tools computes: sub-tools are called through their own tables, to
    any depth, and the loop of a compositor's tear-down, which counts indices
    from the end of its vector, never leaves the vector. *)
Theorem object_implements (t : Tool M) : implements (object t) t.
Proof.
  induction t as [s|s lib|s t IH|s ts IH] using Tool_nested_ind; cbn [object].
  - apply null_implements.
  - apply library_implements.
  - by apply proxy_implements.
  - apply compositor_implements. induction IH; cbn [map]; by constructor.
Qed.

(** [AddTool] appends to the tools of the tree. *)
Lemma AddTool_implements s tools ts o t :
  Forall2 implements tools ts -> implements o t ->
  implements (CompositorTool_ops s (compositor_AddTool tools o)) (AddTool (CompositorTool s ts) t).
Proof. intros HF Ho. apply compositor_implements. apply Forall2_app; [done|by constructor]. Qed.

(** A wrapped symbol links to the wrapper, and the wrapper calls what the
    tools resolved the symbol to before; wrapping twice calls the first
    wrapper from the second. *)
Lemma wrapped_symbol (s : Symbols) name native run run2 r :
  name ∉ dom (provided_symbols s) -> native <> 0 -> run <> 0 -> run2 <> 0 ->
  let '(s1, target1) := ProvideWrappedSymbol Tool_FindSymbolForLinking s name native run in
  let '(s2, target2) := ProvideWrappedSymbol Tool_FindSymbolForLinking s1 name native run2 in
  target1 = native /\ Tool_FindSymbolForLinking s1 name r = run /\ target2 = run /\ Tool_FindSymbolForLinking s2 name r = run2.
Proof.
  intros Hs Hn Hr Hr2. apply not_elem_of_dom in Hs. cbn. unfold Tool_FindSymbolForLinking. cbn.
  rewrite !lookup_insert_eq, Hs. cbn. rewrite !(proj2 (Z.eqb_neq _ 0)) by done. done.
Qed.
End classes.
End ToolClasses.

From S2P Require Import Prelude Allocators AllocatorProps.

(** ** The tools every run installs

    Models [vmill/Executor/AsyncIO.cpp], [vmill/Executor/Memory.cpp] and
    [LoadTool] of [vmill/Executor/Executor.cpp]: the proxy tools that replace
    blocking calls and the heap functions of the runtime.  Function addresses
    are parameters. *)

Module HostTools.
(** ** The heap of the runtime *)

(** [int] arithmetic; an overflow is undefined. *)
Definition int_mul (a b : Z) : outcome Z :=
  if (- 2 ^ 31 <=? a * b) && (a * b <? 2 ^ 31) then Ok (a * b) else Undefined.

Section heap.
Context (mmap : nat -> Z -> Z -> bool -> option Z) (kBreakPointBytes : list Z).

(** [liballoc_alloc]: [gRuntimeHeap] is passed along; the size becomes a
    [size_t]. *)
Definition liballoc_alloc (gRuntimeHeap : ZoneAllocator) (num_pages : Z) : outcome (Z * ZoneAllocator) :=
  size ← int_mul num_pages 4096;
  '(alloc, heap) ← ZoneAllocator_Allocate mmap kBreakPointBytes gRuntimeHeap (wrap64 size);
  Ok (za_base alloc, heap).

Definition liballoc_free (gRuntimeHeap : ZoneAllocator) (base num_pages : Z) : outcome (Z * ZoneAllocator) :=
  size ← int_mul num_pages 4096;
  Ok (0, fst (Free gRuntimeHeap (MkZoneAllocation base (wrap64 size)))).
End heap.

(** ** Asynchronous calls *)

Inductive future_status := future_deferred | future_ready | future_timeout.

(** The loop of [run_func]: the number of times the coroutine pauses before
    the future is ready. *)
Fixpoint wait_pauses (polls : list future_status) : outcome nat :=
  match polls with
  | [] => Diverges
  | (future_deferred | future_ready) :: _ => Ok O
  | future_timeout :: polls => n ← wait_pauses polls; Ok (S n)
  end.

(** [run_func]: the result and the error number of the call that the worker
    thread made, after the pauses. *)
Definition run_func (func_to_run : Z * Z) (polls : list future_status) : outcome (nat * Z * Z) :=
  pauses ← wait_pauses polls;
  let '(ret_val, new_errno) := func_to_run in
  Ok (pauses, ret_val, new_errno).

Section tools.
Context {M : Type}.

(** The calls that are replaced, in order, as the character codes of [read],
    [write], [connect], [recvfrom], [sendto], [sendmsg], [recvmsg], [poll],
    [select], [getaddrinfo], [getnameinfo] and [sleep]. *)
Definition async_functions : list (list Z) :=
  [ [114; 101; 97; 100]; [119; 114; 105; 116; 101]; [99; 111; 110; 110; 101; 99; 116];
    [114; 101; 99; 118; 102; 114; 111; 109]; [115; 101; 110; 100; 116; 111]; [115; 101; 110; 100; 109; 115; 103];
    [114; 101; 99; 118; 109; 115; 103]; [112; 111; 108; 108]; [115; 101; 108; 101; 99; 116];
    [103; 101; 116; 97; 100; 100; 114; 105; 110; 102; 111]; [103; 101; 116; 110; 97; 109; 101; 105; 110; 102; 111];
    [115; 108; 101; 101; 112] ].

(** [host_function name] is the address in the process, [wrapper name target]
    the wrapper that runs [target] on a worker thread. *)
Context (host_function : list Z -> Z) (wrapper : list Z -> Z -> Z).

(** [AsyncIOTool]'s constructor: the implementation is resolved through the
    proxy as it stands. *)
Definition provide_async (tool : Tool M) (s : Symbols) (name : list Z) : Symbols :=
  ProvideSymbol s name (wrapper name (FindSymbolForLinking (ProxyTool s tool) name (host_function name))).

Definition AsyncIOTool (tool : Tool M) : Tool M :=
  ProxyTool (foldl (provide_async tool) no_symbols async_functions) tool.

(** [MemoryManagerTool::FindSymbolForLinking]: the allocation functions come
    first, and the proxied tool may replace them again. *)
Definition MemoryManagerTool_FindSymbolForLinking (alloc_funcs : gmap (list Z) Z) (tool : Tool M) (name : list Z) (resolved : Z) : Z :=
  FindSymbolForLinking (ProxyTool no_symbols tool) name (default resolved (alloc_funcs !! name)).

(** As a tool: its allocation functions are applied before the proxied one. *)
Definition MemoryManagerTool (alloc_funcs : gmap (list Z) Z) (tool : Tool M) : Tool M :=
  CompositorTool no_symbols
    [LibraryTool no_symbols (SharedLibraryTool (Some (fun name resolved => default resolved (alloc_funcs !! name))) None None None None None);
     ProxyTool no_symbols tool].

(** [LoadTool] *)
Definition LoadTool (find_tool : list Z -> option (Tool M)) (alloc_funcs : gmap (list Z) Z) (FLAGS_tool : list Z) (FLAGS_num_io_threads : Z) :
    outcome (Tool M) :=
  tool ← Tool_Load find_tool FLAGS_tool;
  let tool := if FLAGS_num_io_threads =? 0 then tool else AsyncIOTool tool in
  Ok (MemoryManagerTool alloc_funcs tool).

(** ** Properties *)

Lemma Tool_Find_none name r : Tool_FindSymbolForLinking no_symbols name r = r.
Proof. unfold Tool_FindSymbolForLinking. cbn. rewrite !lookup_empty. cbn. by destruct (Z.eqb_spec r 0). Qed.

Lemma MemoryManagerTool_Find alloc_funcs (tool : Tool M) name r :
  FindSymbolForLinking (MemoryManagerTool alloc_funcs tool) name r = MemoryManagerTool_FindSymbolForLinking alloc_funcs tool name r.
Proof. unfold MemoryManagerTool, MemoryManagerTool_FindSymbolForLinking. cbn. by rewrite !Tool_Find_none. Qed.

(** A provided symbol replaces whatever was resolved before. *)
Lemma Tool_Find_provided (s : Symbols) name r pc : provided_symbols s !! name = Some pc -> pc <> 0 -> Tool_FindSymbolForLinking s name r = pc.
Proof. intros Hp Hn. unfold Tool_FindSymbolForLinking. rewrite Hp. cbn. by rewrite (proj2 (Z.eqb_neq pc 0) Hn). Qed.

(** What the constructor of [AsyncIOTool] has provided after some names. *)
Lemma provide_async_spec (tool : Tool M) names s name :
  NoDup names -> offered_symbols s = ∅ -> (forall n, n ∈ names -> provided_symbols s !! n = None) ->
  let s' := foldl (provide_async tool) s names in
  offered_symbols s' = ∅ /\
  provided_symbols s' !! name =
    if decide (name ∈ names) then Some (wrapper name (FindSymbolForLinking tool name (host_function name))) else provided_symbols s !! name.
Proof.
  revert s. induction names as [|n names IH]; intros s Hnd Ho Hp; cbn [foldl]; [split; [done|by rewrite decide_False by set_solver]|].
  apply NoDup_cons in Hnd as [Hn Hnd].
  destruct (IH (provide_async tool s n) Hnd) as [Ho' Hp']; [done| |].
  { intros n' Hin. cbn. rewrite lookup_insert_ne by (intros ->; done). apply Hp. set_solver. }
  split; [done|]. rewrite Hp'. destruct (decide (name ∈ names)) as [Hin|Hin]; [by rewrite decide_True by set_solver|].
  cbn. destruct (decide (n = name)) as [->|Hne].
  - rewrite lookup_insert_eq, decide_True by set_solver. do 2 f_equal.
    unfold Tool_FindSymbolForLinking. rewrite Ho, (Hp name), lookup_empty by set_solver. cbn.
    by destruct (Z.eqb_spec (FindSymbolForLinking tool name (host_function name)) 0).
  - rewrite lookup_insert_ne by done. rewrite decide_False; [done|]. set_solver.
Qed.

(** Every blocking call is linked to the wrapper of what the inner tool
    resolves it to; every other symbol is the inner tool's. *)
Lemma AsyncIOTool_Find (tool : Tool M) name r :
  (forall n t, wrapper n t <> 0) ->
  FindSymbolForLinking (AsyncIOTool tool) name r =
    if decide (name ∈ async_functions) then wrapper name (FindSymbolForLinking tool name (host_function name))
    else FindSymbolForLinking tool name r.
Proof.
  intros Hw. destruct (provide_async_spec tool async_functions no_symbols name) as [Ho Hp]; [|done|done|].
  { apply (bool_decide_unpack _). vm_compute. exact I. }
  unfold AsyncIOTool. cbn [FindSymbolForLinking]. case_decide as Hd.
  - apply Tool_Find_provided; [done|apply Hw].
  - unfold Tool_FindSymbolForLinking. rewrite Ho, Hp, lookup_empty.
    rewrite (lookup_empty name : provided_symbols no_symbols !! name = None). cbn [default].
    by destruct (Z.eqb_spec (FindSymbolForLinking tool name r) 0).
Qed.
End tools.
End HostTools.
