(* ===== verification/CodeCache.v ===== *)
(** * The code cache

    Models [vmill/Executor/CodeCache.cpp]: the sections the JIT linker
    allocates, the index of lifted functions that is read from them, symbol
    resolution and the libraries of a workspace.  LLVM is a parameter: what an
    object file asks for ([sections]), what the linker wrote at an address
    ([index_at], [ctor_at]), the symbols of a loaded library and of the
    process, and the compiler.  Names are lists of characters. *)

From S2P Require Import Prelude Allocators Tools.

(** [MemoryMap] *)
Record MemoryMap := MkMemoryMap {
  mm_base : Z;
  mm_size : Z;
  mm_section_id : Z;
  mm_can_read : bool;
  mm_can_write : bool;
  mm_can_exec : bool;
  is_index : bool;
  is_ctors : bool;
  source_file : list Z
}.

(** [CacheIndexEntry]; a [TraceId] is a pair of program counter and hash. *)
Record CacheIndexEntry := MkIndexEntry { ie_trace_id : Z * Z; ie_lifted_function : Z }.
Definition sizeof_CacheIndexEntry : Z := 24.

(** [Constructor] *)
Record Constructor := MkConstructor { ctor_priority : Z; ctor_func : Z; ctor_data : Z }.
Definition sizeof_Constructor : Z := 24.

(** What an object file asks of the memory manager. *)
Inductive SectionRequest :=
| CodeSection (size alignment section_id : Z)
| DataSection (size alignment section_id : Z) (name : list Z) (is_read_only : bool).

(** [".vindex"], [".vctors"] and [".obj"] *)
Definition vindex : list Z := [46; 118; 105; 110; 100; 101; 120].
Definition vctors : list Z := [46; 118; 99; 116; 111; 114; 115].
Definition obj_suffix : list Z := [46; 111; 98; 106].
Definition PathSeparator : Z := 47.

Section code_cache.
(** Modules, object files and the state of the tools. *)
Context {Mod Obj TS : Type}.

Record CodeCache := MkCodeCache {
  tool : Tool (Mod * TS);
  tool_state : TS;
  code_allocator : AreaAllocator;
  data_allocator : AreaAllocator;
  index_allocator : AreaAllocator;
  ctor_allocator : AreaAllocator;
  jit_ranges : gmap Z MemoryMap;
  pending_jit_ranges : gmap Z MemoryMap;
  (** A loader is the path of what it loaded. *)
  pending_loader : option (list Z);
  runtime_loader : option (list Z);
  pending_source_file : list Z;
  lifted_functions : gmap (Z * Z) Z;
  constructors : list Z;
  (** The constructors that were called, and the files of the workspace. *)
  called : list Z;
  object_files : gmap (list Z) Obj
}.

Definition with_allocators (c : CodeCache) (ca da ia ta : AreaAllocator) (pending : gmap Z MemoryMap) : CodeCache :=
  MkCodeCache (tool c) (tool_state c) ca da ia ta (jit_ranges c) pending (pending_loader c) (runtime_loader c)
    (pending_source_file c) (lifted_functions c) (constructors c) (called c) (object_files c).
Definition with_index (c : CodeCache) (f : gmap (Z * Z) Z) (k : list Z) : CodeCache :=
  MkCodeCache (tool c) (tool_state c) (code_allocator c) (data_allocator c) (index_allocator c) (ctor_allocator c)
    (jit_ranges c) (pending_jit_ranges c) (pending_loader c) (runtime_loader c) (pending_source_file c) f k (called c) (object_files c).
Definition with_ranges (c : CodeCache) (jit pending : gmap Z MemoryMap) : CodeCache :=
  MkCodeCache (tool c) (tool_state c) (code_allocator c) (data_allocator c) (index_allocator c) (ctor_allocator c)
    jit pending (pending_loader c) (runtime_loader c) (pending_source_file c) (lifted_functions c) (constructors c) (called c) (object_files c).
Definition with_loaders (c : CodeCache) (pending runtime : option (list Z)) (path : list Z) : CodeCache :=
  MkCodeCache (tool c) (tool_state c) (code_allocator c) (data_allocator c) (index_allocator c) (ctor_allocator c)
    (jit_ranges c) (pending_jit_ranges c) pending runtime path (lifted_functions c) (constructors c) (called c) (object_files c).
Definition with_called (c : CodeCache) (k : list Z) : CodeCache :=
  MkCodeCache (tool c) (tool_state c) (code_allocator c) (data_allocator c) (index_allocator c) (ctor_allocator c)
    (jit_ranges c) (pending_jit_ranges c) (pending_loader c) (runtime_loader c) (pending_source_file c) (lifted_functions c) [] k (object_files c).
Definition with_files (c : CodeCache) (ts : TS) (files : gmap (list Z) Obj) : CodeCache :=
  MkCodeCache (tool c) ts (code_allocator c) (data_allocator c) (index_allocator c) (ctor_allocator c)
    (jit_ranges c) (pending_jit_ranges c) (pending_loader c) (runtime_loader c) (pending_source_file c) (lifted_functions c)
    (constructors c) (called c) files.

(** [Lookup(trace_id)]; 0 is the null pointer. *)
Definition Lookup_trace (c : CodeCache) (trace_id : Z * Z) : Z := default 0 (lifted_functions c !! trace_id).

Definition RunConstructors (c : CodeCache) : CodeCache :=
  match constructors c with [] => c | cs => with_called c (called c ++ cs) end.

Context (mmap : nat -> Z -> Z -> bool -> option Z) (kBreakPointBytes : list Z).

Definition allocateCodeSection (c : CodeCache) (size alignment section_id : Z) : outcome (Z * CodeCache) :=
  '(base, ca) ← AreaAllocator_Allocate mmap kBreakPointBytes (code_allocator c) size alignment;
  let map := MkMemoryMap base size section_id true false true false false (pending_source_file c) in
  Ok (base, with_allocators c ca (data_allocator c) (index_allocator c) (ctor_allocator c) (<[section_id := map]> (pending_jit_ranges c))).

Definition allocateDataSection (c : CodeCache) (size alignment section_id : Z) (name : list Z) (is_read_only : bool) :
    outcome (Z * CodeCache) :=
  let map base idx ctors := MkMemoryMap base size section_id true (negb is_read_only) false idx ctors (pending_source_file c) in
  if bool_decide (name = vindex) then
    '(base, ia) ← AreaAllocator_Allocate mmap kBreakPointBytes (index_allocator c) size 0;
    Ok (base, with_allocators c (code_allocator c) (data_allocator c) ia (ctor_allocator c) (<[section_id := map base true false]> (pending_jit_ranges c)))
  else if bool_decide (name = vctors) then
    '(base, ta) ← AreaAllocator_Allocate mmap kBreakPointBytes (ctor_allocator c) size 0;
    Ok (base, with_allocators c (code_allocator c) (data_allocator c) (index_allocator c) ta (<[section_id := map base false true]> (pending_jit_ranges c)))
  else
    '(base, da) ← AreaAllocator_Allocate mmap kBreakPointBytes (data_allocator c) size alignment;
    Ok (base, with_allocators c (code_allocator c) da (index_allocator c) (ctor_allocator c) (<[section_id := map base false false]> (pending_jit_ranges c))).

Context (index_at : Z -> CacheIndexEntry) (ctor_at : Z -> Constructor).

(** The entries of a section, [entry_size] bytes each. *)
Definition section_entries {E} (at_ : Z -> E) (entry_size : Z) (range : MemoryMap) : list E :=
  (fun i => at_ (mm_base range + entry_size * i)) <$> seqZ 0 (mm_size range / entry_size).

(** One iteration of the loop of [LoadIndex]. *)
Definition load_entry (st : bool * CodeCache) (e : CacheIndexEntry) : bool * CodeCache :=
  let '(all_good, c) := st in
  if fst (ie_trace_id e) =? 0 then (all_good, c)
  else if negb (AreaAllocator_Contains (code_allocator c) (ie_lifted_function e)) then (false, c)
  else if negb (Lookup_trace c (ie_trace_id e) =? 0) then (all_good, c)
  else (all_good, with_index c (<[ie_trace_id e := ie_lifted_function e]> (lifted_functions c)) (constructors c)).

Definition LoadIndex (c : CodeCache) (range : MemoryMap) : bool * CodeCache :=
  foldl load_entry (true, c) (section_entries index_at sizeof_CacheIndexEntry range).

Definition LoadConstructors (c : CodeCache) (range : MemoryMap) : CodeCache :=
  foldl (fun c k => if ctor_func k =? 0 then c else with_index c (lifted_functions c) (constructors c ++ [ctor_func k])) c
    (section_entries ctor_at sizeof_Constructor range).

(** One iteration of the loop of [finalizeMemory]. *)
Definition finalize_range (st : bool * CodeCache) (range : MemoryMap) : bool * CodeCache :=
  let '(all_good, c) := st in
  let c := with_ranges c (<[mm_base range := range]> (jit_ranges c)) (pending_jit_ranges c) in
  if is_ctors range then (all_good, LoadConstructors c range)
  else if is_index range then let '(good, c) := LoadIndex c range in (good || all_good, c)
  else (all_good, c).

(** The order in which the unordered map of pending ranges is iterated. *)
Context (iterate : gmap Z MemoryMap -> list MemoryMap).

Definition finalizeMemory (c : CodeCache) : bool * CodeCache :=
  let '(all_good, c) := foldl finalize_range (true, c) (iterate (pending_jit_ranges c)) in
  (all_good, with_ranges c (jit_ranges c) ∅).

(** The symbols of a loaded library (by path) and of the process; 0 when
    there is none. *)
Context (loader_symbol : list Z -> list Z -> Z) (getSymbolAddressInProcess : list Z -> Z).

Definition findSymbolInLogicalDylib (c : CodeCache) (name : list Z) : Z :=
  let addr := match pending_loader c with Some l => loader_symbol l name | None => 0 end in
  if addr =? 0 then match runtime_loader c with Some l => loader_symbol l name | None => addr end else addr.

Definition findSymbol (c : CodeCache) (name : list Z) : Z :=
  let addr := getSymbolAddressInProcess name in
  let resolved_addr := FindSymbolForLinking (tool c) name addr in
  if resolved_addr =? 0 then (if addr =? 0 then resolved_addr else addr) else resolved_addr.

(** [Lookup(symbol)] *)
Definition Lookup_symbol (c : CodeCache) (symbol : list Z) : Z :=
  let sym := findSymbolInLogicalDylib c symbol in
  if sym =? 0 then findSymbol c symbol else sym.

(** What the sections of an object file are; [None] when it is not one. *)
Context (sections : Obj -> option (list SectionRequest)).

Fixpoint load_sections (c : CodeCache) (rs : list SectionRequest) : outcome CodeCache :=
  match rs with
  | [] => Ok c
  | CodeSection size align id :: rs => '(_, c) ← allocateCodeSection c size align id; load_sections c rs
  | DataSection size align id name ro :: rs => '(_, c) ← allocateDataSection c size align id name ro; load_sections c rs
  end.

(** [LoadLibrary]: the answer of [finalizeMemory] is not used. *)
Definition LoadLibrary (c : CodeCache) (path : list Z) : outcome CodeCache :=
  let c := with_loaders c (Some path) (runtime_loader c) path in
  match object_files c !! path with
  | None => Fatal
  | Some obj =>
      match sections obj with
      | None => Fatal
      | Some rs => c ← load_sections c rs; Ok (snd (finalizeMemory c))
      end
  end.

(** [LoadLibraries]: the files of the library directory. *)
Fixpoint LoadLibraries (c : CodeCache) (paths : list (list Z)) : outcome (nat * CodeCache) :=
  match paths with
  | [] => Ok (O, c)
  | path :: paths =>
      c ← LoadLibrary c path;
      '(num_loaded, c) ← LoadLibraries c paths;
      Ok (S num_loaded, c)
  end.

(** LLVM: the name of a module, its functions with a [PC] annotation, the
    optimizer and the compiler. *)
Context (ModuleName : Mod -> list Z) (traces_of : Mod -> list Z) (OptimizeModule : Mod -> Mod) (compile : Mod -> Obj).

(** [ModuleTailName]: what follows the last separator. *)
Definition ModuleTailName (m : Mod) : list Z :=
  let name := reverse (ModuleName m) in
  let name := match list_find (fun ch => ch = PathSeparator) name with Some (pos, _) => take pos name | None => name end in
  reverse name.

Definition InstrumentTraces (c : CodeCache) (m : Mod) : Mod * TS :=
  let st := PrepareModule (tool c) (m, tool_state c) in
  let '(changed, st) :=
    foldl (fun '(changed, st) pc => let '(ch, st) := InstrumentTrace (tool c) pc st in (ch || changed, st))
      (false, st) (traces_of (fst st)) in
  if (changed : bool) then (OptimizeModule (fst st), snd st) else st.

(** The library directory. *)
Context (LibraryDir RuntimeLibraryPath : list Z).

Definition AddModuleToCache (c : CodeCache) (m : Mod) : outcome CodeCache :=
  let '(m, ts) := InstrumentTraces c m in
  let lib_path := LibraryDir ++ [PathSeparator] ++ ModuleTailName m ++ obj_suffix in
  let c := with_files c ts (<[lib_path := compile m]> (object_files c)) in
  c ← LoadLibrary c lib_path;
  Ok (with_loaders c None (runtime_loader c) (pending_source_file c)).

(** [ReloadLibraries]: the modules of the bitcode directory; a file that
    cannot be read is removed there. *)
Fixpoint ReloadLibraries (c : CodeCache) (modules : list (option Mod)) : outcome CodeCache :=
  match modules with
  | [] => Ok c
  | Some m :: modules => c ← AddModuleToCache c m; ReloadLibraries c modules
  | None :: modules => ReloadLibraries c modules
  end.

(** [LoadRuntimeLibrary]: compiles the runtime when there is no library yet. *)
Definition LoadRuntimeLibrary (c : CodeCache) (runtime : Mod) : outcome CodeCache :=
  let c := with_loaders c (pending_loader c) (runtime_loader c) RuntimeLibraryPath in
  let c :=
    match object_files c !! RuntimeLibraryPath with
    | Some _ => c
    | None =>
        let st := PrepareModule (tool c) (runtime, tool_state c) in
        let '(changed, st) := InstrumentRuntime (tool c) st in
        let m := if (changed : bool) then OptimizeModule (fst st) else fst st in
        with_files c (snd st) (<[RuntimeLibraryPath := compile m]> (object_files c))
    end in
  c ← LoadLibrary c RuntimeLibraryPath;
  Ok (with_loaders c (runtime_loader c) (pending_loader c) (pending_source_file c)).

(** The constructor: [paths] are the files of the library directory and
    [modules] those of the bitcode directory. *)
Definition CodeCache_new (t : Tool (Mod * TS)) (ts : TS) (page_size : Z) (bases : Z * Z * Z * Z)
    (files : gmap (list Z) Obj) (runtime : Mod) (paths : list (list Z)) (modules : list (option Mod)) : outcome CodeCache :=
  let '(cb, db, ib, tb) := bases in
  let c := MkCodeCache t ts (AreaAllocator_new kAreaRWX cb page_size) (AreaAllocator_new kAreaRW db page_size)
             (AreaAllocator_new kAreaRW ib page_size) (AreaAllocator_new kAreaRW tb page_size)
             ∅ ∅ None None [] ∅ [] [] files in
  c ← LoadRuntimeLibrary c runtime;
  '(n, c) ← LoadLibraries c paths;
  match n with O => ReloadLibraries c modules | _ => Ok c end.

(** [CodeCache::SetUp] and [TearDown] run the tools'. *)
Definition CodeCache_SetUp (no_module : Mod) (c : CodeCache) : CodeCache :=
  with_files c (snd (SetUp (tool c) (no_module, tool_state c))) (object_files c).
Definition CodeCache_TearDown (no_module : Mod) (c : CodeCache) : CodeCache :=
  with_files c (snd (TearDown (tool c) (no_module, tool_state c))) (object_files c).
End code_cache.
Arguments CodeCache : clear implicits.
