(* ===== verification/CodeCacheProps.v ===== *)
(** * What the code cache promises

    The index only ever holds addresses inside the code area, a published
    translation is never replaced, and every usable entry of a linked module
    is found afterwards. *)

From S2P Require Import Prelude Allocators AllocatorProps Tools CodeCache.

Section props.
Context {Mod Obj TS : Type}.
Context (mmap : nat -> Z -> Z -> bool -> option Z) (bp : list Z).
Context (mmap_nonnull : forall n addr size fixed ret, mmap n addr size fixed = Some ret -> 0 < ret).
Context (bp_nonempty : (0 < length bp)%nat).
Context (index_at : Z -> CacheIndexEntry) (ctor_at : Z -> Constructor) (iterate : gmap Z MemoryMap -> list MemoryMap).

Abbreviation Cache := (CodeCache Mod Obj TS).

(** The invariant of the index. *)
Record code_ok (c : Cache) : Prop := {
  ck_area : area_inv (code_allocator c);
  ck_functions id f : lifted_functions c !! id = Some f -> AreaAllocator_Contains (code_allocator c) f = true /\ fst id <> 0
}.

(** What later operations keep: the code area grows, published functions stay. *)
Record cache_grows (c c' : Cache) : Prop := {
  cg_area f : AreaAllocator_Contains (code_allocator c) f = true -> AreaAllocator_Contains (code_allocator c') f = true;
  cg_lookup id : Lookup_trace c id <> 0 -> Lookup_trace c' id = Lookup_trace c id
}.

#[global] Instance cache_grows_preorder : PreOrder cache_grows.
Proof.
  split; [by split|]. intros c1 c2 c3 [Ha1 Hl1] [Ha2 Hl2]. split; [auto|].
  intros id Hid. rewrite Hl2; [by apply Hl1|]. by rewrite Hl1.
Qed.

Lemma contained_pos a f : area_inv a -> AreaAllocator_Contains a f = true -> 0 < f.
Proof.
  unfold area_inv, AreaAllocator_Contains. rewrite andb_true_iff, Z.leb_le, Z.ltb_lt.
  intros [_ [H|H]]; lia.
Qed.

(** Reads of the index agree with the map. *)
Lemma Lookup_trace_nonzero c id : code_ok c -> Lookup_trace c id <> 0 <-> is_Some (lifted_functions c !! id).
Proof.
  intros Hok. unfold Lookup_trace. destruct (lifted_functions c !! id) as [f|] eqn:E; cbn.
  - split; [done|]. intros _. pose proof (contained_pos _ f (ck_area _ Hok)). apply (ck_functions _ Hok) in E as [E _]. specialize (H E). lia.
  - split; [done|]. by intros [].
Qed.

(** ** Reading the index of a module *)

(** An entry that can be used. *)
Definition usable (a : AreaAllocator) (e : CacheIndexEntry) : bool :=
  negb (fst (ie_trace_id e) =? 0) && AreaAllocator_Contains a (ie_lifted_function e).

(** The first usable entry of a trace. *)
Definition first_usable (a : AreaAllocator) (es : list CacheIndexEntry) (id : Z * Z) : Z :=
  match list_find (fun e => usable a e = true /\ ie_trace_id e = id) es with
  | Some (_, e) => ie_lifted_function e
  | None => 0
  end.

Definition bad_entry (a : AreaAllocator) (e : CacheIndexEntry) : bool :=
  negb (fst (ie_trace_id e) =? 0) && negb (AreaAllocator_Contains a (ie_lifted_function e)).

Lemma first_usable_cons a e es id :
  first_usable a (e :: es) id = if decide (usable a e = true /\ ie_trace_id e = id) then ie_lifted_function e else first_usable a es id.
Proof. unfold first_usable. cbn [list_find]. case_decide; [done|]. by destruct (list_find _ es) as [[? ?]|]. Qed.

Lemma load_entry_spec (c : Cache) good e :
  code_ok c ->
  exists f, load_entry (good, c) e = (good && negb (bad_entry (code_allocator c) e), with_index c f (constructors c)) /\
    code_ok (with_index c f (constructors c)) /\
    forall id, Lookup_trace (with_index c f (constructors c)) id =
      if Lookup_trace c id =? 0 then (if decide (usable (code_allocator c) e = true /\ ie_trace_id e = id) then ie_lifted_function e else 0)
      else Lookup_trace c id.
Proof.
  intros Hok. unfold load_entry, bad_entry, usable.
  assert (Hsame : with_index c (lifted_functions c) (constructors c) = c) by (by destruct c).
  assert (Hnop : forall b, b = false -> exists f, (good, c) = (good && negb false, with_index c f (constructors c)) /\
    code_ok (with_index c f (constructors c)) /\ forall id, Lookup_trace (with_index c f (constructors c)) id =
      if Lookup_trace c id =? 0 then (if decide (b = true /\ ie_trace_id e = id) then ie_lifted_function e else 0) else Lookup_trace c id).
  { intros b ->. exists (lifted_functions c). rewrite Hsame, andb_true_r. split_and!; try done. intros id.
    rewrite decide_False by naive_solver. by destruct (Z.eqb_spec (Lookup_trace c id) 0). }
  destruct (Z.eqb_spec (fst (ie_trace_id e)) 0) as [E|E]; cbn [negb andb]; [by apply Hnop|].
  destruct (AreaAllocator_Contains (code_allocator c) (ie_lifted_function e)) eqn:Ec; cbn [negb andb].
  2:{ destruct (Hnop false) as (f & Hf & ? & ?); [done|]. exists f. rewrite andb_false_r. split_and!; try done. by injection Hf as _ <-. }
  pose proof (contained_pos _ _ (ck_area _ Hok) Ec) as Hpos.
  destruct (Z.eqb_spec (Lookup_trace c (ie_trace_id e)) 0) as [E0|E0]; cbn [negb].
  - exists (<[ie_trace_id e := ie_lifted_function e]> (lifted_functions c)). rewrite andb_true_r. split_and!; [done| |].
    + destruct Hok as [Ha Hf]. split; cbn; [done|]. intros id f [[<- <-]|[_ Hl]]%lookup_insert_Some; [done|by eapply Hf].
    + intros id. unfold Lookup_trace at 1. cbn. destruct (decide (ie_trace_id e = id)) as [<-|Hne].
      * rewrite lookup_insert_eq, E0. cbn. by rewrite decide_True.
      * rewrite lookup_insert_ne by done. fold (Lookup_trace c id). rewrite decide_False by naive_solver.
        by destruct (Z.eqb_spec (Lookup_trace c id) 0).
  - exists (lifted_functions c). rewrite Hsame, andb_true_r. split_and!; try done. intros id.
    destruct (Z.eqb_spec (Lookup_trace c id) 0) as [Ez|]; [|done]. rewrite decide_False; [done|]. intros [_ <-]. done.
Qed.

Lemma load_entries_spec es (c : Cache) good :
  code_ok c ->
  exists f, foldl load_entry (good, c) es = (good && forallb (fun e => negb (bad_entry (code_allocator c) e)) es, with_index c f (constructors c)) /\
    code_ok (with_index c f (constructors c)) /\
    forall id, Lookup_trace (with_index c f (constructors c)) id =
      if Lookup_trace c id =? 0 then first_usable (code_allocator c) es id else Lookup_trace c id.
Proof.
  revert c good. induction es as [|e es IH]; intros c good Hok; cbn [foldl forallb].
  - exists (lifted_functions c). assert (with_index c (lifted_functions c) (constructors c) = c) as -> by (by destruct c).
    rewrite andb_true_r. split_and!; try done. intros id. by destruct (Z.eqb_spec (Lookup_trace c id) 0).
  - destruct (load_entry_spec c good e Hok) as (f1 & -> & Hok1 & Hl1).
    destruct (IH _ (good && negb (bad_entry (code_allocator c) e)) Hok1) as (f2 & -> & Hok2 & Hl2). cbn in Hok2, Hl2 |- *.
    exists f2. rewrite andb_assoc. split_and!; try done. intros id. rewrite Hl2, Hl1, first_usable_cons.
    destruct (Z.eqb_spec (Lookup_trace c id) 0) as [Ez|Ez].
    + destruct (decide (usable (code_allocator c) e = true /\ ie_trace_id e = id)) as [[Hu _]|]; [|done].
      unfold usable in Hu. apply andb_true_iff in Hu as [_ Hu]. pose proof (contained_pos _ _ (ck_area _ Hok) Hu).
      by rewrite (proj2 (Z.eqb_neq (ie_lifted_function e) 0)) by lia.
    + by rewrite (proj2 (Z.eqb_neq _ _) Ez).
Qed.

Lemma with_index_grows (c : Cache) f k :
  (forall id, Lookup_trace c id <> 0 -> Lookup_trace (with_index c f k) id = Lookup_trace c id) ->
  cache_grows c (with_index c f k).
Proof. by split. Qed.

(** [LoadIndex] publishes the first usable entry of every trace that is not
    published yet, and reports whether all entries with a program counter were
    in the code area. *)
Lemma LoadIndex_spec (c : Cache) range :
  code_ok c ->
  let es := section_entries index_at sizeof_CacheIndexEntry range in
  exists f, LoadIndex index_at c range = (forallb (fun e => negb (bad_entry (code_allocator c) e)) es, with_index c f (constructors c)) /\
    code_ok (with_index c f (constructors c)) /\
    forall id, Lookup_trace (with_index c f (constructors c)) id =
      if Lookup_trace c id =? 0 then first_usable (code_allocator c) es id else Lookup_trace c id.
Proof. intros Hok es. apply (load_entries_spec es c true Hok). Qed.

Lemma LoadConstructors_spec (c : Cache) range :
  LoadConstructors ctor_at c range =
    with_index c (lifted_functions c)
      (constructors c ++ filter (fun f => f <> 0) (ctor_func <$> section_entries ctor_at sizeof_Constructor range)).
Proof.
  unfold LoadConstructors. generalize (section_entries ctor_at sizeof_Constructor range). intros ks. revert c.
  induction ks as [|k ks IH]; intros c; cbn [foldl fmap list_fmap]; [rewrite filter_nil, app_nil_r; by destruct c|].
  destruct (Z.eqb_spec (ctor_func k) 0) as [E|E].
  - rewrite IH, filter_cons_False by tauto. done.
  - rewrite IH, filter_cons_True by done. cbn. by rewrite <- app_assoc.
Qed.

(** ** Finalizing the pending sections *)

Lemma first_usable_nonzero a es id e :
  area_inv a -> e ∈ es -> usable a e = true -> ie_trace_id e = id -> first_usable a es id <> 0.
Proof.
  intros Ha Hin Hu Hid. unfold first_usable. destruct (list_find _ es) as [[i e']|] eqn:E.
  - apply list_find_Some in E as (_ & [Hu' _] & _). unfold usable in Hu'. apply andb_true_iff in Hu' as [_ Hu'].
    pose proof (contained_pos _ _ Ha Hu'). lia.
  - apply list_find_None in E. rewrite Forall_forall in E. by destruct (E e Hin).
Qed.

(** The entries of the index sections among the ranges, in their order. *)
Definition range_entries (range : MemoryMap) : list CacheIndexEntry :=
  if is_ctors range then [] else if is_index range then section_entries index_at sizeof_CacheIndexEntry range else [].
Definition index_entries (ranges : list MemoryMap) : list CacheIndexEntry := ranges ≫= range_entries.

(** Published functions stay; of the other identifiers the first usable entry
    is published. *)
Definition publishes (a : AreaAllocator) (es : list CacheIndexEntry) (c c' : Cache) : Prop :=
  forall id, Lookup_trace c' id = if Lookup_trace c id =? 0 then first_usable a es id else Lookup_trace c id.

Lemma publishes_nil a c c' : lifted_functions c' = lifted_functions c -> publishes a [] c c'.
Proof.
  intros Hf id. unfold Lookup_trace. rewrite Hf. destruct (Z.eqb_spec (default 0 (lifted_functions c !! id)) 0) as [->|]; done.
Qed.

Lemma publishes_app a es1 es2 c1 c2 c3 : publishes a es1 c1 c2 -> publishes a es2 c2 c3 -> area_inv a -> publishes a (es1 ++ es2) c1 c3.
Proof.
  intros H1 H2 Ha id. rewrite H2, H1. destruct (Z.eqb_spec (Lookup_trace c1 id) 0) as [E|E]; [|by rewrite (proj2 (Z.eqb_neq _ _) E)].
  clear H1 H2. induction es1 as [|e es1 IH]; cbn [app]; [done|]. rewrite !first_usable_cons. case_decide as Hd; [|done].
  destruct Hd as [Hu _]. unfold usable in Hu. apply andb_true_iff in Hu as [_ Hu]. pose proof (contained_pos _ _ Ha Hu).
  by rewrite (proj2 (Z.eqb_neq (ie_lifted_function e) 0)) by lia.
Qed.

Lemma publishes_grows a es c c' id : publishes a es c c' -> Lookup_trace c id <> 0 -> Lookup_trace c' id = Lookup_trace c id.
Proof. intros Hp Hid. by rewrite (Hp id), (proj2 (Z.eqb_neq _ _) Hid). Qed.

Lemma finalize_range_spec (c : Cache) good range :
  code_ok c ->
  exists good' c', finalize_range index_at ctor_at (good, c) range = (good', c') /\ (good = true -> good' = true) /\
    code_ok c' /\ code_allocator c' = code_allocator c /\ publishes (code_allocator c) (range_entries range) c c'.
Proof.
  intros Hok. unfold finalize_range, range_entries. set (c1 := with_ranges c _ _).
  assert (Hok1 : code_ok c1) by (by destruct Hok). destruct (is_ctors range) eqn:Ec; [|destruct (is_index range) eqn:Ei].
  - rewrite LoadConstructors_spec. eexists good, _. split_and!; try done; [by destruct Hok|by apply publishes_nil].
  - destruct (LoadIndex_spec c1 range Hok1) as (f & -> & Hok2 & Hl). eexists _, _. split; [done|].
    split; [intros ->; by rewrite orb_true_r|]. by split_and!.
  - exists good, c1. split_and!; try done. by apply publishes_nil.
Qed.

Lemma finalize_ranges_spec ranges (c : Cache) good :
  code_ok c ->
  exists good' c', foldl (finalize_range index_at ctor_at) (good, c) ranges = (good', c') /\ (good = true -> good' = true) /\
    code_ok c' /\ code_allocator c' = code_allocator c /\ publishes (code_allocator c) (index_entries ranges) c c'.
Proof.
  revert c good. induction ranges as [|r ranges IH]; intros c good Hok; cbn [foldl].
  { exists good, c. split_and!; try done. by apply publishes_nil. }
  destruct (finalize_range_spec c good r Hok) as (g1 & c1 & -> & Hg1 & Hok1 & Ha1 & Hl1).
  destruct (IH c1 g1 Hok1) as (g2 & c2 & -> & Hg2 & Hok2 & Ha2 & Hl2). rewrite Ha1 in Ha2, Hl2.
  exists g2, c2. split_and!; auto. unfold index_entries. rewrite bind_cons. eapply publishes_app; [done|done|apply Hok].
Qed.

Lemma finalizeMemory_spec (c : Cache) :
  code_ok c ->
  exists c', finalizeMemory index_at ctor_at iterate c = (true, c') /\ code_ok c' /\ code_allocator c' = code_allocator c /\
    publishes (code_allocator c) (index_entries (iterate (pending_jit_ranges c))) c c'.
Proof.
  intros Hok. unfold finalizeMemory.
  destruct (finalize_ranges_spec (iterate (pending_jit_ranges c)) c true Hok) as (g & c' & -> & Hg & Hok' & Ha & Hl).
  rewrite Hg by done. eexists. split; [done|]. split_and!; [by destruct Hok'|done|done].
Qed.

(** ** Linking a library *)

Definition request_sane (page : Z) (r : SectionRequest) : Prop :=
  match r with
  | CodeSection size align _ | DataSection size align _ _ _ => 0 <= size /\ 0 <= align /\ size + align + page < two64
  end.

Lemma allocateCodeSection_grows (c : Cache) size align id base c' :
  code_ok c -> 0 <= size -> 0 <= align -> size + align + page_size (code_allocator c) < two64 ->
  allocateCodeSection mmap bp c size align id = Ok (base, c') ->
  code_ok c' /\ cache_grows c c' /\ page_size (code_allocator c') = page_size (code_allocator c) /\
  lifted_functions c' = lifted_functions c.
Proof.
  intros Hok Hs Ha Hov Heq. unfold allocateCodeSection in Heq. apply bind_ok in Heq as ([b ca] & Hal & [= <- <-]).
  assert (Hp : page_size ca = page_size (code_allocator c)) by (by eapply AreaAllocator_Allocate_page).
  apply (area_Allocate_spec mmap bp mmap_nonnull bp_nonempty) in Hal as [Hi Hm Hb _ _]; try done; [|apply Hok].
  assert (Hg : forall f, AreaAllocator_Contains (code_allocator c) f = true -> AreaAllocator_Contains ca f = true).
  { intros f Hf. pose proof (contained_pos _ _ (ck_area _ Hok) Hf) as Hpos.
    unfold AreaAllocator_Contains in *. rewrite andb_true_iff, Z.leb_le, Z.ltb_lt in *.
    destruct (ck_area _ Hok) as [_ [?|?]]; [lia|]. destruct Hb as [-> ?]; lia. }
  split_and!; [|by split|done|done]. split; cbn; [done|]. intros i f [Hf Hn]%(ck_functions _ Hok). auto.
Qed.

Lemma allocateDataSection_same (c : Cache) size align id name ro base c' :
  allocateDataSection mmap bp c size align id name ro = Ok (base, c') ->
  lifted_functions c' = lifted_functions c /\ code_allocator c' = code_allocator c.
Proof.
  unfold allocateDataSection. intros Heq. repeat case_bool_decide; by apply bind_ok in Heq as ([b da] & _ & [= <- <-]).
Qed.

Lemma load_sections_spec rs (c c' : Cache) :
  code_ok c -> Forall (request_sane (page_size (code_allocator c))) rs ->
  load_sections mmap bp c rs = Ok c' -> code_ok c' /\ cache_grows c c' /\ lifted_functions c' = lifted_functions c.
Proof.
  revert c. induction rs as [|r rs IH]; intros c Hok Hrs Heq; cbn [load_sections] in Heq; [by injection Heq as <-|].
  apply Forall_cons in Hrs as [Hr Hrs]. destruct r as [size align id|size align id name ro]; cbn in Hr;
    apply bind_ok in Heq as ([b c1] & H1 & Heq).
  - destruct (allocateCodeSection_grows c size align id b c1) as (Hok1 & Hg1 & Hp1 & Hf1); try tauto; try done.
    destruct (IH c1 Hok1) as (? & ? & ?); [by rewrite Hp1|done|]. split_and!; [done|by etrans|congruence].
  - apply allocateDataSection_same in H1 as [Hf1 Ha1].
    assert (code_ok c1) by (destruct Hok as [Ha Hf]; split; rewrite ?Ha1, ?Hf1; done).
    assert (cache_grows c c1) by (split; unfold Lookup_trace; rewrite ?Ha1, ?Hf1; done).
    destruct (IH c1) as (? & ? & ?); [done|by rewrite Ha1|done|]. split_and!; [done|by etrans|congruence].
Qed.

Context (sections : Obj -> option (list SectionRequest)).
Context (ModuleName : Mod -> list Z) (traces_of : Mod -> list Z) (OptimizeModule : Mod -> Mod) (compile : Mod -> Obj).
Context (LibraryDir : list Z).

Let load : Cache -> list Z -> outcome Cache := LoadLibrary mmap bp index_at ctor_at iterate sections.
Let add : Cache -> Mod -> outcome Cache := AddModuleToCache mmap bp index_at ctor_at iterate sections ModuleName traces_of OptimizeModule compile LibraryDir.

(** What the object files ask for fits the address space. *)
Definition sane_objects : Prop :=
  forall obj rs page, sections obj = Some rs -> 0 < page < 2 ^ 63 -> Forall (request_sane page) rs.

Lemma page_bound a : page_ok a -> 0 < page_size a < 2 ^ 63.
Proof.
  intros (k & Hk & ->). split; [apply Z.pow_pos_nonneg; lia|].
  apply Z.le_lt_trans with (2 ^ 40); [apply Z.pow_le_mono_r; lia|done].
Qed.

Lemma LoadLibrary_spec (c c' : Cache) path obj rs :
  sane_objects -> code_ok c -> object_files c !! path = Some obj -> sections obj = Some rs -> load c path = Ok c' ->
  exists c2, load_sections mmap bp (with_loaders c (Some path) (runtime_loader c) path) rs = Ok c2 /\
    area_inv (code_allocator c2) /\ code_ok c' /\ publishes (code_allocator c2) (index_entries (iterate (pending_jit_ranges c2))) c c'.
Proof.
  intros Hs Hok Ho Hrs Heq. unfold load, LoadLibrary in Heq. cbv zeta in Heq. cbn [object_files with_loaders] in Heq.
  rewrite Ho, Hrs in Heq. apply bind_ok in Heq as (c2 & H2 & [= <-]).
  set (c1 := with_loaders c _ _ _) in *. assert (Hok1 : code_ok c1) by (by destruct Hok).
  destruct (load_sections_spec rs c1 c2 Hok1) as (Hok2 & Hg2 & Hf2); [|done|].
  { eapply Hs; [done|]. apply page_bound, (ck_area _ Hok). }
  destruct (finalizeMemory_spec c2 Hok2) as (c3 & -> & Hok3 & _ & Hl). exists c2. split_and!; try done; [apply Hok2|].
  intros id. pose proof (Hl id) as Hid. unfold Lookup_trace in *. cbn in *. by rewrite Hid, Hf2.
Qed.

(** What linking [m] into [c] reads: the entries of the index sections of the
    object the module is compiled to, when the code area is [a]. *)
Definition linked_index (c : Cache) (m : Mod) (a : AreaAllocator) (es : list CacheIndexEntry) : Prop :=
  let '(m', ts) := InstrumentTraces traces_of OptimizeModule c m in
  let path := LibraryDir ++ [PathSeparator] ++ ModuleTailName ModuleName m' ++ obj_suffix in
  exists rs c2, sections (compile m') = Some rs /\
    load_sections mmap bp (with_loaders (with_files c ts (<[path := compile m']> (object_files c))) (Some path) (runtime_loader c) path) rs = Ok c2 /\
    a = code_allocator c2 /\ es = index_entries (iterate (pending_jit_ranges c2)).

(** Linking [m] into [c] finds a usable index entry for the trace [id]. *)
Definition links_trace (c : Cache) (m : Mod) (id : Z * Z) : Prop :=
  let '(m', ts) := InstrumentTraces traces_of OptimizeModule c m in
  let path := LibraryDir ++ [PathSeparator] ++ ModuleTailName ModuleName m' ++ obj_suffix in
  exists rs c2 range e, sections (compile m') = Some rs /\
    load_sections mmap bp (with_loaders (with_files c ts (<[path := compile m']> (object_files c))) (Some path) (runtime_loader c) path) rs = Ok c2 /\
    range ∈ iterate (pending_jit_ranges c2) /\ is_index range = true /\ is_ctors range = false /\
    e ∈ section_entries index_at sizeof_CacheIndexEntry range /\ usable (code_allocator c2) e = true /\ ie_trace_id e = id.

Lemma AddModuleToCache_publishes (c c' : Cache) m :
  sane_objects -> code_ok c -> add c m = Ok c' ->
  code_ok c' /\ exists a es, linked_index c m a es /\ area_inv a /\ publishes a es c c'.
Proof.
  intros Hs Hok Heq. unfold add, AddModuleToCache in Heq. unfold linked_index.
  destruct (InstrumentTraces traces_of OptimizeModule c m) as [m' ts]. cbv zeta in *.
  set (path := LibraryDir ++ _) in *. set (c1 := with_files c ts _) in *.
  apply bind_ok in Heq as (c3 & H3 & [= <-]).
  assert (Hok1 : code_ok c1) by (by destruct Hok).
  assert (Hf1 : object_files c1 !! path = Some (compile m')) by (cbn; by rewrite lookup_insert_eq).
  destruct (sections (compile m')) as [rs|] eqn:Ers; [|unfold LoadLibrary in H3; cbv zeta in H3; cbn [object_files with_loaders] in H3; by rewrite Hf1, Ers in H3].
  destruct (LoadLibrary_spec c1 c3 path (compile m') rs Hs Hok1 Hf1 Ers H3) as (c2 & H2 & Ha & Hok3 & Hl).
  split; [by destruct Hok3|]. exists (code_allocator c2), (index_entries (iterate (pending_jit_ranges c2))).
  split; [by exists rs, c2|by split].
Qed.

Lemma AddModuleToCache_spec (c c' : Cache) m :
  sane_objects -> code_ok c -> add c m = Ok c' ->
  code_ok c' /\ (forall id, Lookup_trace c id <> 0 -> Lookup_trace c' id = Lookup_trace c id) /\
  forall id, links_trace c m id -> Lookup_trace c' id <> 0.
Proof.
  intros Hs Hok Heq. destruct (AddModuleToCache_publishes c c' m Hs Hok Heq) as (Hok' & a & es & Hl & Ha & Hp).
  split; [done|]. split; [intros id; by eapply publishes_grows|]. intros id Hlt. unfold linked_index in Hl. unfold links_trace in Hlt.
  destruct (InstrumentTraces traces_of OptimizeModule c m) as [m' ts]. cbv zeta in *. destruct Hl as (rs & c2 & Hrs & H2 & -> & ->).
  destruct Hlt as (rs' & c2' & range & e & Hrs' & H2' & Hr & Hi & Hc & He & Hu & Hid). rewrite Hrs in Hrs'. injection Hrs' as <-.
  rewrite H2 in H2'. injection H2' as <-. rewrite (Hp id). destruct (Z.eqb_spec (Lookup_trace c id) 0); [|done].
  eapply first_usable_nonzero; [done| |done|done]. unfold index_entries. apply list_elem_of_bind. exists range. split; [|done].
  unfold range_entries. by rewrite Hc, Hi.
Qed.
End props.

(** ** Theorems *)

(** C34: linking a module keeps the index inside the code area (no published
    address lies outside what the code allocator handed out, and none belongs
    to the null program counter), and what a look-up finds afterwards is known
    for every identifier: the function published before, if there was one,
    and otherwise exactly the function of the first usable entry for that
    identifier in the index sections of the object the module was compiled to
    (none if there is no such entry).  An entry is usable when it has a
    program counter and its function lies in the code area. *)
Theorem AddModuleToCache_correct {Mod Obj TS} mmap bp index_at ctor_at iterate sections name traces_of opt compile dir
    (c c' : CodeCache Mod Obj TS) m :
  (forall n addr size fixed ret, mmap n addr size fixed = Some ret -> 0 < ret) -> (0 < length bp)%nat ->
  sane_objects sections -> code_ok c ->
  AddModuleToCache mmap bp index_at ctor_at iterate sections name traces_of opt compile dir c m = Ok c' ->
  code_ok c' /\ exists a es, linked_index mmap bp index_at iterate sections name traces_of opt compile dir c m a es /\
    forall id, Lookup_trace c' id = if Lookup_trace c id =? 0 then first_usable a es id else Lookup_trace c id.
Proof.
  intros Hnn Hbp Hs Hok Heq.
  destruct (AddModuleToCache_publishes mmap bp Hnn Hbp index_at ctor_at iterate sections name traces_of opt compile dir c c' m Hs Hok Heq)
    as (Hok' & a & es & Hl & _ & Hp). split; [done|]. by exists a, es.
Qed.

(** A module whose object has one function, at the base of the code area, and
    one index entry for it. *)
Definition demo_cache : CodeCache unit unit unit :=
  MkCodeCache (NullTool no_symbols) tt (AreaAllocator_new kAreaRWX 65536 16) (AreaAllocator_new kAreaRW 131072 16)
    (AreaAllocator_new kAreaRW 196608 16) (AreaAllocator_new kAreaRW 262144 16) ∅ ∅ None None [] ∅ [] [] ∅.

Definition demo_sections (_ : unit) : option (list SectionRequest) :=
  Some [CodeSection 16 16 1; DataSection 24 8 2 vindex true].

Definition demo_index (_ : Z) : CacheIndexEntry := MkIndexEntry (4096, 9) 65536.
Definition demo_iterate (m : gmap Z MemoryMap) : list MemoryMap := snd <$> map_to_list m.

Definition demo_add (c : CodeCache unit unit unit) : outcome (CodeCache unit unit unit) :=
  AddModuleToCache demo_mmap [204] demo_index (fun _ => MkConstructor 0 0 0) demo_iterate demo_sections
    (fun _ => [97]) (fun _ => []) (fun m => m) (fun m => m) [98] c tt.

Definition demo_linked : CodeCache unit unit unit := match demo_add demo_cache with Ok c => c | _ => demo_cache end.

Lemma demo_sane : sane_objects demo_sections.
Proof. intros obj rs page [= <-] Hp. repeat constructor; cbn; unfold two64; lia. Qed.

Lemma demo_cache_ok : code_ok demo_cache.
Proof.
  split; [split; [exists 4; split; [lia|done]|left; done]|]. intros id f Hf. cbn in Hf. by rewrite lookup_empty in Hf.
Qed.

Lemma AddModuleToCache_correct_witness : code_ok demo_linked /\ Lookup_trace demo_linked (4096, 9) = 65536.
Proof.
  destruct (AddModuleToCache_correct demo_mmap [204] demo_index (fun _ => MkConstructor 0 0 0) demo_iterate demo_sections
    (fun _ => [97]) (fun _ => []) (fun m => m) (fun m => m) [98] demo_cache demo_linked tt) as (Hok & a & es & Hl & Hp).
  - exact demo_mmap_nonnull.
  - cbn. lia.
  - exact demo_sane.
  - exact demo_cache_ok.
  - vm_compute. reflexivity.
  - split; [exact Hok|]. rewrite Hp. unfold linked_index in Hl. destruct Hl as (rs & c2 & Hrs & H2 & -> & ->).
    injection Hrs as <-. vm_compute in H2. injection H2 as <-. vm_compute. reflexivity.
Defined.

(** [finalizeMemory] reports success whatever it reads: the result of
    [LoadIndex] is disjoined with a flag that is already true, so an index
    entry whose code is outside the cache is dropped without the linker being
    told. *)
Theorem finalizeMemory_never_fails {Mod Obj TS} index_at ctor_at iterate (c : CodeCache Mod Obj TS) :
  fst (finalizeMemory index_at ctor_at iterate c) = true.
Proof.
  unfold finalizeMemory. assert (Hfold : forall ranges (c : CodeCache Mod Obj TS), fst (foldl (finalize_range index_at ctor_at) (true, c) ranges) = true).
  { clear c. induction ranges as [|r ranges IH]; intros c; cbn [foldl]; [done|]. unfold finalize_range at 2. cbv zeta.
    destruct (is_ctors r); [apply IH|]. destruct (is_index r); [|apply IH].
    destruct (LoadIndex _ _ r) as [good c']. rewrite orb_true_r. apply IH. }
  specialize (Hfold (iterate (pending_jit_ranges c)) c). by destruct (foldl _ _ _).
Qed.
