(* ===== verification/Decoder.v ===== *)
(** * Decoding traces

    [vmill/Arch/Decoder.cpp]: recursive decoding of machine code into traces,
    from the executable bytes of an address space.  The instruction decoder of
    remill and the hash functions are parameters. *)

From S2P Require Import Prelude Pages MappedRange AddressSpace.

(** [remill::Instruction::Category] *)
Inductive Category :=
| kCategoryInvalid
| kCategoryNormal
| kCategoryNoOp
| kCategoryError
| kCategoryDirectJump
| kCategoryIndirectJump
| kCategoryDirectFunctionCall
| kCategoryIndirectFunctionCall
| kCategoryFunctionReturn
| kCategoryConditionalBranch
| kCategoryAsyncHyperCall
| kCategoryConditionalAsyncHyperCall.

(** The members of [remill::Instruction] that the decoder and the lifter look
    at. *)
Record Instruction := MkInst {
  category : Category;
  next_pc : Z;
  branch_taken_pc : Z;
  branch_not_taken_pc : Z;
  inst_bytes : list Z
}.

(** [std::set<uint64_t>]: the elements in increasing order. *)
Fixpoint set_insert (x : Z) (l : list Z) : list Z :=
  match l with
  | [] => [x]
  | y :: l' => if x <? y then x :: l else if x =? y then l else y :: set_insert x l'
  end.

(** The targets [AddSuccessorsToWorkList] inserts, in order. *)
Definition flow_targets (inst : Instruction) : list Z :=
  match category inst with
  | kCategoryInvalid | kCategoryError | kCategoryIndirectJump | kCategoryFunctionReturn | kCategoryAsyncHyperCall => []
  | kCategoryIndirectFunctionCall | kCategoryDirectFunctionCall => [next_pc inst]
  | kCategoryNormal | kCategoryNoOp | kCategoryConditionalAsyncHyperCall => [next_pc inst]
  | kCategoryDirectJump => [branch_taken_pc inst]
  | kCategoryConditionalBranch => [branch_taken_pc inst; next_pc inst]
  end.

Definition AddSuccessorsToWorkList (inst : Instruction) (work_list : list Z) : list Z :=
  foldl (fun l x => set_insert x l) work_list (flow_targets inst).

(** The targets [AddSuccessorsToTraceList] inserts. *)
Definition call_targets (inst : Instruction) : list Z :=
  match category inst with
  | kCategoryDirectFunctionCall => if branch_taken_pc inst =? next_pc inst then [] else [branch_taken_pc inst]
  | _ => []
  end.

Definition AddSuccessorsToTraceList (inst : Instruction) (trace_list : list Z) : list Z :=
  foldl (fun l x => set_insert x l) trace_list (call_targets inst).

(** [DecodedTrace]; [trace_id] is [TraceId] as a pair of the program counter
    and the hash. *)
Record DecodedTrace := MkTrace {
  trace_pc : Z;
  trace_code_version : Z;
  trace_id : Z * Z;
  instructions : gmap Z Instruction
}.

(** The instructions in the order of [std::map]. *)
Definition by_pc (a b : Z * Instruction) : Prop := fst a <= fst b.
#[global] Instance by_pc_dec a b : Decision (by_pc a b).
Proof. unfold by_pc. apply _. Defined.
Definition in_order (m : gmap Z Instruction) : list (Z * Instruction) := merge_sort by_pc (map_to_list m).

Section decoder.
Context (version_code : bool) (Hash : list Z -> Z).
(** [arch->MaxInstructionSize()] and [arch->LazyDecodeInstruction]: whether
    the bytes were decoded, and the instruction. *)
Context (MaxInstructionSize : nat) (LazyDecodeInstruction : Z -> list Z -> bool * Instruction).
(** [Hasher<TraceHashBaseType>]: the digest for a seed and the updates. *)
Context (Hasher : Z -> list (list Z) -> Z).

(** [ReadInstructionBytes] from offset [i], with [n] bytes left to read. *)
Fixpoint read_bytes (n : nat) (h : Heap) (s : AddressSpace) (pc i : Z) : outcome (list Z * AddressSpace) :=
  match n with
  | O => Ok ([], s)
  | S n =>
      '(ok, byte, s) ← TryReadExecutable h s (add64 pc i);
      if (ok : bool) then '(bytes, s) ← read_bytes n h s pc (i + 1); Ok (byte :: bytes, s) else Ok ([], s)
  end.

Definition ReadInstructionBytes (h : Heap) (s : AddressSpace) (pc : Z) : outcome (list Z * AddressSpace) :=
  read_bytes MaxInstructionSize h s pc 0.

Definition HashTraceInstructions (pc : Z) (insts : gmap Z Instruction) : Z * Z :=
  let l := in_order insts in
  let min_pc := match head l with Some (p, _) => p | None => 1 end in
  let max_pc := match last l with Some (p, _) => p | None => 1 end in
  (pc, Hasher (wrap64 (min_pc * max_pc * Z.of_nat (length l))) ((fun e => inst_bytes (snd e)) <$> l)).

(** The inner loop of [DecodeTraces]: what is left of the work list, the list
    of future traces and the instructions.  It is left early, with work
    remaining, when an instruction cannot be decoded. *)
Fixpoint decode_loop (fuel : nat) (h : Heap) (s : AddressSpace) (work_list trace_list : list Z) (insts : gmap Z Instruction) :
    outcome (list Z * list Z * gmap Z Instruction * AddressSpace) :=
  match work_list with
  | [] => Ok ([], trace_list, insts, s)
  | pc :: work_list =>
      match fuel with
      | O => Diverges
      | S fuel =>
          if bool_decide (is_Some (insts !! pc)) then decode_loop fuel h s work_list trace_list insts
          else
            '(bytes, s) ← ReadInstructionBytes h s pc;
            let '(decode_successful, inst) := LazyDecodeInstruction pc bytes in
            let insts := <[pc := inst]> insts in
            if negb decode_successful then Ok (work_list, trace_list, insts, s)
            else
              decode_loop fuel h s (AddSuccessorsToWorkList inst work_list)
                (AddSuccessorsToTraceList inst trace_list) insts
      end
  end.

(** The outer loop of [DecodeTraces]; the work list outlives an iteration. *)
Fixpoint trace_loop (fuel inner : nat) (h : Heap) (s : AddressSpace) (trace_list work_list : list Z) (traces : list DecodedTrace) :
    outcome (list DecodedTrace * Heap * AddressSpace) :=
  match trace_list with
  | [] => Ok (traces, h, s)
  | pc :: trace_list =>
      match fuel with
      | O => Diverges
      | S fuel =>
          if IsMarkedTraceHead s pc then trace_loop fuel inner h s trace_list work_list traces
          else
            let s := MarkAsTraceHead s pc in
            let work_list := set_insert pc work_list in
            '(version, h, s) ← AS_ComputeCodeVersion version_code Hash h s pc;
            '(work_list, trace_list, insts, s) ← decode_loop inner h s work_list trace_list ∅;
            let trace := MkTrace pc version (HashTraceInstructions pc insts) insts in
            trace_loop fuel inner h s trace_list work_list (traces ++ [trace])
      end
  end.

(** [DecodeTraces]; the loops are bounded by the numbers of iterations. *)
Definition DecodeTraces (fuel inner : nat) (h : Heap) (s : AddressSpace) (start_pc : Z) :
    outcome (list DecodedTrace * Heap * AddressSpace) :=
  trace_loop fuel inner h s (set_insert start_pc []) [] [].
End decoder.
