(* ===== verification/DecoderProps.v ===== *)
(** * What the decoder finds

    [DecodeTraces] against an abstract control-flow graph: [flow] is
    reachability inside a trace, [trace_head] reachability of trace entries
    through direct calls. *)

From S2P Require Import Prelude Pages MappedRange RangeProps AddressSpace SpaceInv RemoveRangeProps IndexProps MapChange Lookup ReadProps WriteProps HoleProps CloneProps SpaceTheorems Decoder.
Import CodeVersions.

(** ** Work lists *)

Abbreviation sorted_set := (StronglySorted Z.lt).

Lemma elem_of_set_insert x y l : x ∈ set_insert y l <-> x = y \/ x ∈ l.
Proof.
  induction l as [|z l IH]; cbn [set_insert]; [set_solver|].
  destruct (Z.ltb_spec y z); [set_solver|]. destruct (Z.eqb_spec y z); set_solver.
Qed.

Lemma elem_of_inserts x ys l : x ∈ foldl (fun l y => set_insert y l) l ys <-> x ∈ ys \/ x ∈ l.
Proof.
  revert l. induction ys as [|y ys IH]; intros l; cbn [foldl]; [set_solver|].
  rewrite IH, elem_of_set_insert. set_solver.
Qed.

Lemma set_insert_sorted y l : sorted_set l -> sorted_set (set_insert y l).
Proof.
  induction 1 as [|z l Hl IH Hz]; cbn [set_insert]; [by repeat constructor|].
  destruct (Z.ltb_spec y z).
  - constructor; [by constructor|]. constructor; [done|]. eapply Forall_impl; [done|]. intros; cbn in *. lia.
  - destruct (Z.eqb_spec y z); [by constructor|]. constructor; [done|].
    apply Forall_forall. intros x [->|Hx]%elem_of_set_insert; [lia|]. rewrite Forall_forall in Hz. by apply Hz.
Qed.

Lemma inserts_sorted ys l : sorted_set l -> sorted_set (foldl (fun l y => set_insert y l) l ys).
Proof. revert l. induction ys as [|y ys IH]; intros l Hl; cbn [foldl]; [done|]. by apply IH, set_insert_sorted. Qed.

Lemma sorted_set_NoDup l : sorted_set l -> NoDup l.
Proof.
  induction 1 as [|z l Hl IH Hz]; constructor; [|done]. intros Hin. rewrite Forall_forall in Hz.
  specialize (Hz z Hin). lia.
Qed.

Lemma length_set_insert y l : (length (set_insert y l) <= S (length l))%nat.
Proof.
  induction l as [|z l IH]; cbn [set_insert]; [done|]. destruct (y <? z), (y =? z); cbn [length] in *; lia.
Qed.

Lemma length_flow_targets inst w : (length (AddSuccessorsToWorkList inst w) <= 2 + length w)%nat.
Proof.
  unfold AddSuccessorsToWorkList, flow_targets. destruct (category inst); cbn [foldl];
    repeat match goal with |- context [set_insert ?y ?l] =>
      lazymatch goal with H : (length (set_insert y l) <= _)%nat |- _ => fail | _ => pose proof (length_set_insert y l) end end; lia.
Qed.

(** A duplicate-free list inside a finite set is no longer than the set. *)
Lemma NoDup_length_le (l : list Z) (C : gset Z) :
  NoDup l -> (forall x, x ∈ l -> x ∈ C) -> (length l <= size C)%nat.
Proof.
  intros Hn Hs. rewrite <- (size_list_to_set (C:=gset Z) l Hn). apply subseteq_size. set_solver.
Qed.

(** ** The abstract control-flow graph *)

(** The program counters that belong to the trace entered at [head]. *)
Inductive flow (dec : Z -> bool * Instruction) (head : Z) : Z -> Prop :=
| flow_head : flow dec head head
| flow_next p q : flow dec head p -> q ∈ flow_targets (snd (dec p)) -> flow dec head q.

(** The entries that direct calls reach from [start] without passing through
    a trace of [marked]. *)
Inductive trace_head (dec : Z -> bool * Instruction) (marked : gset Z) (start : Z) : Z -> Prop :=
| th_start : trace_head dec marked start start
| th_call p q x : trace_head dec marked start p -> p ∉ marked -> flow dec p q ->
    x ∈ call_targets (snd (dec q)) -> trace_head dec marked start x.

(** Code that can be decoded and that direct control flow does not leave. *)
Definition closed_code (dec : Z -> bool * Instruction) (C : gset Z) : Prop :=
  forall pc, pc ∈ C -> fst (dec pc) = true /\
    forall q, q ∈ flow_targets (snd (dec pc)) ++ call_targets (snd (dec pc)) -> q ∈ C.

Lemma flow_closed dec C head p : closed_code dec C -> head ∈ C -> flow dec head p -> p ∈ C.
Proof. intros Hc Hh. induction 1 as [|p q _ IH Hq]; [done|]. apply (Hc p IH). set_solver. Qed.

Lemma trace_head_closed dec C M start p : closed_code dec C -> start ∈ C -> trace_head dec M start p -> p ∈ C.
Proof.
  intros Hc Hh. induction 1 as [|p q x _ IH _ Hq Hx]; [done|].
  apply (Hc q); [by eapply flow_closed|set_solver].
Qed.

Section decoding.
Context (version_code : bool) (Hash : list Z -> Z).
Context (MaxInstructionSize : nat) (LazyDecodeInstruction : Z -> list Z -> bool * Instruction).
Context (Hasher : Z -> list (list Z) -> Z).

(** The instruction bytes at [pc]: up to the first byte that is not executable. *)
Fixpoint fetched (n : nat) (h : Heap) (s : AddressSpace) (pc i : Z) : list Z :=
  match n with
  | O => []
  | S n => match fetch h s (add64 pc i) with Some b => b :: fetched n h s pc (i + 1) | None => [] end
  end.

Definition inst_at (h : Heap) (s : AddressSpace) (pc : Z) : bool * Instruction :=
  LazyDecodeInstruction pc (fetched MaxInstructionSize h s pc 0).

Lemma code_step_fetched n h s h' s' pc i : code_step Hash h s h' s' -> fetched n h' s' pc i = fetched n h s pc i.
Proof.
  intros Hc. revert i. induction n as [|n IH]; intros i; cbn [fetched]; [done|].
  by rewrite (code_step_fetch _ _ _ _ _ _ Hc), IH.
Qed.

Lemma code_step_inst_at h s h' s' pc : code_step Hash h s h' s' -> inst_at h' s' pc = inst_at h s pc.
Proof. intros Hc. unfold inst_at. by rewrite (code_step_fetched _ _ _ _ _ _ _ Hc). Qed.

Lemma read_bytes_spec n h s pc i :
  wf_heap h -> wf_space h s ->
  exists s', read_bytes n h s pc i = Ok (fetched n h s pc i, s') /\ code_step Hash h s h s' /\ trace_heads s' = trace_heads s.
Proof.
  revert s i. induction n as [|n IH]; intros s i Hwf Hw; cbn [read_bytes fetched].
  { exists s. split_and!; try done. }
  destruct (TryReadExecutable_fetch Hash h s (add64 pc i) Hwf Hw (wrap64_u64 _)) as (v & s1 & -> & Hc & Ht & Hv).
  cbn [mbind outcome_bind]. destruct (fetch h s (add64 pc i)) as [b|] eqn:Ef; cbn.
  - destruct (IH s1 (i + 1) Hwf (cd_space _ _ _ _ _ Hc)) as (s2 & -> & Hc2 & Ht2). cbn [mbind outcome_bind].
    assert (Some b = Some v) as [= <-] by (by apply Hv).
    exists s2. split_and!; [|by eapply code_step_trans|congruence].
    by rewrite (code_step_fetched _ _ _ _ _ _ _ Hc).
  - eauto.
Qed.

(** One iteration of the inner loop on a new program counter. *)
Lemma decode_loop_step fuel h s pc W T I :
  wf_heap h -> wf_space h s -> I !! pc = None ->
  exists s', code_step Hash h s h s' /\ trace_heads s' = trace_heads s /\
    decode_loop MaxInstructionSize LazyDecodeInstruction (S fuel) h s (pc :: W) T I =
    let '(ok, inst) := inst_at h s pc in
    if negb ok then Ok (W, T, <[pc := inst]> I, s')
    else decode_loop MaxInstructionSize LazyDecodeInstruction fuel h s' (AddSuccessorsToWorkList inst W)
           (AddSuccessorsToTraceList inst T) (<[pc := inst]> I).
Proof.
  intros Hwf Hw Hpc. cbn [decode_loop]. rewrite bool_decide_eq_false_2 by (rewrite Hpc; by intros []).
  unfold ReadInstructionBytes. destruct (read_bytes_spec MaxInstructionSize h s pc 0 Hwf Hw) as (s1 & -> & Hc1 & Ht1).
  exists s1. split_and!; done.
Qed.

(** ** One trace *)

(** The decoder runs in states that only differ from [h0], [s0] in caches
    and marks. *)
Section one_run.
Context (h0 : Heap) (s0 : AddressSpace) (C : gset Z).
Let dec := inst_at h0 s0.
Context (Hclosed : closed_code dec C).

Record inner_inv (head : Z) (T0 W T : list Z) (I : gmap Z Instruction) : Prop := {
  ii_work p : p ∈ W -> flow dec head p;
  ii_insts p i : I !! p = Some i -> i = snd (dec p) /\ flow dec head p /\
    forall q, q ∈ flow_targets i -> q ∈ W \/ is_Some (I !! q);
  ii_head : head ∈ W \/ is_Some (I !! head);
  ii_calls x : x ∈ T <-> x ∈ T0 \/ exists p i, I !! p = Some i /\ x ∈ call_targets i;
  ii_sorted : sorted_set T
}.

Lemma inner_inv_skip head T0 pc W T I :
  inner_inv head T0 (pc :: W) T I -> is_Some (I !! pc) -> inner_inv head T0 W T I.
Proof.
  intros [Hw Hi Hh Hc Hs] Hpc. split; try done.
  - intros p Hp. apply Hw. set_solver.
  - intros p i (H1 & H2 & H3)%Hi. split_and!; try done. intros q [[->|?]%elem_of_cons|?]%H3; auto.
  - destruct Hh as [[->|?]%elem_of_cons|?]; auto.
Qed.

Lemma inner_inv_decode head T0 pc W T I inst :
  inner_inv head T0 (pc :: W) T I -> I !! pc = None -> inst = snd (dec pc) ->
  inner_inv head T0 (AddSuccessorsToWorkList inst W) (AddSuccessorsToTraceList inst T) (<[pc := inst]> I).
Proof.
  intros [Hw Hi Hh Hc Hs] Hpc ->. assert (Hf : flow dec head pc) by (apply Hw; set_solver).
  assert (Hmv : forall q, q ∈ pc :: W \/ is_Some (I !! q) ->
    q ∈ AddSuccessorsToWorkList (snd (dec pc)) W \/ is_Some (<[pc := snd (dec pc)]> I !! q)).
  { intros q Hq. destruct (decide (q = pc)) as [->|Hne]; [right; rewrite lookup_insert_eq; eauto|].
    rewrite lookup_insert_ne by done. unfold AddSuccessorsToWorkList. rewrite elem_of_inserts. set_solver. }
  split.
  - intros p. unfold AddSuccessorsToWorkList. rewrite elem_of_inserts. intros [Hp|Hp]; [by eapply flow_next|]. apply Hw. set_solver.
  - intros p i [[<- <-]|[Hne (H1 & H2 & H3)%Hi]]%lookup_insert_Some; split_and!; try done.
    + intros q Hq. left. unfold AddSuccessorsToWorkList. rewrite elem_of_inserts. auto.
    + intros q Hq. by apply Hmv, H3.
  - by apply Hmv.
  - intros x. unfold AddSuccessorsToTraceList. rewrite elem_of_inserts, Hc. split.
    + intros [Hx|[Hx|(p & i & Hp & Hx)]]; [right|by left|right].
      * exists pc, (snd (dec pc)). by rewrite lookup_insert_eq.
      * exists p, i. rewrite lookup_insert_ne by congruence. done.
    + intros [Hx|(p & i & [[<- <-]|[Hne Hp]]%lookup_insert_Some & Hx)]; [by right; left|by left|]. right; right. eauto.
  - by apply inserts_sorted.
Qed.

Lemma inner_inv_dom head T0 W T I : head ∈ C -> inner_inv head T0 W T I -> dom I ⊆ C.
Proof.
  intros Hh Hin p [i Hi]%elem_of_dom. apply (ii_insts _ _ _ _ _ Hin) in Hi as (_ & Hf & _).
  by eapply flow_closed.
Qed.

(** The inner loop empties its work list. *)
Lemma decode_loop_spec fuel h s W T T0 I head :
  head ∈ C -> code_step Hash h0 s0 h s -> inner_inv head T0 W T I ->
  (3 * (size C - size I) + length W <= fuel)%nat ->
  exists T' I' s', decode_loop MaxInstructionSize LazyDecodeInstruction fuel h s W T I = Ok ([], T', I', s') /\
    code_step Hash h0 s0 h s' /\ trace_heads s' = trace_heads s /\ inner_inv head T0 [] T' I'.
Proof.
  intros Hh Hc. revert s W T I Hc. induction fuel as [|fuel IH]; intros s W T I Hc Hin Hfuel;
    (destruct W as [|pc W]; [by exists T, I, s|]); cbn [length] in Hfuel; [lia|].
  destruct (I !! pc) as [i|] eqn:Hpc.
  { cbn [decode_loop]. rewrite bool_decide_eq_true_2 by (rewrite Hpc; done). apply IH; [done|by eapply inner_inv_skip|lia]. }
  destruct (decode_loop_step fuel h s pc W T I (cd_heap _ _ _ _ _ Hc) (cd_space _ _ _ _ _ Hc) Hpc) as (s1 & Hc1 & Ht1 & ->).
  rewrite (code_step_inst_at _ _ _ _ pc Hc). fold dec. fold (dec pc).
  assert (HpcC : pc ∈ C) by (eapply flow_closed; [done|done|apply (ii_work _ _ _ _ _ Hin); set_solver]).
  pose proof (inner_inv_decode _ _ _ _ _ _ _ Hin Hpc eq_refl) as Hin'.
  destruct (dec pc) as [ok inst] eqn:Ed. pose proof (proj1 (Hclosed pc HpcC)) as Hok. rewrite Ed in Hok. cbn in Hok. subst ok.
  cbn [negb snd] in *.
  destruct (IH s1 _ _ _ (code_step_trans _ _ _ _ _ _ _ Hc Hc1) Hin') as (T' & I' & s' & -> & Hc' & Ht' & Hi').
  - pose proof (length_flow_targets inst W). rewrite map_size_insert_None by done.
    pose proof (subseteq_size _ _ (inner_inv_dom _ _ _ _ _ Hh Hin')) as Hsz. rewrite size_dom, map_size_insert_None in Hsz by done. lia.
  - exists T', I', s'. split_and!; try done. congruence.
Qed.

Lemma inner_inv_start head T : sorted_set T -> inner_inv head T [head] T ∅.
Proof.
  intros Hs. split; try done.
  - intros p ->%list_elem_of_singleton. constructor.
  - left. set_solver.
  - intros x. split; [auto|]. by intros [?|(p & i & Hp & _)].
Qed.

Lemma inner_inv_done head T0 T I p i :
  inner_inv head T0 [] T I -> I !! p = Some i <-> flow dec head p /\ i = snd (dec p).
Proof.
  intros [_ Hi Hh _ _]. split; [intros H%Hi; naive_solver|]. intros [Hf ->].
  assert (Hs : is_Some (I !! p)).
  { induction Hf as [|p q _ [j Hj] Hq]; [destruct Hh; set_solver|].
    destruct (Hi p j Hj) as (-> & _ & Hn). destruct (Hn q Hq); set_solver. }
  destruct Hs as [j Hj]. rewrite Hj. by destruct (Hi p j Hj) as [-> _].
Qed.

(** ** All traces *)

(** What one decoded trace is. *)
Record trace_correct (t : DecodedTrace) : Prop := {
  tc_insts p i : instructions t !! p = Some i <-> flow dec (trace_pc t) p /\ i = snd (dec p);
  tc_id : trace_id t = HashTraceInstructions Hasher (trace_pc t) (instructions t);
  tc_version v : version_at Hash version_code h0 s0 (trace_pc t) = Some v -> trace_code_version t = v
}.

Record outer_inv (start : Z) (h : Heap) (s : AddressSpace) (T : list Z) (ts : list DecodedTrace) : Prop := {
  oi_step : code_step Hash h0 s0 h s;
  oi_marks p : p ∈ trace_heads s <-> p ∈ trace_heads s0 \/ p ∈ (trace_pc <$> ts);
  oi_sorted : sorted_set T;
  oi_list x : x ∈ T -> trace_head dec (trace_heads s0) start x;
  oi_traces : Forall trace_correct ts;
  oi_nodup : NoDup (trace_pc <$> ts);
  oi_heads p : p ∈ (trace_pc <$> ts) -> trace_head dec (trace_heads s0) start p /\ (p ∉ trace_heads s0) /\
    forall q x, flow dec p q -> x ∈ call_targets (snd (dec q)) -> x ∈ T \/ x ∈ trace_heads s;
  oi_start : start ∈ T \/ start ∈ trace_heads s
}.

Lemma outer_inv_skip start h s pc T ts :
  outer_inv start h s (pc :: T) ts -> pc ∈ trace_heads s -> outer_inv start h s T ts.
Proof.
  intros [? Hm Hs Hl ? ? Hh Hst] Hpc. split; try done.
  - by inversion Hs.
  - intros x Hx. apply Hl. set_solver.
  - intros p (H1 & H2 & H3)%Hh. split_and!; try done. intros q x Hq Hx.
    destruct (H3 q x Hq Hx) as [[->|?]%elem_of_cons|?]; auto.
  - destruct Hst as [[->|?]%elem_of_cons|?]; auto.
Qed.

(** One more trace. *)
Lemma outer_inv_trace start h s pc T ts h' s' T' t :
  outer_inv start h s (pc :: T) ts -> pc ∉ trace_heads s ->
  code_step Hash h0 s0 h' s' -> trace_heads s' = {[pc]} ∪ trace_heads s ->
  inner_inv pc T [] T' (instructions t) -> trace_pc t = pc -> trace_correct t ->
  outer_inv start h' s' T' (ts ++ [t]).
Proof.
  intros [_ Hm Hs Hl Htr Hnd Hh Hst] Hpc Hc Hmk Hin Htp Htc.
  assert (Hth : trace_head dec (trace_heads s0) start pc) by (apply Hl; set_solver).
  assert (Hpm : (pc ∉ trace_heads s0) /\ pc ∉ (trace_pc <$> ts)) by (rewrite Hm in Hpc; tauto).
  assert (Hmv : forall x, x ∈ pc :: T \/ x ∈ trace_heads s -> x ∈ T' \/ x ∈ trace_heads s').
  { intros x Hx. rewrite (ii_calls _ _ _ _ _ Hin), Hmk. set_solver. }
  assert (Hcalls : forall q x, flow dec pc q -> x ∈ call_targets (snd (dec q)) -> x ∈ T').
  { intros q x Hq Hx. apply (ii_calls _ _ _ _ _ Hin). right. exists q, (snd (dec q)). split; [|done].
    by apply (inner_inv_done _ _ _ _ _ _ Hin). }
  split; try done.
  - intros p. rewrite Hmk, fmap_app, elem_of_app, elem_of_union, Hm. cbn. rewrite Htp. set_solver.
  - apply Hin.
  - intros x [Hx|(p & i & [Hp ->]%(inner_inv_done _ _ _ _ _ _ Hin) & Hx)]%(ii_calls _ _ _ _ _ Hin);
      [apply Hl; set_solver|]. eapply th_call; [done|apply Hpm|done|done].
  - apply Forall_app. auto.
  - rewrite fmap_app. cbn. rewrite Htp. apply NoDup_app. split_and!; [done| |apply NoDup_singleton].
    intros x Hx ->%list_elem_of_singleton. tauto.
  - intros p. rewrite fmap_app, elem_of_app. cbn. rewrite Htp.
    intros [(H1 & H2 & H3)%Hh| ->%list_elem_of_singleton]; split_and!; try done; try tauto; [|eauto].
    intros q x Hq Hx. by apply Hmv, (H3 q).
  - by apply Hmv.
Qed.

Lemma trace_loop_spec fuel inner start h s T ts :
  start ∈ C -> outer_inv start h s T ts -> (3 * size C + 1 <= inner)%nat ->
  (S (size C) * (size C - length ts) + length T <= fuel)%nat ->
  exists ts' h' s', trace_loop version_code Hash MaxInstructionSize LazyDecodeInstruction Hasher fuel inner h s T [] ts = Ok (ts', h', s') /\
    outer_inv start h' s' [] ts'.
Proof.
  intros HsC Hin Hinner. revert h s T ts Hin. induction fuel as [|fuel IH]; intros h s T ts Hin Hfuel;
    (destruct T as [|pc T]; [by exists ts, h, s|]); cbn [length] in Hfuel; [lia|]. cbn [trace_loop].
  unfold IsMarkedTraceHead. case_bool_decide as Hpc.
  { apply IH; [by eapply outer_inv_skip|lia]. }
  assert (HpcC : pc ∈ C) by (eapply trace_head_closed; [done|done|apply (oi_list _ _ _ _ _ Hin); set_solver]).
  cbv zeta. cbn [set_insert]. pose proof (oi_step _ _ _ _ _ Hin) as Hc0.
  set (s1 := MarkAsTraceHead s pc).
  assert (Hc1 : code_step Hash h0 s0 h s1).
  { eapply code_step_trans; [done|]. apply code_step_cache; [apply Hc0|apply wf_space_heads, Hc0|apply cache_step_heads]. }
  destruct (AS_ComputeCodeVersion_spec Hash version_code h s1 pc) as (v & h2 & s2 & -> & Hc2 & Ht2 & Hv2); [apply Hc1|apply Hc1|].
  cbn [mbind outcome_bind]. pose proof (code_step_trans _ _ _ _ _ _ _ Hc1 Hc2) as Hc02.
  pose proof (oi_sorted _ _ _ _ _ Hin) as HsT. apply StronglySorted_inv in HsT as [HsT _].
  destruct (decode_loop_spec inner h2 s2 [pc] T T ∅ pc HpcC Hc02) as (T' & I' & s' & -> & Hc' & Ht' & Hi');
    [by apply inner_inv_start|rewrite map_size_empty; cbn; lia|]. cbn [mbind outcome_bind].
  set (t := MkTrace pc v (HashTraceInstructions Hasher pc I') I').
  assert (Hout : outer_inv start h2 s' T' (ts ++ [t])).
  { eapply (outer_inv_trace _ _ _ pc T); try done; [by rewrite Ht', Ht2|].
    split; [intros p i; by apply (inner_inv_done _ _ _ _ _ _ Hi')|done|]. cbn. intros w Hw. apply Hv2.
    by rewrite (code_step_version _ _ _ _ _ _ _ Hc1). }
  apply IH; [done|]. pose proof (NoDup_length_le T' C (sorted_set_NoDup _ (oi_sorted _ _ _ _ _ Hout))) as HT'.
  pose proof (NoDup_length_le _ C (oi_nodup _ _ _ _ _ Hout)) as Hts. rewrite length_fmap, !length_app in Hts. rewrite !length_app. cbn [length] in *.
  assert (length T' <= size C)%nat by (apply HT'; intros x Hx; apply (trace_head_closed dec C (trace_heads s0) start); [done|done|by apply (oi_list _ _ _ _ _ Hout)]).
  assert (length ts + 1 <= size C)%nat.
  { apply Hts. intros x Hx. apply (trace_head_closed dec C (trace_heads s0) start); [done|done|]. by apply (oi_heads _ _ _ _ _ Hout). }
  nia.
Qed.

Lemma outer_inv_start start :
  wf_heap h0 -> wf_space h0 s0 -> outer_inv start h0 s0 [start] [].
Proof.
  intros Hwf Hw. split; try done.
  - intros p. set_solver.
  - by repeat constructor.
  - intros x ->%list_elem_of_singleton. constructor.
  - constructor.
  - intros p Hp. set_solver.
  - left. set_solver.
Qed.

Lemma outer_inv_done start h s ts p :
  outer_inv start h s [] ts ->
  p ∈ (trace_pc <$> ts) <-> trace_head dec (trace_heads s0) start p /\ (p ∉ trace_heads s0).
Proof.
  intros [_ Hm _ _ _ _ Hh Hst]. split; [intros (? & ? & _)%Hh; done|]. intros [Ht Hp].
  enough (p ∈ trace_heads s) by (apply Hm in H; tauto). clear Hp.
  induction Ht as [|p q x _ IH Hp Hq Hx]; [set_solver|]. apply Hm in IH as [?|IH]; [done|].
  destruct (Hh p IH) as (_ & _ & Hn). destruct (Hn q x Hq Hx); set_solver.
Qed.
End one_run.
End decoding.

(** ** Theorems *)

(** Decoding from an entry. *)
Lemma DecodeTraces_spec version_code Hash max decode hasher h s C start fuel inner :
  wf_heap h -> wf_space h s -> closed_code (inst_at max decode h s) C -> start ∈ C ->
  (3 * size C + 1 <= inner)%nat -> (S (size C) * size C + 1 <= fuel)%nat ->
  exists ts h' s', DecodeTraces version_code Hash max decode hasher fuel inner h s start = Ok (ts, h', s') /\
    code_step Hash h s h' s' /\
    Forall (trace_correct version_code Hash max decode hasher h s) ts /\ NoDup (trace_pc <$> ts) /\
    (forall p, p ∈ (trace_pc <$> ts) <-> trace_head (inst_at max decode h s) (trace_heads s) start p /\ (p ∉ trace_heads s)) /\
    (forall p, p ∈ trace_heads s' <-> p ∈ trace_heads s \/ p ∈ (trace_pc <$> ts)).
Proof.
  intros Hwf Hw Hc Hs Hi Hf.
  destruct (trace_loop_spec version_code Hash max decode hasher h s C Hc fuel inner start h s [start] [] Hs) as (ts & h' & s' & Heq & Hinv);
    [by apply (outer_inv_start version_code Hash max decode hasher h s C)|done|cbn [length]; lia|].
  exists ts, h', s'. split; [exact Heq|]. split_and!; try apply Hinv. intros p. by eapply outer_inv_done.
Qed.

(** C12: on code that direct control flow does not leave and whose
    instructions all decode, [DecodeTraces] returns: it needs no more than
    [3 * n + 1] inner and [n * (n + 1) + 1] outer iterations for [n]
    instructions.  It decodes one trace for each entry that direct calls
    reach and that was not marked before, each entry once; a trace holds
    exactly the instructions that direct flow reaches from its entry, its
    identifier hashes them and its code version is the one of the range that
    holds its entry; the entries are marked and the memory is unchanged. *)
Theorem DecodeTraces_correct version_code Hash max decode hasher h s C start fuel inner :
  wf_heap h -> wf_space h s -> closed_code (inst_at max decode h s) C -> start ∈ C ->
  (3 * size C + 1 <= inner)%nat -> (S (size C) * size C + 1 <= fuel)%nat ->
  exists ts h' s', DecodeTraces version_code Hash max decode hasher fuel inner h s start = Ok (ts, h', s') /\
    code_step Hash h s h' s' /\
    Forall (trace_correct version_code Hash max decode hasher h s) ts /\ NoDup (trace_pc <$> ts) /\
    (forall p, p ∈ (trace_pc <$> ts) <-> trace_head (inst_at max decode h s) (trace_heads s) start p /\ (p ∉ trace_heads s)) /\
    (forall p, p ∈ trace_heads s' <-> p ∈ trace_heads s \/ p ∈ (trace_pc <$> ts)).
Proof. apply DecodeTraces_spec. Qed.

(** The demonstration space with its two pages executable. *)
Definition exec_state : Heap * AddressSpace :=
  match SetPermissions (fst demo_state) (snd demo_state) 4096 8192 true false true with
  | Ok s => (fst demo_state, s)
  | _ => demo_state
  end.

Lemma exec_ok : wf_heap (fst exec_state) /\ wf_space (fst exec_state) (snd exec_state).
Proof.
  destruct demo_ok as (_ & Hwf & Hw). unfold exec_state.
  destruct (SetPermissions_spec (fst demo_state) (snd demo_state) 4096 8192 true false true Hwf (ws_core _ _ Hw))
    as (s' & -> & Hw' & _); [vm_compute; split; congruence..|done].
Qed.

(** A call, a backward branch and two returns; nothing is decoded where no
    byte can be fetched. *)
Definition demo_decode (pc : Z) (bytes : list Z) : bool * Instruction :=
  (bool_decide (bytes <> []),
   match pc with
   | 4096 => MkInst kCategoryDirectFunctionCall 4098 4112 4098 bytes
   | 4098 => MkInst kCategoryConditionalBranch 4100 4096 4100 bytes
   | _ => MkInst kCategoryFunctionReturn (pc + 2) 0 (pc + 2) bytes
   end).

Lemma demo_closed : closed_code (inst_at 2 demo_decode (fst exec_state) (snd exec_state)) {[4096; 4098; 4100; 4112]}.
Proof.
  intros pc Hpc. rewrite !elem_of_union, !elem_of_singleton in Hpc.
  destruct Hpc as [[[-> | ->] | ->] | ->]; (split; [vm_compute; reflexivity|]); intros q Hq; vm_compute in Hq; set_solver.
Qed.

Lemma DecodeTraces_correct_witness :
  exists ts h' s', DecodeTraces true (fun _ => 7) 2 demo_decode (fun _ _ => 9) 21 13 (fst exec_state) (snd exec_state) 4096 = Ok (ts, h', s') /\
    4096 ∈ (trace_pc <$> ts).
Proof.
  destruct exec_ok as [Hwf Hw].
  destruct (DecodeTraces_correct true (fun _ => 7) 2 demo_decode (fun _ _ => 9) (fst exec_state) (snd exec_state)
    {[4096; 4098; 4100; 4112]} 4096 21 13 Hwf Hw demo_closed) as (ts & h' & s' & Heq & _ & _ & _ & Hp & _).
  - set_solver.
  - vm_compute. lia.
  - vm_compute. lia.
  - exists ts, h', s'. split; [exact Heq|]. apply Hp. split; [apply th_start|].
    apply (bool_decide_eq_false (4096 ∈ trace_heads (snd exec_state))). vm_compute. reflexivity.
Defined.

(** Code whose first trace ends in bytes that do not decode: the entry calls
    [4128] and goes on to a branch with the targets [4103] and [4112];
    nothing decodes at [4103]. *)
Definition broken_decode (pc : Z) (bytes : list Z) : bool * Instruction :=
  match pc with
  | 4096 => (true, MkInst kCategoryDirectFunctionCall 4101 4128 4101 bytes)
  | 4101 => (true, MkInst kCategoryConditionalBranch 4103 4112 4103 bytes)
  | 4103 => (false, MkInst kCategoryInvalid 0 0 0 bytes)
  | _ => (true, MkInst kCategoryFunctionReturn (pc + 1) 0 (pc + 1) bytes)
  end.

Lemma broken_flow max h s p : flow (inst_at max broken_decode h s) 4128 p -> p = 4128.
Proof. induction 1 as [|p q _ -> Hq]; [done|]. vm_compute in Hq. set_solver. Qed.

Section broken.
Context (version_code : bool) (Hash : list Z -> Z) (max : nat) (hasher : Z -> list (list Z) -> Z).
Let loop := decode_loop max broken_decode.

(** The first trace leaves [4112] on the work list. *)
Lemma broken_first fuel h s :
  wf_heap h -> wf_space h s ->
  exists I s', loop (3 + fuel) h s [4096] [] ∅ = Ok ([4112], [4128], I, s') /\ code_step Hash h s h s' /\
    trace_heads s' = trace_heads s.
Proof.
  intros Hwf Hw. unfold loop.
  destruct (decode_loop_step Hash max broken_decode (2 + fuel) h s 4096 [] [] ∅ Hwf Hw) as (s1 & Hc1 & Ht1 & E1); [done|].
  cbn [Nat.add] in *. rewrite E1. unfold inst_at. cbn [broken_decode negb].
  match goal with |- context [decode_loop _ _ _ _ _ (AddSuccessorsToWorkList ?i []) (AddSuccessorsToTraceList ?i []) ?I] =>
    destruct (decode_loop_step Hash max broken_decode (1 + fuel) h s1 4101 [] [4128] I Hwf (cd_space _ _ _ _ _ Hc1)) as (s2 & Hc2 & Ht2 & E2); [done|] end.
  change (AddSuccessorsToWorkList _ []) with [4101]. change (AddSuccessorsToTraceList _ []) with [4128].
  cbn [Nat.add] in *. rewrite E2. unfold inst_at. cbn [broken_decode negb].
  match goal with |- context [decode_loop _ _ _ _ _ (AddSuccessorsToWorkList ?i []) (AddSuccessorsToTraceList ?i [4128]) ?I] =>
    destruct (decode_loop_step Hash max broken_decode fuel h s2 4103 [4112] [4128] I Hwf (cd_space _ _ _ _ _ Hc2)) as (s3 & Hc3 & Ht3 & E3); [done|] end.
  change (AddSuccessorsToWorkList _ []) with [4103; 4112]. change (AddSuccessorsToTraceList _ [4128]) with [4128].
  rewrite E3. unfold inst_at. cbn [broken_decode negb].
  eexists _, s3. split; [done|]. split; [|congruence].
  eapply code_step_trans; [exact Hc1|]. by eapply code_step_trans.
Qed.

(** The next trace decodes it. *)
Lemma broken_second fuel h s :
  wf_heap h -> wf_space h s ->
  exists I s', loop (2 + fuel) h s [4112; 4128] [] ∅ = Ok ([], [], I, s') /\ dom I = {[4112; 4128]}.
Proof.
  intros Hwf Hw. unfold loop.
  destruct (decode_loop_step Hash max broken_decode (1 + fuel) h s 4112 [4128] [] ∅ Hwf Hw) as (s1 & Hc1 & Ht1 & E1); [done|].
  cbn [Nat.add] in *. rewrite E1. unfold inst_at. cbn [broken_decode negb].
  match goal with |- context [decode_loop _ _ _ _ _ (AddSuccessorsToWorkList ?i _) (AddSuccessorsToTraceList ?i []) ?I] =>
    destruct (decode_loop_step Hash max broken_decode fuel h s1 4128 [] [] I Hwf (cd_space _ _ _ _ _ Hc1)) as (s2 & Hc2 & Ht2 & E2); [done|] end.
  change (AddSuccessorsToWorkList _ [4128]) with [4128]. change (AddSuccessorsToTraceList _ []) with (@nil Z).
  cbn [Nat.add] in *. rewrite E2. unfold inst_at. cbn [broken_decode negb].
  change (AddSuccessorsToWorkList _ []) with (@nil Z). change (AddSuccessorsToTraceList _ []) with (@nil Z).
  destruct fuel; cbn [decode_loop]; (eexists _, s2; split; [done|]; set_solver).
Qed.
End broken.

(** The work list is not emptied when an instruction does not decode:
    what is left of it becomes part of the next trace, whose instructions and
    identifier then cover code that its entry does not reach. *)
Theorem failed_decode_leaks version_code Hash max hasher h s :
  wf_heap h -> wf_space h s -> 4096 ∉ trace_heads s -> (4128 ∉ trace_heads s) ->
  exists t1 t2 h' s', DecodeTraces version_code Hash max broken_decode hasher 2 3 h s 4096 = Ok ([t1; t2], h', s') /\
    trace_pc t2 = 4128 /\ 4112 ∈ dom (instructions t2) /\ ~ flow (inst_at max broken_decode h s) 4128 4112.
Proof.
  intros Hwf Hw H1 H2. unfold DecodeTraces. cbn [set_insert trace_loop].
  unfold IsMarkedTraceHead at 1. rewrite bool_decide_eq_false_2 by done. cbv zeta. cbn [set_insert].
  set (s1 := MarkAsTraceHead s 4096). assert (Hw1 : wf_space h s1) by (by apply wf_space_heads).
  destruct (AS_ComputeCodeVersion_spec Hash version_code h s1 4096 Hwf Hw1) as (v & h2 & s2 & -> & [Hwf2 Hw2 _ _ _] & Ht2 & _).
  cbn [mbind outcome_bind].
  destruct (broken_first Hash max 0 h2 s2 Hwf2 Hw2) as (I & s3 & E3 & [_ Hw3 _ _ _] & Ht3). cbn [Nat.add] in E3. rewrite E3.
  cbn [mbind outcome_bind]. unfold IsMarkedTraceHead at 1.
  rewrite bool_decide_eq_false_2 by (rewrite Ht3, Ht2; unfold s1; cbn; set_solver).
  set (s4 := MarkAsTraceHead s3 4128). assert (Hw4 : wf_space h2 s4) by (by apply wf_space_heads).
  destruct (AS_ComputeCodeVersion_spec Hash version_code h2 s4 4128 Hwf2 Hw4) as (v' & h5 & s5 & -> & [Hwf5 Hw5 _ _ _] & _).
  cbn [mbind outcome_bind].
  change (set_insert 4128 [4112]) with [4112; 4128].
  destruct (broken_second Hash max 1 h5 s5 Hwf5 Hw5) as (I2 & s6 & E6 & Hd). cbn [Nat.add] in E6. rewrite E6.
  cbn [mbind outcome_bind]. eexists _, _, h5, s6. split; [done|]. cbn.
  split_and!; [done|rewrite Hd; set_solver|]. by intros ?%broken_flow.
Qed.

Lemma failed_decode_leaks_witness :
  exists t1 t2 h' s', DecodeTraces true (fun _ => 7) 2 broken_decode (fun _ _ => 9) 2 3 (fst exec_state) (snd exec_state) 4096 = Ok ([t1; t2], h', s') /\
    trace_pc t2 = 4128 /\ 4112 ∈ dom (instructions t2).
Proof.
  destruct exec_ok as [Hwf Hw].
  destruct (failed_decode_leaks true (fun _ => 7) 2 (fun _ _ => 9) (fst exec_state) (snd exec_state) Hwf Hw) as (t1 & t2 & h' & s' & Heq & Hp & Hd & _).
  - apply (bool_decide_eq_false (4096 ∈ trace_heads (snd exec_state))). vm_compute. reflexivity.
  - apply (bool_decide_eq_false (4128 ∈ trace_heads (snd exec_state))). vm_compute. reflexivity.
  - exists t1, t2, h', s'. split; [exact Heq|]. split; [exact Hp|exact Hd].
Defined.
