(* ===== verification/Lifter.v ===== *)
(** * Lifting traces

    Models [vmill/BC/Lifter.cpp] at the level of control flow: the blocks a
    trace is lifted into, how they end, and the module with its index.  What
    [remill] puts into a block is a parameter ([LiftIntoBlock]); LLVM's
    functions are known by the program counter in their name. *)

From S2P Require Import Prelude Pages MappedRange AddressSpace Decoder.

(** What a tail call calls: the intrinsics and lifted functions. *)
Inductive Callee :=
| kError
| kJump
| kFunctionCall
| kFunctionReturn
| kMissingBlock
| LiftedFunctionAt (pc : Z).

(** The end of a block.  [CallThenReturn f ret] calls [f], goes on at the
    block of [ret] when the program counter is [ret] afterwards and returns
    otherwise. *)
Inductive Terminator :=
| Br (target : Z)
| CondBr (taken not_taken : Z)
| TailCall (callee : Callee)
| AsyncHyperCallThenJump
| CallThenReturn (callee : Callee) (ret_pc : Z).

#[global] Instance Callee_eq_dec : EqDecision Callee.
Proof. solve_decision. Defined.
#[global] Instance Terminator_eq_dec : EqDecision Terminator.
Proof. solve_decision. Defined.

(** The blocks under construction, by program counter. *)
Abbreviation Blocks := (gmap Z (option Terminator)).

Definition GetOrCreateBlock (pc : Z) (blocks : Blocks) : Blocks :=
  match blocks !! pc with Some _ => blocks | None => <[pc := None]> blocks end.

Definition terminate (pc : Z) (t : Terminator) (blocks : Blocks) : Blocks := <[pc := Some t]> blocks.

(** [LiftPostFunctionCall]: the call's return becomes conditional. *)
Definition LiftPostFunctionCall (pc : Z) (callee : Callee) (next : Z) (blocks : Blocks) : Blocks :=
  terminate pc (CallThenReturn callee next) (GetOrCreateBlock next blocks).

Section lifter.
(** Whether [remill] lifts an instruction. *)
Context (LiftIntoBlock : Instruction -> bool).

(** The switch of [LiftTrace]; [declared] are the lifted functions the
    semantics module knows. *)
Definition connect (declared : gset Z) (pc : Z) (inst : Instruction) (blocks : Blocks) : Blocks :=
  match category inst with
  | kCategoryInvalid | kCategoryError => terminate pc (TailCall kError) blocks
  | kCategoryNormal | kCategoryNoOp => terminate pc (Br (next_pc inst)) (GetOrCreateBlock (next_pc inst) blocks)
  | kCategoryDirectJump => terminate pc (Br (branch_taken_pc inst)) (GetOrCreateBlock (branch_taken_pc inst) blocks)
  | kCategoryIndirectJump => terminate pc (TailCall kJump) blocks
  | kCategoryDirectFunctionCall =>
      if branch_taken_pc inst =? next_pc inst then blocks
      else
        let callee := if bool_decide (branch_taken_pc inst ∈ declared) then LiftedFunctionAt (branch_taken_pc inst) else kFunctionCall in
        LiftPostFunctionCall pc callee (next_pc inst) blocks
  | kCategoryIndirectFunctionCall => LiftPostFunctionCall pc kFunctionCall (next_pc inst) blocks
  | kCategoryFunctionReturn => terminate pc (TailCall kFunctionReturn) blocks
  | kCategoryConditionalBranch | kCategoryConditionalAsyncHyperCall =>
      terminate pc (CondBr (branch_taken_pc inst) (branch_not_taken_pc inst))
        (GetOrCreateBlock (branch_not_taken_pc inst) (GetOrCreateBlock (branch_taken_pc inst) blocks))
  | kCategoryAsyncHyperCall => terminate pc AsyncHyperCallThenJump blocks
  end.

(** One iteration of the loop over the instructions. *)
Definition lift_instruction (declared : gset Z) (blocks : Blocks) (entry : Z * Instruction) : Blocks :=
  let '(pc, inst) := entry in
  let blocks := GetOrCreateBlock pc blocks in
  if negb (LiftIntoBlock inst) then terminate pc (TailCall kError) blocks
  else connect declared pc inst blocks.

(** [LiftTrace] without its checks; blocks that are not terminated go to
    [__remill_missing_block]. *)
Definition LiftTrace_blocks (declared : gset Z) (pc : Z) (insts : gmap Z Instruction) : gmap Z Terminator :=
  let blocks := GetOrCreateBlock pc ∅ in
  match insts !! pc with
  | None => default (TailCall kError) <$> terminate pc (TailCall kError) blocks
  | Some _ => default (TailCall kMissingBlock) <$> foldl (lift_instruction declared) blocks (in_order insts)
  end.

(** A function of a module, with the identifier its index entry holds. *)
Record Lifted := MkLifted { lf_trace_id : Z * Z; lf_blocks : gmap Z Terminator }.

(** [LiftTrace]: [defined] are the functions that have a body already. *)
Definition LiftTrace (declared defined : gset Z) (trace : DecodedTrace) : outcome (Lifted * gset Z) :=
  check (bool_decide (trace_pc trace ∈ declared)) ;;
  check (negb (bool_decide (trace_pc trace ∈ defined))) ;;
  Ok (MkLifted (trace_id trace) (LiftTrace_blocks declared (trace_pc trace) (instructions trace)), {[trace_pc trace]} ∪ defined).

Fixpoint lift_traces (declared defined : gset Z) (traces : list DecodedTrace) : outcome (list Lifted) :=
  match traces with
  | [] => Ok []
  | trace :: traces =>
      '(f, defined) ← LiftTrace declared defined trace;
      fs ← lift_traces declared defined traces;
      Ok (f :: fs)
  end.

(** The module: its name is made of the first trace's program counter and
    code version.  [LiftTracesIntoModule] moves the functions there, with an
    index entry each. *)
Record Module_ := MkModule { module_name : Z * Z; module_functions : list Lifted }.

Definition Lift (traces : list DecodedTrace) : outcome (option Module_) :=
  let declared := list_to_set (trace_pc <$> traces) in
  fs ← lift_traces declared ∅ traces;
  Ok (match traces with [] => None | t :: _ => Some (MkModule (trace_pc t, trace_code_version t) fs) end).
End lifter.
