(* ===== verification/LifterProps.v ===== *)
(** * Lifted code follows the decoded control flow *)

From S2P Require Import Prelude Pages MappedRange RangeProps AddressSpace SpaceInv RemoveRangeProps IndexProps MapChange Lookup ReadProps WriteProps HoleProps CloneProps SpaceTheorems Decoder DecoderProps Lifter.
Import CodeVersions.

Section lifting.
Context (LiftIntoBlock : Instruction -> bool) (declared : gset Z).

(** ** The blocks of a trace *)

(** A call to the following instruction is not connected to anything. *)
Definition calls_next (inst : Instruction) : bool :=
  match category inst with kCategoryDirectFunctionCall => branch_taken_pc inst =? next_pc inst | _ => false end.

Definition call_target (inst : Instruction) : Callee :=
  if bool_decide (branch_taken_pc inst ∈ declared) then LiftedFunctionAt (branch_taken_pc inst) else kFunctionCall.

(** How the block of an instruction ends, and the blocks it refers to. *)
Definition block_end (inst : Instruction) : option Terminator :=
  if negb (LiftIntoBlock inst) then Some (TailCall kError)
  else match category inst with
       | kCategoryInvalid | kCategoryError => Some (TailCall kError)
       | kCategoryNormal | kCategoryNoOp => Some (Br (next_pc inst))
       | kCategoryDirectJump => Some (Br (branch_taken_pc inst))
       | kCategoryIndirectJump => Some (TailCall kJump)
       | kCategoryDirectFunctionCall =>
           if branch_taken_pc inst =? next_pc inst then None else Some (CallThenReturn (call_target inst) (next_pc inst))
       | kCategoryIndirectFunctionCall => Some (CallThenReturn kFunctionCall (next_pc inst))
       | kCategoryFunctionReturn => Some (TailCall kFunctionReturn)
       | kCategoryConditionalBranch | kCategoryConditionalAsyncHyperCall =>
           Some (CondBr (branch_taken_pc inst) (branch_not_taken_pc inst))
       | kCategoryAsyncHyperCall => Some AsyncHyperCallThenJump
       end.

Definition successors (t : Terminator) : list Z :=
  match t with
  | Br target => [target]
  | CondBr taken not_taken => [taken; not_taken]
  | TailCall _ | AsyncHyperCallThenJump => []
  | CallThenReturn _ ret_pc => [ret_pc]
  end.

Definition block_targets (inst : Instruction) : list Z :=
  match block_end inst with Some t => successors t | None => [] end.

Lemma lookup_GetOrCreateBlock pc (bs : Blocks) q :
  GetOrCreateBlock pc bs !! q = match bs !! q with Some t => Some t | None => if decide (q = pc) then Some None else None end.
Proof.
  unfold GetOrCreateBlock. destruct (bs !! pc) eqn:E.
  - destruct (bs !! q) eqn:Eq; [done|]. rewrite decide_False by congruence. done.
  - destruct (decide (q = pc)) as [->|Hne]; [by rewrite lookup_insert_eq, E|].
    rewrite lookup_insert_ne by done. by destruct (bs !! q).
Qed.

(** Lifting an instruction whose block is not terminated yet. *)
Lemma lift_instruction_spec (bs : Blocks) pc inst q :
  bs !! pc = None \/ bs !! pc = Some None ->
  lift_instruction LiftIntoBlock declared bs (pc, inst) !! q =
    if decide (q = pc) then Some (block_end inst)
    else match bs !! q with
         | Some t => Some t
         | None => if decide (q ∈ block_targets inst) then Some None else None
         end.
Proof.
  intros Hpc. unfold lift_instruction, block_targets, block_end.
  assert (Hg : forall q, q <> pc -> GetOrCreateBlock pc bs !! q = bs !! q).
  { intros q' Hne. rewrite lookup_GetOrCreateBlock, decide_False by done. by destruct (bs !! q'). }
  assert (Hgp : GetOrCreateBlock pc bs !! pc = Some None).
  { rewrite lookup_GetOrCreateBlock, decide_True by done. by destruct Hpc as [-> | ->]. }
  destruct (LiftIntoBlock inst); cbn [negb]; [unfold connect, LiftPostFunctionCall|]; unfold terminate;
    [destruct (category inst)|]; fold (call_target inst);
    try (destruct (branch_taken_pc inst =? next_pc inst)); cbn [successors].
  all: destruct (decide (q = pc)) as [->|Hne]; [first [by rewrite lookup_insert_eq|exact Hgp]|].
  all: rewrite ?lookup_insert_ne by done; rewrite ?lookup_GetOrCreateBlock, ?Hg by done.
  all: destruct (bs !! q); [done|]; repeat case_decide; set_solver.
Qed.

(** What the fold has built after the entries [done]. *)
Record lift_inv (head : Z) (done : list (Z * Instruction)) (bs : Blocks) : Prop := {
  li_done pc inst : (pc, inst) ∈ done -> bs !! pc = Some (block_end inst);
  li_other q : q ∉ done.*1 ->
    bs !! q = if decide (q ∈ head :: flat_map (fun e => block_targets (snd e)) done) then Some None else None
}.

Lemma lift_inv_step head done bs pc inst :
  lift_inv head done bs -> pc ∉ done.*1 ->
  lift_inv head (done ++ [(pc, inst)]) (lift_instruction LiftIntoBlock declared bs (pc, inst)).
Proof.
  intros [Hd Ho] Hpc.
  assert (Hun : bs !! pc = None \/ bs !! pc = Some None) by (rewrite (Ho pc Hpc); case_decide; auto).
  split.
  - intros pc' inst' [Hin|[= -> ->]%list_elem_of_singleton]%elem_of_app; rewrite lift_instruction_spec by done.
    + rewrite decide_False; [by rewrite (Hd pc' inst' Hin)|]. intros ->. apply Hpc. apply list_elem_of_fmap. by exists (pc, inst').
    + by rewrite decide_True.
  - intros q Hq. rewrite fmap_app, elem_of_app in Hq. cbn in Hq.
    rewrite lift_instruction_spec, decide_False by (done || set_solver). rewrite (Ho q) by tauto.
    rewrite flat_map_app. cbn [flat_map]. rewrite app_nil_r.
    destruct (decide (q ∈ head :: flat_map _ done)) as [Hin|Hin]; [rewrite decide_True; set_solver|].
    apply decide_ext. set_solver.
Qed.

Lemma lift_inv_fold head l done bs :
  lift_inv head done bs -> NoDup ((done ++ l).*1) ->
  lift_inv head (done ++ l) (foldl (lift_instruction LiftIntoBlock declared) bs l).
Proof.
  revert done bs. induction l as [|[pc inst] l IH]; intros done bs Hinv Hnd; cbn [foldl]; [by rewrite app_nil_r|].
  replace (done ++ (pc, inst) :: l) with ((done ++ [(pc, inst)]) ++ l) in * by (by rewrite <- app_assoc).
  apply IH; [|done]. apply lift_inv_step; [done|]. rewrite !fmap_app in Hnd. cbn in Hnd.
  apply NoDup_app in Hnd as (Hnd & _ & _). apply NoDup_app in Hnd as (_ & Hnd & _). intros Hin. by apply (Hnd pc Hin), list_elem_of_here.
Qed.

Lemma in_order_perm (insts : gmap Z Instruction) : in_order insts ≡ₚ map_to_list insts.
Proof. apply merge_sort_Permutation. Qed.

Lemma elem_of_in_order (insts : gmap Z Instruction) p i : (p, i) ∈ in_order insts <-> insts !! p = Some i.
Proof. by rewrite in_order_perm, elem_of_map_to_list. Qed.

Lemma in_order_NoDup (insts : gmap Z Instruction) : NoDup (in_order insts).*1.
Proof. rewrite in_order_perm. apply NoDup_fst_map_to_list. Qed.

Lemma lift_inv_all pc insts :
  lift_inv pc (in_order insts) (foldl (lift_instruction LiftIntoBlock declared) (GetOrCreateBlock pc ∅) (in_order insts)).
Proof.
  apply (lift_inv_fold pc (in_order insts) []); [|apply in_order_NoDup]. split; [intros ? ? Hin; set_solver|]. intros q _.
  rewrite lookup_GetOrCreateBlock, lookup_empty. apply decide_ext. set_solver.
Qed.

(** The block of an instruction ends as its category says. *)
Lemma LiftTrace_blocks_inst pc insts p i :
  is_Some (insts !! pc) -> insts !! p = Some i ->
  LiftTrace_blocks LiftIntoBlock declared pc insts !! p = Some (default (TailCall kMissingBlock) (block_end i)).
Proof.
  intros [i0 Hpc] Hp. unfold LiftTrace_blocks. rewrite Hpc, lookup_fmap.
  pose proof (lift_inv_all pc insts) as Hinv.
  by rewrite (li_done _ _ _ Hinv p i) by (by apply elem_of_in_order).
Qed.

(** Every other block is one an instruction refers to, and leaves the function. *)
Lemma LiftTrace_blocks_other pc insts p t :
  is_Some (insts !! pc) -> insts !! p = None ->
  LiftTrace_blocks LiftIntoBlock declared pc insts !! p = Some t <->
  t = TailCall kMissingBlock /\ exists p' i, insts !! p' = Some i /\ p ∈ block_targets i.
Proof.
  intros [i0 Hpc] Hp. unfold LiftTrace_blocks. rewrite Hpc, lookup_fmap.
  pose proof (lift_inv_all pc insts) as Hinv.
  rewrite (li_other _ _ _ Hinv p).
  2:{ intros ([p' i] & -> & Hin)%list_elem_of_fmap. cbn in Hp. apply elem_of_in_order in Hin. congruence. }
  assert (Hin : p ∈ pc :: flat_map (fun e => block_targets (snd e)) (in_order insts) <->
    exists p' i, insts !! p' = Some i /\ p ∈ block_targets i).
  { rewrite elem_of_cons, list_elem_of_In, in_flat_map. split.
    - intros [->|([p' i] & Hin%list_elem_of_In & Ht%list_elem_of_In)]; [congruence|]. exists p', i. split; [by apply elem_of_in_order|done].
    - intros (p' & i & Hi & Ht). right. exists (p', i). split; apply list_elem_of_In; [by apply elem_of_in_order|done]. }
  case_decide as Hd; cbn.
  - split; [intros [= <-]|intros [-> _]; done]. split; [done|]. by apply Hin.
  - split; [done|]. intros [_ He%Hin]. done.
Qed.
End lifting.

(** ** Lifted traces *)

(** [remill] sets the not-taken target of a conditional branch to the next
    instruction. *)
Definition branches_fall_through (i : Instruction) : Prop :=
  category i = kCategoryConditionalBranch -> branch_not_taken_pc i = next_pc i.

(** The program counters whose blocks may follow the one of an instruction: its
    flow targets, except that an instruction [remill] cannot lift has none,
    that a call to the next instruction has none, and that a conditional
    asynchronous hypercall goes to both its branch targets, of which the
    decoder only followed the next instruction. *)
Definition lifted_targets (lib : Instruction -> bool) (i : Instruction) : list Z :=
  if negb (lib i) then []
  else match category i with
       | kCategoryConditionalAsyncHyperCall => [branch_taken_pc i; branch_not_taken_pc i]
       | _ => if calls_next i then [] else flow_targets i
       end.

Lemma block_targets_lifted lib declared i q :
  branches_fall_through i -> q ∈ block_targets lib declared i <-> q ∈ lifted_targets lib i.
Proof.
  intros Hb. unfold block_targets, block_end, lifted_targets, flow_targets, calls_next, branches_fall_through in *.
  destruct (lib i); cbn [negb]; [|done].
  destruct (category i); try done; try (destruct (branch_taken_pc i =? next_pc i)); cbn [successors];
    rewrite ?(Hb eq_refl); set_solver.
Qed.

Lemma block_end_missing lib declared i :
  default (TailCall kMissingBlock) (block_end lib declared i) = TailCall kMissingBlock <-> lib i = true /\ calls_next i = true.
Proof.
  unfold block_end, calls_next. destruct (lib i); cbn [negb]; [|by split; [|intros []]].
  destruct (category i); try (by split; [|intros []]). destruct (branch_taken_pc i =? next_pc i); by split; [|intros []].
Qed.

Lemma lifted_targets_flow lib i q :
  category i <> kCategoryConditionalAsyncHyperCall -> q ∈ lifted_targets lib i -> q ∈ flow_targets i.
Proof.
  unfold lifted_targets. intros Hc. destruct (lib i); cbn [negb]; [|by intros ?%elem_of_nil].
  destruct (category i) eqn:E; try done; destruct (calls_next i); try done; by intros ?%elem_of_nil.
Qed.



(** The checks of [LiftTrace] hold for the traces of one decoding run. *)
Lemma lift_traces_ok lib declared defined traces :
  NoDup (trace_pc <$> traces) -> (forall p, p ∈ (trace_pc <$> traces) -> p ∈ declared /\ p ∉ defined) ->
  lift_traces lib declared defined traces =
    Ok ((fun t => MkLifted (trace_id t) (LiftTrace_blocks lib declared (trace_pc t) (instructions t))) <$> traces).
Proof.
  revert defined. induction traces as [|t traces IH]; intros defined Hnd Hd; cbn [lift_traces fmap list_fmap]; [done|].
  rewrite fmap_cons in Hnd. apply NoDup_cons in Hnd as [Ht Hnd]. destruct (Hd (trace_pc t)) as [H1 H2]; [set_solver|].
  unfold LiftTrace. rewrite (bool_decide_eq_true_2 (trace_pc t ∈ declared)) by done.
  rewrite (bool_decide_eq_false_2 (trace_pc t ∈ defined)) by done. cbn [check negb mbind outcome_bind].
  rewrite IH; [done|done|]. intros p Hp. destruct (Hd p) as [H3 H4]; [set_solver|]. split; [done|].
  intros [->%elem_of_singleton|?]%elem_of_union; [by apply Ht|done].
Qed.

Lemma Lift_ok lib traces :
  NoDup (trace_pc <$> traces) ->
  exists fs, Lift lib traces = Ok (match traces with [] => None | t :: _ => Some (MkModule (trace_pc t, trace_code_version t) fs) end) /\
    lf_trace_id <$> fs = trace_id <$> traces.
Proof.
  intros Hnd. unfold Lift. rewrite lift_traces_ok; [|done|].
  - cbn. eexists. split; [done|]. rewrite <- list_fmap_compose. by apply list_fmap_ext.
  - intros p Hp. split; [by apply elem_of_list_to_set|set_solver].
Qed.
