(* ===== verification/Executor.v ===== *)
(** * The executor

    Models [vmill/Executor/Executor.{h,cpp}]: finding the lifted function of a
    task, decoding and lifting what is missing, the index of translations,
    and starting the initial tasks.  The executor is a client of the code
    cache through [TranslationCache], of the decoder, of the lifter and of the
    file-backed index. *)

From S2P Require Import Prelude Pages MappedRange AddressSpace FileCache Tasks Decoder Lifter.

(** What the executor asks of a code cache: [CodeCache]'s virtual functions. *)
Class TranslationCache (C M : Type) := {
  tc_Lookup : C -> Z * Z -> Z;
  tc_Lookup_symbol : C -> list Z -> Z;
  tc_AddModuleToCache : C -> M -> outcome C;
  tc_RunConstructors : C -> C;
  tc_SetUp : C -> C;
  tc_TearDown : C -> C
}.

(** [CachedIndexEntry]: a [TraceId] and a [LiveTraceId] of two words each. *)
Record CachedIndexEntry := MkCachedIndexEntry { ce_trace_id : Z * Z; ce_live_trace_id : Z * Z }.
Definition sizeof_CachedIndexEntry : Z := 32.
Definition zero_entry : CachedIndexEntry := MkCachedIndexEntry (0, 0) (0, 0).

(** [InitialTaskInfo]; a memory is the number of an address space. *)
Record InitialTaskInfo := MkInitialTask { it_state : list Z; it_pc : Z; it_memory : Z }.

Section executor.
Context {C : Type} {CacheOps : TranslationCache C Module_}.

Record Executor := MkExecutor {
  code_cache : C;
  index : FileBackedCache CachedIndexEntry;
  initial_tasks : list InitialTaskInfo;
  live_traces : gmap (Z * Z) Z;
  error_intrinsic : Z
}.

Definition with_live (e : Executor) (l : gmap (Z * Z) Z) : Executor :=
  MkExecutor (code_cache e) (index e) (initial_tasks e) l (error_intrinsic e).
Definition with_cache (e : Executor) (c : C) : Executor :=
  MkExecutor c (index e) (initial_tasks e) (live_traces e) (error_intrinsic e).
Definition with_entry (e : Executor) (i : FileBackedCache CachedIndexEntry) : Executor :=
  MkExecutor (code_cache e) i (initial_tasks e) (live_traces e) (error_intrinsic e).

Definition publish (e : Executor) (live_id : Z * Z) (lifted_func : Z) : Executor :=
  with_live e (<[live_id := lifted_func]> (live_traces e)).

(** The loop of the constructor over the index. *)
Definition load_index_entry (e : Executor) (entry : CachedIndexEntry) : Executor :=
  let lifted_func := tc_Lookup (code_cache e) (ce_trace_id entry) in
  if lifted_func =? 0 then e else publish e (ce_live_trace_id entry) lifted_func.

(** The intrinsics the constructor looks up, in order; the last one is
    [__remill_error]. *)
Definition Executor_new (c : C) (i : FileBackedCache CachedIndexEntry) (intrinsics : list (list Z)) (error_name : list Z) : outcome Executor :=
  check (forallb (fun name => negb (tc_Lookup_symbol c name =? 0)) (intrinsics ++ [error_name])) ;;
  let e := MkExecutor c i [] ∅ (tc_Lookup_symbol c error_name) in
  Ok (foldl load_index_entry e ((fun o => default zero_entry o) <$> contents i)).

Definition AddInitialTask (e : Executor) (state_bytes : list Z) (pc memory : Z) : Executor :=
  MkExecutor (code_cache e) (index e) (initial_tasks e ++ [MkInitialTask state_bytes pc memory]) (live_traces e) (error_intrinsic e).

Context (version_code : bool) (Hash : list Z -> Z).
Context (MaxInstructionSize : nat) (LazyDecodeInstruction : Z -> list Z -> bool * Instruction).
Context (Hasher : Z -> list (list Z) -> Z) (LiftIntoBlock : Instruction -> bool).
(** The numbers of iterations of the decoder's loops. *)
Context (fuel inner : nat).

Definition live_id_of (t : DecodedTrace) : Z * Z := (trace_pc t, trace_code_version t).

(** The first loop of [DecodeTracesFromTask]: what is left to lift. *)
Fixpoint prune_traces (e : Executor) (traces : list DecodedTrace) : outcome (list DecodedTrace * Executor) :=
  match traces with
  | [] => Ok ([], e)
  | t :: traces =>
      match live_traces e !! live_id_of t with
      | Some _ => prune_traces e traces
      | None =>
          let lifted_func := tc_Lookup (code_cache e) (trace_id t) in
          if lifted_func =? 0 then '(rest, e) ← prune_traces e traces; Ok (t :: rest, e)
          else
            i ← Append sizeof_CachedIndexEntry (index e) (MkCachedIndexEntry (trace_id t) (live_id_of t));
            prune_traces (publish (with_entry e i) (live_id_of t) lifted_func) traces
      end
  end.

(** [DecodeTracesFromTask] up to the point where it waits for the lifter: the
    traces to lift and their module.  A task in a coroutine pauses here, and
    other tasks run. *)
Definition start_lifting (e : Executor) (h : Heap) (s : AddressSpace) (task_pc : Z) :
    outcome (list DecodedTrace * option Module_ * Executor * Heap * AddressSpace) :=
  '(traces, h, s) ← DecodeTraces version_code Hash MaxInstructionSize LazyDecodeInstruction Hasher fuel inner h s task_pc;
  '(traces, e) ← prune_traces e traces;
  module ← Lift LiftIntoBlock traces;
  Ok (traces, module, e, h, s).

Definition publish_lifted (e : Executor) (t : DecodedTrace) : Executor :=
  let lifted_func := tc_Lookup (code_cache e) (trace_id t) in
  if lifted_func =? 0 then e else publish e (live_id_of t) lifted_func.

(** The rest of [DecodeTracesFromTask]. *)
Definition finish_lifting (e : Executor) (traces : list DecodedTrace) (module : option Module_) : outcome Executor :=
  match module with
  | None => Ok e
  | Some m =>
      c ← tc_AddModuleToCache (code_cache e) m;
      Ok (foldl publish_lifted (with_cache e (tc_RunConstructors c)) traces)
  end.

(** What other tasks do to the executor and the memory while the lifter
    works; nothing when the task does not run in a coroutine. *)
Context (others : Executor -> Heap -> AddressSpace -> outcome (Executor * Heap * AddressSpace)).

Definition DecodeTracesFromTask (e : Executor) (h : Heap) (s : AddressSpace) (task_pc : Z) :
    outcome (Executor * Heap * AddressSpace) :=
  '(traces, module, e, h, s) ← start_lifting e h s task_pc;
  '(e, h, s) ← others e h s;
  e ← finish_lifting e traces module;
  Ok (e, h, s).

Definition execute_fault (pc : Z) : MemoryFault := MkFault pc 1 kMemoryAccessFaultOnExecute kMemoryValueTypeInstruction.

(** The task when its program counter is not executable. *)
Definition fault_on_execute (task : Task) : Task :=
  MkTask (Tasks.pc task) kTaskStatusError (status_on_resume task) (location task) (last_pc task) (execute_fault (Tasks.pc task)).

Definition FindLiftedFunctionForTask (e : Executor) (h : Heap) (s : AddressSpace) (task : Task) :
    outcome (Z * Executor * Heap * AddressSpace * Task) :=
  let task_pc := Tasks.pc task in
  '(code_version, h, s) ← AS_ComputeCodeVersion version_code Hash h s task_pc;
  let live_id := (task_pc, code_version) in
  match live_traces e !! live_id with
  | Some lifted_func => Ok (lifted_func, e, h, s, task)
  | None =>
      if negb (CanExecute s task_pc) then Ok (error_intrinsic e, e, h, s, fault_on_execute task)
      else
        '(e, h, s) ← DecodeTracesFromTask e h s task_pc;
        match live_traces e !! live_id with
        | Some lifted_func => Ok (lifted_func, e, h, s, task)
        | None => Ok (error_intrinsic e, e, h, s, task)
        end
  end.
End executor.
Arguments Executor : clear implicits.

(** ** A run *)

Section run.
Context {C OS : Type} {CacheOps : TranslationCache C Module_}.

(** The executor, the address spaces, the emulated operating system, and
    whether [gExecutor] is set. *)
Record World := MkWorld {
  w_exec : Executor C;
  w_heap : Heap;
  w_spaces : gmap Z AddressSpace;
  w_next : Z;
  w_os : OS;
  w_running : bool
}.

Definition with_cache_state (w : World) (c : C) (running : bool) : World :=
  MkWorld (with_cache (w_exec w) c) (w_heap w) (w_spaces w) (w_next w) (w_os w) running.

(** The compiled runtime. *)
Context (init_intrinsic resume_intrinsic fini_intrinsic : World -> outcome World).
Context (create_task_intrinsic : list Z -> Z -> Z -> World -> outcome World).

Definition Executor_SetUp (w : World) : outcome World :=
  check (negb (w_running w)) ;;
  init_intrinsic (with_cache_state w (tc_SetUp (code_cache (w_exec w))) true).

Definition Executor_TearDown (w : World) : outcome World :=
  check (w_running w) ;;
  w ← fini_intrinsic w;
  Ok (with_cache_state w (tc_TearDown (code_cache (w_exec w))) false).

(** The copy-on-write copy of an initial memory, made at its first use. *)
Definition copied_memory (w : World) (memories : gmap Z Z) (memory : Z) : outcome (Z * gmap Z Z * World) :=
  match memories !! memory with
  | Some copy => Ok (copy, memories, w)
  | None =>
      parent ← deref_opt (w_spaces w !! memory);
      '(h, s) ← AddressSpace_clone (w_heap w) parent;
      let copy := w_next w in
      Ok (copy, <[memory := copy]> memories,
          MkWorld (w_exec w) h (<[copy := s]> (w_spaces w)) (w_next w + 1) (w_os w) (w_running w))
  end.

Fixpoint create_tasks (w : World) (memories : gmap Z Z) (infos : list InitialTaskInfo) : outcome World :=
  match infos with
  | [] => Ok w
  | info :: infos =>
      '(copy, memories, w) ← copied_memory w memories (it_memory info);
      w ← create_task_intrinsic (it_state info) (it_pc info) copy w;
      create_tasks w memories infos
  end.

Definition Executor_Run (w : World) : outcome World :=
  let w := with_cache_state w (tc_RunConstructors (code_cache (w_exec w))) (w_running w) in
  w ← Executor_SetUp w;
  check (w_running w) ;;
  w ← create_tasks w ∅ (initial_tasks (w_exec w));
  w ← resume_intrinsic w;
  Executor_TearDown w.
End run.
Arguments World : clear implicits.
