(* ===== verification/ExecutorProps.v ===== *)
(** * What the executor returns

    The executor against the interface of the code cache: a task whose code
    decodes gets the translation of exactly the trace at its program counter,
    and a task whose trace head is marked but not live gets the error
    intrinsic. *)

From S2P Require Import Prelude Pages MappedRange RangeProps AddressSpace SpaceInv RemoveRangeProps IndexProps MapChange Lookup ReadProps WriteProps HoleProps CloneProps SpaceTheorems Allocators AllocatorProps Tools CodeCache CodeCacheProps FileCache Tasks Decoder DecoderProps Lifter LifterProps Executor.
Import CodeVersions.

(** What a code cache promises its client. *)
Class TranslationCacheLaws (C M : Type) {CacheOps : TranslationCache C M} := {
  tc_ok : C -> Prop;
  (** Linking the module finds a usable entry for the trace. *)
  tc_links : C -> M -> Z * Z -> Prop;
  tc_add_ok c m c' : tc_ok c -> tc_AddModuleToCache c m = Ok c' ->
    tc_ok c' /\ (forall id, tc_Lookup c id <> 0 -> tc_Lookup c' id = tc_Lookup c id) /\
    (forall id, tc_links c m id -> tc_Lookup c' id <> 0);
  tc_run_ok c : tc_ok c -> tc_ok (tc_RunConstructors c) /\ forall id, tc_Lookup (tc_RunConstructors c) id = tc_Lookup c id
}.

Section executor.
Context {C : Type} {CacheOps : TranslationCache C Module_} {CacheLaws : TranslationCacheLaws C Module_}.

Abbreviation E := (Executor C).
Abbreviation esz := sizeof_CachedIndexEntry.

(** The invariant: a live trace is a function of the code cache that was
    lifted from a trace with the same entry, and so is what the index records. *)
Record exec_inv (e : E) : Prop := {
  ei_cache : tc_ok (code_cache e);
  ei_index : cache_inv esz (index e);
  ei_live id f : live_traces e !! id = Some f -> f <> 0 /\ exists tid, tc_Lookup (code_cache e) tid = f /\ fst tid = fst id
}.

(** There is room in the index file for [n] more entries. *)
Definition room (e : E) (n : nat) : Prop := (Z.of_nat n + soft_limit (index e)) * esz <= kMaxCacheFileSize.

(** What publishing translations keeps. *)
Record exec_grows (e e' : E) : Prop := {
  eg_live id : is_Some (live_traces e !! id) -> is_Some (live_traces e' !! id);
  eg_lookup id : tc_Lookup (code_cache e) id <> 0 -> tc_Lookup (code_cache e') id = tc_Lookup (code_cache e) id;
  eg_error : error_intrinsic e' = error_intrinsic e
}.

#[global] Instance exec_grows_preorder : PreOrder exec_grows.
Proof.
  split; [by split|]. intros e1 e2 e3 [Hl1 Hk1 He1] [Hl2 Hk2 He2]. split; [auto| |congruence].
  intros id Hid. rewrite Hk2; [by apply Hk1|]. by rewrite Hk1.
Qed.

Lemma esz_ok : 0 < esz <= kMaxCacheFileSize.
Proof. by vm_compute. Qed.

Lemma publish_inv e id f tid :
  exec_inv e -> f <> 0 -> tc_Lookup (code_cache e) tid = f -> fst tid = fst id -> exec_inv (publish e id f).
Proof.
  intros [Hc Hi Hl] Hf Ht Hp. split; [done|done|]. intros id' f' H. cbn in H.
  apply lookup_insert_Some in H as [[<- <-]|[_ H]]; [eauto|by apply Hl].
Qed.

Lemma publish_grows e id f : exec_grows e (publish e id f).
Proof.
  split; try done. intros id' Hid. unfold publish. cbn. destruct (decide (id = id')) as [->|Hne];
    [rewrite lookup_insert_eq; eauto|by rewrite lookup_insert_ne].
Qed.

(** The decoder's traces are identified by their entry. *)
Definition trace_sane (t : DecodedTrace) : Prop := fst (trace_id t) = trace_pc t.

(** ** Taking what is already translated *)

Lemma prune_traces_spec traces (e : E) :
  exec_inv e -> room e (length traces) -> Forall trace_sane traces -> NoDup (trace_pc <$> traces) ->
  exists rest e', prune_traces e traces = Ok (rest, e') /\ exec_inv e' /\ exec_grows e e' /\
    code_cache e' = code_cache e /\ live_traces e ⊆ live_traces e' /\
    NoDup (trace_pc <$> rest) /\ (forall t, t ∈ rest -> t ∈ traces) /\
    forall t, t ∈ traces -> live_traces e !! live_id_of t = None ->
      t ∈ rest \/ (trace_pc t ∉ (trace_pc <$> rest)) /\ tc_Lookup (code_cache e) (trace_id t) <> 0 /\
        live_traces e' !! live_id_of t = Some (tc_Lookup (code_cache e) (trace_id t)).
Proof.
  revert e. induction traces as [|t traces IH]; intros e Hinv Hroom Hsane Hnd; cbn [prune_traces].
  { exists [], e. split_and!; try done; set_solver. }
  apply Forall_cons in Hsane as [Ht Hsane]. rewrite fmap_cons in Hnd. apply NoDup_cons in Hnd as [Hnt Hnd].
  unfold room, sizeof_CachedIndexEntry in Hroom. cbn [length] in Hroom.
  assert (Hother : forall t', t' ∈ traces -> live_id_of t <> live_id_of t').
  { intros t' Hin [= Heq _]. apply Hnt. rewrite Heq. apply list_elem_of_fmap. eauto. }
  destruct (live_traces e !! live_id_of t) as [f0|] eqn:El; [|destruct (Z.eqb_spec (tc_Lookup (code_cache e) (trace_id t)) 0) as [Ez|Enz]].
  - destruct (IH e Hinv) as (rest & e' & -> & Hinv' & Hg & Hc & Hsub & Hnd' & Hin & Hall); [unfold room, sizeof_CachedIndexEntry; lia|done|done|].
    exists rest, e'. split_and!; try done; [set_solver|]. intros t' [->|Hin']%elem_of_cons Hn; [congruence|by apply Hall].
  - destruct (IH e Hinv) as (rest & e' & -> & Hinv' & Hg & Hc & Hsub & Hnd' & Hin & Hall); [unfold room, sizeof_CachedIndexEntry; lia|done|done|].
    cbn [mbind outcome_bind]. exists (t :: rest), e'. split_and!; try done.
    + rewrite fmap_cons. apply NoDup_cons. split; [|done]. intros (t' & Heq & Ht')%list_elem_of_fmap.
      apply Hnt. rewrite Heq. apply list_elem_of_fmap. eauto.
    + set_solver.
    + intros t' [->|Hin']%elem_of_cons Hn; [left; set_solver|]. destruct (Hall t' Hin' Hn) as [?|(H1 & H2 & H3)]; [left; set_solver|].
      right. split_and!; try done. rewrite fmap_cons, elem_of_cons. intros [Heq|?]; [|done].
      apply Hnt. rewrite <- Heq. apply list_elem_of_fmap. eauto.
  - set (en := MkCachedIndexEntry (trace_id t) (live_id_of t)).
    destruct (Extend_spec esz esz_ok (index e) [en]) as (i & Hi & Hci & Hcont); [apply Hinv| |].
    { pose proof (proj1 (ci_soft _ _ (ei_index _ Hinv))). cbn [length]. unfold sizeof_CachedIndexEntry in *. lia. }
    unfold Append. rewrite Hi. cbn [mbind outcome_bind].
    assert (Hsoft : soft_limit i = soft_limit (index e) + 1).
    { pose proof (proj1 (ci_soft _ _ (ei_index _ Hinv))). pose proof (proj1 (ci_soft _ _ Hci)).
      apply (f_equal length) in Hcont. unfold contents in Hcont. rewrite length_app, !length_fmap, !length_seqZ in Hcont. cbn in Hcont. lia. }
    set (e1 := publish (with_entry e i) (live_id_of t) (tc_Lookup (code_cache e) (trace_id t))).
    assert (Hinv1 : exec_inv e1).
    { apply (publish_inv (with_entry e i) _ _ (trace_id t)); [by destruct Hinv|done|done|exact Ht]. }
    destruct (IH e1 Hinv1) as (rest & e' & -> & Hinv' & Hg & Hc & Hsub & Hnd' & Hin & Hall);
      [unfold room, e1, sizeof_CachedIndexEntry; cbn; rewrite Hsoft; lia|done|done|].
    assert (Hl1 : forall id f, live_traces e !! id = Some f -> live_traces e1 !! id = Some f).
    { intros id f Hid. unfold e1. cbn. rewrite lookup_insert_ne; [done|]. congruence. }
    exists rest, e'. split_and!; try done.
    + etrans; [|done]. split; cbn; try done. intros id [f Hid]. exists f. by apply Hl1.
    + etrans; [|done]. apply map_subseteq_spec. exact Hl1.
    + set_solver.
    + intros t' [->|Hin']%elem_of_cons Hn.
      * right. split; [|split; [done|]]. { intros (t' & Heq & Ht')%list_elem_of_fmap. apply Hnt. rewrite Heq. apply list_elem_of_fmap. eauto. }
        rewrite map_subseteq_spec in Hsub. apply Hsub. unfold e1. cbn. by rewrite lookup_insert_eq.
      * apply Hall; [done|]. unfold e1. cbn. rewrite lookup_insert_ne; [done|]. by apply Hother.
Qed.

(** ** Publishing what was lifted *)

Lemma publish_lifted_cache e t : code_cache (publish_lifted e t) = code_cache e.
Proof. unfold publish_lifted. by case_match. Qed.

Lemma publish_lifted_fold_cache traces e : code_cache (foldl publish_lifted e traces) = code_cache e.
Proof.
  revert e. induction traces as [|t traces IH]; intros e; cbn [foldl]; [done|]. by rewrite IH, publish_lifted_cache.
Qed.

Lemma publish_lifted_spec traces (e : E) :
  exec_inv e -> Forall trace_sane traces ->
  exec_inv (foldl publish_lifted e traces) /\ exec_grows e (foldl publish_lifted e traces).
Proof.
  revert e. induction traces as [|t traces IH]; intros e Hinv Hs; cbn [foldl]; [done|].
  apply Forall_cons in Hs as [Ht Hs].
  assert (H1 : exec_inv (publish_lifted e t) /\ exec_grows e (publish_lifted e t)).
  { unfold publish_lifted. destruct (Z.eqb_spec (tc_Lookup (code_cache e) (trace_id t)) 0) as [|Hne]; [done|].
    split; [by apply (publish_inv e _ _ (trace_id t))|apply publish_grows]. }
  destruct H1 as [Hi1 Hg1]. destruct (IH _ Hi1 Hs) as [? ?]. split; [done|by etrans].
Qed.

(** A trace of the list, and only its entry, is published. *)
Lemma publish_lifted_live traces (e : E) id :
  NoDup (trace_pc <$> traces) ->
  (fst id ∉ (trace_pc <$> traces) -> live_traces (foldl publish_lifted e traces) !! id = live_traces e !! id) /\
  (forall t, t ∈ traces -> id = live_id_of t -> tc_Lookup (code_cache e) (trace_id t) <> 0 ->
     live_traces (foldl publish_lifted e traces) !! id = Some (tc_Lookup (code_cache e) (trace_id t))).
Proof.
  revert e. induction traces as [|t traces IH]; intros e Hnd; cbn [foldl]; [set_solver|].
  rewrite fmap_cons in Hnd. apply NoDup_cons in Hnd as [Hnt Hnd]. destruct (IH (publish_lifted e t) Hnd) as [Hout Hin].
  rewrite publish_lifted_cache in Hin. split.
  - rewrite fmap_cons, not_elem_of_cons. intros [Hne Hni]. rewrite Hout by done. unfold publish_lifted. case_match; [done|].
    cbn. rewrite lookup_insert_ne; [done|]. intros <-. done.
  - intros t' [->|Ht']%elem_of_cons Hid Hl; [|by apply Hin]. rewrite Hout by (by rewrite Hid).
    unfold publish_lifted. rewrite (proj2 (Z.eqb_neq _ _) Hl). cbn. by rewrite Hid, lookup_insert_eq.
Qed.

Lemma finish_lifting_spec (e : E) traces module e' :
  exec_inv e -> Forall trace_sane traces -> finish_lifting e traces module = Ok e' ->
  exec_inv e' /\ exec_grows e e'.
Proof.
  intros Hinv Hs Heq. unfold finish_lifting in Heq. destruct module as [m|]; [|by injection Heq as <-].
  apply bind_ok in Heq as (c & Hadd & [= <-]).
  destruct (tc_add_ok _ _ _ (ei_cache _ Hinv) Hadd) as (Hc & Hk & _). destruct (tc_run_ok c Hc) as [Hc' Hk'].
  set (e1 := with_cache e (tc_RunConstructors c)).
  assert (Hinv1 : exec_inv e1).
  { destruct Hinv as [Hce Hi Hl]. split; [done|done|]. intros id f Hf. destruct (Hl id f Hf) as (Hnz & tid & Htid & Hp).
    split; [done|]. exists tid. cbn. rewrite Hk', Hk by congruence. done. }
  assert (Hg1 : exec_grows e e1) by (split; try done; intros id Hid; cbn; by rewrite Hk', Hk).
  destruct (publish_lifted_spec traces e1 Hinv1 Hs) as [H1 H2]. split; [done|by etrans].
Qed.

(** ** Finding the function of a task *)

Context (version_code : bool) (Hash : list Z -> Z) (max : nat) (decode : Z -> list Z -> bool * Instruction).
Context (hasher : Z -> list (list Z) -> Z) (lib : Instruction -> bool) (fuel inner : nat).

Abbreviation Find := (FindLiftedFunctionForTask version_code Hash max decode hasher lib fuel inner).

(** Other tasks keep the invariant, what is live and what is translated. *)
Definition others_ok (others : E -> Heap -> AddressSpace -> outcome (E * Heap * AddressSpace)) : Prop :=
  forall e h s, exec_inv e -> exists e' h' s', others e h s = Ok (e', h', s') /\ exec_inv e' /\ exec_grows e e' /\
    live_traces e ⊆ live_traces e'.

Definition no_others (e : E) (h : Heap) (s : AddressSpace) : outcome (E * Heap * AddressSpace) := Ok (e, h, s).

Lemma no_others_ok : others_ok no_others.
Proof. intros e h s Hinv. by exists e, h, s. Qed.

(** The lifter's modules link: every trace but one at the null program
    counter gets a usable index entry. *)
Definition lifter_links : Prop :=
  forall traces m c, Lift lib traces = Ok (Some m) -> tc_ok c ->
    (exists c', tc_AddModuleToCache c m = Ok c') /\ forall t, t ∈ traces -> trace_pc t <> 0 -> tc_links c m (trace_id t).

Lemma trace_correct_sane h s t : trace_correct version_code Hash max decode hasher h s t -> trace_sane t.
Proof. intros [_ Hid _]. unfold trace_sane. by rewrite Hid. Qed.

(** A trace that was decoded and is not live yet becomes live. *)
Lemma finish_lifting_publishes (e : E) traces t m :
  lifter_links -> exec_inv e -> Lift lib traces = Ok (Some m) -> Forall trace_sane traces -> NoDup (trace_pc <$> traces) ->
  t ∈ traces -> trace_pc t <> 0 ->
  exists e', finish_lifting e traces (Some m) = Ok e' /\ tc_Lookup (code_cache e') (trace_id t) <> 0 /\
    live_traces e' !! live_id_of t = Some (tc_Lookup (code_cache e') (trace_id t)).
Proof.
  intros Hlink Hinv Hl Hs Hnd Ht Hpc. destruct (Hlink traces m (code_cache e) Hl (ei_cache _ Hinv)) as [[c Hadd] Hlk].
  destruct (tc_add_ok _ _ _ (ei_cache _ Hinv) Hadd) as (Hc & _ & Hnew). destruct (tc_run_ok c Hc) as [_ Hk'].
  unfold finish_lifting. rewrite Hadd. cbn [mbind outcome_bind]. eexists. split; [done|].
  set (e1 := with_cache e (tc_RunConstructors c)).
  assert (Hcc : code_cache (foldl publish_lifted e1 traces) = code_cache e1).
  { apply publish_lifted_fold_cache. }
  assert (Hnz : tc_Lookup (code_cache e1) (trace_id t) <> 0) by (cbn; rewrite Hk'; by apply Hnew, Hlk).
  rewrite Hcc. split; [done|]. by apply (publish_lifted_live traces e1 (live_id_of t) Hnd).
Qed.

(** Decoding from a later state of the same memory. *)
Lemma flow_ext dec dec' head p : (forall q, dec q = dec' q) -> flow dec head p -> flow dec' head p.
Proof. intros Hd. induction 1 as [|p q _ IH Hq]; [constructor|]. eapply flow_next; [done|]. by rewrite <- Hd. Qed.

Lemma trace_correct_step h s h' s' t :
  code_step Hash h s h' s' ->
  trace_correct version_code Hash max decode hasher h' s' t -> trace_correct version_code Hash max decode hasher h s t.
Proof.
  intros Hc [Hi Hid Hv].
  assert (Hd : forall q, inst_at max decode h' s' q = inst_at max decode h s q) by (intros q; by eapply code_step_inst_at).
  split; [|done|].
  - intros p i. rewrite Hi, Hd. split; intros [Hf ->]; (split; [|done]); eapply flow_ext; [|done| |done]; done.
  - intros v Hvv. apply Hv. by erewrite code_step_version.
Qed.

Lemma closed_code_step h s h' s' C0 :
  code_step Hash h s h' s' -> closed_code (inst_at max decode h s) C0 -> closed_code (inst_at max decode h' s') C0.
Proof. intros Hc Hcl p Hp. rewrite (code_step_inst_at Hash max decode h s h' s' p Hc). by apply Hcl. Qed.

Lemma CanExecute_step h s h' s' p : code_step Hash h s h' s' -> CanExecute s' p = CanExecute s p.
Proof.
  intros [_ _ Hc _ _]. unfold CanExecute. destruct (cache_step_maps _ _ Hc) as [_ ->].
  by destruct (cache_step_perms _ _ (AlignDownToPage (Z.land p (addr_mask s))) Hc) as (_ & _ & ->).
Qed.

(** The requested trace after the first loop and the lifter. *)
Lemma start_lifting_spec (e : E) h s pc v C0 :
  wf_heap h -> wf_space h s -> exec_inv e -> version_at Hash version_code h s pc = Some v ->
  pc ∉ trace_heads s -> live_traces e !! (pc, v) = None ->
  closed_code (inst_at max decode h s) C0 -> pc ∈ C0 ->
  (3 * size C0 + 1 <= inner)%nat -> (S (size C0) * size C0 + 1 <= fuel)%nat -> room e (size C0) ->
  exists rest module e1 h1 s1 t,
    start_lifting version_code Hash max decode hasher lib fuel inner e h s pc = Ok (rest, module, e1, h1, s1) /\
    exec_inv e1 /\ exec_grows e e1 /\ trace_correct version_code Hash max decode hasher h s t /\ trace_pc t = pc /\
    live_id_of t = (pc, v) /\ pc ∈ trace_heads s1 /\ code_step Hash h s h1 s1 /\
    Lift lib rest = Ok module /\ Forall trace_sane rest /\ NoDup (trace_pc <$> rest) /\
    (t ∈ rest /\ module <> None \/ (pc ∉ (trace_pc <$> rest)) /\ tc_Lookup (code_cache e1) (trace_id t) <> 0 /\
       live_traces e1 !! (pc, v) = Some (tc_Lookup (code_cache e1) (trace_id t))).
Proof.
  intros Hwf Hw Hinv Hv Hmark Hlive Hcl Hpc Hin Hfu Hroom. unfold start_lifting.
  destruct (DecodeTraces_spec version_code Hash max decode hasher h s C0 pc fuel inner Hwf Hw Hcl Hpc Hin Hfu)
    as (ts & h1 & s1 & -> & Hst & Hts & Hnd & Hall & Hmk). cbn [mbind outcome_bind].
  assert (Hsane : Forall trace_sane ts) by (eapply Forall_impl; [done|]; intros; by eapply trace_correct_sane).
  assert (Hlen : (length ts <= size C0)%nat).
  { rewrite <- (length_fmap trace_pc). apply NoDup_length_le; [done|]. intros p [Hp _]%Hall. by eapply trace_head_closed. }
  assert (Hpcts : pc ∈ (trace_pc <$> ts)) by (apply Hall; split; [constructor|done]).
  apply list_elem_of_fmap in Hpcts as (t & Hpct & Htin). pose proof Hts as Hts'. rewrite Forall_forall in Hts. pose proof (Hts t Htin) as Htc.
  assert (Hid : live_id_of t = (pc, v)).
  { unfold live_id_of. rewrite <- Hpct. f_equal. apply (tc_version _ _ _ _ _ _ _ _ Htc). by rewrite <- Hpct. }
  destruct (prune_traces_spec ts e Hinv) as (rest & e1 & -> & Hinv1 & Hg1 & Hcc & Hsub & Hndr & Hinr & Hpr);
    [unfold room in *; unfold sizeof_CachedIndexEntry in *; lia|done|done|]. cbn [mbind outcome_bind].
  destruct (Lift_ok lib rest Hndr) as (fs & Hlift & _). rewrite Hlift. cbn [mbind outcome_bind].
  eexists rest, _, e1, h1, s1, t. split; [done|]. split_and!; try done.
  - apply Hmk. right. rewrite Hpct. apply list_elem_of_fmap. eauto.
  - rewrite Forall_forall. rewrite Forall_forall in Hsane. auto.
  - destruct (Hpr t Htin) as [Hr|(H1 & H2 & H3)]; [by rewrite Hid|left|right].
    + split; [done|]. destruct rest; [set_solver|done].
    + rewrite Hid in H3. rewrite Hcc, Hpct. rewrite Hpct in H3. done.
Qed.

(** The rest of the request, after whatever other tasks did. *)
Lemma DecodeTracesFromTask_spec others (e : E) h s pc v C0 :
  others_ok others -> lifter_links -> pc <> 0 ->
  wf_heap h -> wf_space h s -> exec_inv e -> version_at Hash version_code h s pc = Some v ->
  pc ∉ trace_heads s -> live_traces e !! (pc, v) = None ->
  closed_code (inst_at max decode h s) C0 -> pc ∈ C0 ->
  (3 * size C0 + 1 <= inner)%nat -> (S (size C0) * size C0 + 1 <= fuel)%nat -> room e (size C0) ->
  exists e' h' s' t,
    DecodeTracesFromTask version_code Hash max decode hasher lib fuel inner others e h s pc = Ok (e', h', s') /\
    exec_inv e' /\ exec_grows e e' /\ trace_correct version_code Hash max decode hasher h s t /\ trace_pc t = pc /\
    tc_Lookup (code_cache e') (trace_id t) <> 0 /\ live_traces e' !! (pc, v) = Some (tc_Lookup (code_cache e') (trace_id t)).
Proof.
  intros Ho Hlk Hpc0 Hwf Hw Hinv Hv Hmark Hlive Hcl Hpc Hin Hfu Hroom. unfold DecodeTracesFromTask.
  destruct (start_lifting_spec e h s pc v C0) as (rest & module & e1 & h1 & s1 & t & -> & Hinv1 & Hg1 & Htc & Hpct & Hid & _ & _ & Hlift & Hsane & Hnd & Hcase); try done.
  cbn [mbind outcome_bind]. destruct (Ho e1 h1 s1 Hinv1) as (e2 & h2 & s2 & -> & Hinv2 & Hg2 & Hsub). cbn [mbind outcome_bind].
  rewrite map_subseteq_spec in Hsub.
  destruct Hcase as [[Htr Hm]|(Hnr & Hnz & Hl)].
  - destruct module as [m|]; [|done]. rewrite <- Hpct in Hpc0.
    destruct (finish_lifting_publishes e2 rest t m Hlk Hinv2 Hlift Hsane Hnd Htr Hpc0) as (e3 & Heq & Hz & Hlv).
    destruct (finish_lifting_spec e2 rest (Some m) e3 Hinv2 Hsane Heq) as [Hinv3 Hg3]. rewrite Heq. cbn [mbind outcome_bind].
    exists e3, h2, s2, t. split_and!; try done; [by do 2 (etrans; [done|])|]. by rewrite <- Hid.
  - assert (H2 : live_traces e2 !! (pc, v) = Some (tc_Lookup (code_cache e2) (trace_id t)) /\ tc_Lookup (code_cache e2) (trace_id t) <> 0).
    { rewrite (eg_lookup _ _ Hg2 _ Hnz). split; [by apply Hsub|done]. }
    destruct H2 as [Hl2 Hz2].
    assert (Hfin : exists e3, finish_lifting e2 rest module = Ok e3 /\ live_traces e3 !! (pc, v) = live_traces e2 !! (pc, v)).
    { destruct module as [m|]; [|by exists e2]. destruct (Hlk rest m (code_cache e2) Hlift (ei_cache _ Hinv2)) as [[c Hadd] _].
      unfold finish_lifting. rewrite Hadd. cbn [mbind outcome_bind]. eexists. split; [done|].
      destruct (publish_lifted_live rest (with_cache e2 (tc_RunConstructors c)) (pc, v) Hnd) as [-> _]; done. }
    destruct Hfin as (e3 & Heq & Hl3). destruct (finish_lifting_spec e2 rest module e3 Hinv2 Hsane Heq) as [Hinv3 Hg3].
    rewrite Heq. cbn [mbind outcome_bind]. pose proof (eg_lookup _ _ Hg3 _ Hz2) as Hk3.
    exists e3, h2, s2, t. split_and!; try done; [by do 2 (etrans; [done|])|by rewrite Hk3|by rewrite Hl3, Hk3].
Qed.

(** The three outcomes without decoding and the one with it. *)
Lemma Find_miss others (e : E) h s task v :
  wf_heap h -> wf_space h s -> version_at Hash version_code h s (Tasks.pc task) = Some v ->
  exists h1 s1, code_step Hash h s h1 s1 /\ trace_heads s1 = trace_heads s /\
    Find others e h s task =
      match live_traces e !! (Tasks.pc task, v) with
      | Some f => Ok (f, e, h1, s1, task)
      | None =>
          if negb (CanExecute s (Tasks.pc task)) then Ok (error_intrinsic e, e, h1, s1, fault_on_execute task)
          else
            '(e, h, s) ← DecodeTracesFromTask version_code Hash max decode hasher lib fuel inner others e h1 s1 (Tasks.pc task);
            match live_traces e !! (Tasks.pc task, v) with
            | Some f => Ok (f, e, h, s, task)
            | None => Ok (error_intrinsic e, e, h, s, task)
            end
      end.
Proof.
  intros Hwf Hw Hv. unfold FindLiftedFunctionForTask. cbv zeta.
  destruct (AS_ComputeCodeVersion_spec Hash version_code h s (Tasks.pc task) Hwf Hw) as (v' & h1 & s1 & -> & Hc & Ht & Hvv).
  rewrite (Hvv v Hv). cbn [mbind outcome_bind]. exists h1, s1. split_and!; try done.
  by rewrite (CanExecute_step _ _ _ _ _ Hc).
Qed.

(** Decoding from a marked head finds nothing. *)
Lemma DecodeTracesFromTask_marked (e : E) h s pc :
  pc ∈ trace_heads s -> (0 < fuel)%nat ->
  DecodeTracesFromTask version_code Hash max decode hasher lib fuel inner no_others e h s pc = Ok (e, h, s).
Proof.
  intros Hm Hf. unfold DecodeTracesFromTask, start_lifting, DecodeTraces. destruct fuel as [|n]; [lia|]. cbn [set_insert trace_loop].
  unfold IsMarkedTraceHead. rewrite bool_decide_eq_true_2 by done. by destruct n.
Qed.
End executor.

(** ** Theorems *)

(** C11: a task at a non-null program counter that is executable, is not
    marked as a trace head, has no live trace, and from which direct flow stays
    on finitely many program counters that decode, gets a translation, provided
    the linker links what the lifter made and the executor's index has room:
    the function is the code cache's function for the trace that starts at the
    task's program counter, identified by the hash of exactly the instructions
    that direct flow reaches from it; it becomes live for the code version of
    the memory.  The invariant of the executor (live traces are published
    functions of traces with that entry) is kept, also when other tasks run
    while the lifter works.  (At a marked trace head that is not live the task
    gets the error intrinsic, see [marked_head_errors].) *)
Theorem Find_translates {C} {Ops : TranslationCache C Module_} {Laws : TranslationCacheLaws C Module_}
    version_code Hash max decode hasher lib fuel inner others (e : Executor C) h s task v C0 :
  others_ok others -> lifter_links lib -> Tasks.pc task <> 0 ->
  wf_heap h -> wf_space h s -> exec_inv e -> version_at Hash version_code h s (Tasks.pc task) = Some v ->
  CanExecute s (Tasks.pc task) = true -> (Tasks.pc task ∉ trace_heads s) -> live_traces e !! (Tasks.pc task, v) = None ->
  closed_code (inst_at max decode h s) C0 -> Tasks.pc task ∈ C0 ->
  (3 * size C0 + 1 <= inner)%nat -> (S (size C0) * size C0 + 1 <= fuel)%nat -> room e (size C0) ->
  exists f e' h' s' t,
    FindLiftedFunctionForTask version_code Hash max decode hasher lib fuel inner others e h s task = Ok (f, e', h', s', task) /\
    f <> 0 /\ trace_correct version_code Hash max decode hasher h s t /\ trace_pc t = Tasks.pc task /\
    f = tc_Lookup (code_cache e') (trace_id t) /\ live_traces e' !! (Tasks.pc task, v) = Some f /\
    exec_inv e' /\ exec_grows e e'.
Proof.
  intros Ho Hlk Hpc0 Hwf Hw Hinv Hv Hx Hmark Hlive Hcl Hpc Hin Hfu Hroom.
  destruct (Find_miss version_code Hash max decode hasher lib fuel inner others e h s task v Hwf Hw Hv) as (h1 & s1 & Hc & Ht & ->).
  rewrite Hlive, Hx. cbn [negb].
  destruct (DecodeTracesFromTask_spec version_code Hash max decode hasher lib fuel inner others e h1 s1 (Tasks.pc task) v C0)
    as (e' & h' & s' & t & -> & Hinv' & Hg & Htc & Hpct & Hnz & Hl); try done.
  - apply Hc.
  - apply Hc.
  - by rewrite (code_step_version _ _ _ _ _ _ _ Hc).
  - by rewrite Ht.
  - by eapply closed_code_step.
  - cbn [mbind outcome_bind]. rewrite Hl. eexists _, e', h', s', t. split_and!; try done. by eapply trace_correct_step.
Qed.

(** [DecodeTraces] skips a program counter that is marked as a trace
    head, so when the mark outlives the translation (the code was remapped or
    rewritten without the marks being cleared, or another task decoded it and
    still waits for the lifter) the task gets the error intrinsic although its
    code can be executed; nothing is lifted and no fault is recorded. *)
Theorem marked_head_errors {C} {Ops : TranslationCache C Module_}
    version_code Hash max decode hasher lib fuel inner (e : Executor C) h s task v :
  wf_heap h -> wf_space h s -> version_at Hash version_code h s (Tasks.pc task) = Some v ->
  CanExecute s (Tasks.pc task) = true -> Tasks.pc task ∈ trace_heads s -> live_traces e !! (Tasks.pc task, v) = None -> (0 < fuel)%nat ->
  exists h' s', FindLiftedFunctionForTask version_code Hash max decode hasher lib fuel inner no_others e h s task =
    Ok (error_intrinsic e, e, h', s', task) /\ code_step Hash h s h' s'.
Proof.
  intros Hwf Hw Hv Hx Hm Hlive Hf.
  destruct (Find_miss version_code Hash max decode hasher lib fuel inner no_others e h s task v Hwf Hw Hv) as (h1 & s1 & Hc & Ht & ->).
  rewrite Hlive, Hx. cbn [negb]. rewrite DecodeTracesFromTask_marked by (rewrite ?Ht; done). cbn [mbind outcome_bind]. rewrite Hlive. eauto.
Qed.

(** A live trace is returned as it is. *)
Theorem Find_live {C} {Ops : TranslationCache C Module_}
    version_code Hash max decode hasher lib fuel inner others (e : Executor C) h s task v f :
  wf_heap h -> wf_space h s -> version_at Hash version_code h s (Tasks.pc task) = Some v ->
  live_traces e !! (Tasks.pc task, v) = Some f ->
  exists h' s', FindLiftedFunctionForTask version_code Hash max decode hasher lib fuel inner others e h s task =
    Ok (f, e, h', s', task) /\ code_step Hash h s h' s'.
Proof.
  intros Hwf Hw Hv Hl.
  destruct (Find_miss version_code Hash max decode hasher lib fuel inner others e h s task v Hwf Hw Hv) as (h1 & s1 & Hc & _ & ->).
  rewrite Hl. eauto.
Qed.

(** ** An instance *)

(** A cache that publishes one address for every function of a module. *)
Definition toy_add (c : gmap (Z * Z) Z) (m : Module_) : gmap (Z * Z) Z :=
  foldl (fun c f => <[lf_trace_id f := default 65536 (c !! lf_trace_id f)]> c) c (module_functions m).

#[local] Instance toy_cache : TranslationCache (gmap (Z * Z) Z) Module_ := {|
  tc_Lookup c id := default 0 (c !! id);
  tc_Lookup_symbol _ _ := 4096;
  tc_AddModuleToCache c m := Ok (toy_add c m);
  tc_RunConstructors c := c;
  tc_SetUp c := c;
  tc_TearDown c := c
|}.

Lemma toy_add_spec (fs : list Lifted) (c : gmap (Z * Z) Z) (id : Z * Z) :
  foldl (fun c f => <[lf_trace_id f := default 65536 (c !! lf_trace_id f)]> c) c fs !! id =
    match c !! id with Some f => Some f | None => if decide (id ∈ (lf_trace_id <$> fs)) then Some 65536 else None end.
Proof.
  revert c. induction fs as [|f fs IH]; intros c; cbn [foldl]; [by destruct (c !! id)|]. rewrite IH, fmap_cons.
  destruct (decide (lf_trace_id f = id)) as [<-|Hne].
  - rewrite lookup_insert_eq. destruct (c !! lf_trace_id f); cbn; [done|]. rewrite decide_True by set_solver. done.
  - rewrite lookup_insert_ne by done. destruct (c !! id); [done|]. apply decide_ext. set_solver.
Qed.

#[local] Program Instance toy_laws : TranslationCacheLaws (gmap (Z * Z) Z) Module_ := {|
  tc_ok c := map_Forall (fun _ f => f = 65536) c;
  tc_links _ m id := id ∈ (lf_trace_id <$> module_functions m)
|}.
Next Obligation.
  intros c m c' Hok [= <-]. cbn. unfold toy_add. split_and!.
  - intros id f. rewrite toy_add_spec. destruct (c !! id) eqn:Ec; [intros [= <-]; by eapply Hok|]. case_decide; congruence.
  - intros id. rewrite toy_add_spec. by destruct (c !! id).
  - intros id Hin. rewrite toy_add_spec. destruct (c !! id) as [f|] eqn:Ec; cbn; [by rewrite (Hok id f Ec)|]. by rewrite decide_True.
Qed.
Next Obligation. done. Qed.

Definition toy_executor : Executor (gmap (Z * Z) Z) :=
  MkExecutor ∅ (Open 32 (MkFile 0 ∅) true) [] ∅ 4096.

Lemma toy_inv : exec_inv toy_executor.
Proof.
  split; [apply map_Forall_empty|apply Open_inv; vm_compute; split; congruence|].
  intros id f Hf. cbn in Hf. by rewrite lookup_empty in Hf.
Qed.

Lemma toy_links lib : lifter_links (C:=gmap (Z * Z) Z) lib.
Proof.
  intros traces m c Hl Hok. split; [by eexists|]. intros t Ht _. cbn. unfold Lift in Hl.
  apply bind_ok in Hl as (fs & Hfs & Hm). destruct traces as [|t0 traces]; [done|]. injection Hm as <-. cbn.
  revert fs Hfs. generalize (list_to_set (trace_pc <$> t0 :: traces) : gset Z). generalize (∅ : gset Z). revert t Ht.
  induction (t0 :: traces) as [|t1 ts IH]; intros t Ht df dc fs Hfs; [set_solver|]. cbn [lift_traces] in Hfs.
  apply bind_ok in Hfs as ([f df'] & Hf & Hfs). apply bind_ok in Hfs as (fs' & Hfs & [= <-]).
  unfold LiftTrace in Hf. apply bind_ok in Hf as (_ & _ & Hf). apply bind_ok in Hf as (_ & _ & [= <- <-]).
  rewrite fmap_cons. cbn. apply elem_of_cons in Ht as [->|Ht]; [left|right; by eapply IH].
Qed.

Lemma Find_translates_witness :
  exists f e' h' s', FindLiftedFunctionForTask true (fun _ => 7) 2 demo_decode (fun _ _ => 9) (fun _ => true) 21 13 no_others
    toy_executor (fst exec_state) (snd exec_state) (initial_task 4096) = Ok (f, e', h', s', initial_task 4096) /\ f <> 0.
Proof.
  destruct exec_ok as [Hwf Hw].
  destruct (Find_translates true (fun _ => 7) 2 demo_decode (fun _ _ => 9) (fun _ => true) 21 13 no_others
    toy_executor (fst exec_state) (snd exec_state) (initial_task 4096) 0 {[4096; 4098; 4100; 4112]})
    as (f & e' & h' & s' & t & Heq & Hnz & _).
  - exact no_others_ok.
  - exact (toy_links (fun _ => true)).
  - cbn. lia.
  - exact Hwf.
  - exact Hw.
  - exact toy_inv.
  - vm_compute. reflexivity.
  - vm_compute. reflexivity.
  - apply (bool_decide_eq_false (4096 ∈ trace_heads (snd exec_state))). vm_compute. reflexivity.
  - vm_compute. reflexivity.
  - exact demo_closed.
  - cbn. set_solver.
  - vm_compute. lia.
  - vm_compute. lia.
  - vm_compute. congruence.
  - exists f, e', h', s'. split; [exact Heq|exact Hnz].
Defined.

Lemma marked_head_errors_witness :
  exists h' s', FindLiftedFunctionForTask true (fun _ => 7) 2 demo_decode (fun _ _ => 9) (fun _ => true) 21 13 no_others
    toy_executor (fst exec_state) (MarkAsTraceHead (snd exec_state) 4096) (initial_task 4096) = Ok (4096, toy_executor, h', s', initial_task 4096).
Proof.
  destruct exec_ok as [Hwf Hw].
  destruct (marked_head_errors true (fun _ => 7) 2 demo_decode (fun _ _ => 9) (fun _ => true) 21 13 toy_executor
    (fst exec_state) (MarkAsTraceHead (snd exec_state) 4096) (initial_task 4096) 0) as (h' & s' & Heq & _).
  - exact Hwf.
  - apply wf_space_heads. exact Hw.
  - vm_compute. reflexivity.
  - vm_compute. reflexivity.
  - cbn. set_solver.
  - vm_compute. reflexivity.
  - lia.
  - exists h', s'. exact Heq.
Defined.

(** ** The code cache implements the interface *)

Section implementation.
Context {Obj TS : Type} (no_module : Module_).
Context (mmap : nat -> Z -> Z -> bool -> option Z) (bp : list Z).
Context (mmap_nonnull : forall n addr size fixed ret, mmap n addr size fixed = Some ret -> 0 < ret).
Context (bp_nonempty : (0 < length bp)%nat).
Context (index_at : Z -> CacheIndexEntry) (ctor_at : Z -> Constructor) (iterate : gmap Z MemoryMap -> list MemoryMap).
Context (loader_symbol : list Z -> list Z -> Z) (getSymbolAddressInProcess : list Z -> Z).
Context (sections : Obj -> option (list SectionRequest)) (sections_sane : sane_objects sections).
Context (name traces_of : Module_ -> list Z) (opt : Module_ -> Module_) (compile : Module_ -> Obj) (dir : list Z).

#[local] Instance CodeCache_operations : TranslationCache (CodeCache Module_ Obj TS) Module_ := {|
  tc_Lookup := Lookup_trace;
  tc_Lookup_symbol := Lookup_symbol loader_symbol getSymbolAddressInProcess;
  tc_AddModuleToCache := AddModuleToCache mmap bp index_at ctor_at iterate sections name traces_of opt compile dir;
  tc_RunConstructors := RunConstructors;
  tc_SetUp := CodeCache_SetUp no_module;
  tc_TearDown := CodeCache_TearDown no_module
|}.

#[local] Program Instance CodeCache_laws : TranslationCacheLaws (CodeCache Module_ Obj TS) Module_ := {|
  tc_ok := code_ok;
  tc_links := links_trace mmap bp index_at iterate sections name traces_of opt compile dir
|}.
Next Obligation.
  intros c m c' Hok Heq.
  destruct (AddModuleToCache_spec mmap bp mmap_nonnull bp_nonempty index_at ctor_at iterate sections name traces_of opt compile dir
    c c' m sections_sane Hok Heq) as (? & ? & ?). done.
Qed.
Next Obligation.
  intros c [Ha Hf]. cbn. unfold RunConstructors. destruct (constructors c); (split; [split; [done|exact Hf]|done]).
Qed.
End implementation.
