(* ===== verification/ProgramSnapshot.v ===== *)
(** * Program snapshots

    The messages of [vmill/Program/Snapshot.proto] that the snapshotter writes
    and the executor loads.  Serialising them is left to protocol buffers;
    [LoadSnapshotFromFile] of [vmill/Program/Snapshot.cpp] is the rest. *)

From S2P Require Import Prelude.

Inductive PageRangeKind :=
| kLinuxStackPageRange
| kLinuxHeapPageRange
| kLinuxVVarPageRange
| kLinuxVDSOPageRange
| kLinuxVSysCallPageRange
| kFileBackedPageRange
| kAnonymousPageRange
| kAnonymousZeroRange.
#[global] Instance PageRangeKind_eq_dec : EqDecision PageRangeKind.
Proof. solve_decision. Defined.

(** [snapshot::PageRange]; [base], [limit] and [file_offset] are [int64]. *)
Record PageRange := MkPageRange {
  pr_base : Z;
  pr_limit : Z;
  pr_can_read : bool;
  pr_can_write : bool;
  pr_can_exec : bool;
  pr_kind : PageRangeKind;
  pr_name : string;
  pr_file_path : option string;
  pr_file_offset : option Z
}.

(** [snapshot::AddressSpace]. *)
Record SnapshotSpace := MkSnapshotSpace {
  sp_id : Z;
  sp_parent_id : option Z;
  sp_page_ranges : list PageRange
}.

(** [snapshot::Task]. *)
Record SnapshotTask := MkSnapshotTask {
  st_pc : Z;
  st_state : list Z;
  st_address_space_id : Z
}.

(** [snapshot::Program]. *)
Record Program := MkProgram {
  pg_arch : string;
  pg_os : string;
  pg_argv : list string;
  pg_address_spaces : list SnapshotSpace;
  pg_tasks : list SnapshotTask
}.

(** [LoadSnapshotFromFile]: the file must exist, open and parse.  The
    contents of files and the parser are parameters. *)
Definition LoadSnapshotFromFile (FileExists can_open : string -> bool) (ParseFromIstream : string -> option Program)
    (snapshot_path : string) : outcome Program :=
  check (FileExists snapshot_path) ;;
  check (can_open snapshot_path) ;;
  match ParseFromIstream snapshot_path with
  | Some snap => Ok snap
  | None => Fatal
  end.
