(* ===== verification/Workspace.v ===== *)
(** * The workspace

    Models [vmill/Workspace/Workspace.cpp]: the paths of a workspace, which
    are computed once and kept in static variables, and loading a snapshot
    into an executor.  The file system is a parameter. *)

From stdpp Require Import functions.
From S2P Require Import Prelude Pages MappedRange AddressSpace FileCache Tasks Decoder Lifter Executor ProgramSnapshot.

(** ** Paths *)

(** The functions whose static variable [path] holds their answer. *)
Inductive Static :=
| Static_Dir
| Static_SnapshotPath
| Static_IndexPath
| Static_MemoryDir
| Static_BitcodeDir
| Static_ToolDir
| Static_LibraryDir
| Static_RuntimeBitcodePath
| Static_RuntimeLibraryPath.
#[global] Instance Static_eq_dec : EqDecision Static.
Proof. solve_decision. Defined.

(** The static variables, and the one flag that is assigned to. *)
Record Paths := MkPaths { path_of : Static -> string; FLAGS_runtime : string }.

Section paths.
(** The host: [remill/OS/FileSystem.h] and [std::hash], printed in
    hexadecimal. *)
Context (CurrentWorkingDirectory PathSeparator : string).
Context (CanonicalPath hash_hex : string -> string).
Context (TryCreateDirectory FileExists : string -> bool).
(** The other flags and the compile-time directories. *)
Context (FLAGS_workspace FLAGS_tool FLAGS_arch FLAGS_os : string).
Context (gBuildRuntimDir gInstallRuntimeDir : string).

(** [if (path.empty()) { path = ...; } return path;] *)
Definition static_path (k : Static) (compute : Paths -> outcome (string * Paths)) (p : Paths) : outcome (string * Paths) :=
  if bool_decide (path_of p k = "") then
    '(path, p) ← compute p;
    Ok (path, MkPaths (<[k := path]> (path_of p)) (FLAGS_runtime p))
  else Ok (path_of p k, p).

(** The last lines of most functions: a canonical path below a directory,
    which is created when [mk] is set. *)
Definition below (mk : bool) (parent leaf : string) : outcome string :=
  let path := CanonicalPath (parent +:+ PathSeparator +:+ leaf) in
  check (negb mk || TryCreateDirectory path) ;;
  Ok path.

Definition Dir : Paths -> outcome (string * Paths) :=
  static_path Static_Dir (fun p =>
    let path := CanonicalPath (if bool_decide (FLAGS_workspace = "") then CurrentWorkingDirectory else FLAGS_workspace) in
    check (TryCreateDirectory path) ;;
    Ok (path, p)).

Definition SnapshotPath : Paths -> outcome (string * Paths) :=
  static_path Static_SnapshotPath (fun p => '(d, p) ← Dir p; path ← below false d "snapshot"; Ok (path, p)).

Definition IndexPath : Paths -> outcome (string * Paths) :=
  static_path Static_IndexPath (fun p => '(d, p) ← Dir p; path ← below false d "index"; Ok (path, p)).

Definition MemoryDir : Paths -> outcome (string * Paths) :=
  static_path Static_MemoryDir (fun p => '(d, p) ← Dir p; path ← below true d "memory"; Ok (path, p)).

Definition BitcodeDir : Paths -> outcome (string * Paths) :=
  static_path Static_BitcodeDir (fun p => '(d, p) ← Dir p; path ← below true d "bitcode"; Ok (path, p)).

(** The search of [RuntimeBitcodePath]: each directory, without and with the
    extension; the static variable keeps the last path tried. *)
Fixpoint search_runtime (runtime : string) (search_paths : list string) : option string :=
  match search_paths with
  | [] => None
  | runtime_dir :: search_paths =>
      let path := CanonicalPath (runtime_dir +:+ runtime) in
      if FileExists path then Some path
      else if FileExists (path +:+ ".bc") then Some (path +:+ ".bc")
      else search_runtime runtime search_paths
  end.

Definition runtime_dirs (dir : string) : list string :=
  [""; CurrentWorkingDirectory +:+ PathSeparator; dir +:+ PathSeparator;
   gBuildRuntimDir +:+ PathSeparator; gInstallRuntimeDir +:+ PathSeparator].

Definition runtime_name (p : Paths) : string :=
  if bool_decide (FLAGS_runtime p = "") then FLAGS_os +:+ "_" +:+ FLAGS_arch else FLAGS_runtime p.

Definition RuntimeBitcodePath : Paths -> outcome (string * Paths) :=
  static_path Static_RuntimeBitcodePath (fun p =>
    '(d, p) ← Dir p;
    let runtime := runtime_name p in
    match search_runtime runtime (runtime_dirs d) with
    | Some path => Ok (path, MkPaths (path_of p) runtime)
    | None => Fatal
    end).

(** [RuntimeBitcodePath()] is evaluated inside the argument of the hash,
    [Dir()] when the path is printed. *)
Definition ToolDir : Paths -> outcome (string * Paths) :=
  static_path Static_ToolDir (fun p =>
    '(r, p) ← RuntimeBitcodePath p;
    '(d, p) ← Dir p;
    path ← below true d (hash_hex (r +:+ FLAGS_tool));
    Ok (path, p)).

Definition LibraryDir : Paths -> outcome (string * Paths) :=
  static_path Static_LibraryDir (fun p => '(d, p) ← ToolDir p; path ← below true d "lib"; Ok (path, p)).

Definition RuntimeLibraryPath : Paths -> outcome (string * Paths) :=
  static_path Static_RuntimeLibraryPath (fun p => '(d, p) ← ToolDir p; path ← below false d "runtime.lib"; Ok (path, p)).
End paths.

(** ** Loading a snapshot *)

Section loading.
(** The files under [MemoryDir()], by name: their bytes, whether they open,
    and how many bytes [read] delivers at a position for a count ([None] is
    [-1]). *)
Context (files : string -> option (list Z)) (can_open : string -> bool).
Context (read_amount : string -> Z -> Z -> option Z).

(** [read(fd, buff, count)] with the file position [pos]: the bytes that
    arrive; a null buffer is [EFAULT]. *)
Definition read_file (path : string) (buff : VirtualAddress) (pos count : Z) : option (list Z) :=
  if can_open path then
    amount ← read_amount path pos count;
    bytes ← files path;
    let arrived := take (Z.to_nat amount) (drop (Z.to_nat pos) bytes) in
    match buff, arrived with
    | NullPtr, _ :: _ => None
    | _, _ => Some arrived
    end
  else None.

(** The loop of [LoadPageRangeFromFile].  A failing [read] ends it, after a
    [CHECK] that fails while there is something left to read. *)
Fixpoint load_bytes (fuel : nat) (h : Heap) (s : AddressSpace) (path : string) (pos base_addr range_size : Z) :
    outcome (Heap * AddressSpace) :=
  if range_size =? 0 then Ok (h, s)
  else
    match fuel with
    | O => Diverges
    | S fuel =>
        '(buff, h, s) ← AS_ToReadWriteVirtualAddress h s base_addr;
        match read_file path buff pos range_size with
        | None => check (range_size =? 0) ;; Ok (h, s)
        | Some bytes =>
            h ← store h buff bytes 0;
            let amount_read := Z.of_nat (length bytes) in
            load_bytes fuel h s path (pos + amount_read) (add64 base_addr amount_read) (sub64 range_size amount_read)
        end
    end.

(** A read that makes progress delivers at least one byte. *)
Definition LoadPageRangeFromFile (h : Heap) (s : AddressSpace) (range : PageRange) : outcome (Heap * AddressSpace) :=
  let path := pr_name range in
  check (bool_decide (is_Some (files path))) ;;
  let range_size := wrap64 (pr_limit range - pr_base range) in
  check (range_size <=? Z.of_nat (length (default [] (files path)))) ;;
  load_bytes (Z.to_nat range_size) h s path 0 (wrap64 (pr_base range)) range_size.

(** The name given to the map of a page range. *)
Definition range_path (page : PageRange) : option string :=
  match pr_kind page with
  | kLinuxStackPageRange => Some "[stack]"
  | kLinuxHeapPageRange => Some "[heap]"
  | kLinuxVVarPageRange => Some "[vvar]"
  | kLinuxVDSOPageRange => Some "[vdso]"
  | kLinuxVSysCallPageRange => Some "[vsyscall]"
  | kFileBackedPageRange => pr_file_path page
  | kAnonymousPageRange | kAnonymousZeroRange => None
  end.

(** One iteration over the page ranges. *)
Definition load_range (h : Heap) (s : AddressSpace) (page : PageRange) : outcome (Heap * AddressSpace) :=
  check (pr_base page <? pr_limit page) ;;
  let base := wrap64 (pr_base page) in
  let limit := wrap64 (pr_limit page) in
  let size := sub64 limit base in
  let offset := wrap64 (default 0 (pr_file_offset page)) in
  '(h, s) ← AddMap h s base size (range_path page) offset;
  '(h, s) ← (if bool_decide (pr_kind page = kAnonymousZeroRange) then Ok (h, s) else LoadPageRangeFromFile h s page);
  s ← SetPermissions h s base size (pr_can_read page) (pr_can_write page) (pr_can_exec page);
  Ok (h, s).

Fixpoint load_ranges (h : Heap) (s : AddressSpace) (pages : list PageRange) : outcome (Heap * AddressSpace) :=
  match pages with
  | [] => Ok (h, s)
  | page :: pages => '(h, s) ← load_range h s page; load_ranges h s pages
  end.

(** [arch->address_size]. *)
Context (address_size : Z).
Context {C OS : Type}.

(** [std::make_shared<AddressSpace>]. *)
Definition with_space (w : World C OS) (h : Heap) (s : AddressSpace) : World C OS :=
  MkWorld (w_exec w) h (<[w_next w := s]> (w_spaces w)) (w_next w + 1) (w_os w) (w_running w).

(** [LoadAddressSpaceFromSnapshot]; [addr_space_ids] maps the identifiers of
    the snapshot to address space objects. *)
Definition LoadAddressSpaceFromSnapshot (addr_space_ids : gmap Z Z) (w : World C OS) (orig_addr_space : SnapshotSpace) :
    outcome (gmap Z Z * World C OS) :=
  let id := sp_id orig_addr_space in
  check (bool_decide (addr_space_ids !! id = None)) ;;
  '(h, s) ←
    match sp_parent_id orig_addr_space with
    | Some parent_id =>
        match addr_space_ids !! parent_id with
        | Some parent_mem => parent ← deref_opt (w_spaces w !! parent_mem); AddressSpace_clone (w_heap w) parent
        | None => Fatal
        end
    | None => AddressSpace_new (w_heap w) address_size
    end;
  let emu_addr_space := w_next w in
  '(h, s) ← load_ranges h s (sp_page_ranges orig_addr_space);
  Ok (<[id := emu_addr_space]> addr_space_ids, with_space w h s).

Fixpoint load_spaces (addr_space_ids : gmap Z Z) (w : World C OS) (spaces : list SnapshotSpace) :
    outcome (gmap Z Z * World C OS) :=
  match spaces with
  | [] => Ok (addr_space_ids, w)
  | sp :: spaces => '(addr_space_ids, w) ← LoadAddressSpaceFromSnapshot addr_space_ids w sp; load_spaces addr_space_ids w spaces
  end.

Definition with_task (w : World C OS) (state_bytes : list Z) (pc memory : Z) : World C OS :=
  MkWorld (AddInitialTask (w_exec w) state_bytes pc memory) (w_heap w) (w_spaces w) (w_next w) (w_os w) (w_running w).

Fixpoint load_tasks (addr_space_ids : gmap Z Z) (w : World C OS) (tasks : list SnapshotTask) : outcome (World C OS) :=
  match tasks with
  | [] => Ok w
  | task :: tasks =>
      match addr_space_ids !! st_address_space_id task with
      | Some memory => load_tasks addr_space_ids (with_task w (st_state task) (wrap64 (st_pc task)) memory) tasks
      | None => Fatal
      end
  end.

Definition LoadSnapshotIntoExecutor (snapshot : Program) (w : World C OS) : outcome (World C OS) :=
  '(address_space_ids, w) ← load_spaces ∅ w (pg_address_spaces snapshot);
  load_tasks address_space_ids w (pg_tasks snapshot).
End loading.
