(* ===== verification/WorkspaceProps.v ===== *)
(** * What loading a snapshot promises

    After [LoadSnapshotIntoExecutor] every address space of the snapshot holds
    exactly the bytes and permissions of its page ranges, and the executor
    starts the snapshot's tasks in them. *)

From S2P Require Import Prelude Pages MappedRange RangeProps AddressSpace SpaceInv RemoveRangeProps IndexProps MapChange Lookup ReadProps WriteProps HoleProps CloneProps SpaceTheorems.
From S2P Require Import MMProps FileCache Tasks Decoder Lifter Executor ProgramSnapshot Workspace.

Section loading.
Context (files : string -> option (list Z)) (can_open : string -> bool).
Context (read_amount : string -> Z -> Z -> option Z).

(** A readable regular file: before its end [read] delivers something. *)
Definition readable_file (path : string) (bytes : list Z) : Prop :=
  files path = Some bytes /\ Forall byte_ok bytes /\ can_open path = true /\
  forall pos count, 0 <= pos < Z.of_nat (length bytes) -> 0 < count ->
    exists k, read_amount path pos count = Some k /\ 0 < k <= count.

Lemma read_file_spec path bytes l i pos count :
  readable_file path bytes -> 0 <= pos < Z.of_nat (length bytes) -> 0 < count ->
  exists k, (0 < k)%nat /\ Z.of_nat k <= count /\ Z.of_nat k <= Z.of_nat (length bytes) - pos /\
    read_file files can_open read_amount path (DataPtr l i) pos count = Some (take k (drop (Z.to_nat pos) bytes)) /\
    length (take k (drop (Z.to_nat pos) bytes)) = k.
Proof.
  intros (Hf & Hb & Ho & Hr) Hpos Hc. destruct (Hr pos count Hpos Hc) as (k & Hk & Hk0).
  set (d := drop (Z.to_nat pos) bytes). assert (Hd : Z.of_nat (length d) = Z.of_nat (length bytes) - pos).
  { unfold d. rewrite length_drop. lia. }
  exists (length (take (Z.to_nat k) d)). rewrite length_take.
  split_and!; [lia|lia|lia| |].
  - unfold read_file. rewrite Ho, Hk, Hf. cbn. f_equal. fold d.
    destruct (decide (Z.to_nat k <= length d)%nat); [by rewrite Nat.min_l by lia|].
    rewrite Nat.min_r by lia. by rewrite !take_ge by lia.
  - rewrite length_take. lia.
Qed.

(** ** Filling a range *)

(** The pointer of an address in a range whose pages have a permission. *)
Lemma space_pointer h s l r addr :
  wf_heap h -> wf_space h s -> entry h (maps s) l r -> valid r = true -> Contains r addr = true ->
  any_perm s (AlignDownToPage addr) = true ->
  exists s', cache_step s s' /\ wf_space h s' /\
    forall p h', ToReadWriteVirtualAddress h l addr = Ok (p, h') -> AS_ToReadWriteVirtualAddress h s addr = Ok (p, h', s').
Proof.
  intros Hwf Hw He Hv Hc Hp. pose proof (proj1 (Contains_iff _ _) Hc) as Hr.
  pose proof (wm_range _ _ _ (ws_maps _ _ Hw) _ _ He) as Hro.
  unfold AS_ToReadWriteVirtualAddress, FindRange. rewrite land_mask; [|apply Hw|destruct (ro_order _ _ Hro), Hro; lia].
  destruct (FindRangeAligned_spec h s Hw (AlignDownToPage addr)) as (l' & s' & HF & Hst & Hw' & _ & Hfd).
  pose proof (index_lookup h s Hwf Hw (any_perm s) (page_to_map s) addr l r (ws_index _ _ Hw) He Hv Hc Hp) as Hlk.
  rewrite (fd_index _ _ _ _ _ _ Hfd l Hlk) in HF. exists s'. split_and!; [done|done|].
  intros p h' HT. rewrite HF. cbn [mbind outcome_bind]. by rewrite HT.
Qed.

Lemma any_perm_step s s' p : cache_step s s' -> any_perm s' p = any_perm s p.
Proof. intros Hst. unfold any_perm. by destruct (cache_step_perms s s' p Hst) as (-> & -> & ->). Qed.

Definition open_range (s : AddressSpace) (r : MappedRange) : Prop :=
  forall a, Contains r a = true -> any_perm s (AlignDownToPage a) = true.

Lemma load_bytes_spec path bytes fuel h s l r pos addr n :
  readable_file path bytes -> wf_heap h -> wf_space h s -> entry h (maps s) l r -> valid r = true -> open_range s r ->
  base_address r <= addr -> addr + Z.of_nat n <= limit_address r ->
  0 <= pos -> pos + Z.of_nat n <= Z.of_nat (length bytes) -> (n <= fuel)%nat ->
  exists h' s', load_bytes files can_open read_amount fuel h s path pos addr (Z.of_nat n) = Ok (h', s') /\
    frame h h' (maps s) /\ cache_step s s' /\ wf_space h' s' /\
    forall x, abs h' s' x = overlay (abs h s) addr (take n (drop (Z.to_nat pos) bytes)) x.
Proof.
  intros Hf. pose proof Hf as (_ & Hbytes & _).
  revert h s r pos addr n. induction fuel as [|fuel IH]; intros h s r pos addr n Hwf Hw He Hv Hop Hlo Hhi Hpos Hend Hfuel.
  { assert (n = O) as -> by lia. exists h, s. cbn. split_and!; try done; [by apply frame_refl|].
    intros x. by rewrite overlay_nil. }
  destruct n as [|n0].
  { exists h, s. cbn. split_and!; try done; [by apply frame_refl|]. intros x. by rewrite overlay_nil. }
  set (n := S n0) in *. assert (Hn : 0 < Z.of_nat n) by lia. clearbody n.
  cbn [load_bytes]. destruct (Z.eqb_spec (Z.of_nat n) 0); [lia|].
  assert (Hc : Contains r addr = true) by (apply Contains_iff; lia).
  destruct (space_pointer h s l r addr) as (s1 & Hst & Hw1 & Hptr); try done; [by apply Hop|].
  destruct (read_file_spec path bytes l (addr - base_address r) pos (Z.of_nat n)) as (k & Hk0 & Hkn & _ & Hrd & Hlen); try done; [lia|].
  set (now := take k (drop (Z.to_nat pos) bytes)) in *.
  assert (Hms1 : maps s1 = maps s) by apply (cache_step_maps _ _ Hst).
  destruct (store_entry h s1 l r addr now) as (h1 & h2 & HT & HS & Hfr & Ha);
    [done|done|by rewrite Hms1|done|by apply Forall_take, Forall_drop|by intros E; rewrite E in Hlen; cbn in Hlen; lia|done|lia|].
  rewrite (Hptr _ _ HT). cbn [mbind outcome_bind]. rewrite Hrd. rewrite HS. cbn [mbind outcome_bind]. rewrite Hlen.
  assert (He1 : entry h (maps s1) l r) by by rewrite Hms1.
  destruct (frame_entry _ _ _ _ _ Hfr He1) as (r2 & He2 & Hv2 & [Hb2 Hl2]).
  pose proof (wf_bounds h Hwf l r (proj2 He)) as Hbo. unfold bounds_ok in Hbo.
  rewrite add64_small, sub64_small by (unfold two64 in *; lia).
  replace (Z.of_nat n - Z.of_nat k) with (Z.of_nat (n - k)) by lia.
  destruct (IH h2 s1 r2 (pos + Z.of_nat k) (addr + Z.of_nat k) (n - k)%nat) as (h3 & s3 & -> & Hf3 & Hst3 & Hw3 & Ha3);
    try done; try lia; [apply Hfr|by eapply frame_wf_space|congruence| |].
  { intros a Ha'. rewrite (any_perm_step _ _ _ Hst). apply Hop. by rewrite Contains_iff, Hb2, Hl2, <- Contains_iff in Ha'. }
  rewrite Hms1 in *. exists h3, s3. split_and!; try done; [by eapply frame_trans|by etrans|].
  intros x. rewrite Ha3, (overlay_ext _ _ _ _ _ (Ha x)), <- Hlen, overlay_app.
  rewrite (overlay_ext _ (abs h s) _ _ _ (cache_step_abs s s1 h x Hst)). f_equal. rewrite Hlen. unfold now.
  replace (Z.to_nat (pos + Z.of_nat k)) with (Z.to_nat pos + k)%nat by lia. rewrite <- drop_drop.
  rewrite take_take_drop. f_equal. lia.
Qed.

(** ** One page range *)

Definition range_lo (page : PageRange) : Z := wrap64 (pr_base page).
Definition range_hi (page : PageRange) : Z := wrap64 (pr_limit page).

(** The bytes a page range describes. *)
Definition range_bytes (page : PageRange) : list Z :=
  let n := Z.to_nat (range_hi page - range_lo page) in
  if bool_decide (pr_kind page = kAnonymousZeroRange) then replicate n 0 else take n (default [] (files (pr_name page))).

(** A page range that can be loaded at or above [cur]. *)
Record range_loadable (mask cur : Z) (page : PageRange) : Prop := {
  rl_signed : pr_base page < pr_limit page;
  rl_base : aligned (range_lo page);
  rl_limit : aligned (range_hi page);
  rl_order : cur <= range_lo page < range_hi page;
  rl_top : range_hi page <= mask + 1 - kPageSize;
  rl_file : pr_kind page = kAnonymousZeroRange \/
    exists bytes, readable_file (pr_name page) bytes /\ range_hi page - range_lo page <= Z.of_nat (length bytes)
}.

(** A space that was created when the heap was [h0] and is loaded below
    [cur]: what lies above is unmapped, and nothing is shared with the spaces
    of [h0]. *)
Record loading (h0 : Heap) (mask : Z) (h : Heap) (s : AddressSpace) (cur : Z) : Prop := {
  lo_heap : wf_heap h;
  lo_space : wf_space h s;
  lo_mask : addr_mask s = mask;
  lo_cur : 0 <= cur;
  lo_keeps : keeps h0 h;
  lo_fresh l : l ∈ maps s -> objs h0 !! l = None;
  lo_bounds l r : entry h (maps s) l r -> base_address r <= cur /\ (valid r = true -> limit_address r <= cur);
  lo_others s2 : wf_space h0 s2 -> wf_space h s2 /\ forall a, abs h s2 a = abs h0 s2 a
}.

Lemma loading_isolated h0 mask h s cur s2 : loading h0 mask h s cur -> wf_space h0 s2 -> isolated h s s2.
Proof.
  intros Hlo Hw2 l r Hin [Hin2 _]. exfalso. destruct (wm_alive _ _ _ (ws_maps _ _ Hw2) l Hin2) as [r0 Hr0].
  pose proof (lo_fresh _ _ _ _ _ Hlo l Hin). congruence.
Qed.

(** Writing into a space that is being loaded. *)
Lemma loading_frame h0 mask h s cur h' s' :
  loading h0 mask h s cur -> frame h h' (maps s) -> cache_step s s' -> wf_space h' s' -> loading h0 mask h' s' cur.
Proof.
  intros Hlo Hf Hst Hw'. destruct (cache_step_maps _ _ Hst) as [Hms Hmask]. split; try done.
  - apply Hf.
  - rewrite Hmask. apply Hlo.
  - apply Hlo.
  - eapply keeps_trans; [apply Hlo|]. split; [apply Hf|]. intros l _. apply (fr_parent _ _ _ Hf).
  - rewrite Hms. apply Hlo.
  - intros l r' [Hin Hl]. rewrite Hms in Hin. destruct (frame_back _ _ _ _ _ Hf Hl) as (r & Hl0 & [Hb Hb'] & Hv).
    rewrite Hb, Hb', Hv. apply (lo_bounds _ _ _ _ _ Hlo l r). by split.
  - intros s2 Hw2. destruct (lo_others _ _ _ _ _ Hlo s2 Hw2) as [Hw2' Ha]. split; [by eapply frame_wf_space|].
    intros a. rewrite (frame_abs_other h h' s s2); [done|apply Hlo|done|apply Hlo|done|by eapply loading_isolated].
Qed.

Lemma loading_perms h0 mask h s cur s' :
  loading h0 mask h s cur -> wf_space h s' -> maps s' ≡ₚ maps s -> addr_mask s' = addr_mask s -> loading h0 mask h s' cur.
Proof.
  intros Hlo Hw' Hp Hm. split; try done; try apply Hlo.
  - rewrite Hm. apply Hlo.
  - intros l. rewrite Hp. apply Hlo.
  - intros l r [Hin Hl]. rewrite Hp in Hin. by apply (lo_bounds _ _ _ _ _ Hlo l r).
Qed.

(** Mapping above the cursor. *)
Lemma loading_map h0 mask h s cur base limit name_ offset_ :
  loading h0 mask h s cur -> aligned base -> aligned limit -> cur <= base < limit -> limit <= mask + 1 - kPageSize ->
  exists h1 s1, AddMap h s base (limit - base) name_ offset_ = Ok (h1, s1) /\ loading h0 mask h1 s1 limit /\
    (forall a, abs h1 s1 a = if decide (base <= a < limit) then Some 0 else abs h s a) /\
    perms_set s s1 base limit true true false /\
    exists l r, entry h1 (maps s1) l r /\ valid r = true /\ base_address r = base /\ limit_address r = limit.
Proof.
  intros Hlo Hab Hal Hord Htop. pose proof (lo_cur _ _ _ _ _ Hlo) as Hcur.
  pose proof (mask_u64 _ (ws_mask _ _ (lo_space _ _ _ _ _ Hlo))) as Hmu. rewrite (lo_mask _ _ _ _ _ Hlo) in Hmu.
  assert (kPageSize = 4096) as Hk by done.
  assert (Hub : u64 base) by (unfold u64 in *; lia).
  assert (Hd : AlignDownToPage base = base) by by apply AlignDownToPage_id.
  assert (Hr : RoundUpToPage (limit - base) = limit - base).
  { apply RoundUp_whole; [by apply aligned_sub|unfold u64 in Hmu; lia]. }
  assert (Hrl : request_limit base (limit - base) = limit) by (unfold request_limit; rewrite Hd, Hr; lia).
  destruct (AddMap_spec h s base (limit - base) name_ offset_) as (h1 & s1 & Heq & Hrp); [apply Hlo|apply Hlo| | |].
  { split; [done|lia|]. rewrite Hd, (lo_mask _ _ _ _ _ Hlo). lia. }
  { intros l r He. destruct (lo_bounds _ _ _ _ _ Hlo l r He) as [Hb Hl]. rewrite Hd.
    split; [unfold left_overlap; lia|]. intros Hkd. left.
    transitivity cur; [|lia]. apply Hl. unfold valid. by rewrite Hkd. }
  exists h1, s1. split; [done|]. pose proof (rp_entries _ _ _ _ _ _ _ _ _ _ Hrp) as Hent. rewrite Hd, Hrl in Hent.
  pose proof (rp_hext _ _ _ _ _ _ _ _ _ _ Hrp) as Hx.
  pose proof (rp_perms _ _ _ _ _ _ _ _ _ _ Hrp) as Hps. rewrite Hd, Hrl in Hps.
  assert (Habs : forall a, abs h1 s1 a = if decide (base <= a < limit) then Some 0 else abs h s a).
  { intros a. rewrite (rp_abs _ _ _ _ _ _ _ _ _ _ Hrp).
    assert (in_request base (limit - base) a <-> base <= a < limit) by (unfold in_request; by rewrite Hd, Hrl).
    repeat case_decide; tauto. }
  split; [|split_and!; [done|done|]].
  - split; try apply Hrp; try lia.
    + rewrite (rp_mask _ _ _ _ _ _ _ _ _ _ Hrp). apply Hlo.
    + eapply keeps_trans; [apply Hlo|by apply hext_keeps].
    + intros l Hin. destruct (wm_alive _ _ _ (ws_maps _ _ (rp_wf _ _ _ _ _ _ _ _ _ _ Hrp)) l Hin) as [r Hl].
      destruct (Hent l r) as [[Hin'|Hn] _]; [by split|by eapply lo_fresh|].
      destruct (objs h0 !! l) eqn:E; [|done]. destruct (keeps_alive h0 h l) as [? ?]; [apply Hlo|by rewrite E|]. congruence.
    + intros l r He. destruct (Hent l r He) as [_ [[-> ->]|(l1 & r1 & He1 & Hv & Hlim & Hb)]]; [split; lia|].
      destruct (lo_bounds _ _ _ _ _ Hlo l1 r1 He1) as [Hb1 Hl1]. split; [lia|]. rewrite Hv. intros ?%Hl1. lia.
    + intros s2 Hw2. destruct (lo_others _ _ _ _ _ Hlo s2 Hw2) as [Hw2' Ha].
      split; [eapply keeps_wf_space; [by apply hext_keeps|done]|]. intros a. rewrite <- Ha.
      apply abs_maps_hext; [apply Hlo|done|apply (ws_maps _ _ Hw2')].
  - destruct (abs_entry h1 s1 (rp_wf _ _ _ _ _ _ _ _ _ _ Hrp) base) as (l & r & He & Hv & Hc).
    { rewrite Habs. by rewrite decide_True by lia. }
    exists l, r. apply Contains_iff in Hc.
    destruct (Hent l r He) as [_ [[? ?]|(l1 & r1 & He1 & Hv1 & Hlim & Hb)]]; [done|].
    destruct (lo_bounds _ _ _ _ _ Hlo l1 r1 He1) as [Hb1 Hl1]. rewrite Hv1 in Hv. specialize (Hl1 Hv). lia.
Qed.

Local Abbreviation load_range := (load_range files can_open read_amount).
Local Abbreviation load_ranges := (load_ranges files can_open read_amount).

Lemma range_size_eq mask cur page :
  range_loadable mask cur page ->
  wrap64 (pr_limit page - pr_base page) = range_hi page - range_lo page /\
  sub64 (range_hi page) (range_lo page) = range_hi page - range_lo page.
Proof.
  intros Hl. pose proof (rl_order _ _ _ Hl). pose proof (wrap64_u64 (pr_base page)). pose proof (wrap64_u64 (pr_limit page)).
  fold (range_lo page) in *. fold (range_hi page) in *.
  assert (Hs : sub64 (range_hi page) (range_lo page) = range_hi page - range_lo page) by (apply sub64_small; unfold u64 in *; lia).
  split; [|done]. rewrite <- Hs. unfold sub64, range_hi, range_lo, wrap64. by rewrite <- Zminus_mod.
Qed.

(** The bytes of a range that is filled from its file, or left zero. *)
Lemma fill_range h0 mask h s page l r :
  loading h0 mask h s (range_hi page) -> range_loadable mask 0 page ->
  entry h (maps s) l r -> valid r = true -> open_range s r ->
  base_address r = range_lo page -> limit_address r = range_hi page ->
  (forall a, range_lo page <= a < range_hi page -> abs h s a = Some 0) ->
  exists h' s', (if bool_decide (pr_kind page = kAnonymousZeroRange) then Ok (h, s)
                 else LoadPageRangeFromFile files can_open read_amount h s page) = Ok (h', s') /\
    loading h0 mask h' s' (range_hi page) /\ cache_step s s' /\
    forall x, abs h' s' x = overlay (abs h s) (range_lo page) (range_bytes page) x.
Proof.
  intros Hlo Hl He Hv Hop Hb Hlim Hz. destruct (range_size_eq _ _ _ Hl) as [Hsz _]. pose proof (rl_order _ _ _ Hl) as Hord.
  unfold range_bytes. case_bool_decide as Hkind.
  - exists h, s. split_and!; try done. intros x. unfold overlay. rewrite length_replicate. case_decide as Hd; [|done].
    rewrite lookup_replicate_2 by lia. apply Hz. lia.
  - destruct (rl_file _ _ _ Hl) as [|(bytes & Hf & Hlen)]; [done|]. pose proof Hf as (Hfile & _).
    unfold LoadPageRangeFromFile. rewrite Hfile, bool_decide_eq_true_2 by done. cbn [check mbind outcome_bind].
    change (default [] (Some bytes)) with bytes. rewrite Hsz. destruct (Z.leb_spec (range_hi page - range_lo page) (Z.of_nat (length bytes))); [|lia].
    cbn [check mbind outcome_bind]. set (n := Z.to_nat (range_hi page - range_lo page)).
    replace (range_hi page - range_lo page) with (Z.of_nat n) by lia.
    destruct (load_bytes_spec (pr_name page) bytes n h s l r 0 (range_lo page) n) as (h' & s' & Heq & Hfr & Hst & Hw' & Ha);
      try done; try lia; [apply Hlo|apply Hlo|].
    exists h', s'. split; [done|]. split; [by eapply loading_frame|]. done.
Qed.

Lemma length_range_bytes mask cur page :
  range_loadable mask cur page -> Z.of_nat (length (range_bytes page)) = range_hi page - range_lo page.
Proof.
  intros Hl. pose proof (rl_order _ _ _ Hl) as Hord. unfold range_bytes. case_bool_decide as Hkd.
  - rewrite length_replicate. lia.
  - destruct (rl_file _ _ _ Hl) as [?|(bytes & (Hf & _) & Hlen)]; [done|]. rewrite Hf. cbn. rewrite length_take. lia.
Qed.

(** The pages of a fresh map can be accessed. *)
Lemma mapped_open s s1 r base limit :
  perms_set s s1 base limit true true false -> aligned base -> u64 base -> limit <= two64 ->
  base_address r = base -> limit_address r = limit -> open_range s1 r.
Proof.
  intros Hp Hab Hub Htop Hb Hlim a Hca%Contains_iff. rewrite Hb, Hlim in Hca.
  assert (Hua : u64 a) by (unfold u64 in *; lia). pose proof (AlignDownToPage_range a Hua).
  pose proof (AlignDownToPage_aligned a Hua) as Haa.
  unfold any_perm. destruct (Hp (AlignDownToPage a)) as (-> & _ & _).
  assert (in_pages base limit (AlignDownToPage a) = true) as ->; [|done].
  apply in_pages_iff. split; [done|]. destruct (Z.le_gt_cases base (AlignDownToPage a)); [lia|].
  pose proof (aligned_lt _ _ Haa Hab). lia.
Qed.

(** [SetPermissions] at the end of the loop body. *)
Lemma loading_protect h0 mask h s cur base limit r w x :
  loading h0 mask h s cur -> aligned base -> aligned limit -> 0 <= base < limit -> limit <= mask + 1 - kPageSize ->
  exists s', SetPermissions h s base (limit - base) r w x = Ok s' /\ loading h0 mask h s' cur /\
    (forall a, abs h s' a = abs h s a) /\ perms_set s s' base limit r w x.
Proof.
  intros Hlo Hab Hal Hord Htop. assert (kPageSize = 4096) as Hk by done.
  pose proof (mask_u64 _ (ws_mask _ _ (lo_space _ _ _ _ _ Hlo))) as Hmu. rewrite (lo_mask _ _ _ _ _ Hlo) in Hmu. unfold u64 in Hmu.
  assert (Hu : u64 base) by (unfold u64; lia).
  destruct (SetPermissions_spec h s base (limit - base) r w x) as (s' & Heq & Hw & Hpm & Hm & _ & Hps);
    [apply Hlo|apply (lo_space _ _ _ _ _ Hlo)|done|unfold u64; lia|].
  rewrite (AlignDownToPage_id _ Hu Hab), RoundUp_whole, add64_small in Hps by (try lia; by apply aligned_sub).
  replace (base + (limit - base)) with limit in Hps by lia.
  exists s'. split_and!; [done|by eapply loading_perms| |done].
  intros a. unfold abs. apply abs_maps_perm; [done|apply (ws_maps _ _ Hw)].
Qed.

Lemma load_range_spec h0 mask h s cur page :
  loading h0 mask h s cur -> range_loadable mask cur page ->
  exists h' s', load_range h s page = Ok (h', s') /\ loading h0 mask h' s' (range_hi page) /\
    (forall a, abs h' s' a = overlay (abs h s) (range_lo page) (range_bytes page) a) /\
    perms_set s s' (range_lo page) (range_hi page) (pr_can_read page) (pr_can_write page) (pr_can_exec page).
Proof.
  intros Hlo Hl. destruct (range_size_eq _ _ _ Hl) as [_ Hsz]. pose proof Hl as [Hsig Hab Hal Hord Htop Hfile].
  pose proof (lo_cur _ _ _ _ _ Hlo) as Hcur. pose proof (wrap64_u64 (pr_base page)) as Hu. fold (range_lo page) in Hu.
  unfold Workspace.load_range. rewrite (proj2 (Z.ltb_lt _ _) Hsig). cbn [check mbind outcome_bind]. cbv zeta.
  fold (range_lo page) (range_hi page). rewrite Hsz.
  destruct (loading_map h0 mask h s cur (range_lo page) (range_hi page) (range_path page) (wrap64 (default 0 (pr_file_offset page))))
    as (h1 & s1 & -> & Hlo1 & Habs & Hp1 & l & r & He & Hv & Hb & Hlim); try done.
  cbn [mbind outcome_bind].
  pose proof (wrap64_u64 (pr_limit page)) as Hul. fold (range_hi page) in Hul.
  assert (Hop : open_range s1 r) by (eapply mapped_open; try done; unfold u64 in Hul; lia).
  assert (Hl0 : range_loadable mask 0 page) by (split; try done; lia).
  destruct (fill_range h0 mask h1 s1 page l r) as (h2 & s2 & -> & Hlo2 & Hst & Ha2); try done.
  { intros a Hina. by rewrite Habs, decide_True. }
  cbn [mbind outcome_bind].
  destruct (loading_protect h0 mask h2 s2 (range_hi page) (range_lo page) (range_hi page) (pr_can_read page) (pr_can_write page) (pr_can_exec page))
    as (s3 & -> & Hlo3 & Ha3 & Hps); try done; [lia|].
  cbn [mbind outcome_bind]. exists h2, s3. split_and!; [done|done| |].
  - intros a. rewrite Ha3, Ha2. unfold overlay. rewrite (length_range_bytes _ _ _ Hl0).
    case_decide as Hdec; [done|]. rewrite Habs, decide_False; [done|]. lia.
  - eapply (perms_set_twice s s1); [done|]. intros p.
    destruct (cache_step_perms _ _ p Hst) as (E1 & E2 & E3). destruct (Hps p) as (-> & -> & ->). by rewrite E1, E2, E3.
Qed.

(** ** All page ranges of a space *)

(** Page ranges in the order of their addresses, without overlaps. *)
Fixpoint ascending (mask cur : Z) (pages : list PageRange) : Prop :=
  match pages with
  | [] => True
  | page :: pages => range_loadable mask cur page /\ ascending mask (range_hi page) pages
  end.

Definition in_range (page : PageRange) (a : Z) : Prop := range_lo page <= a < range_hi page.
Definition has_perms (s : AddressSpace) (p : Z) (r w x : bool) : Prop :=
  CanReadAligned s p = r /\ CanWriteAligned s p = w /\ CanExecuteAligned s p = x.

(** The space holds the page ranges, and elsewhere what [h0] and [s0] hold. *)
Record holds_over (h0 : Heap) (s0 : AddressSpace) (pages : list PageRange) (h : Heap) (s : AddressSpace) : Prop := {
  ho_bytes page a : page ∈ pages -> in_range page a -> abs h s a = range_bytes page !! Z.to_nat (a - range_lo page);
  ho_perms page p : page ∈ pages -> in_range page p -> aligned p ->
    has_perms s p (pr_can_read page) (pr_can_write page) (pr_can_exec page);
  ho_rest a : (forall page, page ∈ pages -> ~ in_range page a) -> abs h s a = abs h0 s0 a;
  ho_rest_perms p : (forall page, page ∈ pages -> ~ in_range page p) ->
    has_perms s p (CanReadAligned s0 p) (CanWriteAligned s0 p) (CanExecuteAligned s0 p)
}.

Lemma ascending_above mask cur pages page a :
  ascending mask cur pages -> page ∈ pages -> in_range page a -> cur <= a.
Proof.
  revert cur. induction pages as [|pg pages IH]; intros cur; [by intros _ ?%elem_of_nil|].
  intros [Hl Hasc] [->|Hin]%elem_of_cons Ha; pose proof (rl_order _ _ _ Hl) as Ho; unfold in_range in *; [lia|].
  specialize (IH _ Hasc Hin Ha). lia.
Qed.

Lemma perms_set_has s s' base limit r w x p :
  perms_set s s' base limit r w x -> aligned p ->
  if decide (base <= p < limit) then has_perms s' p r w x
  else has_perms s' p (CanReadAligned s p) (CanWriteAligned s p) (CanExecuteAligned s p).
Proof.
  intros Hp Hal. destruct (Hp p) as (E1 & E2 & E3). unfold has_perms. rewrite E1, E2, E3.
  destruct (in_pages base limit p) eqn:E; case_decide as Hd; try done.
  - apply in_pages_iff in E. tauto.
  - by rewrite (proj2 (in_pages_iff base limit p)) in E.
Qed.

Lemma load_ranges_spec h0 mask h s cur pages :
  loading h0 mask h s cur -> ascending mask cur pages ->
  exists h' s' cur', load_ranges h s pages = Ok (h', s') /\ loading h0 mask h' s' cur' /\ holds_over h s pages h' s'.
Proof.
  revert h s cur. induction pages as [|page pages IH]; intros h s cur Hlo; cbn [ascending Workspace.load_ranges].
  { intros _. exists h, s, cur. split_and!; [done|done|]. split; try done; by intros page ? ?%elem_of_nil. }
  intros [Hl Hasc]. destruct (load_range_spec h0 mask h s cur page Hlo Hl) as (h1 & s1 & -> & Hlo1 & Ha1 & Hp1).
  cbn [mbind outcome_bind]. destruct (IH h1 s1 _ Hlo1 Hasc) as (h2 & s2 & cur' & -> & Hlo2 & [Hb Hp Hr Hrp]).
  exists h2, s2, cur'. split_and!; [done|done|]. pose proof (length_range_bytes _ _ _ Hl) as Hlen.
  assert (Hsep : forall a, in_range page a -> forall pg, pg ∈ pages -> ~ in_range pg a).
  { intros a Ha pg Hpg Ha'. pose proof (ascending_above _ _ _ _ _ Hasc Hpg Ha'). unfold in_range in Ha. lia. }
  split.
  - intros pg a [->|Hin]%elem_of_cons Ha; [|by apply Hb]. rewrite Hr by by apply Hsep. rewrite Ha1.
    unfold overlay. unfold in_range in Ha. by rewrite decide_True by lia.
  - intros pg p [->|Hin]%elem_of_cons Ha Hal; [|by apply Hp].
    destruct (Hrp p) as (E1 & E2 & E3); [by apply Hsep|]. unfold has_perms. rewrite E1, E2, E3.
    pose proof (perms_set_has _ _ _ _ _ _ _ p Hp1 Hal) as Hh. by rewrite decide_True in Hh by apply Ha.
  - intros a Hn. rewrite Hr by (intros pg ?; by apply Hn, list_elem_of_further). rewrite Ha1.
    unfold overlay. rewrite decide_False; [done|]. rewrite Hlen. intros Ha.
    apply (Hn page); [by apply list_elem_of_here|unfold in_range; lia].
  - intros p Hn. destruct (Hrp p) as (E1 & E2 & E3); [intros pg ?; by apply Hn, list_elem_of_further|].
    unfold has_perms. rewrite E1, E2, E3. destruct (Hp1 p) as (-> & -> & ->).
    destruct (in_pages (range_lo page) (range_hi page) p) eqn:E; [|done]. exfalso.
    apply in_pages_iff in E as [_ E]. apply (Hn page); [by apply list_elem_of_here|done].
Qed.

(** ** A space of the snapshot *)

Context (address_size : Z).
Local Abbreviation mask := (GetAddressMask address_size).

Lemma AddressSpace_new_shape h h' s :
  wf_heap h -> AddressSpace_new h address_size = Ok (h', s) ->
  maps s = [next_loc h] /\ objs h' !! next_loc h = Some (MappedRangeBase_new InvalidMemoryMap 0 mask (Some "") 0) /\
  forall p, has_perms s p false false false.
Proof.
  intros Hwf. unfold AddressSpace_new. cbv zeta. cbn [CreateInvalid make_shared].
  set (r0 := MappedRangeBase_new _ _ _ _ _). set (h1 := MkHeap _ _).
  assert (Hl : objs h1 !! next_loc h = Some r0) by apply lookup_insert_eq.
  unfold CreatePageToRangeMap. cbn [maps resolve]. rewrite (get_Some h1 _ _ Hl). cbn [mbind outcome_bind].
  change (sort_maps [(next_loc h, r0)]) with [(next_loc h, r0)]. cbn [index_maps].
  assert (HI : IsValid h1 (next_loc h) = Ok false).
  { unfold IsValid, chain_fuel. cbn [IsValid_fuel]. by rewrite (get_Some h1 _ _ Hl). }
  rewrite HI. cbn [mbind outcome_bind]. by intros [= <- <-].
Qed.

Lemma new_space_loading h :
  wf_heap h ->
  exists h' s, AddressSpace_new h address_size = Ok (h', s) /\ loading h mask h' s 0 /\
    (forall a, abs h' s a = None) /\ forall p, has_perms s p false false false.
Proof.
  intros Hwf. destruct (AddressSpace_new_spec h address_size Hwf) as (h' & s & Heq & Hx & Hw & Hm & Ha).
  destruct (AddressSpace_new_shape h h' s Hwf Heq) as (Hms & Hl & Hp).
  exists h', s. split_and!; [done| |done|done]. split; try done.
  - apply Hx.
  - by apply hext_keeps.
  - intros l. rewrite Hms. intros ->%list_elem_of_singleton. destruct (objs h !! next_loc h) eqn:E; [|done].
    pose proof (wf_fresh h Hwf _ _ E). lia.
  - intros l r [Hin Hr]. rewrite Hms in Hin. apply list_elem_of_singleton in Hin as ->.
    rewrite Hl in Hr. injection Hr as <-. split; [done|]. by intros.
  - intros s2 Hw2. split; [eapply keeps_wf_space; [by apply hext_keeps|done]|]. intros a.
    apply abs_maps_hext; [done|done|apply (ws_maps _ _ Hw2)].
Qed.

(** The space holds exactly the page ranges. *)
Record holds (pages : list PageRange) (h : Heap) (s : AddressSpace) : Prop := {
  hd_wf : wf_space h s;
  hd_bytes page a : page ∈ pages -> in_range page a -> abs h s a = range_bytes page !! Z.to_nat (a - range_lo page);
  hd_perms page p : page ∈ pages -> in_range page p -> aligned p ->
    has_perms s p (pr_can_read page) (pr_can_write page) (pr_can_exec page);
  hd_unmapped a : (forall page, page ∈ pages -> ~ in_range page a) -> abs h s a = None;
  hd_no_perms p : (forall page, page ∈ pages -> ~ in_range page p) -> has_perms s p false false false
}.

Lemma holds_mono pages h h' s :
  holds pages h s -> wf_space h' s -> (forall a, abs h' s a = abs h s a) -> holds pages h' s.
Proof. intros [? ? ? ? ?] Hw Ha. split; try done; intros; rewrite Ha; eauto. Qed.

Lemma load_new_space h pages :
  wf_heap h -> ascending mask 0 pages ->
  exists h1 s1 h2 s2, AddressSpace_new h address_size = Ok (h1, s1) /\ load_ranges h1 s1 pages = Ok (h2, s2) /\
    wf_heap h2 /\ holds pages h2 s2 /\
    (keeps h h2 /\ forall l, l ∈ maps s2 -> objs h !! l = None) /\
    forall s, wf_space h s -> wf_space h2 s /\ forall a, abs h2 s a = abs h s a.
Proof.
  intros Hwf Hasc. destruct (new_space_loading h Hwf) as (h1 & s1 & Heq & Hlo & Ha & Hp).
  destruct (load_ranges_spec h mask h1 s1 0 pages Hlo Hasc) as (h2 & s2 & cur & Hr & Hlo2 & [Hb Hpm Hrs Hrp]).
  exists h1, s1, h2, s2. split_and!; [done|done|apply Hlo2| |apply Hlo2|apply Hlo2|apply (lo_others _ _ _ _ _ Hlo2)].
  split; try done; [apply Hlo2|..].
  - intros a Hn. by rewrite Hrs.
  - intros p Hn. destruct (Hp p) as (E1 & E2 & E3). pose proof (Hrp p Hn) as Hh. by rewrite E1, E2, E3 in Hh.
Qed.

(** ** The whole snapshot *)

Context {C OS : Type}.
Implicit Types (w : World C OS) (ids : gmap Z Z).
Local Abbreviation LoadSpace := (LoadAddressSpaceFromSnapshot files can_open read_amount address_size).
Local Abbreviation load_spaces := (load_spaces files can_open read_amount address_size).
Local Abbreviation LoadSnapshotIntoExecutor := (LoadSnapshotIntoExecutor files can_open read_amount address_size).

(** A space without a parent whose page ranges can be loaded. *)
Definition space_loadable (sp : SnapshotSpace) : Prop :=
  sp_parent_id sp = None /\ ascending mask 0 (sp_page_ranges sp).

(** The space [sp] of the snapshot was loaded. *)
Definition is_loaded ids w (sp : SnapshotSpace) : Prop :=
  exists memory s, ids !! sp_id sp = Some memory /\ memory < w_next w /\
    w_spaces w !! memory = Some s /\ holds (sp_page_ranges sp) (w_heap w) s.

Lemma load_space_spec ids w sp :
  wf_heap (w_heap w) -> ids !! sp_id sp = None -> space_loadable sp ->
  exists w', LoadSpace ids w sp = Ok (<[sp_id sp := w_next w]> ids, w') /\
    wf_heap (w_heap w') /\ w_exec w' = w_exec w /\ w_os w' = w_os w /\ w_running w' = w_running w /\
    is_loaded (<[sp_id sp := w_next w]> ids) w' sp /\
    forall sp2, is_loaded ids w sp2 -> is_loaded (<[sp_id sp := w_next w]> ids) w' sp2.
Proof.
  intros Hwf Hid [Hpar Hasc].
  destruct (load_new_space (w_heap w) (sp_page_ranges sp) Hwf Hasc) as (h1 & s1 & h2 & s2 & Hn & Hr & Hwf2 & Hh & _ & Ho).
  unfold LoadAddressSpaceFromSnapshot. rewrite Hid, bool_decide_eq_true_2, Hpar, Hn by done.
  cbn [check mbind outcome_bind]. rewrite Hr. cbn [mbind outcome_bind]. eexists. split; [done|]. cbn.
  split_and!; try done.
  - exists (w_next w), s2. cbn. rewrite !lookup_insert_eq. split_and!; [done|lia|done|done].
  - intros sp2 (m & s & Hm & Hlt & Hs & Hh2). exists m, s. rewrite lookup_insert_ne by congruence.
    cbn. rewrite lookup_insert_ne by lia. split_and!; try done; [lia|].
    destruct (Ho s (hd_wf _ _ _ Hh2)) as [Hw Ha]. by eapply holds_mono.
Qed.

Lemma load_spaces_spec ids w spaces :
  wf_heap (w_heap w) -> Forall (fun sp => ids !! sp_id sp = None) spaces -> NoDup (sp_id <$> spaces) -> Forall space_loadable spaces ->
  exists ids' w', load_spaces ids w spaces = Ok (ids', w') /\
    wf_heap (w_heap w') /\ w_exec w' = w_exec w /\ w_os w' = w_os w /\ w_running w' = w_running w /\
    Forall (is_loaded ids' w') spaces /\ forall sp, is_loaded ids w sp -> is_loaded ids' w' sp.
Proof.
  revert ids w. induction spaces as [|sp spaces IH]; intros ids w Hwf Hids Hnd Hl.
  { exists ids, w. by split_and!. }
  apply Forall_cons in Hids as [Hid Hids], Hl as [Hsp Hl]. cbn in Hnd. apply NoDup_cons in Hnd as [Hni Hnd].
  destruct (load_space_spec ids w sp Hwf Hid Hsp) as (w1 & Heq & Hwf1 & He1 & Ho1 & Hr1 & Hsp1 & Hold1).
  cbn [Workspace.load_spaces]. rewrite Heq. cbn [mbind outcome_bind].
  destruct (IH (<[sp_id sp := w_next w]> ids) w1) as (ids' & w' & -> & Hwf' & He & Ho & Hr & Hall & Hold); try done.
  { rewrite Forall_forall in *. intros sp2 Hin. rewrite lookup_insert_ne; [by apply Hids|].
    intros E. apply Hni. rewrite E. by apply list_elem_of_fmap_2. }
  exists ids', w'. split_and!; try congruence; [by constructor; [apply Hold|]|]. intros sp2 ?. by apply Hold, Hold1.
Qed.

Lemma load_tasks_spec ids w tasks :
  Forall (fun t => is_Some (ids !! st_address_space_id t)) tasks ->
  exists w', load_tasks ids w tasks = Ok w' /\ w_heap w' = w_heap w /\ w_spaces w' = w_spaces w /\ w_next w' = w_next w /\ w_os w' = w_os w /\
    w_running w' = w_running w /\ live_traces (w_exec w') = live_traces (w_exec w) /\
    initial_tasks (w_exec w') = initial_tasks (w_exec w) ++
      ((fun t => MkInitialTask (st_state t) (wrap64 (st_pc t)) (default 0 (ids !! st_address_space_id t))) <$> tasks).
Proof.
  revert w. induction tasks as [|t tasks IH]; intros w Hall; cbn [load_tasks].
  { exists w. cbn. by rewrite app_nil_r. }
  apply Forall_cons in Hall as [[m Hm] Hall]. rewrite Hm.
  destruct (IH (with_task w (st_state t) (wrap64 (st_pc t)) m) Hall) as (w' & -> & Hh & Hs & Hn & Ho & Hr & Hli & Ht).
  exists w'. split_and!; try done. rewrite Ht. cbn. rewrite Hm. cbn. by rewrite <- app_assoc.
Qed.

(** Loading a snapshot. *)
Lemma LoadSnapshotIntoExecutor_spec w snapshot :
  wf_heap (w_heap w) -> NoDup (sp_id <$> pg_address_spaces snapshot) ->
  Forall space_loadable (pg_address_spaces snapshot) ->
  Forall (fun t => st_address_space_id t ∈ (sp_id <$> pg_address_spaces snapshot)) (pg_tasks snapshot) ->
  exists w' ids, LoadSnapshotIntoExecutor snapshot w = Ok w' /\ wf_heap (w_heap w') /\ w_os w' = w_os w /\
    Forall (fun sp => exists memory s, ids !! sp_id sp = Some memory /\ w_spaces w' !! memory = Some s /\
              holds (sp_page_ranges sp) (w_heap w') s) (pg_address_spaces snapshot) /\
    initial_tasks (w_exec w') = initial_tasks (w_exec w) ++
      ((fun t => MkInitialTask (st_state t) (wrap64 (st_pc t)) (default 0 (ids !! st_address_space_id t))) <$> pg_tasks snapshot).
Proof.
  intros Hwf Hnd Hl Ht. unfold Workspace.LoadSnapshotIntoExecutor.
  destruct (load_spaces_spec ∅ w (pg_address_spaces snapshot)) as (ids & w1 & -> & Hwf1 & He1 & Ho1 & _ & Hall & _); try done.
  { apply Forall_forall. intros. apply lookup_empty. }
  cbn [mbind outcome_bind]. rewrite Forall_forall in Hall. rewrite Forall_forall in Ht.
  destruct (load_tasks_spec ids w1 (pg_tasks snapshot)) as (w2 & -> & Hh & Hs & _ & Ho & _ & _ & Hi).
  { apply Forall_forall. intros t (sp & -> & Hin)%Ht%list_elem_of_fmap. destruct (Hall sp Hin) as (m & s & Hm & _). eauto. }
  exists w2, ids. split_and!; [done|congruence|congruence| |congruence].
  apply Forall_forall. intros sp (m & s & Hm & _ & Hsm & Hh')%Hall. exists m, s. by rewrite Hs, Hh.
Qed.

(** C6: a snapshot can be loaded when its address spaces have distinct
    identifiers and no parents, the page ranges of each are page-aligned,
    ascending without overlaps, below the last page, and zero ranges or backed
    by files long enough that can be read, and each task names one of the
    spaces (as in the snapshots the snapshotter writes).  Loading it into an
    executor returns; every address space of the snapshot becomes a well-formed
    space that holds exactly the bytes of the files of its page ranges (zeroes
    for zero ranges) with exactly their permissions and maps nothing else, and
    the executor gets one initial task per snapshot task, in order, with its
    state, program counter and memory. *)
Theorem LoadSnapshotIntoExecutor_correct w snapshot :
  wf_heap (w_heap w) -> NoDup (sp_id <$> pg_address_spaces snapshot) ->
  Forall space_loadable (pg_address_spaces snapshot) ->
  Forall (fun t => st_address_space_id t ∈ (sp_id <$> pg_address_spaces snapshot)) (pg_tasks snapshot) ->
  exists w' ids, LoadSnapshotIntoExecutor snapshot w = Ok w' /\ wf_heap (w_heap w') /\ w_os w' = w_os w /\
    Forall (fun sp => exists memory s, ids !! sp_id sp = Some memory /\ w_spaces w' !! memory = Some s /\
              holds (sp_page_ranges sp) (w_heap w') s) (pg_address_spaces snapshot) /\
    initial_tasks (w_exec w') = initial_tasks (w_exec w) ++
      ((fun t => MkInitialTask (st_state t) (wrap64 (st_pc t)) (default 0 (ids !! st_address_space_id t))) <$> pg_tasks snapshot).
Proof. apply LoadSnapshotIntoExecutor_spec. Qed.
End loading.

(** A snapshot with one space of two page ranges; [read] delivers at most
    1000 bytes. *)
Definition demo_file : list Z := replicate 4096 7.
Definition demo_files (path : string) : option (list Z) := if bool_decide (path = "text") then Some demo_file else None.
Definition demo_read (path : string) (pos count : Z) : option Z := Some (Z.min count 1000).
Definition demo_text : PageRange := MkPageRange 4096 8192 true false true kAnonymousPageRange "text" None None.
Definition demo_bss : PageRange := MkPageRange 8192 16384 true true false kAnonymousZeroRange "bss" None None.
Definition demo_snapshot : Program :=
  MkProgram "amd64" "linux" ["demo"] [MkSnapshotSpace 1 None [demo_text; demo_bss]] [MkSnapshotTask 4096 [1; 2] 1].
Definition demo_world : World unit unit :=
  MkWorld (MkExecutor tt (MkCache (MkFile 0 ∅) 0 0) [] ∅ 0) empty_heap ∅ 0 tt false.

Lemma demo_text_readable : readable_file demo_files (fun _ => true) demo_read "text" demo_file.
Proof.
  split_and!; [done|by apply Forall_replicate|done|]. intros pos count _ Hc.
  exists (Z.min count 1000). split; [done|lia].
Qed.

Lemma LoadSnapshotIntoExecutor_correct_witness :
  exists w' m s, LoadSnapshotIntoExecutor demo_files (fun _ => true) demo_read 64 demo_snapshot demo_world = Ok w' /\
    initial_tasks (w_exec w') = [MkInitialTask [1; 2] 4096 m] /\ w_spaces w' !! m = Some s /\ abs (w_heap w') s 5000 = Some 7.
Proof.
  destruct (LoadSnapshotIntoExecutor_correct demo_files (fun _ => true) demo_read 64 demo_world demo_snapshot)
    as (w' & ids & Heq & _ & _ & Hall & Hi).
  - apply wf_empty_heap.
  - apply NoDup_singleton.
  - apply Forall_singleton. split; [done|]. cbn [ascending sp_page_ranges]. split_and!; [split..|done]; try (vm_compute; done); try (vm_compute; split; congruence).
    + right. exists demo_file. split; [apply demo_text_readable|vm_compute; congruence].
    + by left.
  - apply Forall_singleton. apply list_elem_of_here.
  - apply Forall_singleton in Hall as (m & s & Hm & Hs & Hh). exists w', m, s. cbn in Hm, Hi. rewrite Hm in Hi.
    split_and!; [done|done|done|]. rewrite (hd_bytes _ _ _ _ Hh demo_text 5000); [vm_compute; done|apply list_elem_of_here|vm_compute; split; congruence].
Defined.
