(* ===== verification/Snapshot.v ===== *)
(** * Taking snapshots

    Models [src/Snapshot.cpp]: starting a traced program, running it to a
    breakpoint, and saving its memory map, memory and threads; with the copies
    of thread state of [vmill/Arch/X86/Snapshot.cpp] and
    [vmill/Arch/AArch64/Snapshot.cpp].  What [waitpid], [ptrace], [/proc] and
    the files answer are parameters; logging is not modelled, nor is killing the
    tracee before a fatal error.  [SnapshotMain] has the entry point. *)

From S2P Require Import Prelude Pages ProgramSnapshot.
From Stdlib Require Import Ascii.

(** ** Arguments *)

(** [ExtractTraceeArgs]: the arguments of the snapshotter and those of the
    tracee, which follow ["--"]. *)
Fixpoint ExtractTraceeArgs (argv : list string) : option (list string * list string) :=
  match argv with
  | [] => None
  | arg :: argv =>
      if bool_decide (arg = "--") then Some ([], argv)
      else '(own, tracee) ← ExtractTraceeArgs argv; Some (arg :: own, tracee)
  end.

(** ** Waiting for the tracee *)

Definition SIGHUP : Z := 1.
Definition SIGQUIT : Z := 3.
Definition SIGTRAP : Z := 5.
Definition SIGABRT : Z := 6.
Definition SIGBUS : Z := 7.
Definition SIGFPE : Z := 8.
Definition SIGKILL : Z := 9.
Definition SIGSEGV : Z := 11.
Definition SIGPIPE : Z := 13.
Definition SIGTERM : Z := 15.
Definition SIGSTOP : Z := 19.
Definition PTRACE_EVENT_EXEC : Z := 4.
Definition EINTR : Z := 4.

Definition IsErrorSignal (sig : Z) : bool :=
  bool_decide (sig ∈ [SIGHUP; SIGQUIT; SIGABRT; SIGBUS; SIGFPE; SIGKILL; SIGSEGV; SIGPIPE; SIGTERM]).

(** The macros of [sys/wait.h] on a status word. *)
Definition WIFSTOPPED (status : Z) : bool := Z.land status 255 =? 127.
Definition WSTOPSIG (status : Z) : Z := Z.shiftr (Z.land status 65280) 8.
Definition WIFEXITED (status : Z) : bool := Z.land status 127 =? 0.
Definition WIFSIGNALED (status : Z) : bool := negb (Z.land status 127 =? 0) && negb (Z.land status 127 =? 127).

(** An answer of [waitpid]: the status of the tracee, or an error number. *)
Inductive Wait :=
| WaitStatus (status : Z)
| WaitError (err : Z).

(** What a loop does after an answer. *)
Inductive Verdict :=
| Arrived
| Again
| Dead.

(** The cases the four loops share; [arrived] is the first test on a stopped
    tracee. *)
Definition classify (arrived : Z -> bool) (w : Wait) : Verdict :=
  match w with
  | WaitStatus status =>
      if WIFSTOPPED status then
        if arrived status then Arrived
        else if IsErrorSignal (WSTOPSIG status) then Dead
        else Again
      else if WIFEXITED status then Dead
      else if WIFSIGNALED status then Dead
      else Again
  | WaitError err => if err =? EINTR then Again else Dead
  end.

Definition is_sigstop (status : Z) : bool := SIGSTOP =? WSTOPSIG status.
Definition is_exec_event (status : Z) : bool := Z.shiftr status 8 =? Z.lor SIGTRAP (Z.shiftl PTRACE_EVENT_EXEC 8).
Definition is_syscall_stop (status : Z) : bool := Z.lor SIGTRAP 128 =? WSTOPSIG status.
Definition is_sigtrap (status : Z) : bool := SIGTRAP =? WSTOPSIG status.

(** The loops take the answers of [waitpid] in order and return those that
    are left; waiting for an answer that does not come diverges. *)
Fixpoint wait_forever (arrived : Z -> bool) (waits : list Wait) : outcome (list Wait) :=
  match waits with
  | [] => Diverges
  | w :: waits =>
      match classify arrived w with
      | Arrived => Ok waits
      | Again => wait_forever arrived waits
      | Dead => Fatal
      end
  end.

Definition kMaxNumAttempts : nat := 10.

Fixpoint wait_attempts (arrived : Z -> bool) (attempts : nat) (waits : list Wait) : outcome (list Wait) :=
  match attempts, waits with
  | O, _ => Fatal
  | S _, [] => Diverges
  | S attempts, w :: waits =>
      match classify arrived w with
      | Arrived => Ok waits
      | Again => wait_attempts arrived attempts waits
      | Dead => Fatal
      end
  end.

(** [TraceSubprocess]; [options_set] is whether [PTRACE_SETOPTIONS] finds the
    process. *)
Definition TraceSubprocess (options_set : bool) (waits : list Wait) : outcome (list Wait) :=
  waits ← wait_forever is_sigstop waits;
  check options_set ;;
  Ok waits.

Definition RunUntilAfterExec (waits : list Wait) : outcome (list Wait) :=
  wait_attempts is_syscall_stop kMaxNumAttempts waits.

(** A system call stop inside [RunUntilInTracee] goes on to
    [RunUntilAfterExec]. *)
Definition RunUntilInTracee (waits : list Wait) : outcome (list Wait) :=
  waits ← wait_attempts is_exec_event kMaxNumAttempts waits;
  RunUntilAfterExec waits.

(** ** Breakpoints *)

(** The memory of the tracee; [PTRACE_PEEKTEXT] and [PTRACE_POKETEXT] move
    words of eight bytes. *)
Abbreviation TraceeMemory := (gmap Z Z).

Fixpoint peek_bytes (m : TraceeMemory) (addr : Z) (n : nat) : option (list Z) :=
  match n with
  | O => Some []
  | S n => b ← m !! addr; bs ← peek_bytes m (addr + 1) n; Some (b :: bs)
  end.
Definition PEEKTEXT (m : TraceeMemory) (addr : Z) : option Z := le_value <$> peek_bytes m addr 8.

Fixpoint poke_bytes (m : TraceeMemory) (addr : Z) (bs : list Z) : TraceeMemory :=
  match bs with
  | [] => m
  | b :: bs => poke_bytes (<[addr := b]> m) (addr + 1) bs
  end.
Definition POKETEXT (m : TraceeMemory) (addr word : Z) : option TraceeMemory :=
  if bool_decide (is_Some (peek_bytes m addr 8)) then Some (poke_bytes m addr (le_bytes 8 word)) else None.

(** [(old_text_word & (~0xFFL)) | 0xCCL] on 64-bit words. *)
Definition breakpoint_word (old_text_word : Z) : Z := Z.lor (Z.land old_text_word (not64 255)) 204.

(** The loop that runs the tracee until the breakpoint is hit: each answer of
    [waitpid] comes with the memory at that time; [None] is a failing
    [PTRACE_CONT]. *)
Fixpoint run_to_breakpoint (runs : list (option (Wait * TraceeMemory))) : outcome TraceeMemory :=
  match runs with
  | [] => Diverges
  | None :: _ => Fatal
  | Some (w, m) :: runs =>
      match classify is_sigtrap w with
      | Arrived => Ok m
      | Again => run_to_breakpoint runs
      | Dead => Fatal
      end
  end.

(** [RunUntilBreakpoint]; [run] is the tracee, from the memory with the
    breakpoint in it. *)
Definition RunUntilBreakpoint (breakpoint : Z) (run : TraceeMemory -> list (option (Wait * TraceeMemory))) (m : TraceeMemory) :
    outcome TraceeMemory :=
  match PEEKTEXT m breakpoint with
  | None => Fatal
  | Some old_text_word =>
      match POKETEXT m breakpoint (breakpoint_word old_text_word) with
      | None => Fatal
      | Some m =>
          m ← run_to_breakpoint (run m);
          Ok (default m (POKETEXT m breakpoint old_text_word))
      end
  end.

(** ** Scanning text *)

Definition ch (n : nat) : ascii := ascii_of_nat n.
Definition code (c : ascii) : Z := Z.of_nat (nat_of_ascii c).

Definition isspace (c : ascii) : bool := (code c =? 32) || ((9 <=? code c) && (code c <=? 13)).
Definition isdigit (c : ascii) : bool := (48 <=? code c) && (code c <=? 57).
Definition isalpha (c : ascii) : bool :=
  ((65 <=? code c) && (code c <=? 90)) || ((97 <=? code c) && (code c <=? 122)).
Definition isalnum (c : ascii) : bool := isdigit c || isalpha c.

(** The value of a digit in a base. *)
Definition digit_value (base : Z) (c : ascii) : option Z :=
  let v :=
    if isdigit c then code c - 48
    else if (97 <=? code c) && (code c <=? 122) then code c - 87
    else if (65 <=? code c) && (code c <=? 90) then code c - 55
    else 36 in
  if v <? base then Some v else None.

Fixpoint skip_space (s : string) : string :=
  match s with
  | EmptyString => EmptyString
  | String c s' => if isspace c then skip_space s' else s
  end.

(** The longest run of digits: its value from [acc] on and the rest. *)
Fixpoint scan_digits (base acc : Z) (s : string) : Z * string :=
  match s with
  | EmptyString => (acc, s)
  | String c s' =>
      match digit_value base c with
      | Some v => scan_digits base (acc * base + v) s'
      | None => (acc, s)
      end
  end.

(** At least one digit. *)
Definition scan_number (base : Z) (s : string) : option (Z * string) :=
  match s with
  | String c s' => v ← digit_value base c; Some (scan_digits base v s')
  | EmptyString => None
  end.

Definition scan_sign (s : string) : bool * string :=
  match s with
  | String c s' => if code c =? 45 then (true, s') else if code c =? 43 then (false, s') else (false, s)
  | EmptyString => (false, s)
  end.

(** [0x] in front of a hexadecimal number. *)
Definition scan_prefix (s : string) : string :=
  match s with
  | String c0 (String c1 s') =>
      if (code c0 =? 48) && ((code c1 =? 120) || (code c1 =? 88)) then s' else s
  | _ => s
  end.

(** [%lx]: values that do not fit are the largest one; a negated value wraps
    around. *)
Definition scan_x64 (s : string) : option (Z * string) :=
  let '(neg, s) := scan_sign (skip_space s) in
  '(v, s) ← scan_number 16 (scan_prefix s);
  Some (if two64 <=? v then two64 - 1 else if neg : bool then wrap64 (- v) else v, s).

(** [%x] into an [unsigned]. *)
Definition scan_x32 (s : string) : option (Z * string) := '(v, s) ← scan_x64 s; Some (wrap32 v, s).

(** [%ld], clamped to [int64_t] and stored in a [uint64_t]. *)
Definition scan_d64 (s : string) : option (Z * string) :=
  let '(neg, s) := scan_sign (skip_space s) in
  '(v, s) ← scan_number 10 s;
  Some (wrap64 (if neg : bool then Z.max (- 2 ^ 63) (- v) else Z.min (2 ^ 63 - 1) v), s).

(** [%d] into an [int]. *)
Definition scan_d32 (s : string) : option (Z * string) := '(v, s) ← scan_d64 s; Some (to_signed 32 v, s).

Definition scan_char (s : string) : option (ascii * string) :=
  match s with String c s => Some (c, s) | EmptyString => None end.

Definition scan_literal (c : nat) (s : string) : option string :=
  match s with String c' s => if bool_decide (c' = ch c) then Some s else None | EmptyString => None end.

(** [%s]: the characters up to the next white space, at least one. *)
Fixpoint word_of (s : string) : string :=
  match s with
  | String c s => if isspace c then "" else String c (word_of s)
  | EmptyString => ""
  end.
Definition scan_word (s : string) : string := word_of (skip_space s).

(** ** The memory map *)

(** The variables of [ReadPageInfoLine] that [sscanf] assigns, when it
    assigns at least ten; [ml_path] is empty when it does not assign the
    last one. *)
Record MapsLine := MkMapsLine {
  ml_begin : Z; ml_end : Z;
  ml_r : ascii; ml_w : ascii; ml_x : ascii; ml_p : ascii;
  ml_offset : Z; ml_dev_major : Z; ml_dev_minor : Z; ml_inode : Z;
  ml_path : string
}.

Definition scan_line (s : string) : option MapsLine :=
  '(b, s) ← scan_x64 s;
  s ← scan_literal 45 s;
  '(e, s) ← scan_x64 s;
  let s := skip_space s in
  '(r, s) ← scan_char s;
  '(w, s) ← scan_char s;
  '(x, s) ← scan_char s;
  '(p, s) ← scan_char s;
  '(offset, s) ← scan_x64 s;
  '(dev_major, s) ← scan_x32 s;
  s ← scan_literal 58 s;
  '(dev_minor, s) ← scan_x32 s;
  '(inode, s) ← scan_d64 s;
  Some (MkMapsLine b e r w x p offset dev_major dev_minor inode (scan_word s)).

(** [PageRangeName]. *)
Fixpoint page_range_name (seen_sym : bool) (line : string) : string :=
  match line with
  | EmptyString => ""
  | String c line =>
      if isalnum c then String c (page_range_name false line)
      else if (code c =? 13) || (code c =? 10) then ""
      else if seen_sym then page_range_name true line
      else String (ch 95) (page_range_name true line)
  end.
Definition PageRangeName (line : string) : string := page_range_name false line.

Definition PATH_MAX : nat := 4096.

(** [strstr]. *)
Definition strstr (s pat : string) : bool := bool_decide (is_Some (String.index 0 pat s)).

(** [GetMaxStackSize] for the soft limit of [RLIMIT_STACK]. *)
Definition GetMaxStackSize (rlim_cur : Z) : Z := Z.max rlim_cur (Z.shiftl 16 20).

Definition page_kind (path : string) : PageRangeKind :=
  if strstr path "[stack]" then kLinuxStackPageRange
  else if strstr path "[vvar]" then kLinuxVVarPageRange
  else if strstr path "[vdso]" then kLinuxVDSOPageRange
  else if strstr path "[vsyscall]" then kLinuxVSysCallPageRange
  else if strstr path "[heap]" then kLinuxHeapPageRange
  else if bool_decide (path = "") then kAnonymousPageRange
  else kFileBackedPageRange.

Definition int64 (z : Z) : Z := to_signed 64 z.

(** [ReadPageInfoLine]: the page range added for a line, [None] when the
    format is unexpected.  [path] never starts with a space, since [%s] skips
    them.  A path that does not fit [path_mem] overruns the buffer. *)
Definition ReadPageInfoLine (rlim_cur : Z) (line : string) : outcome (option PageRange) :=
  match scan_line line with
  | None => Ok None
  | Some ml =>
      if (PATH_MAX <? String.length (ml_path ml))%nat then Undefined
      else
        let path := ml_path ml in
        let k := page_kind path in
        let is_file := bool_decide (k = kFileBackedPageRange) in
        let new_stack_size := Z.max (sub64 (ml_end ml) (ml_begin ml)) (GetMaxStackSize rlim_cur) in
        Ok (Some (MkPageRange
          (int64 (if bool_decide (k = kLinuxStackPageRange) then sub64 (ml_end ml) new_stack_size else ml_begin ml))
          (int64 (ml_end ml))
          (bool_decide (ml_r ml = ch 114)) (bool_decide (ml_w ml = ch 119)) (bool_decide (ml_x ml = ch 120))
          k (PageRangeName line)
          (if is_file then Some path else None)
          (if is_file then Some (int64 (ml_offset ml)) else None)))
  end.

(** [ReadTraceePageMaps] on the lines of [/proc/<pid>/maps]. *)
Fixpoint ReadTraceePageMaps (rlim_cur : Z) (lines : list string) : outcome (list PageRange) :=
  match lines with
  | [] => Ok []
  | line :: lines =>
      o ← ReadPageInfoLine rlim_cur line;
      rest ← ReadTraceePageMaps rlim_cur lines;
      Ok (match o with Some info => info :: rest | None => rest end)
  end.

(** [GetTIDs]: the names in [/proc/<pid>/task] that are numbers, [None] when
    the directory cannot be opened. *)
Definition tid_of (d_name : string) : option Z :=
  '(tid, rest) ← scan_d32 d_name;
  if bool_decide (rest = "") && (0 <=? tid) then Some tid else None.
Definition GetTIDs (dir : option (list string)) : outcome (list Z) :=
  match dir with Some names => Ok (omap tid_of names) | None => Fatal end.

(** ** Copying memory *)

Definition kPageBuffSize : Z := 4096.

(** [lseek(fd, i)] and [write(fd, bytes)] on the bytes of a file; a gap reads
    as zero. *)
Definition write_at (file : list Z) (i : Z) (bytes : list Z) : list Z :=
  let n := Z.to_nat i in
  (take n file ++ replicate (n - length file) 0 ++ bytes ++ drop (n + length bytes) file)%list.

Section copying.
(** [open] and [read] of the files that are mapped, at a position; what
    [read] delivers from [/proc/<pid>/mem] at an address; whether a file of
    the workspace can be created. *)
Context (mapped_file : string -> option (Z -> Z -> list Z)).
Context (mem_read : Z -> Z -> list Z) (can_create : string -> bool).
Context (tracee : TraceeMemory).

(** [CopyTraceeMemoryWithPtrace]: words until [size] bytes are there, [None]
    when one cannot be read. *)
Fixpoint copy_words (n : nat) (addr : Z) : option (list Z) :=
  match n with
  | O => Some []
  | S n => word ← PEEKTEXT tracee addr; rest ← copy_words n (add64 addr 8); Some (le_bytes 8 word ++ rest)%list
  end.
Definition CopyTraceeMemoryWithPtrace (addr size : Z) : option (list Z) :=
  copy_words (Z.to_nat ((size + 7) / 8)) addr.

(** The loop over the backing file: the position advances by what each
    [read] delivers, and only whole pages are written. *)
Fixpoint copy_backing (read : Z -> Z -> list Z) (pos : Z) (offs : list Z) (dest : list Z) : list Z :=
  match offs with
  | [] => dest
  | i :: offs =>
      let bytes := read pos kPageBuffSize in
      let n := Z.of_nat (length bytes) in
      copy_backing read (pos + n) offs (if kPageBuffSize =? n then write_at dest i bytes else dest)
  end.

(** A page of the tracee, from [/proc/<pid>/mem] or else with [ptrace]. *)
Definition tracee_page (page_addr : Z) : option (list Z) :=
  let bytes := mem_read page_addr kPageBuffSize in
  if kPageBuffSize =? Z.of_nat (length bytes) then Some bytes
  else CopyTraceeMemoryWithPtrace page_addr kPageBuffSize.

Fixpoint copy_pages (base : Z) (offs : list Z) (dest : list Z) : list Z :=
  match offs with
  | [] => dest
  | i :: offs =>
      copy_pages base offs
        (match tracee_page (add64 (wrap64 base) i) with Some bytes => write_at dest i bytes | None => dest end)
  end.

(** The body of the loop of [CopyTraceeMemory]: the contents of the file of a
    page range.  [ftruncate] fails for sizes that are not an [off_t]; both
    page loops run over the same offsets. *)
Definition range_file (info : PageRange) : outcome (list Z) :=
  check (can_create (pr_name info)) ;;
  let size_to_copy := wrap64 (pr_limit info - pr_base info) in
  let dest := if size_to_copy <? 2 ^ 63 then replicate (Z.to_nat size_to_copy) 0 else [] in
  offs ← pages 0 size_to_copy;
  let dest :=
    if bool_decide (pr_kind info = kFileBackedPageRange) then
      match mapped_file (default "" (pr_file_path info)) with
      | Some read => copy_backing read (default 0 (pr_file_offset info)) offs dest
      | None => dest
      end
    else dest in
  Ok (copy_pages (pr_base info) offs dest).

(** [CopyTraceeMemory] on the files of the workspace. *)
Fixpoint CopyTraceeMemory (files : gmap string (list Z)) (page_ranges : list PageRange) : outcome (gmap string (list Z)) :=
  match page_ranges with
  | [] => Ok files
  | info :: page_ranges => dest ← range_file info; CopyTraceeMemory (<[pr_name info := dest]> files) page_ranges
  end.
End copying.

(** ** Threads *)

(** A register structure of the host, by field, and the [State] of remill, by
    field; a field that is not set is zero. *)
Definition Registers := string -> Z.
Abbreviation State := (gmap string Z).

Definition bit (z n : Z) : Z := Z.b2z (Z.testbit z n).

(** The fields of [state.gpr] and the registers they are copied from. *)
Definition x86_gprs : list (string * string) :=
  [("gpr.rax", "rax"); ("gpr.rbx", "rbx"); ("gpr.rcx", "rcx"); ("gpr.rdx", "rdx"); ("gpr.rsi", "rsi"); ("gpr.rdi", "rdi");
   ("gpr.rsp", "rsp"); ("gpr.rbp", "rbp"); ("gpr.r8", "r8"); ("gpr.r9", "r9"); ("gpr.r10", "r10"); ("gpr.r11", "r11");
   ("gpr.r12", "r12"); ("gpr.r13", "r13"); ("gpr.r14", "r14"); ("gpr.r15", "r15"); ("gpr.rip", "rip")].
(** The flags that are copied out of [rflags], with their bits. *)
Definition x86_flags : list (string * Z) :=
  [("aflag.pf", 2); ("aflag.af", 4); ("aflag.zf", 6); ("aflag.sf", 7); ("aflag.df", 10); ("aflag.of", 11)].
Definition x86_segs : list (string * string) :=
  [("seg.cs", "cs"); ("seg.ds", "ds"); ("seg.fs", "fs"); ("seg.gs", "gs"); ("seg.es", "es"); ("seg.ss", "ss")].

Definition set_fields {A} (f : A -> Z) (fields : list (string * A)) (state : State) : State :=
  foldl (fun st '(field, a) => <[field := f a]> st) state fields.

Definition field (state : State) (name : string) : Z := default 0 (state !! name).

(** One slot of the floating point stack: the exponent word, the MMX view and
    the value converted to [double]. *)
Record FpuSlot := MkFpuSlot { infinity : Z; mmx : Z; as_double : Z }.

(** The decimal digit of an index below ten. *)
Definition digit (i : nat) : string := String (ascii_of_nat (48 + i)) "".

Definition copy_slot (state : State) (slot : nat * FpuSlot) : State :=
  let '(i, s) := slot in
  let state := if infinity s =? 65535 then <["mmx" +:+ digit i := mmx s]> state else state in
  <["st" +:+ digit i := as_double s]> state.

(** [TryGetDescriptorBase] for a selector, into a register whose upper half
    is kept. *)
Definition descriptor_base (descriptor : Z -> option Z) (selector old : Z) : Z :=
  match descriptor (Z.shiftr selector 3) with
  | Some base_addr => Z.lor (Z.shiftl (Z.shiftr old 32) 32) (wrap32 base_addr)
  | None => old
  end.

(** [CopyX86TraceeState]: the task that is added.  The registers are not
    initialised when [PTRACE_GETREGS] fails.  [serialize] are the bytes of the
    structure. *)
Definition CopyX86TraceeState (is_x86 : bool) (breakpoint : Z) (regs : option Registers) (descriptor : Z -> option Z)
    (slots : list FpuSlot) (serialize : State -> list Z) (memory_id : Z) : outcome SnapshotTask :=
  regs ← deref_opt regs;
  let state := <["rflag" := regs "eflags"]> ∅ in
  let state := set_fields (bit (regs "eflags")) x86_flags state in
  let state := set_fields regs x86_gprs state in
  let state := if breakpoint =? 0 then state else <["gpr.rip" := sub64 (field state "gpr.rip") 1]> state in
  let state := set_fields (fun reg => regs reg mod 65536) x86_segs state in
  let state := <["addr.gs_base" := regs "gs_base"]> (<["addr.fs_base" := regs "fs_base"]> state) in
  let state :=
    if is_x86 then
      let state :=
        if field state "addr.gs_base" =? 0 then
          <["addr.gs_base" := descriptor_base descriptor (field state "seg.gs") (field state "addr.gs_base")]> state
        else state in
      if field state "addr.fs_base" =? 0 then
        <["addr.fs_base" := descriptor_base descriptor (field state "seg.fs") (field state "addr.fs_base")]> state
      else state
    else state in
  let state := foldl copy_slot state (imap (fun i s => (i, s)) slots) in
  Ok (MkSnapshotTask (int64 (field state "gpr.rip")) (serialize state) memory_id).

(** The registers of the AArch64 [State]. *)
Definition aarch64_number (i : nat) : string := if (i <? 10)%nat then digit i else digit (i / 10) +:+ digit (i mod 10).
Definition aarch64_gprs : list (string * string) :=
  (((fun i => ("gpr.x" +:+ aarch64_number i, "x" +:+ aarch64_number i)) <$> seq 0 31) ++ [("gpr.sp", "sp"); ("gpr.pc", "pc")])%list.
Definition aarch64_flags : list (string * Z) :=
  [("nzcv.n", 31); ("nzcv.z", 30); ("nzcv.c", 29); ("nzcv.v", 28); ("sr.n", 31); ("sr.z", 30); ("sr.c", 29); ("sr.v", 28)].
Definition aarch64_fpsr : list (string * Z) := [("sr.idc", 7); ("sr.ofc", 2); ("sr.ixc", 4); ("sr.ufc", 3)].

(** [CopyAArch64TraceeState]; the structures start zeroed, so a request that
    fails leaves zeroes. *)
Definition CopyAArch64TraceeState (regs fpregs : Registers) (tpidr_el0 : Z) (serialize : State -> list Z) (memory_id : Z) :
    outcome SnapshotTask :=
  let state := set_fields regs aarch64_gprs ∅ in
  let state := set_fields (bit (regs "pstate")) aarch64_flags state in
  let state := <["fpcr" := fpregs "fpcr"]> (<["fpsr" := fpregs "fpsr"]> state) in
  let state := set_fields (bit (fpregs "fpsr")) aarch64_fpsr state in
  let state := set_fields fpregs ((fun i => ("simd.v" +:+ aarch64_number i, "v" +:+ aarch64_number i)) <$> seq 0 32) state in
  let state := <["sr.tpidr_el0" := tpidr_el0]> state in
  Ok (MkSnapshotTask (int64 (field state "gpr.pc")) (serialize state) memory_id).

(** ** The snapshot *)

(** The architectures of remill that the snapshotter tells apart. *)
Inductive ArchName :=
| kArchX86
| kArchX86_AVX
| kArchX86_AVX512
| kArchAMD64
| kArchAMD64_AVX
| kArchAMD64_AVX512
| kArchAArch64LittleEndian
| kArchOther.

(** [CloseFdsOnExec]: the descriptors of the new process that are set to
    close on [exec]; [None] is a directory that cannot be opened or listed. *)
Definition closed_fd (d_name : string) : option Z :=
  '(fd, _) ← scan_d32 d_name;
  if bool_decide (fd ∈ [0; 1; 2]) then None else Some fd.
Definition CloseFdsOnExec (fcntl_succeeds : Z -> bool) (dir : option (list string)) : outcome (list Z) :=
  match dir with
  | None => Fatal
  | Some names => let fds := omap closed_fd names in check (forallb fcntl_succeeds fds) ;; Ok fds
  end.

(** [EnableTracing]: whether each [PTRACE_TRACEME] succeeds. *)
Definition EnableTracing (traceme : nat -> bool) : outcome unit := check (existsb traceme (seq 0 kMaxNumAttempts)).

(** The child's side of [SnapshotProgram] up to [execvpe]: the descriptors
    that will be closed and the variables that are set; [has_tz] is whether
    [TZ] is already there. *)
Definition start_tracee (traceme : nat -> bool) (fcntl_succeeds : Z -> bool) (dir : option (list string))
    (setenv_succeeds : string -> bool) (has_tz exec_succeeds : bool) : outcome (list Z * list (string * string)) :=
  EnableTracing traceme ;;
  fds ← CloseFdsOnExec fcntl_succeeds dir;
  check (setenv_succeeds "LD_BIND_NOW") ;;
  check (has_tz || setenv_succeeds "TZ") ;;
  check exec_succeeds ;;
  Ok (fds, ("LD_BIND_NOW", "1") :: if has_tz then [] else [("TZ", ":/etc/localtime")]).

(** What the snapshotter sees of a stopped tracee. *)
Record TraceeView := MkTraceeView {
  tv_maps : list string;
  tv_task : option (list string);
  tv_mem_read : Z -> Z -> list Z;
  tv_memory : TraceeMemory
}.

Section program.
Context (rlim_cur : Z) (mapped_file : string -> option (Z -> Z -> list Z)) (can_create : string -> bool).
(** [CopyX86TraceeState] or [CopyAArch64TraceeState] for a thread. *)
Context (copy_x86 copy_aarch64 : Z -> Z -> outcome SnapshotTask).

Definition copy_thread (arch : ArchName) (memory_id tid : Z) : outcome SnapshotTask :=
  match arch with
  | kArchX86 | kArchX86_AVX | kArchX86_AVX512 | kArchAMD64 | kArchAMD64_AVX | kArchAMD64_AVX512 => copy_x86 tid memory_id
  | kArchAArch64LittleEndian => copy_aarch64 tid memory_id
  | kArchOther => Fatal
  end.

Fixpoint copy_threads (arch : ArchName) (memory_id : Z) (tids : list Z) : outcome (list SnapshotTask) :=
  match tids with
  | [] => Ok []
  | tid :: tids =>
      t ← copy_thread arch memory_id tid;
      ts ← copy_threads arch memory_id tids;
      Ok (t :: ts)
  end.

(** [SnapshotTracee]: the snapshot and the files in the memory directory of
    the workspace; writing the snapshot file is [saved]. *)
Definition SnapshotTracee (arch : ArchName) (saved : Program -> bool) (arch_flag os_flag : string) (argv : list string)
    (files : gmap string (list Z)) (tracee : TraceeView) : outcome (Program * gmap string (list Z)) :=
  let memory_id := 1 in
  page_ranges ← ReadTraceePageMaps rlim_cur (tv_maps tracee);
  files ← CopyTraceeMemory mapped_file (tv_mem_read tracee) can_create (tv_memory tracee) files page_ranges;
  tids ← GetTIDs (tv_task tracee);
  tasks ← copy_threads arch memory_id tids;
  let snapshot := MkProgram arch_flag os_flag argv [MkSnapshotSpace memory_id None page_ranges] tasks in
  check (saved snapshot) ;;
  Ok (snapshot, files).

(** The parent's side of [SnapshotProgram], after a successful [fork].
    [run m] is what the tracee does from memory [m] on; [view m] is what is
    seen of it when it is stopped with memory [m]. *)
Definition SnapshotProgram (breakpoint : Z) (options_set : bool) (waits : list Wait) (m : TraceeMemory)
    (run : TraceeMemory -> list (option (Wait * TraceeMemory))) (view : TraceeMemory -> TraceeView)
    (arch : ArchName) (saved : Program -> bool) (arch_flag os_flag : string) (argv : list string) (files : gmap string (list Z)) :
    outcome (Program * gmap string (list Z)) :=
  waits ← TraceSubprocess options_set waits;
  _ ← RunUntilInTracee waits;
  m ← (if breakpoint =? 0 then Ok m else RunUntilBreakpoint breakpoint run m);
  SnapshotTracee arch saved arch_flag os_flag argv files (view m).
End program.

From Stdlib Require Import Ascii.
(** ** The snapshotter

    Models the entry point of [src/Snapshot.cpp]: the command line, the log
    line with the tracee's command, [fork] and writing the snapshot file.
    [Snapshot] has what the two processes do.  Parsing of flags, names of
    architectures and the generated serializer are parameters. *)

Module SnapshotMain.
(** ** The logged command *)

Definition quote : ascii := ascii_of_nat 34.
Definition backslash : ascii := ascii_of_nat 92.
Definition space : ascii := ascii_of_nat 32.

(** [EscapeQuotedArg] *)
Fixpoint EscapeQuotedArg (arg : string) : string :=
  match arg with
  | EmptyString => EmptyString
  | String chr arg =>
      if bool_decide (chr = quote) then String backslash (String chr (EscapeQuotedArg arg))
      else String chr (EscapeQuotedArg arg)
  end.

(** [strchr(arg, ' ')] *)
Fixpoint has_char (c : ascii) (s : string) : bool :=
  match s with EmptyString => false | String d s => bool_decide (d = c) || has_char c s end.

(** One argument in the line, with the space after it. *)
Definition log_arg (arg : string) : string :=
  if has_char space arg then String quote (EscapeQuotedArg arg +:+ String quote (String space EmptyString))
  else arg +:+ String space EmptyString.

(** [LogPrepareExec]: the line. *)
Definition LogPrepareExec (argv : list string) : string := foldr (fun arg line => log_arg arg +:+ line) EmptyString argv.

(** How the line is meant to be read back: words are separated by spaces,
    quoted words may contain spaces, and a backslash protects a quote. *)
Fixpoint read_quoted (s : string) : option (string * string) :=
  match s with
  | EmptyString => None
  | String c s =>
      if bool_decide (c = quote) then Some (EmptyString, s)
      else if bool_decide (c = backslash) then
        match s with
        | String d s' =>
            if bool_decide (d = quote) then '(w, rest) ← read_quoted s'; Some (String quote w, rest)
            else '(w, rest) ← read_quoted s; Some (String c w, rest)
        | EmptyString => None
        end
      else '(w, rest) ← read_quoted s; Some (String c w, rest)
  end.

Fixpoint read_plain (s : string) : option (string * string) :=
  match s with
  | EmptyString => None
  | String c s =>
      if bool_decide (c = space) then Some (EmptyString, s)
      else '(w, rest) ← read_plain s; Some (String c w, rest)
  end.

Definition read_word (s : string) : option (string * string) :=
  match s with
  | String c s' =>
      if bool_decide (c = quote) then
        '(w, rest) ← read_quoted s';
        match rest with String d rest => if bool_decide (d = space) then Some (w, rest) else None | EmptyString => None end
      else read_plain s
  | EmptyString => None
  end.

Fixpoint read_words (n : nat) (s : string) : option (list string) :=
  match n with
  | O => match s with EmptyString => Some [] | _ => None end
  | S n => '(w, rest) ← read_word s; ws ← read_words n rest; Some (w :: ws)
  end.

(** ** Writing the snapshot *)

(** [SaveSnapshotFile] *)
Definition SaveSnapshotFile (can_open : string -> bool) (SerializePartialToOstream : Program -> bool) (path : string) (gSnapshot : Program) :
    outcome unit :=
  check (can_open path) ;; check (SerializePartialToOstream gSnapshot).

(** ** [main] *)

(** What runs after [fork]: the parent traces the child, the child becomes
    the tracee. *)
Inductive Process := Parent (pid : Z) | Child.

Definition fork_returns (pid : Z) : outcome Process :=
  if pid =? 0 then Ok Child else check (negb (pid =? -1)) ;; Ok (Parent pid).

Section main.
Context {Flags : Type} (ParseCommandLineFlags : list string -> Flags) (FLAGS_arch FLAGS_os : Flags -> string).
Context (GetArchName : string -> option ArchName) (GetOSName : string -> bool).
(** The parent and the child of [SnapshotProgram]; the parent's answer is the
    snapshot it has written. *)
Context {R : Type} (parent : Flags -> Z -> ArchName -> list string -> outcome R) (child : list string -> outcome R).

(** [SnapshotProgram]: [pid] is the answer of [fork]. *)
Definition SnapshotProgram_fork (pid : Z) (flags : Flags) (arch : ArchName) (gTraceeArgv : list string) : outcome (string * R) :=
  let line := LogPrepareExec gTraceeArgv in
  process ← fork_returns pid;
  r ← match process with Parent pid => parent flags pid arch gTraceeArgv | Child => child gTraceeArgv end;
  Ok (line, r).

(** [main]: the flags are parsed from the arguments in front of ["--"]. *)
Definition Snapshot_main (pid : Z) (argv : list string) : outcome (string * R) :=
  let got_tracee_args := ExtractTraceeArgs argv in
  let own := match got_tracee_args with Some (own, _) => own | None => argv end in
  let flags := ParseCommandLineFlags own in
  gTraceeArgv ← match got_tracee_args with Some (_, tracee) => Ok tracee | None => Fatal end;
  arch_name ← match GetArchName (FLAGS_arch flags) with Some a => Ok a | None => Fatal end;
  check (GetOSName (FLAGS_os flags)) ;;
  SnapshotProgram_fork pid flags arch_name gTraceeArgv.

(** Flags of the tracee are not the snapshotter's. *)
Lemma Snapshot_main_args pid own tracee arch :
  ~ "--" ∈ own -> let flags := ParseCommandLineFlags own in
  GetArchName (FLAGS_arch flags) = Some arch -> GetOSName (FLAGS_os flags) = true ->
  Snapshot_main pid (own ++ "--" :: tracee) = SnapshotProgram_fork pid flags arch tracee.
Proof.
  intros Hn flags Ha Ho. unfold Snapshot_main.
  assert (He : ExtractTraceeArgs (own ++ "--" :: tracee) = Some (own, tracee)).
  { clear Ha Ho flags. induction own as [|a own IH]; cbn [app ExtractTraceeArgs]; [by rewrite bool_decide_true by done|].
    rewrite bool_decide_false by set_solver. rewrite IH by set_solver. done. }
  rewrite He. cbn [mbind outcome_bind]. fold flags. by rewrite Ha, Ho.
Qed.
End main.

(** ** The line can be read back *)

Fixpoint no_char (c : ascii) (s : string) : Prop := match s with EmptyString => True | String d s => d <> c /\ no_char c s end.

Lemma read_quoted_escape arg rest :
  no_char backslash arg -> read_quoted (EscapeQuotedArg arg +:+ String quote rest) = Some (arg, rest).
Proof.
  induction arg as [|c arg IH]; intros Hb; cbn [EscapeQuotedArg].
  { change (EmptyString +:+ String quote rest) with (String quote rest). cbn [read_quoted]. by rewrite bool_decide_true. }
  destruct Hb as [Hc Hb]. specialize (IH Hb).
  destruct (decide (c = quote)) as [->|Hq].
  - rewrite bool_decide_true by done.
    change (String backslash (String quote (EscapeQuotedArg arg)) +:+ String quote rest) with
      (String backslash (String quote (EscapeQuotedArg arg +:+ String quote rest))).
    cbn [read_quoted]. rewrite (bool_decide_false (backslash = quote)) by done. rewrite !bool_decide_true by done. by rewrite IH.
  - rewrite bool_decide_false by done.
    change (String c (EscapeQuotedArg arg) +:+ String quote rest) with (String c (EscapeQuotedArg arg +:+ String quote rest)).
    cbn [read_quoted]. rewrite !bool_decide_false by done. by rewrite IH.
Qed.

Lemma read_plain_arg arg rest : has_char space arg = false -> read_plain (arg +:+ String space rest) = Some (arg, rest).
Proof.
  induction arg as [|c arg IH]; intros Hs.
  { change (EmptyString +:+ String space rest) with (String space rest). cbn [read_plain]. by rewrite bool_decide_true. }
  cbn [has_char] in Hs. apply orb_false_iff in Hs as [Hc Hs]. apply bool_decide_eq_false in Hc.
  change (String c arg +:+ String space rest) with (String c (arg +:+ String space rest)).
  cbn [read_plain]. rewrite bool_decide_false by done. by rewrite IH.
Qed.

(** The logged line, read back word by word, is the command of the tracee,
    provided no argument contains a backslash or starts with a quote. *)
Theorem logged_command_roundtrip argv :
  Forall (fun arg => no_char backslash arg /\ match arg with String c _ => c <> quote | EmptyString => True end) argv ->
  read_words (length argv) (LogPrepareExec argv) = Some argv.
Proof.
  induction 1 as [|arg argv [Hb Hq] _ IH]; [done|]. cbn [length read_words LogPrepareExec foldr].
  assert (Hw : read_word (log_arg arg +:+ LogPrepareExec argv) = Some (arg, LogPrepareExec argv)).
  { unfold log_arg. destruct (has_char space arg) eqn:Hs.
    - change (read_word (String quote ((EscapeQuotedArg arg +:+ String quote (String space EmptyString)) +:+ LogPrepareExec argv)) =
        Some (arg, LogPrepareExec argv)).
      cbn [read_word]. rewrite bool_decide_true by done. rewrite string_app_assoc.
      change (String quote (String space EmptyString) +:+ LogPrepareExec argv) with (String quote (String space (LogPrepareExec argv))).
      rewrite read_quoted_escape by done. cbn. by rewrite bool_decide_true.
    - rewrite string_app_assoc. change (String space EmptyString +:+ LogPrepareExec argv) with (String space (LogPrepareExec argv)).
      destruct arg as [|c arg].
      + change (EmptyString +:+ String space (LogPrepareExec argv)) with (String space (LogPrepareExec argv)).
        cbn [read_word]. rewrite bool_decide_false by done. by apply (read_plain_arg EmptyString).
      + rewrite <- (read_plain_arg (String c arg) (LogPrepareExec argv) Hs).
        change (String c arg +:+ String space (LogPrepareExec argv)) with (String c (arg +:+ String space (LogPrepareExec argv))).
        cbn [read_word]. by rewrite bool_decide_false. }
  fold (LogPrepareExec argv). rewrite Hw. cbn. fold (LogPrepareExec argv) in IH. by rewrite IH.
Qed.

(** A backslash is not escaped, so an argument that ends in one and has a
    space swallows the end of its quotes. *)
Example backslash_unescaped :
  read_words 1 (LogPrepareExec [String (ascii_of_nat 97) (String space (String backslash EmptyString))]) = None.
Proof. vm_compute. reflexivity. Qed.
End SnapshotMain.
