(* ===== verification/MapsProps.v ===== *)
(** * The memory map in text

    Scanning a line of [/proc/<pid>/maps] recovers the entry it was printed
    from, and the files of different ranges have different names. *)

From Stdlib Require Import Ascii.
From S2P Require Import Prelude ProgramSnapshot Snapshot.

(** ** Printed numbers *)

Definition hex_char (v : Z) : ascii := ch (Z.to_nat (if v <? 10 then 48 + v else 87 + v)).

(** The last [n] hexadecimal digits of [v]. *)
Fixpoint hex_digits (n : nat) (v : Z) : string :=
  match n with
  | O => ""
  | S n => String (hex_char (v / 16 ^ Z.of_nat n mod 16)) (hex_digits n v)
  end.

Lemma digits_all (f : Z -> bool) : forallb f (seqZ 0 16) = true -> forall v, 0 <= v < 16 -> f v = true.
Proof. intros Hf v Hv. rewrite forallb_forall in Hf. apply Hf, list_elem_of_In, elem_of_seqZ. lia. Qed.

Lemma hex_char_value v : 0 <= v < 16 -> digit_value 16 (hex_char v) = Some v.
Proof.
  intros Hv. pose proof (digits_all (fun v => bool_decide (digit_value 16 (hex_char v) = Some v)) eq_refl v Hv) as H.
  by apply bool_decide_eq_true in H.
Qed.

Lemma hex_char_class v : 0 <= v < 16 ->
  isalnum (hex_char v) = true /\ isspace (hex_char v) = false /\ scan_sign (String (hex_char v) "") = (false, String (hex_char v) "").
Proof.
  intros Hv.
  pose proof (digits_all (fun v => isalnum (hex_char v) && negb (isspace (hex_char v)) &&
    bool_decide (scan_sign (String (hex_char v) "") = (false, String (hex_char v) ""))) eq_refl v Hv) as H.
  cbn beta in H. apply andb_true_iff in H as [[? ?%negb_true_iff]%andb_true_iff Hs]. by apply bool_decide_eq_true in Hs.
Qed.

Lemma string_app_cons c s t : String c s +:+ t = String c (s +:+ t).
Proof. done. Qed.

Lemma string_cons_inj c s t : String c s = String c t -> s = t.
Proof. by intros [= ->]. Qed.

(** The first character is not a digit in the base. *)
Definition stops (base : Z) (s : string) : Prop :=
  match s with EmptyString => True | String c _ => digit_value base c = None end.

Lemma scan_digits_stop base acc s : stops base s -> scan_digits base acc s = (acc, s).
Proof. destruct s; cbn; [done|]. by intros ->. Qed.

Lemma digit_mod v n : 0 <= v / 16 ^ Z.of_nat n mod 16 < 16.
Proof. apply Z.mod_pos_bound. done. Qed.

Lemma scan_hex_digits n v acc rest :
  0 <= v -> stops 16 rest -> scan_digits 16 acc (hex_digits n v +:+ rest) = (acc * 16 ^ Z.of_nat n + v mod 16 ^ Z.of_nat n, rest).
Proof.
  intros Hv Hr. revert acc. induction n as [|n IH]; intros acc.
  - change (hex_digits 0 v +:+ rest) with rest. change (Z.of_nat 0) with 0. rewrite Z.pow_0_r, Z.mod_1_r, scan_digits_stop by done. f_equal. lia.
  - cbn [hex_digits]. rewrite string_app_cons. cbn [scan_digits]. rewrite (hex_char_value _ (digit_mod v n)), IH. f_equal.
    rewrite Nat2Z.inj_succ, Z.pow_succ_r by lia. rewrite (Z.mul_comm 16), Z.rem_mul_r by lia. lia.
Qed.

Lemma hex_width m v : 0 <= v -> v < 16 ^ Z.of_nat (Nat.max m (S (Z.to_nat (Z.log2 v / 4)))).
Proof.
  intros Hv. destruct (decide (v = 0)) as [->|]; [by apply Z.pow_pos_nonneg; lia|].
  pose proof (Z.log2_spec v) as Hl. pose proof (Z.log2_nonneg v). pose proof (Z.div_mod (Z.log2 v) 4).
  pose proof (Z.mod_pos_bound (Z.log2 v) 4). apply Z.lt_le_trans with (2 ^ Z.succ (Z.log2 v)); [lia|].
  change 16 with (2 ^ 4). rewrite <- Z.pow_mul_r by lia. apply Z.pow_le_mono_r; lia.
Qed.

(** [%0<pad>lx], padded to at least two digits. *)
Definition hex (pad : nat) (v : Z) : string := hex_digits (Nat.max (S (S pad)) (S (Z.to_nat (Z.log2 v / 4)))) v.

Lemma hex_shape pad v : exists v0 v1 n, hex pad v = String (hex_char v0) (String (hex_char v1) (hex_digits n v)) /\
  0 <= v0 < 16 /\ 0 <= v1 < 16.
Proof.
  unfold hex. destruct (Nat.max _ _) as [|[|n]] eqn:E; [lia|lia|]. cbn [hex_digits].
  eexists _, _, n. split; [done|]. split; by apply Z.mod_pos_bound.
Qed.

Lemma scan_sign_hex v0 s : 0 <= v0 < 16 -> scan_sign (String (hex_char v0) s) = (false, String (hex_char v0) s).
Proof.
  intros Hv. destruct (hex_char_class v0 Hv) as (_ & _ & Hs). cbn in *. by repeat case_match; simplify_eq.
Qed.

Lemma skip_space_hex v0 s : 0 <= v0 < 16 -> skip_space (String (hex_char v0) s) = String (hex_char v0) s.
Proof. intros Hv. destruct (hex_char_class v0 Hv) as (_ & Hs & _). cbn [skip_space]. by rewrite Hs. Qed.

Lemma scan_prefix_hex v0 v1 s : 0 <= v1 < 16 ->
  scan_prefix (String (hex_char v0) (String (hex_char v1) s)) = String (hex_char v0) (String (hex_char v1) s).
Proof.
  intros Hv. pose proof (digits_all (fun v => negb ((code (hex_char v) =? 120) || (code (hex_char v) =? 88))) eq_refl v1 Hv) as H.
  cbn beta in H. apply negb_true_iff in H. cbn [scan_prefix]. by rewrite H, andb_false_r.
Qed.

Lemma scan_number_hex pad v rest :
  0 <= v -> stops 16 rest -> scan_number 16 (hex pad v +:+ rest) = Some (v, rest).
Proof.
  intros Hv Hr. unfold hex. pose proof (hex_width (S (S pad)) v Hv) as Hw. revert Hw.
  destruct (Nat.max _ _) as [|n] eqn:E; [lia|]. intros Hw. pose proof (scan_hex_digits (S n) v 0 rest Hv Hr) as Hs.
  cbn [hex_digits] in *. rewrite string_app_cons in *. cbn [scan_digits scan_number] in *.
  rewrite (hex_char_value _ (digit_mod v n)) in *. cbn [mbind option_bind].
  change (0 * 16 + ?d) with d in Hs. rewrite Hs. by rewrite Z.mod_small by lia.
Qed.

Lemma scan_x64_hex pad v rest : u64 v -> stops 16 rest -> scan_x64 (hex pad v +:+ rest) = Some (v, rest).
Proof.
  intros [Hv Hv2] Hr. pose proof (scan_number_hex pad v rest Hv Hr) as Hs. unfold scan_x64.
  destruct (hex_shape pad v) as (v0 & v1 & n & E & H0 & H1). rewrite E in *. rewrite !string_app_cons in *.
  rewrite skip_space_hex, scan_sign_hex, scan_prefix_hex, Hs by done. cbn.
  destruct (Z.leb_spec two64 v); [lia|done].
Qed.

(** White space in front changes nothing. *)
Lemma skip_space_idem s : skip_space (skip_space s) = skip_space s.
Proof. induction s as [|c s IH]; [done|]. cbn. destruct (isspace c) eqn:E; [done|]. cbn. by rewrite E. Qed.

Lemma scan_x64_space s : scan_x64 (String (ch 32) s) = scan_x64 s.
Proof. done. Qed.

Lemma scan_d64_space s : scan_d64 (String (ch 32) s) = scan_d64 s.
Proof. done. Qed.

(** ** Decimal numbers *)

Fixpoint all_digits (s : string) : bool :=
  match s with EmptyString => true | String c s => isdigit c && all_digits s end.

Lemma digit_of c : isdigit c = true -> exists v, digit_value 10 c = Some v.
Proof.
  intros Hc. unfold digit_value. rewrite Hc. unfold isdigit in Hc. apply andb_true_iff in Hc as [H1%Z.leb_le H2%Z.leb_le].
  destruct (Z.ltb_spec (code c - 48) 10); [eauto|lia].
Qed.

Lemma scan_digits_text s acc rest :
  all_digits s = true -> stops 10 rest -> exists v, scan_digits 10 acc (s +:+ rest) = (v, rest).
Proof.
  intros Hs Hr. revert acc. induction s as [|c s IH]; intros acc.
  - exists acc. by apply scan_digits_stop.
  - cbn in Hs. apply andb_true_iff in Hs as [Hc Hs]. rewrite string_app_cons. cbn [scan_digits].
    destruct (digit_of c Hc) as [v ->]. by apply IH.
Qed.

Lemma scan_d64_text s rest :
  all_digits s = true -> s <> "" -> stops 10 rest -> exists v, scan_d64 (s +:+ rest) = Some (v, rest).
Proof.
  intros Hs Hne Hr. destruct s as [|c s]; [done|]. cbn in Hs. apply andb_true_iff in Hs as [Hc Hs].
  unfold scan_d64. rewrite string_app_cons.
  assert (code c <> 32 /\ 48 <= code c <= 57) as [_ Hcode].
  { unfold isdigit in Hc. apply andb_true_iff in Hc as [H1%Z.leb_le H2%Z.leb_le]. lia. }
  assert (isspace c = false) as Hsp.
  { unfold isspace. destruct (Z.eqb_spec (code c) 32), (Z.leb_spec 9 (code c)), (Z.leb_spec (code c) 13); try done; lia. }
  cbn [skip_space]. rewrite Hsp. cbn [scan_sign].
  destruct (Z.eqb_spec (code c) 45), (Z.eqb_spec (code c) 43); try lia.
  destruct (digit_of c Hc) as [v Hv]. cbn [scan_number]. rewrite Hv. cbn.
  destruct (scan_digits_text s v rest Hs Hr) as [v' ->]. eauto.
Qed.

(** ** Lines of the memory map *)

(** A line of [/proc/<pid>/maps], as [proc(5)] documents it. *)
Record MapEntry := MkMapEntry {
  me_begin : Z; me_end : Z;
  me_read : bool; me_write : bool; me_exec : bool; me_shared : bool;
  me_offset : Z; me_dev_major : Z; me_dev_minor : Z; me_inode : string;
  me_pad : nat; me_path : string
}.

Fixpoint spaces (n : nat) : string := match n with O => "" | S n => String (ch 32) (spaces n) end.
Definition flag (b : bool) (c : nat) : ascii := if b then ch c else ch 45.

Definition maps_line (e : MapEntry) : string :=
  hex 6 (me_begin e) +:+ String (ch 45) (hex 6 (me_end e) +:+ String (ch 32)
    (String (flag (me_read e) 114) (String (flag (me_write e) 119) (String (flag (me_exec e) 120)
      (String (if me_shared e then ch 115 else ch 112) (String (ch 32)
        (hex 6 (me_offset e) +:+ String (ch 32) (hex 0 (me_dev_major e) +:+ String (ch 58)
          (hex 0 (me_dev_minor e) +:+ String (ch 32) (me_inode e +:+ (spaces (me_pad e) +:+ me_path e))))))))))).

Definition no_leading_space (s : string) : Prop := match s with String c _ => isspace c = false | EmptyString => True end.

Record entry_ok (e : MapEntry) : Prop := {
  eo_begin : u64 (me_begin e);
  eo_end : u64 (me_end e);
  eo_offset : u64 (me_offset e);
  eo_major : u64 (me_dev_major e);
  eo_minor : u64 (me_dev_minor e);
  eo_inode : all_digits (me_inode e) = true /\ me_inode e <> "";
  eo_path : me_path e = "" \/ (0 < me_pad e)%nat /\ no_leading_space (me_path e);
  eo_length : (String.length (word_of (me_path e)) <= PATH_MAX)%nat
}.

Lemma scan_word_tail n path : path = "" \/ no_leading_space path -> scan_word (spaces n +:+ path) = word_of path.
Proof.
  intros Hp. unfold scan_word. f_equal. induction n as [|n IH]; [|exact IH].
  change (spaces 0 +:+ path) with path. destruct path as [|c path]; [done|]. destruct Hp as [?|Hc]; [done|].
  cbn in *. by rewrite Hc.
Qed.

Lemma tail_stops e : entry_ok e -> stops 10 (spaces (me_pad e) +:+ me_path e).
Proof.
  intros He. destruct (eo_path e He) as [->|[Hp _]].
  - by destruct (me_pad e).
  - destruct (me_pad e); [lia|done].
Qed.

Lemma scan_maps_line e :
  entry_ok e ->
  exists inode, scan_line (maps_line e) =
    Some (MkMapsLine (me_begin e) (me_end e) (flag (me_read e) 114) (flag (me_write e) 119) (flag (me_exec e) 120)
            (if me_shared e then ch 115 else ch 112) (me_offset e) (wrap32 (me_dev_major e)) (wrap32 (me_dev_minor e)) inode
            (word_of (me_path e))).
Proof.
  intros He. pose proof He as [Hb Hen Hof Hma Hmi [Hi1 Hi2] Hp _].
  destruct (scan_d64_text (me_inode e) (spaces (me_pad e) +:+ me_path e) Hi1 Hi2 (tail_stops e He)) as [inode Hin].
  exists inode. unfold scan_line, maps_line.
  rewrite scan_x64_hex by done. cbn [mbind option_bind scan_literal].
  rewrite bool_decide_eq_true_2 by done. cbn [mbind option_bind].
  rewrite scan_x64_hex by done. cbn [mbind option_bind].
  assert (Hr : isspace (flag (me_read e) 114) = false) by by destruct (me_read e).
  change (skip_space (String (ch 32) (String (flag (me_read e) 114) ?s))) with (if isspace (flag (me_read e) 114) then skip_space s else String (flag (me_read e) 114) s).
  rewrite Hr. cbn [scan_char mbind option_bind]. rewrite scan_x64_space, scan_x64_hex by done. cbn [mbind option_bind].
  unfold scan_x32. rewrite scan_x64_space, scan_x64_hex by done. cbn [mbind option_bind scan_literal].
  rewrite bool_decide_eq_true_2 by done. cbn [mbind option_bind]. rewrite scan_x64_hex by done. cbn [mbind option_bind].
  rewrite scan_d64_space, Hin. cbn [mbind option_bind]. rewrite scan_word_tail by (destruct Hp as [|[_ ?]]; auto). done.
Qed.

(** The page range of an entry. *)
Definition entry_kind (e : MapEntry) : PageRangeKind := page_kind (word_of (me_path e)).
Definition entry_base (rlim_cur : Z) (e : MapEntry) : Z :=
  if bool_decide (entry_kind e = kLinuxStackPageRange)
  then sub64 (me_end e) (Z.max (sub64 (me_end e) (me_begin e)) (GetMaxStackSize rlim_cur)) else me_begin e.
Definition entry_range (rlim_cur : Z) (e : MapEntry) : PageRange :=
  let is_file := bool_decide (entry_kind e = kFileBackedPageRange) in
  MkPageRange (int64 (entry_base rlim_cur e)) (int64 (me_end e)) (me_read e) (me_write e) (me_exec e) (entry_kind e)
    (PageRangeName (maps_line e)) (if is_file then Some (word_of (me_path e)) else None)
    (if is_file then Some (int64 (me_offset e)) else None).

Lemma flag_iff b c : (c =? 45)%nat = false -> (c <? 256)%nat = true -> bool_decide (flag b c = ch c) = b.
Proof.
  intros Hc%Nat.eqb_neq Hu%Nat.ltb_lt. destruct b; [by apply bool_decide_eq_true|]. apply bool_decide_eq_false. intros E.
  apply Hc. unfold flag, ch in E. apply (f_equal nat_of_ascii) in E. rewrite !nat_ascii_embedding in E by lia. done.
Qed.

Lemma ReadPageInfoLine_spec rlim_cur e :
  entry_ok e -> ReadPageInfoLine rlim_cur (maps_line e) = Ok (Some (entry_range rlim_cur e)).
Proof.
  intros He. destruct (scan_maps_line e He) as [inode Hs]. unfold ReadPageInfoLine. rewrite Hs. cbn [ml_path].
  pose proof (eo_length e He). destruct (Nat.ltb_spec PATH_MAX (String.length (word_of (me_path e)))); [lia|].
  cbn [ml_r ml_w ml_x ml_begin ml_end ml_offset]. rewrite !flag_iff by done. done.
Qed.

(** ** The files of a snapshot *)

Lemma name_hex_digits n v b rest :
  page_range_name b (hex_digits n v +:+ rest) = hex_digits n v +:+ page_range_name (match n with O => b | _ => false end) rest.
Proof.
  revert b. induction n as [|n IH]; intros b; [done|]. cbn [hex_digits]. rewrite !string_app_cons.
  cbn [page_range_name]. destruct (hex_char_class _ (digit_mod v n)) as (-> & _). f_equal. rewrite IH. by destruct n.
Qed.

Lemma name_hex pad v b rest : page_range_name b (hex pad v +:+ rest) = hex pad v +:+ page_range_name false rest.
Proof. unfold hex. rewrite name_hex_digits. by destruct (Nat.max _ _) eqn:E; [lia|]. Qed.

(** The name of a range starts with its bounds. *)
Lemma name_shape e : exists rest,
  PageRangeName (maps_line e) = hex 6 (me_begin e) +:+ String (ch 95) (hex 6 (me_end e) +:+ String (ch 95) rest).
Proof. unfold PageRangeName, maps_line. rewrite name_hex. cbn [page_range_name]. eexists. f_equal. f_equal. by rewrite name_hex. Qed.

Lemma hex_inj pad v1 v2 rest1 rest2 :
  0 <= v1 -> 0 <= v2 -> stops 16 rest1 -> stops 16 rest2 -> hex pad v1 +:+ rest1 = hex pad v2 +:+ rest2 -> v1 = v2 /\ rest1 = rest2.
Proof.
  intros H1 H2 Hr1 Hr2 E. pose proof (scan_number_hex pad v1 rest1 H1 Hr1) as S1.
  rewrite E, (scan_number_hex pad v2 rest2 H2 Hr2) in S1. by simplify_eq.
Qed.

Lemma range_names_distinct e1 e2 :
  entry_ok e1 -> entry_ok e2 -> PageRangeName (maps_line e1) = PageRangeName (maps_line e2) ->
  me_begin e1 = me_begin e2 /\ me_end e1 = me_end e2.
Proof.
  intros [[? _] [? _] _ _ _ _ _ _] [[? _] [? _] _ _ _ _ _ _].
  destruct (name_shape e1) as [t1 ->], (name_shape e2) as [t2 ->].
  intros [Hb E%string_cons_inj]%hex_inj; try done. by apply hex_inj in E as [He _].
Qed.
