(* ===== verification/SnapshotProps.v ===== *)
(** * What a snapshot holds

    The files of a snapshot hold the tracee's memory, loading a snapshot into
    an executor gives back the tracee's memory and permissions, and the
    breakpoint leaves the code as it was. *)

From Stdlib Require Import Ascii.
From S2P Require Import Prelude Pages MappedRange RangeProps AddressSpace SpaceInv RemoveRangeProps IndexProps MapChange Lookup ReadProps WriteProps.
From S2P Require Import SpaceTheorems Tasks Executor ProgramSnapshot Workspace WorkspaceProps Snapshot MapsProps.

(** ** The files of a snapshot *)

(** Writing inside a file. *)
Lemma length_write_at file i bytes :
  0 <= i -> i + Z.of_nat (length bytes) <= Z.of_nat (length file) -> length (write_at file i bytes) = length file.
Proof. intros Hi Hle. unfold write_at. rewrite !length_app, length_take, length_replicate, length_drop. lia. Qed.

Lemma lookup_write_at file i bytes j :
  0 <= i -> i + Z.of_nat (length bytes) <= Z.of_nat (length file) ->
  write_at file i bytes !! j =
    if decide (i <= Z.of_nat j < i + Z.of_nat (length bytes)) then bytes !! Z.to_nat (Z.of_nat j - i) else file !! j.
Proof.
  intros Hi Hle. unfold write_at. replace (Z.to_nat i - length file)%nat with 0%nat by lia. cbn [replicate app].
  destruct (decide (Z.of_nat j < i)).
  - rewrite decide_False by lia. rewrite lookup_app_l by (rewrite length_take; lia). by rewrite lookup_take_lt by lia.
  - rewrite lookup_app_r by (rewrite length_take; lia). rewrite length_take, Nat.min_l by lia. case_decide.
    + rewrite lookup_app_l by lia. f_equal. lia.
    + rewrite lookup_app_r by lia. rewrite lookup_drop. f_equal. lia.
Qed.

(** ** The tracee's memory *)

Lemma peek_bytes_app m addr n k :
  peek_bytes m addr (n + k) = bs ← peek_bytes m addr n; bs' ← peek_bytes m (addr + Z.of_nat n) k; Some (bs ++ bs').
Proof.
  revert addr. induction n as [|n IH]; intros addr.
  - cbn [peek_bytes Nat.add mbind option_bind]. change (Z.of_nat 0) with 0. rewrite Z.add_0_r.
    by destruct (peek_bytes m addr k).
  - cbn [Nat.add peek_bytes]. destruct (m !! addr) as [b|]; [|done]. cbn [mbind option_bind]. rewrite IH.
    replace (addr + Z.of_nat (S n)) with (addr + 1 + Z.of_nat n) by lia.
    destruct (peek_bytes m (addr + 1) n); [|done]. cbn. by destruct (peek_bytes m (addr + 1 + Z.of_nat n) k).
Qed.

Lemma peek_bytes_spec m addr n bs :
  peek_bytes m addr n = Some bs -> length bs = n /\ forall i, (i < n)%nat -> bs !! i = m !! (addr + Z.of_nat i).
Proof.
  revert addr bs. induction n as [|n IH]; intros addr bs; cbn [peek_bytes].
  - intros [= <-]. split; [done|]. lia.
  - destruct (m !! addr) as [b|] eqn:Hb; [|done]. cbn [mbind option_bind].
    destruct (peek_bytes m (addr + 1) n) as [bs'|] eqn:Hp; [|done]. cbn [mbind option_bind]. intros [= <-].
    destruct (IH _ _ Hp) as [Hl Hi]. split; [cbn; lia|]. intros [|i] Hlt.
    + cbn. by rewrite Z.add_0_r.
    + cbn. rewrite Hi by lia. f_equal. lia.
Qed.

Definition bytes_of (m : TraceeMemory) : Prop := forall a b, m !! a = Some b -> byte_ok b.

Lemma peek_bytes_ok m addr n bs : bytes_of m -> peek_bytes m addr n = Some bs -> Forall byte_ok bs.
Proof.
  intros Hm Hp. destruct (peek_bytes_spec _ _ _ _ Hp) as [Hl Hi]. apply Forall_lookup. intros i b Hb.
  pose proof (lookup_lt_Some _ _ _ Hb). rewrite Hi in Hb by lia. by eapply Hm.
Qed.

Section copying.
Context (mapped_file : string -> option (Z -> Z -> list Z)) (mem_read : Z -> Z -> list Z) (can_create : string -> bool).
Context (tracee : TraceeMemory).
(** Memory and files hold bytes; a whole page that [/proc/<pid>/mem] delivers
    is the page. *)
Context (tracee_bytes : bytes_of tracee).
Context (file_bytes : forall path read pos n, mapped_file path = Some read -> Forall byte_ok (read pos n)).
Context (mem_read_page : forall addr, length (mem_read addr kPageBuffSize) = Z.to_nat kPageBuffSize ->
  peek_bytes tracee addr (Z.to_nat kPageBuffSize) = Some (mem_read addr kPageBuffSize)).

Lemma copy_words_peek n addr :
  0 <= addr -> addr + 8 * Z.of_nat n <= two64 -> copy_words tracee n addr = peek_bytes tracee addr (8 * n).
Proof.
  revert addr. induction n as [|n IH]; intros addr H0 Hle; [done|]. cbn [copy_words].
  replace (8 * S n)%nat with (8 + 8 * n)%nat by lia. rewrite peek_bytes_app. unfold PEEKTEXT.
  destruct (peek_bytes tracee addr 8) as [bs|] eqn:Hp; [|done]. cbn [fmap option_fmap option_map mbind option_bind].
  destruct (peek_bytes_spec _ _ _ _ Hp) as [Hl _]. pose proof (peek_bytes_ok _ _ _ _ tracee_bytes Hp) as Hb.
  assert (Hw : le_bytes 8 (le_value bs) = bs) by (rewrite <- Hl; by apply le_bytes_le_value).
  destruct n as [|n].
  - change (8 * 0)%nat with 0%nat. cbn [copy_words peek_bytes mbind option_bind]. by rewrite Hw.
  - rewrite add64_small by lia. rewrite IH by lia. change (Z.of_nat 8) with 8.
    destruct (peek_bytes tracee (addr + 8) (8 * S n)); [|done]. cbn [mbind option_bind].
    by rewrite Hw.
Qed.

(** Either way a page is copied exactly when all of it is mapped. *)
Lemma tracee_page_spec addr :
  0 <= addr -> addr + kPageBuffSize <= two64 -> tracee_page mem_read tracee addr = peek_bytes tracee addr (Z.to_nat kPageBuffSize).
Proof.
  intros H0 Hle. unfold tracee_page. destruct (Z.eqb_spec kPageBuffSize (Z.of_nat (length (mem_read addr kPageBuffSize)))) as [E|].
  - by rewrite mem_read_page by lia.
  - unfold CopyTraceeMemoryWithPtrace. change (Z.to_nat ((kPageBuffSize + 7) / 8)) with 512%nat.
    rewrite copy_words_peek by (unfold kPageBuffSize in *; lia). done.
Qed.

(** Offsets of whole pages inside a file. *)
Definition offsets_in (offs : list Z) (size : Z) : Prop :=
  Forall (fun i => aligned i /\ 0 <= i /\ i + kPageBuffSize <= size) offs.

Lemma copy_backing_spec path read pos offs dest :
  mapped_file path = Some read -> offsets_in offs (Z.of_nat (length dest)) -> Forall byte_ok dest ->
  length (copy_backing read pos offs dest) = length dest /\ Forall byte_ok (copy_backing read pos offs dest).
Proof.
  intros Hf. revert pos dest. induction offs as [|i offs IH]; intros pos dest Hin Hb; [done|].
  apply Forall_cons in Hin as [(Hal & H0 & Hle) Hin]. cbn [copy_backing].
  destruct (Z.eqb_spec kPageBuffSize (Z.of_nat (length (read pos kPageBuffSize)))) as [E|]; [|by apply IH].
  assert (Hl : length (write_at dest i (read pos kPageBuffSize)) = length dest) by (apply length_write_at; lia).
  destruct (IH (pos + Z.of_nat (length (read pos kPageBuffSize))) (write_at dest i (read pos kPageBuffSize))) as [IH1 IH2].
  - by rewrite Hl.
  - unfold write_at. apply Forall_app; split; [by apply Forall_take|]. apply Forall_app; split; [by apply Forall_replicate|].
    apply Forall_app; split; [by eapply file_bytes|by apply Forall_drop].
  - by rewrite IH1, Hl.
Qed.

Lemma write_at_ok file i bytes : Forall byte_ok file -> Forall byte_ok bytes -> Forall byte_ok (write_at file i bytes).
Proof.
  intros Hf Hb. unfold write_at. apply Forall_app; split; [by apply Forall_take|].
  apply Forall_app; split; [by apply Forall_replicate|]. apply Forall_app; split; [done|by apply Forall_drop].
Qed.

(** What a byte of the file becomes: the byte of the tracee when its page is
    one of the offsets and wholly mapped. *)
Definition copied (lo : Z) (offs : list Z) (dest : list Z) (j : nat) : option Z :=
  let i := AlignDownToPage (Z.of_nat j) in
  if decide (i ∈ offs) then
    match peek_bytes tracee (lo + i) (Z.to_nat kPageBuffSize) with
    | Some _ => tracee !! (lo + Z.of_nat j)
    | None => dest !! j
    end
  else dest !! j.

(** One iteration. *)
Lemma copy_page_spec base i dest :
  aligned i -> 0 <= i -> i + kPageBuffSize <= Z.of_nat (length dest) -> wrap64 base + Z.of_nat (length dest) <= two64 -> Forall byte_ok dest ->
  let dest' := match tracee_page mem_read tracee (add64 (wrap64 base) i) with Some bytes => write_at dest i bytes | None => dest end in
  length dest' = length dest /\ Forall byte_ok dest' /\ forall j, (j < length dest)%nat -> dest' !! j = copied (wrap64 base) [i] dest j.
Proof.
  intros Hal H0 Hle Htop Hb. pose proof (wrap64_u64 base) as [Hlo _]. cbv zeta. unfold kPageBuffSize in Hle.
  rewrite add64_small by (unfold two64 in *; lia).
  assert (Hj : forall j, (j < length dest)%nat -> AlignDownToPage (Z.of_nat j) = i <-> i <= Z.of_nat j < i + 4096).
  { intros j Hlt. assert (Hu : u64 (Z.of_nat j)) by (unfold u64; lia). split.
    - intros <-. pose proof (AlignDownToPage_range _ Hu). unfold kPageSize in *. lia.
    - intros Hr. by apply AlignDownToPage_unique. }
  unfold copied. rewrite tracee_page_spec by (unfold kPageBuffSize; lia).
  destruct (peek_bytes tracee (wrap64 base + i) (Z.to_nat kPageBuffSize)) as [bs|] eqn:Hp.
  - destruct (peek_bytes_spec _ _ _ _ Hp) as [Hl Hi]. change (Z.to_nat kPageBuffSize) with 4096%nat in *.
    assert (Hle' : i + Z.of_nat (length bs) <= Z.of_nat (length dest)) by lia.
    split_and!; [by apply length_write_at|apply write_at_ok; [done|by eapply peek_bytes_ok]|].
    intros j Hlt. rewrite lookup_write_at by done. rewrite Hl. specialize (Hj j Hlt).
    destruct (decide (i <= Z.of_nat j < i + 4096)) as [Hd|Hd].
    + pose proof (proj2 Hj Hd) as Hpg. rewrite !decide_True by (try lia; by apply list_elem_of_singleton).
      rewrite Hpg, Hp, Hi by lia. f_equal. lia.
    + rewrite !decide_False; [done|rewrite list_elem_of_singleton; tauto|lia].
  - split_and!; try done. intros j Hlt. case_decide as Hd; [|done]. apply list_elem_of_singleton in Hd. by rewrite Hd, Hp.
Qed.

Lemma copy_pages_spec base offs dest :
  offsets_in offs (Z.of_nat (length dest)) -> wrap64 base + Z.of_nat (length dest) <= two64 -> Forall byte_ok dest ->
  length (copy_pages mem_read tracee base offs dest) = length dest /\ Forall byte_ok (copy_pages mem_read tracee base offs dest) /\
  forall j, (j < length dest)%nat -> copy_pages mem_read tracee base offs dest !! j = copied (wrap64 base) offs dest j.
Proof.
  revert dest. induction offs as [|i offs IH]; intros dest Hin Htop Hb; [done|].
  apply Forall_cons in Hin as [(Hal & H0 & Hle) Hin]. cbn [copy_pages].
  destruct (copy_page_spec base i dest Hal H0 Hle Htop Hb) as (Hl1 & Hb1 & Hj1).
  set (dest' := match tracee_page _ _ _ with Some bytes => write_at dest i bytes | None => dest end) in *.
  destruct (IH dest') as (Hl2 & Hb2 & Hj2); [by rewrite Hl1|by rewrite Hl1|done|].
  split_and!; [by rewrite Hl2|done|]. intros j Hlt. rewrite Hj2 by lia. unfold copied in *. specialize (Hj1 j Hlt).
  set (pg := AlignDownToPage (Z.of_nat j)) in *. destruct (decide (pg ∈ offs)) as [Hin'|Hout].
  - rewrite decide_True by by apply list_elem_of_further. destruct (peek_bytes tracee (wrap64 base + pg) _) eqn:E; [done|].
    rewrite Hj1. by case_decide.
  - rewrite Hj1. destruct (decide (pg = i)) as [->|Hne].
    + by rewrite !decide_True by (by apply list_elem_of_here).
    + rewrite !decide_False; [done|..]; rewrite elem_of_cons; [tauto|]. rewrite elem_of_nil. tauto.
Qed.

(** The file of a page range. *)
Record range_saved (info : PageRange) (file : list Z) : Prop := {
  rs_length : Z.of_nat (length file) = range_hi info - range_lo info;
  rs_bytes : Forall byte_ok file;
  rs_copied a : range_lo info <= a < range_hi info ->
    is_Some (peek_bytes tracee (AlignDownToPage a) (Z.to_nat kPageBuffSize)) ->
    file !! Z.to_nat (a - range_lo info) = tracee !! a
}.

(** Page-aligned bounds in one half of the address space. *)
Record range_sane (info : PageRange) : Prop := {
  sn_lo : aligned (range_lo info);
  sn_hi : aligned (range_hi info);
  sn_order : range_lo info < range_hi info;
  sn_size : range_hi info - range_lo info < 2 ^ 63
}.

Lemma range_file_spec info :
  range_sane info -> can_create (pr_name info) = true ->
  exists file, range_file mapped_file mem_read can_create tracee info = Ok file /\ range_saved info file.
Proof.
  intros [Hal Hah Hord Hsz] Hc. unfold range_file. rewrite Hc. cbn [check mbind outcome_bind].
  pose proof (wrap64_u64 (pr_base info)) as Hul. pose proof (wrap64_u64 (pr_limit info)) as Huh.
  fold (range_lo info) in Hul. fold (range_hi info) in Huh.
  assert (Hsize : wrap64 (pr_limit info - pr_base info) = range_hi info - range_lo info).
  { rewrite <- (sub64_small (range_hi info)) by (unfold u64 in *; lia). unfold sub64, range_hi, range_lo, wrap64. by rewrite <- Zminus_mod. }
  rewrite Hsize. set (size := range_hi info - range_lo info) in *. destruct (Z.ltb_spec size (2 ^ 63)); [|lia].
  destruct (pages_aligned_spec 0 size) as (offs & -> & Hoffs); [done|done|unfold kPageSize, two64; lia|].
  cbn [mbind outcome_bind]. assert (aligned size) by by apply aligned_sub.
  assert (Hin : offsets_in offs size).
  { apply Forall_forall. intros i [Hali Hr]%Hoffs. split_and!; [done|lia|]. apply aligned_lt; [done|done|lia]. }
  set (dest := if bool_decide (pr_kind info = kFileBackedPageRange) then _ else _).
  assert (Hdest : Z.of_nat (length dest) = size /\ Forall byte_ok dest).
  { assert (Hr0 : Z.of_nat (length (replicate (Z.to_nat size) 0)) = size) by (rewrite length_replicate; lia).
    assert (Hb0 : Forall byte_ok (replicate (Z.to_nat size) 0)) by by apply Forall_replicate.
    unfold dest. case_bool_decide; [|done]. destruct (mapped_file _) as [read|] eqn:Hread; [|done].
    destruct (copy_backing_spec _ read (default 0 (pr_file_offset info)) offs (replicate (Z.to_nat size) 0) Hread) as [Hl Hb];
      [by rewrite Hr0|done|]. split; [by rewrite Hl|done]. }
  destruct Hdest as [Hdl Hdb].
  destruct (copy_pages_spec (pr_base info) offs dest) as (Hl & Hb & Hj); [by rewrite Hdl|rewrite Hdl; fold (range_lo info); unfold u64 in *; lia|done|].
  eexists. split; [done|]. split; [by rewrite Hl|done|]. intros a Ha Hp. fold (range_lo info) in Hj. rewrite Hj by lia.
  unfold copied. rewrite Z2Nat.id by lia.
  assert (Hpg : AlignDownToPage (a - range_lo info) = AlignDownToPage a - range_lo info).
  { assert (Hua : u64 a) by (unfold u64 in *; lia). pose proof (AlignDownToPage_range a Hua).
    apply AlignDownToPage_unique; [unfold u64 in *; lia|apply aligned_sub; [by apply AlignDownToPage_aligned|done]|lia]. }
  rewrite Hpg. replace (range_lo info + (AlignDownToPage a - range_lo info)) with (AlignDownToPage a) by lia.
  destruct Hp as [bs ->]. rewrite decide_True; [f_equal; lia|]. apply Hoffs.
  assert (Hua : u64 a) by (unfold u64 in *; lia). pose proof (AlignDownToPage_range a Hua). pose proof (AlignDownToPage_aligned a Hua) as Haa.
  split; [by apply aligned_sub|]. split; [|unfold size; lia].
  destruct (Z.le_gt_cases (range_lo info) (AlignDownToPage a)); [lia|]. pose proof (aligned_lt _ _ Haa Hal). lia.
Qed.

Lemma CopyTraceeMemory_spec files infos :
  Forall (fun info => range_sane info /\ can_create (pr_name info) = true) infos -> NoDup (pr_name <$> infos) ->
  exists files', CopyTraceeMemory mapped_file mem_read can_create tracee files infos = Ok files' /\
    (forall name, name ∉ (pr_name <$> infos) -> files' !! name = files !! name) /\
    forall info, info ∈ infos -> exists file, files' !! pr_name info = Some file /\ range_saved info file.
Proof.
  revert files. induction infos as [|info infos IH]; intros files.
  { intros _ _. exists files. split_and!; [done|done|]. by intros info ?%elem_of_nil. }
  intros [[Hs Hc] Hall]%Forall_cons [Hni Hnd]%NoDup_cons. cbn [CopyTraceeMemory].
  destruct (range_file_spec info Hs Hc) as (file & -> & Hf). cbn [mbind outcome_bind].
  destruct (IH (<[pr_name info := file]> files) Hall Hnd) as (files' & -> & Hout & Hin). exists files'.
  split_and!; [done|..].
  - intros name [Hne Hn]%not_elem_of_cons. rewrite Hout by done. by rewrite lookup_insert_ne.
  - intros info' [->|Hi]%elem_of_cons; [|by apply Hin]. exists file. rewrite Hout by done. by rewrite lookup_insert_eq.
Qed.
End copying.

(** ** The page ranges of a memory map *)

Lemma ReadTraceePageMaps_spec rlim_cur entries :
  Forall entry_ok entries -> ReadTraceePageMaps rlim_cur (maps_line <$> entries) = Ok (entry_range rlim_cur <$> entries).
Proof.
  induction entries as [|e entries IH]; [done|]. intros [He Hes]%Forall_cons. rewrite !fmap_cons.
  cbn [ReadTraceePageMaps]. rewrite ReadPageInfoLine_spec by done. cbn [mbind outcome_bind]. by rewrite IH.
Qed.

Lemma wrap64_int64 z : u64 z -> wrap64 (int64 z) = z.
Proof.
  intros [H0 H1]. unfold int64, to_signed, wrap64. change (2 ^ 64) with two64. rewrite (Z.mod_small z) by done.
  destruct (Z.ltb_spec z (2 ^ (64 - 1))); [by apply Z.mod_small|]. rewrite <- (Z.mod_small z two64) at 2 by done.
  rewrite <- (Z.mod_add (z - two64) 1 two64) by done. f_equal. lia.
Qed.

(** Entries in the order of their addresses, on page boundaries and below the
    last page, each in one half of the address space. *)
Record entry_placed (rlim_cur mask cur : Z) (e : MapEntry) : Prop := {
  ep_order : cur <= entry_base rlim_cur e < me_end e;
  ep_base : aligned (entry_base rlim_cur e);
  ep_end : aligned (me_end e);
  ep_top : me_end e <= mask + 1 - kPageSize;
  ep_half : me_end e < 2 ^ 63 \/ 2 ^ 63 <= entry_base rlim_cur e
}.

Fixpoint entries_placed (rlim_cur mask cur : Z) (entries : list MapEntry) : Prop :=
  match entries with
  | [] => True
  | e :: entries => entry_placed rlim_cur mask cur e /\ entries_placed rlim_cur mask (me_end e) entries
  end.

Lemma entry_base_u64 rlim_cur e : entry_ok e -> u64 (entry_base rlim_cur e).
Proof. intros He. unfold entry_base. case_bool_decide; [apply wrap64_u64|apply He]. Qed.

Lemma entry_range_bounds rlim_cur e : entry_ok e ->
  range_lo (entry_range rlim_cur e) = entry_base rlim_cur e /\ range_hi (entry_range rlim_cur e) = me_end e.
Proof. intros He. split; apply wrap64_int64; [by apply entry_base_u64|apply He]. Qed.

Lemma entry_sane rlim_cur mask cur e :
  entry_ok e -> entry_placed rlim_cur mask cur e -> range_sane (entry_range rlim_cur e).
Proof.
  intros He [Ho Hb Hn Ht Hh]. destruct (entry_range_bounds rlim_cur e He) as [El Eh].
  pose proof (entry_base_u64 rlim_cur e He) as [? ?]. pose proof (eo_end e He) as [? ?].
  split; rewrite ?El, ?Eh; try done; try lia. unfold two64 in *. lia.
Qed.

Lemma entry_signed rlim_cur mask cur e :
  entry_ok e -> entry_placed rlim_cur mask cur e -> pr_base (entry_range rlim_cur e) < pr_limit (entry_range rlim_cur e).
Proof.
  intros He [Ho _ _ _ Hh]. pose proof (entry_base_u64 rlim_cur e He) as [? ?]. pose proof (eo_end e He) as [? ?].
  cbn. unfold int64, to_signed. change (2 ^ 64) with two64. rewrite !Z.mod_small by done.
  destruct (Z.ltb_spec (entry_base rlim_cur e) (2 ^ (64 - 1))), (Z.ltb_spec (me_end e) (2 ^ (64 - 1))); lia.
Qed.

Lemma entries_above rlim_cur mask cur entries e :
  entries_placed rlim_cur mask cur entries -> e ∈ entries -> cur < me_end e.
Proof.
  revert cur. induction entries as [|e0 entries IH]; intros cur; [by intros _ ?%elem_of_nil|].
  intros [Hp Hr] [->|Hin]%elem_of_cons; pose proof (ep_order _ _ _ _ Hp); [lia|]. specialize (IH _ Hr Hin). lia.
Qed.

Lemma names_distinct rlim_cur mask cur entries :
  Forall entry_ok entries -> entries_placed rlim_cur mask cur entries -> NoDup (pr_name <$> (entry_range rlim_cur <$> entries)).
Proof.
  revert cur. induction entries as [|e entries IH]; intros cur; [constructor|]. intros [He Hes]%Forall_cons [Hp Hr].
  cbn. apply NoDup_cons. split; [|by eapply IH].
  intros (r & Hn & (e2 & -> & Hin)%list_elem_of_fmap)%list_elem_of_fmap. cbn in Hn.
  rewrite Forall_forall in Hes. apply range_names_distinct in Hn as [_ Hend]; [|done|by apply Hes].
  pose proof (entries_above _ _ _ _ _ Hr Hin). lia.
Qed.

(** ** From a tracee to an address space *)

(** The files can be opened and read: before the end of a file [read]
    delivers something. *)
Definition host_reads (files : gmap string (list Z)) (can_open : string -> bool) (read_amount : string -> Z -> Z -> option Z) : Prop :=
  forall path bytes, files !! path = Some bytes -> can_open path = true /\
    forall pos count, 0 <= pos < Z.of_nat (length bytes) -> 0 < count -> exists k, read_amount path pos count = Some k /\ 0 < k <= count.

(** [/proc/<pid>/mem] and [ptrace] show the same memory. *)
Record view_ok (tv : TraceeView) : Prop := {
  vo_bytes : bytes_of (tv_memory tv);
  vo_read addr : length (tv_mem_read tv addr kPageBuffSize) = Z.to_nat kPageBuffSize ->
    peek_bytes (tv_memory tv) addr (Z.to_nat kPageBuffSize) = Some (tv_mem_read tv addr kPageBuffSize)
}.

(** The page around an address can be read. *)
Definition page_readable (tv : TraceeView) (a : Z) : Prop :=
  is_Some (peek_bytes (tv_memory tv) (AlignDownToPage a) (Z.to_nat kPageBuffSize)).

Section snapshot.
Context (rlim_cur : Z) (mapped_file : string -> option (Z -> Z -> list Z)) (can_create : string -> bool).
Context (copy_x86 copy_aarch64 : Z -> Z -> outcome SnapshotTask).
Context (file_bytes : forall path read pos n, mapped_file path = Some read -> Forall byte_ok (read pos n)).

Lemma entry_not_zero e : entry_kind e <> kAnonymousZeroRange.
Proof. unfold entry_kind, page_kind. by repeat case_match. Qed.

Lemma entries_sane mask cur entries :
  Forall entry_ok entries -> entries_placed rlim_cur mask cur entries ->
  Forall (fun e => can_create (PageRangeName (maps_line e)) = true) entries ->
  Forall (fun info => range_sane info /\ can_create (pr_name info) = true) (entry_range rlim_cur <$> entries).
Proof.
  revert cur. induction entries as [|e es IH]; intros cur; [constructor|].
  intros [He Hes]%Forall_cons [Hp Hps] [Hc Hcs]%Forall_cons. constructor; [|by eapply IH]. split; [by eapply entry_sane|done].
Qed.

(** Saved page ranges can be loaded. *)
Lemma saved_ascending tracee files can_open read_amount mask cur entries :
  host_reads files can_open read_amount -> Forall entry_ok entries -> entries_placed rlim_cur mask cur entries ->
  (forall e, e ∈ entries -> exists file, files !! PageRangeName (maps_line e) = Some file /\ range_saved tracee (entry_range rlim_cur e) file) ->
  ascending (fun path => files !! path) can_open read_amount mask cur (entry_range rlim_cur <$> entries).
Proof.
  intros Hr. revert cur. induction entries as [|e entries IH]; intros cur; [done|].
  intros [He Hes]%Forall_cons [Hp Hps] Hf. cbn [fmap list_fmap ascending].
  destruct (entry_range_bounds rlim_cur e He) as [El Eh]. split.
  - pose proof Hp as [Ho Hb Hn Ht Hh]. split; rewrite ?El, ?Eh; try done; [by eapply entry_signed|].
    right. destruct (Hf e) as (file & Hl & Hs); [apply list_elem_of_here|]. exists file.
    destruct (Hr _ _ Hl) as [Hop Hrd]. destruct Hs as [Hlen Hbs _]. rewrite El, Eh in Hlen.
    split; [|lia]. by split_and!.
  - rewrite Eh. apply IH; [done|done|]. intros e2 ?. by apply Hf, list_elem_of_further.
Qed.

End snapshot.

(** *** A concrete snapshot *)

(** One page of sevens, which [/proc/<pid>/mem] does not deliver. *)
Definition sevens (lo n : Z) : TraceeMemory := gset_to_gmap 7 (list_to_set (seqZ lo n)).
Definition demo_tracee : TraceeMemory := sevens 4096 4096.
Definition demo_entry : MapEntry := MkMapEntry 4096 8192 true false true false 0 8 1 "42" 5 "/bin/demo".
Definition demo_view : TraceeView := MkTraceeView [maps_line demo_entry] (Some ["."; ".."; "100"]) (fun _ _ => []) demo_tracee.
Definition demo_copy (tid memory_id : Z) : outcome SnapshotTask := Ok (MkSnapshotTask (4096 + tid) [tid] memory_id).

Lemma sevens_lookup lo n a b : sevens lo n !! a = Some b <-> lo <= a < lo + n /\ b = 7.
Proof.
  etransitivity; [apply lookup_gset_to_gmap_Some|]. rewrite elem_of_list_to_set, elem_of_seqZ.
  split; intros [Ha Hb]; (split; [lia|congruence]).
Qed.

Lemma demo_tracee_lookup a b : demo_tracee !! a = Some b <-> 4096 <= a < 8192 /\ b = 7.
Proof. apply (sevens_lookup 4096 4096). Qed.

Lemma peek_bytes_total m addr n :
  (forall i, (i < n)%nat -> is_Some (m !! (addr + Z.of_nat i))) -> is_Some (peek_bytes m addr n).
Proof.
  revert addr. induction n as [|n IH]; intros addr Hi; [done|]. cbn [peek_bytes].
  destruct (Hi O) as [b Hb]; [lia|]. rewrite Z.add_0_r in Hb. rewrite Hb. cbn [mbind option_bind].
  destruct (IH (addr + 1)) as [bs ->]; [|done]. intros i Hlt. specialize (Hi (S i)).
  replace (addr + 1 + Z.of_nat i) with (addr + Z.of_nat (S i)) by lia. apply Hi. lia.
Qed.

Lemma demo_entry_ok : entry_ok demo_entry.
Proof. split; try (vm_compute; split; congruence); [right; split; [cbn; lia|done]|by apply Nat.leb_le]. Qed.


(** ** Unlimited stacks *)

(** C40: When the stack limit is unlimited the range of the stack wraps
    around: its base is one above its end, and copying it never ends. *)
Theorem unlimited_stack_never_copied mapped_file mem_read can_create tracee files e rest :
  entry_ok e -> entry_kind e = kLinuxStackPageRange -> me_begin e < me_end e -> me_end e < 2 ^ 63 - 1 ->
  can_create (PageRangeName (maps_line e)) = true ->
  ReadPageInfoLine (two64 - 1) (maps_line e) = Ok (Some (entry_range (two64 - 1) e)) /\
  pr_base (entry_range (two64 - 1) e) = pr_limit (entry_range (two64 - 1) e) + 1 /\
  CopyTraceeMemory mapped_file mem_read can_create tracee files (entry_range (two64 - 1) e :: rest) = Diverges.
Proof.
  intros He Hk Hord Hend Hc. split; [by apply ReadPageInfoLine_spec|].
  pose proof (eo_begin e He) as [? ?]. pose proof (eo_end e He) as [? ?].
  assert (Hb : entry_base (two64 - 1) e = me_end e + 1).
  { unfold entry_base. rewrite Hk, bool_decide_eq_true_2 by done. rewrite (sub64_small (me_end e) (me_begin e)) by lia.
    unfold GetMaxStackSize. change (Z.shiftl 16 20) with 16777216. unfold two64 in *. rewrite !Z.max_r by lia.
    rewrite Z.max_l by lia. unfold sub64, wrap64, two64.
    replace (me_end e - (18446744073709551616 - 1)) with (me_end e + 1 + (-1) * 18446744073709551616) by lia.
    rewrite Z.mod_add by done. apply Z.mod_small. lia. }
  assert (Hi : forall z, 0 <= z < 2 ^ 63 -> int64 z = z).
  { intros z Hz. unfold int64, to_signed. rewrite Z.mod_small by lia. destruct (Z.ltb_spec z (2 ^ (64 - 1))); lia. }
  split; [cbn; rewrite Hb, !Hi by lia; done|].
  cbn [CopyTraceeMemory]. unfold range_file. cbn [pr_name entry_range]. rewrite Hc. cbn [check mbind outcome_bind].
  cbn [pr_base pr_limit entry_range]. rewrite Hb, !Hi by lia. replace (me_end e - (me_end e + 1)) with (-1) by lia.
  change (wrap64 (-1)) with (two64 - 1). unfold pages. rewrite page_walk_diverges by done. done.
Qed.

Definition demo_stack : MapEntry := MkMapEntry 140737488216064 140737488351232 true true false false 0 0 0 "0" 9 "[stack]".

Lemma unlimited_stack_never_copied_witness :
  pr_base (entry_range (two64 - 1) demo_stack) = 140737488351233 /\
  CopyTraceeMemory (fun _ => None) (fun _ _ => []) (fun _ => true) ∅ ∅ [entry_range (two64 - 1) demo_stack] = Diverges.
Proof.
  destruct (unlimited_stack_never_copied (fun _ => None) (fun _ _ => []) (fun _ => true) ∅ ∅ demo_stack []) as (_ & Hb & Hd).
  - split; try (vm_compute; split; congruence); [right; split; [cbn; lia|done]|by apply Nat.leb_le].
  - vm_compute. done.
  - vm_compute. done.
  - vm_compute. done.
  - done.
  - split; [rewrite Hb; vm_compute; done|done].
Defined.

(** ** Breakpoints *)

Lemma lookup_poke_bytes m addr bs a :
  poke_bytes m addr bs !! a = if decide (addr <= a < addr + Z.of_nat (length bs)) then bs !! Z.to_nat (a - addr) else m !! a.
Proof.
  revert m addr. induction bs as [|b bs IH]; intros m addr; cbn [poke_bytes length].
  - by rewrite decide_False by lia.
  - rewrite IH. destruct (decide (a = addr)) as [->|Hne].
    + rewrite decide_False, decide_True, lookup_insert_eq by lia. by rewrite Z.sub_diag.
    + rewrite lookup_insert_ne by done. repeat case_decide; try lia; [|done].
      replace (Z.to_nat (a - addr)) with (S (Z.to_nat (a - (addr + 1)))) by lia. done.
Qed.

Lemma lor_low_byte r b : 0 <= b < 256 -> Z.lor (r * 256) b = r * 256 + b.
Proof.
  intros Hb. assert (Hl : Z.land (r * 256) b = 0).
  { apply Z.bits_inj'. intros i Hi. rewrite Z.land_spec, Z.bits_0. change 256 with (2 ^ 8). destruct (decide (i < 8)).
    - by rewrite Z.mul_pow2_bits_low.
    - destruct (decide (b = 0)) as [->|]; [by rewrite Z.bits_0, andb_false_r|].
      rewrite (Z.bits_above_log2 b), andb_false_r; [done|lia|]. apply Z.lt_le_trans with 8; [|lia]. apply Z.log2_lt_pow2; lia. }
  rewrite Z.add_nocarry_lxor by done. symmetry. by apply Z.lxor_lor.
Qed.

(** The word with the breakpoint differs in its first byte only. *)
Lemma breakpoint_bytes b bs :
  Forall byte_ok (b :: bs) -> length (b :: bs) = 8%nat -> le_bytes 8 (breakpoint_word (le_value (b :: bs))) = 204 :: bs.
Proof.
  intros Hb Hl. pose proof (le_value_bound _ Hb) as Hv. rewrite Hl in Hv. change (256 ^ Z.of_nat 8) with two64 in Hv.
  apply Forall_cons in Hb as [Hb Hbs]. unfold byte_ok in Hb. unfold breakpoint_word.
  change 255 with (2 ^ 8 - 1). rewrite land_not64_ones by (try done; lia). cbn [le_value] in *.
  change (2 ^ 8) with 256. rewrite (Z.mul_comm 256), Z.mod_add, Z.mod_small by (try done; lia).
  replace (b + le_value bs * 256 - b) with (le_value bs * 256) by lia. rewrite lor_low_byte by lia.
  replace (le_value bs * 256 + 204) with (le_value (204 :: bs)) by (cbn [le_value]; lia).
  pose proof (le_bytes_le_value (204 :: bs)) as Hv204. cbn [length] in *. rewrite Hl in Hv204. apply Hv204.
  apply Forall_cons. split; [unfold byte_ok; lia|done].
Qed.

Lemma poke_peeked m addr bs : peek_bytes m addr (length bs) = Some bs -> forall a, poke_bytes m addr bs !! a = m !! a.
Proof.
  intros Hp a. destruct (peek_bytes_spec _ _ _ _ Hp) as [_ Hi]. rewrite lookup_poke_bytes. case_decide; [|done].
  rewrite Hi by lia. f_equal. lia.
Qed.

(** C38: The tracee runs to the breakpoint with exactly one byte changed, an
    [int3] at the breakpoint; when it has arrived the eight bytes there are
    the original ones again and the rest of its memory is untouched. *)
Theorem RunUntilBreakpoint_restores breakpoint run m m' :
  bytes_of m -> RunUntilBreakpoint breakpoint run m = Ok m' ->
  exists m_run m_hit, (forall a, m_run !! a = if decide (a = breakpoint) then Some 204 else m !! a) /\
    run_to_breakpoint (run m_run) = Ok m_hit /\
    forall a, (is_Some (peek_bytes m_hit breakpoint 8) -> m' !! a = if decide (breakpoint <= a < breakpoint + 8) then m !! a else m_hit !! a) /\
              (peek_bytes m_hit breakpoint 8 = None -> m' !! a = m_hit !! a).
Proof.
  intros Hm. unfold RunUntilBreakpoint, PEEKTEXT. destruct (peek_bytes m breakpoint 8) as [bs|] eqn:Hp; [|done].
  destruct (peek_bytes_spec _ _ _ _ Hp) as [Hl Hi]. pose proof (peek_bytes_ok _ _ _ _ Hm Hp) as Hb.
  cbn [fmap option_fmap option_map]. unfold POKETEXT at 1. rewrite Hp, bool_decide_eq_true_2 by done.
  destruct bs as [|b bs]; [done|]. rewrite breakpoint_bytes by done.
  set (m_run := poke_bytes m breakpoint (204 :: bs)). destruct (run_to_breakpoint (run m_run)) as [m_hit| | |] eqn:Hrun; try done.
  cbn [mbind outcome_bind]. intros [= <-]. exists m_run, m_hit. split_and!; [|done|].
  - intros a. unfold m_run. cbn [length] in Hl. rewrite lookup_poke_bytes. cbn [length]. rewrite Hl. change (Z.of_nat 8) with 8.
    destruct (decide (a = breakpoint)) as [->|Hne]; [by rewrite decide_True, Z.sub_diag by lia|].
    case_decide; [|done]. replace (m !! a) with (m !! (breakpoint + Z.of_nat (Z.to_nat (a - breakpoint)))) by (f_equal; lia).
    rewrite <- Hi by lia. by destruct (Z.to_nat (a - breakpoint)) eqn:E; [lia|].
  - intros a. unfold POKETEXT. destruct (peek_bytes m_hit breakpoint 8) eqn:Hph; (split; [|try done]); intros Hs; [|by destruct Hs].
    rewrite bool_decide_eq_true_2 by done. cbn [default from_option id]. rewrite <- Hl, le_bytes_le_value by done.
    rewrite lookup_poke_bytes, Hl. change (Z.of_nat 8) with 8. case_decide; [|done]. rewrite Hi by lia. f_equal. lia.
Qed.

(** A tracee that stops at once. *)
Definition demo_run (m : TraceeMemory) : list (option (Wait * TraceeMemory)) := [Some (WaitStatus 1407, m)].
Definition demo_code : TraceeMemory := poke_bytes ∅ 4096 [72; 137; 229; 93; 195; 144; 144; 144; 7].

Lemma RunUntilBreakpoint_restores_witness :
  exists m', RunUntilBreakpoint 4096 demo_run demo_code = Ok m' /\ m' !! 4096 = Some 72.
Proof.
  destruct (RunUntilBreakpoint 4096 demo_run demo_code) as [m'| | |] eqn:E; [|vm_compute in E; discriminate..].
  exists m'. split; [done|]. destruct (RunUntilBreakpoint_restores 4096 demo_run demo_code m') as (m_run & m_hit & Hr & Hh & Ha); [|exact E|].
  - intros a b Hl. apply elem_of_map_to_list_2 in Hl || apply elem_of_map_to_list in Hl.
    assert (Hall : Forall (fun p => byte_ok (snd p)) (map_to_list demo_code)).
    { apply Forall_forall. intros [k v] Hin. assert (Hb : forallb (fun p => (0 <=? snd p) && (snd p <? 256)) (map_to_list demo_code) = true) by (vm_compute; done).
      rewrite forallb_forall in Hb. apply list_elem_of_In, Hb in Hin. bool_to_prop. cbn in *. split; lia. }
    rewrite Forall_forall in Hall. apply (Hall (a, b) Hl).
  - cbn in Hh. injection Hh as <-. destruct (Ha 4096) as [Hs _]. rewrite Hs; [vm_compute; done|]. apply peek_bytes_total. intros i Hi.
    rewrite Hr. clear Hs. case_decide; [done|]. do 9 (destruct i as [|i]; [vm_compute; eauto|]). lia.
Defined.

(** ** Waiting *)

(** What the bounded loops accept: fewer than the attempts that say nothing,
    then the awaited stop. *)
Definition arrives (arrived : Z -> bool) (attempts : nat) (waits rest : list Wait) : Prop :=
  exists pre w, waits = pre ++ w :: rest /\ (length pre < attempts)%nat /\
    Forall (fun w => classify arrived w = Again) pre /\ classify arrived w = Arrived.

Lemma wait_attempts_spec arrived attempts waits rest :
  wait_attempts arrived attempts waits = Ok rest <-> arrives arrived attempts waits rest.
Proof.
  revert waits. induction attempts as [|n IH]; intros waits.
  { split; [by destruct waits|]. intros (pre & w & _ & Hlt & _). lia. }
  destruct waits as [|w waits].
  { split; [done|]. intros (pre & w & E & _). by destruct pre. }
  cbn [wait_attempts]. destruct (classify arrived w) eqn:Hc.
  - split.
    + intros [= ->]. exists [], w. split_and!; [done|cbn; lia|constructor|done].
    + intros (pre & w0 & E & _ & Hf & Hw). destruct pre as [|p pre]; cbn in E; injection E as -> ->; [done|].
      apply Forall_cons in Hf as [? _]. congruence.
  - rewrite IH. split; intros (pre & w0 & E & Hlt & Hf & Hw).
    + exists (w :: pre), w0. rewrite E. cbn. split_and!; [done|lia|by constructor|done].
    + destruct pre as [|p pre]; cbn in E; injection E as -> ->; [congruence|]. apply Forall_cons in Hf as [_ Hf].
      exists pre, w0. split_and!; [done|cbn in Hlt; lia|done|done].
  - split; [done|]. intros (pre & w0 & E & _ & Hf & Hw). destruct pre as [|p pre]; cbn in E; injection E as -> ->; [congruence|].
    apply Forall_cons in Hf as [? _]. congruence.
Qed.

(** Entering the tracee takes at most twenty answers: the event of [exec]
    within ten, then the end of the system call within ten more. *)
Lemma RunUntilInTracee_spec waits rest :
  RunUntilInTracee waits = Ok rest <->
  exists mid, arrives is_exec_event kMaxNumAttempts waits mid /\ arrives is_syscall_stop kMaxNumAttempts mid rest.
Proof.
  unfold RunUntilInTracee, RunUntilAfterExec. split.
  - intros (mid & H1 & H2)%bind_ok. exists mid. by rewrite <- !wait_attempts_spec.
  - intros (mid & H1%wait_attempts_spec & H2%wait_attempts_spec). by rewrite H1.
Qed.

Lemma wait_attempts_returns arrived attempts waits :
  (attempts <= length waits)%nat -> wait_attempts arrived attempts waits <> Diverges.
Proof.
  revert waits. induction attempts as [|n IH]; intros [|w waits] Hl; cbn in *; try done; [lia|].
  destruct (classify arrived w); try done. apply IH. lia.
Qed.
