(* ===== verification/DataFlow.v ===== *)
(** * The data flow tracker

    Models [tools/TaintTracker/DataFlowTracker.cpp]: the functions that
    instrumented code calls to move taints around, over the shadow memory and
    the arrays for arguments and return values.  A taint is its [flat]
    64-bit word; [uintptr_t] is 64 bits wide. *)

From stdpp Require Import pretty.
From S2P Require Import Prelude Allocators ShadowMemory.

(** ** [union Taint] *)

(** The fields of the packed bit field: one bit, seven bits, 48 bits. *)
Definition is_tainted (t : Z) : bool := Z.testbit t 0.
Definition sel (t : Z) : Z := Z.land (Z.shiftr t 1) (Z.ones 7).
Definition val (t : Z) : Z := Z.land (Z.shiftr t 8) (Z.ones 48).

Definition set_field (t pos width v : Z) : Z :=
  Z.lor (Z.ldiff t (Z.shiftl (Z.ones width) pos)) (Z.shiftl (Z.land v (Z.ones width)) pos).
Definition set_tainted (t : Z) (b : bool) : Z := set_field t 0 1 (Z.b2z b).
Definition set_sel (t v : Z) : Z := set_field t 1 7 v.
Definition set_val (t v : Z) : Z := set_field t 8 48 v.

Definition sizeof_Taint : Z := 8.
(** The union is packed. *)
Definition alignof_Taint : Z := 1.

(** ** The object a shadow reference denotes *)

Definition object_bytes (m : gmap Z Z) (p : Z) (n : nat) : list Z := (fun i => byte_at m (p + Z.of_nat i)) <$> seq 0 n.

(** A fault at a byte other than the first one is not at
    [last_shadow_address], and is fatal. *)
Definition object_mapped (s : ShadowMemory) (p : Z) (n : nat) : bool :=
  forallb (fun i => page_mapped s (p + Z.of_nat i)) (seq 0 n).

Definition with_host (s : ShadowMemory) (m : gmap Z Z) : ShadowMemory :=
  MkShadow (shadow_granularity s) (shadow_base s) (page_granularity s) (last_shadow_address s)
    (last_shadow_elem_size_bits s) (last_forced_shadow_byte s) (shadow_pages s) (last_shadow_page_size s)
    (out_of_range s) (out_of_range_allocator s) m.
Definition with_oor_mem (s : ShadowMemory) (m : gmap Z Z) : ShadowMemory :=
  MkShadow (shadow_granularity s) (shadow_base s) (page_granularity s) (last_shadow_address s)
    (last_shadow_elem_size_bits s) (last_forced_shadow_byte s) (shadow_pages s) (last_shadow_page_size s)
    (out_of_range s) (with_mem (out_of_range_allocator s) m) (host s).

(** Loading a [Taint] through the reference, and assigning to it. *)
Definition get_ref (s : ShadowMemory) (r : ShadowRef) : outcome Z :=
  match r with
  | InRange p => if object_mapped s p 8 then Ok (le_value (object_bytes (host s) p 8)) else Fatal
  | OutOfRange p => Ok (le_value (object_bytes (mem (out_of_range_allocator s)) p 8))
  end.
Definition set_ref (s : ShadowMemory) (r : ShadowRef) (t : Z) : outcome ShadowMemory :=
  match r with
  | InRange p => if object_mapped s p 8 then Ok (with_host s (put_bytes (host s) p (le_bytes 8 t))) else Fatal
  | OutOfRange p => Ok (with_oor_mem s (put_bytes (mem (out_of_range_allocator s)) p (le_bytes 8 t)))
  end.

(** ** The state *)

(** [Taint::gId] and the other statics of the file, with the members of the
    tool. *)
Record Tracker := MkTracker {
  gId : Z;
  gArgs : list Z;
  gReturnTaint : Z;
  shadow_memory : ShadowMemory;
  constant_pool : AreaAllocator
}.

Definition with_gId (d : Tracker) (n : Z) : Tracker :=
  MkTracker n (gArgs d) (gReturnTaint d) (shadow_memory d) (constant_pool d).
Definition with_gArgs (d : Tracker) (l : list Z) : Tracker :=
  MkTracker (gId d) l (gReturnTaint d) (shadow_memory d) (constant_pool d).
Definition with_gReturnTaint (d : Tracker) (t : Z) : Tracker :=
  MkTracker (gId d) (gArgs d) t (shadow_memory d) (constant_pool d).
Definition with_shadow (d : Tracker) (s : ShadowMemory) : Tracker :=
  MkTracker (gId d) (gArgs d) (gReturnTaint d) s (constant_pool d).

(** The constructor, after [SetUp]. *)
Definition DataFlowTracker_new : Tracker :=
  MkTracker 0 (replicate 32 0) 0 (ShadowMemory_new 0 12 17592186044416) (AreaAllocator_new kAreaRW 0 k2MiB).

(** [Taint::gId++] *)
Definition next_id (d : Tracker) : Z * Tracker := (gId d, with_gId d (add64 (gId d) 1)).

(** ** Arguments and return values *)

Definition StoreArgTaint (d : Tracker) (i v : Z) : outcome Tracker :=
  if i <? 32 then Ok (with_gArgs d (<[Z.to_nat i := v]> (gArgs d))) else Undefined.

Definition LoadArgTaint (d : Tracker) (i : Z) : outcome (Z * Tracker) :=
  taint ← deref_opt (gArgs d !! Z.to_nat i);
  Ok (taint, with_gArgs d (<[Z.to_nat i := 0]> (gArgs d))).

Definition StoreReturnTaint (d : Tracker) (v : Z) : Tracker := with_gReturnTaint d v.
Definition LoadReturnTaint (d : Tracker) : Z * Tracker := (gReturnTaint d, with_gReturnTaint d 0).

(** ** Operations on values *)

Definition TaintBinary (d : Tracker) (lhs rhs : Z) : Z * Tracker :=
  if Z.land 1 (Z.lor lhs rhs) =? 0 then (0, d)
  else
    let res := set_sel (set_tainted 0 true) 0 in
    let '(id, d) := next_id d in
    (set_val res id, d).

Definition TaintSelect (cond_taint : Z) (cond : bool) (true_taint false_taint : Z) : Z :=
  if cond then true_taint else false_taint.
Definition TaintSwitch (option_taint option : Z) (options : list Z) : unit := tt.
Definition TaintBranch (taken_taint : Z) (taken : bool) : unit := tt.
Definition TaintAddress (address size : Z) : Z := 0.

(** ** Operations on memory *)

Section memory.
Variable mmap : nat -> Z -> Z -> bool -> option Z.
Variable kBreakPointBytes : list Z.

(** [ShadowMemory::At<Taint>(addr)], read and assigned. *)
Definition At_Taint (s : ShadowMemory) (addr : Z) : outcome (ShadowRef * ShadowMemory) :=
  At mmap kBreakPointBytes s addr sizeof_Taint alignof_Taint.
Definition load_at (s : ShadowMemory) (addr : Z) : outcome (Z * ShadowMemory) :=
  '(r, s) ← At_Taint s addr; t ← get_ref s r; Ok (t, s).
Definition store_at (s : ShadowMemory) (addr t : Z) : outcome ShadowMemory :=
  '(r, s) ← At_Taint s addr; set_ref s r t.

(** The taints of [n] bytes. *)
Fixpoint load_taints (n : nat) (s : ShadowMemory) (addr : Z) : outcome (list Z * ShadowMemory) :=
  match n with
  | O => Ok ([], s)
  | S n =>
      '(t, s) ← load_at s addr;
      '(ts, s) ← load_taints n s (add64 addr 1);
      Ok (t :: ts, s)
  end.

(** The loop that looks for [goto concat]. *)
Fixpoint same_value (v i : Z) (taints : list Z) : bool :=
  match taints with
  | [] => true
  | t :: taints => if negb (val t =? v) then false else if negb (sel t =? i) then false else same_value v (i + 1) taints
  end.

Definition TaintLoad (kNumBytes : nat) (d : Tracker) (addr_taint addr : Z) : outcome (Z * Tracker) :=
  '(taints, s) ← load_taints kNumBytes (shadow_memory d) addr;
  let d := with_shadow d s in
  let any_tainted := foldl Z.lor 0 taints in
  if Z.land 1 any_tainted =? 0 then Ok (0, d)
  else
    first ← deref_opt (taints !! 0%nat);
    let last_taint := set_val 0 (val first) in
    if same_value (val last_taint) 0 taints then Ok (last_taint, d)
    else
      let '(id, d) := next_id d in
      Ok (set_val last_taint id, d).

(** [val_taint] keeps the [sel] of the byte stored last. *)
Fixpoint store_taints (n : nat) (i : Z) (s : ShadowMemory) (addr val_taint : Z) : outcome ShadowMemory :=
  match n with
  | O => Ok s
  | S n =>
      let val_taint := set_sel val_taint i in
      s ← store_at s (add64 addr i) val_taint;
      store_taints n (i + 1) s addr val_taint
  end.

Definition TaintStore (kNumBytes : nat) (d : Tracker) (addr_taint addr val_taint : Z) : outcome Tracker :=
  if negb (is_tainted val_taint) then Ok d
  else
    s ← store_taints kNumBytes 0 (shadow_memory d) addr val_taint;
    Ok (with_shadow d s).

Fixpoint set_taints (n : nat) (s : ShadowMemory) (addr t : Z) : outcome ShadowMemory :=
  match n with
  | O => Ok s
  | S n => s ← store_at s addr t; set_taints n s (add64 addr 1) t
  end.

Definition TaintMemSet (d : Tracker) (dest_addr_taint dest_addr val_taint dest_val size_taint dest_size : Z) :
    outcome Tracker :=
  let val_taint := set_sel val_taint 0 in
  s ← set_taints (Z.to_nat dest_size) (shadow_memory d) dest_addr val_taint;
  Ok (with_shadow d s).

(** [At<Taint>(dest) = At<Taint>(src)]: both references, then the copy. *)
Definition copy_taint (s : ShadowMemory) (dest src : Z) : outcome ShadowMemory :=
  '(d, s) ← At_Taint s dest;
  '(r, s) ← At_Taint s src;
  t ← get_ref s r;
  set_ref s d t.

(** [n] iterations, the offset counted up from [i]. *)
Fixpoint copy_up (n : nat) (i : Z) (s : ShadowMemory) (dest src : Z) : outcome ShadowMemory :=
  match n with
  | O => Ok s
  | S n => s ← copy_taint s (add64 dest i) (add64 src i); copy_up n (i + 1) s dest src
  end.

(** [n] iterations, the last offset first. *)
Fixpoint copy_down (n : nat) (s : ShadowMemory) (dest src : Z) : outcome ShadowMemory :=
  match n with
  | O => Ok s
  | S n => s ← copy_taint s (add64 dest (Z.of_nat n)) (add64 src (Z.of_nat n)); copy_down n s dest src
  end.

Definition TaintMemCopy (d : Tracker) (dest_addr_taint dest_addr src_addr_taint src_addr size_taint dest_size : Z) :
    outcome Tracker :=
  s ← copy_up (Z.to_nat dest_size) 0 (shadow_memory d) dest_addr src_addr;
  Ok (with_shadow d s).

Definition TaintMemMove (d : Tracker) (dest_addr_taint dest_addr src_addr_taint src_addr size_taint dest_size : Z) :
    outcome Tracker :=
  if dest_size =? 0 then Ok d
  else if dest_addr <? src_addr then
    s ← copy_down (Z.to_nat dest_size) (shadow_memory d) dest_addr src_addr;
    Ok (with_shadow d s)
  else
    s ← copy_up (Z.to_nat dest_size) 0 (shadow_memory d) dest_addr src_addr;
    Ok (with_shadow d s).

(** ** Constants *)

(** The address of a zeroed taint with a fresh identity; the three functions
    do the same. *)
Definition constant_taint (d : Tracker) : outcome (Z * Tracker) :=
  '(p, pool) ← AreaAllocator_Allocate mmap kBreakPointBytes (constant_pool d) sizeof_Taint alignof_Taint;
  let '(id, d) := next_id d in
  let taint := set_val (set_tainted 0 false) id in
  Ok (p, MkTracker (gId d) (gArgs d) (gReturnTaint d) (shadow_memory d)
           (with_mem pool (put_bytes (mem pool) p (le_bytes 8 taint)))).

Definition FindIntConstantTaint (d : Tracker) (const_val : Z) : outcome (Z * Tracker) := constant_taint d.
Definition FindFloatConstantTaint (d : Tracker) (const_val : Z) : outcome (Z * Tracker) := constant_taint d.
Definition FindDoubleConstantTaint (d : Tracker) (const_val : Z) : outcome (Z * Tracker) := constant_taint d.
End memory.

(** ** The table of transfer functions *)

Inductive TransferFunc :=
| fLoadArg | fLoadReturn | fStoreArg | fStoreReturn | fSelect | fSwitch | fBranch | fAddress
| fLoad (bytes : nat) | fStore (bytes : nat) | fMemSet | fMemCopy | fMemMove
| fBinary (tag : string).

(** The types of [GET_INT_OPS] and [GET_FLOAT_OPS]. *)
Definition int_types : list string :=
  ((fun n => "i" +:+ pretty (Z.of_nat n)) <$> (seq 1 32 ++ [64; 128]%nat)).
Definition float_types : list string := ["float"; "double"].

Definition int_ops : list string :=
  ["add"; "sub"; "mul"; "udiv"; "sdiv"; "urem"; "srem"; "shl"; "lshr"; "ashr"; "and"; "or"; "xor";
   "icmp_eq"; "icmp_ne"; "icmp_ugt"; "icmp_uge"; "icmp_ult"; "icmp_ule"; "icmp_sgt"; "icmp_sge"; "icmp_slt"; "icmp_sle"].
Definition float_ops : list string :=
  ["fadd"; "fsub"; "fmul"; "fdiv"; "frem"; "fcmp_false"; "fcmp_oeq"; "fcmp_ogt"; "fcmp_oge"; "fcmp_olt"; "fcmp_ole";
   "fcmp_one"; "fcmp_ord"; "fcmp_ueq"; "fcmp_ugt"; "fcmp_uge"; "fcmp_ult"; "fcmp_ule"; "fcmp_une"; "fcmp_uno";
   "fcmp_true"].

Definition typed_ops (ops types : list string) : list (string * TransferFunc) :=
  op ← ops; ty ← types; [("__taint_" +:+ op +:+ "_" +:+ ty, fBinary (op +:+ "_" +:+ ty))].

Definition taint_trackers : list (string * TransferFunc) :=
  [ ("__taint_load_arg", fLoadArg); ("__taint_load_ret", fLoadReturn);
    ("__taint_store_arg", fStoreArg); ("__taint_store_ret", fStoreReturn);
    ("__taint_select", fSelect); ("__taint_switch", fSwitch); ("__taint_branch", fBranch);
    ("__taint_local", fAddress); ("__taint_global", fAddress);
    ("__taint_load_8", fLoad 1); ("__taint_load_16", fLoad 2); ("__taint_load_32", fLoad 4);
    ("__taint_load_64", fLoad 8); ("__taint_load_128", fLoad 16);
    ("__taint_store_8", fStore 1); ("__taint_store_16", fStore 2); ("__taint_store_32", fStore 4);
    ("__taint_store_64", fStore 8); ("__taint_store_128", fStore 16);
    ("__taint_memset", fMemSet); ("__taint_memcpy", fMemCopy); ("__taint_memmove", fMemMove) ]
  ++ typed_ops int_ops int_types ++ typed_ops float_ops float_types.

(** [taint_trackers.find(name)]: the last entry assigned to the name. *)
Definition find_tracker (name : string) : option TransferFunc :=
  snd <$> head (filter (fun e => e.1 = name) (reverse taint_trackers)).

(** The address of the function, or 0. *)
Definition FindTaintTransferFunc (address : TransferFunc -> Z) (name : string) : Z :=
  match find_tracker name with Some f => address f | None => 0 end.
