(* ===== verification/DataFlowProps.v ===== *)
(** * Properties of the data flow tracker

    Bit fields of taints; the taints of out-of-range addresses as a map that
    stores update at exactly their bytes; loads, stores and copies in terms
    of that map; overlapping objects in the shadowable range. *)

From S2P Require Import Prelude Allocators AllocatorProps ShadowMemory DataFlow.

(** ** Bit fields *)

Lemma set_field_spec t pos width v i :
  0 <= pos -> 0 <= width -> 0 <= i ->
  Z.testbit (set_field t pos width v) i =
    if (pos <=? i) && (i <? pos + width) then Z.testbit v (i - pos) else Z.testbit t i.
Proof.
  intros Hp Hw Hi. unfold set_field. rewrite Z.lor_spec, Z.ldiff_spec, !Z.shiftl_spec, Z.land_spec by done.
  destruct (Z.leb_spec pos i), (Z.ltb_spec i (pos + width)); cbn [andb].
  - rewrite Z.ones_spec_low by lia. cbn. by rewrite andb_false_r, andb_true_r.
  - rewrite Z.ones_spec_high by lia. by rewrite !andb_false_r, andb_true_r, orb_false_r.
  - rewrite !(Z.testbit_neg_r _ (i - pos)) by lia. by rewrite andb_true_r, orb_false_r.
  - lia.
Qed.

Lemma field_spec t pos width i :
  0 <= pos -> 0 <= width -> 0 <= i ->
  Z.testbit (Z.land (Z.shiftr t pos) (Z.ones width)) i = if i <? width then Z.testbit t (i + pos) else false.
Proof.
  intros. rewrite Z.land_spec, Z.shiftr_spec by done. destruct (Z.ltb_spec i width).
  - by rewrite Z.ones_spec_low, andb_true_r by lia.
  - by rewrite Z.ones_spec_high, andb_false_r by lia.
Qed.

(** Reduces an equation between fields to its bits. *)
Ltac by_bits :=
  apply Z.bits_inj'; let i := fresh "i" in intros i ?; rewrite ?field_spec, ?set_field_spec, ?Z.land_spec by lia;
  repeat match goal with
  | |- context [?x <? ?y] => destruct (Z.ltb_spec x y)
  | |- context [?x <=? ?y] => destruct (Z.leb_spec x y)
  end; cbn [andb]; try lia; try done; try (f_equal; lia).

Lemma val_set_val t v : val (set_val t v) = Z.land v (Z.ones 48).
Proof.
  unfold val, set_val. apply Z.bits_inj'. intros i Hi. rewrite field_spec, Z.land_spec by lia.
  destruct (Z.ltb_spec i 48).
  - rewrite Z.ones_spec_low, andb_true_r by lia. rewrite set_field_spec by lia.
    destruct (Z.leb_spec 8 (i + 8)), (Z.ltb_spec (i + 8) (8 + 48)); cbn [andb]; try lia. f_equal. lia.
  - by rewrite Z.ones_spec_high, andb_false_r by lia.
Qed.

Lemma val_set_sel t v : val (set_sel t v) = val t.
Proof. unfold val, set_sel. by_bits. Qed.

Lemma sel_set_sel t v : 0 <= v < 128 -> sel (set_sel t v) = v.
Proof.
  intros Hv. unfold sel, set_sel. apply Z.bits_inj'. intros i Hi. rewrite field_spec by lia.
  destruct (Z.ltb_spec i 7).
  - rewrite set_field_spec by lia. destruct (Z.leb_spec 1 (i + 1)), (Z.ltb_spec (i + 1) (1 + 7)); cbn [andb]; try lia.
    f_equal. lia.
  - symmetry. destruct (decide (v = 0)) as [->|]; [apply Z.bits_0|]. apply Z.bits_above_log2; [lia|].
    apply Z.lt_le_trans with 7; [|lia]. apply Z.log2_lt_pow2; lia.
Qed.

Lemma is_tainted_set_sel t v : is_tainted (set_sel t v) = is_tainted t.
Proof. unfold is_tainted, set_sel. by rewrite set_field_spec by lia. Qed.

Lemma is_tainted_set_val t v : is_tainted (set_val t v) = is_tainted t.
Proof. unfold is_tainted, set_val. by rewrite set_field_spec by lia. Qed.

Lemma val_range t : Z.land (val t) (Z.ones 48) = val t.
Proof. unfold val. by rewrite <- Z.land_assoc, Z.land_diag. Qed.

Lemma land_1_tainted t : (Z.land 1 t =? 0) = negb (is_tainted t).
Proof.
  pose proof (land_bit_nonzero t 0) as H. rewrite Z.shiftl_0_r, Z.land_comm in H. unfold is_tainted.
  rewrite <- H by done. by rewrite negb_involutive.
Qed.

Lemma tainted_foldl ts acc :
  is_tainted (foldl Z.lor acc ts) = is_tainted acc || existsb is_tainted ts.
Proof.
  revert acc. induction ts as [|t ts IH]; intros acc; cbn [foldl existsb]; [by rewrite orb_false_r|].
  rewrite IH. unfold is_tainted at 1. by rewrite Z.lor_spec, <- orb_assoc.
Qed.

(** Only the low 64 bits of a taint are stored. *)
Lemma testbit_wrap64 t i : 0 <= i < 64 -> Z.testbit (wrap64 t) i = Z.testbit t i.
Proof. intros. unfold wrap64. change two64 with (2 ^ 64). by rewrite Z.mod_pow2_bits_low by lia. Qed.

Lemma val_wrap64 t : val (wrap64 t) = val t.
Proof. unfold val. by_bits. apply testbit_wrap64. lia. Qed.
Lemma sel_wrap64 t : sel (wrap64 t) = sel t.
Proof. unfold sel. by_bits. apply testbit_wrap64. lia. Qed.
Lemma is_tainted_wrap64 t : is_tainted (wrap64 t) = is_tainted t.
Proof. by apply testbit_wrap64. Qed.
Lemma wrap64_idem t : wrap64 (wrap64 t) = wrap64 t.
Proof. apply wrap64_small, wrap64_u64. Qed.

Lemma set_sel_set_sel t i j : set_sel (set_sel t i) j = set_sel t j.
Proof. unfold set_sel. by_bits. Qed.

(** ** Loads do not carry the taint bit *)

(** No load of shadow memory returns a tainted value, whatever the state
    and whatever was stored: the result is assembled in a fresh taint of
    which only [val] is ever set. *)
Theorem TaintLoad_never_tainted mmap bp k d addr_taint addr t d' :
  TaintLoad mmap bp k d addr_taint addr = Ok (t, d') -> is_tainted t = false.
Proof.
  unfold TaintLoad. intros ([ts s] & _ & H)%bind_ok. case_match; [by injection H as <-|].
  apply bind_ok in H as (first & _ & H). case_match; injection H as <- _; by rewrite !is_tainted_set_val.
Qed.

(** ** Objects outside the shadowable range *)

Record objects_ok (s : ShadowMemory) : Prop := {
  oo_area : area_inv (out_of_range_allocator s);
  oo_page : page_size (out_of_range_allocator s) = 4096;
  oo_pref : 0 <= preferred_base (out_of_range_allocator s);
  oo_in key p : out_of_range s !! key = Some p ->
    0 < area_base (out_of_range_allocator s) <= p /\ p + 8 <= bump (out_of_range_allocator s);
  oo_sep k1 k2 p1 p2 : out_of_range s !! k1 = Some p1 -> out_of_range s !! k2 = Some p2 -> k1 <> k2 ->
    p1 + 8 <= p2 \/ p2 + 8 <= p1
}.

(** The taint an out-of-range address has; 0 before its first use. *)
Definition taint_of_key (s : ShadowMemory) (key : Z) : Z :=
  match out_of_range s !! key with
  | Some p => le_value (object_bytes (mem (out_of_range_allocator s)) p 8)
  | None => 0
  end.
Definition taint_at (s : ShadowMemory) (addr : Z) : Z := taint_of_key s (Z.shiftr addr (shadow_granularity s)).

Lemma objects_ok_new gran page_gran base : objects_ok (ShadowMemory_new gran page_gran base).
Proof.
  split; cbn; try done; try lia; try set_solver. split; [exists 12; split; [lia|done]|by left].
Qed.

(** A step that keeps the shape of the shadow memory. *)
Record same_shape (s s' : ShadowMemory) : Prop := {
  sh_gran : shadow_granularity s' = shadow_granularity s;
  sh_base : shadow_base s' = shadow_base s
}.
#[global] Instance same_shape_preorder : PreOrder same_shape.
Proof. split; [by split|]. intros s1 s2 s3 [] []; split; congruence. Qed.

Lemma lookup_put_bytes_in m p bs i b :
  bs !! i = Some b -> put_bytes m p bs !! (p + Z.of_nat i) = Some b.
Proof.
  revert m p i. induction bs as [|b0 bs IH]; intros m p [|i] Hi; cbn [put_bytes]; try done.
  - injection Hi as ->. rewrite lookup_put_bytes by lia. rewrite Z.add_0_r. apply lookup_insert_eq.
  - replace (p + Z.of_nat (S i)) with (p + 1 + Z.of_nat i) by lia. by apply IH.
Qed.

Lemma object_bytes_ext m m' p p' n :
  (forall i, 0 <= i < Z.of_nat n -> m' !! (p' + i) = m !! (p + i)) -> object_bytes m' p' n = object_bytes m p n.
Proof.
  intros H. unfold object_bytes. apply list_fmap_ext. intros i x [-> Hi]%lookup_seq. unfold byte_at. by rewrite H by lia.
Qed.

Lemma read_put_bytes m p bs : object_bytes (put_bytes m p bs) p (length bs) = bs.
Proof.
  apply list_eq. intros i. unfold object_bytes. rewrite list_lookup_fmap.
  destruct (decide (i < length bs)%nat) as [Hi|Hi].
  - rewrite lookup_seq_lt by done. cbn. destruct (lookup_lt_is_Some_2 bs i Hi) as [b Hb].
    rewrite Hb. unfold byte_at. by rewrite (lookup_put_bytes_in _ _ _ _ _ Hb).
  - rewrite lookup_seq_ge by lia. cbn. symmetry. apply lookup_ge_None. lia.
Qed.

Lemma read_zeroes m p n : (forall i, 0 <= i < Z.of_nat n -> m !! (p + i) = Some 0) -> le_value (object_bytes m p n) = 0.
Proof.
  intros H. replace (object_bytes m p n) with (replicate n 0).
  { clear H. induction n as [|n IH]; cbn [replicate le_value]; [done|]. by rewrite IH. }
  apply list_eq. intros i. unfold object_bytes. rewrite list_lookup_fmap. destruct (decide (i < n)%nat) as [Hi|Hi].
  - rewrite lookup_seq_lt, lookup_replicate_2 by done. cbn. unfold byte_at. by rewrite H by lia.
  - rewrite lookup_seq_ge by lia. apply lookup_ge_None. rewrite length_replicate. lia.
Qed.

Lemma read_write_taint m p t : le_value (object_bytes (put_bytes m p (le_bytes 8 t)) p 8) = wrap64 t.
Proof.
  assert (H := read_put_bytes m p (le_bytes 8 t)). rewrite length_le_bytes in H. rewrite H. by rewrite le_value_le_bytes.
Qed.

Section out_of_range.
Context (mmap : nat -> Z -> Z -> bool -> option Z) (bp : list Z).
(** A host that grants every mapping, never at the null page. *)
Hypothesis mmap_nonnull : forall n addr size fixed ret, mmap n addr size fixed = Some ret -> 0 < ret.
Hypothesis mmap_any : forall n addr sz, exists ret, mmap n addr sz false = Some ret.
Hypothesis mmap_fixed : forall n addr sz, 0 < addr -> mmap n addr sz true = Some addr.
Hypothesis bp_nonempty : (0 < length bp)%nat.

(** A reference to the object of an out-of-range address. *)
Lemma At_out_of_range s addr :
  objects_ok s -> shadow_base s <= addr ->
  exists p s', At_Taint mmap bp s addr = Ok (OutOfRange p, s') /\ objects_ok s' /\ same_shape s s' /\
    out_of_range s' !! Z.shiftr addr (shadow_granularity s) = Some p /\
    (forall key, taint_of_key s' key = taint_of_key s key).
Proof.
  intros Hok Ha. unfold At_Taint, At. destruct (Z.ltb_spec addr (shadow_base s)); [lia|].
  unfold out_of_range_at. set (key := Z.shiftr addr (shadow_granularity s)). cbv zeta.
  destruct (out_of_range s !! key) as [p|] eqn:E; [by exists p, s|].
  destruct Hok as [Harea Hpage Hpref Hin Hsep].
  destruct (area_Allocate_total mmap bp mmap_nonnull bp_nonempty (out_of_range_allocator s) sizeof_Taint alignof_Taint)
    as (p & a & Heq); try done.
  { rewrite Hpage. unfold sizeof_Taint, alignof_Taint, two64. reflexivity. }
  pose proof (AreaAllocator_Allocate_page _ _ _ _ _ _ _ Heq) as Hpg.
  pose proof (AreaAllocator_Allocate_preferred _ _ _ _ _ _ _ Heq) as Hpr.
  pose proof (area_Allocate_spec mmap bp mmap_nonnull bp_nonempty (out_of_range_allocator s) sizeof_Taint alignof_Taint p a Harea ltac:(done) ltac:(done)
                ltac:(rewrite Hpage; unfold sizeof_Taint, alignof_Taint, two64; reflexivity) Heq) as [Hi Hmap Hbase _ Hmem].
  rewrite Heq. unfold sizeof_Taint in *. cbn [mbind outcome_bind]. exists p. eexists. split; [done|].
  assert (Hold : forall k q, out_of_range s !! k = Some q -> area_base (out_of_range_allocator s) <> 0 /\ q + 8 <= p).
  { intros k q Hq. specialize (Hin k q Hq). split; [lia|]. destruct Hbase; lia. }
  split; [|split; [done|split; [cbn; apply lookup_insert_eq|]]].
  - split; cbn; rewrite ?Hpg, ?Hpr; try done.
    + intros k q [[<- <-]|[Hk Hq]]%lookup_insert_Some; [lia|].
      specialize (Hold k q Hq). specialize (Hin k q Hq). destruct Hbase; lia.
    + intros k1 k2 p1 p2 H1 H2 Hne.
      apply lookup_insert_Some in H1 as [[<- <-]|[Hk1 H1]], H2 as [[<- <-]|[Hk2 H2]].
      * done.
      * specialize (Hold k2 p2 H2). lia.
      * specialize (Hold k1 p1 H1). lia.
      * by apply (Hsep k1 k2).
  - intros k. unfold taint_of_key. cbn [out_of_range out_of_range_allocator with_mem with_area mem].
    destruct (decide (k = key)) as [->|Hk].
    + rewrite lookup_insert_eq, E. apply read_zeroes. intros i Hi'. by rewrite lookup_fill, decide_True by lia.
    + rewrite lookup_insert_ne by done. destruct (out_of_range s !! k) as [q|] eqn:Hq; [|done].
      specialize (Hold k q Hq) as [Hnz Hq']. specialize (Hin k q Hq). f_equal. apply object_bytes_ext. intros i Hi'.
      rewrite lookup_fill, decide_False by lia. apply Hmem; lia.
Qed.

(** Assigning through a reference. *)
Lemma set_ref_spec s key p t :
  objects_ok s -> out_of_range s !! key = Some p ->
  exists s', set_ref s (OutOfRange p) t = Ok s' /\ objects_ok s' /\ same_shape s s' /\
    (forall k, taint_of_key s' k = if decide (k = key) then wrap64 t else taint_of_key s k).
Proof.
  intros Hok Hp. eexists. split; [done|]. split; [by destruct Hok|]. split; [done|]. intros k.
  unfold taint_of_key. cbn [out_of_range out_of_range_allocator with_oor_mem with_mem with_area mem]. case_decide as Hk.
  - rewrite Hk, Hp. apply read_write_taint.
  - destruct (out_of_range s !! k) as [q|] eqn:Hq; [|done]. f_equal. apply object_bytes_ext. intros i Hi.
    apply lookup_put_bytes. rewrite length_le_bytes. pose proof (oo_sep _ Hok k key q p Hq Hp Hk). lia.
Qed.

Lemma load_at_spec s addr :
  objects_ok s -> shadow_base s <= addr ->
  exists s', load_at mmap bp s addr = Ok (taint_at s addr, s') /\ objects_ok s' /\ same_shape s s' /\
    (forall k, taint_of_key s' k = taint_of_key s k).
Proof.
  intros Hok Ha. destruct (At_out_of_range s addr Hok Ha) as (p & s' & Heq & Hok' & Hsh & Hp & Hv).
  unfold load_at. rewrite Heq. cbn. exists s'. split; [|done]. do 2 f_equal.
  unfold taint_at. rewrite <- Hv. unfold taint_of_key. by rewrite Hp.
Qed.

Lemma store_at_spec s addr t :
  objects_ok s -> shadow_base s <= addr ->
  exists s', store_at mmap bp s addr t = Ok s' /\ objects_ok s' /\ same_shape s s' /\
    (forall k, taint_of_key s' k = if decide (k = Z.shiftr addr (shadow_granularity s)) then wrap64 t else taint_of_key s k).
Proof.
  intros Hok Ha. destruct (At_out_of_range s addr Hok Ha) as (p & s1 & Heq & Hok1 & Hsh1 & Hp & Hv1).
  destruct (set_ref_spec s1 _ p t Hok1 Hp) as (s' & Hs & Hok' & Hsh & Hv). unfold store_at. rewrite Heq. cbn [mbind outcome_bind].
  exists s'. split; [done|]. split; [done|]. split; [by transitivity s1|]. intros k. rewrite Hv. by rewrite Hv1.
Qed.

Lemma copy_taint_spec s dest src :
  objects_ok s -> shadow_base s <= dest -> shadow_base s <= src ->
  exists s', copy_taint mmap bp s dest src = Ok s' /\ objects_ok s' /\ same_shape s s' /\
    (forall k, taint_of_key s' k =
       if decide (k = Z.shiftr dest (shadow_granularity s)) then wrap64 (taint_at s src) else taint_of_key s k).
Proof.
  intros Hok Hd Hs. destruct (At_out_of_range s dest Hok Hd) as (p & s1 & Heq1 & Hok1 & Hsh1 & Hp & Hv1).
  destruct (At_out_of_range s1 src Hok1 ltac:(by rewrite (sh_base _ _ Hsh1))) as (q & s2 & Heq2 & Hok2 & Hsh2 & Hq & Hv2).
  unfold copy_taint. rewrite Heq1. cbn [mbind outcome_bind]. rewrite Heq2. cbn [mbind outcome_bind].
  unfold get_ref. cbn [mbind outcome_bind]. rewrite (sh_gran _ _ Hsh1) in Hq.
  assert (Hsrc : le_value (object_bytes (mem (out_of_range_allocator s2)) q 8) = taint_at s src).
  { unfold taint_at. rewrite <- Hv1, <- Hv2. unfold taint_of_key. by rewrite Hq. }
  rewrite Hsrc.
  assert (Hp2 : exists p', out_of_range s2 !! Z.shiftr dest (shadow_granularity s) = Some p' /\ p' = p).
  { unfold At_Taint, At in Heq2. case_match; [by inv_bind|]. unfold out_of_range_at in Heq2.
    apply bind_ok in Heq2 as ([q' s''] & Heq2 & [= <- <-]). cbv zeta in Heq2. case_match; [injection Heq2 as <- <-; eauto|].
    apply bind_ok in Heq2 as ([q1 a] & _ & [= <- <-]). cbn. exists p. split; [|done].
    rewrite lookup_insert_ne; [done|]. intros He. rewrite He in *. congruence. }
  destruct Hp2 as (? & Hp2 & ->).
  destruct (set_ref_spec s2 _ p (taint_at s src) Hok2 Hp2) as (s' & Hset & Hok' & Hsh' & Hv'). rewrite Hset.
  exists s'. split; [done|]. split; [done|]. split; [etrans; [exact Hsh1|]; by etrans|].
  intros k. rewrite Hv'. by rewrite Hv2, Hv1.
Qed.

(** ** Whole accesses

    The tracker's shadow memory has granularity 0. *)

Lemma taint_at_key s a : shadow_granularity s = 0 -> taint_at s a = taint_of_key s a.
Proof. intros Hg. unfold taint_at. by rewrite Hg, Z.shiftr_0_r. Qed.

(** Shadow memory that can be used for out-of-range addresses, and the
    relation between the memories before and after an access. *)
Definition ready (s : ShadowMemory) : Prop := objects_ok s /\ shadow_granularity s = 0.

Definition becomes (s s' : ShadowMemory) (f : Z -> Z) : Prop :=
  ready s' /\ shadow_base s' = shadow_base s /\ forall a, taint_at s' a = f a.

Lemma becomes_refl s : ready s -> becomes s s (taint_at s).
Proof. done. Qed.

Lemma becomes_shape s s' f :
  ready s -> objects_ok s' -> same_shape s s' -> (forall k, taint_of_key s' k = f k) -> becomes s s' f.
Proof.
  intros [Hok Hg] Hok' [Hg' Hb] Hv. assert (shadow_granularity s' = 0) by congruence.
  split; [done|]. split; [done|]. intros a. rewrite taint_at_key by done. apply Hv.
Qed.

Lemma becomes_trans s1 s2 s3 f g h :
  becomes s1 s2 f -> becomes s2 s3 g -> (forall a, g a = h a) -> becomes s1 s3 h.
Proof. intros (_ & Hb & _) (Hr & Hb' & Hv) H. split; [done|]. split; [congruence|]. intros a. by rewrite Hv. Qed.

Lemma load_at_ready s addr :
  ready s -> shadow_base s <= addr -> exists s', load_at mmap bp s addr = Ok (taint_at s addr, s') /\ becomes s s' (taint_at s).
Proof.
  intros Hr Ha. destruct (load_at_spec s addr (proj1 Hr) Ha) as (s' & Heq & Hok & Hsh & Hv).
  exists s'. split; [done|]. apply becomes_shape; [done..|]. intros k. by rewrite Hv, taint_at_key by apply Hr.
Qed.

Lemma store_at_ready s addr t :
  ready s -> shadow_base s <= addr ->
  exists s', store_at mmap bp s addr t = Ok s' /\ becomes s s' (fun a => if decide (a = addr) then wrap64 t else taint_at s a).
Proof.
  intros Hr Ha. destruct (store_at_spec s addr t (proj1 Hr) Ha) as (s' & Heq & Hok & Hsh & Hv).
  exists s'. split; [done|]. apply becomes_shape; [done..|]. intros k. rewrite Hv, (proj2 Hr), Z.shiftr_0_r.
  by rewrite taint_at_key by apply Hr.
Qed.

Lemma copy_taint_ready s dest src :
  ready s -> shadow_base s <= dest -> shadow_base s <= src ->
  exists s', copy_taint mmap bp s dest src = Ok s' /\
    becomes s s' (fun a => if decide (a = dest) then wrap64 (taint_at s src) else taint_at s a).
Proof.
  intros Hr Hd Hs. destruct (copy_taint_spec s dest src (proj1 Hr) Hd Hs) as (s' & Heq & Hok & Hsh & Hv).
  exists s'. split; [done|]. apply becomes_shape; [done..|]. intros k. rewrite Hv, (proj2 Hr), Z.shiftr_0_r.
  by rewrite (taint_at_key s k) by apply Hr.
Qed.

Lemma load_taints_spec n s addr :
  ready s -> shadow_base s <= addr -> 0 <= addr -> addr + Z.of_nat n <= two64 ->
  exists s', load_taints mmap bp n s addr = Ok ((fun i => taint_at s (addr + Z.of_nat i)) <$> seq 0 n, s') /\
    becomes s s' (taint_at s).
Proof.
  revert s addr. induction n as [|n IH]; intros s addr Hr Hb H0 Hlt; cbn [load_taints].
  { exists s. split; [done|by apply becomes_refl]. }
  destruct (load_at_ready s addr Hr Hb) as (s1 & Heq & Hs1). rewrite Heq. cbn [mbind outcome_bind].
  destruct Hs1 as (Hr1 & Hb1 & Hv1). destruct (decide (n = 0%nat)) as [->|Hn].
  { exists s1. cbn. by rewrite Z.add_0_r. }
  destruct (IH s1 (add64 addr 1)) as (s' & Heq' & Hs'); try done; try (rewrite add64_small by (unfold two64 in *; lia); lia).
  rewrite Heq'. cbn [mbind outcome_bind]. exists s'. split.
  - do 2 f_equal. cbn [seq fmap list_fmap]. rewrite Z.add_0_r. f_equal. rewrite <- fmap_S_seq, <- list_fmap_compose.
    apply list_fmap_ext. intros i x _. cbn. rewrite Hv1, add64_small by (unfold two64 in *; lia). f_equal. lia.
  - by apply (becomes_trans s s1 s' (taint_at s) (taint_at s1)).
Qed.

Lemma store_taints_spec n i s addr t :
  ready s -> shadow_base s <= addr -> 0 <= addr -> 0 <= i -> addr + i + Z.of_nat n <= two64 ->
  exists s', store_taints mmap bp n i s addr t = Ok s' /\
    becomes s s' (fun a => if decide (addr + i <= a < addr + i + Z.of_nat n) then wrap64 (set_sel t (a - addr)) else taint_at s a).
Proof.
  revert i s t. induction n as [|n IH]; intros i s t Hr Hb H0 Hi Hlt; cbn [store_taints].
  { exists s. split; [done|]. split; [done|]. split; [done|]. intros a. by rewrite decide_False by lia. }
  rewrite add64_small by (unfold two64 in *; lia).
  destruct (store_at_ready s (addr + i) (set_sel t i) Hr ltac:(lia)) as (s1 & Heq & Hs1). rewrite Heq. cbn [mbind outcome_bind].
  pose proof Hs1 as (Hr1 & Hb1 & Hv1).
  destruct (IH (i + 1) s1 (set_sel t i)) as (s' & Heq' & Hs'); try done; try lia.
  exists s'. split; [done|]. eapply becomes_trans; [exact Hs1|exact Hs'|]. intros a. cbn beta.
  rewrite set_sel_set_sel, Hv1. repeat case_decide; try lia; try done. do 2 f_equal. lia.
Qed.

(** ** Stores and loads *)

Lemma same_value_stored v t n i ts :
  0 <= i -> i + Z.of_nat n <= 128 -> val t = v ->
  ts = (fun j => wrap64 (set_sel t (i + Z.of_nat j))) <$> seq 0 n -> same_value v i ts = true.
Proof.
  intros Hi Hn Hv ->. revert i Hi Hn. induction n as [|n IH]; intros i Hi Hn; cbn [seq fmap list_fmap same_value]; [done|].
  rewrite val_wrap64, sel_wrap64, val_set_sel, sel_set_sel, Hv, !Z.eqb_refl by lia.
  replace (i + Z.of_nat 0 =? i) with true by (symmetry; apply Z.eqb_eq; lia). cbn [negb].
  rewrite <- fmap_S_seq, <- list_fmap_compose. erewrite list_fmap_ext; [apply (IH (i + 1)); lia|].
  intros j x _. cbn. do 2 f_equal. lia.
Qed.

(** storing a tainted value to [k] bytes outside the shadowable range and
    loading them again returns and yields the identity that was stored, with
    no new one taken, although without the taint bit; the taints of all other
    bytes are kept. *)
Theorem taint_identity_roundtrip k d at1 at2 addr t :
  ready (shadow_memory d) -> shadow_base (shadow_memory d) <= addr -> 0 <= addr -> addr + Z.of_nat k <= two64 ->
  (0 < k <= 128)%nat -> is_tainted t = true ->
  exists d1 d2, TaintStore mmap bp k d at1 addr t = Ok d1 /\
    TaintLoad mmap bp k d1 at2 addr = Ok (set_val 0 (val t), d2) /\ gId d2 = gId d /\
    (forall a, taint_at (shadow_memory d2) a =
       if decide (addr <= a < addr + Z.of_nat k) then wrap64 (set_sel t (a - addr)) else taint_at (shadow_memory d) a).
Proof.
  intros Hr Hb H0 Hlt Hk Ht. unfold TaintStore. rewrite Ht. cbn [negb].
  destruct (store_taints_spec k 0 (shadow_memory d) addr t) as (s1 & Heq & Hr1 & Hb1 & Hv1); try done; try lia.
  rewrite Heq. cbn [mbind outcome_bind].
  destruct (load_taints_spec k s1 addr) as (s2 & Heq2 & Hr2 & Hb2 & Hv2); [done|lia..|].
  exists (with_shadow d s1), (with_shadow (with_shadow d s1) s2). split; [done|]. unfold TaintLoad. cbn [shadow_memory with_shadow]. rewrite Heq2. cbn [mbind outcome_bind].
  set (ts := (_ <$> seq 0 k)).
  assert (Hts : ts = (fun j => wrap64 (set_sel t (0 + Z.of_nat j))) <$> seq 0 k).
  { subst ts. apply list_fmap_ext. intros j x [-> Hj]%lookup_seq. rewrite Hv1, decide_True by lia. do 2 f_equal. lia. }
  rewrite land_1_tainted, tainted_foldl.
  assert (Hany : existsb is_tainted ts = true).
  { rewrite Hts. destruct k as [|k]; [lia|]. cbn. by rewrite is_tainted_wrap64, is_tainted_set_sel, Ht. }
  rewrite Hany, orb_true_r. cbn [negb].
  assert (Hfst : exists t0, ts !! 0%nat = Some t0 /\ val t0 = val t).
  { rewrite Hts. destruct k as [|k]; [lia|]. eexists. split; [done|]. by rewrite val_wrap64, val_set_sel. }
  destruct Hfst as (t0 & Ht0 & Hval). rewrite Ht0. cbn [deref_opt mbind outcome_bind].
  rewrite val_set_val, val_range, Hval, (same_value_stored _ t k 0 ts) by (done || lia).
  split; [done|]. split; [done|]. intros a. cbn. rewrite Hv2, Hv1. by rewrite !Z.add_0_r.
Qed.

Lemma TaintLoad_returns k d at2 addr :
  ready (shadow_memory d) -> shadow_base (shadow_memory d) <= addr -> 0 <= addr -> addr + Z.of_nat k <= two64 ->
  (0 < k)%nat -> exists t d', TaintLoad mmap bp k d at2 addr = Ok (t, d').
Proof.
  intros Hr Hb H0 Hlt Hk. destruct (load_taints_spec k (shadow_memory d) addr) as (s & Heq & _); try done.
  unfold TaintLoad. rewrite Heq. cbn [mbind outcome_bind]. case_match; [by eexists _, _|].
  destruct k as [|k]; [lia|]. cbn [seq fmap list_fmap lookup list_lookup deref_opt mbind outcome_bind].
  case_match; by eexists _, _.
Qed.

(** ** Copies *)

Lemma copy_up_spec n i s dest src :
  ready s -> shadow_base s <= dest -> shadow_base s <= src -> 0 <= dest -> 0 <= src -> 0 <= i ->
  dest + i + Z.of_nat n <= two64 -> src + i + Z.of_nat n <= two64 ->
  dest + i + Z.of_nat n <= src + i \/ src + i + Z.of_nat n <= dest + i ->
  exists s', copy_up mmap bp n i s dest src = Ok s' /\
    becomes s s' (fun a => if decide (dest + i <= a < dest + i + Z.of_nat n) then wrap64 (taint_at s (a - dest + src)) else taint_at s a).
Proof.
  revert i s. induction n as [|n IH]; intros i s Hr Hd Hs H0 H0' Hi Hl1 Hl2 Hsep; cbn [copy_up].
  { exists s. split; [done|]. split; [done|]. split; [done|]. intros a. by rewrite decide_False by lia. }
  rewrite !add64_small by (unfold two64 in *; lia).
  destruct (copy_taint_ready s (dest + i) (src + i) Hr) as (s1 & Heq & Hs1); [lia..|].
  rewrite Heq. cbn [mbind outcome_bind]. pose proof Hs1 as (Hr1 & Hb1 & Hv1).
  destruct (IH (i + 1) s1) as (s' & Heq' & Hs'); try done; try lia.
  exists s'. split; [done|]. eapply becomes_trans; [exact Hs1|exact Hs'|]. intros a. cbn beta.
  rewrite !Hv1. repeat case_decide; try lia; try done. do 2 f_equal. lia.
Qed.

Lemma copy_down_spec n s dest src :
  ready s -> shadow_base s <= dest -> shadow_base s <= src -> 0 <= dest -> 0 <= src ->
  dest + Z.of_nat n <= two64 -> src + Z.of_nat n <= two64 ->
  dest + Z.of_nat n <= src \/ src + Z.of_nat n <= dest ->
  exists s', copy_down mmap bp n s dest src = Ok s' /\
    becomes s s' (fun a => if decide (dest <= a < dest + Z.of_nat n) then wrap64 (taint_at s (a - dest + src)) else taint_at s a).
Proof.
  revert s. induction n as [|n IH]; intros s Hr Hd Hs H0 H0' Hl1 Hl2 Hsep; cbn [copy_down].
  { exists s. split; [done|]. split; [done|]. split; [done|]. intros a. by rewrite decide_False by lia. }
  rewrite !add64_small by (unfold two64 in *; lia).
  destruct (copy_taint_ready s (dest + Z.of_nat n) (src + Z.of_nat n) Hr) as (s1 & Heq & Hs1); [lia..|].
  rewrite Heq. cbn [mbind outcome_bind]. pose proof Hs1 as (Hr1 & Hb1 & Hv1).
  destruct (IH s1) as (s' & Heq' & Hs'); try done; try lia.
  exists s'. split; [done|]. eapply becomes_trans; [exact Hs1|exact Hs'|]. intros a. cbn beta.
  rewrite !Hv1. repeat case_decide; try lia; try done. do 2 f_equal. lia.
Qed.

(** Copied one byte downwards, last byte first, the last taint spreads. *)
Lemma copy_down_smears n s dest t :
  ready s -> shadow_base s <= dest -> 0 <= dest -> dest + 1 + Z.of_nat n <= two64 ->
  wrap64 (taint_at s (dest + Z.of_nat n)) = t ->
  exists s', copy_down mmap bp n s dest (dest + 1) = Ok s' /\
    becomes s s' (fun a => if decide (dest <= a < dest + Z.of_nat n) then t else taint_at s a).
Proof.
  revert s. induction n as [|n IH]; intros s Hr Hd H0 Hl Ht; cbn [copy_down].
  { exists s. split; [done|]. split; [done|]. split; [done|]. intros a. by rewrite decide_False by lia. }
  rewrite !add64_small by (unfold two64 in *; lia).
  destruct (copy_taint_ready s (dest + Z.of_nat n) (dest + 1 + Z.of_nat n) Hr) as (s1 & Heq & Hs1); [lia..|].
  rewrite Heq. cbn [mbind outcome_bind]. pose proof Hs1 as (Hr1 & Hb1 & Hv1).
  assert (Ht1 : taint_at s1 (dest + Z.of_nat n) = t).
  { rewrite Hv1, decide_True by done. rewrite <- Ht. do 2 f_equal. lia. }
  destruct (IH s1) as (s' & Heq' & Hs'); try done; try lia.
  { rewrite Ht1, <- Ht. apply wrap64_idem. }
  exists s'. split; [done|]. eapply becomes_trans; [exact Hs1|exact Hs'|]. intros a. cbn beta.
  repeat case_decide; try lia; try done.
  - replace a with (dest + Z.of_nat n) by lia. done.
  - rewrite Hv1. by rewrite decide_False by lia.
Qed.

(** A move of taints between disjoint ranges outside the shadowable range
    copies the taint of every byte and keeps all others. *)
Theorem TaintMemMove_disjoint d at1 dest at2 src at3 n :
  ready (shadow_memory d) -> shadow_base (shadow_memory d) <= dest -> shadow_base (shadow_memory d) <= src ->
  0 <= dest -> 0 <= src -> 0 <= n -> dest + n <= two64 -> src + n <= two64 -> dest + n <= src \/ src + n <= dest ->
  exists d', TaintMemMove mmap bp d at1 dest at2 src at3 n = Ok d' /\
    (forall a, taint_at (shadow_memory d') a =
       if decide (dest <= a < dest + n) then wrap64 (taint_at (shadow_memory d) (a - dest + src))
       else taint_at (shadow_memory d) a).
Proof.
  intros Hr Hd Hs H0 H0' Hn Hl1 Hl2 Hsep. unfold TaintMemMove. destruct (Z.eqb_spec n 0) as [->|Hne].
  { exists d. split; [done|]. intros a. by rewrite decide_False by lia. }
  destruct (Z.ltb_spec dest src).
  - destruct (copy_down_spec (Z.to_nat n) (shadow_memory d) dest src) as (s' & Heq & _ & _ & Hv); try done; try lia.
    rewrite Heq. eexists. split; [done|]. intros a. cbn. by rewrite Hv, Z2Nat.id by lia.
  - destruct (copy_up_spec (Z.to_nat n) 0 (shadow_memory d) dest src) as (s' & Heq & _ & _ & Hv); try done; try lia.
    rewrite Heq. eexists. split; [done|]. intros a. cbn. by rewrite Hv, Z2Nat.id, !Z.add_0_r by lia.
Qed.

(** A move of [n] taints to the addresses one byte below goes from the
    last byte to the first, the direction that overwrites what is still to be
    moved: every byte gets the taint of the last one, where a move would give
    each the taint of its successor. *)
Theorem TaintMemMove_overlap_smears d at1 dest at2 at3 n :
  ready (shadow_memory d) -> shadow_base (shadow_memory d) <= dest -> 0 <= dest -> 0 <= n -> dest + 1 + n <= two64 ->
  exists d', TaintMemMove mmap bp d at1 dest at2 (dest + 1) at3 n = Ok d' /\
    (forall a, dest <= a < dest + n -> taint_at (shadow_memory d') a = wrap64 (taint_at (shadow_memory d) (dest + n))).
Proof.
  intros Hr Hd H0 Hn Hl. unfold TaintMemMove. destruct (Z.eqb_spec n 0) as [->|Hne].
  { exists d. split; [done|]. lia. }
  destruct (Z.ltb_spec dest (dest + 1)); [|lia].
  destruct (copy_down_smears (Z.to_nat n) (shadow_memory d) dest (wrap64 (taint_at (shadow_memory d) (dest + n))))
    as (s' & Heq & _ & _ & Hv); try done; try lia.
  { by rewrite Z2Nat.id by lia. }
  rewrite Heq. eexists. split; [done|]. intros a Ha. cbn. by rewrite Hv, decide_True by lia.
Qed.
End out_of_range.

(** ** Overlapping objects *)

(** A taint is its fields. *)
Lemma taint_fields t : t mod 2 ^ 56 = Z.b2z (is_tainted t) + 2 * sel t + 256 * val t.
Proof.
  unfold is_tainted, sel, val. rewrite !Z.land_ones, !Z.shiftr_div_pow2, Z.bit0_mod by lia.
  change (2 ^ 56) with (2 * 2 ^ 55). rewrite Z.rem_mul_r by lia. change (2 ^ 55) with (2 ^ 7 * 2 ^ 48).
  rewrite Z.rem_mul_r, Z.div_div by lia. change (2 * 2 ^ 7) with (2 ^ 8). change (2 ^ 1) with 2. lia.
Qed.

Lemma val_mod t : val t = t / 256 mod 2 ^ 48.
Proof. unfold val. by rewrite Z.land_ones, Z.shiftr_div_pow2 by lia. Qed.

Lemma le_bytes_succ n t : le_bytes (S n) t = t mod 256 :: le_bytes n (t / 256).
Proof. done. Qed.

Lemma object_bytes_cons m p n : object_bytes m p (S n) = byte_at m p :: object_bytes m (p + 1) n.
Proof.
  unfold object_bytes. cbn [seq fmap list_fmap]. rewrite Z.add_0_r. f_equal. rewrite <- fmap_S_seq, <- list_fmap_compose.
  apply list_fmap_ext. intros i x _. cbn. f_equal. lia.
Qed.

Lemma object_bytes_take m p n k : (n <= k)%nat -> object_bytes m p n = take n (object_bytes m p k).
Proof.
  revert p k. induction n as [|n IH]; intros p [|k] Hk; try done; try lia.
  rewrite !object_bytes_cons. cbn [take]. f_equal. apply IH. lia.
Qed.

(** Two taints stored one byte apart: the first one reads as its own lowest
    byte followed by seven bytes of the second. *)
Lemma read_overlapped m p t0 t1 :
  le_value (object_bytes (put_bytes (put_bytes m p (le_bytes 8 t0)) (p + 1) (le_bytes 8 t1)) p 8) =
    t0 mod 256 + 256 * (t1 mod 2 ^ 56).
Proof.
  set (m' := put_bytes _ (p + 1) _).
  assert (H : object_bytes m' p 8 = t0 mod 256 :: take 7 (le_bytes 8 t1)).
  { rewrite object_bytes_cons, (object_bytes_take m' (p + 1) 7 8) by lia. f_equal.
    - subst m'. unfold byte_at. rewrite lookup_put_bytes by lia. rewrite le_bytes_succ. cbn [put_bytes].
      rewrite lookup_put_bytes by lia. by rewrite lookup_insert_eq.
    - f_equal. pose proof (read_put_bytes (put_bytes m p (le_bytes 8 t0)) (p + 1) (le_bytes 8 t1)) as Hr.
      by rewrite length_le_bytes in Hr. }
  rewrite H. cbn [le_value]. f_equal. f_equal. change (take 7 (le_bytes 8 t1)) with (le_bytes 7 t1).
  by rewrite le_value_le_bytes.
Qed.

Section in_range.
Context (mmap : nat -> Z -> Z -> bool -> option Z) (bp : list Z).

Definition mapped_at (s : ShadowMemory) (p : Z) : Prop := object_mapped s p 8 = true.

(** An access to an object that is mapped. *)
Lemma At_mapped s addr :
  shadow_granularity s = 0 -> addr < shadow_base s -> page_mapped s (addr + shadow_base s) = true ->
  exists s', At_Taint mmap bp s addr = Ok (InRange (addr + shadow_base s), s') /\ host s' = host s /\ same_shape s s' /\
    shadow_pages s' = shadow_pages s /\ last_shadow_page_size s' = last_shadow_page_size s.
Proof.
  intros Hg Ha Hm. unfold At_Taint, At. destruct (Z.ltb_spec addr (shadow_base s)); [|lia]. cbv zeta.
  rewrite Hg, Z.shiftr_0_r. unfold force_byte. change (page_mapped (with_last _ _ _ _)) with (page_mapped s). rewrite Hm.
  cbn [mbind outcome_bind]. eexists. split; [done|]. done.
Qed.

Lemma object_mapped_pages s s' p n :
  shadow_pages s' = shadow_pages s -> last_shadow_page_size s' = last_shadow_page_size s ->
  object_mapped s' p n = object_mapped s p n.
Proof. intros Hp Hs. unfold object_mapped, page_mapped. by rewrite Hp, Hs. Qed.

Lemma store_at_mapped s addr t :
  shadow_granularity s = 0 -> addr < shadow_base s -> mapped_at s (addr + shadow_base s) ->
  exists s', store_at mmap bp s addr t = Ok s' /\
    host s' = put_bytes (host s) (addr + shadow_base s) (le_bytes 8 t) /\ same_shape s s' /\
    shadow_pages s' = shadow_pages s /\ last_shadow_page_size s' = last_shadow_page_size s.
Proof.
  intros Hg Ha Hm. destruct (At_mapped s addr Hg Ha) as (s1 & Heq & Hh & Hsh & Hp & Hz).
  { unfold mapped_at, object_mapped in Hm. cbn in Hm. rewrite Z.add_0_r in Hm. bool_to_prop. done. }
  unfold store_at. rewrite Heq. cbn [mbind outcome_bind]. unfold set_ref.
  rewrite (object_mapped_pages s s1), Hm by done. eexists. split; [done|]. cbn. rewrite Hh. split_and!; try done.
  by destruct Hsh.
Qed.

Lemma load_at_mapped s addr :
  shadow_granularity s = 0 -> addr < shadow_base s -> mapped_at s (addr + shadow_base s) ->
  exists s', load_at mmap bp s addr = Ok (le_value (object_bytes (host s) (addr + shadow_base s) 8), s') /\
    host s' = host s /\ same_shape s s' /\
    shadow_pages s' = shadow_pages s /\ last_shadow_page_size s' = last_shadow_page_size s.
Proof.
  intros Hg Ha Hm. destruct (At_mapped s addr Hg Ha) as (s1 & Heq & Hh & Hsh & Hp & Hz).
  { unfold mapped_at, object_mapped in Hm. cbn in Hm. rewrite Z.add_0_r in Hm. bool_to_prop. done. }
  unfold load_at. rewrite Heq. cbn [mbind outcome_bind]. unfold get_ref.
  rewrite (object_mapped_pages s s1), Hm, Hh by done. by exists s1.
Qed.

(** the taints of neighbouring bytes of the shadowable range overlap,
    since their eight-byte objects lie one byte apart: after a two-byte value
    is stored, loading it takes a new identity instead of the one stored. *)
Theorem neighbouring_taints_overlap d at1 at2 addr t :
  let s := shadow_memory d in
  shadow_granularity s = 0 -> 0 <= addr -> addr + 1 < shadow_base s < two64 ->
  mapped_at s (addr + shadow_base s) -> mapped_at s (addr + 1 + shadow_base s) ->
  is_tainted t = true -> val t < 2 ^ 40 ->
  exists d1 d2, TaintStore mmap bp 2 d at1 addr t = Ok d1 /\
    TaintLoad mmap bp 2 d1 at2 addr = Ok (set_val (set_val 0 ((3 + 256 * val t))) (gId d), d2) /\
    gId d2 = add64 (gId d) 1.
Proof.
  cbv zeta. intros Hg H0 Ha Hm0 Hm1 Ht Hv. set (t1 := set_sel (set_sel t 0) 1).
  destruct (store_at_mapped (shadow_memory d) addr (set_sel t 0) Hg) as (s1 & E1 & Hh1 & Hsh1 & Hp1 & Hz1); [lia|done|].
  destruct (store_at_mapped s1 (addr + 1) t1) as (s2 & E2 & Hh2 & Hsh2 & Hp2 & Hz2);
    rewrite ?(sh_gran _ _ Hsh1), ?(sh_base _ _ Hsh1); [done|lia|unfold mapped_at; by rewrite (object_mapped_pages (shadow_memory d))|].
  destruct (load_at_mapped s2 addr) as (s3 & E3 & Hh3 & Hsh3 & Hp3 & Hz3);
    rewrite ?(sh_gran _ _ Hsh2), ?(sh_base _ _ Hsh2), ?(sh_gran _ _ Hsh1), ?(sh_base _ _ Hsh1);
    [done|lia|unfold mapped_at; rewrite (object_mapped_pages (shadow_memory d)); congruence|].
  destruct (load_at_mapped s3 (addr + 1)) as (s4 & E4 & Hh4 & Hsh4 & Hp4 & Hz4);
    rewrite ?(sh_gran _ _ Hsh3), ?(sh_base _ _ Hsh3), ?(sh_gran _ _ Hsh2), ?(sh_base _ _ Hsh2), ?(sh_gran _ _ Hsh1), ?(sh_base _ _ Hsh1);
    [done|lia|unfold mapped_at; rewrite (object_mapped_pages (shadow_memory d)); congruence|].
  assert (Hb2 : shadow_base s2 = shadow_base (shadow_memory d)) by (rewrite (sh_base _ _ Hsh2); apply Hsh1).
  assert (Hb3 : shadow_base s3 = shadow_base (shadow_memory d)) by (rewrite (sh_base _ _ Hsh3); apply Hb2).
  rewrite Hh2, Hh1, Hb2, (sh_base _ _ Hsh1) in E3. rewrite Hh3, Hh2, Hh1, Hb3, (sh_base _ _ Hsh1) in E4.
  replace (addr + 1 + shadow_base (shadow_memory d)) with (addr + shadow_base (shadow_memory d) + 1) in E3, E4 by lia.
  rewrite read_overlapped in E3. rewrite read_write_taint in E4.
  exists (with_shadow d s2), (with_gId (with_shadow (with_shadow d s2) s4) (add64 (gId d) 1)).
  split.
  { unfold TaintStore. rewrite Ht. cbn [negb store_taints]. rewrite !add64_small by (unfold two64 in *; lia).
    rewrite Z.add_0_r, E1. cbn [mbind outcome_bind].
    change (addr + (0 + 1)) with (addr + 1). change (set_sel (set_sel t 0) (0 + 1)) with t1. by rewrite E2. }
  unfold TaintLoad. cbn [shadow_memory with_shadow load_taints]. rewrite E3. cbn [mbind outcome_bind].
  rewrite add64_small by (unfold two64 in *; lia). rewrite E4. cbn [mbind outcome_bind foldl].
  set (t0' := _ mod 256 + _). rewrite land_1_tainted. change (Z.lor (Z.lor 0 t0') (wrap64 t1)) with (foldl Z.lor 0 [t0'; wrap64 t1]).
  rewrite tainted_foldl. cbn [existsb]. rewrite is_tainted_wrap64. unfold t1 at 1. rewrite !is_tainted_set_sel, Ht.
  rewrite !orb_true_r. cbn [orb negb deref_opt lookup list_lookup mbind outcome_bind].
  assert (Hval : val t0' = 3 + 256 * val t).
  { rewrite val_mod. subst t0'. rewrite Z.add_comm, Z.mul_comm, Z.div_add_l by lia.
    rewrite (Z.div_small (_ mod 256)), Z.add_0_r by (apply Z.mod_pos_bound; lia).
    rewrite taint_fields. subst t1. rewrite !is_tainted_set_sel, Ht, !val_set_sel, sel_set_sel by lia. cbn [Z.b2z].
    assert (0 <= val t) by (rewrite val_mod; apply Z.mod_pos_bound; lia). rewrite Z.mod_small by lia. lia. }
  rewrite val_set_val, val_range, Hval.
  assert (Hne : same_value (3 + 256 * val t) 0 [t0'; wrap64 t1] = false).
  { cbn [same_value]. rewrite Hval, Z.eqb_refl. cbn [negb]. case_match; [done|]. rewrite val_wrap64. subst t1.
    rewrite !val_set_sel. destruct (Z.eqb_spec (val t) (3 + 256 * val t)); [|done].
    assert (0 <= val t) by (rewrite val_mod; apply Z.mod_pos_bound; lia). lia. }
  rewrite Hne. done.
Qed.
End in_range.

(** ** Instances *)

Lemma demo_mmap_any n addr sz : exists ret, demo_mmap n addr sz false = Some ret.
Proof. by eexists. Qed.
Lemma demo_mmap_fixed n addr sz : 0 < addr -> demo_mmap n addr sz true = Some addr.
Proof. intros. unfold demo_mmap. f_equal. lia. Qed.
Lemma bp_nonempty_204 : (0 < length [204])%nat.
Proof. cbn. lia. Qed.
Lemma ready_new : ready (shadow_memory DataFlowTracker_new).
Proof. split; [apply objects_ok_new|done]. Qed.

(** A tainted value with identity 7, and an address outside the shadowable
    range. *)
Definition demo_taint : Z := set_val (set_tainted 0 true) 7.
Definition demo_addr : Z := 140737488347136.

Lemma TaintLoad_never_tainted_witness :
  exists t d, TaintLoad demo_mmap [204] 4 DataFlowTracker_new 0 demo_addr = Ok (t, d) /\ is_tainted t = false.
Proof.
  destruct (TaintLoad_returns demo_mmap [204] demo_mmap_nonnull demo_mmap_any demo_mmap_fixed bp_nonempty_204
              4 DataFlowTracker_new 0 demo_addr ready_new) as (t & d & E); [vm_compute; congruence..|lia|].
  exists t, d. split; [done|]. exact (TaintLoad_never_tainted _ _ _ _ _ _ _ _ E).
Defined.

Lemma taint_identity_roundtrip_witness :
  exists d1 d2, TaintStore demo_mmap [204] 4 DataFlowTracker_new 0 demo_addr demo_taint = Ok d1 /\
    TaintLoad demo_mmap [204] 4 d1 0 demo_addr = Ok (set_val 0 (val demo_taint), d2).
Proof.
  destruct (taint_identity_roundtrip demo_mmap [204] demo_mmap_nonnull demo_mmap_any demo_mmap_fixed bp_nonempty_204
              4 DataFlowTracker_new 0 0 demo_addr demo_taint ready_new) as (d1 & d2 & H1 & H2 & _);
    [vm_compute; congruence..|lia|reflexivity|].
  exists d1, d2. exact (conj H1 H2).
Defined.

Lemma TaintMemMove_disjoint_witness :
  exists d, TaintMemMove demo_mmap [204] DataFlowTracker_new 0 demo_addr 0 (demo_addr + 64) 0 16 = Ok d.
Proof.
  destruct (TaintMemMove_disjoint demo_mmap [204] demo_mmap_nonnull demo_mmap_any demo_mmap_fixed bp_nonempty_204
              DataFlowTracker_new 0 demo_addr 0 (demo_addr + 64) 0 16 ready_new) as (d & H & _);
    [vm_compute; congruence..|left; vm_compute; congruence|]. by exists d.
Defined.

Lemma TaintMemMove_overlap_smears_witness :
  exists d, TaintMemMove demo_mmap [204] DataFlowTracker_new 0 demo_addr 0 (demo_addr + 1) 0 16 = Ok d.
Proof.
  destruct (TaintMemMove_overlap_smears demo_mmap [204] demo_mmap_nonnull demo_mmap_any demo_mmap_fixed bp_nonempty_204
              DataFlowTracker_new 0 demo_addr 0 0 16 ready_new) as (d & H & _);
    [vm_compute; congruence..|]. by exists d.
Defined.

(** The first page of the shadow is mapped. *)
Definition demo_mapped : Tracker :=
  with_shadow DataFlowTracker_new
    (MkShadow 0 17592186044416 12 0 0 0 [17592186044416] 32768 ∅ (AreaAllocator_new kAreaRW 0 4096) ∅).

Lemma neighbouring_taints_overlap_witness :
  exists d1 d2, TaintStore demo_mmap [204] 2 demo_mapped 0 4096 demo_taint = Ok d1 /\
    TaintLoad demo_mmap [204] 2 d1 0 4096 = Ok (set_val (set_val 0 (3 + 256 * val demo_taint)) (gId demo_mapped), d2).
Proof.
  destruct (neighbouring_taints_overlap demo_mmap [204] demo_mapped 0 0 4096 demo_taint) as (d1 & d2 & H1 & H2 & _);
    [reflexivity|lia|vm_compute; split; congruence|reflexivity|reflexivity|reflexivity|reflexivity|].
  exists d1, d2. exact (conj H1 H2).
Defined.
