(* ===== verification/Coverage.v ===== *)
(** * Functions as the coverage tools see them

    The part of LLVM's IR that [tools/Fuzzer/BranchCoverage.cpp] and
    [tools/Fuzzer/ValueCoverage.cpp] inspect and build: functions of blocks
    with phi nodes, instructions and a terminator, and how they run.  Values
    and blocks are numbered; what other instructions compute is a parameter. *)

From S2P Require Import Prelude.

(** ** Syntax *)

Inductive Operand := OVar (x : Z) | OConst (c : Z).

(** Types of compared values, as far as [ValueCoverage] tells them apart. *)
Inductive CmpType := TInt (bits : Z) | TFloat | TDouble | TPointer | TOther (size : Z).
#[global] Instance CmpType_eq_dec : EqDecision CmpType.
Proof. solve_decision. Defined.

(** Calls of the coverage functions, with the values they are passed. *)
Inductive Event :=
| CovBranch (taken not_taken : Z)
| CovSwitch (taken : Z) (edges : list Z)
| CovCompare (size here predicate lhs rhs : Z).

Inductive Inst {Op : Type} :=
| IOp (d : Z) (op : Op) (args : list Operand)
| ICmp (d predicate : Z) (ty : CmpType) (lhs rhs : Operand)
| IAlloca (d : Z)
| IStore (v : Operand) (p : Z)
| ILoad (d p : Z)
| IZExt (d : Z) (to_bits : Z) (v : Operand)
| IBitCast (d : Z) (to_bits : Z) (v : Operand)
| ICover (e : Event)
| ICoverCompare (size here predicate : Z) (lhs rhs : Operand).
Arguments Inst : clear implicits.

(** The successors of a switch are its default block and the blocks of its
    cases, in this order. *)
Inductive Term :=
| TBr (to : Z)
| TCondBr (cond : Operand) (taken not_taken : Z)
| TSwitch (v : Operand) (default : Z) (cases : list (Z * Z))
| TEnd.

Definition successors (t : Term) : list Z :=
  match t with
  | TBr to => [to]
  | TCondBr _ b1 b2 => [b1; b2]
  | TSwitch _ d cases => d :: cases.*2
  | TEnd => []
  end.

Definition set_case (i : nat) (b : Z) (cases : list (Z * Z)) : list (Z * Z) :=
  alter (fun c => (fst c, b)) i cases.

(** [setSuccessor(i, b)] *)
Definition set_successor (t : Term) (i : nat) (b : Z) : Term :=
  match t, i with
  | TBr _, O => TBr b
  | TCondBr c _ b2, O => TCondBr c b b2
  | TCondBr c b1 _, 1%nat => TCondBr c b1 b
  | TSwitch v _ cases, O => TSwitch v b cases
  | TSwitch v d cases, S i => TSwitch v d (set_case i b cases)
  | _, _ => t
  end.

Record Phi := MkPhi { phi_def : Z; incoming : list (Z * Operand) }.

(** [can_insert]: the block has a first insertion point. *)
Record Block {Op : Type} := MkBlock { phis : list Phi; body : list (Inst Op); term : Term; can_insert : bool }.
Arguments Block : clear implicits.
Arguments MkBlock {Op}.

(** Blocks in layout order; [next_block] and [next_value] are unused. *)
Record Func {Op : Type} := MkFunc {
  naked : bool;
  layout : list Z;
  blocks : gmap Z (Block Op);
  next_block : Z;
  next_value : Z
}.
Arguments Func : clear implicits.
Arguments MkFunc {Op}.

(** ** Execution *)

Section exec.
Context {Op W : Type} (eval_op : Op -> list Z -> W -> Z * W) (eval_cmp : Z -> CmpType -> Z -> Z -> Z).

(** The values of instructions, the contents of stack slots and the rest of
    the program's state. *)
Record State := MkState { env : gmap Z Z; slots : gmap Z Z; world : W }.

Definition value (e : gmap Z Z) (o : Operand) : Z :=
  match o with OVar x => default 0 (e !! x) | OConst c => c end.

Definition set_env (s : State) (d v : Z) : State := MkState (<[d := v]> (env s)) (slots s) (world s).

Definition exec_inst (i : Inst Op) (s : State) : list Event * State :=
  match i with
  | IOp d op args => let '(v, w) := eval_op op (value (env s) <$> args) (world s) in ([], MkState (<[d := v]> (env s)) (slots s) w)
  | ICmp d p ty l r => ([], set_env s d (eval_cmp p ty (value (env s) l) (value (env s) r)))
  | IAlloca d => ([], MkState (env s) (<[d := 0]> (slots s)) (world s))
  | IStore v p => ([], MkState (env s) (<[p := value (env s) v]> (slots s)) (world s))
  | ILoad d p => ([], set_env s d (default 0 (slots s !! p)))
  | IZExt d _ v | IBitCast d _ v => ([], set_env s d (value (env s) v))
  | ICover e => ([e], s)
  | ICoverCompare size here p l r => ([CovCompare size here p (value (env s) l) (value (env s) r)], s)
  end.

Fixpoint exec_body (l : list (Inst Op)) (s : State) : list Event * State :=
  match l with
  | [] => ([], s)
  | i :: l => let '(ev1, s) := exec_inst i s in let '(ev2, s) := exec_body l s in (ev1 ++ ev2, s)
  end.

(** The index of the successor the terminator chooses. *)
Definition choose (t : Term) (e : gmap Z Z) : option nat :=
  match t with
  | TBr _ => Some O
  | TCondBr c _ _ => Some (if value e c =? 0 then 1%nat else 0%nat)
  | TSwitch v _ cases =>
      Some (match list_find (fun c => fst c = value e v) cases with Some (i, _) => S i | None => O end)
  | TEnd => None
  end.

Definition incoming_of (from : Z) (p : Phi) : option Operand :=
  snd <$> head (filter (fun e => fst e = from) (incoming p)).

(** All phi nodes of a block read the values of the edge's source. *)
Fixpoint phi_values (from : Z) (ps : list Phi) (e : gmap Z Z) : option (list (Z * Z)) :=
  match ps with
  | [] => Some []
  | p :: ps => o ← incoming_of from p; vs ← phi_values from ps e; Some ((phi_def p, value e o) :: vs)
  end.

Definition assign (vs : list (Z * Z)) (s : State) : State := foldl (fun s v => set_env s (fst v) (snd v)) s vs.

Definition enter (f : Func Op) (from to : Z) (s : State) : option (Z * State) :=
  b ← blocks f !! to;
  vs ← phi_values from (phis b) (env s);
  Some (to, assign vs s).

(** Runs the block the program is in: its events, the index of the edge it
    leaves through, and where it gets. *)
Definition next (f : Func Op) (c : Z * State) : option (list Event * nat * (Z * State)) :=
  b ← blocks f !! fst c;
  let '(ev, s) := exec_body (body b) (snd c) in
  i ← choose (term b) (env s);
  to ← successors (term b) !! i;
  c' ← enter f (fst c) to s;
  Some (ev, i, c').

(** [n] blocks: the events, and where the program is. *)
Fixpoint run (n : nat) (f : Func Op) (c : Z * State) : option (list Event * (Z * State)) :=
  match n with
  | O => Some ([], c)
  | S n => '(ev1, _, c) ← next f c; '(ev2, c) ← run n f c; Some (ev1 ++ ev2, c)
  end.
End exec.
Arguments State : clear implicits.
Arguments MkState {W}.

(** The events and the state of a block that ends the function. *)
Definition halt {Op W : Type} (eval_op : Op -> list Z -> W -> Z * W) (eval_cmp : Z -> CmpType -> Z -> Z -> Z)
    (f : Func Op) (c : Z * State W) : option (list Event * State W) :=
  b ← blocks f !! fst c;
  match term b with TEnd => Some (exec_body eval_op eval_cmp (body b) (snd c)) | _ => None end.

(** ** Instrumentation of branches

    Models [tools/Fuzzer/BranchCoverage.cpp]: every edge of a conditional
    branch or switch gets a block of its own that reports the edge's
    location.  The location counter is [PersistentLocation::loc]. *)

Section branch.
Context {Op : Type}.

Definition with_block (f : Func Op) (id : Z) (b : Block Op) : Func Op :=
  MkFunc (naked f) (layout f) (<[id := b]> (blocks f)) (next_block f) (next_value f).

(** [inst->setSuccessor(i, to)] for the terminator of block [b]. *)
Definition set_edge (f : Func Op) (b : Z) (i : nat) (to : Z) : outcome (Func Op) :=
  blk ← deref_opt (blocks f !! b);
  Ok (with_block f b (MkBlock (phis blk) (body blk) (set_successor (term blk) i to) (can_insert blk))).

(** A call at the first insertion point of a block. *)
Definition insert_call (f : Func Op) (b : Z) (e : Event) : outcome (Func Op) :=
  blk ← deref_opt (blocks f !! b);
  Ok (with_block f b (MkBlock (phis blk) (ICover e :: body blk) (term blk) (can_insert blk))).

Definition ShouldInstrumentEdge (f : Func Op) (from to : Z) : outcome bool :=
  blk ← deref_opt (blocks f !! to); Ok (can_insert blk).

(** One phi node of [to]: its first entry for [from] is moved to [mid], its
    value passed through a stack slot. *)
Definition forward_phi (from mid value : Z) (p : Phi) : Phi * list (Inst Op) * Z :=
  match list_find (fun e => fst e = from) (incoming p) with
  | None => (p, [], value)
  | Some (index, (_, v)) =>
      let tmp := value in
      let new_incoming := value + 1 in
      (MkPhi (phi_def p) (<[index := (mid, OVar new_incoming)]> (incoming p)),
       [IAlloca tmp; IStore v tmp; ILoad new_incoming tmp], value + 2)
  end.

Fixpoint forward_phis (from mid value : Z) (ps : list Phi) : list Phi * list (Inst Op) * Z :=
  match ps with
  | [] => ([], [], value)
  | p :: ps =>
      let '(p, insts, value) := forward_phi from mid value p in
      let '(ps, more, value) := forward_phis from mid value ps in
      (p :: ps, insts ++ more, value)
  end.

Fixpoint insert_before (x to : Z) (l : list Z) : list Z :=
  match l with
  | [] => []
  | y :: l => if y =? to then x :: y :: l else y :: insert_before x to l
  end.

Definition BlockForEdge (f : Func Op) (from to : Z) : outcome (Z * Func Op) :=
  dst ← deref_opt (blocks f !! to);
  let mid := next_block f in
  let '(ps, insts, value) := forward_phis from mid (next_value f) (phis dst) in
  let dst := MkBlock ps (body dst) (term dst) (can_insert dst) in
  Ok (mid, MkFunc (naked f) (insert_before mid to (layout f))
             (<[mid := MkBlock [] insts (TBr to) true]> (<[to := dst]> (blocks f))) (mid + 1) value).

(** [loc++] *)
Definition next_loc (loc : Z) : Z := wrap32 (loc + 1).

(** A conditional branch: one of its edges. *)
Definition instrument_edge (f : Func Op) (b : Z) (i : nat) (to : Z) (e : Event) : outcome (Func Op) :=
  should ← ShouldInstrumentEdge f b to;
  if (should : bool) then
    '(mid, f) ← BlockForEdge f b to;
    f ← set_edge f b i mid;
    insert_call f mid e
  else Ok f.

Definition Instrument_branch (f : Func Op) (loc b : Z) : outcome (Func Op * Z) :=
  blk ← deref_opt (blocks f !! b);
  match term blk with
  | TCondBr _ taken_block not_taken_block =>
      let loc1 := next_loc loc in
      f ← instrument_edge f b 0 taken_block (CovBranch loc loc1);
      f ← instrument_edge f b 1 not_taken_block (CovBranch loc1 loc);
      Ok (f, next_loc loc1)
  | _ => Ok (f, loc)
  end.

(** The loop over the successors [i], ..., [i + n - 1] of a switch: the blocks
    and locations of the edges that are instrumented. *)
Fixpoint switch_edges (n : nat) (i : nat) (f : Func Op) (loc b : Z) : outcome (Func Op * Z * list Z * list Z) :=
  match n with
  | O => Ok (f, loc, [], [])
  | S n =>
      blk ← deref_opt (blocks f !! b);
      to ← deref_opt (successors (term blk) !! i);
      should ← ShouldInstrumentEdge f b to;
      if (should : bool) then
        '(mid, f) ← BlockForEdge f b to;
        f ← set_edge f b i mid;
        '(f, loc', mids, locs) ← switch_edges n (S i) f (next_loc loc) b;
        Ok (f, loc', mid :: mids, loc :: locs)
      else switch_edges n (S i) f loc b
  end.

Fixpoint switch_calls (f : Func Op) (mids locs all : list Z) : outcome (Func Op) :=
  match mids, locs with
  | mid :: mids, loc :: locs => f ← insert_call f mid (CovSwitch loc all); switch_calls f mids locs all
  | _, _ => Ok f
  end.

Definition Instrument_switch (f : Func Op) (loc b : Z) : outcome (Func Op * Z) :=
  blk ← deref_opt (blocks f !! b);
  match term blk with
  | TSwitch _ _ cases =>
      '(f, loc, mids, locs) ← switch_edges (length cases) 0 f loc b;
      f ← switch_calls f mids locs locs;
      Ok (f, loc)
  | _ => Ok (f, loc)
  end.

Fixpoint instrument_all (g : Func Op -> Z -> Z -> outcome (Func Op * Z)) (f : Func Op) (loc : Z) (bs : list Z) :
    outcome (Func Op * Z) :=
  match bs with
  | [] => Ok (f, loc)
  | b :: bs => '(f, loc) ← g f loc b; instrument_all g f loc bs
  end.

(** The blocks that end in a branch, and those that end in a switch. *)
Definition is_branch (t : Term) : bool := match t with TBr _ | TCondBr _ _ _ => true | _ => false end.
Definition is_switch (t : Term) : bool := match t with TSwitch _ _ _ => true | _ => false end.
Definition ends_with (f : Func Op) (p : Term -> bool) (b : Z) : bool :=
  match blocks f !! b with Some blk => p (term blk) | None => false end.
Definition blocks_with (f : Func Op) (p : Term -> bool) : list Z := filter (fun b => ends_with f p b = true) (layout f).

Definition Branch_InstrumentTrace (f : Func Op) (loc pc : Z) : outcome (bool * Func Op * Z) :=
  if naked f then Ok (false, f, loc)
  else
    let branches := blocks_with f is_branch in
    let switches := blocks_with f is_switch in
    '(f, loc) ← instrument_all Instrument_branch f loc branches;
    '(f, loc) ← instrument_all Instrument_switch f loc switches;
    Ok (true, f, loc).

(** The loop behind the first [return] is not reached. *)
Definition Branch_InstrumentRuntime (m : list (Func Op)) : bool * list (Func Op) := (false, m).
End branch.
