(* ===== verification/BranchProps.v ===== *)
(** * Instrumented functions behave like the original ones

    Well-formed functions, the effect of giving one edge its own block, and
    the simulation between a function and its instrumented version. *)

From S2P Require Import Prelude Coverage.

(** ** Entries of phi nodes *)

Definition entries (from : Z) (p : Phi) : list (Z * Operand) := filter (fun e => fst e = from) (incoming p).

Lemma insert_middle {A} (l : list A) i e :
  l !! i = Some e -> exists l1 l2, l = l1 ++ e :: l2 /\ (forall y, <[i := y]> l = l1 ++ y :: l2) /\ l1 = take i l.
Proof.
  intros Hl. exists (take i l), (drop (S i) l). pose proof (take_drop_middle l i e Hl) as Hm. split_and!; [done| |done].
  intros y. rewrite <- Hm at 1. apply lookup_lt_Some in Hl.
  rewrite insert_app_r_alt by (rewrite length_take; lia). rewrite length_take, Nat.min_l by lia. by rewrite Nat.sub_diag.
Qed.

Lemma first_entry from l (idx : nat) e :
  list_find (fun e : Z * Operand => fst e = from) l = Some (idx, e) ->
  fst e = from /\ exists l1 l2, l = l1 ++ e :: l2 /\ Forall (fun e => fst e <> from) l1 /\
    forall y, <[idx := y]> l = l1 ++ y :: l2.
Proof.
  intros (Hl & Hf & Hno)%list_find_Some. split; [done|]. destruct (insert_middle l idx e Hl) as (l1 & l2 & H1 & H2 & H3).
  exists l1, l2. split; [done|]. split; [|done]. subst l1.
  apply Forall_lookup. intros j y Hj. apply lookup_take_Some in Hj as [Hj Hlt]. by apply (Hno j).
Qed.

Lemma filter_none {A} (P : A -> Prop) `{forall x, Decision (P x)} l : Forall (fun x => ~ P x) l -> filter P l = [].
Proof. induction 1 as [|x l Hx _ IH]; [done|]. by rewrite filter_cons_False. Qed.

(** Moving the first entry of [from] to [mid]. *)
Lemma entries_moved from mid l (idx : nat) e o :
  list_find (fun e : Z * Operand => fst e = from) l = Some (idx, e) -> mid <> from ->
  Forall (fun e => fst e <> mid) l ->
  filter (fun e => fst e = from) l = e :: filter (fun e => fst e = from) (<[idx := (mid, o)]> l) /\
  filter (fun e => fst e = mid) (<[idx := (mid, o)]> l) = [(mid, o)] /\
  (forall x, x <> from -> x <> mid ->
     filter (fun e => fst e = x) (<[idx := (mid, o)]> l) = filter (fun e => fst e = x) l).
Proof.
  intros (He & l1 & l2 & -> & H1 & Hins)%first_entry Hne Hno. rewrite Hins.
  apply Forall_app in Hno as [Hn1 Hn2]. apply Forall_cons in Hn2 as [_ Hn2].
  split_and!.
  - rewrite !filter_app, (filter_none _ l1) by done. rewrite filter_cons_True by done. by rewrite filter_cons_False.
  - rewrite filter_app, (filter_none _ l1) by done. rewrite filter_cons_True by done. by rewrite (filter_none _ l2).
  - intros x Hx Hx'. rewrite !filter_app, !filter_cons. by rewrite !decide_False by (cbn; congruence).
Qed.

Lemma list_find_entries from l :
  filter (fun e : Z * Operand => fst e = from) l <> [] -> exists idx e, list_find (fun e : Z * Operand => fst e = from) l = Some (idx, e).
Proof.
  intros Hne. destruct (list_find (fun e : Z * Operand => fst e = from) l) as [[idx e]|] eqn:E; [by exists idx, e|].
  apply list_find_None in E. by rewrite filter_none in Hne.
Qed.

(** ** Successors *)

Lemma successors_set t i b : (i < length (successors t))%nat -> successors (set_successor t i b) = <[i := b]> (successors t).
Proof.
  destruct t as [to|c b1 b2|v d cases|], i as [|i]; cbn [successors set_successor length]; try lia; try done.
  - by destruct i as [|[|]]; cbn; try lia.
  - intros Hi. change (<[S i := b]> (d :: cases.*2)) with (d :: <[i := b]> cases.*2). f_equal.
    unfold set_case. apply list_eq. intros j. rewrite list_lookup_fmap.
    destruct (decide (j = i)) as [->|Hj].
    + rewrite list_lookup_alter_eq, list_lookup_insert_eq by lia.
      rewrite length_fmap in Hi. destruct (lookup_lt_is_Some_2 cases i) as [c Hc]; [lia|]. by rewrite Hc.
    + rewrite list_lookup_alter_ne, list_lookup_insert_ne by done. by rewrite list_lookup_fmap.
Qed.

Lemma choose_set t i b e : choose (set_successor t i b) e = choose t e.
Proof.
  destruct t as [to|c b1 b2|v d cases|], i as [|i]; try done.
  - by destruct i as [|].
  - cbn. do 2 f_equal. unfold set_case. revert i. induction cases as [|[k to] cases IH]; intros i; [done|].
    destruct i as [|i]; cbn; [by case_decide|]. case_decide; [done|].
    specialize (IH i). destruct (list_find _ cases) as [[]|], (list_find _ (alter _ i cases)) as [[]|]; cbn in *; congruence.
Qed.

Definition edge_count (t : Term) (to : Z) : nat := length (filter (fun x => x = to) (successors t)).

Lemma filter_insert_count (l : list Z) i x to :
  l !! i = Some to -> x <> to ->
  length (filter (fun y => y = to) l) = S (length (filter (fun y => y = to) (<[i := x]> l))) /\
  (forall z, z <> to -> z <> x -> filter (fun y => y = z) (<[i := x]> l) = filter (fun y => y = z) l).
Proof.
  intros Hl Hne. destruct (insert_middle l i to Hl) as (l1 & l2 & -> & Hins & _). rewrite Hins. split.
  - rewrite !filter_app, filter_cons_True, filter_cons_False by done. rewrite !length_app. cbn. lia.
  - intros z Hz Hz'. rewrite !filter_app. by rewrite !filter_cons_False by done.
Qed.

(** ** Well-formed functions *)

Definition operand_below (n : Z) (o : Operand) : Prop := match o with OVar x => x < n | OConst _ => True end.

Section props.
Context {Op W : Type} (eval_op : Op -> list Z -> W -> Z * W) (eval_cmp : Z -> CmpType -> Z -> Z -> Z).
#[local] Abbreviation exec_body := (exec_body eval_op eval_cmp).
#[local] Abbreviation exec_inst := (exec_inst eval_op eval_cmp).
#[local] Abbreviation next := (next eval_op eval_cmp).
#[local] Abbreviation run := (run eval_op eval_cmp).
#[local] Abbreviation halt := (halt eval_op eval_cmp).

(** All values an instruction reads or defines. *)
Definition inst_below (n : Z) (i : Inst Op) : Prop :=
  match i with
  | IOp d _ args => d < n /\ Forall (operand_below n) args
  | ICmp d _ _ l r => d < n /\ operand_below n l /\ operand_below n r
  | IAlloca d => d < n
  | IStore v p => operand_below n v /\ p < n
  | ILoad d p => d < n /\ p < n
  | IZExt d _ v | IBitCast d _ v => d < n /\ operand_below n v
  | ICover _ => True
  | ICoverCompare _ _ _ l r => operand_below n l /\ operand_below n r
  end.

Definition term_below (n : Z) (t : Term) : Prop :=
  match t with TCondBr c _ _ => operand_below n c | TSwitch v _ _ => operand_below n v | _ => True end.

Definition phi_below (n : Z) (p : Phi) : Prop := phi_def p < n /\ Forall (fun e => operand_below n (snd e)) (incoming p).

Definition block_below (n : Z) (b : Block Op) : Prop :=
  Forall (phi_below n) (phis b) /\ Forall (inst_below n) (body b) /\ term_below n (term b).

(** Identifiers are below the next unused ones, successors exist, and every
    phi node has an entry for each edge, equal ones for the edges from the
    same block. *)
Record wf (f : Func Op) : Prop := {
  wf_ids b blk : blocks f !! b = Some blk -> b < next_block f /\ block_below (next_value f) blk;
  wf_succ b blk to : blocks f !! b = Some blk -> to ∈ successors (term blk) -> is_Some (blocks f !! to);
  wf_entry b blk p e : blocks f !! b = Some blk -> p ∈ phis blk -> e ∈ incoming p -> fst e < next_block f;
  wf_phi b blk to dst p : blocks f !! b = Some blk -> blocks f !! to = Some dst -> p ∈ phis dst ->
    (edge_count (term blk) to <= length (entries b p))%nat;
  wf_same to dst p b e1 e2 : blocks f !! to = Some dst -> p ∈ phis dst ->
    e1 ∈ entries b p -> e2 ∈ entries b p -> snd e1 = snd e2
}.

(** ** States that agree on the values below a bound *)

Record agree (n : Z) (s1 s2 : State W) : Prop := {
  ag_env x : x < n -> env s1 !! x = env s2 !! x;
  ag_slots x : x < n -> slots s1 !! x = slots s2 !! x;
  ag_world : world s1 = world s2
}.
#[global] Instance agree_equiv n : Equivalence (agree n).
Proof.
  split; [by split| |].
  - intros s1 s2 [He Hs Hw]. split; [intros x Hx; by rewrite He|intros x Hx; by rewrite Hs|done].
  - intros s1 s2 s3 [He Hs Hw] [He' Hs' Hw'].
    split; [intros x Hx; by rewrite He, He'|intros x Hx; by rewrite Hs, Hs'|congruence].
Qed.

Lemma agree_le n m s1 s2 : n <= m -> agree m s1 s2 -> agree n s1 s2.
Proof. intros Hle [He Hs Hw]. split; [intros; apply He; lia|intros; apply Hs; lia|done]. Qed.

Lemma value_agree n s1 s2 o : agree n s1 s2 -> operand_below n o -> value (env s1) o = value (env s2) o.
Proof. intros [He _ _]. destruct o as [x|c]; cbn; [|done]. intros Hx. by rewrite He. Qed.

Lemma set_env_agree n s1 s2 d v : agree n s1 s2 -> agree n (set_env s1 d v) (set_env s2 d v).
Proof.
  intros [He Hs Hw]. split; cbn; try done. intros x Hx. destruct (decide (d = x)) as [->|]; [by rewrite !lookup_insert_eq|].
  rewrite !lookup_insert_ne by done. auto.
Qed.

Lemma exec_inst_agree n i s1 s2 :
  agree n s1 s2 -> inst_below n i ->
  fst (exec_inst i s1) = fst (exec_inst i s2) /\ agree n (snd (exec_inst i s1)) (snd (exec_inst i s2)).
Proof.
  intros Ha Hi. pose proof (fun o => value_agree n s1 s2 o Ha) as Hv.
  destruct i as [d op args|d p ty l r|d|v p|d p|d b v|d b v|e|sz h p l r]; cbn in Hi |- *.
  - destruct Hi as [Hd Hargs]. rewrite (ag_world _ _ _ Ha).
    assert (value (env s1) <$> args = value (env s2) <$> args) as ->.
    { apply Forall_fmap_ext_1. eapply Forall_impl; [exact Hargs|]. auto. }
    destruct (eval_op op _ _) as [v w]. split; [done|].
    pose proof (set_env_agree n s1 s2 d v Ha) as [He Hs _]. by split.
  - destruct Hi as (Hd & Hl & Hr). rewrite !Hv by done. split; [done|]. by apply set_env_agree.
  - split; [done|]. destruct Ha as [He Hs Hw]. split; cbn; try done.
    intros x Hx. destruct (decide (d = x)) as [->|]; [by rewrite !lookup_insert_eq|]. rewrite !lookup_insert_ne; auto.
  - destruct Hi as [Ho Hp]. rewrite !Hv by done. split; [done|]. destruct Ha as [He Hs Hw]. split; cbn; try done.
    intros x Hx. destruct (decide (p = x)) as [->|]; [by rewrite !lookup_insert_eq|]. rewrite !lookup_insert_ne; auto.
  - destruct Hi as [Hd Hp]. rewrite (ag_slots _ _ _ Ha) by done. split; [done|]. by apply set_env_agree.
  - destruct Hi as [Hd Hp]. rewrite !Hv by done. split; [done|]. by apply set_env_agree.
  - destruct Hi as [Hd Hp]. rewrite !Hv by done. split; [done|]. by apply set_env_agree.
  - done.
  - destruct Hi as [Hl Hr]. by rewrite !Hv.
Qed.

Lemma exec_body_cons i l s :
  exec_body (i :: l) s =
    (fst (exec_inst i s) ++ fst (exec_body l (snd (exec_inst i s))), snd (exec_body l (snd (exec_inst i s)))).
Proof. cbn. destruct (exec_inst i s) as [ev1 s1]. cbn. by destruct (exec_body l s1). Qed.

Lemma exec_body_app l1 l2 s :
  exec_body (l1 ++ l2) s =
    (fst (exec_body l1 s) ++ fst (exec_body l2 (snd (exec_body l1 s))), snd (exec_body l2 (snd (exec_body l1 s)))).
Proof.
  revert s. induction l1 as [|i l1 IH]; intros s.
  - cbn [app Coverage.exec_body fst snd]. by destruct (exec_body l2 s).
  - cbn [app]. rewrite !exec_body_cons, IH. cbn [fst snd]. by rewrite app_assoc.
Qed.

Lemma exec_body_agree n l s1 s2 :
  agree n s1 s2 -> Forall (inst_below n) l ->
  fst (exec_body l s1) = fst (exec_body l s2) /\ agree n (snd (exec_body l s1)) (snd (exec_body l s2)).
Proof.
  intros Ha Hl. revert s1 s2 Ha. induction Hl as [|i l Hi _ IH]; intros s1 s2 Ha; [done|].
  rewrite !exec_body_cons. destruct (exec_inst_agree n i s1 s2 Ha Hi) as [He Hs].
  destruct (IH _ _ Hs) as [He' Hs']. cbn [fst snd]. split; [congruence|done].
Qed.

Lemma choose_agree n t s1 s2 : agree n s1 s2 -> term_below n t -> choose t (env s1) = choose t (env s2).
Proof. intros Ha Ht. destruct t; cbn in *; try done; by rewrite (value_agree n s1 s2). Qed.

(** ** Phi nodes *)

Lemma incoming_of_entries from p : incoming_of from p = snd <$> head (entries from p).
Proof. done. Qed.

Lemma phi_values_agree n from ps s1 s2 :
  agree n s1 s2 -> Forall (phi_below n) ps -> phi_values from ps (env s1) = phi_values from ps (env s2).
Proof.
  intros Ha. induction 1 as [|p ps [_ Hp] _ IH]; [done|]. cbn. rewrite IH.
  unfold incoming_of. destruct (filter _ (incoming p)) as [|[b o] l] eqn:E; [done|]. cbn.
  rewrite (value_agree n s1 s2); [done|done|]. rewrite Forall_forall in Hp. apply (Hp (b, o)).
  assert (Hin : (b, o) ∈ filter (fun e : Z * Operand => fst e = from) (incoming p)) by (rewrite E; left).
  by apply list_elem_of_filter in Hin as [_ ?].
Qed.

Lemma assign_agree n vs s1 s2 : agree n s1 s2 -> agree n (assign vs s1) (assign vs s2).
Proof. revert s1 s2. induction vs as [|v vs IH]; intros s1 s2 Ha; [done|]. cbn. by apply IH, set_env_agree. Qed.

(** ** A block for an edge *)

(** What moving the entries of [from] to the block [mid] does, when every phi
    node has one. *)
Record forwarded (from mid n : Z) (ps ps' : list Phi) (insts : list (Inst Op)) (m : Z) : Prop := {
  fw_le : n <= m;
  fw_below : Forall (phi_below n) ps -> Forall (phi_below m) ps' /\ Forall (inst_below m) insts;
  fw_move : Forall2 (fun p p' => phi_def p' = phi_def p /\ exists o, (exists e, entries from p = e :: entries from p') /\
    entries mid p' = [(mid, o)] /\ (forall x, x <> from -> x <> mid -> entries x p' = entries x p) /\
    Forall (fun e => fst e = mid \/ e ∈ incoming p) (incoming p')) ps ps';
  fw_exec s : Forall (phi_below n) ps ->
    fst (exec_body insts s) = [] /\ agree n s (snd (exec_body insts s)) /\
    forall e, (forall x, n <= x < m -> e !! x = env (snd (exec_body insts s)) !! x) ->
      phi_values mid ps' e = phi_values from ps (env s)
}.

Lemma forward_phis_spec from mid n ps :
  mid <> from -> Forall (fun p => Forall (fun e => fst e <> mid) (incoming p) /\ entries from p <> []) ps ->
  let '(ps', insts, m) := forward_phis from mid n ps in forwarded from mid n ps ps' insts m.
Proof.
  intros Hne. revert n. induction ps as [|p ps IH]; intros n Hps.
  { cbn. split; try done. }
  apply Forall_cons in Hps as [[Hmid Hent] Hps]. cbn [forward_phis]. unfold forward_phi.
  destruct (list_find_entries from (incoming p) Hent) as (idx & [b v] & Hf). rewrite Hf.
  specialize (IH (n + 2) Hps). destruct (forward_phis from mid (n + 2) ps) as [[ps' more] m] eqn:Efw.
  destruct IH as [Hle Hbelow Hmove Hexec].
  set (o := OVar (n + 1)). destruct (entries_moved from mid (incoming p) idx (b, v) o Hf Hne Hmid) as (H1 & H2 & H3).
  pose proof (first_entry _ _ _ _ Hf) as (Hb & l1 & l2 & Hl & Hl1 & Hins). cbn in Hb. subst b.
  assert (Hbelow2 : Forall (phi_below n) (p :: ps) -> Forall (phi_below (n + 2)) ps /\ phi_below n p).
  { intros [Hp Hr]%Forall_cons. split; [|done]. eapply Forall_impl; [exact Hr|]. intros q [Hd Ho]. split; [lia|].
    eapply Forall_impl; [exact Ho|]. intros [b o']; cbn. destruct o'; cbn; [lia|done]. }
  split.
  - lia.
  - intros Hb. destruct (Hbelow2 Hb) as [Hps2 [Hpd Hpo]]. destruct (Hbelow Hps2) as [Hb1 Hb2].
    assert (Hv : operand_below n v) by (rewrite Hl in Hpo; apply Forall_app in Hpo as [_ Hpo]; by apply Forall_cons in Hpo as [? _]).
    split.
    + constructor; [|done]. split; cbn; [lia|]. rewrite Hins. rewrite Hl in Hpo.
      apply Forall_app in Hpo as [Hp1 Hp2]. apply Forall_cons in Hp2 as [_ Hp2].
      apply Forall_app. split; [|constructor; [cbn; lia|]]; (eapply Forall_impl; [eassumption|]); intros [? [x|c]]; cbn; lia || done.
    + apply Forall_app. split; [|done]. repeat constructor; cbn; try lia. destruct v; cbn in *; lia || done.
  - constructor; [|done]. split; [done|]. exists o. split; [by eexists|]. split; [done|]. split; [done|]. cbn. rewrite Hins, Hl.
    apply Forall_app. split; [|constructor; [by left|]].
    + apply Forall_forall. intros e He. right. apply elem_of_app. by left.
    + apply Forall_forall. intros e He. right. apply elem_of_app. right. by right.
  - intros s Hb. destruct (Hbelow2 Hb) as [Hps2 [Hpd Hpo]].
    assert (Hv : operand_below n v) by (rewrite Hl in Hpo; apply Forall_app in Hpo as [_ Hpo]; by apply Forall_cons in Hpo as [? _]).
    set (first := [IAlloca n; IStore v n; ILoad (n + 1) n]).
    set (s1 := snd (exec_body first s)).
    assert (Hs1 : env s1 = <[n + 1 := value (env s) v]> (env s) /\ world s1 = world s /\
                  slots s1 = <[n := value (env s) v]> (<[n := 0]> (slots s))).
    { cbn. split_and!; try done. by rewrite lookup_insert_eq. }
    destruct Hs1 as (He1 & Hw1 & Hsl1). destruct (Hexec s1 Hps2) as (Hev & Hag & Hval).
    rewrite exec_body_app. cbn [fst snd]. fold s1.
    assert (Hag1 : agree n s s1).
    { split; [|intros x Hx; by rewrite Hsl1, !lookup_insert_ne by lia|done]. intros x Hx. by rewrite He1, lookup_insert_ne by lia. }
    split; [by rewrite Hev|]. split; [etrans; [exact Hag1|]; eapply agree_le; [|exact Hag]; lia|].
    intros e Hx. cbn [phi_values].
    rewrite (Hval e) by (intros x ?; apply Hx; lia).
    rewrite (phi_values_agree n from ps s1 s) by (by symmetry || by apply Forall_cons in Hb as [_ ?]).
    rewrite !incoming_of_entries. unfold entries at 1. cbn [incoming]. rewrite H2. unfold entries. rewrite H1. cbn.
    rewrite Hx by lia. rewrite <- (ag_env _ _ _ Hag) by lia. by rewrite He1, lookup_insert_eq.
Qed.

Definition split_edge (f : Func Op) (b : Z) (i : nat) (to : Z) : outcome (Z * Func Op) :=
  '(mid, f) ← BlockForEdge f b to; f ← set_edge f b i mid; Ok (mid, f).

(** The block [x] of the function whose edge [i] of [b] to [to] was split. *)
Definition split_block (b : Z) (i : nat) (to mid : Z) (ps : list Phi) (x : Z) (xb : Block Op) : Block Op :=
  MkBlock (if decide (x = to) then ps else phis xb) (body xb)
    (if decide (x = b) then set_successor (term xb) i mid else term xb) (can_insert xb).

Record Split (f : Func Op) (b : Z) (i : nat) (to : Z) (f' : Func Op) (blk dst : Block Op) (ps : list Phi)
    (insts : list (Inst Op)) : Prop := {
  sp_blk : blocks f !! b = Some blk;
  sp_to : successors (term blk) !! i = Some to;
  sp_dst : blocks f !! to = Some dst;
  sp_fw : forwarded b (next_block f) (next_value f) (phis dst) ps insts (next_value f');
  sp_nb : next_block f' = next_block f + 1;
  sp_mid : blocks f' !! next_block f = Some (MkBlock [] insts (TBr to) true);
  sp_other x : x <> next_block f -> blocks f' !! x = split_block b i to (next_block f) ps x <$> blocks f !! x
}.

Lemma edge_has_entry f b blk i to dst p :
  wf f -> blocks f !! b = Some blk -> successors (term blk) !! i = Some to -> blocks f !! to = Some dst -> p ∈ phis dst ->
  entries b p <> [].
Proof.
  intros Hwf Hb Hi Hd Hp He. pose proof (wf_phi f Hwf b blk to dst p Hb Hd Hp) as Hc. rewrite He in Hc. cbn in Hc.
  assert (Hin : to ∈ filter (fun x => x = to) (successors (term blk))).
  { apply list_elem_of_filter. split; [done|]. by apply list_elem_of_lookup_2 in Hi. }
  unfold edge_count in Hc. destruct (filter _ _); [by apply not_elem_of_nil in Hin|]. cbn in Hc. lia.
Qed.

Lemma split_edge_spec f b blk i to :
  wf f -> blocks f !! b = Some blk -> successors (term blk) !! i = Some to ->
  exists f' dst ps insts, split_edge f b i to = Ok (next_block f, f') /\ Split f b i to f' blk dst ps insts /\
    naked f' = naked f.
Proof.
  intros Hwf Hb Hi. assert (Hto : to ∈ successors (term blk)) by by apply list_elem_of_lookup_2 in Hi.
  destruct (wf_succ f Hwf b blk to Hb Hto) as [dst Hd].
  pose proof (wf_ids f Hwf b blk Hb) as [Hbn _]. pose proof (wf_ids f Hwf to dst Hd) as [Htn _].
  pose proof (forward_phis_spec b (next_block f) (next_value f) (phis dst)) as Hfw.
  unfold split_edge, BlockForEdge. rewrite Hd. cbn [deref_opt mbind outcome_bind].
  destruct (forward_phis b (next_block f) (next_value f) (phis dst)) as [[ps insts] m].
  assert (Hfw' : forwarded b (next_block f) (next_value f) (phis dst) ps insts m).
  { apply Hfw; [lia|]. apply Forall_forall. intros p Hp. split.
    - apply Forall_forall. intros e He. pose proof (wf_entry f Hwf to dst p e Hd Hp He). lia.
    - by apply (edge_has_entry f b blk i to dst). }
  cbn [mbind outcome_bind]. unfold set_edge. cbn [blocks].
  rewrite lookup_insert_ne by lia.
  assert (Hcase : exists pb, <[to := MkBlock ps (body dst) (term dst) (can_insert dst)]> (blocks f) !! b = Some pb /\
            term pb = term blk /\ body pb = body blk /\ can_insert pb = can_insert blk /\
            phis pb = if decide (b = to) then ps else phis blk).
  { destruct (decide (b = to)) as [->|Hne].
    - rewrite lookup_insert_eq. eexists. split; [done|]. by simplify_eq.
    - rewrite lookup_insert_ne by done. by exists blk. }
  destruct Hcase as (pb & Hpb & Ht & Hbo & Hc & Hph). rewrite Hpb. cbn [deref_opt mbind outcome_bind].
  eexists _, dst, ps, insts. split; [done|]. split; [|done].
  split; try done.
  - cbn. rewrite lookup_insert_ne, lookup_insert_eq by lia. done.
  - intros x Hx. cbn. destruct (decide (x = b)) as [->|Hxb].
    + rewrite lookup_insert_eq, Hb. cbn. unfold split_block. rewrite (decide_True _ _ eq_refl), Ht, Hbo, Hc, Hph. done.
    + rewrite lookup_insert_ne, lookup_insert_ne by done. unfold split_block.
      destruct (decide (x = to)) as [->|Hxt].
      * rewrite lookup_insert_eq, Hd. cbn. by rewrite decide_False by done.
      * rewrite lookup_insert_ne by done. destruct (blocks f !! x) as [xb|]; cbn; [|done].
        rewrite !decide_False by done. by destruct xb.
Qed.

Lemma operand_below_le n m o : n <= m -> operand_below n o -> operand_below m o.
Proof. destruct o; cbn; lia || done. Qed.

Lemma phi_below_le n m p : n <= m -> phi_below n p -> phi_below m p.
Proof.
  intros Hle [Hd Ho]. split; [lia|]. eapply Forall_impl; [exact Ho|]. intros e. by apply operand_below_le.
Qed.

Lemma inst_below_le n m i : n <= m -> inst_below n i -> inst_below m i.
Proof.
  intros Hle. pose proof (fun o => operand_below_le n m o Hle) as Ho.
  destruct i; cbn; intros; intuition eauto with lia; try lia. eapply Forall_impl; [eassumption|]. auto.
Qed.

Lemma term_below_le n m t : n <= m -> term_below n t -> term_below m t.
Proof. intros Hle. destruct t; cbn; try done; by apply operand_below_le. Qed.

Lemma term_below_set n t i b : term_below n (set_successor t i b) <-> term_below n t.
Proof. destruct t, i as [|[|]]; done. Qed.

Section split.
Context (f : Func Op) (b : Z) (i : nat) (to : Z) (f' : Func Op) (blk dst : Block Op) (ps : list Phi) (insts : list (Inst Op)).
Hypothesis Hwf : wf f.
Hypothesis Hsp : Split f b i to f' blk dst ps insts.
#[local] Abbreviation mid := (next_block f).

Lemma split_mid_new x xb : blocks f !! x = Some xb -> x <> mid.
Proof using Hwf. intros Hx. pose proof (wf_ids f Hwf x xb Hx) as [? _]. lia. Qed.

(** The blocks of the new function. *)
Lemma split_lookup x xb' :
  blocks f' !! x = Some xb' ->
  (x = mid /\ xb' = MkBlock [] insts (TBr to) true) \/
  (x <> mid /\ exists xb, blocks f !! x = Some xb /\ xb' = split_block b i to mid ps x xb).
Proof using Hsp.
  intros Hx. destruct (decide (x = mid)) as [->|Hne].
  - left. rewrite (sp_mid _ _ _ _ _ _ _ _ _ Hsp) in Hx. by simplify_eq.
  - right. split; [done|]. rewrite (sp_other _ _ _ _ _ _ _ _ _ Hsp) in Hx by done.
    destruct (blocks f !! x) as [xb|]; [|done]. injection Hx as <-. by exists xb.
Qed.

Lemma split_dst_below : Forall (phi_below (next_value f)) (phis dst).
Proof using Hwf Hsp. apply (wf_ids f Hwf to dst (sp_dst _ _ _ _ _ _ _ _ _ Hsp)). Qed.

(** The phi nodes of a block of the new function. *)
Lemma split_phi y yb p' :
  blocks f !! y = Some yb -> p' ∈ phis (split_block b i to mid ps y yb) ->
  exists p, p ∈ phis yb /\ phi_def p' = phi_def p /\
    (y = to -> (exists e, entries b p = e :: entries b p') /\ (exists o, entries mid p' = [(mid, o)])) /\
    (forall x, (y <> to \/ x <> b) -> x <> mid -> entries x p' = entries x p) /\
    (y <> to -> p' = p) /\ Forall (fun e => fst e = mid \/ e ∈ incoming p) (incoming p').
Proof using Hsp.
  intros Hy Hp. cbn in Hp. destruct (decide (y = to)) as [->|Hne].
  - rewrite (sp_dst _ _ _ _ _ _ _ _ _ Hsp) in Hy. injection Hy as <-.
    apply list_elem_of_lookup_1 in Hp as [k Hk].
    pose proof (fw_move _ _ _ _ _ _ _ (sp_fw _ _ _ _ _ _ _ _ _ Hsp)) as Hm.
    destruct (Forall2_lookup_r _ _ _ _ _ Hm Hk) as (p & Hpk & Hd & o & He & Hmid & Hx & Hin).
    exists p. split; [by apply list_elem_of_lookup_2 in Hpk|]. split; [done|]. split; [intros _; split; [done|by exists o]|].
    split; [|done]. intros x [?|?] ?; [done|]. by apply Hx.
  - exists p'. split_and!; try done. apply Forall_forall. by right.
Qed.

Lemma split_edges x xb y :
  blocks f !! x = Some xb -> y <> mid ->
  edge_count (term (split_block b i to mid ps x xb)) y =
    if decide (x = b /\ y = to) then Nat.pred (edge_count (term xb) y) else edge_count (term xb) y.
Proof using Hwf Hsp.
  intros Hx Hy. cbn. destruct (decide (x = b)) as [->|Hne]; [|by rewrite decide_False by tauto].
  rewrite (sp_blk _ _ _ _ _ _ _ _ _ Hsp) in Hx. injection Hx as <-. pose proof (sp_to _ _ _ _ _ _ _ _ _ Hsp) as Hi.
  assert (Hne : mid <> to) by (apply not_eq_sym, (split_mid_new to dst), Hsp).
  unfold edge_count. rewrite successors_set by by apply lookup_lt_Some in Hi.
  destruct (filter_insert_count (successors (term blk)) i mid to Hi Hne) as [Hc Ho].
  destruct (decide (y = to)) as [->|]; [rewrite decide_True by done; rewrite Hc; done|].
  rewrite decide_False by tauto. by rewrite Ho.
Qed.

Lemma split_wf : wf f'.
Proof using Hwf Hsp.
  pose proof (sp_fw _ _ _ _ _ _ _ _ _ Hsp) as Hfw. pose proof (fw_le _ _ _ _ _ _ _ Hfw) as Hle.
  destruct (fw_below _ _ _ _ _ _ _ Hfw split_dst_below) as [Hps Hin].
  pose proof (sp_nb _ _ _ _ _ _ _ _ _ Hsp) as Hnb. pose proof (sp_dst _ _ _ _ _ _ _ _ _ Hsp) as Hdst.
  assert (Htm : to <> mid) by by apply (split_mid_new to dst).
  split.
  - intros x xb' [[-> ->]|(Hne & xb & Hx & ->)]%split_lookup; [split; [lia|done]|].
    destruct (wf_ids f Hwf x xb Hx) as (Hlt & Hp & Hb & Ht). split; [lia|]. split_and!; cbn.
    + destruct (decide (x = to)); [done|]. eapply Forall_impl; [exact Hp|]. intros p. by apply phi_below_le.
    + eapply Forall_impl; [exact Hb|]. intros j. by apply inst_below_le.
    + destruct (decide (x = b)); [apply term_below_set|]; by apply (term_below_le (next_value f)).
  - intros x xb' z [[-> ->]|(Hne & xb & Hx & ->)]%split_lookup Hz.
    + cbn in Hz. apply list_elem_of_singleton in Hz as ->.
      rewrite (sp_other _ _ _ _ _ _ _ _ _ Hsp) by done. by rewrite Hdst.
    + assert (Hz' : z = mid \/ z ∈ successors (term xb)).
      { cbn in Hz. destruct (decide (x = b)) as [->|]; [|by right].
        rewrite (sp_blk _ _ _ _ _ _ _ _ _ Hsp) in Hx. injection Hx as <-. pose proof (sp_to _ _ _ _ _ _ _ _ _ Hsp) as Hi.
        rewrite successors_set in Hz by by apply lookup_lt_Some in Hi. apply list_elem_of_lookup_1 in Hz as [k Hk].
        apply list_lookup_insert_Some in Hk as [(_ & <- & _)|[_ Hk]]; [by left|right; by apply list_elem_of_lookup_2 in Hk]. }
      destruct Hz' as [->|Hz']; [by rewrite (sp_mid _ _ _ _ _ _ _ _ _ Hsp)|].
      destruct (wf_succ f Hwf x xb z Hx Hz') as [zb Hzb].
      rewrite (sp_other _ _ _ _ _ _ _ _ _ Hsp) by by apply (split_mid_new z zb). by rewrite Hzb.
  - intros x xb' p' e [[-> ->]|(Hne & xb & Hx & ->)]%split_lookup Hp He; [by apply not_elem_of_nil in Hp|].
    destruct (split_phi x xb p' Hx Hp) as (p & Hp0 & _ & _ & _ & _ & Hall).
    rewrite Forall_forall in Hall. destruct (Hall e He) as [->|He0]; [lia|].
    pose proof (wf_entry f Hwf x xb p e Hx Hp0 He0). lia.
  - intros x xb' y yb' p' Hx Hy Hp.
    apply split_lookup in Hy as [[-> ->]|(Hym & yb & Hy & ->)]; [by apply not_elem_of_nil in Hp|].
    destruct (split_phi y yb p' Hy Hp) as (p & Hp0 & _ & Hto & Hoth & Heq & _).
    apply split_lookup in Hx as [[-> ->]|(Hxm & xb & Hx & ->)].
    + unfold edge_count. cbn [term successors]. rewrite filter_cons. case_decide as Hyt; [|cbn; lia]. cbn in Hyt.
      destruct (Hto (eq_sym Hyt)) as [_ [o ->]]. cbn. lia.
    + rewrite split_edges by done. pose proof (wf_phi f Hwf x xb y yb p Hx Hy Hp0) as Hc. case_decide as Hd.
      * destruct Hd as [-> ->]. destruct (Hto eq_refl) as [[e He] _]. rewrite He in Hc. cbn in Hc. lia.
      * rewrite (Hoth x); [done| |done]. destruct (decide (y = to)); [right; tauto|by left].
  - intros y yb' p' x e1 e2 Hy Hp He1 He2.
    apply split_lookup in Hy as [[-> ->]|(Hym & yb & Hy & ->)]; [by apply not_elem_of_nil in Hp|].
    destruct (split_phi y yb p' Hy Hp) as (p & Hp0 & _ & Hto & Hoth & Heq & _).
    destruct (decide (y = to)) as [Hyt|Hyt]; [|rewrite (Heq Hyt) in *; by apply (wf_same f Hwf y yb p x)].
    destruct (Hto Hyt) as [[e He] [o Ho]]. destruct (decide (x = mid)) as [->|Hxm].
    { rewrite Ho in He1, He2. apply list_elem_of_singleton in He1, He2. by subst. }
    destruct (decide (x = b)) as [->|Hxb].
    + apply (wf_same f Hwf y yb p b); try done; rewrite He; by right.
    + rewrite Hoth in He1, He2 by (done || by right). by apply (wf_same f Hwf y yb p x).
Qed.

Lemma phi_values_ext x x' ps1 ps2 e :
  Forall2 (fun p p' => phi_def p' = phi_def p /\ incoming_of x' p' = incoming_of x p) ps1 ps2 ->
  phi_values x' ps2 e = phi_values x ps1 e.
Proof. induction 1 as [|p p' ps1 ps2 [Hd Hi] _ IH]; [done|]. cbn. by rewrite Hd, Hi, IH. Qed.

(** A block's values on an edge that was not split. *)
Lemma split_phi_values x xb y yb j e :
  blocks f !! x = Some xb -> blocks f !! y = Some yb -> successors (term xb) !! j = Some y -> ~ (x = b /\ j = i) ->
  phi_values x (phis (split_block b i to mid ps y yb)) e = phi_values x (phis yb) e.
Proof using Hwf Hsp.
  intros Hx Hy Hj Hnot. cbn. destruct (decide (y = to)) as [->|]; [|done].
  rewrite (sp_dst _ _ _ _ _ _ _ _ _ Hsp) in Hy. injection Hy as <-.
  apply phi_values_ext. pose proof (fw_move _ _ _ _ _ _ _ (sp_fw _ _ _ _ _ _ _ _ _ Hsp)) as Hm.
  assert (Hxm : x <> mid) by by apply (split_mid_new x xb).
  eapply Forall2_impl_in; [exact Hm|]. intros p p' Hp (Hd & o & [e0 He] & _ & Hoth & _). split; [done|].
  rewrite !incoming_of_entries. destruct (decide (x = b)) as [->|Hxb]; [|by rewrite Hoth].
  rewrite (sp_blk _ _ _ _ _ _ _ _ _ Hsp) in Hx. injection Hx as <-.
  assert (Hc : (2 <= length (entries b p))%nat).
  { etrans; [|exact (wf_phi f Hwf b blk to dst p (sp_blk _ _ _ _ _ _ _ _ _ Hsp) (sp_dst _ _ _ _ _ _ _ _ _ Hsp) Hp)].
    pose proof (sp_to _ _ _ _ _ _ _ _ _ Hsp) as Hi. assert (Hne : mid <> to) by (apply not_eq_sym, (split_mid_new to dst), Hsp).
    unfold edge_count. destruct (filter_insert_count (successors (term blk)) i mid to Hi Hne) as [-> _].
    assert (Hin : to ∈ filter (fun z => z = to) (<[i := mid]> (successors (term blk)))).
    { apply list_elem_of_filter. split; [done|]. apply (list_elem_of_lookup_2 _ j). rewrite list_lookup_insert_ne; [done|].
      intros <-. tauto. }
    destruct (filter (fun z => z = to) (<[i := mid]> _)) eqn:E; [by apply not_elem_of_nil in Hin|]. cbn. lia. }
  rewrite He in Hc |- *. destruct (entries b p') as [|e1 l] eqn:E; [cbn in Hc; lia|]. cbn. f_equal.
  apply (wf_same f Hwf to dst p b); [apply Hsp|done|rewrite He; right; left|rewrite He; left].
Qed.

Lemma next_inv g x s ev j y t :
  next g (x, s) = Some (ev, j, (y, t)) ->
  exists xb yb vs, blocks g !! x = Some xb /\ blocks g !! y = Some yb /\ ev = fst (exec_body (body xb) s) /\
    choose (term xb) (env (snd (exec_body (body xb) s))) = Some j /\ successors (term xb) !! j = Some y /\
    phi_values x (phis yb) (env (snd (exec_body (body xb) s))) = Some vs /\ t = assign vs (snd (exec_body (body xb) s)).
Proof.
  unfold Coverage.next. cbn [fst snd]. destruct (blocks g !! x) as [xb|] eqn:Ex; [|done]. cbn [mbind option_bind].
  destruct (exec_body (body xb) s) as [ev' s'] eqn:Eb. destruct (choose _ _) as [j'|] eqn:Ec; [|done]. cbn [mbind option_bind].
  destruct (successors _ !! j') as [y'|] eqn:Es; [|done]. cbn [mbind option_bind]. unfold enter.
  destruct (blocks g !! y') as [yb|] eqn:Ey; [|done]. cbn [mbind option_bind].
  destruct (phi_values _ _ _) as [vs|] eqn:Ep; [|done]. cbn. intros [= <- <- <- <-]. exists xb, yb, vs. by rewrite Eb.
Qed.

Lemma next_intro g x s xb j y yb vs :
  blocks g !! x = Some xb -> blocks g !! y = Some yb ->
  choose (term xb) (env (snd (exec_body (body xb) s))) = Some j -> successors (term xb) !! j = Some y ->
  phi_values x (phis yb) (env (snd (exec_body (body xb) s))) = Some vs ->
  next g (x, s) = Some (fst (exec_body (body xb) s), j, (y, assign vs (snd (exec_body (body xb) s)))).
Proof.
  intros Hx Hy Hc Hs Hp. unfold Coverage.next. cbn [fst snd]. rewrite Hx. cbn [mbind option_bind].
  destruct (exec_body (body xb) s) as [ev s']. cbn [fst snd] in *. rewrite Hc. cbn [mbind option_bind]. rewrite Hs.
  cbn [mbind option_bind]. unfold enter. rewrite Hy. cbn [mbind option_bind]. by rewrite Hp.
Qed.

(** One block: the same events and successor; the split edge goes through the
    new block, which adds no event. *)
Lemma split_next x s1 s2 ev j y t1 :
  agree (next_value f) s1 s2 -> next f (x, s1) = Some (ev, j, (y, t1)) ->
  if decide (x = b /\ j = i) then
    exists sm t2, next f' (x, s2) = Some (ev, j, (mid, sm)) /\ next f' (mid, sm) = Some ([], O, (y, t2)) /\
      agree (next_value f) t1 t2
  else exists t2, next f' (x, s2) = Some (ev, j, (y, t2)) /\ agree (next_value f) t1 t2.
Proof using Hwf Hsp.
  intros Hag (xb & yb & vs & Hx & Hy & -> & Hc & Hs & Hp & ->)%next_inv.
  assert (Hxm : x <> mid) by by apply (split_mid_new x xb).
  assert (Hym : y <> mid) by by apply (split_mid_new y yb).
  destruct (wf_ids f Hwf x xb Hx) as (_ & _ & Hbb & Htb). destruct (wf_ids f Hwf y yb Hy) as (_ & Hpb & _ & _).
  destruct (exec_body_agree (next_value f) (body xb) s1 s2 Hag Hbb) as [Hev Hag'].
  assert (Hx' : blocks f' !! x = Some (split_block b i to mid ps x xb)).
  { rewrite (sp_other _ _ _ _ _ _ _ _ _ Hsp) by done. by rewrite Hx. }
  assert (Hy' : blocks f' !! y = Some (split_block b i to mid ps y yb)).
  { rewrite (sp_other _ _ _ _ _ _ _ _ _ Hsp) by done. by rewrite Hy. }
  assert (Hc' : choose (term (split_block b i to mid ps x xb)) (env (snd (exec_body (body xb) s2))) = Some j).
  { cbn. rewrite (choose_agree (next_value f) _ _ _ Hag' Htb) in Hc. destruct (decide (x = b)); [by rewrite choose_set|done]. }
  rewrite Hev. case_decide as Hd.
  - destruct Hd as [-> ->]. pose proof (sp_blk _ _ _ _ _ _ _ _ _ Hsp) as Hblk. rewrite Hx in Hblk. injection Hblk as ->.
    pose proof (sp_to _ _ _ _ _ _ _ _ _ Hsp) as Hi. rewrite Hi in Hs. injection Hs as <-.
    pose proof (sp_dst _ _ _ _ _ _ _ _ _ Hsp) as Hdst. rewrite Hy in Hdst. injection Hdst as ->.
    set (sm := snd (exec_body (body blk) s2)) in *.
    destruct (fw_exec _ _ _ _ _ _ _ (sp_fw _ _ _ _ _ _ _ _ _ Hsp) sm split_dst_below) as (Hev2 & Hag2 & Hval).
    exists sm, (assign vs (snd (exec_body insts sm))). split; [|split].
    + apply (next_intro f' b s2 _ i mid (MkBlock [] insts (TBr to) true) [] Hx'); [apply Hsp|done| |done].
      cbn. rewrite decide_True by done. rewrite successors_set by by apply lookup_lt_Some in Hi.
      apply list_lookup_insert_eq. by apply lookup_lt_Some in Hi.
    + rewrite <- Hev2. apply (next_intro f' mid sm (MkBlock [] insts (TBr to) true) O to
        (split_block b i to mid ps to dst) vs); [apply Hsp|done..|].
      cbn. rewrite decide_True by done. rewrite Hval by done. rewrite <- Hp. symmetry. by apply (phi_values_agree (next_value f)).
    + apply assign_agree. by etrans.
  - exists (assign vs (snd (exec_body (body xb) s2))). split; [|by apply assign_agree].
    apply (next_intro f' x s2 (split_block b i to mid ps x xb) j y (split_block b i to mid ps y yb) vs Hx' Hy' Hc').
    + cbn. destruct (decide (x = b)) as [->|]; [|done].
      rewrite (sp_blk _ _ _ _ _ _ _ _ _ Hsp) in Hx. injection Hx as <-. pose proof (sp_to _ _ _ _ _ _ _ _ _ Hsp) as Hi.
      rewrite successors_set by by apply lookup_lt_Some in Hi. rewrite list_lookup_insert_ne; [done|]. intros <-. tauto.
    + rewrite (split_phi_values x xb y yb j _ Hx Hy Hs Hd). rewrite <- Hp. symmetry.
      by apply (phi_values_agree (next_value f)).
Qed.
End split.

(** ** Calls in front of a block *)

Definition covered_block (e : Event) (blk : Block Op) : Block Op :=
  MkBlock (phis blk) (ICover e :: body blk) (term blk) (can_insert blk).

Lemma insert_call_spec f m e blk :
  blocks f !! m = Some blk -> insert_call f m e = Ok (with_block f m (covered_block e blk)).
Proof. intros Hb. unfold insert_call. by rewrite Hb. Qed.

Lemma with_block_lookup (f : Func Op) m nb x xb :
  blocks (with_block f m nb) !! x = Some xb -> (x = m /\ xb = nb) \/ (x <> m /\ blocks f !! x = Some xb).
Proof.
  cbn. destruct (decide (m = x)) as [->|Hne]; [rewrite lookup_insert_eq; intros [= <-]; by left|].
  rewrite lookup_insert_ne by done. by right.
Qed.

(** A block and the one in the new function. *)
Lemma covered_lookup f m e blk x xb :
  blocks f !! m = Some blk -> blocks (with_block f m (covered_block e blk)) !! x = Some xb ->
  exists xb0, blocks f !! x = Some xb0 /\ phis xb = phis xb0 /\ term xb = term xb0 /\ can_insert xb = can_insert xb0 /\
    body xb = if decide (x = m) then ICover e :: body xb0 else body xb0.
Proof.
  intros Hm [[-> ->]|[Hne Hx]]%with_block_lookup.
  - exists blk. split_and!; try done. by rewrite decide_True.
  - exists xb. split_and!; try done. by rewrite decide_False.
Qed.

Lemma covered_lookup_to f m e blk x xb0 :
  blocks f !! m = Some blk -> blocks f !! x = Some xb0 ->
  exists xb, blocks (with_block f m (covered_block e blk)) !! x = Some xb /\ phis xb = phis xb0 /\ term xb = term xb0 /\
    can_insert xb = can_insert xb0 /\ body xb = if decide (x = m) then ICover e :: body xb0 else body xb0.
Proof.
  intros Hm Hx. destruct (decide (x = m)) as [->|Hne].
  - rewrite Hm in Hx. injection Hx as ->. exists (covered_block e xb0). split; [cbn; by rewrite lookup_insert_eq|done].
  - exists xb0. split; [cbn; by rewrite lookup_insert_ne|done].
Qed.

Lemma covered_wf f m e blk : wf f -> blocks f !! m = Some blk -> wf (with_block f m (covered_block e blk)).
Proof.
  intros Hwf Hm. split.
  - intros x xb Hx. destruct (covered_lookup f m e blk x xb Hm Hx) as (xb0 & H0 & Hp & Ht & _ & Hb).
    destruct (wf_ids f Hwf x xb0 H0) as (Hlt & Hp' & Hb' & Ht'). split; [done|]. split_and!; cbn.
    + by rewrite Hp.
    + rewrite Hb. case_decide; [by constructor|done].
    + by rewrite Ht.
  - intros x xb y Hx Hy. destruct (covered_lookup f m e blk x xb Hm Hx) as (xb0 & H0 & _ & Ht & _). rewrite Ht in Hy.
    destruct (wf_succ f Hwf x xb0 y H0 Hy) as [yb Hyb].
    destruct (covered_lookup_to f m e blk y yb Hm Hyb) as (yb' & Hy' & _). by exists yb'.
  - intros x xb p e' Hx Hp He. destruct (covered_lookup f m e blk x xb Hm Hx) as (xb0 & H0 & Hp0 & _). rewrite Hp0 in Hp.
    by apply (wf_entry f Hwf x xb0 p e').
  - intros x xb y yb p Hx Hy Hp. destruct (covered_lookup f m e blk x xb Hm Hx) as (xb0 & H0 & _ & Ht & _).
    destruct (covered_lookup f m e blk y yb Hm Hy) as (yb0 & H1 & Hp0 & _). rewrite Ht. rewrite Hp0 in Hp.
    by apply (wf_phi f Hwf x xb0 y yb0 p).
  - intros y yb p x e1 e2 Hy Hp. destruct (covered_lookup f m e blk y yb Hm Hy) as (yb0 & H1 & Hp0 & _).
    rewrite Hp0 in Hp. by apply (wf_same f Hwf y yb0 p x).
Qed.

Lemma covered_next f m e blk x s ev j c :
  blocks f !! m = Some blk -> next f (x, s) = Some (ev, j, c) ->
  next (with_block f m (covered_block e blk)) (x, s) = Some (if decide (x = m) then e :: ev else ev, j, c).
Proof.
  intros Hm Hn. destruct c as [y t]. apply next_inv in Hn as (xb & yb & vs & Hx & Hy & -> & Hc & Hs & Hp & ->).
  destruct (covered_lookup_to f m e blk x xb Hm Hx) as (xb' & Hx' & _ & Htx & _ & Hbx).
  destruct (covered_lookup_to f m e blk y yb Hm Hy) as (yb' & Hy' & Hpy & _).
  assert (Hb : exec_body (body xb') s = (if decide (x = m) then e :: fst (exec_body (body xb) s) else fst (exec_body (body xb) s),
                 snd (exec_body (body xb) s))).
  { rewrite Hbx. case_decide; [by rewrite exec_body_cons|]. by destruct (exec_body (body xb) s). }
  pose proof (next_intro (with_block f m (covered_block e blk)) x s xb' j y yb' vs Hx' Hy') as H.
  rewrite Hb, Htx, Hpy in H. cbn [fst snd] in H. by apply H.
Qed.

(** ** The simulation

    [lab] gives each split edge its new block and the events it adds. *)

Definition shape (t : Term) : nat * nat :=
  match t with TBr _ => (0, 0)%nat | TCondBr _ _ _ => (1, 0)%nat | TSwitch _ _ cases => (2%nat, length cases) | TEnd => (3, 0)%nat end.

Lemma shape_set t i b : shape (set_successor t i b) = shape t.
Proof. destruct t, i as [|[|]]; try done; cbn [set_successor shape]; unfold set_case; by rewrite length_alter. Qed.

Definition observable (f : Func Op) (to : Z) : bool :=
  match blocks f !! to with Some blk => can_insert blk | None => false end.

Record Sim (f0 f : Func Op) (lab : gmap (Z * nat) (Z * list Event)) : Prop := {
  sm_wf : wf f;
  sm_nb : next_block f0 <= next_block f;
  sm_nv : next_value f0 <= next_value f;
  sm_mid k m evs : lab !! k = Some (m, evs) -> next_block f0 <= m < next_block f /\ is_Some (blocks f !! m);
  sm_inj k k' m evs evs' : lab !! k = Some (m, evs) -> lab !! k' = Some (m, evs') -> k = k';
  sm_block b blk0 : blocks f0 !! b = Some blk0 -> b < next_block f0 /\
    exists blk, blocks f !! b = Some blk /\ body blk = body blk0 /\ can_insert blk = can_insert blk0 /\
      shape (term blk) = shape (term blk0) /\
      forall i to, successors (term blk0) !! i = Some to ->
        successors (term blk) !! i = Some (match lab !! (b, i) with Some (m, _) => m | None => to end);
  sm_step x s1 s2 ev j y t1 : agree (next_value f0) s1 s2 -> next f0 (x, s1) = Some (ev, j, (y, t1)) ->
    match lab !! (x, j) with
    | None => exists t2, next f (x, s2) = Some (ev, j, (y, t2)) /\ agree (next_value f0) t1 t2
    | Some (m, evs) => exists sm t2, next f (x, s2) = Some (ev, j, (m, sm)) /\ next f (m, sm) = Some (evs, O, (y, t2)) /\
        agree (next_value f0) t1 t2
    end
}.

Lemma Sim_refl f : wf f -> Sim f f ∅.
Proof.
  intros Hwf. split; try done; try set_solver.
  - intros b blk0 Hb. split; [by apply (wf_ids f Hwf b blk0)|]. by exists blk0.
  - intros x s1 s2 ev j y t1 Hag (xb & yb & vs & Hx & Hy & -> & Hc & Hs & Hp & ->)%next_inv. rewrite lookup_empty.
    destruct (wf_ids f Hwf x xb Hx) as (_ & _ & Hbb & Htb). destruct (wf_ids f Hwf y yb Hy) as (_ & Hpb & _ & _).
    destruct (exec_body_agree (next_value f) (body xb) s1 s2 Hag Hbb) as [Hev Hag'].
    exists (assign vs (snd (exec_body (body xb) s2))). split; [|by apply assign_agree]. rewrite Hev.
    apply (next_intro f x s2 xb j y yb vs); try done; [by rewrite <- (choose_agree _ _ _ _ Hag' Htb)|].
    by rewrite <- (phi_values_agree _ x (phis yb) _ _ Hag' Hpb).
Qed.

Lemma Sim_split f0 f lab b blk0 i to :
  Sim f0 f lab -> blocks f0 !! b = Some blk0 -> successors (term blk0) !! i = Some to -> lab !! (b, i) = None ->
  exists f', split_edge f b i to = Ok (next_block f, f') /\ Sim f0 f' (<[(b, i) := (next_block f, [])]> lab).
Proof.
  intros Hsim Hb0 Hi0 Hnone. pose proof (sm_wf _ _ _ Hsim) as Hwf.
  destruct (sm_block _ _ _ Hsim b blk0 Hb0) as (Hbn & blk & Hb & Hbody & Hci & Hsh & Hsucc).
  pose proof (Hsucc i to Hi0) as Hi. rewrite Hnone in Hi.
  destruct (split_edge_spec f b blk i to Hwf Hb Hi) as (f' & dst & ps & insts & Heq & Hsp & _).
  exists f'. split; [done|]. pose proof (sp_nb _ _ _ _ _ _ _ _ _ Hsp) as Hnb. pose proof (sm_nb _ _ _ Hsim) as Hnb0.
  pose proof (fw_le _ _ _ _ _ _ _ (sp_fw _ _ _ _ _ _ _ _ _ Hsp)) as Hnv. pose proof (sm_nv _ _ _ Hsim) as Hnv0.
  pose proof (split_next f b i to f' blk dst ps insts Hwf Hsp) as Hnext.
  split.
  - by apply (split_wf f b i to f' blk dst ps insts).
  - lia.
  - lia.
  - intros k m evs [[_ [= <- _]]|[_ Hk]]%lookup_insert_Some.
    { split; [lia|]. by rewrite (sp_mid _ _ _ _ _ _ _ _ _ Hsp). }
    destruct (sm_mid _ _ _ Hsim k m evs Hk) as [Hm [mb Hmb]]. split; [lia|].
    rewrite (sp_other _ _ _ _ _ _ _ _ _ Hsp) by lia. by rewrite Hmb.
  - intros k k' m evs evs' H1 H2.
    apply lookup_insert_Some in H1 as [[<- [= <- <-]]|[Hk1 H1]], H2 as [[<- H2]|[Hk2 H2]]; try done.
    + pose proof (sm_mid _ _ _ Hsim _ _ _ H2). lia.
    + injection H2 as <- <-. pose proof (sm_mid _ _ _ Hsim _ _ _ H1). lia.
    + by apply (sm_inj _ _ _ Hsim k k' m evs evs').
  - intros x xb0 Hx0. destruct (sm_block _ _ _ Hsim x xb0 Hx0) as (Hxn & xb & Hx & Hxbody & Hxci & Hxsh & Hxsucc).
    split; [done|]. exists (split_block b i to (next_block f) ps x xb).
    split; [rewrite (sp_other _ _ _ _ _ _ _ _ _ Hsp) by lia; by rewrite Hx|]. split; [done|]. split; [done|].
    split; [cbn; case_decide; by rewrite ?shape_set|]. intros j z Hz. specialize (Hxsucc j z Hz). cbn.
    destruct (decide (x = b)) as [->|Hxb]; [|by rewrite lookup_insert_ne by congruence].
    rewrite Hb in Hx. injection Hx as <-. rewrite successors_set by by apply lookup_lt_Some in Hi.
    destruct (decide (j = i)) as [->|Hji]; [rewrite lookup_insert_eq; apply list_lookup_insert_eq; by apply lookup_lt_Some in Hi|].
    rewrite lookup_insert_ne by congruence. by rewrite list_lookup_insert_ne.
  - intros x s1 s2 ev j y t1 Hag Hst. pose proof (sm_step _ _ _ Hsim x s1 s2 ev j y t1 Hag Hst) as Hs.
    destruct (decide ((b, i) = (x, j))) as [[= <- <-]|Hne].
    + rewrite lookup_insert_eq. rewrite Hnone in Hs. destruct Hs as (t2 & Hn & Hat).
      pose proof (Hnext b s2 s2 ev i y t2 ltac:(done) Hn) as H. rewrite decide_True in H by done.
      destruct H as (sm & t3 & H1 & H2 & H3). exists sm, t3. split; [done|]. split; [done|].
      etrans; [exact Hat|]. by eapply agree_le.
    + rewrite lookup_insert_ne by done. destruct (lab !! (x, j)) as [[m evs]|] eqn:El.
      * destruct Hs as (sm & t2 & H1 & H2 & H3). destruct (sm_mid _ _ _ Hsim _ _ _ El) as [Hm _].
        pose proof (Hnext x s2 s2 ev j m sm ltac:(done) H1) as H. rewrite decide_False in H by (intros [-> ->]; done).
        destruct H as (sm' & H4 & H5). pose proof (Hnext m sm sm' evs O y t2 H5 H2) as H.
        rewrite decide_False in H by (intros [-> _]; lia). destruct H as (t3 & H6 & H7).
        exists sm', t3. split; [done|]. split; [done|]. etrans; [exact H3|]. by eapply agree_le.
      * destruct Hs as (t2 & H1 & H2). pose proof (Hnext x s2 s2 ev j y t2 ltac:(done) H1) as H.
        rewrite decide_False in H by (intros [-> ->]; done). destruct H as (t3 & H4 & H5).
        exists t3. split; [done|]. etrans; [exact H2|]. by eapply agree_le.
Qed.

Lemma Sim_call f0 f lab k m evs e :
  Sim f0 f lab -> lab !! k = Some (m, evs) ->
  exists f', insert_call f m e = Ok f' /\ Sim f0 f' (<[k := (m, e :: evs)]> lab).
Proof.
  intros Hsim Hk. destruct (sm_mid _ _ _ Hsim k m evs Hk) as [Hm [mb Hmb]].
  rewrite (insert_call_spec f m e mb Hmb). eexists. split; [done|].
  assert (Hlab : forall k' m' evs', <[k := (m, e :: evs)]> lab !! k' = Some (m', evs') -> exists evs'', lab !! k' = Some (m', evs'')).
  { intros k' m' evs' [[<- [= <- <-]]|[_ ?]]%lookup_insert_Some; eauto. }
  split; try apply Hsim.
  - by apply covered_wf; [apply Hsim|].
  - intros k' m' evs' (evs'' & H)%Hlab. destruct (sm_mid _ _ _ Hsim _ _ _ H) as [Hm' [mb' Hmb']]. split; [done|].
    destruct (covered_lookup_to f m e mb m' mb' Hmb Hmb') as (? & -> & _). done.
  - intros k1 k2 m' e1 e2 (e1' & H1)%Hlab (e2' & H2)%Hlab. by apply (sm_inj _ _ _ Hsim k1 k2 m' e1' e2').
  - intros b blk0 Hb. destruct (sm_block _ _ _ Hsim b blk0 Hb) as (Hlt & blk & Hb' & Hbody & Hci & Hsh & Hsucc). split; [done|].
    destruct (covered_lookup_to f m e mb b blk Hmb Hb') as (blk' & Hl & _ & Ht & Hc & Hbo). exists blk'.
    rewrite decide_False in Hbo by lia. rewrite Ht, Hc, Hbo. split_and!; try done. intros i to Hi. rewrite (Hsucc i to Hi).
    destruct (decide (k = (b, i))) as [->|Hne]; [by rewrite lookup_insert_eq, Hk|by rewrite lookup_insert_ne].
  - intros x s1 s2 ev j y t1 Hag Hst. pose proof (sm_step _ _ _ Hsim x s1 s2 ev j y t1 Hag Hst) as Hs.
    assert (Hxm : x <> m).
    { apply next_inv in Hst as (xb & _ & _ & Hx & _). destruct (sm_block _ _ _ Hsim x xb Hx) as [? _]. lia. }
    destruct (decide (k = (x, j))) as [->|Hne].
    + rewrite lookup_insert_eq. rewrite Hk in Hs. destruct Hs as (sm & t2 & H1 & H2 & H3). exists sm, t2.
      apply (covered_next f m e mb _ _ _ _ _ Hmb) in H1, H2. rewrite decide_False in H1 by done. by rewrite decide_True in H2.
    + rewrite lookup_insert_ne by done. destruct (lab !! (x, j)) as [[m' evs']|] eqn:El.
      * destruct Hs as (sm & t2 & H1 & H2 & H3). exists sm, t2.
        apply (covered_next f m e mb _ _ _ _ _ Hmb) in H1, H2. rewrite decide_False in H1 by done.
        rewrite decide_False in H2; [done|]. intros ->. by apply Hne, (sm_inj _ _ _ Hsim k (x, j) m evs evs').
      * destruct Hs as (t2 & H1 & H2). exists t2. apply (covered_next f m e mb _ _ _ _ _ Hmb) in H1.
        by rewrite decide_False in H1.
Qed.
End props.
