(* ===== verification/BranchTheorems.v ===== *)
(** * What instrumenting branches reports

    The whole pass over a function: which edges report, with which locations,
    and that the program runs as before. *)

From S2P Require Import Prelude Coverage BranchProps.

Section theorems.
Context {Op W : Type} (eval_op : Op -> list Z -> W -> Z * W) (eval_cmp : Z -> CmpType -> Z -> Z -> Z).
#[local] Abbreviation next := (next eval_op eval_cmp).
#[local] Abbreviation run := (run eval_op eval_cmp).
#[local] Abbreviation halt := (halt eval_op eval_cmp).
#[local] Abbreviation Sim := (Sim eval_op eval_cmp).
#[local] Abbreviation Labels := (gmap (Z * nat) (Z * list Event)).

(** The events of an edge. *)
Definition events_of (lab : Labels) (b : Z) (i : nat) : list Event :=
  match lab !! (b, i) with Some (_, evs) => evs | None => [] end.

(** The location an event reports as taken. *)
Definition taken_loc (e : Event) : Z :=
  match e with CovBranch t _ => t | CovSwitch t _ => t | CovCompare _ here _ _ _ => here end.

Lemma should_instrument f0 f lab b to blk0 :
  Sim f0 f lab -> blocks f0 !! to = Some blk0 -> ShouldInstrumentEdge f b to = Ok (observable f0 to).
Proof.
  intros Hsim H0. destruct (sm_block _ _ _ _ _ Hsim to blk0 H0) as (_ & blk & Hb & _ & Hc & _).
  unfold ShouldInstrumentEdge, observable. rewrite Hb, H0. cbn. by rewrite Hc.
Qed.

(** One edge of a branch. *)
Lemma instrument_edge_sim f0 f lab b blk0 i to e :
  wf f0 -> Sim f0 f lab -> blocks f0 !! b = Some blk0 -> successors (term blk0) !! i = Some to -> lab !! (b, i) = None ->
  exists f' lab', instrument_edge f b i to e = Ok f' /\ Sim f0 f' lab' /\
    events_of lab' b i = (if observable f0 to then [e] else []) /\
    (lab' !! (b, i) = None \/ exists m, lab' !! (b, i) = Some (m, [e])) /\
    (forall k, k <> (b, i) -> lab' !! k = lab !! k).
Proof.
  intros Hwf Hsim Hb Hi Hnone. destruct (wf_succ f0 Hwf b blk0 to Hb) as [dst Hd]; [by apply list_elem_of_lookup_2 in Hi|].
  unfold instrument_edge. rewrite (should_instrument f0 f lab b to dst Hsim Hd). cbn [mbind outcome_bind].
  destruct (observable f0 to).
  - destruct (Sim_split _ _ f0 f lab b blk0 i to Hsim Hb Hi Hnone) as (f1 & Heq & Hs1).
    destruct (Sim_call _ _ f0 f1 _ (b, i) (next_block f) [] e Hs1 (lookup_insert_eq _ _ _)) as (f2 & Heq2 & Hs2).
    unfold split_edge in Heq. destruct (BlockForEdge f b to) as [[mid fm]| | |]; try done. cbn [mbind outcome_bind] in *.
    destruct (set_edge fm b i mid) as [fs| | |]; try done. cbn [mbind outcome_bind] in *. injection Heq as -> ->.
    rewrite Heq2. exists f2. rewrite insert_insert in Hs2. rewrite decide_True in Hs2 by done.
    eexists. split; [done|]. split; [exact Hs2|]. unfold events_of. rewrite lookup_insert_eq.
    split; [done|]. split; [right; by eexists|]. intros k Hk. by rewrite lookup_insert_ne.
  - exists f, lab. split; [done|]. split; [done|]. unfold events_of. rewrite Hnone. auto.
Qed.

(** ** Locations *)

(** The edges of the blocks in [done] have their events, with locations from
    [lo] on and below [hi], each taken by one edge; no other edge has any. *)
Definition edge_spec (f0 : Func Op) (ev : Z -> nat -> list Event) (b : Z) : Prop :=
  forall blk, blocks f0 !! b = Some blk ->
  match term blk with
  | TCondBr _ b1 b2 => exists t n,
      ev b 0%nat = (if observable f0 b1 then [CovBranch t n] else []) /\
      ev b 1%nat = (if observable f0 b2 then [CovBranch n t] else [])
  | TSwitch _ _ cases => exists all, forall i to, successors (term blk) !! i = Some to ->
      if (i <? length cases)%nat && observable f0 to then exists t, ev b i = [CovSwitch t all] /\ t ∈ all
      else ev b i = []
  | _ => forall i, ev b i = []
  end.

Record Located (f0 : Func Op) (lab : Labels) (lo hi : Z) (done : Z -> Prop) : Prop := {
  lc_one b i m evs : lab !! (b, i) = Some (m, evs) -> exists e, evs = [e] /\ lo <= taken_loc e < hi;
  lc_inj k k' m m' e e' : lab !! k = Some (m, [e]) -> lab !! k' = Some (m', [e']) -> taken_loc e = taken_loc e' -> k = k';
  lc_done b i x : lab !! (b, i) = Some x -> done b;
  lc_spec b : done b -> edge_spec f0 (events_of lab) b
}.

Lemma edge_spec_ext f0 ev ev' b : (forall i, ev' b i = ev b i) -> edge_spec f0 ev b -> edge_spec f0 ev' b.
Proof.
  intros He Hs blk Hb. specialize (Hs blk Hb). destruct (term blk) as [to|c b1 b2|v d cases|].
  - intros i. by rewrite He.
  - by rewrite !He.
  - destruct Hs as [all Hs]. exists all. intros i to Hi. rewrite He. by apply Hs.
  - intros i. by rewrite He.
Qed.

(** Adding the edges of one more block. *)
Lemma Located_step f0 lab lab' lo hi hi' done b :
  Located f0 lab lo hi done -> ~ done b -> lo <= hi -> hi <= hi' ->
  (forall k, fst k <> b -> lab' !! k = lab !! k) ->
  (forall i m evs, lab' !! (b, i) = Some (m, evs) -> exists e, evs = [e] /\ hi <= taken_loc e < hi') ->
  (forall i i' m m' e e', lab' !! (b, i) = Some (m, [e]) -> lab' !! (b, i') = Some (m', [e']) ->
     taken_loc e = taken_loc e' -> i = i') ->
  edge_spec f0 (events_of lab') b ->
  Located f0 lab' lo hi' (fun x => done x \/ x = b).
Proof.
  intros [H1 H2 H3 H4] Hn Hle Hle' Hother Hb1 Hb2 Hspec. split.
  - intros x i m evs Hx. destruct (decide (x = b)) as [->|Hne].
    + destruct (Hb1 i m evs Hx) as (e & -> & ?). exists e. split; [done|lia].
    + rewrite Hother in Hx by done. destruct (H1 x i m evs Hx) as (e & -> & ?). exists e. split; [done|lia].
  - intros [x i] [x' i'] m m' e e' Hx Hx' He.
    destruct (decide (x = b)) as [->|Hne], (decide (x' = b)) as [->|Hne'].
    + f_equal. by apply (Hb2 i i' m m' e e').
    + rewrite (Hother (x', i')) in Hx' by done. destruct (Hb1 i m _ Hx) as (? & [= <-] & ?).
      destruct (H1 x' i' m' _ Hx') as (? & [= <-] & ?). lia.
    + rewrite (Hother (x, i)) in Hx by done. destruct (Hb1 i' m' _ Hx') as (? & [= <-] & ?).
      destruct (H1 x i m _ Hx) as (? & [= <-] & ?). lia.
    + rewrite Hother in Hx, Hx' by done. by apply (H2 _ _ m m' e e').
  - intros x i y Hx. destruct (decide (x = b)) as [->|Hne]; [by right|]. left. rewrite Hother in Hx by done. by apply (H3 x i y).
  - intros x [Hx| ->]; [|done]. apply (edge_spec_ext f0 (events_of lab)); [|by apply H4].
    intros i. unfold events_of. rewrite Hother; [done|]. cbn. intros ->. done.
Qed.

(** The number of locations the edges of a block use. *)
Definition locations (f : Func Op) (b : Z) : Z :=
  match blocks f !! b with
  | Some blk => match term blk with TCondBr _ _ _ => 2 | TSwitch _ _ cases => Z.of_nat (length cases) | _ => 0 end
  | None => 0
  end.

Lemma next_loc_small loc : 0 <= loc -> loc + 1 < two32 -> next_loc loc = loc + 1.
Proof. intros. unfold next_loc, wrap32. apply Z.mod_small. lia. Qed.

(** A block's term, up to the blocks edges lead to. *)
Lemma shape_branch t t0 : shape t = shape t0 -> is_branch t0 = true ->
  (exists to, t = TBr to /\ exists to0, t0 = TBr to0) \/
  (exists c b1 b2 c0 b10 b20, t = TCondBr c b1 b2 /\ t0 = TCondBr c0 b10 b20).
Proof. destruct t, t0; cbn; intros; try done; [left; eauto|right]. by repeat eexists. Qed.

Lemma Instrument_branch_sim f0 f lab lo loc done b blk0 :
  wf f0 -> Sim f0 f lab -> Located f0 lab lo loc done -> ~ done b -> 0 <= lo <= loc ->
  blocks f0 !! b = Some blk0 -> is_branch (term blk0) = true -> loc + locations f0 b < two32 ->
  exists f' lab', Instrument_branch f loc b = Ok (f', loc + locations f0 b) /\ Sim f0 f' lab' /\
    Located f0 lab' lo (loc + locations f0 b) (fun x => done x \/ x = b).
Proof.
  intros Hwf Hsim Hloc Hnd Hlo Hb Hbr Hsmall.
  destruct (sm_block _ _ _ _ _ Hsim b blk0 Hb) as (_ & blk & Hblk & _ & _ & Hsh & Hsucc).
  assert (Hfresh : forall i, lab !! (b, i) = None).
  { intros i. destruct (lab !! (b, i)) eqn:E; [|done]. destruct Hnd. by apply (lc_done _ _ _ _ _ Hloc b i p). }
  unfold Instrument_branch. rewrite Hblk. cbn [deref_opt mbind outcome_bind]. unfold locations in *. rewrite Hb in Hsmall |- *.
  destruct (shape_branch _ _ Hsh Hbr) as [(to & Ht & to0 & Ht0)|(c & b1 & b2 & c0 & b10 & b20 & Ht & Ht0)].
  { rewrite Ht, Ht0 in *. exists f, lab. rewrite Z.add_0_r in *. split; [done|]. split; [done|].
    apply (Located_step f0 lab lab lo loc loc done b Hloc Hnd); try lia; try done.
    - intros i m evs Hk. by rewrite Hfresh in Hk.
    - intros i i' m m' e e' Hk. by rewrite Hfresh in Hk.
    - intros blk' Hb'. rewrite Hb in Hb'. injection Hb' as <-. rewrite Ht0. intros i. unfold events_of. by rewrite Hfresh. }
  rewrite Ht, Ht0 in *. rewrite (next_loc_small loc), (next_loc_small (loc + 1)) by lia.
  assert (b1 = b10).
  { pose proof (Hsucc 0%nat b10 eq_refl) as H. rewrite Hfresh in H. by injection H. } subst b10.
  assert (b2 = b20).
  { pose proof (Hsucc 1%nat b20 eq_refl) as H. rewrite Hfresh in H. by injection H. } subst b20.
  destruct (instrument_edge_sim f0 f lab b blk0 0 b1 (CovBranch loc (loc + 1)) Hwf Hsim Hb) as (f1 & lab1 & E1 & S1 & V1 & N1 & O1);
    [by rewrite Ht0|done|].
  destruct (instrument_edge_sim f0 f1 lab1 b blk0 1 b2 (CovBranch (loc + 1) loc) Hwf S1 Hb) as (f2 & lab2 & E2 & S2 & V2 & N2 & O2);
    [by rewrite Ht0|by rewrite O1|].
  rewrite E1. cbn [mbind outcome_bind]. rewrite E2. cbn [mbind outcome_bind]. exists f2, lab2.
  split; [do 2 f_equal; lia|]. split; [done|].
  assert (H0 : lab2 !! (b, 0%nat) = lab1 !! (b, 0%nat)) by by apply O2.
  assert (Hrest : forall i, (2 <= i)%nat -> lab2 !! (b, i) = None) by (intros i Hi; rewrite O2, O1 by (intros [=]; lia); done).
  assert (Hone : forall i m evs, lab2 !! (b, i) = Some (m, evs) ->
            (i = 0%nat /\ evs = [CovBranch loc (loc + 1)]) \/ (i = 1%nat /\ evs = [CovBranch (loc + 1) loc])).
  { intros [|[|i]] m evs Hk.
    - left. split; [done|]. rewrite H0 in Hk. destruct N1 as [N1|[m1 N1]]; rewrite N1 in Hk; by simplify_eq.
    - right. split; [done|]. destruct N2 as [N2|[m1 N2]]; rewrite N2 in Hk; by simplify_eq.
    - rewrite Hrest in Hk by lia. done. }
  apply (Located_step f0 lab lab2 lo loc (loc + 2) done b Hloc Hnd); try lia.
  - intros k Hk. rewrite O2, O1; [done|by intros ->..].
  - intros i m evs [[_ ->]|[_ ->]]%Hone; (eexists; split; [done|cbn; lia]).
  - intros i i' m m' e e' H1 H2 He. apply Hone in H1 as [[-> [= ->]]|[-> [= ->]]], H2 as [[-> [= ->]]|[-> [= ->]]]; cbn in He; lia.
  - intros blk' Hb'. rewrite Hb in Hb'. injection Hb' as <-. rewrite Ht0. exists loc, (loc + 1).
    split; [|done]. unfold events_of in *. by rewrite H0.
Qed.

(** ** Switches *)

Definition observed (f0 : Func Op) (t : Term) (j : nat) : bool :=
  match successors t !! j with Some to => observable f0 to | None => false end.

Lemma switch_edges_sim f0 b blk0 n i f lab loc :
  wf f0 -> Sim f0 f lab -> blocks f0 !! b = Some blk0 -> (i + n < length (successors (term blk0)))%nat ->
  0 <= loc -> loc + Z.of_nat n < two32 -> (forall j, (i <= j)%nat -> lab !! (b, j) = None) ->
  let js := filter (fun j => observed f0 (term blk0) j = true) (seq i n) in
  exists f' lab' mids,
    switch_edges n i f loc b = Ok (f', loc + Z.of_nat (length js), mids, (fun k => loc + Z.of_nat k) <$> seq 0 (length js)) /\
    Sim f0 f' lab' /\ length mids = length js /\
    (forall k j m, js !! k = Some j -> mids !! k = Some m -> lab' !! (b, j) = Some (m, [])) /\
    (forall key, (forall j, j ∈ js -> key <> (b, j)) -> lab' !! key = lab !! key).
Proof.
  intros Hwf. revert i f lab loc. induction n as [|n IH]; intros i f lab loc Hsim Hb Hi H0 Hsmall Hnone; cbn [switch_edges seq].
  { exists f, lab, []. rewrite filter_nil. cbn. rewrite Z.add_0_r. split; [done|]. split; [done|]. done. }
  destruct (sm_block _ _ _ _ _ Hsim b blk0 Hb) as (_ & blk & Hblk & _ & _ & Hsh & Hsucc).
  destruct (lookup_lt_is_Some_2 (successors (term blk0)) i) as [to Hto]; [lia|].
  rewrite Hblk. cbn [deref_opt mbind outcome_bind].
  pose proof (Hsucc i to Hto) as Hto'. rewrite Hnone in Hto' by lia. rewrite Hto'. cbn [deref_opt mbind outcome_bind].
  destruct (wf_succ f0 Hwf b blk0 to Hb) as [dst Hd]; [by apply list_elem_of_lookup_2 in Hto|].
  rewrite (should_instrument f0 f lab b to dst Hsim Hd). cbn [mbind outcome_bind].
  rewrite filter_cons. assert (Hobs : observed f0 (term blk0) i = observable f0 to) by (unfold observed; by rewrite Hto).
  rewrite Hobs. destruct (observable f0 to) eqn:Eobs; cbn zeta.
  - rewrite decide_True by done.
    destruct (Sim_split _ _ f0 f lab b blk0 i to Hsim Hb Hto) as (f1 & Heq & Hs1); [by apply Hnone|].
    unfold split_edge in Heq. destruct (BlockForEdge f b to) as [[mid fm]| | |]; try done. cbn [mbind outcome_bind] in *.
    destruct (set_edge fm b i mid) as [fs| | |]; try done. cbn [mbind outcome_bind] in *. injection Heq as -> ->.
    rewrite next_loc_small by lia.
    destruct (IH (S i) f1 _ (loc + 1) Hs1 Hb) as (f' & lab' & mids & E & S' & L & V & O); [lia..| |].
    { intros j Hj. rewrite lookup_insert_ne by (intros [=]; lia). apply Hnone. lia. }
    rewrite E. cbn [mbind outcome_bind]. set (js := filter _ (seq (S i) n)) in *.
    assert (Hni : i ∉ js) by (intros [_ [? _]%elem_of_seq]%list_elem_of_filter; lia).
    exists f', lab', (next_block f :: mids). split.
    { do 3 f_equal; [f_equal; cbn [length]; lia|]. cbn [length seq fmap list_fmap]. rewrite Z.add_0_r. f_equal.
      rewrite <- fmap_S_seq, <- list_fmap_compose. apply list_fmap_ext. intros k x _. cbn. lia. }
    split; [done|]. split; [cbn; lia|]. split.
    + intros [|k] j m Hj Hm; cbn in Hj, Hm; [|by apply (V k)]. injection Hj as <-. injection Hm as <-.
      rewrite O; [by rewrite lookup_insert_eq|]. intros j Hj [= ->]. done.
    + intros key Hkey. rewrite O; [|intros j Hj; apply Hkey; by right].
      rewrite lookup_insert_ne; [done|]. intros <-. by apply (Hkey i); [left|].
  - rewrite decide_False by done. destruct (IH (S i) f lab loc Hsim Hb) as (f' & lab' & mids & H); [lia..| |].
    { intros j Hj. apply Hnone. lia. }
    by exists f', lab', mids.
Qed.

Lemma switch_calls_sim f0 b all js mids locs f lab :
  Sim f0 f lab -> NoDup js -> length mids = length js -> length locs = length js ->
  (forall k j m, js !! k = Some j -> mids !! k = Some m -> lab !! (b, j) = Some (m, [])) ->
  exists f' lab', switch_calls f mids locs all = Ok f' /\ Sim f0 f' lab' /\
    (forall k j m l, js !! k = Some j -> mids !! k = Some m -> locs !! k = Some l -> lab' !! (b, j) = Some (m, [CovSwitch l all])) /\
    (forall key, (forall j, j ∈ js -> key <> (b, j)) -> lab' !! key = lab !! key).
Proof.
  revert mids locs f lab. induction js as [|j js IH]; intros [|m mids] [|l locs] f lab Hsim Hnd Hm Hl Hlab; try done.
  { exists f, lab. done. }
  cbn [switch_calls]. apply NoDup_cons in Hnd as [Hj Hnd].
  destruct (Sim_call _ _ f0 f lab (b, j) m [] (CovSwitch l all) Hsim) as (f1 & E1 & S1); [by apply (Hlab 0%nat)|].
  rewrite E1. cbn [mbind outcome_bind].
  destruct (IH mids locs f1 _ S1 Hnd) as (f' & lab' & E & S' & V & O); [cbn in *; lia..| |].
  { intros k j' m' Hk Hm'. rewrite lookup_insert_ne; [by apply (Hlab (S k))|].
    intros [= ->]. apply Hj. by apply list_elem_of_lookup_2 in Hk. }
  exists f', lab'. split; [done|]. split; [done|]. split.
  - intros [|k] j' m' l' H1 H2 H3; cbn in H1, H2, H3; [|by apply (V k)]. injection H1 as <-. injection H2 as <-. injection H3 as <-.
    rewrite O; [by rewrite lookup_insert_eq|]. intros j' Hj' [= ->]. done.
  - intros key Hkey. rewrite O; [|intros j' Hj'; apply Hkey; by right].
    rewrite lookup_insert_ne; [done|]. intros <-. by apply (Hkey j); [left|].
Qed.

Lemma Instrument_switch_sim f0 f lab lo loc done b blk0 :
  wf f0 -> Sim f0 f lab -> Located f0 lab lo loc done -> ~ done b -> 0 <= lo <= loc ->
  blocks f0 !! b = Some blk0 -> is_switch (term blk0) = true -> loc + locations f0 b < two32 ->
  exists f' lab' loc', Instrument_switch f loc b = Ok (f', loc') /\ loc <= loc' <= loc + locations f0 b /\ Sim f0 f' lab' /\
    Located f0 lab' lo loc' (fun x => done x \/ x = b).
Proof.
  intros Hwf Hsim Hloc Hnd Hlo Hb Hsw Hsmall.
  destruct (sm_block _ _ _ _ _ Hsim b blk0 Hb) as (_ & blk & Hblk & _ & _ & Hsh & _).
  assert (Hfresh : forall i, lab !! (b, i) = None).
  { intros i. destruct (lab !! (b, i)) eqn:E; [|done]. destruct Hnd. by apply (lc_done _ _ _ _ _ Hloc b i p). }
  unfold Instrument_switch. rewrite Hblk. cbn [deref_opt mbind outcome_bind]. unfold locations in *. rewrite Hb in Hsmall |- *.
  destruct (term blk0) as [| |v0 d0 cases0|] eqn:Et0; try done. destruct (term blk) as [| |v d cases|]; try done.
  injection Hsh as Hlen. rewrite Hlen.
  destruct (switch_edges_sim f0 b blk0 (length cases0) 0 f lab loc Hwf Hsim Hb) as (f1 & lab1 & mids & E1 & S1 & L1 & V1 & O1).
  { rewrite Et0. cbn. rewrite length_fmap. lia. } { lia. } { done. } { done. }
  rewrite E1. cbn [mbind outcome_bind]. rewrite Et0 in *. set (js := filter _ (seq 0 (length cases0))) in *.
  set (locs := _ <$> seq 0 (length js)) in *.
  assert (Hll : length locs = length js) by (subst locs; by rewrite length_fmap, length_seq).
  assert (Hjs : (length js <= length cases0)%nat) by (subst js; etrans; [apply length_filter|by rewrite length_seq]).
  destruct (switch_calls_sim f0 b locs js mids locs f1 lab1 S1) as (f2 & lab2 & E2 & S2 & V2 & O2); try done.
  { apply NoDup_filter, NoDup_seq. }
  rewrite E2. cbn [mbind outcome_bind]. exists f2, lab2. eexists. split; [done|]. split; [lia|]. split; [done|].
  assert (Hnot : forall i, i ∉ js -> lab2 !! (b, i) = None).
  { intros i Hi. rewrite O2, O1; [apply Hfresh| |]; intros j Hj [= ->]; done. }
  assert (Hone : forall i m evs, lab2 !! (b, i) = Some (m, evs) ->
            exists k, js !! k = Some i /\ locs !! k = Some (loc + Z.of_nat k) /\ evs = [CovSwitch (loc + Z.of_nat k) locs]).
  { intros i m evs Hk. destruct (decide (i ∈ js)) as [Hi|Hi]; [|by rewrite Hnot in Hk].
    apply list_elem_of_lookup_1 in Hi as [k Hk']. exists k. split; [done|]. pose proof (lookup_lt_Some _ _ _ Hk') as Hlt.
    assert (Hlk : locs !! k = Some (loc + Z.of_nat k)) by (subst locs; rewrite list_lookup_fmap, lookup_seq_lt by done; done).
    split; [done|]. destruct (lookup_lt_is_Some_2 mids k) as [m' Hm']; [lia|].
    rewrite (V2 k i m' (loc + Z.of_nat k) Hk' Hm' Hlk) in Hk. by injection Hk. }
  apply (Located_step f0 lab lab2 lo loc _ done b Hloc Hnd); try lia.
  - intros k Hk. rewrite O2, O1; [done|by intros j _ ->..].
  - intros i m evs (k & Hk & _ & ->)%Hone. apply lookup_lt_Some in Hk. eexists. split; [done|]. cbn. lia.
  - intros i i' m m' e e' (k & Hk & _ & [= ->])%Hone (k' & Hk' & _ & [= ->])%Hone He. cbn in He.
    assert (k = k') as -> by lia. rewrite Hk in Hk'. by injection Hk'.
  - intros blk' Hb'. rewrite Hb in Hb'. injection Hb' as <-. rewrite Et0. exists locs. intros i to Hi.
    assert (Hin : i ∈ js <-> (i <? length cases0)%nat && observable f0 to = true).
    { subst js. rewrite list_elem_of_filter, elem_of_seq. unfold observed. rewrite Hi. rewrite andb_true_iff, Nat.ltb_lt. intuition lia. }
    destruct ((i <? length cases0)%nat && observable f0 to).
    + destruct Hin as [_ Hin]. specialize (Hin eq_refl). apply list_elem_of_lookup_1 in Hin as [k Hk].
      pose proof (lookup_lt_Some _ _ _ Hk) as Hlt. destruct (lookup_lt_is_Some_2 mids k) as [m Hm]; [lia|].
      destruct (lookup_lt_is_Some_2 locs k) as [l Hl']; [lia|]. exists l. unfold events_of. rewrite (V2 k i m l) by done.
      split; [done|]. by apply list_elem_of_lookup_2 in Hl'.
    + unfold events_of. rewrite Hnot; [done|]. rewrite Hin. done.
Qed.

(** ** The whole function *)

Definition total_locations (f : Func Op) (bs : list Z) : Z := foldr (fun b n => locations f b + n) 0 bs.

Lemma locations_nonneg f b : 0 <= locations f b.
Proof. unfold locations. repeat case_match; lia. Qed.

Lemma total_cons f b bs : total_locations f (b :: bs) = locations f b + total_locations f bs.
Proof. done. Qed.

Lemma total_locations_nonneg f bs : 0 <= total_locations f bs.
Proof. induction bs as [|b bs IH]; [done|]. rewrite total_cons. pose proof (locations_nonneg f b). lia. Qed.

(** A step that instruments the blocks whose terminator is of a kind. *)
Definition instruments (g : Func Op -> Z -> Z -> outcome (Func Op * Z)) (kind : Term -> bool) (f0 : Func Op) : Prop :=
  forall f lab lo loc done b blk0,
    Sim f0 f lab -> Located f0 lab lo loc done -> ~ done b -> 0 <= lo <= loc ->
    blocks f0 !! b = Some blk0 -> kind (term blk0) = true -> loc + locations f0 b < two32 ->
    exists f' lab' loc', g f loc b = Ok (f', loc') /\ loc <= loc' <= loc + locations f0 b /\ Sim f0 f' lab' /\
      Located f0 lab' lo loc' (fun x => done x \/ x = b).

Lemma Located_done f0 lab lo hi (done done' : Z -> Prop) :
  (forall b, done b <-> done' b) -> Located f0 lab lo hi done -> Located f0 lab lo hi done'.
Proof.
  intros Hd [H1 H2 H3 H4]. split; try done.
  - intros b i x Hx. apply Hd. by apply (H3 b i x).
  - intros b Hb. apply H4. by apply Hd.
Qed.

Lemma instrument_all_sim g kind f0 bs f lab lo loc done :
  instruments g kind f0 -> Sim f0 f lab -> Located f0 lab lo loc done -> NoDup bs -> (forall b, b ∈ bs -> ~ done b) ->
  (forall b, b ∈ bs -> ends_with f0 kind b = true) -> 0 <= lo <= loc -> loc + total_locations f0 bs < two32 ->
  exists f' lab' loc', instrument_all g f loc bs = Ok (f', loc') /\ loc <= loc' <= loc + total_locations f0 bs /\ Sim f0 f' lab' /\
    Located f0 lab' lo loc' (fun x => done x \/ x ∈ bs).
Proof.
  intros Hg. revert f lab loc done. induction bs as [|b bs IH]; intros f lab loc done Hsim Hloc Hnd Hdone Hkind Hlo Hsm; cbn [instrument_all].
  { exists f, lab, loc. cbn. split; [done|]. split; [lia|]. split; [done|].
    apply (Located_done _ _ _ _ done); [|done]. intros b. split; [by left|]. by intros [?|?%elem_of_nil]. }
  apply NoDup_cons in Hnd as [Hb Hnd]. rewrite total_cons in Hsm |- *. pose proof (total_locations_nonneg f0 bs). pose proof (locations_nonneg f0 b).
  pose proof (Hkind b ltac:(left)) as Hk. unfold ends_with in Hk. destruct (blocks f0 !! b) as [blk0|] eqn:Eb; [|done].
  destruct (Hg f lab lo loc done b blk0 Hsim Hloc) as (f1 & lab1 & loc1 & E1 & Hl1 & S1 & L1); try done; try lia; [apply Hdone; left|].
  rewrite E1. cbn [mbind outcome_bind].
  destruct (IH f1 lab1 loc1 _ S1 L1 Hnd) as (f' & lab' & loc' & E & Hl & S' & L'); try lia.
  { intros x Hx [Hd| ->]; [|done]. by apply (Hdone x); [right|]. }
  { intros x Hx. apply Hkind. by right. }
  exists f', lab', loc'. split; [done|]. split; [lia|]. split; [done|].
  apply (Located_done _ _ _ _ (fun x => (done x \/ x = b) \/ x ∈ bs)); [|exact L']. intros x. rewrite elem_of_cons. tauto.
Qed.

(** A run of the original function, with the events of the edges it takes. *)
Fixpoint covered_run (ev : Z -> nat -> list Event) (n : nat) (f : Func Op) (c : Z * State W) :
    option (list Event * (Z * State W)) :=
  match n with
  | O => Some ([], c)
  | S n => '(ev1, i, c') ← next f c; '(ev2, c') ← covered_run ev n f c'; Some (ev1 ++ ev (fst c) i ++ ev2, c')
  end.

Lemma Sim_run f0 f lab n x s1 s2 evs y t1 :
  Sim f0 f lab -> agree (next_value f0) s1 s2 -> covered_run (events_of lab) n f0 (x, s1) = Some (evs, (y, t1)) ->
  exists m t2, run m f (x, s2) = Some (evs, (y, t2)) /\ agree (next_value f0) t1 t2.
Proof.
  intros Hsim. revert x s1 s2 evs. induction n as [|n IH]; intros x s1 s2 evs Hag Hrun; cbn [covered_run] in Hrun.
  { injection Hrun as <- <- <-. by exists O, s2. }
  destruct (next f0 (x, s1)) as [[[ev1 i] [z u1]]|] eqn:En; [|done]. cbn [mbind option_bind fst] in Hrun.
  destruct (covered_run (events_of lab) n f0 (z, u1)) as [[ev2 [y' t1']]|] eqn:Er; [|done]. cbn in Hrun. injection Hrun as <- <- <-.
  pose proof (sm_step _ _ _ _ _ Hsim x s1 s2 ev1 i z u1 Hag En) as Hs. unfold events_of at 1.
  destruct (lab !! (x, i)) as [[m evs]|].
  - destruct Hs as (sm & u2 & H1 & H2 & H3). destruct (IH z u1 u2 ev2 H3 Er) as (k & t2 & Hk & Ht).
    exists (S (S k)), t2. split; [|done]. cbn [Coverage.run]. rewrite H1. cbn [mbind option_bind]. rewrite H2. cbn [mbind option_bind].
    rewrite Hk. done.
  - destruct Hs as (u2 & H1 & H2). destruct (IH z u1 u2 ev2 H2 Er) as (k & t2 & Hk & Ht).
    exists (S k), t2. split; [|done]. cbn [Coverage.run]. rewrite H1. cbn [mbind option_bind]. rewrite Hk. done.
Qed.

Lemma Sim_halt f0 f lab y t1 t2 ev u1 :
  wf f0 -> Sim f0 f lab -> agree (next_value f0) t1 t2 -> halt f0 (y, t1) = Some (ev, u1) ->
  exists u2, halt f (y, t2) = Some (ev, u2) /\ agree (next_value f0) u1 u2.
Proof.
  intros Hwf Hsim Hag Hh. unfold Coverage.halt in *. cbn [fst snd] in *.
  destruct (blocks f0 !! y) as [blk0|] eqn:Eb; [|done]. cbn [mbind option_bind] in Hh.
  destruct (sm_block _ _ _ _ _ Hsim y blk0 Eb) as (_ & blk & Hb & Hbody & _ & Hsh & _).
  rewrite Hb. cbn [mbind option_bind]. destruct (term blk0) eqn:Et; try done. destruct (term blk); try done.
  destruct (wf_ids f0 Hwf y blk0 Eb) as (_ & _ & Hbb & _).
  destruct (exec_body_agree eval_op eval_cmp (next_value f0) (body blk0) t1 t2 Hag Hbb) as [He Hs].
  injection Hh as Hh. rewrite Hbody. rewrite Hh in He, Hs. cbn in He, Hs. exists (snd (exec_body eval_op eval_cmp (body blk0) t2)).
  split; [|done]. f_equal. rewrite He. by destruct (exec_body eval_op eval_cmp (body blk0) t2).
Qed.

(** C15: instrumenting a function keeps its behaviour and reports its edges.
    The pass returns; every run of the function is a run of the instrumented
    one with the same values and effects, in which each edge taken adds the
    edge's events, and the same holds where the function ends.  An edge of a
    conditional branch reports its own location as taken and the other edge's
    as not taken; an edge of a switch reports its location among those of the
    switch, except the edge of the last case, which has no location; edges
    into blocks where nothing can be inserted, and unconditional branches,
    report nothing.  No two edges report the same location. *)
Theorem InstrumentTrace_observes f loc pc :
  wf f -> NoDup (layout f) -> (forall b, is_Some (blocks f !! b) -> b ∈ layout f) -> naked f = false ->
  0 <= loc -> loc + total_locations f (layout f) < two32 ->
  exists f' loc' ev, Branch_InstrumentTrace f loc pc = Ok (true, f', loc') /\ loc <= loc' <= loc + total_locations f (layout f) /\
    (forall b, edge_spec f ev b) /\
    (forall b i e, e ∈ ev b i -> loc <= taken_loc e < loc') /\
    (forall b i e b' i' e', e ∈ ev b i -> e' ∈ ev b' i' -> taken_loc e = taken_loc e' -> (b, i) = (b', i')) /\
    (forall n x s1 s2 evs y t1, agree (next_value f) s1 s2 -> covered_run ev n f (x, s1) = Some (evs, (y, t1)) ->
       exists m t2, run m f' (x, s2) = Some (evs, (y, t2)) /\ agree (next_value f) t1 t2 /\
         forall evh u1, halt f (y, t1) = Some (evh, u1) ->
           exists u2, halt f' (y, t2) = Some (evh, u2) /\ agree (next_value f) u1 u2).
Proof.
  intros Hwf Hnd Hall Hnk H0 Hsm. unfold Branch_InstrumentTrace. rewrite Hnk.
  assert (Hboth : total_locations f (blocks_with f is_branch) + total_locations f (blocks_with f is_switch)
                  <= total_locations f (layout f)).
  { clear. unfold blocks_with. induction (layout f) as [|b l IH]; [done|]. rewrite !filter_cons, !total_cons.
    pose proof (locations_nonneg f b).
    assert (~ (ends_with f is_branch b = true /\ ends_with f is_switch b = true)).
    { unfold ends_with. destruct (blocks f !! b) as [blk|]; [by destruct (term blk) as [| | |]; intros []|by intros []]. }
    repeat case_decide; rewrite ?total_cons; tauto || lia. }
  pose proof (total_locations_nonneg f (blocks_with f is_branch)).
  pose proof (total_locations_nonneg f (blocks_with f is_switch)).
  destruct (instrument_all_sim Instrument_branch is_branch f (blocks_with f is_branch) f ∅ loc loc (fun _ => False))
    as (f1 & lab1 & loc1 & E1 & Hl1 & S1 & L1); try done; try lia.
  { intros g lab lo l done b blk0 Hs Hl Hd Hlo Hb Hk Hlt.
    destruct (Instrument_branch_sim f g lab lo l done b blk0 Hwf Hs Hl Hd Hlo Hb Hk Hlt) as (f' & lab' & E & S' & L').
    exists f', lab', (l + locations f b). pose proof (locations_nonneg f b). split; [done|]. split; [lia|done]. }
  { by apply Sim_refl. }
  { by apply NoDup_filter. }
  { intros b Hb. apply list_elem_of_filter in Hb. tauto. }
  rewrite E1. cbn [mbind outcome_bind].
  destruct (instrument_all_sim Instrument_switch is_switch f (blocks_with f is_switch) f1 lab1 loc loc1 _
              (fun g lab lo l done b blk0 => Instrument_switch_sim f g lab lo l done b blk0 Hwf) S1 L1)
    as (f2 & lab2 & loc2 & E2 & Hl2 & S2 & L2); try lia.
  { by apply NoDup_filter. }
  { intros b Hb [[]|Hb']. apply list_elem_of_filter in Hb as [Hb _], Hb' as [Hb' _]. unfold ends_with in *.
    destruct (blocks f !! b); [|done]. by destruct (term _). }
  { intros b Hb. apply list_elem_of_filter in Hb. tauto. }
  rewrite E2. cbn [mbind outcome_bind]. exists f2, loc2, (events_of lab2). split; [done|]. split; [lia|].
  assert (Hev : forall b i e, e ∈ events_of lab2 b i -> exists m, lab2 !! (b, i) = Some (m, [e])).
  { intros b i e He. unfold events_of in He. destruct (lab2 !! (b, i)) as [[m evs]|] eqn:El; [|by apply elem_of_nil in He].
    destruct (lc_one _ _ _ _ _ L2 b i m evs El) as (e' & -> & _). apply list_elem_of_singleton in He as ->. by exists m. }
  split_and!.
  - intros b blk Hb. destruct (term blk) eqn:Et.
    4:{ intros i. unfold events_of. destruct (lab2 !! (b, i)) as [p|] eqn:El; [|done].
        destruct (lc_done _ _ _ _ _ L2 b i p El) as [[[]|Hd]|Hd]; apply list_elem_of_filter in Hd as [Hd _];
          unfold ends_with in Hd; by rewrite Hb, Et in Hd. }
    all: pose proof (lc_spec _ _ _ _ _ L2 b) as Hspec; unfold edge_spec in Hspec; specialize (fun H => Hspec H blk Hb);
      rewrite Et in Hspec; apply Hspec; unfold blocks_with; rewrite !list_elem_of_filter; unfold ends_with; rewrite Hb, Et;
      assert (b ∈ layout f) by (apply Hall; by eexists); tauto.
  - intros b i e He. destruct (Hev b i e He) as [m Hm]. by destruct (lc_one _ _ _ _ _ L2 b i m [e] Hm) as (e' & [= <-] & ?).
  - intros b i e b' i' e' He He' Heq. destruct (Hev b i e He) as [m Hm]. destruct (Hev b' i' e' He') as [m' Hm'].
    by apply (lc_inj _ _ _ _ _ L2 (b, i) (b', i') m m' e e').
  - intros n x s1 s2 evs y t1 Hag Hrun. destruct (Sim_run f f2 lab2 n x s1 s2 evs y t1 S2 Hag Hrun) as (m & t2 & Hm & Ht).
    exists m, t2. split; [done|]. split; [done|]. intros evh u1. by apply (Sim_halt f f2 lab2).
Qed.
End theorems.

(** ** An instance *)

(** A branch both edges of which lead to the same block. *)
Definition demo_entry : Block unit := MkBlock [] [IOp 0 tt []] (TCondBr (OVar 0) 1 1) true.
Definition demo_exit : Block unit := MkBlock [MkPhi 1 [(0, OVar 0); (0, OVar 0)]] [] TEnd true.
Definition demo_func : Func unit := MkFunc false [0; 1] {[0 := demo_entry; 1 := demo_exit]} 2 2.

Lemma demo_blocks b blk : blocks demo_func !! b = Some blk -> (b = 0 /\ blk = demo_entry) \/ (b = 1 /\ blk = demo_exit).
Proof.
  cbn [demo_func blocks]. intros [[<- <-]|[_ Hb]]%lookup_insert_Some; [by left|]. apply lookup_singleton_Some in Hb. right.
  by destruct Hb as [<- <-].
Qed.

Lemma demo_wf : wf demo_func.
Proof.
  split.
  - intros b blk [[-> ->]|[-> ->]]%demo_blocks; cbn; (split; [lia|]); repeat constructor; cbn; lia.
  - intros b blk to [[-> ->]|[-> ->]]%demo_blocks Hto; cbn in Hto; [|by apply elem_of_nil in Hto].
    assert (to = 1) as -> by set_solver. by eexists.
  - intros b blk p e [[-> ->]|[-> ->]]%demo_blocks Hp He; cbn in Hp; [by apply elem_of_nil in Hp|].
    apply list_elem_of_singleton in Hp as ->. cbn in He. assert (fst e = 0) as -> by set_solver. cbn. lia.
  - intros b blk to dst p [[-> ->]|[-> ->]]%demo_blocks [[-> ->]|[-> ->]]%demo_blocks Hp; cbn in Hp;
      try by apply elem_of_nil in Hp.
    + apply list_elem_of_singleton in Hp as ->. vm_compute. lia.
    + apply list_elem_of_singleton in Hp as ->. vm_compute. lia.
  - intros to dst p b e1 e2 [[-> ->]|[-> ->]]%demo_blocks Hp H1 H2; cbn in Hp; [by apply elem_of_nil in Hp|].
    apply list_elem_of_singleton in Hp as ->. apply list_elem_of_filter in H1 as [_ H1], H2 as [_ H2]. cbn in H1, H2.
    assert (e1 = (0, OVar 0)) as -> by set_solver. assert (e2 = (0, OVar 0)) as -> by set_solver. done.
Qed.

Lemma InstrumentTrace_observes_witness :
  exists f' loc', Branch_InstrumentTrace demo_func 10 0 = Ok (true, f', loc') /\ 10 <= loc' <= 12.
Proof.
  destruct (InstrumentTrace_observes (W := unit) (fun _ _ w => (0, w)) (fun _ _ _ _ => 0) demo_func 10 0)
    as (f' & loc' & ev & H1 & H2 & _).
  - exact demo_wf.
  - apply (bool_decide_unpack _). vm_compute. exact I.
  - intros b [blk [[-> _]|[-> _]]%demo_blocks]; set_solver.
  - reflexivity.
  - lia.
  - vm_compute. reflexivity.
  - exists f', loc'. exact (conj H1 H2).
Defined.
