(* ===== verification/ValueCoverage.v ===== *)
(** * Instrumentation of comparisons

    Models [tools/Fuzzer/ValueCoverage.cpp]: in front of every comparison of
    integers or floating point numbers of one, two, four or eight bytes, a
    call that reports the operands.  The size of a type is a parameter (it is
    the data layout's). *)

From S2P Require Import Prelude Coverage BranchProps.

Section value_coverage.
Context {Op : Type} (getTypeAllocSize : CmpType -> Z).

(** The instructions inserted in front of an instruction, the next unused
    value and the next location. *)
Definition Instrument_cmp (value loc : Z) (i : Inst Op) : list (Inst Op) * Z * Z :=
  match i with
  | ICmp _ pred cmp_type lhs_val rhs_val =>
      if decide (cmp_type = TPointer) then ([], value, loc)
      else
        let type_size := getTypeAllocSize cmp_type in
        if negb (existsb (Z.eqb type_size) [1; 2; 4; 8]) then ([], value, loc)
        else
          let bits := 8 * type_size in
          if decide (cmp_type = TInt bits) then ([ICoverCompare type_size loc pred lhs_val rhs_val], value, next_loc loc)
          else
            match cmp_type with
            | TInt _ =>
                ([IZExt value bits lhs_val; IZExt (value + 1) bits rhs_val;
                  ICoverCompare type_size loc pred (OVar value) (OVar (value + 1))], value + 2, next_loc loc)
            | TFloat | TDouble =>
                ([IBitCast value bits lhs_val; IBitCast (value + 1) bits rhs_val;
                  ICoverCompare type_size loc pred (OVar value) (OVar (value + 1))], value + 2, next_loc loc)
            | _ => ([], value, loc)
            end
  | _ => ([], value, loc)
  end.

Fixpoint instrument_body (value loc : Z) (l : list (Inst Op)) : list (Inst Op) * Z * Z :=
  match l with
  | [] => ([], value, loc)
  | i :: l =>
      let '(before, value, loc) := Instrument_cmp value loc i in
      let '(rest, value, loc) := instrument_body value loc l in
      (before ++ i :: rest, value, loc)
  end.

(** The blocks in layout order. *)
Fixpoint instrument_blocks (f : Func Op) (loc : Z) (bs : list Z) : outcome (Func Op * Z) :=
  match bs with
  | [] => Ok (f, loc)
  | b :: bs =>
      blk ← deref_opt (blocks f !! b);
      let '(insts, value, loc) := instrument_body (next_value f) loc (body blk) in
      let f := MkFunc (naked f) (layout f) (<[b := MkBlock (phis blk) insts (term blk) (can_insert blk)]> (blocks f))
                 (next_block f) value in
      instrument_blocks f loc bs
  end.

Definition Value_InstrumentTrace (f : Func Op) (loc pc : Z) : outcome (bool * Func Op * Z) :=
  if naked f then Ok (false, f, loc)
  else '(f, loc) ← instrument_blocks f loc (layout f); Ok (true, f, loc).

(** The functions of a module, [None] for declarations. *)
Fixpoint instrument_module (m : list (option (Func Op))) (loc : Z) : outcome (list (option (Func Op)) * Z) :=
  match m with
  | [] => Ok ([], loc)
  | None :: m => '(m, loc) ← instrument_module m loc; Ok (None :: m, loc)
  | Some f :: m =>
      '(_, f, loc) ← Value_InstrumentTrace f loc 0;
      '(m, loc) ← instrument_module m loc;
      Ok (Some f :: m, loc)
  end.

Definition Value_InstrumentRuntime (m : list (option (Func Op))) (loc : Z) : outcome (bool * list (option (Func Op)) * Z) :=
  '(m, loc) ← instrument_module m loc; Ok (true, m, loc).

(** ** What is reported *)

Context {W : Type} (eval_op : Op -> list Z -> W -> Z * W) (eval_cmp : Z -> CmpType -> Z -> Z -> Z).
#[local] Abbreviation exec_body := (exec_body eval_op eval_cmp).
#[local] Abbreviation exec_inst := (exec_inst eval_op eval_cmp).

(** The size under which comparisons of a type are reported. *)
Definition reported_size (ty : CmpType) : option Z :=
  let size := getTypeAllocSize ty in
  if existsb (Z.eqb size) [1; 2; 4; 8] then
    match ty with TInt _ | TFloat | TDouble => Some size | _ => None end
  else None.

(** Running a body with a report in front of every comparison of such a
    type: the events, the state and the next location. *)
Fixpoint reported_body (loc : Z) (l : list (Inst Op)) (s : State W) : list Event * State W * Z :=
  match l with
  | [] => ([], s, loc)
  | i :: l =>
      let '(report, loc) :=
        match i with
        | ICmp _ p ty lhs rhs =>
            match reported_size ty with
            | Some size => ([CovCompare size loc p (value (env s) lhs) (value (env s) rhs)], next_loc loc)
            | None => ([], loc)
            end
        | _ => ([], loc)
        end in
      let '(ev1, s) := exec_inst i s in
      let '(ev2, s, loc) := reported_body loc l s in
      (report ++ ev1 ++ ev2, s, loc)
  end.

Lemma set_new_agree n (s1 s2 : State W) d v : n <= d -> agree n s1 s2 -> agree n s1 (set_env s2 d v).
Proof.
  intros Hd [He Hs Hw]. split; [|done|done]. intros x Hx. cbn. rewrite lookup_insert_ne by lia. by apply He.
Qed.

(** The call in front of one instruction. *)
Lemma Instrument_cmp_spec n vn loc i s1 s2 :
  n <= vn -> agree n s1 s2 -> inst_below n i ->
  let '(before, vn', loc') := Instrument_cmp vn loc i in
  vn <= vn' /\ agree n s1 (snd (exec_body before s2)) /\
  (fst (exec_body before s2), loc') =
    match i with
    | ICmp _ p ty lhs rhs =>
        match reported_size ty with
        | Some size => ([CovCompare size loc p (value (env s1) lhs) (value (env s1) rhs)], next_loc loc)
        | None => ([], loc)
        end
    | _ => ([], loc)
    end.
Proof.
  intros Hn Ha Hi. unfold Instrument_cmp.
  destruct i as [| d p ty l r | | | | | | |]; try (split; [lia|done]).
  destruct Hi as (_ & Hl & Hr). rewrite (value_agree n s1 s2 l Ha Hl), (value_agree n s1 s2 r Ha Hr).
  unfold reported_size.
  destruct (decide (ty = TPointer)) as [->|Hp]; [split; [lia|split; [done|by destruct (existsb _ _)]]|].
  destruct (existsb _ _) eqn:Es; cbn [negb]; [|split; [lia|done]].
  assert (Hval : forall x o, operand_below n o -> value (<[vn := x]> (env s2)) o = value (env s2) o).
  { intros x [y|c]; cbn; [|done]. intros Hy. by rewrite lookup_insert_ne by lia. }
  destruct (decide (ty = TInt _)) as [Ht|Ht]; [split; [lia|split; [done|]]; by rewrite Ht|].
  destruct ty as [bits| | | |size]; try done; (split; [lia|]); cbn [Coverage.exec_body Coverage.exec_inst fst snd app];
    (split; [by repeat (apply set_new_agree; [lia|])|]);
    cbn [env set_env]; rewrite Hval by done; cbn [value]; by rewrite lookup_insert_eq, lookup_insert_ne, lookup_insert_eq by lia.
Qed.

(** An instrumented body computes what the original one does and reports,
    in front of each comparison of a supported type, its predicate and the
    values of its operands, under consecutive locations. *)
Theorem instrument_body_reports n vn loc l s1 s2 :
  n <= vn -> agree n s1 s2 -> Forall (inst_below n) l ->
  let '(l', vn', loc') := instrument_body vn loc l in
  exists t2, exec_body l' s2 = (fst (fst (reported_body loc l s1)), t2) /\
    agree n (snd (fst (reported_body loc l s1))) t2 /\ loc' = snd (reported_body loc l s1) /\
    snd (fst (reported_body loc l s1)) = snd (exec_body l s1) /\ vn <= vn'.
Proof.
  intros Hn Ha Hl. revert vn loc s1 s2 Hn Ha. induction Hl as [|i l Hi _ IH]; intros vn loc s1 s2 Hn Ha; cbn [instrument_body].
  { by exists s2. }
  pose proof (Instrument_cmp_spec n vn loc i s1 s2 Hn Ha Hi) as Hb.
  destruct (Instrument_cmp vn loc i) as [[before vn1] loc1]. destruct Hb as (Hle & Hag & Hrep).
  destruct (exec_inst_agree eval_op eval_cmp n i _ _ Hag Hi) as [Hev Hag'].
  specialize (IH vn1 loc1 _ _ ltac:(lia) Hag'). destruct (instrument_body vn1 loc1 l) as [[rest vn'] loc'].
  destruct IH as (t2 & E & Hag2 & Hloc & Hs & Hle2). exists t2.
  rewrite exec_body_app, exec_body_cons, E. cbn [fst snd reported_body]. rewrite <- Hrep. rewrite exec_body_cons.
  destruct (exec_inst i s1) as [ev1 u1]. cbn [fst snd] in *. destruct (reported_body loc1 l u1) as [[ev2 u2] loc2].
  cbn [fst snd] in *. rewrite <- Hev. split_and!; try done. lia.
Qed.
End value_coverage.
