(* ===== verification/TaintSymbols.v ===== *)
(** * Symbols of the taint tracker

    Models the linking half of [tools/TaintTracker/TaintTracker.cpp]: how the
    names that instrumented code refers to (taints of constants, transfer
    functions) get addresses, in the base class and in the data flow
    tracker. *)

From Stdlib Require Import Ascii.
From S2P Require Import Prelude Allocators ShadowMemory Tools Snapshot MapsProps DataFlow.

(** [strstr(s, p) == s] *)
Fixpoint has_prefix (p s : string) : bool :=
  match p, s with
  | EmptyString, _ => true
  | String a p, String b s => bool_decide (a = b) && has_prefix p s
  | String _ _, EmptyString => false
  end.

(** What follows a prefix. *)
Fixpoint after_prefix (p s : string) : option string :=
  match p, s with
  | EmptyString, _ => Some s
  | String a p, String b s => if bool_decide (a = b) then after_prefix p s else None
  | String _ _, EmptyString => None
  end.

(** [sscanf(s, p "%" SCNx64, &val)] and [SCNx32], as assigned. *)
Definition sscanf_x64 (p s : string) : option Z := s ← after_prefix p s; fst <$> scan_x64 s.
Definition sscanf_x32 (p s : string) : option Z := s ← after_prefix p s; fst <$> scan_x32 s.

Definition chars (s : string) : list Z := code <$> String.list_ascii_of_string s.

(** The maps of the tool, the symbols of its base class [Tool], and the state
    of the derived class. *)
Record TaintTool {D : Type} := MkTaintTool {
  tainted_consts : gmap string Z;
  tainted_funcs : gmap string Z;
  tool_symbols : Symbols;
  derived : D
}.
Arguments TaintTool : clear implicits.
Arguments MkTaintTool {D}.

(** The virtual methods. *)
Record TaintMethods {D : Type} := MkTaintMethods {
  FindIntConstant : D -> Z -> outcome (Z * D);
  FindFloatConstant : D -> Z -> outcome (Z * D);
  FindDoubleConstant : D -> Z -> outcome (Z * D);
  FindTransferFunc : string -> Z
}.
Arguments TaintMethods : clear implicits.
Arguments MkTaintMethods {D}.

(** The addresses of [gZeroStuff] and [ReturnUntainted]. *)
Section symbols.
Context (gZeroStuff ReturnUntainted : Z).

(** The methods of [TaintTrackerTool] itself. *)
Definition base_methods {D : Type} : TaintMethods D :=
  MkTaintMethods (fun d _ => Ok (gZeroStuff, d)) (fun d _ => Ok (gZeroStuff, d)) (fun d _ => Ok (gZeroStuff, d))
    (fun _ => ReturnUntainted).

Context {D : Type} (methods : TaintMethods D).

Definition set_const (t : TaintTool D) (name : string) (addr : Z) : TaintTool D :=
  MkTaintTool (<[name := addr]> (tainted_consts t)) (tainted_funcs t) (tool_symbols t) (derived t).
Definition set_func (t : TaintTool D) (name : string) (addr : Z) : TaintTool D :=
  MkTaintTool (tainted_consts t) (<[name := addr]> (tainted_funcs t)) (tool_symbols t) (derived t).
Definition set_derived (t : TaintTool D) (d : D) : TaintTool D :=
  MkTaintTool (tainted_consts t) (tainted_funcs t) (tool_symbols t) d.

(** The taint of a constant by its name; 0 for other names. *)
Definition constant_by_name (d : D) (name : string) : outcome (Z * D) :=
  if has_prefix "__tainted_float_" name then
    match sscanf_x32 "__tainted_float_" name with Some val => FindFloatConstant methods d val | None => Fatal end
  else if has_prefix "__tainted_double_" name then
    match sscanf_x64 "__tainted_double_" name with Some val => FindDoubleConstant methods d val | None => Fatal end
  else if has_prefix "__tainted_int_" name then
    match sscanf_x64 "__tainted_int_" name with Some val => FindIntConstant methods d val | None => Fatal end
  else Ok (0, d).

Definition Taint_FindSymbolForLinking (t : TaintTool D) (name : string) (resolved : Z) : outcome (Z * TaintTool D) :=
  let tool := Tool_FindSymbolForLinking (tool_symbols t) (chars name) resolved in
  if negb (has_prefix "__taint" name) then Ok (tool, t)
  else if has_prefix "__tainted_" name then
    let addr := default 0 (tainted_consts t !! name) in
    let t := set_const t name addr in
    '(addr, t) ←
      (if addr =? 0 then '(addr, d) ← constant_by_name (derived t) name; Ok (addr, set_const (set_derived t d) name addr)
       else Ok (addr, t));
    if negb (addr =? 0) then Ok (addr, t)
    else
      let t := set_const t name tool in
      if negb (tool =? 0) then Ok (tool, t)
      else Ok (gZeroStuff, set_const t name gZeroStuff)
  else
    let addr := default 0 (tainted_funcs t !! name) in
    let t := set_func t name addr in
    if negb (addr =? 0) then Ok (addr, t)
    else
      let addr := FindTransferFunc methods name in
      let t := set_func t name addr in
      if negb (addr =? 0) then Ok (addr, t)
      else
        let t := set_func t name tool in
        if negb (tool =? 0) then Ok (tool, t)
        else Ok (ReturnUntainted, set_func t name ReturnUntainted).
End symbols.

(** The methods of the data flow tracker. *)
Definition dataflow_methods (mmap : nat -> Z -> Z -> bool -> option Z) (kBreakPointBytes : list Z)
    (address : TransferFunc -> Z) : TaintMethods Tracker :=
  MkTaintMethods (FindIntConstantTaint mmap kBreakPointBytes) (FindFloatConstantTaint mmap kBreakPointBytes)
    (FindDoubleConstantTaint mmap kBreakPointBytes) (FindTaintTransferFunc address).

(** ** Names of constants *)

(** [ss << std::hex << v] for an unsigned [v]. *)
Definition std_hex (v : Z) : string := hex_digits (S (Z.to_nat (Z.log2 v / 4))) v.

Inductive ConstantKind := kInt | kFloat | kDouble.
Definition constant_prefix (k : ConstantKind) : string :=
  match k with kInt => "__tainted_int_" | kFloat => "__tainted_float_" | kDouble => "__tainted_double_" end.
Definition constant_name (k : ConstantKind) (bits : Z) : string := constant_prefix k +:+ std_hex bits.

(** ** Properties *)

Lemma after_prefix_app p s : after_prefix p (p +:+ s) = Some s.
Proof. induction p as [|a p IH]; [done|]. rewrite string_app_cons. cbn [after_prefix]. by rewrite bool_decide_true. Qed.

Lemma has_prefix_app p s : has_prefix p (p +:+ s) = true.
Proof. induction p as [|a p IH]; [done|]. rewrite string_app_cons. cbn [has_prefix]. by rewrite bool_decide_true. Qed.

Lemma string_app_nil_r s : s +:+ "" = s.
Proof. induction s as [|c s IH]; [done|]. rewrite string_app_cons. by rewrite IH. Qed.

Lemma scan_x64_std_hex v : u64 v -> scan_x64 (std_hex v) = Some (v, "").
Proof.
  intros [Hv Hv2]. unfold std_hex. pose proof (hex_width O v Hv) as Hw. rewrite Nat.max_0_l in Hw.
  set (n := Z.to_nat (Z.log2 v / 4)) in *. pose proof (scan_hex_digits (S n) v 0 "" Hv I) as Hs.
  rewrite string_app_nil_r, Z.mod_small in Hs by lia. change (0 * 16 ^ Z.of_nat (S n) + v) with v in Hs.
  unfold scan_x64. cbn [hex_digits] in *. rewrite skip_space_hex by apply digit_mod. rewrite scan_sign_hex by apply digit_mod.
  assert (Hp : forall c, scan_prefix (String (hex_char c) (hex_digits n v)) = String (hex_char c) (hex_digits n v)).
  { intros c. destruct n as [|m]; [done|]. cbn [hex_digits]. apply scan_prefix_hex, digit_mod. }
  rewrite Hp. cbn [scan_number]. cbn [scan_digits] in Hs. rewrite (hex_char_value _ (digit_mod v n)) in *.
  cbn [mbind option_bind]. change (0 * 16 + ?d) with d in Hs. rewrite Hs. cbn [mbind option_bind].
  destruct (Z.leb_spec two64 v); [lia|done].
Qed.

(** The method a constant's name leads to. *)
Definition find_constant {D} (methods : TaintMethods D) (k : ConstantKind) : D -> Z -> outcome (Z * D) :=
  match k with kInt => FindIntConstant methods | kFloat => FindFloatConstant methods | kDouble => FindDoubleConstant methods end.

Section props.
Context (gZeroStuff ReturnUntainted : Z) {D : Type} (methods : TaintMethods D).
#[local] Abbreviation FindSymbolForLinking := (Taint_FindSymbolForLinking gZeroStuff ReturnUntainted methods).

Lemma constant_by_name_spec d k bits :
  u64 bits -> (k = kFloat -> bits < two32) ->
  constant_by_name methods d (constant_name k bits) = find_constant methods k d bits.
Proof.
  intros Hu Hf. unfold constant_by_name, constant_name, sscanf_x64, sscanf_x32.
  pose proof (scan_x64_std_hex bits Hu) as Hs. destruct k; cbn [constant_prefix find_constant].
  - change (has_prefix "__tainted_float_" ("__tainted_int_" +:+ std_hex bits)) with false.
    change (has_prefix "__tainted_double_" ("__tainted_int_" +:+ std_hex bits)) with false.
    rewrite has_prefix_app, after_prefix_app. cbn [mbind option_bind]. by rewrite Hs.
  - rewrite has_prefix_app, after_prefix_app. cbn [mbind option_bind]. unfold scan_x32. rewrite Hs. cbn.
    unfold wrap32. by rewrite Z.mod_small by (destruct Hu; specialize (Hf eq_refl); lia).
  - change (has_prefix "__tainted_float_" ("__tainted_double_" +:+ std_hex bits)) with false.
    rewrite has_prefix_app, after_prefix_app. cbn [mbind option_bind]. by rewrite Hs.
Qed.

(** the name instrumented code uses for the taint of a constant leads back
    to the constant: resolving it the first time asks the tool for the taint of
    exactly those bits, and every later resolution answers the same address
    without asking again. *)
Theorem constant_names_roundtrip t k bits resolved addr d :
  u64 bits -> (k = kFloat -> bits < two32) -> tainted_consts t !! constant_name k bits = None ->
  find_constant methods k (derived t) bits = Ok (addr, d) -> addr <> 0 ->
  exists t', FindSymbolForLinking t (constant_name k bits) resolved = Ok (addr, t') /\ derived t' = d /\
    (forall other, other <> constant_name k bits -> tainted_consts t' !! other = tainted_consts t !! other) /\
    forall resolved', FindSymbolForLinking t' (constant_name k bits) resolved' = Ok (addr, t').
Proof.
  intros Hu Hf Hnone Hfind Hne. unfold Taint_FindSymbolForLinking.
  assert (H1 : has_prefix "__taint" (constant_name k bits) = true) by by destruct k.
  assert (H2 : has_prefix "__tainted_" (constant_name k bits) = true) by by destruct k.
  rewrite H1, H2. cbn [negb]. rewrite Hnone. cbn [from_option id]. change (0 =? 0) with true. cbn iota. cbn [derived set_const].
  rewrite (constant_by_name_spec (derived t) k bits Hu Hf), Hfind. cbn [mbind outcome_bind].
  destruct (Z.eqb_spec addr 0); [done|]. cbn [negb]. eexists. split; [done|]. split; [done|]. split.
  - intros other Ho. cbn [tainted_consts set_const set_derived]. by rewrite !lookup_insert_ne by done.
  - intros resolved'. cbn [tainted_consts set_const set_derived]. rewrite lookup_insert_eq. cbn [from_option id].
    destruct (Z.eqb_spec addr 0); [done|]. cbn [mbind outcome_bind]. destruct (Z.eqb_spec addr 0); [done|]. cbn [negb].
    unfold set_const, set_derived. cbn [tainted_consts tainted_funcs tool_symbols derived]. by rewrite !insert_insert_eq.
Qed.

(** A transfer function's name always gets an address. *)
Lemma transfer_name_resolves t name resolved :
  has_prefix "__taint" name = true -> has_prefix "__tainted_" name = false -> ReturnUntainted <> 0 ->
  exists addr t', FindSymbolForLinking t name resolved = Ok (addr, t') /\ addr <> 0 /\ tainted_funcs t' !! name = Some addr.
Proof.
  intros H1 H2 Hr. unfold Taint_FindSymbolForLinking. rewrite H1, H2. cbn [negb].
  destruct (Z.eqb_spec (default 0 (tainted_funcs t !! name)) 0); cbn [negb];
    [|eexists _, _; split; [done|]; split; [done|apply lookup_insert_eq]].
  destruct (Z.eqb_spec (FindTransferFunc methods name) 0); cbn [negb];
    [|eexists _, _; split; [done|]; split; [done|apply lookup_insert_eq]].
  destruct (Z.eqb_spec (Tool_FindSymbolForLinking (tool_symbols t) (chars name) resolved) 0); cbn [negb];
    eexists _, _; (split; [done|]); (split; [done|apply lookup_insert_eq]).
Qed.
End props.

(** ** Casts *)

(** The names of the conversions of [visitCastInst]. *)
Definition conversions : list string :=
  ["trunc"; "zext"; "sext"; "fptrunc"; "fpext"; "fptoui"; "fptosi"; "uitofp"; "sitofp"].

Lemma has_prefix_mono p q ty : has_prefix (p +:+ ty) q = true -> has_prefix p q = true.
Proof.
  revert q. induction p as [|a p IH]; intros q; [done|]. rewrite string_app_cons. destruct q as [|b q]; [done|].
  cbn [has_prefix]. intros [H1 H2]%andb_true_iff. rewrite H1. by apply IH.
Qed.

Lemma has_prefix_refl s : has_prefix s s = true.
Proof. induction s as [|a s IH]; [done|]. cbn. by rewrite bool_decide_true. Qed.

Definition conversion_prefix (op : string) : string := "__taint_" +:+ op +:+ "_to_".

Lemma no_conversion_tracked :
  forallb (fun op => forallb (fun e => negb (has_prefix (conversion_prefix op) (fst e))) taint_trackers) conversions = true.
Proof. vm_compute. reflexivity. Qed.

Lemma conversion_not_tracked op ty : op ∈ conversions -> find_tracker (conversion_prefix op +:+ ty) = None.
Proof.
  intros Hop. unfold find_tracker.
  destruct (filter (fun e => e.1 = conversion_prefix op +:+ ty) (reverse taint_trackers)) as [|e l] eqn:E; [done|].
  assert (He : e ∈ filter (fun e => e.1 = conversion_prefix op +:+ ty) (reverse taint_trackers)) by (rewrite E; left).
  apply list_elem_of_filter in He as [Hn He]. apply elem_of_reverse in He.
  pose proof no_conversion_tracked as H. rewrite forallb_forall in H. specialize (H op (proj1 (list_elem_of_In _ _) Hop)).
  cbn beta in H. rewrite forallb_forall in H. specialize (H e (proj1 (list_elem_of_In _ _) He)). cbn beta in H.
  apply negb_true_iff in H. rewrite (has_prefix_mono _ _ ty) in H; [done|]. rewrite Hn. apply has_prefix_refl.
Qed.

(** The data flow tracker has no transfer functions for conversions, so
    unless another symbol is provided or resolved, every conversion between
    integer or floating point types, of every type, gets the function that
    answers "untainted": the result of a conversion is never tainted. *)
Theorem conversions_lose_taint gZeroStuff ReturnUntainted mmap bp address t op ty :
  op ∈ conversions -> tainted_funcs t !! (conversion_prefix op +:+ ty) = None ->
  Tool_FindSymbolForLinking (tool_symbols t) (chars (conversion_prefix op +:+ ty)) 0 = 0 ->
  exists t', Taint_FindSymbolForLinking gZeroStuff ReturnUntainted (dataflow_methods mmap bp address) t
               (conversion_prefix op +:+ ty) 0 = Ok (ReturnUntainted, t').
Proof.
  intros Hop Hnone Htool. unfold Taint_FindSymbolForLinking. set (name := conversion_prefix op +:+ ty) in *.
  assert (H1 : has_prefix "__taint" name = true) by (subst name; set_unfold in Hop; by destruct_or! Hop; subst op).
  assert (H2 : has_prefix "__tainted_" name = false) by (subst name; set_unfold in Hop; by destruct_or! Hop; subst op).
  rewrite H1, H2. cbn [negb]. rewrite Hnone. cbn [from_option id]. change (0 =? 0) with true. cbn [negb].
  cbn [FindTransferFunc dataflow_methods]. unfold FindTaintTransferFunc. subst name. rewrite (conversion_not_tracked op ty Hop).
  change (0 =? 0) with true. cbn [negb]. rewrite Htool. change (0 =? 0) with true. cbn [negb]. by eexists.
Qed.

(** ** Instances *)

Lemma constant_names_roundtrip_witness :
  exists t', Taint_FindSymbolForLinking 4096 8192 (base_methods 4096 8192) (MkTaintTool ∅ ∅ no_symbols tt)
               (constant_name kInt 255) 0 = Ok (4096, t').
Proof.
  destruct (constant_names_roundtrip 4096 8192 (base_methods 4096 8192) (MkTaintTool ∅ ∅ no_symbols tt) kInt 255 0 4096 tt)
    as (t' & H & _).
  - split; [lia|reflexivity].
  - discriminate.
  - reflexivity.
  - reflexivity.
  - discriminate.
  - exists t'. exact H.
Defined.

Lemma conversions_lose_taint_witness :
  exists t', Taint_FindSymbolForLinking 4096 8192 (dataflow_methods (fun _ _ _ _ => None) [204] (fun _ => 65536))
               (MkTaintTool ∅ ∅ no_symbols DataFlowTracker_new) (conversion_prefix "zext" +:+ "i64") 0 = Ok (8192, t').
Proof.
  apply conversions_lose_taint.
  - right. left.
  - reflexivity.
  - vm_compute. reflexivity.
Defined.
