(* ===== verification/TaintTracker.v ===== *)
(** * Taint tracking instrumentation

    Models the instrumenting half of [tools/TaintTracker/TaintTracker.cpp]:
    unfolding constant expressions, expanding address computations, the
    taint slots of a function and the code each visitor inserts.  The
    instructions of LLVM are modelled as far as the tool tells them apart;
    pointers and taints have 64 bits. *)

From stdpp Require Import pretty.
From Stdlib Require Import Ascii.
From S2P Require Import Prelude Snapshot TaintSymbols.

(** ** Instructions *)

(** The cases of the switch of [visitCastInst]. *)
Inductive CastClass := Conversion | SameSize | UnsupportedCast.

(** What a constant expression computes. *)
Inductive ConstOp :=
| CCast (op : string) (class : CastClass) (from_bits : Z) (ty : string)
| CBinary (op ty : string)
| CGep (all_zero : bool) (ty : string)
| COther.

(** Operands as [LoadTaint] distinguishes them.  [VLocal] is an instruction
    or an argument. *)
Inductive Val :=
| VLocal (x : Z)
| VInt (c : Z)
| VFloat (bits : Z)
| VDouble (bits : Z)
| VOtherFP
| VGlobal (g size : Z)
| VFunction
| VUndef
| VNull
| VExpr (op : ConstOp) (args : list Val)
| VOther.

(** The predicates of comparisons, of floating point and integer values. *)
Inductive Predicate :=
| FCMP_FALSE | FCMP_OEQ | FCMP_OGT | FCMP_OGE | FCMP_OLT | FCMP_OLE | FCMP_ONE | FCMP_ORD
| FCMP_UNO | FCMP_UEQ | FCMP_UGT | FCMP_UGE | FCMP_ULT | FCMP_ULE | FCMP_UNE | FCMP_TRUE
| ICMP_EQ | ICMP_NE | ICMP_SGT | ICMP_SGE | ICMP_SLT | ICMP_SLE | ICMP_UGT | ICMP_UGE
| ICMP_ULT | ICMP_ULE.

Definition GetPredicateName (p : Predicate) : string :=
  match p with
  | FCMP_FALSE => "false"
  | FCMP_OEQ => "oeq"
  | FCMP_OGT => "ogt"
  | FCMP_OGE => "oge"
  | FCMP_OLT => "olt"
  | FCMP_OLE => "ole"
  | FCMP_ONE => "one"
  | FCMP_ORD => "ord"
  | FCMP_UNO => "uno"
  | FCMP_UEQ => "ueq"
  | FCMP_UGT | ICMP_UGT => "ugt"
  | FCMP_UGE | ICMP_UGE => "uge"
  | FCMP_ULT | ICMP_ULT => "ult"
  | FCMP_ULE | ICMP_ULE => "ule"
  | FCMP_UNE => "une"
  | FCMP_TRUE => "true"
  | ICMP_EQ => "eq"
  | ICMP_NE => "ne"
  | ICMP_SGT => "sgt"
  | ICMP_SGE => "sge"
  | ICMP_SLT => "slt"
  | ICMP_SLE => "sle"
  end.

Inductive TInst :=
| TAlloca (d size : Z)
| TLoad (d bits : Z) (addr : Val)
| TStore (bits : Z) (v addr : Val)
| TCast (d : Z) (op : string) (class : CastClass) (from_bits : Z) (ty : string) (v : Val)
| TBinary (d : Z) (op ty : string) (lhs rhs : Val)
| TCmp (d : Z) (op : string) (pred : Predicate) (ty : string) (lhs rhs : Val)
| TGep (d : Z) (ty : string) (ptr : Val) (indices : list Val)
| TIntrinsic (d : Z) (name : string) (ret_type : option string) (args : list Val)
| TMemSet (d : Z) (dest v len : Val)
| TMemCpy (d : Z) (dest src len : Val)
| TMemMove (d : Z) (dest src len : Val)
| TCall (d : Z) (inline_asm : bool) (args : list Val)
| TRet (d : Z) (v : option Val)
| TSelect (d : Z) (vector_cond : bool) (c a b : Val)
| TCondBr (d : Z) (c : Val)
| TBrUncond (d : Z)
| TIndirectBr (d : Z) (addr : Val)
| TSwitchOn (d : Z) (c : Val) (cases : list Z)
| TExtractElement (d : Z)
| TInsertElement (d : Z)
| TPhi (d : Z) (incoming : list (Z * Val))
| TExpr (d : Z) (op : ConstOp) (args : list Val).

(** The value an instruction is. *)
Definition inst_id (i : TInst) : Z :=
  match i with
  | TAlloca d _ | TLoad d _ _ | TCast d _ _ _ _ _ | TBinary d _ _ _ _ | TCmp d _ _ _ _ _ | TGep d _ _ _ | TIntrinsic d _ _ _
  | TMemSet d _ _ _ | TMemCpy d _ _ _ | TMemMove d _ _ _ | TCall d _ _ | TRet d _ | TSelect d _ _ _ _ | TCondBr d _
  | TBrUncond d | TIndirectBr d _ | TSwitchOn d _ _ | TExtractElement d | TInsertElement d | TPhi d _ | TExpr d _ _ => d
  | TStore _ _ _ => 0
  end.

(** ** Inserted code *)

Inductive Atom := ATemp (t : Z) | AZero | AVal (v : Val) | AInt (n : Z).

(** Loading the slot of a value, loading a global taint, calling a function,
    converting a pointer or widening an integer. *)
Inductive TaintExpr :=
| ELoad (x : Z)
| EGlobal (name : string)
| ECall (name : string) (args : list Atom)
| EPtrToInt (v : Val)
| EZExt (v : Val).

Inductive XInst :=
| XLet (t : Z) (e : TaintExpr)
| XSet (x : Z) (a : Atom)
| XProg (i : TInst).

(** An [IRBuilder] at work: the next temporary and the code so far. *)
Definition builder := (Z * list XInst)%type.
Definition emit (b : builder) (e : TaintExpr) : Atom * builder := (ATemp (fst b), (fst b + 1, snd b ++ [XLet (fst b) e])).
Definition set_taint (b : builder) (x : Z) (a : Atom) : builder := (fst b, snd b ++ [XSet x a]).

(** ** Taints of operands *)

(** [LoadTaint] of everything but the constant expressions it looks into. *)
Definition load_leaf (b : builder) (v : Val) : Atom * builder :=
  match v with
  | VLocal x => emit b (ELoad x)
  | VInt c => emit b (EGlobal (constant_name kInt c))
  | VFloat bits => emit b (EGlobal (constant_name kFloat bits))
  | VDouble bits => emit b (EGlobal (constant_name kDouble bits))
  | VGlobal g size =>
      let '(addr, b) := emit b (EPtrToInt (VGlobal g size)) in
      emit b (ECall "__taint_global" [addr; AInt size])
  | _ => (AZero, b)
  end.

(** The operand whose taint [LoadTaint] loads for a constant: casts between
    pointers and integers are followed to their operand without its pointer
    casts ([stripping]: bitcasts and address computations with zero indices
    only); other constant expressions stay. *)
Fixpoint taint_base (stripping : bool) (v : Val) : Val :=
  match v with
  | VExpr (CCast op _ _ _) (v' :: _) =>
      if bool_decide (op = "ptrtoint") || bool_decide (op = "inttoptr") then taint_base true v'
      else if stripping && bool_decide (op = "bitcast") then taint_base true v'
      else v
  | VExpr (CGep true _) (v' :: _) => taint_base true v'
  | _ => v
  end.

Definition LoadTaint (b : builder) (v : Val) : Atom * builder := load_leaf b (taint_base false v).

Fixpoint load_operand_taints (b : builder) (vs : list Val) : list Atom * builder :=
  match vs with
  | [] => ([], b)
  | v :: vs => let '(a, b) := LoadTaint b v in let '(l, b) := load_operand_taints b vs in (a :: l, b)
  end.

(** ** Visitors

    Each returns the code in front of the instruction and behind it. *)

Definition prefixed (s : string) : string := "__taint_" +:+ s.
Definition bits_name (op : string) (bits : Z) : string := prefixed (op +:+ "_" +:+ pretty bits).

Definition visitAllocaInst (b : builder) (d size : Z) : builder :=
  let '(addr, b) := emit b (EPtrToInt (VLocal d)) in
  let '(taint, b) := emit b (ECall "__taint_local" [addr; AInt size]) in
  set_taint b d taint.

Definition visitLoadInst (b : builder) (d bits : Z) (addr : Val) : builder :=
  let '(addr_taint, b) := LoadTaint b addr in
  let '(p, b) := emit b (EPtrToInt addr) in
  let '(taint, b) := emit b (ECall (bits_name "load" bits) [addr_taint; p]) in
  set_taint b d taint.

Definition visitStoreInst (b : builder) (bits : Z) (v addr : Val) : builder :=
  let '(addr_taint, b) := LoadTaint b addr in
  let '(taint, b) := LoadTaint b v in
  let '(p, b) := emit b (EPtrToInt addr) in
  snd (emit b (ECall (bits_name "store" bits) [addr_taint; p; taint])).

Definition visitCastInst (b : builder) (d : Z) (op : string) (class : CastClass) (ty : string) (v : Val) : builder :=
  let '(taint, b) := LoadTaint b v in
  match class with
  | Conversion => let '(conv_taint, b) := emit b (ECall (conversion_prefix op +:+ ty) [taint]) in set_taint b d conv_taint
  | SameSize => set_taint b d taint
  | UnsupportedCast => b
  end.

(** Comparing operands as pointers: equal constants are one object. *)
#[global] Instance CastClass_eq_dec : EqDecision CastClass.
Proof. solve_decision. Defined.
#[global] Instance ConstOp_eq_dec : EqDecision ConstOp.
Proof. solve_decision. Defined.

Fixpoint same_val (v w : Val) {struct v} : bool :=
  match v, w with
  | VLocal x, VLocal y => x =? y
  | VInt c, VInt c' => c =? c'
  | VFloat c, VFloat c' => c =? c'
  | VDouble c, VDouble c' => c =? c'
  | VGlobal g _, VGlobal g' _ => g =? g'
  | VUndef, VUndef => true
  | VNull, VNull => true
  | VExpr op args, VExpr op' args' =>
      bool_decide (op = op') &&
      (fix go (l l' : list Val) :=
         match l, l' with
         | [], [] => true
         | v :: l, w :: l' => same_val v w && go l l'
         | _, _ => false
         end) args args'
  | _, _ => false
  end.

(** Both operands of a binary operation or comparison. *)
Definition load_two (b : builder) (lhs rhs : Val) : Atom * Atom * builder :=
  let '(l, b) := LoadTaint b lhs in
  if same_val lhs rhs then (l, l, b) else let '(r, b) := LoadTaint b rhs in (l, r, b).

Definition visit_two (b : builder) (d : Z) (name : string) (lhs rhs : Val) : builder :=
  let '(l, r, b) := load_two b lhs rhs in
  let '(taint, b) := emit b (ECall name [l; r]) in
  set_taint b d taint.

Definition visitBinaryOperator (b : builder) (d : Z) (op ty : string) (lhs rhs : Val) : builder :=
  visit_two b d (prefixed (op +:+ "_" +:+ ty)) lhs rhs.

Definition visitCmpInst (b : builder) (d : Z) (op : string) (pred : Predicate) (ty : string) (lhs rhs : Val) : builder :=
  visit_two b d (prefixed (op +:+ "_" +:+ GetPredicateName pred +:+ "_" +:+ ty)) lhs rhs.

(** [isalnum(c) ? c : '_'] *)
Fixpoint alnum_name (s : string) : string :=
  match s with
  | EmptyString => EmptyString
  | String c s => String (if isalnum c then c else "_"%char) (alnum_name s)
  end.

Definition visitIntrinsicInst (b : builder) (d : Z) (name : string) (ret_type : option string) (args : list Val) : builder :=
  let '(taints, b) := load_operand_taints b args in
  match ret_type with
  | None => snd (emit b (ECall (prefixed (alnum_name name)) taints))
  | Some ty =>
      let '(taint, b) := emit b (ECall (prefixed (alnum_name name) +:+ "_" +:+ ty) taints) in
      set_taint b d taint
  end.

(** Storing the taints of the arguments of a call. *)
Fixpoint store_args (b : builder) (i : Z) (args : list Val) : builder :=
  match args with
  | [] => b
  | v :: args =>
      let '(taint, b) := LoadTaint b v in
      store_args (snd (emit b (ECall "__taint_store_arg" [AInt i; taint]))) (i + 1) args
  end.

(** The code in front of a call and behind it; [returns_void] is about the
    function that contains the call. *)
Definition visitCallInst (returns_void : bool) (b : builder) (d : Z) (inline_asm : bool) (args : list Val) : builder * (Z -> builder) :=
  if inline_asm then (set_taint b d AZero, fun t => (t, []))
  else
    (store_args b 0 args,
     fun t => if returns_void then (t, []) else let '(taint, b) := emit (t, []) (ECall "__taint_load_ret" []) in set_taint b d taint).

Definition visitReturnInst (b : builder) (v : option Val) : builder :=
  match v with
  | Some v => let '(taint, b) := LoadTaint b v in snd (emit b (ECall "__taint_store_ret" [taint]))
  | None => b
  end.

Definition visitSelectInst (b : builder) (d : Z) (vector_cond : bool) (c v1 v2 : Val) : builder :=
  if vector_cond then b
  else
    let '(tc, b) := LoadTaint b c in
    let '(t1, b) := LoadTaint b v1 in
    let '(t2, b) := LoadTaint b v2 in
    let '(taint, b) := emit b (ECall "__taint_select" [tc; AVal c; t1; t2]) in
    set_taint b d taint.

Definition visitBranchInst (b : builder) (c : Val) : builder :=
  let '(taint, b) := LoadTaint b c in
  snd (emit b (ECall "__taint_branch" [taint; AVal c])).

(** [case_array] is the address of the table of case values; its second
    entry is passed as the end of the table, whatever the number of cases. *)
Definition visitSwitchInst (case_array : Z) (b : builder) (c : Val) (cases : list Z) : builder :=
  let first_entry := case_array in
  let after_last_entry := case_array + 8 in
  let '(taint, b) := LoadTaint b c in
  let '(v, b) := emit b (EZExt c) in
  snd (emit b (ECall "__taint_switch" [taint; v; AInt first_entry; AInt after_last_entry])).

Definition visit_element (b : builder) (d : Z) : builder := set_taint b d AZero.

Definition visitMemSetInst (b : builder) (dest v len : Val) : builder :=
  let '(t_addr, b) := LoadTaint b dest in
  let '(t_len, b) := LoadTaint b len in
  let '(t_val, b) := LoadTaint b v in
  let '(addr, b) := emit b (EPtrToInt dest) in
  let '(length, b) := emit b (EZExt len) in
  let '(val, b) := emit b (EZExt v) in
  snd (emit b (ECall "__taint_memset" [t_addr; addr; t_val; val; t_len; length])).

(** [visitMemCpyInst] and [visitMemMoveInst]. *)
Definition visit_transfer (name : string) (b : builder) (dest src len : Val) : builder :=
  let '(t_dest, b) := LoadTaint b dest in
  let '(t_src, b) := LoadTaint b src in
  let '(t_len, b) := LoadTaint b len in
  let '(dest_addr, b) := emit b (EPtrToInt dest) in
  let '(src_addr, b) := emit b (EPtrToInt src) in
  let '(length, b) := emit b (EZExt len) in
  snd (emit b (ECall name [t_dest; dest_addr; t_src; src_addr; t_len; length])).
Definition visitMemCpyInst := visit_transfer "__taint_memcpy".
Definition visitMemMoveInst := visit_transfer "__taint_memmove".

(** The code in front of an instruction other than a phi node.  [case_array]
    gives the tables of case values of the switches. *)
Definition visit_before (returns_void : bool) (case_array : Z -> Z) (b : builder) (i : TInst) : builder :=
  match i with
  | TLoad d bits addr => visitLoadInst b d bits addr
  | TStore bits v addr => visitStoreInst b bits v addr
  | TCast d op class _ ty v => visitCastInst b d op class ty v
  | TBinary d op ty l r => visitBinaryOperator b d op ty l r
  | TCmp d op pred ty l r => visitCmpInst b d op pred ty l r
  | TIntrinsic d name ret args => visitIntrinsicInst b d name ret args
  | TMemSet _ dest v len => visitMemSetInst b dest v len
  | TMemCpy _ dest src len => visitMemCpyInst b dest src len
  | TMemMove _ dest src len => visitMemMoveInst b dest src len
  | TCall d asm args => fst (visitCallInst returns_void b d asm args)
  | TRet _ v => visitReturnInst b v
  | TSelect d vec c v1 v2 => visitSelectInst b d vec c v1 v2
  | TCondBr _ c => visitBranchInst b c
  | TSwitchOn d c cases => visitSwitchInst (case_array d) b c cases
  | TExtractElement d | TInsertElement d => visit_element b d
  | TAlloca _ _ | TGep _ _ _ _ | TBrUncond _ | TIndirectBr _ _ | TPhi _ _ | TExpr _ _ _ => b
  end.

(** The code behind it. *)
Definition visit_after (returns_void : bool) (t : Z) (i : TInst) : builder :=
  match i with
  | TAlloca d size => visitAllocaInst (t, []) d size
  | TCall d asm args => snd (visitCallInst returns_void (t, []) d asm args) t
  | _ => (t, [])
  end.

(** Visiting one instruction: the next temporary and the code. *)
Definition visit (returns_void : bool) (case_array : Z -> Z) (t : Z) (i : TInst) : builder :=
  let b := visit_before returns_void case_array (t, []) i in
  let a := visit_after returns_void (fst b) i in
  (fst a, snd b ++ XProg i :: snd a).

Fixpoint visit_all (returns_void : bool) (case_array : Z -> Z) (t : Z) (l : list TInst) : builder :=
  match l with
  | [] => (t, [])
  | i :: l =>
      let '(t, code) := visit returns_void case_array t i in
      let '(t, rest) := visit_all returns_void case_array t l in
      (t, code ++ rest)
  end.

(** ** Phi nodes

    The code that visiting the phi nodes of a block in turn puts in front of
    the terminator of its predecessor [from]. *)
Definition visitPHINode (from : Z) (b : builder) (phi : Z * list (Z * Val)) : builder :=
  fold_left (fun b e => if fst e =? from then let '(taint, b) := LoadTaint b (snd e) in set_taint b (fst phi) taint else b)
    (snd phi) b.

Definition visit_phis (from t : Z) (phis : list (Z * list (Z * Val))) : builder :=
  fold_left (visitPHINode from) phis (t, []).

(** ** Unfolding constant expressions *)

(** [getAsInstruction] *)
Definition getAsInstruction (d : Z) (op : ConstOp) (args : list Val) : TInst :=
  match op, args with
  | CCast op class bits ty, [v] => TCast d op class bits ty v
  | CBinary op ty, [l; r] => TBinary d op ty l r
  | CGep _ ty, p :: indices => TGep d ty p indices
  | _, _ => TExpr d op args
  end.

(** The next free name, the instructions inserted, the operand that replaces
    the old one and the number of replacements. *)
Fixpoint UnfoldOperand (fresh : Z) (v : Val) {struct v} : Z * list TInst * Val * Z :=
  match v with
  | VExpr op args =>
      let '(next, insts, args', ret) :=
        (fix go (fresh : Z) (l : list Val) : Z * list TInst * list Val * Z :=
           match l with
           | [] => (fresh, [], [], 0)
           | v :: l =>
               let '(fresh, insts, v', n) := UnfoldOperand fresh v in
               let '(fresh, insts', l', n') := go fresh l in
               (fresh, insts ++ insts', v' :: l', n + n')
           end) (fresh + 1) args in
      (next, insts ++ [getAsInstruction fresh op args'], VLocal fresh, ret + 1)
  | _ => (fresh, [], v, 0)
  end.

Fixpoint UnfoldOperands (fresh : Z) (l : list Val) : Z * list TInst * list Val * Z :=
  match l with
  | [] => (fresh, [], [], 0)
  | v :: l =>
      let '(fresh, insts, v', n) := UnfoldOperand fresh v in
      let '(fresh, insts', l', n') := UnfoldOperands fresh l in
      (fresh, insts ++ insts', v' :: l', n + n')
  end.

(** The operands of an instruction, and the instruction with others. *)
Definition operands (i : TInst) : list Val :=
  match i with
  | TAlloca _ _ | TBrUncond _ | TExtractElement _ | TInsertElement _ | TRet _ None => []
  | TLoad _ _ v | TCast _ _ _ _ _ v | TRet _ (Some v) | TCondBr _ v | TIndirectBr _ v | TSwitchOn _ v _ => [v]
  | TStore _ v w | TBinary _ _ _ v w | TCmp _ _ _ _ v w => [v; w]
  | TGep _ _ v l => v :: l
  | TIntrinsic _ _ _ l | TCall _ _ l | TExpr _ _ l => l
  | TMemSet _ u v w | TMemCpy _ u v w | TMemMove _ u v w | TSelect _ _ u v w => [u; v; w]
  | TPhi _ l => snd <$> l
  end.

Definition with_operands (i : TInst) (l : list Val) : TInst :=
  match i, l with
  | TLoad d bits _, [v] => TLoad d bits v
  | TStore bits _ _, [v; w] => TStore bits v w
  | TCast d op class bits ty _, [v] => TCast d op class bits ty v
  | TBinary d op ty _ _, [v; w] => TBinary d op ty v w
  | TCmp d op pred ty _ _, [v; w] => TCmp d op pred ty v w
  | TGep d ty _ _, v :: l => TGep d ty v l
  | TIntrinsic d name ret _, l => TIntrinsic d name ret l
  | TMemSet d _ _ _, [u; v; w] => TMemSet d u v w
  | TMemCpy d _ _ _, [u; v; w] => TMemCpy d u v w
  | TMemMove d _ _ _, [u; v; w] => TMemMove d u v w
  | TCall d asm _, l => TCall d asm l
  | TRet d (Some _), [v] => TRet d (Some v)
  | TSelect d vec _ _ _, [u; v; w] => TSelect d vec u v w
  | TCondBr d _, [v] => TCondBr d v
  | TIndirectBr d _, [v] => TIndirectBr d v
  | TSwitchOn d _ cases, [v] => TSwitchOn d v cases
  | TPhi d incoming, l => TPhi d (zip (fst <$> incoming) l)
  | TExpr d op _, l => TExpr d op l
  | i, _ => i
  end.

Definition UnfoldConstantExpressions (fresh : Z) (i : TInst) : Z * list TInst * Z :=
  let '(fresh, insts, l, n) := UnfoldOperands fresh (operands i) in
  (fresh, insts ++ [with_operands i l], n).

(** ** Functions

    A block is its instructions, the terminator last. *)

Definition phis_of (l : list TInst) : list (Z * list (Z * Val)) :=
  omap (fun i => match i with TPhi d incoming => Some (d, incoming) | _ => None end) l.

(** The code of a block once every block was visited.  The taints of phi
    nodes go in front of the terminator when their block is visited: those of
    the blocks up to this one ([earlier]) in front of the terminator's own
    code, those of [later] ones behind it. *)
Definition VisitBlock (returns_void : bool) (case_array : Z -> Z) (earlier later : list (Z * list (Z * Val))) (t : Z)
    (id : Z) (l : list TInst) : builder :=
  match last l with
  | None => (t, [])
  | Some term =>
      let '(t, body) := visit_all returns_void case_array t (removelast l) in
      let '(t, moves) := visit_phis id t earlier in
      let '(t, code) := visit_before returns_void case_array (t, []) term in
      let '(t, late_moves) := visit_phis id t later in
      (t, body ++ moves ++ code ++ late_moves ++ [XProg term])
  end.

Fixpoint visit_blocks (returns_void : bool) (case_array : Z -> Z) (earlier : list (Z * list (Z * Val))) (t : Z)
    (blocks : list (Z * list TInst)) : list (Z * list XInst) :=
  match blocks with
  | [] => []
  | (id, l) :: rest =>
      let earlier := earlier ++ phis_of l in
      let later := concat ((fun b : Z * list TInst => phis_of (snd b)) <$> rest) in
      let '(t, code) := VisitBlock returns_void case_array earlier later t id l in
      (id, code) :: visit_blocks returns_void case_array earlier t rest
  end.

(** The new entry block: the taints of the arguments. *)
Fixpoint load_arg_taints (b : builder) (arg_index : Z) (args : list Z) : builder :=
  match args with
  | [] => b
  | arg :: args =>
      let b := set_taint b arg AZero in
      let '(taint, b) := emit b (ECall "__taint_load_arg" [AInt arg_index]) in
      load_arg_taints (set_taint b arg taint) (arg_index + 1) args
  end.

(** [VisitFunction] once constant expressions and address computations were
    replaced: the block "taints" and the others. *)
Definition VisitFunction (returns_void : bool) (case_array : Z -> Z) (args : list Z) (blocks : list (Z * list TInst)) :
    list XInst * list (Z * list XInst) :=
  let '(t, code) := load_arg_taints (0, []) 0 args in
  (code, visit_blocks returns_void case_array [] t blocks).
