(* ===== verification/TaintProps.v ===== *)
(** * What instrumented code computes

    Runs the code [TaintTracker] inserts against a shadow interpreter: the
    interpreter follows the program one instruction at a time and keeps the
    taint of every value; the instrumented code keeps them in the taint slots
    and temporaries of the function. *)

From S2P Require Import Prelude TaintSymbols TaintTracker.

(** ** Execution *)

(** The program ([world]: its values and memory), the taint slots and the
    state of the tracker. *)
Record Shadow {world tracker : Type} := MkShadow {
  program : world;
  slots : gmap Z Z;
  taints : tracker
}.
Arguments Shadow : clear implicits.
Arguments MkShadow {world tracker}.

Section exec.
(** The program's instructions and operands, the taints of constants and the
    functions of the tracker. *)
Context {world tracker : Type} (step : TInst -> world -> world) (value : world -> Val -> Z)
  (global : string -> Z) (call : string -> list Z -> tracker -> Z * tracker).
#[local] Abbreviation shadow := (Shadow world tracker).

Definition with_program (s : shadow) (w : world) : shadow := MkShadow w (slots s) (taints s).
Definition with_slot (s : shadow) (x v : Z) : shadow := MkShadow (program s) (<[x := v]> (slots s)) (taints s).
Definition with_taints (s : shadow) (m : tracker) : shadow := MkShadow (program s) (slots s) m.
Definition slot (s : shadow) (x : Z) : Z := default 0 (slots s !! x).

(** Running inserted code, with the values of the temporaries. *)
Definition state : Type := shadow * gmap Z Z.

Definition atom_value (st : state) (a : Atom) : Z :=
  match a with
  | ATemp t => default 0 (snd st !! t)
  | AZero => 0
  | AVal v => value (program (fst st)) v
  | AInt n => n
  end.

Definition eval_expr (st : state) (e : TaintExpr) : Z * tracker :=
  match e with
  | ELoad x => (slot (fst st) x, taints (fst st))
  | EGlobal name => (global name, taints (fst st))
  | ECall name args => call name (atom_value st <$> args) (taints (fst st))
  | EPtrToInt v | EZExt v => (value (program (fst st)) v, taints (fst st))
  end.

Definition run1 (st : state) (x : XInst) : state :=
  match x with
  | XLet t e => let '(v, m) := eval_expr st e in (with_taints (fst st) m, <[t := v]> (snd st))
  | XSet x a => (with_slot (fst st) x (atom_value st a), snd st)
  | XProg i => (with_program (fst st) (step i (program (fst st))), snd st)
  end.

Definition run (st : state) (code : list XInst) : state := fold_left run1 code st.

(** ** The shadow interpreter *)

Definition call_taint (s : shadow) (name : string) (args : list Z) : Z * shadow :=
  let '(v, m) := call name args (taints s) in (v, with_taints s m).

(** The taint of an operand. *)
Definition taint_of (s : shadow) (v : Val) : Z * shadow :=
  match taint_base false v with
  | VLocal x => (slot s x, s)
  | VInt c => (global (constant_name kInt c), s)
  | VFloat c => (global (constant_name kFloat c), s)
  | VDouble c => (global (constant_name kDouble c), s)
  | VGlobal g size => call_taint s "__taint_global" [value (program s) (VGlobal g size); size]
  | _ => (0, s)
  end.

Fixpoint taints_of (s : shadow) (vs : list Val) : list Z * shadow :=
  match vs with
  | [] => ([], s)
  | v :: vs => let '(a, s) := taint_of s v in let '(l, s) := taints_of s vs in (a :: l, s)
  end.

(** Setting the taint of a value to the answer of the tracker. *)
Definition assign (s : shadow) (d : Z) (name : string) (args : list Z) : shadow :=
  let '(v, s) := call_taint s name args in with_slot s d v.
Definition tell (s : shadow) (name : string) (args : list Z) : shadow := snd (call_taint s name args).

Definition taint_two (s : shadow) (l r : Val) : Z * Z * shadow :=
  let '(a, s) := taint_of s l in if same_val l r then (a, a, s) else let '(b, s) := taint_of s r in (a, b, s).

Fixpoint pass_args (s : shadow) (i : Z) (args : list Val) : shadow :=
  match args with
  | [] => s
  | v :: args => let '(a, s) := taint_of s v in pass_args (tell s "__taint_store_arg" [i; a]) (i + 1) args
  end.

Definition transfer (s : shadow) (name : string) (dest src len : Val) : shadow :=
  let '(td, s) := taint_of s dest in
  let '(ts, s) := taint_of s src in
  let '(tl, s) := taint_of s len in
  tell s name [td; value (program s) dest; ts; value (program s) src; tl; value (program s) len].

(** Taints before an instruction runs. *)
Definition shadow_before (case_array : Z -> Z) (s : shadow) (i : TInst) : shadow :=
  match i with
  | TLoad d bits addr => let '(a, s) := taint_of s addr in assign s d (bits_name "load" bits) [a; value (program s) addr]
  | TStore bits v addr =>
      let '(a, s) := taint_of s addr in
      let '(t, s) := taint_of s v in
      tell s (bits_name "store" bits) [a; value (program s) addr; t]
  | TCast d op class _ ty v =>
      let '(t, s) := taint_of s v in
      match class with
      | Conversion => assign s d (conversion_prefix op +:+ ty) [t]
      | SameSize => with_slot s d t
      | UnsupportedCast => s
      end
  | TBinary d op ty l r => let '(a, b, s) := taint_two s l r in assign s d (prefixed (op +:+ "_" +:+ ty)) [a; b]
  | TCmp d op pred ty l r =>
      let '(a, b, s) := taint_two s l r in assign s d (prefixed (op +:+ "_" +:+ GetPredicateName pred +:+ "_" +:+ ty)) [a; b]
  | TIntrinsic d name ret args =>
      let '(l, s) := taints_of s args in
      match ret with
      | None => tell s (prefixed (alnum_name name)) l
      | Some ty => assign s d (prefixed (alnum_name name) +:+ "_" +:+ ty) l
      end
  | TMemSet _ dest v len =>
      let '(td, s) := taint_of s dest in
      let '(tl, s) := taint_of s len in
      let '(tv, s) := taint_of s v in
      tell s "__taint_memset" [td; value (program s) dest; tv; value (program s) v; tl; value (program s) len]
  | TMemCpy _ dest src len => transfer s "__taint_memcpy" dest src len
  | TMemMove _ dest src len => transfer s "__taint_memmove" dest src len
  | TCall d asm args => if asm then with_slot s d 0 else pass_args s 0 args
  | TRet _ (Some v) => let '(t, s) := taint_of s v in tell s "__taint_store_ret" [t]
  | TRet _ None => s
  | TSelect d vec c v1 v2 =>
      if vec then s
      else
        let '(tc, s) := taint_of s c in
        let '(t1, s) := taint_of s v1 in
        let '(t2, s) := taint_of s v2 in
        assign s d "__taint_select" [tc; value (program s) c; t1; t2]
  | TCondBr _ c => let '(t, s) := taint_of s c in tell s "__taint_branch" [t; value (program s) c]
  | TSwitchOn d c cases =>
      let '(t, s) := taint_of s c in
      tell s "__taint_switch" [t; value (program s) c; case_array d; case_array d + 8]
  | TExtractElement d | TInsertElement d => with_slot s d 0
  | TAlloca _ _ | TGep _ _ _ _ | TBrUncond _ | TIndirectBr _ _ | TPhi _ _ | TExpr _ _ _ => s
  end.

(** Taints after it ran. *)
Definition shadow_after (returns_void : bool) (s : shadow) (i : TInst) : shadow :=
  match i with
  | TAlloca d size => assign s d "__taint_local" [value (program s) (VLocal d); size]
  | TCall d false _ => if returns_void then s else assign s d "__taint_load_ret" []
  | _ => s
  end.

Definition shadow_step (returns_void : bool) (case_array : Z -> Z) (s : shadow) (i : TInst) : shadow :=
  let s := shadow_before case_array s i in
  shadow_after returns_void (with_program s (step i (program s))) i.

(** The taints that move on the edge of a block from its predecessor [from],
    one after the other. *)
Definition edge_moves (from : Z) (phis : list (Z * list (Z * Val))) : list (Z * Val) :=
  concat ((fun phi : Z * list (Z * Val) => (fun e : Z * Val => (fst phi, snd e)) <$> filter (fun e : Z * Val => fst e = from) (snd phi)) <$> phis).

Definition move (s : shadow) (m : Z * Val) : shadow := let '(t, s) := taint_of s (snd m) in with_slot s (fst m) t.

(** All of them at once. *)
Definition move_all (s : shadow) (ms : list (Z * Val)) : shadow :=
  let '(ts, s) := taints_of s (snd <$> ms) in
  fold_left (fun s m => with_slot s (fst m) (snd m)) (zip (fst <$> ms) ts) s.

(** No move reads the slot an earlier one wrote. *)
Fixpoint no_overlap (ms : list (Z * Val)) : Prop :=
  match ms with
  | [] => True
  | m :: ms => Forall (fun m' => taint_base false (snd m') <> VLocal (fst m)) ms /\ no_overlap ms
  end.

(** ** Inserted code and the interpreter *)

(** Temporaries from [n] on do not matter to an atom. *)
Definition older (n : Z) (a : Atom) : Prop := match a with ATemp t => t < n | _ => True end.

(** The code of the builder reaches [s] from [st0], and the atoms in [K] have
    the values given with them. *)
Definition reaches (st0 : state) (b : builder) (s : shadow) (K : list (Atom * Z)) : Prop :=
  fst (run st0 (snd b)) = s /\
  Forall (fun e => older (fst b) (fst e) /\ atom_value (run st0 (snd b)) (fst e) = snd e) K.

Lemma run_snoc st code x : run st (code ++ [x]) = run1 (run st code) x.
Proof. unfold run. by rewrite fold_left_app. Qed.

Lemma eval_expr_call st name args :
  eval_expr st (ECall name args) = call name (atom_value st <$> args) (taints (fst st)).
Proof. done. Qed.

Lemma below_mono n n' a : older n a -> n <= n' -> older n' a.
Proof. destruct a; cbn; lia || done. Qed.

Lemma atom_fresh (s s' : shadow) temps n a v :
  older n a -> program s' = program s -> atom_value (s', <[n := v]> temps) a = atom_value (s, temps) a.
Proof. destruct a; cbn; intros Ha Hp; [rewrite lookup_insert_ne by lia| |rewrite Hp|]; done. Qed.

Lemma reaches_emit st0 b s K e v m :
  reaches st0 b s K -> eval_expr (run st0 (snd b)) e = (v, m) ->
  reaches st0 (snd (emit b e)) (with_taints s m) ((fst (emit b e), v) :: K).
Proof.
  intros [Hs HK] He. unfold reaches, emit. cbn [fst snd]. rewrite run_snoc. cbn [run1]. rewrite He.
  destruct (run st0 (snd b)) as [s1 temps]. cbn [fst snd] in *. subst s1. split; [done|]. constructor.
  - cbn. split; [lia|]. by rewrite lookup_insert_eq.
  - eapply Forall_impl; [exact HK|]. intros [a x] [Hb Hv]. cbn [fst snd] in *. split; [eapply below_mono; [done|lia]|].
    rewrite <- Hv. by apply atom_fresh.
Qed.

Lemma reaches_program st0 b s K : reaches st0 b s K -> fst (run st0 (snd b)) = s.
Proof. by intros [H _]. Qed.

(** What is known of an atom in [s]. *)
Definition knows (K : list (Atom * Z)) (s : shadow) (a : Atom) (v : Z) : Prop :=
  (a, v) ∈ K \/ match a with AZero => v = 0 | AInt n => v = n | AVal x => v = value (program s) x | ATemp _ => False end.

Lemma knows_value st0 b s K a v : reaches st0 b s K -> knows K s a v -> atom_value (run st0 (snd b)) a = v.
Proof.
  intros [Hs HK] [Ha|Ha]; [rewrite Forall_forall in HK; by destruct (HK _ Ha) as [_ ?]|].
  destruct a as [t| |x|n]; cbn in *; try done. by rewrite Hs.
Qed.

Lemma reaches_also st0 b s K K' a v : reaches st0 b s (K' ++ K) -> a = AZero -> v = 0 -> reaches st0 b s ((a, v) :: K).
Proof. intros [Hs HK] -> ->. split; [done|]. constructor; [done|]. by apply Forall_app in HK as [_ ?]. Qed.

Lemma reaches_forget st0 b s K e e' : reaches st0 b s (e :: e' :: K) -> reaches st0 b s (e :: K).
Proof. intros [Hs HK]. split; [done|]. apply Forall_cons in HK as [? HK]. apply Forall_cons in HK as [_ ?]. by constructor. Qed.

Lemma knows_values st0 b s K args vs :
  reaches st0 b s K -> Forall2 (knows K s) args vs -> atom_value (run st0 (snd b)) <$> args = vs.
Proof. intros Hr. induction 1 as [|a v args vs Ha _ IH]; [done|]. cbn. f_equal; [by eapply knows_value|done]. Qed.

Lemma reaches_call st0 b s K name args vs :
  reaches st0 b s K -> Forall2 (knows K s) args vs ->
  reaches st0 (snd (emit b (ECall name args))) (snd (call_taint s name vs))
    ((fst (emit b (ECall name args)), fst (call_taint s name vs)) :: K).
Proof.
  intros Hr Ha. unfold call_taint. destruct (call name vs (taints s)) as [v m] eqn:E.
  apply reaches_emit; [done|]. rewrite eval_expr_call, (knows_values _ _ _ _ _ _ Hr Ha), (reaches_program _ _ _ _ Hr). done.
Qed.

Lemma with_taints_same (s : shadow) : with_taints s (taints s) = s.
Proof. by destruct s. Qed.

Lemma reaches_pure st0 b s K e v :
  reaches st0 b s K -> eval_expr (run st0 (snd b)) e = (v, taints s) ->
  reaches st0 (snd (emit b e)) s ((fst (emit b e), v) :: K).
Proof. intros Hr He. rewrite <- (with_taints_same s) at 1. by apply reaches_emit. Qed.

Lemma reaches_value st0 b s K v e :
  e = EPtrToInt v \/ e = EZExt v -> reaches st0 b s K ->
  reaches st0 (snd (emit b e)) s ((fst (emit b e), value (program s) v) :: K).
Proof.
  intros He Hr. apply reaches_pure; [done|]. destruct He as [-> | ->]; cbn [eval_expr]; by rewrite (reaches_program _ _ _ _ Hr).
Qed.

Lemma reaches_set st0 b s K d a v :
  reaches st0 b s K -> knows K s a v -> reaches st0 (set_taint b d a) (with_slot s d v) K.
Proof.
  intros Hr Ha. pose proof (knows_value _ _ _ _ _ _ Hr Ha) as Hv. destruct Hr as [Hs HK]. unfold reaches, set_taint. cbn [fst snd].
  rewrite run_snoc. cbn [run1 fst snd]. rewrite Hv, Hs. split; [done|]. eapply Forall_impl; [exact HK|].
  intros [x y] [Hb Hx]. cbn [fst snd] in *. split; [done|]. rewrite <- Hx. destruct x; cbn; by rewrite ?Hs.
Qed.

Lemma program_taint_of s v : program (snd (taint_of s v)) = program s.
Proof. unfold taint_of, call_taint. destruct (taint_base false v); try done. by destruct (call _ _ _). Qed.

Lemma reaches_leaf st0 b s K v a b' t s' :
  reaches st0 b s K -> LoadTaint b v = (a, b') -> taint_of s v = (t, s') ->
  reaches st0 b' s' ((a, t) :: K) /\ program s' = program s.
Proof.
  intros Hr Hl Ht. pose proof (program_taint_of s v) as Hp. rewrite Ht in Hp. cbn [snd] in Hp. split; [|done]. clear Hp.
  unfold LoadTaint, taint_of in *. destruct (taint_base false v) eqn:E; cbn [load_leaf] in Hl;
    try (injection Hl as <- <-; injection Ht as <- <-; by apply (reaches_also _ _ _ _ [])).
  1-4: injection Ht as <- <-;
    match type of Hl with emit _ ?e = _ =>
      match goal with |- context [(_, ?x)] => pose proof (reaches_pure st0 b s K e x Hr) as H end end;
    rewrite Hl in H; apply H; cbn [eval_expr]; by rewrite (reaches_program _ _ _ _ Hr).
  destruct (emit b (EPtrToInt (VGlobal g size))) as [addr b1] eqn:Ee.
  pose proof (reaches_value st0 b s K (VGlobal g size) _ (or_introl eq_refl) Hr) as H1. rewrite Ee in H1. cbn [fst snd] in H1.
  pose proof (reaches_call st0 b1 s _ "__taint_global" [addr; AInt size] [value (program s) (VGlobal g size); size] H1) as H2.
  rewrite Hl, Ht in H2. cbn [fst snd] in H2. eapply reaches_forget, H2.
  constructor; [left; left|]. by repeat constructor; right.
Qed.

(** Follow one emission of a visitor and the same step of the interpreter. *)
Lemma reaches_call' st0 b s K name args vs a b' v s' :
  reaches st0 b s K -> emit b (ECall name args) = (a, b') -> call_taint s name vs = (v, s') ->
  Forall2 (knows K s) args vs -> reaches st0 b' s' ((a, v) :: K) /\ program s' = program s.
Proof.
  intros Hr He Hc Ha. pose proof (reaches_call st0 b s K name args vs Hr Ha) as H. rewrite He, Hc in H. split; [done|].
  unfold call_taint in Hc. destruct (call name vs (taints s)). by injection Hc as _ <-.
Qed.

Lemma reaches_value' st0 b s K v e a b' :
  reaches st0 b s K -> e = EPtrToInt v \/ e = EZExt v -> emit b e = (a, b') ->
  reaches st0 b' s ((a, value (program s) v) :: K).
Proof. intros Hr He E. pose proof (reaches_value st0 b s K v e He Hr) as H. by rewrite E in H. Qed.

(** Every argument is among the known atoms, or speaks for itself. *)
Ltac known :=
  repeat match goal with
  | |- Forall2 _ [] [] => constructor
  | |- Forall2 _ (_ :: _) (_ :: _) => constructor
  end;
  first [left; by repeat first [left | right] | right; congruence].

(** One emission of a visitor next to the same step of the interpreter. *)
Ltac follow :=
  match goal with
  | Hr : reaches ?st0 ?b ?s ?K |- context [LoadTaint ?b ?v] =>
      let a := fresh "a" in let b' := fresh "b" in let El := fresh "El" in
      let t := fresh "t" in let s' := fresh "s" in let Et := fresh "Et" in let Hp := fresh "Hp" in
      destruct (LoadTaint b v) as [a b'] eqn:El; destruct (taint_of s v) as [t s'] eqn:Et;
      destruct (reaches_leaf _ _ _ _ _ _ _ _ _ Hr El Et) as [? Hp]; clear Hr; try rewrite Hp in *
  | Hr : reaches ?st0 ?b ?s ?K |- context [emit ?b ?e] =>
      let a := fresh "a" in let b' := fresh "b" in let Ee := fresh "Ee" in
      lazymatch e with
      | ECall _ _ => fail
      | _ =>
          destruct (emit b e) as [a b'] eqn:Ee;
          pose proof (reaches_value' _ _ _ _ _ e _ _ Hr ltac:(first [by left | by right]) Ee); clear Hr;
          try match goal with Hp : program s = _, Hn : reaches _ _ _ _ |- _ => rewrite Hp in Hn end
      end
  | Hr : reaches ?st0 ?b ?s ?K |- context [emit ?b (ECall ?name ?args)] =>
      let a := fresh "a" in let b' := fresh "b" in let Ee := fresh "Ee" in
      let t := fresh "t" in let s' := fresh "s" in let Et := fresh "Et" in let Hp := fresh "Hp" in
      destruct (emit b (ECall name args)) as [a b'] eqn:Ee;
      match goal with |- context [call_taint s name ?vs] =>
        destruct (call_taint s name vs) as [t s'] eqn:Et;
        destruct (reaches_call' _ _ _ _ _ _ _ _ _ _ _ Hr Ee Et) as [? Hp];
        [known|clear Hr; try rewrite Hp in *]
      end
  end; cbn [fst snd] in *.

Lemma visit_two_ok st0 b s K d name l r :
  reaches st0 b s K ->
  exists K', reaches st0 (visit_two b d name l r) (let '(x, y, s) := taint_two s l r in assign s d name [x; y]) K'.
Proof.
  intros Hr. unfold visit_two, load_two, taint_two, assign. follow. destruct (same_val l r).
  - follow. eexists. apply reaches_set; [eassumption|known].
  - follow. follow. eexists. apply reaches_set; [eassumption|known].
Qed.

Lemma knows_more K K' s a v : knows K s a v -> knows (K' ++ K) s a v.
Proof. intros [H|H]; [left; apply elem_of_app; by right|by right]. Qed.

Lemma load_operand_taints_ok st0 vs : forall b s K l b' ts s',
  reaches st0 b s K -> load_operand_taints b vs = (l, b') -> taints_of s vs = (ts, s') ->
  exists K', reaches st0 b' s' (K' ++ K) /\ Forall2 (knows (K' ++ K) s') l ts /\ program s' = program s.
Proof.
  induction vs as [|v vs IH]; intros b s K l b' ts s' Hr Hl Ht; cbn in Hl, Ht.
  - injection Hl as <- <-. injection Ht as <- <-. by exists [].
  - destruct (LoadTaint b v) as [a b1] eqn:El. destruct (taint_of s v) as [t s1] eqn:Et.
    destruct (reaches_leaf _ _ _ _ _ _ _ _ _ Hr El Et) as [Hr1 Hp].
    destruct (load_operand_taints b1 vs) as [l2 b2] eqn:El2. destruct (taints_of s1 vs) as [ts2 s2] eqn:Et2.
    injection Hl as <- <-. injection Ht as <- <-. destruct (IH _ _ _ _ _ _ _ Hr1 El2 Et2) as (K' & Hr2 & Hk & Hp2).
    exists (K' ++ [(a, t)]). rewrite <- app_assoc. split; [done|]. split; [|by rewrite Hp2].
    constructor; [|done]. apply knows_more. left. left.
Qed.

Lemma store_args_ok st0 args : forall b s K i,
  reaches st0 b s K -> exists K', reaches st0 (store_args b i args) (pass_args s i args) K'.
Proof.
  induction args as [|v args IH]; intros b s K i Hr; cbn [store_args pass_args]; [by eexists|].
  unfold tell. follow. follow. by eapply IH.
Qed.

Lemma visit_transfer_ok st0 b s K name dest src len :
  reaches st0 b s K -> exists K', reaches st0 (visit_transfer name b dest src len) (transfer s name dest src len) K'.
Proof.
  intros Hr. unfold visit_transfer, transfer, tell. follow. follow. follow. follow. follow. follow. follow. by eexists.
Qed.

(** The code in front of an instruction brings the taints where the
    interpreter brings them. *)
Lemma visit_before_ok returns_void case_array st0 b s K i :
  reaches st0 b s K -> exists K', reaches st0 (visit_before returns_void case_array b i) (shadow_before case_array s i) K'.
Proof.
  intros Hr. destruct i; cbn [visit_before shadow_before]; try (by eexists).
  - unfold visitLoadInst, assign. repeat follow. eexists. apply reaches_set; [eassumption|known].
  - unfold visitStoreInst, tell. repeat follow. by eexists.
  - unfold visitCastInst, assign. follow. destruct class; [follow| |by eexists]; eexists; (apply reaches_set; [eassumption|known]).
  - by eapply visit_two_ok.
  - by eapply visit_two_ok.
  - unfold visitIntrinsicInst, assign, tell. destruct (load_operand_taints b args) as [l b1] eqn:El.
    destruct (taints_of s args) as [ts s1] eqn:Et.
    destruct (load_operand_taints_ok _ _ _ _ _ _ _ _ _ Hr El Et) as (K' & Hr1 & Hk & _). destruct ret_type as [ty|].
    + destruct (emit b1 _) as [a b2] eqn:Ee. destruct (call_taint s1 _ ts) as [t s2] eqn:Ec.
      destruct (reaches_call' _ _ _ _ _ _ _ _ _ _ _ Hr1 Ee Ec Hk) as [Hr2 _]. eexists. apply reaches_set; [eassumption|known].
    + eexists. by apply reaches_call.
  - unfold visitMemSetInst, tell. repeat follow. by eexists.
  - by eapply visit_transfer_ok.
  - by eapply visit_transfer_ok.
  - unfold visitCallInst. destruct inline_asm; cbn [fst]; [eexists; apply reaches_set; [eassumption|known]|by eapply store_args_ok].
  - destruct v as [v|]; [|by eexists]. unfold visitReturnInst, tell. repeat follow. by eexists.
  - unfold visitSelectInst, assign. destruct vector_cond; [by eexists|]. repeat follow. eexists. apply reaches_set; [eassumption|known].
  - unfold visitBranchInst, tell. repeat follow. by eexists.
  - unfold visitSwitchInst, tell. cbn zeta. repeat follow. by eexists.
  - eexists. apply reaches_set; [eassumption|known].
  - eexists. apply reaches_set; [eassumption|known].
Qed.

Lemma run_app st c1 c2 : run st (c1 ++ c2) = run (run st c1) c2.
Proof. apply fold_left_app. Qed.

Lemma visit_after_ok returns_void st0 t s i :
  reaches st0 (t, []) s [] -> exists K, reaches st0 (visit_after returns_void t i) (shadow_after returns_void s i) K.
Proof.
  intros Hr. destruct i; cbn [visit_after shadow_after]; try (by eexists).
  - unfold visitAllocaInst, assign. repeat follow. eexists. apply reaches_set; [eassumption|known].
  - unfold visitCallInst. destruct inline_asm; cbn [snd]; [by eexists|]. destruct returns_void; [by eexists|].
    unfold assign. follow. eexists. apply reaches_set; [eassumption|known].
Qed.

Lemma reaches_start st0 t : reaches st0 (t, []) (fst st0) [].
Proof. by split. Qed.

Lemma visit_ok returns_void case_array st t i :
  fst (run st (snd (visit returns_void case_array t i))) = shadow_step returns_void case_array (fst st) i.
Proof.
  unfold visit, shadow_step. cbn [snd]. rewrite run_app. cbn [run fold_left]. fold run.
  destruct (visit_before_ok returns_void case_array _ _ _ _ i (reaches_start st t)) as (K & Hb & _). cbn [snd] in *.
  set (b := visit_before returns_void case_array (t, []) i) in *.
  set (st1 := run1 (run st (snd b)) (XProg i)).
  destruct (visit_after_ok returns_void _ _ _ i (reaches_start st1 (fst b))) as (K' & Ha & _).
  unfold run in Ha at 1. rewrite Ha. unfold st1. cbn [run1 fst]. by rewrite Hb.
Qed.

Lemma program_assign s d name args : program (assign s d name args) = program s.
Proof. unfold assign, call_taint. by destruct (call name args (taints s)). Qed.

Lemma program_tell s name args : program (tell s name args) = program s.
Proof. unfold tell, call_taint. by destruct (call name args (taints s)). Qed.

Lemma program_pass_args args : forall s i, program (pass_args s i args) = program s.
Proof.
  induction args as [|v args IH]; intros s i; cbn [pass_args]; [done|].
  pose proof (program_taint_of s v) as H. destruct (taint_of s v) as [t s1]. cbn [snd] in H. by rewrite IH, program_tell.
Qed.

Lemma program_taints_of vs : forall s, program (snd (taints_of s vs)) = program s.
Proof.
  induction vs as [|v vs IH]; intros s; cbn [taints_of]; [done|]. pose proof (program_taint_of s v) as H.
  destruct (taint_of s v) as [t s1]. cbn [snd] in H. pose proof (IH s1) as H1. destruct (taints_of s1 vs). cbn [snd] in *. by rewrite H1.
Qed.

Ltac same_program :=
  repeat match goal with
  | |- context [taint_of ?s ?v] =>
      let H := fresh in pose proof (program_taint_of s v) as H; destruct (taint_of s v); cbn [snd] in H
  end.

Lemma program_shadow_before case_array s i : program (shadow_before case_array s i) = program s.
Proof.
  destruct i; cbn [shadow_before]; unfold taint_two, transfer; try done;
    try (same_program; by rewrite ?program_assign, ?program_tell; congruence).
  - same_program. destruct class; by rewrite ?program_assign.
  - same_program. destruct (same_val lhs rhs); [by rewrite program_assign|]. same_program. rewrite program_assign. congruence.
  - same_program. destruct (same_val lhs rhs); [by rewrite program_assign|]. same_program. rewrite program_assign. congruence.
  - pose proof (program_taints_of args s) as H. destruct (taints_of s args) as [ts s1].
    cbn [snd] in H. destruct ret_type; by rewrite ?program_assign, ?program_tell.
  - destruct inline_asm; [done|apply program_pass_args].
  - destruct v; [|done]. same_program. by rewrite program_tell.
  - destruct vector_cond; [done|]. same_program. rewrite program_assign. congruence.
Qed.

Lemma program_shadow_step returns_void case_array s i :
  program (shadow_step returns_void case_array s i) = step i (program s).
Proof.
  unfold shadow_step. destruct i; cbn [shadow_after]; try destruct inline_asm; try destruct returns_void;
    rewrite ?program_assign; cbn [with_program program]; by rewrite program_shadow_before.
Qed.
End exec.
