(* ===== verification/TaintTheorems.v ===== *)
(** * Correctness of the taint instrumentation

    Instrumented blocks follow the shadow interpreter, the taints that move
    on an edge, and unfolding constant expressions. *)

From S2P Require Import Prelude TaintSymbols TaintTracker TaintProps.

Section block.
Context {world tracker : Type} (step : TInst -> world -> world) (value : world -> Val -> Z)
  (global : string -> Z) (call : string -> list Z -> tracker -> Z * tracker).
#[local] Abbreviation shadow := (Shadow world tracker).
#[local] Abbreviation run := (run step value global call).
#[local] Abbreviation taint_of := (taint_of value global call).
#[local] Abbreviation taints_of := (taints_of value global call).
#[local] Abbreviation move := (move value global call).
#[local] Abbreviation move_all := (move_all value global call).
#[local] Abbreviation shadow_step := (shadow_step step value global call).

(** Running the instrumented instructions of a block follows the interpreter,
    whatever temporaries the code of each instruction starts with. *)
Lemma visit_all_ok returns_void case_array l : forall t st,
  fst (run st (snd (visit_all returns_void case_array t l))) = fold_left (shadow_step returns_void case_array) l (fst st).
Proof.
  induction l as [|i l IH]; intros t st; [done|]. cbn [visit_all].
  pose proof (visit_ok step value global call returns_void case_array st t i) as Hv.
  destruct (visit returns_void case_array t i) as [t1 code]. cbn [snd] in Hv.
  destruct (visit_all returns_void case_array t1 l) as [t2 rest] eqn:E. cbn [snd]. rewrite run_app.
  specialize (IH t1 (run st code)). rewrite E in IH. cbn [snd] in IH. cbn [fold_left]. by rewrite IH, Hv.
Qed.

(** ** Edges *)

Lemma visitPHINode_ok from phi : forall st0 b s K,
  reaches step value global call st0 b s K ->
  exists K', reaches step value global call st0 (visitPHINode from b phi) (fold_left move (edge_moves from [phi]) s) K'.
Proof.
  destruct phi as [x inc]. unfold visitPHINode, edge_moves. cbn [fmap list_fmap concat fst snd]. rewrite app_nil_r.
  induction inc as [|[blk v] inc IH]; intros st0 b s K Hr; [by eexists|]. cbn [fold_left fst snd]. rewrite filter_cons. cbn [fst].
  destruct (Z.eqb_spec blk from) as [->|Hne].
  - rewrite decide_True by done. cbn [fmap list_fmap fold_left fst snd]. unfold TaintProps.move at 2. cbn [fst snd].
    destruct (LoadTaint b v) as [a b1] eqn:El. destruct (taint_of s v) as [t s1] eqn:Et.
    destruct (reaches_leaf _ _ _ _ _ _ _ _ _ _ _ _ _ Hr El Et) as [Hr1 _]. eapply IH, reaches_set; [exact Hr1|left; left].
  - rewrite decide_False by done. by eapply IH.
Qed.

Lemma edge_moves_cons from phi phis : edge_moves from (phi :: phis) = edge_moves from [phi] ++ edge_moves from phis.
Proof. unfold edge_moves. cbn. by rewrite app_nil_r. Qed.

Lemma visit_phis_ok from phis : forall st0 b s K,
  reaches step value global call st0 b s K ->
  exists K', reaches step value global call st0 (fold_left (visitPHINode from) phis b) (fold_left move (edge_moves from phis) s) K'.
Proof.
  induction phis as [|phi phis IH]; intros st0 b s K Hr; [by eexists|]. rewrite edge_moves_cons, fold_left_app. cbn [fold_left].
  destruct (visitPHINode_ok from phi _ _ _ _ Hr) as [K' Hr']. by eapply IH.
Qed.

Lemma taint_of_with_slot (s : shadow) x t v :
  taint_base false v <> VLocal x ->
  taint_of (with_slot s x t) v = (fst (taint_of s v), with_slot (snd (taint_of s v)) x t).
Proof.
  intros Hne. unfold TaintProps.taint_of, call_taint. destruct (taint_base false v); try done.
  - unfold slot, with_slot. cbn [slots fst snd]. rewrite lookup_insert_ne by congruence. done.
  - cbn [program with_slot taints]. by destruct (call _ _ _).
Qed.

Lemma taints_of_with_slot x t vs : forall s : shadow,
  Forall (fun v => taint_base false v <> VLocal x) vs ->
  taints_of (with_slot s x t) vs = (fst (taints_of s vs), with_slot (snd (taints_of s vs)) x t).
Proof.
  induction vs as [|v vs IH]; intros s Hf; [done|]. apply Forall_cons in Hf as [Hv Hf]. cbn [TaintProps.taints_of].
  rewrite taint_of_with_slot by done. destruct (taint_of s v) as [a s1]. cbn [fst snd]. rewrite IH by done.
  by destruct (taints_of s1 vs).
Qed.

Lemma moves_at_once ms : forall s, no_overlap ms -> fold_left move ms s = move_all s ms.
Proof.
  induction ms as [|[x v] ms IH]; intros s Hn; [done|]. cbn [no_overlap] in Hn. destruct Hn as [Hf Hn]. cbn [fst] in Hf.
  cbn [fold_left]. rewrite IH by done. unfold TaintProps.move, TaintProps.move_all. cbn [fmap list_fmap fst snd].
  cbn [TaintProps.taints_of]. destruct (taint_of s v) as [t s1]. rewrite taints_of_with_slot by (by apply Forall_fmap).
  by destruct (taints_of s1 (snd <$> ms)).
Qed.

(** ** Blocks *)

(** The interpreter on a block: its instructions, the moves on the edges that
    leave it and the terminator, in the order the tool leaves them. *)
Definition shadow_block (returns_void : bool) (case_array : Z -> Z) (earlier later : list (Z * list (Z * Val))) (id : Z)
    (l : list TInst) (s : shadow) : shadow :=
  match last l with
  | None => s
  | Some term =>
      let s := fold_left (shadow_step returns_void case_array) (removelast l) s in
      let s := fold_left move (edge_moves id earlier) s in
      let s := shadow_before value global call case_array s term in
      let s := fold_left move (edge_moves id later) s in
      with_program s (step term (program s))
  end.

Lemma program_move ms : forall s : shadow, program (fold_left move ms s) = program s.
Proof.
  induction ms as [|m ms IH]; intros s; [done|]. cbn [fold_left]. rewrite IH. unfold TaintProps.move.
  pose proof (program_taint_of value global call s (snd m)) as H. by destruct (taint_of s (snd m)).
Qed.

Lemma visit_phis_run from t phis st :
  fst (run st (snd (visit_phis from t phis))) = fold_left move (edge_moves from phis) (fst st).
Proof.
  by destruct (visit_phis_ok from phis _ _ _ _ (reaches_start step value global call st t)) as [K [H _]].
Qed.

Lemma visit_before_run returns_void case_array t i st :
  fst (run st (snd (visit_before returns_void case_array (t, []) i))) = shadow_before value global call case_array (fst st) i.
Proof.
  by destruct (visit_before_ok step value global call returns_void case_array _ _ _ _ i (reaches_start step value global call st t))
    as [K [H _]].
Qed.

Lemma fold_step_program returns_void case_array l : forall s : shadow,
  program (fold_left (shadow_step returns_void case_array) l s) = fold_left (fun w i => step i w) l (program s).
Proof. induction l as [|i l IH]; intros s; [done|]. cbn [fold_left]. by rewrite IH, program_shadow_step. Qed.

Lemma body_and_terminator {A} (l : list A) x : last l = Some x -> l = removelast l ++ [x].
Proof. intros H. destruct l as [|y l] using rev_ind; [done|]. rewrite last_snoc in H. injection H as <-. by rewrite removelast_last. Qed.

(** C16: a block instrumented for taints does to the program what its
    instructions alone do, whatever the functions of the tracker answer, and
    brings the taint slots and the state of the tracker where the shadow
    interpreter brings them. *)
Theorem instrumented_block_follows_shadow returns_void case_array earlier later t id l st :
  let st' := run st (snd (VisitBlock returns_void case_array earlier later t id l)) in
  fst st' = shadow_block returns_void case_array earlier later id l (fst st) /\
  program (fst st') = fold_left (fun w i => step i w) l (program (fst st)).
Proof.
  cbn zeta. unfold VisitBlock, shadow_block. destruct (last l) as [term|] eqn:El; [|by apply last_None in El as ->].
  pose proof (visit_all_ok returns_void case_array (removelast l) t st) as H1.
  destruct (visit_all returns_void case_array t (removelast l)) as [t1 body]. cbn [snd] in H1.
  pose proof (visit_phis_run id t1 earlier (run st body)) as H2.
  destruct (visit_phis id t1 earlier) as [t2 moves]. cbn [snd] in H2.
  pose proof (visit_before_run returns_void case_array t2 term (run (run st body) moves)) as H3.
  destruct (visit_before returns_void case_array (t2, []) term) as [t3 code]. cbn [snd] in H3.
  pose proof (visit_phis_run id t3 later (run (run (run st body) moves) code)) as H4.
  destruct (visit_phis id t3 later) as [t4 late]. cbn [snd] in *.
  assert (Hrun : forall st, fst (run st [XProg term]) = with_program (fst st) (step term (program (fst st)))) by done.
  rewrite !run_app, Hrun.
  rewrite !H4, H3, H2, H1. split; [done|]. cbn [with_program program].
  rewrite program_move, program_shadow_before, program_move, fold_step_program.
  rewrite (body_and_terminator l term El) at 2. by rewrite fold_left_app.
Qed.

(** The taints block: each argument gets the taint its caller stored. *)
Fixpoint shadow_args (s : shadow) (i : Z) (args : list Z) : shadow :=
  match args with
  | [] => s
  | arg :: args => shadow_args (assign call (with_slot s arg 0) arg "__taint_load_arg" [i]) (i + 1) args
  end.

Lemma load_arg_taints_ok args : forall st0 b s K i,
  reaches step value global call st0 b s K ->
  exists K', reaches step value global call st0 (load_arg_taints b i args) (shadow_args s i args) K'.
Proof.
  induction args as [|arg args IH]; intros st0 b s K i Hr; [by eexists|]. cbn [load_arg_taints shadow_args]. unfold assign.
  assert (H0 : reaches step value global call st0 (set_taint b arg AZero) (with_slot s arg 0) K)
    by (apply (reaches_set step value global call); [done|by right]).
  destruct (emit (set_taint b arg AZero) _) as [a b1] eqn:Ee.
  destruct (call_taint call (with_slot s arg 0) "__taint_load_arg" [i]) as [v s1] eqn:Ec.
  destruct (reaches_call' step value global call _ _ _ _ _ _ _ _ _ _ _ H0 Ee Ec) as [H1 _]; [by repeat constructor; right|].
  eapply IH, reaches_set; [exact H1|left; left].
Qed.

(** The new entry block gives each argument the taint its caller stored for
    it, in the order of the arguments. *)
Theorem taints_block_loads_args args st :
  fst (run st (snd (load_arg_taints (0, []) 0 args))) = shadow_args (fst st) 0 args.
Proof. by destruct (load_arg_taints_ok args _ _ _ _ 0 (reaches_start step value global call st 0)) as [K [H _]]. Qed.

(** The code that visiting the phi nodes of a block leaves at the end of a
    predecessor moves the taints of the incoming values to the phi nodes, all
    at once as the phi nodes themselves do, as long as no phi node takes the
    value of an earlier phi node of the block on that edge. *)
Theorem phi_taints_move_at_once from t phis st :
  no_overlap (edge_moves from phis) ->
  fst (run st (snd (visit_phis from t phis))) = move_all (fst st) (edge_moves from phis).
Proof.
  intros Hn. rewrite visit_phis_run. by apply moves_at_once.
Qed.

(** Two phi nodes that exchange their values both end with the taint of the
    second. *)
Theorem exchanged_taints_are_lost from t x y st :
  x <> y ->
  let s' := fst (run st (snd (visit_phis from t [(x, [(from, VLocal y)]); (y, [(from, VLocal x)])]))) in
  slot s' x = slot (fst st) y /\ slot s' y = slot (fst st) y.
Proof.
  intros Hne. cbn zeta. rewrite visit_phis_run. unfold edge_moves. cbn [fmap list_fmap fst snd]. rewrite !filter_cons, !decide_True by done. cbn.
  unfold slot, with_slot. cbn [slots]. by rewrite lookup_insert_ne, !lookup_insert_eq by congruence.
Qed.
End block.

(** ** Unfolding constant expressions *)

Lemma Val_nested_ind (P : Val -> Prop) :
  (forall v, (forall op args, v <> VExpr op args) -> P v) ->
  (forall op args, Forall P args -> P (VExpr op args)) ->
  forall v, P v.
Proof.
  intros Hleaf Hexpr. fix IH 1. intros v. destruct v; try (by apply Hleaf).
  apply Hexpr. induction args as [|v args IHargs]; constructor; [apply IH|apply IHargs].
Qed.

Section unfold.
(** What constants are, and what operations and address computations give. *)
Context (leaf : Val -> Z) (apply : ConstOp -> list Z -> Z) (gep : string -> list Z -> Z).

Definition apply_op (op : ConstOp) (args : list Z) : Z :=
  match op with CGep _ ty => gep ty args | _ => apply op args end.

(** The value of an operand, and of an inserted instruction. *)
Fixpoint val_value (env : gmap Z Z) (v : Val) : Z :=
  match v with
  | VLocal x => default 0 (env !! x)
  | VExpr op args => apply_op op (val_value env <$> args)
  | v => leaf v
  end.

Definition run_inserted (env : gmap Z Z) (i : TInst) : gmap Z Z :=
  match i with
  | TCast d op class bits ty v => <[d := apply (CCast op class bits ty) [val_value env v]]> env
  | TBinary d op ty l r => <[d := apply (CBinary op ty) [val_value env l; val_value env r]]> env
  | TGep d ty p indices => <[d := gep ty (val_value env <$> p :: indices)]> env
  | TExpr d op args => <[d := apply_op op (val_value env <$> args)]> env
  | _ => env
  end.

Definition is_expr (v : Val) : bool := match v with VExpr _ _ => true | _ => false end.
Definition plain (i : TInst) : Prop := Forall (fun v => is_expr v = false) (operands i).

(** Only names below [n] occur. *)
Fixpoint names_below (n : Z) (v : Val) : Prop :=
  match v with
  | VLocal x => x < n
  | VExpr _ args => (fix go (l : list Val) : Prop := match l with [] => True | v :: l => names_below n v /\ go l end) args
  | _ => True
  end.

Lemma names_below_expr n op args : names_below n (VExpr op args) <-> Forall (names_below n) args.
Proof.
  cbn. induction args as [|v args IH]; [by split|]. rewrite Forall_cons. by rewrite <- IH.
Qed.

Lemma UnfoldOperand_expr fresh op args :
  UnfoldOperand fresh (VExpr op args) =
  let '(next, insts, args', ret) := UnfoldOperands (fresh + 1) args in
  (next, insts ++ [getAsInstruction fresh op args'], VLocal fresh, ret + 1).
Proof.
  cbn [UnfoldOperand].
  assert (H : forall l f, (fix go (fresh : Z) (l : list Val) : Z * list TInst * list Val * Z :=
           match l with
           | [] => (fresh, [], [], 0)
           | v :: l =>
               let '(fresh, insts, v', n) := UnfoldOperand fresh v in
               let '(fresh, insts', l', n') := go fresh l in
               (fresh, insts ++ insts', v' :: l', n + n')
           end) f l = UnfoldOperands f l).
  { induction l as [|v l IH]; intros f; [done|]. cbn [UnfoldOperands]. destruct (UnfoldOperand f v) as [[[??]?]?].
    by rewrite IH. }
  by rewrite H.
Qed.

Lemma run_as_instruction env d op args :
  run_inserted env (getAsInstruction d op args) = <[d := apply_op op (val_value env <$> args)]> env.
Proof. destruct op as [op class bits ty|op ty|z ty|]; destruct args as [|v [|w [|u args]]]; done. Qed.

Lemma operands_as_instruction d op args : operands (getAsInstruction d op args) = args.
Proof. destruct op as [op class bits ty|op ty|z ty|]; destruct args as [|v [|w [|u args]]]; done. Qed.

Lemma val_value_ext env env' n v :
  names_below n v -> (forall x, x < n -> env' !! x = env !! x) -> val_value env' v = val_value env v.
Proof.
  intros Hn He. induction v as [v Hv|op args IH] using Val_nested_ind.
  - destruct v; try done; [cbn in *; by rewrite He|by destruct (Hv op args)].
  - apply names_below_expr in Hn. cbn [val_value]. f_equal. induction args as [|v args IHa]; [done|].
    apply Forall_cons in IH as [Hv IH]. apply Forall_cons in Hn as [Hn1 Hn]. cbn. f_equal; [by apply Hv|by apply IHa].
Qed.

Lemma names_below_mono n n' v : n <= n' -> names_below n v -> names_below n' v.
Proof.
  intros Hle. induction v as [v Hv|op args IH] using Val_nested_ind.
  - destruct v; try done; [cbn; lia|by destruct (Hv op args)].
  - rewrite !names_below_expr. intros Hn. induction args as [|v args IHa]; [done|].
    apply Forall_cons in IH as [Hv IH]. apply Forall_cons in Hn as [Hn1 Hn]. constructor; [by apply Hv|by apply IHa].
Qed.

(** What unfolding operands achieves. *)
Record unfolded (fresh next n : Z) (insts : list TInst) (vs vs' : list Val) : Prop := {
  unfolded_fresh : fresh <= next;
  unfolded_count : n = Z.of_nat (length insts);
  unfolded_below : Forall (names_below next) vs';
  unfolded_plain : Forall (fun v => is_expr v = false) vs';
  unfolded_insts : Forall plain insts;
  unfolded_frame : forall env x, x < fresh -> fold_left run_inserted insts env !! x = env !! x;
  unfolded_value : forall env, val_value (fold_left run_inserted insts env) <$> vs' = val_value env <$> vs
}.

Lemma unfolded_cons fresh mid next n n' i1 i2 v v' vs vs' :
  Forall (names_below fresh) vs -> unfolded fresh mid n i1 [v] [v'] -> unfolded mid next n' i2 vs vs' ->
  unfolded fresh next (n + n') (i1 ++ i2) (v :: vs) (v' :: vs').
Proof.
  intros Hb H1 H2. pose proof (unfolded_fresh _ _ _ _ _ _ H1). pose proof (unfolded_fresh _ _ _ _ _ _ H2).
  pose proof (unfolded_below _ _ _ _ _ _ H1) as Hb'. apply Forall_cons in Hb' as [Hb' _].
  pose proof (unfolded_plain _ _ _ _ _ _ H1) as Hp. apply Forall_cons in Hp as [Hp _]. split.
  - lia.
  - rewrite length_app, (unfolded_count _ _ _ _ _ _ H1), (unfolded_count _ _ _ _ _ _ H2). lia.
  - constructor; [apply (names_below_mono mid); [lia|done]|by apply (unfolded_below _ _ _ _ _ _ H2)].
  - constructor; [done|by apply (unfolded_plain _ _ _ _ _ _ H2)].
  - apply Forall_app. split; [by apply (unfolded_insts _ _ _ _ _ _ H1)|by apply (unfolded_insts _ _ _ _ _ _ H2)].
  - intros env x Hx. rewrite fold_left_app, (unfolded_frame _ _ _ _ _ _ H2) by lia. by apply (unfolded_frame _ _ _ _ _ _ H1).
  - intros env. rewrite fold_left_app, !fmap_cons. f_equal.
    + rewrite (val_value_ext (fold_left run_inserted i1 env) _ mid v' Hb') by apply (unfolded_frame _ _ _ _ _ _ H2).
      pose proof (unfolded_value _ _ _ _ _ _ H1 env) as Hv. by injection Hv.
    + rewrite (unfolded_value _ _ _ _ _ _ H2). apply Forall_fmap_ext_1.
      eapply Forall_impl; [exact Hb|]. intros w Hw. eapply val_value_ext; [exact Hw|apply (unfolded_frame _ _ _ _ _ _ H1)].
Qed.

Lemma unfolded_none fresh v : names_below fresh v -> is_expr v = false -> unfolded fresh fresh 0 [] [v] [v].
Proof. intros Hb Hp. split; try done; try lia; by constructor. Qed.

Lemma unfolded_expr fresh next n insts op args args' :
  unfolded (fresh + 1) next n insts args args' ->
  unfolded fresh next (n + 1) (insts ++ [getAsInstruction fresh op args']) [VExpr op args] [VLocal fresh].
Proof.
  intros H. pose proof (unfolded_fresh _ _ _ _ _ _ H). split.
  - lia.
  - rewrite length_app, (unfolded_count _ _ _ _ _ _ H). cbn. lia.
  - constructor; [cbn; lia|done].
  - by constructor.
  - apply Forall_app. split; [by apply (unfolded_insts _ _ _ _ _ _ H)|]. constructor; [|done].
    unfold plain. rewrite operands_as_instruction. by apply (unfolded_plain _ _ _ _ _ _ H).
  - intros env x Hx. rewrite fold_left_app. cbn [fold_left]. rewrite run_as_instruction, lookup_insert_ne by lia.
    apply (unfolded_frame _ _ _ _ _ _ H). lia.
  - intros env. rewrite fold_left_app. cbn [fold_left fmap list_fmap val_value]. f_equal.
    rewrite run_as_instruction, lookup_insert_eq. cbn [from_option id]. f_equal. apply (unfolded_value _ _ _ _ _ _ H).
Qed.

Lemma UnfoldOperands_unfolded vs :
  Forall (fun v => forall fresh, names_below fresh v ->
    let '(next, insts, v', n) := UnfoldOperand fresh v in unfolded fresh next n insts [v] [v']) vs ->
  forall fresh, Forall (names_below fresh) vs ->
  let '(next, insts, vs', n) := UnfoldOperands fresh vs in unfolded fresh next n insts vs vs'.
Proof.
  induction vs as [|v vs IH]; intros Hvs fresh Hb; cbn [UnfoldOperands].
  - split; try done; lia.
  - apply Forall_cons in Hvs as [Hv Hvs]. apply Forall_cons in Hb as [Hbv Hb]. specialize (Hv fresh Hbv).
    destruct (UnfoldOperand fresh v) as [[[mid i1] v'] n1]. pose proof (unfolded_fresh _ _ _ _ _ _ Hv).
    assert (Hb' : Forall (names_below mid) vs) by (eapply Forall_impl; [exact Hb|]; intros w; by apply names_below_mono).
    specialize (IH Hvs mid Hb'). destruct (UnfoldOperands mid vs) as [[[next i2] vs'] n2]. by eapply unfolded_cons.
Qed.

Lemma UnfoldOperand_unfolded v : forall fresh, names_below fresh v ->
  let '(next, insts, v', n) := UnfoldOperand fresh v in unfolded fresh next n insts [v] [v'].
Proof.
  induction v as [v Hv|op args IH] using Val_nested_ind; intros fresh Hb.
  - destruct v; try (by apply unfolded_none); by destruct (Hv op args).
  - rewrite UnfoldOperand_expr. apply names_below_expr in Hb.
    assert (Hb' : Forall (names_below (fresh + 1)) args)
      by (eapply Forall_impl; [exact Hb|]; intros w; apply names_below_mono; lia).
    pose proof (UnfoldOperands_unfolded args IH (fresh + 1) Hb') as H.
    destruct (UnfoldOperands (fresh + 1) args) as [[[next insts] args'] n]. by apply unfolded_expr.
Qed.

Lemma UnfoldOperands_plain fresh vs :
  Forall (fun v => is_expr v = false) vs -> UnfoldOperands fresh vs = (fresh, [], vs, 0).
Proof.
  induction 1 as [|v vs Hv _ IH]; [done|]. cbn [UnfoldOperands]. destruct v; cbn [UnfoldOperand]; try done; by rewrite IH.
Qed.

Lemma with_own_operands i : with_operands i (operands i) = i.
Proof. destruct i; try done; [by destruct v|]. cbn. f_equal. induction incoming as [|[b v] l IH]; [done|]. cbn. by f_equal. Qed.

Lemma operands_with i l : length l = length (operands i) -> operands (with_operands i l) = l.
Proof.
  destruct i; try (by destruct l as [|? [|? [|? [|? ?]]]]).
  - destruct v; by destruct l as [|? [|? ?]].
  - cbn. rewrite length_fmap. revert incoming. induction l as [|v l IH]; intros [|[b w] inc] Hl; try done.
    cbn. f_equal. apply IH. by injection Hl.
Qed.

(** Unfolding the constant expressions of an instruction inserts as many
    instructions in front of it as it reports, and the instruction then finds
    in its operands the values of its former ones, while no other value
    changes.  Nothing is left to unfold, in the instruction or in those
    inserted, so repeating the step until nothing changes ends. *)
Theorem unfolding_preserves_operands fresh i next l n :
  Forall (names_below fresh) (operands i) -> UnfoldConstantExpressions fresh i = (next, l, n) ->
  exists insts vs, l = insts ++ [with_operands i vs] /\ n = Z.of_nat (length insts) /\
    operands (with_operands i vs) = vs /\
    (forall env, val_value (fold_left run_inserted insts env) <$> vs = val_value env <$> operands i) /\
    (forall env x, x < fresh -> fold_left run_inserted insts env !! x = env !! x) /\
    Forall (fun j => forall k, UnfoldConstantExpressions k j = (k, [j], 0)) l.
Proof.
  intros Hb Hu. unfold UnfoldConstantExpressions in Hu.
  pose proof (UnfoldOperands_unfolded (operands i) (Forall_true _ _ UnfoldOperand_unfolded) fresh Hb) as H.
  destruct (UnfoldOperands fresh (operands i)) as [[[next' insts] vs] n'] eqn:E. injection Hu as <- <- <-.
  assert (Hops : operands (with_operands i vs) = vs).
  { apply operands_with. pose proof (f_equal length (unfolded_value _ _ _ _ _ _ H ∅)) as Hlen. by rewrite !length_fmap in Hlen. }
  exists insts, vs. split; [done|]. split; [apply (unfolded_count _ _ _ _ _ _ H)|]. split; [done|].
  split; [apply (unfolded_value _ _ _ _ _ _ H)|]. split; [apply (unfolded_frame _ _ _ _ _ _ H)|].
  assert (Hp : Forall plain (insts ++ [with_operands i vs])).
  { apply Forall_app. split; [apply (unfolded_insts _ _ _ _ _ _ H)|]. constructor; [|done].
    unfold plain. rewrite Hops. apply (unfolded_plain _ _ _ _ _ _ H). }
  eapply Forall_impl; [exact Hp|]. intros j Hj k. unfold UnfoldConstantExpressions. rewrite UnfoldOperands_plain by done.
  by rewrite with_own_operands.
Qed.
End unfold.

Lemma phi_taints_move_at_once_witness :
  slot (fst (run (fun _ w => w) (fun _ _ => 0) (fun _ => 0) (fun _ _ m => (0, m)) (MkShadow tt {[7 := 5; 8 := 6]} tt, ∅)
         (snd (visit_phis 1 0 [(3, [(0, VInt 4); (1, VLocal 7)]); (4, [(1, VLocal 8)])])))) 4 = 6.
Proof.
  rewrite (phi_taints_move_at_once (fun _ w => w) (fun _ _ => 0) (fun _ => 0) (fun _ _ m => (0, m)) 1 0
             [(3, [(0, VInt 4); (1, VLocal 7)]); (4, [(1, VLocal 8)])] (MkShadow tt {[7 := 5; 8 := 6]} tt, ∅)).
  - vm_compute. reflexivity.
  - cbn. split; [|done]. apply Forall_singleton. discriminate.
Defined.

Lemma unfolding_preserves_operands_witness :
  exists insts vs,
    [TExpr 5 COther [VInt 3]; TCast 4 "ptrtoint" SameSize 64 "i64" (VLocal 5)] ++
      [TBinary 2 "add" "i64" (VLocal 1) (VLocal 4)] = insts ++ [with_operands (TBinary 2 "add" "i64" (VLocal 1) VNull) vs] /\
    length vs = 2%nat.
Proof.
  destruct (unfolding_preserves_operands (fun _ => 0) (fun _ _ => 0) (fun _ _ => 0) 4
    (TBinary 2 "add" "i64" (VLocal 1) (VExpr (CCast "ptrtoint" SameSize 64 "i64") [VExpr COther [VInt 3]])) 6
    ([TExpr 5 COther [VInt 3]; TCast 4 "ptrtoint" SameSize 64 "i64" (VLocal 5)] ++
      [TBinary 2 "add" "i64" (VLocal 1) (VLocal 4)]) 2) as (insts & vs & Hl & _ & Hops & _).
  - repeat constructor.
  - reflexivity.
  - exists insts, vs. apply app_inj_tail in Hl as [<- Hl].
    destruct vs as [|v [|w [|u vs]]]; try discriminate Hl; cbn in Hl; try injection Hl as <- <-; split; reflexivity.
Defined.
