(* ===== verification/GepExpansion.v ===== *)
(** * Expanding address computations

    Models [TaintTrackerTool::ExpandGEP] of
    [tools/TaintTracker/TaintTracker.cpp], which replaces a
    [getelementptr] by integer arithmetic so that its address can be tainted,
    and compares it with the address LLVM defines for the instruction. *)

From S2P Require Import Prelude.

(** ** Types and indices *)

(** Types as the data layout sees them: sizes in bytes, and the offsets of the
    fields of structures. *)
Inductive LType :=
| LScalar (size : Z)
| LStruct (size : Z) (fields : list (Z * LType))
| LArray (count : Z) (elem : LType).

Fixpoint getTypeAllocSize (t : LType) : Z :=
  match t with LScalar size => size | LStruct size _ => size | LArray n e => n * getTypeAllocSize e end.

(** [getElementOffset] of the layout of a structure. *)
Definition getElementOffset (fields : list (Z * LType)) (i : Z) : option Z := fst <$> (fields !! Z.to_nat i).

(** An index is a constant or a value, of some width. *)
Inductive Index := IConst (bits c : Z) | IVal (bits x : Z).
Definition index_bits (i : Index) : Z := match i with IConst bits _ | IVal bits _ => bits end.

(** The pairs of an index and an indexed type that the type iterator of an
    address computation visits: the first index steps over the pointer, later
    ones into a structure or an array. *)
Fixpoint inner_steps (t : LType) (l : list Index) : option (list (Index * LType)) :=
  match l with
  | [] => Some []
  | i :: l =>
      t' ← match t, i with
           | LArray _ e, _ => Some e
           | LStruct _ fields, IConst _ c => snd <$> (fields !! Z.to_nat c)
           | _, _ => None
           end;
      rest ← inner_steps t' l; Some ((i, t') :: rest)
  end.

Definition gep_steps (t : LType) (l : list Index) : option (list (Index * LType)) :=
  match l with
  | [] => Some []
  | i :: l => rest ← inner_steps t l; Some ((i, t) :: rest)
  end.

(** ** Generated code *)

Inductive GAtom := GTemp (t : Z) | GConst (c : Z) | GOperand (x : Z).

Inductive GInst :=
| GPtrToInt (t x : Z)
| GAdd (t : Z) (a b : GAtom)
| GMul (t : Z) (a b : GAtom)
| GSExt (t bits x : Z)
| GIntToPtr (t : Z) (a : GAtom)
| GBitCast (t x : Z).

Definition gbuilder := (Z * list GInst)%type.
Definition insert (b : gbuilder) (i : Z -> GInst) : GAtom * gbuilder := (GTemp (fst b), (fst b + 1, snd b ++ [i (fst b)])).

(** The arithmetic of an [IRBuilder], which folds constants. *)
Definition CreateAdd (b : gbuilder) (x y : GAtom) : GAtom * gbuilder :=
  match x, y with GConst c, GConst d => (GConst (add64 c d), b) | _, _ => insert b (fun t => GAdd t x y) end.
Definition CreateMul (b : gbuilder) (x y : GAtom) : GAtom * gbuilder :=
  match x, y with GConst c, GConst d => (GConst (mul64 c d), b) | _, _ => insert b (fun t => GMul t x y) end.

(** An index at the width of a pointer. *)
Definition widen (b : gbuilder) (i : Index) : GAtom * gbuilder :=
  match i with
  | IConst bits c => (GConst (wrap64 (to_signed bits c)), b)
  | IVal bits x => if bits =? 64 then (GOperand x, b) else insert b (fun t => GSExt t bits x)
  end.

(** ** The expansion *)

(** The base without its pointer casts: an integer made a pointer, or any
    other pointer. *)
Inductive Base := BIntToPtr (a : GAtom) | BPointer (x : Z).

Definition base_addr (b : gbuilder) (base : Base) : GAtom * gbuilder :=
  match base with
  | BIntToPtr a => (a, b)
  | BPointer x => insert b (fun t => GPtrToInt t x)
  end.

(** One step of the general case; an indexed structure is taken for a step
    into that structure. *)
Definition expand_step (st : GAtom * gbuilder) (step : Index * LType) : outcome (GAtom * gbuilder) :=
  let '(addr, b) := st in
  let '(index, indexed_type) := step in
  match indexed_type with
  | LStruct _ fields =>
      match index with
      | IConst _ elem_index =>
          match getElementOffset fields elem_index with
          | Some offset => Ok (CreateAdd b addr (GConst offset))
          | None => Undefined
          end
      | IVal _ _ => Undefined
      end
  | _ =>
      let '(index, b) := widen b index in
      let type_size := getTypeAllocSize indexed_type in
      let '(offset, b) := CreateMul b index (GConst type_size) in
      Ok (CreateAdd b addr offset)
  end.

Fixpoint expand_steps (st : GAtom * gbuilder) (l : list (Index * LType)) : outcome (GAtom * gbuilder) :=
  match l with
  | [] => Ok st
  | step :: l => st ← expand_step st step; expand_steps st l
  end.

(** The address in the end is cast to a pointer; when all indices are constant
    ([accumulateConstantOffset]) their offset is added at once. *)
Section expand.
Context (accumulateConstantOffset : LType -> list Index -> option Z).

Definition ExpandGEP (t : Z) (ty : LType) (base : Base) (ptr : Z) (indices : list Index) : outcome (GAtom * gbuilder) :=
  let '(addr, b) := base_addr (t, []) base in
  match accumulateConstantOffset ty indices with
  | Some offset =>
      let offset_uint := wrap64 offset in
      if negb (offset_uint =? 0) then
        let '(addr, b) := insert b (fun t => GAdd t addr (GConst offset_uint)) in
        Ok (insert b (fun t => GIntToPtr t addr))
      else Ok (insert b (fun t => GBitCast t ptr))
  | None =>
      match gep_steps ty indices with
      | Some steps =>
          '(addr, b) ← expand_steps (addr, b) steps;
          Ok (insert b (fun t => GIntToPtr t addr))
      | None => Undefined
      end
  end.
End expand.

(** ** Values *)

Section values.
(** The operands' values, as unsigned integers of their widths. *)
Context (operand : Z -> Z).

Definition gatom (temps : gmap Z Z) (a : GAtom) : Z :=
  match a with GTemp t => default 0 (temps !! t) | GConst c => c | GOperand x => operand x end.

Definition grun1 (temps : gmap Z Z) (i : GInst) : gmap Z Z :=
  match i with
  | GPtrToInt t x | GBitCast t x => <[t := operand x]> temps
  | GAdd t a b => <[t := add64 (gatom temps a) (gatom temps b)]> temps
  | GMul t a b => <[t := mul64 (gatom temps a) (gatom temps b)]> temps
  | GSExt t bits x => <[t := wrap64 (to_signed bits (operand x))]> temps
  | GIntToPtr t a => <[t := gatom temps a]> temps
  end.
Definition grun (l : list GInst) : gmap Z Z := fold_left grun1 l ∅.

(** The offset LLVM defines. *)
Definition index_value (i : Index) : Z :=
  match i with IConst bits c => to_signed bits c | IVal bits x => to_signed bits (operand x) end.

Fixpoint inner_offset (t : LType) (l : list Index) : Z :=
  match l with
  | [] => 0
  | i :: l =>
      match t, i with
      | LArray _ e, _ => index_value i * getTypeAllocSize e + inner_offset e l
      | LStruct _ fields, IConst _ c =>
          match fields !! Z.to_nat c with Some (offset, t') => offset + inner_offset t' l | None => 0 end
      | _, _ => 0
      end
  end.

Definition gep_offset (t : LType) (l : list Index) : Z :=
  match l with [] => 0 | i :: l => index_value i * getTypeAllocSize t + inner_offset t l end.

Definition gep_address (addr : Z) (t : LType) (l : list Index) : Z := wrap64 (addr + gep_offset t l).

(** ** Properties *)

Definition gbelow (n : Z) (a : GAtom) : Prop := match a with GTemp t => t < n | _ => True end.

(** Once the code of the builder ran, the atom has the value. *)
Definition gives (b : gbuilder) (a : GAtom) (v : Z) : Prop := gbelow (fst b) a /\ gatom (grun (snd b)) a = v.

(** What one builder knows the other still knows. *)
Definition later (b b' : gbuilder) : Prop := forall a v, gives b a v -> gives b' a v.

Lemma gives_const b c : gives b (GConst c) c.
Proof. done. Qed.
Lemma gives_operand b x : gives b (GOperand x) (operand x).
Proof. done. Qed.

(** The temporary an instruction sets, and the value it computes. *)
Definition gvalue (temps : gmap Z Z) (i : GInst) : Z :=
  match i with
  | GPtrToInt _ x | GBitCast _ x => operand x
  | GAdd _ a b => add64 (gatom temps a) (gatom temps b)
  | GMul _ a b => mul64 (gatom temps a) (gatom temps b)
  | GSExt _ bits x => wrap64 (to_signed bits (operand x))
  | GIntToPtr _ a => gatom temps a
  end.
Definition gtarget (i : GInst) : Z :=
  match i with GPtrToInt t _ | GBitCast t _ | GAdd t _ _ | GMul t _ _ | GSExt t _ _ | GIntToPtr t _ => t end.

Lemma grun1_value temps i : grun1 temps i = <[gtarget i := gvalue temps i]> temps.
Proof. by destruct i. Qed.

Lemma insert_gives b i a b' :
  insert b i = (a, b') -> gtarget (i (fst b)) = fst b -> gives b' a (gvalue (grun (snd b)) (i (fst b))) /\ later b b'.
Proof.
  unfold insert. intros [= <- <-] Ht. unfold gives, later, gives, grun. cbn [fst snd]. rewrite fold_left_app. cbn [fold_left].
  rewrite grun1_value, Ht. split.
  - cbn. split; [lia|]. by rewrite lookup_insert_eq.
  - intros a v [Hb Hv]. destruct a as [t|c|x]; cbn in *; [|done|done]. split; [lia|]. by rewrite lookup_insert_ne by lia.
Qed.

Lemma later_refl b : later b b.
Proof. by intros a v. Qed.
Lemma later_trans b1 b2 b3 : later b1 b2 -> later b2 b3 -> later b1 b3.
Proof. intros H1 H2 a v Ha. by apply H2, H1. Qed.

Lemma CreateAdd_gives b x y vx vy a b' :
  gives b x vx -> gives b y vy -> CreateAdd b x y = (a, b') -> gives b' a (add64 vx vy) /\ later b b'.
Proof.
  intros [_ Hx] [_ Hy] H. unfold CreateAdd in H.
  assert (Hi : insert b (fun t => GAdd t x y) = (a, b') -> gives b' a (add64 vx vy) /\ later b b').
  { intros Hi. apply insert_gives in Hi as [H1 H2]; [|done]. cbn [gvalue] in H1. by rewrite Hx, Hy in H1. }
  destruct x, y; try by apply Hi. injection H as <- <-. cbn in Hx, Hy. subst. split; [done|apply later_refl].
Qed.

Lemma CreateMul_gives b x y vx vy a b' :
  gives b x vx -> gives b y vy -> CreateMul b x y = (a, b') -> gives b' a (mul64 vx vy) /\ later b b'.
Proof.
  intros [_ Hx] [_ Hy] H. unfold CreateMul in H.
  assert (Hi : insert b (fun t => GMul t x y) = (a, b') -> gives b' a (mul64 vx vy) /\ later b b').
  { intros Hi. apply insert_gives in Hi as [H1 H2]; [|done]. cbn [gvalue] in H1. by rewrite Hx, Hy in H1. }
  destruct x, y; try by apply Hi. injection H as <- <-. cbn in Hx, Hy. subst. split; [done|apply later_refl].
Qed.

Lemma wrap64_signed64 x : wrap64 (to_signed 64 x) = wrap64 x.
Proof.
  unfold wrap64, to_signed. change (2 ^ 64) with two64. destruct (Z.ltb_spec (x mod two64) (2 ^ (64 - 1))).
  - by rewrite Zmod_mod.
  - replace (x mod two64 - two64) with (x mod two64 + (-1) * two64) by lia. rewrite Z_mod_plus_full. by rewrite Zmod_mod.
Qed.

(** Values of 64 bit indices fit in 64 bits. *)
Definition fits (i : Index) : Prop := match i with IVal 64 x => u64 (operand x) | _ => True end.

Lemma widen_gives b i a b' :
  fits i -> widen b i = (a, b') -> gives b' a (wrap64 (index_value i)) /\ later b b'.
Proof.
  destruct i as [bits c|bits x]; cbn [widen index_value]; intros Hf H.
  - injection H as <- <-. split; [done|apply later_refl].
  - destruct (Z.eqb_spec bits 64) as [->|Hne].
    + injection H as <- <-. split; [|apply later_refl]. split; [done|]. cbn in *. by rewrite wrap64_signed64, wrap64_small.
    + by apply insert_gives in H as [H1 H2].
Qed.

Definition is_struct (t : LType) : bool := match t with LStruct _ _ => true | _ => false end.

Lemma expand_step_gives st i t v :
  fits i -> is_struct t = false -> gives (snd st) (fst st) v ->
  exists st', expand_step st (i, t) = Ok st' /\ gives (snd st') (fst st') (wrap64 (v + index_value i * getTypeAllocSize t)).
Proof.
  destruct st as [addr b]. cbn [fst snd]. intros Hf Hs Hv. unfold expand_step.
  assert (H : exists st', (let '(index, b0) := widen b i in
      let '(offset, b1) := CreateMul b0 index (GConst (getTypeAllocSize t)) in Ok (CreateAdd b1 addr offset)) = Ok st' /\
      gives (snd st') (fst st') (wrap64 (v + index_value i * getTypeAllocSize t))).
  { destruct (widen b i) as [index b1] eqn:E1. destruct (CreateMul b1 index (GConst (getTypeAllocSize t))) as [offset b2] eqn:E2.
    destruct (CreateAdd b2 addr offset) as [a b3] eqn:E3. apply widen_gives in E1 as [H1 L1]; [|done].
    eapply CreateMul_gives in E2 as [H2 L2]; [|exact H1|apply gives_const].
    eapply CreateAdd_gives in E3 as [H3 _]; [|apply L2, L1, Hv|exact H2]. eexists. split; [done|]. cbn [fst snd].
    replace (wrap64 (v + index_value i * getTypeAllocSize t)) with (add64 v (mul64 (wrap64 (index_value i)) (getTypeAllocSize t)));
      [done|]. unfold add64, mul64, wrap64. by rewrite Zmult_mod_idemp_l, Zplus_mod_idemp_r. }
  destruct t; [exact H|done|exact H].
Qed.

(** The sum of the steps. *)
Definition steps_offset (l : list (Index * LType)) : Z :=
  fold_right (fun s acc => index_value (fst s) * getTypeAllocSize (snd s) + acc) 0 l.

Lemma expand_steps_gives l : forall st v,
  Forall (fun s => fits (fst s) /\ is_struct (snd s) = false) l -> gives (snd st) (fst st) v -> u64 v ->
  exists st', expand_steps st l = Ok st' /\ gives (snd st') (fst st') (wrap64 (v + steps_offset l)).
Proof.
  induction l as [|[i t] l IH]; intros st v Hf Hv Hu; cbn [expand_steps steps_offset fold_right].
  - exists st. split; [done|]. by rewrite Z.add_0_r, wrap64_small.
  - apply Forall_cons in Hf as [[Hi Hs] Hf]. destruct (expand_step_gives st i t v Hi Hs Hv) as (st1 & E & H1). rewrite E.
    cbn [mbind outcome_bind]. destruct (IH st1 _ Hf H1 (wrap64_u64 _)) as (st' & E' & H'). exists st'. split; [done|].
    cbn [fst snd]. fold (steps_offset l).
    replace (wrap64 (v + (index_value i * getTypeAllocSize t + steps_offset l)))
      with (wrap64 (wrap64 (v + index_value i * getTypeAllocSize t) + steps_offset l)); [done|].
    unfold wrap64. rewrite Zplus_mod_idemp_l. f_equal. lia.
Qed.

Lemma inner_steps_offset l : forall t steps,
  is_struct t = false -> inner_steps t l = Some steps -> Forall (fun s => is_struct (snd s) = false) steps ->
  inner_offset t l = steps_offset steps.
Proof.
  induction l as [|i l IH]; intros t steps Ht Hs Hf; cbn [inner_steps] in Hs.
  - by injection Hs as <-.
  - destruct t as [?| |n e]; try done. cbn [mbind option_bind] in Hs.
    destruct (inner_steps e l) as [rest|] eqn:E; [|done]. cbn in Hs. injection Hs as <-. apply Forall_cons in Hf as [He Hf].
    cbn [inner_offset steps_offset fold_right fst snd]. cbn [snd] in He. by rewrite (IH e rest He E Hf).
Qed.

Lemma inner_steps_index (P : Index -> Prop) l : forall t steps,
  inner_steps t l = Some steps -> Forall P l -> Forall (fun s => P (fst s)) steps.
Proof.
  induction l as [|i l IH]; intros t steps Hs Hf; cbn [inner_steps] in Hs; [by injection Hs as <-|].
  destruct (match t with LArray _ e => _ | _ => _ end) as [t'|]; [|done]. cbn [mbind option_bind] in Hs.
  destruct (inner_steps t' l) as [rest|] eqn:E; [|done]. cbn in Hs. injection Hs as <-.
  apply Forall_cons in Hf as [Hi Hf]. constructor; [done|]. by eapply IH.
Qed.

(** The base of the computation is its pointer. *)
Definition base_is (base : Base) (ptr : Z) : Prop :=
  match base with BIntToPtr a => match a with GTemp _ => False | _ => True end /\ gatom ∅ a = operand ptr | BPointer x => x = ptr end.

Lemma base_addr_gives t base ptr a b :
  base_is base ptr -> 0 <= t -> base_addr (t, []) base = (a, b) -> gives b a (operand ptr).
Proof.
  destruct base as [x|x]; cbn [base_addr base_is]; intros Hb Ht H.
  - injection H as <- <-. destruct Hb as [Hb Hv]. split; [|done]. by destruct x.
  - subst x. by apply insert_gives in H as [H _].
Qed.

Section correct.
Context (accumulateConstantOffset : LType -> list Index -> option Z).

(** The documented result of [accumulateConstantOffset]. *)
Definition accumulates : Prop :=
  forall t l offset, accumulateConstantOffset t l = Some offset -> wrap64 (gep_offset t l) = wrap64 offset.

(** C37: the pointer that replaces an address computation is the address of the
    computation, if its indices are constant, or if it steps over scalars and
    arrays only. *)
Theorem ExpandGEP_address t ty base ptr indices :
  accumulates -> 0 <= t -> base_is base ptr -> u64 (operand ptr) -> Forall fits indices ->
  (accumulateConstantOffset ty indices = None ->
   exists steps, gep_steps ty indices = Some steps /\ Forall (fun s => is_struct (snd s) = false) steps) ->
  exists a b, ExpandGEP accumulateConstantOffset t ty base ptr indices = Ok (a, b) /\
    gatom (grun (snd b)) a = gep_address (operand ptr) ty indices.
Proof.
  intros Hacc Ht Hbase Hu Hfits Hsteps. unfold ExpandGEP, gep_address. destruct (base_addr (t, []) base) as [addr b] eqn:Eb.
  pose proof (base_addr_gives _ _ _ _ _ Hbase Ht Eb) as Hb.
  destruct (accumulateConstantOffset ty indices) as [offset|] eqn:Ea.
  - assert (Ho : wrap64 (operand ptr + gep_offset ty indices) = add64 (operand ptr) (wrap64 offset)).
    { rewrite <- (Hacc _ _ _ Ea). unfold add64, wrap64. by rewrite Zplus_mod_idemp_r. }
    rewrite Ho. destruct (Z.eqb_spec (wrap64 offset) 0) as [H0|H0]; cbn [negb].
    + destruct (insert b (fun t => GBitCast t ptr)) as [a b'] eqn:Ei. apply insert_gives in Ei as [[_ Hv] _]; [|done].
      exists a, b'. split; [done|]. rewrite Hv, H0. unfold add64. by rewrite Z.add_0_r, wrap64_small.
    + destruct (insert b _) as [x b1] eqn:E1. apply insert_gives in E1 as [H1 _]; [|done]. cbn [gvalue] in H1.
      destruct (insert b1 _) as [a b2] eqn:E2. apply insert_gives in E2 as [[_ H2] _]; [|done]. cbn [gvalue] in H2.
      exists a, b2. split; [done|]. destruct Hb as [_ Hb]. destruct H1 as [_ H1]. by rewrite H2, H1, Hb.
  - destruct (Hsteps eq_refl) as (steps & Es & Hf). rewrite Es. destruct indices as [|i l].
    { cbn in Es. injection Es as <-. cbn [expand_steps mbind outcome_bind]. destruct (insert b _) as [a b'] eqn:Ei.
      apply insert_gives in Ei as [[_ Hv] _]; [|done]. exists a, b'. split; [done|]. cbn [gvalue] in Hv. destruct Hb as [_ Hb].
      rewrite Hv, Hb. cbn. by rewrite Z.add_0_r, wrap64_small. }
    cbn [gep_steps] in Es. destruct (inner_steps ty l) as [rest|] eqn:Er; [|done]. cbn in Es. injection Es as <-.
    apply Forall_cons in Hf as [Hty Hf]. apply Forall_cons in Hfits as [Hi Hl].
    destruct (expand_steps_gives ((i, ty) :: rest) (addr, b) (operand ptr)) as ([addr' b1] & E & Hv).
    { constructor; [done|]. apply Forall_and. split; [by eapply inner_steps_index|done]. }
    { done. } { done. }
    rewrite E. cbn [mbind outcome_bind]. destruct (insert b1 _) as [a b2] eqn:Ei.
    apply insert_gives in Ei as [[_ H2] _]; [|done]. cbn [gvalue fst snd] in *. destruct Hv as [_ Hv].
    exists a, b2. split; [done|]. rewrite H2, Hv. cbn [gep_offset]. by rewrite (inner_steps_offset l ty rest Hty Er Hf).
Qed.

(** An index that is not a constant and steps over structures is taken for the
    number of a field, and the expansion follows a null pointer. *)
Theorem ExpandGEP_over_structs_undefined t size fields base ptr bits x l :
  accumulateConstantOffset (LStruct size fields) (IVal bits x :: l) = None ->
  ExpandGEP accumulateConstantOffset t (LStruct size fields) base ptr (IVal bits x :: l) = Undefined.
Proof.
  intros Hn. unfold ExpandGEP. destruct (base_addr (t, []) base) as [addr b]. rewrite Hn. cbn [gep_steps].
  by destruct (inner_steps _ l).
Qed.
End correct.
End values.

(** ** Instances *)

(** The second row of a table of three bytes a row, at a computed column. *)
Lemma ExpandGEP_address_witness :
  exists a b,
    ExpandGEP (fun _ _ => None) 0 (LArray 3 (LScalar 1)) (BPointer 0) 0 [IConst 64 1; IVal 32 1] = Ok (a, b) /\
    gatom (fun x => if x =? 0 then 4096 else 2) (grun (fun x => if x =? 0 then 4096 else 2) (snd b)) a = 4101.
Proof.
  apply (ExpandGEP_address (fun x => if x =? 0 then 4096 else 2) (fun _ _ => None) 0 (LArray 3 (LScalar 1)) (BPointer 0) 0
           [IConst 64 1; IVal 32 1]).
  - discriminate.
  - lia.
  - reflexivity.
  - vm_compute. split; [discriminate|reflexivity].
  - repeat constructor.
  - intros _. eexists. split; [reflexivity|]. repeat constructor.
Defined.

(** A field of a structure is taken for an element of an array: the byte after
    two words is at offset 8, the expansion says 2. *)
Example field_of_struct :
  let fields := LStruct 12 [(0, LScalar 4); (4, LScalar 4); (8, LScalar 1)] in
  let operand := fun x => if x =? 0 then 4096 else 0 in
  match inner_steps fields [IConst 32 2] with
  | Some steps =>
      match expand_steps (GOperand 0, (0, [])) steps with
      | Ok (a, b) => gatom operand (grun operand (snd b)) a = 4096 + 2
      | _ => False
      end
  | None => False
  end /\ inner_offset operand fields [IConst 32 2] = 8.
Proof. split; reflexivity. Qed.
