(* ===== verification/LoadBinary.v ===== *)
(** * Loading an object file into a snapshot

    Models [src/Load.cpp]: the architecture and operating system of a binary,
    the memory manager that backs each section with a file of the workspace
    ([MapSection]), and the snapshot that is written in the end.  LLVM reads
    the object file and places and relocates the sections: what it asks for
    and where sections end up are parameters. *)

From stdpp Require Import pretty.
From Stdlib Require Import Ascii.
From S2P Require Import Prelude Pages ProgramSnapshot Snapshot MapsProps.

(** ** The architecture and the operating system *)

(** [llvm::Triple::ArchType] and the formats of object files. *)
Inductive TripleArch := Triple_aarch64 | Triple_x86 | Triple_x86_64 | Triple_other.
Inductive ObjectFormat := COFF | MachO | ELF | OtherFormat.
Inductive OSName := kOSWindows | kOSmacOS | kOSLinux.
#[global] Instance ArchName_eq_dec : EqDecision ArchName.
Proof. solve_decision. Defined.

(** Choosing an architecture; [None] is [EXIT_FAILURE].  [GetArchName] is
    remill's. *)
Definition infer_arch (GetArchName : string -> ArchName) (llvm_arch_name : TripleArch) (flags_arch : string) : option ArchName :=
  match llvm_arch_name with
  | Triple_aarch64 =>
      if negb (bool_decide (flags_arch = "")) && negb (bool_decide (flags_arch = "aarch64")) then None
      else Some kArchAArch64LittleEndian
  | Triple_x86 =>
      if bool_decide (flags_arch = "") then Some kArchX86_AVX
      else
        match GetArchName flags_arch with
        | kArchX86 => Some kArchX86
        | kArchX86_AVX => Some kArchX86_AVX
        | kArchX86_AVX512 => Some kArchX86_AVX512
        | _ => None
        end
  | Triple_x86_64 =>
      if bool_decide (flags_arch = "") then Some kArchAMD64_AVX
      else
        match GetArchName flags_arch with
        | kArchAMD64 => Some kArchAMD64
        | kArchAMD64_AVX => Some kArchAMD64_AVX
        | kArchAMD64_AVX512 => Some kArchAMD64_AVX512
        | _ => None
        end
  | Triple_other => None
  end.

Definition infer_os (GetOSName : OSName -> string) (format : ObjectFormat) (flags_os : string) : option OSName :=
  os_name ← match format with
            | COFF => Some kOSWindows
            | MachO => Some kOSmacOS
            | ELF => Some kOSLinux
            | OtherFormat => None
            end;
  if negb (bool_decide (flags_os = "")) && negb (bool_decide (flags_os = GetOSName os_name)) then None else Some os_name.

(** ** Sections *)

(** What LLVM asks the memory manager for. *)
Record LoadSection := MkLoadSection {
  sec_id : Z;
  sec_name : string;
  sec_size : Z;
  sec_code : bool;
  sec_read_only : bool
}.

(** A page range that is being built: its bounds are set in the end. *)
Record LoadedRange := MkLoadedRange {
  lr_bounds : option (Z * Z);
  lr_can_write : bool;
  lr_can_exec : bool;
  lr_name : string
}.

Record Loader := MkLoader {
  page_ranges : list LoadedRange;
  ranges : gmap Z nat;
  range_size : gmap Z Z;
  section_files : gmap string (list Z)
}.
Definition Loader_new : Loader := MkLoader [] ∅ ∅ ∅.

(** [isalnum(c) || '.' == c ? c : '_'] *)
Fixpoint safe_name (s : string) : string :=
  match s with
  | EmptyString => EmptyString
  | String c s => String (if isalnum c || bool_decide (c = "."%char) then c else "_"%char) (safe_name s)
  end.

Definition section_file (id : Z) (name : string) : string := "sec_" +:+ pretty id +:+ safe_name name.

(** [size += 4095; size &= ~4095ULL;] *)
Definition round_size (size : Z) : Z := Z.land (add64 size 4095) (not64 4095).

Section load.
(** Whether the host opens, resizes and maps the file of a section. *)
Context (can_open : string -> bool) (can_resize can_map : string -> Z -> bool).

Definition MapSection (l : Loader) (id : Z) (name : string) (size : Z) (can_write can_exec : bool) : outcome Loader :=
  let file := section_file id name in
  check (can_open file) ;;
  let size := round_size size in
  check (can_resize file size) ;;
  check (can_map file size) ;;
  Ok (MkLoader (page_ranges l ++ [MkLoadedRange None can_write can_exec file])
        (<[id := length (page_ranges l)]> (ranges l)) (<[id := size]> (range_size l))
        (<[file := replicate (Z.to_nat size) 0]> (section_files l))).

Definition Loader_allocateCodeSection (l : Loader) (size id : Z) (name : string) : outcome Loader :=
  MapSection l id name size false true.
Definition Loader_allocateDataSection (l : Loader) (size id : Z) (name : string) (is_read_only : bool) : outcome Loader :=
  MapSection l id name size (negb is_read_only) false.

Definition allocate (l : Loader) (s : LoadSection) : outcome Loader :=
  if sec_code s then Loader_allocateCodeSection l (sec_size s) (sec_id s) (sec_name s)
  else Loader_allocateDataSection l (sec_size s) (sec_id s) (sec_name s) (sec_read_only s).

(** LLVM allocates the sections of the object file and fills them through
    their mappings; storing beyond the end of a file faults. *)
Fixpoint allocate_all (l : Loader) (sections : list LoadSection) : outcome Loader :=
  match sections with
  | [] => Ok l
  | s :: sections => l ← allocate l s; allocate_all l sections
  end.

Definition fill (files : gmap string (list Z)) (file : string) (bytes : list Z) : outcome (gmap string (list Z)) :=
  let old := default [] (files !! file) in
  if (length bytes <=? length old)%nat then Ok (<[file := bytes ++ drop (length bytes) old]> files) else Undefined.

Fixpoint fill_all (files : gmap string (list Z)) (sections : list LoadSection) (contents : Z -> list Z) : outcome (gmap string (list Z)) :=
  match sections with
  | [] => Ok files
  | s :: sections =>
      files ← fill files (section_file (sec_id s) (sec_name s)) (contents (sec_id s));
      fill_all files sections contents
  end.

(** Where a section went: a section with load address 0 is skipped. *)
Definition set_bounds (r : LoadedRange) (bounds : Z * Z) : LoadedRange :=
  MkLoadedRange (Some bounds) (lr_can_write r) (lr_can_exec r) (lr_name r).

Definition place (l : Loader) (entry : Z * Z) : Loader :=
  let '(id, load_addr) := entry in
  if load_addr =? 0 then l
  else
    match ranges l !! id with
    | None => l
    | Some i =>
        let base := int64 load_addr in
        let limit := base + default 0 (range_size l !! id) in
        MkLoader (alter (fun r => set_bounds r (base, limit)) i (page_ranges l)) (ranges l) (range_size l) (section_files l)
    end.

(** ** The program *)

(** How loading goes: no information about the object, an error of the loader,
    an error while finalizing, or none. *)
Inductive LoadResult := NoObjectInfo | LoadError | FinalizeError | Loaded.

(** What LLVM finds in the binary: how loading goes, the sections it
    allocates, their contents after relocation, and the load
    addresses in the order of its map. *)
Record ObjectFile := MkObjectFile {
  obj_arch : TripleArch;
  obj_format : ObjectFormat;
  obj_sections : list LoadSection;
  obj_loads : LoadResult;
  obj_contents : Z -> list Z;
  obj_load_addrs : list (Z * Z)
}.

(** The snapshot as it is written: one address space, no tasks. *)
Record LoadedProgram := MkLoadedProgram {
  lp_arch : ArchName;
  lp_os : OSName;
  lp_ranges : list LoadedRange
}.

Context (GetArchName : string -> ArchName) (arch_name_of : ArchName -> string) (GetOSName : OSName -> string).
Context (arch_supported : OSName -> ArchName -> bool) (can_save : LoadedProgram -> bool).

(** [main] from the snapshot on: LLVM allocates the sections while it loads
    the object; the snapshot is written to the workspace. *)
Definition load_object (obj : ObjectFile) (arch_name : ArchName) (os_name : OSName) :
    outcome (option (LoadedProgram * gmap string (list Z))) :=
  l ← allocate_all Loader_new (obj_sections obj);
  match obj_loads obj with
  | NoObjectInfo | LoadError | FinalizeError => Ok None
  | Loaded =>
      files ← fill_all (section_files l) (obj_sections obj) (obj_contents obj);
      let l := fold_left place (obj_load_addrs obj) l in
      let snapshot := MkLoadedProgram arch_name os_name (page_ranges l) in
      check (can_save snapshot) ;;
      Ok (Some (snapshot, files))
  end.

(** [main] with the flags [--binary], [--arch] and [--os] and what the file
    holds ([None]: it cannot be read or parsed); the answer [None] is
    [EXIT_FAILURE]. *)
Definition Load_main (flags_binary flags_arch flags_os : string) (binary : option ObjectFile) :
    outcome (option (LoadedProgram * gmap string (list Z))) :=
  if bool_decide (flags_binary = "") then Ok None
  else
    match binary with
    | None => Ok None
    | Some obj =>
        match infer_arch GetArchName (obj_arch obj) flags_arch, infer_os GetOSName (obj_format obj) flags_os with
        | Some arch_name, Some os_name =>
            if negb (arch_supported os_name arch_name) then Ok None else load_object obj arch_name os_name
        | _, _ => Ok None
        end
    end.

(** Reading the snapshot back: the bounds of a range are required fields. *)
Definition complete_range (r : LoadedRange) : option PageRange :=
  '(base, limit) ← lr_bounds r;
  Some (MkPageRange base limit true (lr_can_write r) (lr_can_exec r) kAnonymousPageRange (lr_name r) None None).

Definition parsed (p : LoadedProgram) : option Program :=
  l ← mapM complete_range (lp_ranges p);
  Some (MkProgram (arch_name_of (lp_arch p)) (GetOSName (lp_os p)) [] [MkSnapshotSpace 1 None l] []).
End load.

(** ** Names of files *)

Lemma pretty_N_char_digit x : (x < 10)%N -> isdigit (pretty_N_char x) = true.
Proof.
  intros Hx. assert (H : x ∈ (N.of_nat <$> seq 0 10)).
  { apply list_elem_of_fmap. exists (N.to_nat x). split; [lia|]. apply elem_of_seq. lia. }
  cbn in H. set_unfold in H. by destruct_or! H; subst x.
Qed.

Lemma pretty_go_digits x : forall s, all_digits s = true -> all_digits (pretty_N_go x s) = true.
Proof.
  induction (N.lt_wf_0 x) as [x _ IH]. intros s Hs. destruct (decide (x = 0)%N) as [->|Hx]; [by rewrite pretty_N_go_0|].
  rewrite pretty_N_go_step by lia. apply IH; [by apply N.div_lt; lia|]. cbn. rewrite Hs, pretty_N_char_digit; [done|].
  by apply N.mod_lt.
Qed.

Lemma pretty_digits z : 0 <= z -> all_digits (pretty z) = true.
Proof.
  intros Hz. destruct z as [|p|p]; [done| |lia]. change (pretty (Z.pos p)) with (pretty (N.pos p)).
  unfold pretty, pretty_N. rewrite decide_False by done. by apply pretty_go_digits.
Qed.

(** A name that does not start with a digit. *)
Definition starts_plain (s : string) : Prop := match s with EmptyString => True | String c _ => isdigit c = false end.

Lemma digits_then_plain a b s t :
  all_digits a = true -> all_digits b = true -> starts_plain s -> starts_plain t -> a +:+ s = b +:+ t -> a = b /\ s = t.
Proof.
  revert b. induction a as [|c a IH]; intros [|d b] Ha Hb Hs Ht H; [done| | |].
  - change ("" +:+ s) with s in H. subst s. rewrite string_app_cons in Hs. cbn in *. by rewrite Hs in Hb.
  - change ("" +:+ t) with t in H. subst t. rewrite string_app_cons in Ht. cbn in *. by rewrite Ht in Ha.
  - rewrite !string_app_cons in H. injection H as -> H. cbn in Ha, Hb. apply andb_true_iff in Ha as [_ Ha].
    apply andb_true_iff in Hb as [_ Hb]. by destruct (IH b Ha Hb Hs Ht H) as [-> ->].
Qed.

Lemma safe_starts_plain s : starts_plain s -> starts_plain (safe_name s).
Proof. destruct s as [|c s]; [done|]. cbn. intros Hc. by destruct (isalnum c || bool_decide (c = "."%char)). Qed.

Lemma section_file_inj i j s t :
  0 <= i -> 0 <= j -> starts_plain s -> starts_plain t -> section_file i s = section_file j t -> i = j.
Proof.
  intros Hi Hj Hs Ht H. unfold section_file in H. rewrite !string_app_cons in H.
  change ("" +:+ ?x) with x in H. injection H as H.
  apply digits_then_plain in H as [H _]; try (by apply pretty_digits); try (by apply safe_starts_plain).
  by apply (inj pretty) in H.
Qed.

(** ** Sizes *)

Lemma round_size_spec n : 0 <= n < two64 - 4096 -> n <= round_size n < n + 4096 /\ round_size n mod 4096 = 0.
Proof.
  intros Hn. unfold round_size, two64 in *. rewrite add64_small by (unfold two64; lia).
  change (not64 4095) with (not64 (2 ^ 12 - 1)). rewrite land_not64_ones by (unfold u64, two64; lia).
  change (2 ^ 12) with 4096. pose proof (Z.div_mod (n + 4095) 4096). pose proof (Z.mod_pos_bound (n + 4095) 4096).
  split; [lia|]. replace (n + 4095 - (n + 4095) mod 4096) with ((n + 4095) / 4096 * 4096) by lia. by apply Z.mod_mul.
Qed.

(** ** Mapping sections *)

Definition file_of (s : LoadSection) : string := section_file (sec_id s) (sec_name s).
Definition range_of (s : LoadSection) : LoadedRange :=
  MkLoadedRange None (negb (sec_code s) && negb (sec_read_only s)) (sec_code s) (file_of s).

Definition host_maps (can_open : string -> bool) (can_resize can_map : string -> Z -> bool) (s : LoadSection) : Prop :=
  can_open (file_of s) = true /\ can_resize (file_of s) (round_size (sec_size s)) = true /\
  can_map (file_of s) (round_size (sec_size s)) = true.

(** A section LLVM can ask for. *)
Record section_ok (s : LoadSection) : Prop := {
  sk_id : 0 <= sec_id s;
  sk_name : starts_plain (sec_name s);
  sk_size : 0 <= sec_size s < two64 - 4096
}.

Section mapping.
Context (can_open : string -> bool) (can_resize can_map : string -> Z -> bool).
#[local] Abbreviation allocate := (allocate can_open can_resize can_map).
#[local] Abbreviation allocate_all := (allocate_all can_open can_resize can_map).

Definition allocated (l : Loader) (s : LoadSection) : Loader :=
  MkLoader (page_ranges l ++ [range_of s]) (<[sec_id s := length (page_ranges l)]> (ranges l))
    (<[sec_id s := round_size (sec_size s)]> (range_size l))
    (<[file_of s := replicate (Z.to_nat (round_size (sec_size s))) 0]> (section_files l)).

Lemma allocate_step l s : host_maps can_open can_resize can_map s -> allocate l s = Ok (allocated l s).
Proof.
  intros (H1 & H2 & H3). unfold LoadBinary.allocate, Loader_allocateCodeSection, Loader_allocateDataSection, MapSection.
  fold (file_of s). unfold allocated, range_of. destruct (sec_code s); rewrite H1, H2, H3; done.
Qed.

Lemma allocate_all_run sections : forall l,
  Forall (host_maps can_open can_resize can_map) sections -> allocate_all l sections = Ok (fold_left allocated sections l).
Proof.
  induction sections as [|s sections IH]; intros l Hh; [done|]. apply Forall_cons in Hh as [Hs Hh].
  cbn [LoadBinary.allocate_all fold_left]. rewrite allocate_step by done. cbn [mbind outcome_bind]. by apply IH.
Qed.
End mapping.

Lemma allocated_ranges sections : forall l,
  page_ranges (fold_left allocated sections l) = page_ranges l ++ (range_of <$> sections).
Proof.
  induction sections as [|s sections IH]; intros l; [by rewrite app_nil_r|]. cbn [fold_left fmap list_fmap].
  rewrite IH. cbn [allocated page_ranges]. by rewrite <- app_assoc.
Qed.

(** What the loader records of a section is kept by the allocation of
    others. *)
Lemma allocated_other sections id : forall l,
  id ∉ (sec_id <$> sections) ->
  ranges (fold_left allocated sections l) !! id = ranges l !! id /\
  range_size (fold_left allocated sections l) !! id = range_size l !! id.
Proof.
  induction sections as [|s sections IH]; intros l Hid; [done|]. cbn [fmap list_fmap] in Hid.
  apply not_elem_of_cons in Hid as [Hne Hid]. cbn [fold_left]. destruct (IH (allocated l s) Hid) as [-> ->].
  cbn [allocated ranges range_size]. by rewrite !lookup_insert_ne by congruence.
Qed.

Lemma allocated_files_other sections file : forall l,
  file ∉ (file_of <$> sections) -> section_files (fold_left allocated sections l) !! file = section_files l !! file.
Proof.
  induction sections as [|s sections IH]; intros l Hid; [done|]. cbn [fmap list_fmap] in Hid.
  apply not_elem_of_cons in Hid as [Hne Hid]. cbn [fold_left]. rewrite IH by done.
  cbn [allocated section_files]. by rewrite lookup_insert_ne by congruence.
Qed.

Lemma allocated_lookup sections : forall l i s,
  NoDup (sec_id <$> sections) -> NoDup (file_of <$> sections) -> sections !! i = Some s ->
  let l' := fold_left allocated sections l in
  ranges l' !! sec_id s = Some (length (page_ranges l) + i)%nat /\
  range_size l' !! sec_id s = Some (round_size (sec_size s)) /\
  section_files l' !! file_of s = Some (replicate (Z.to_nat (round_size (sec_size s))) 0).
Proof.
  induction sections as [|s0 sections IH]; intros l i s Hn Hf Hi; [done|]. cbn [fmap list_fmap] in Hn, Hf.
  apply NoDup_cons in Hn as [Hn0 Hn]. apply NoDup_cons in Hf as [Hf0 Hf]. cbn [fold_left]. destruct i as [|i]; cbn in Hi.
  - injection Hi as ->. destruct (allocated_other sections (sec_id s) (allocated l s) Hn0) as [-> ->].
    rewrite (allocated_files_other sections (file_of s) (allocated l s) Hf0). cbn [allocated ranges range_size section_files].
    rewrite !lookup_insert_eq. by rewrite Nat.add_0_r.
  - destruct (IH (allocated l s0) i s Hn Hf Hi) as (H1 & H2 & H3). rewrite H1, H2, H3.
    cbn [allocated page_ranges]. rewrite length_app. cbn [length]. split; [f_equal; lia|done].
Qed.

Lemma files_distinct sections :
  Forall section_ok sections -> NoDup (sec_id <$> sections) -> NoDup (file_of <$> sections).
Proof.
  induction sections as [|s sections IH]; intros Hok Hn; [constructor|]. cbn [fmap list_fmap] in *.
  apply Forall_cons in Hok as [Hs Hok]. apply NoDup_cons in Hn as [Hn0 Hn]. constructor; [|by apply IH].
  intros (s' & Heq & Hs')%list_elem_of_fmap. apply Hn0. rewrite Forall_forall in Hok. specialize (Hok s' Hs').
  apply section_file_inj in Heq; [|by apply sk_id|by apply sk_id|by apply sk_name|by apply sk_name].
  rewrite Heq. by apply list_elem_of_fmap_2.
Qed.

(** ** Filling sections *)

(** The file of a section holds its contents and zeroes up to its size. *)
Definition file_bytes (s : LoadSection) (bytes : list Z) : list Z :=
  bytes ++ replicate (Z.to_nat (round_size (sec_size s)) - length bytes) 0.

Lemma fill_all_other sections contents file : forall files files',
  fill_all files sections contents = Ok files' -> file ∉ (file_of <$> sections) -> files' !! file = files !! file.
Proof.
  induction sections as [|s sections IH]; intros files files' H Hf; [by injection H as <-|]. cbn [fmap list_fmap] in Hf.
  apply not_elem_of_cons in Hf as [Hne Hf]. cbn [fill_all] in H. unfold fill at 1 in H. case_match; [|done].
  cbn [mbind outcome_bind] in H. rewrite (IH _ _ H Hf). fold (file_of s). by rewrite lookup_insert_ne by congruence.
Qed.

Lemma fill_all_spec sections contents : forall files,
  NoDup (file_of <$> sections) ->
  Forall (fun s => Z.of_nat (length (contents (sec_id s))) <= round_size (sec_size s) /\
                   files !! file_of s = Some (replicate (Z.to_nat (round_size (sec_size s))) 0)) sections ->
  exists files', fill_all files sections contents = Ok files' /\
    Forall (fun s => files' !! file_of s = Some (file_bytes s (contents (sec_id s)))) sections.
Proof.
  induction sections as [|s sections IH]; intros files Hn Hf; [by eexists|]. cbn [fmap list_fmap] in Hn.
  apply NoDup_cons in Hn as [Hn0 Hn]. apply Forall_cons in Hf as [[Hl Hs] Hf]. cbn [fill_all]. unfold fill at 1.
  fold (file_of s). rewrite Hs. cbn [from_option id]. rewrite length_replicate.
  destruct (Nat.leb_spec (length (contents (sec_id s))) (Z.to_nat (round_size (sec_size s)))); [|lia].
  cbn [mbind outcome_bind]. rewrite drop_replicate.
  destruct (IH (<[file_of s := file_bytes s (contents (sec_id s))]> files) Hn) as (files' & H1 & H2).
  { rewrite Forall_forall in Hf |- *. intros s' Hs'. destruct (Hf s' Hs') as [Hl' Hf']. split; [done|].
    rewrite lookup_insert_ne; [done|]. intros Heq. apply Hn0. rewrite Heq. by apply list_elem_of_fmap_2. }
  exists files'. split; [done|]. constructor; [|done]. rewrite (fill_all_other _ _ _ _ _ H1 Hn0). by rewrite lookup_insert_eq.
Qed.

(** ** Placing sections *)

Lemma place_records l e : ranges (place l e) = ranges l /\ range_size (place l e) = range_size l.
Proof. destruct e as [id addr]. unfold place. destruct (addr =? 0); [done|]. by destruct (ranges l !! id). Qed.

(** The bounds the entries of a section give it. *)
Definition bounds_of (entries : list (Z * Z)) (id size : Z) : option (Z * Z) :=
  match (list_to_map entries : gmap Z Z) !! id with
  | Some addr => if addr =? 0 then None else Some (int64 addr, int64 addr + size)
  | None => None
  end.

Lemma place_all_spec entries : forall l id i r size,
  NoDup (fst <$> entries) ->
  (forall id', ranges l !! id' = Some i -> id' = id) ->
  ranges l !! id = Some i -> range_size l !! id = Some size -> page_ranges l !! i = Some r ->
  page_ranges (fold_left place entries l) !! i =
    Some (match bounds_of entries id size with Some b => set_bounds r b | None => r end).
Proof.
  induction entries as [|[id0 addr] entries IH]; intros l id i r size Hn Hinj Hr Hs Hp; [done|]. cbn [fmap list_fmap fst] in Hn.
  apply NoDup_cons in Hn as [Hn0 Hn]. cbn [fold_left]. unfold bounds_of. cbn [list_to_map fold_right uncurry fst snd].
  destruct (place_records l (id0, addr)) as [Hr' Hs']. destruct (decide (id0 = id)) as [->|Hne].
  - change (fold_right _ ∅ entries) with (list_to_map entries : gmap Z Z). rewrite lookup_insert_eq.
    assert (Hnone : forall size, bounds_of entries id size = None)
      by (intros ?; unfold bounds_of; by rewrite not_elem_of_list_to_map_1).
    destruct (Z.eqb_spec addr 0) as [->|Ha].
    + change (place l (id, 0)) with l. rewrite (IH l id i r size) by done. by rewrite Hnone.
    + rewrite (IH (place l (id, addr)) id i (set_bounds r (int64 addr, int64 addr + size)) size); rewrite ?Hr', ?Hs'; try done.
      * by rewrite Hnone.
      * unfold place. destruct (Z.eqb_spec addr 0); [done|]. rewrite Hr, Hs. cbn [page_ranges from_option].
        rewrite list_lookup_alter_eq, Hp. done.
  - change (fold_right _ ∅ entries) with (list_to_map entries : gmap Z Z). rewrite lookup_insert_ne by done.
    apply (IH (place l (id0, addr)) id i r size); rewrite ?Hr', ?Hs'; try done.
    unfold place. destruct (addr =? 0); [done|]. destruct (ranges l !! id0) as [j|] eqn:Ej; [|done]. cbn [page_ranges].
    rewrite list_lookup_alter_ne; [done|]. intros ->. by apply Hne, Hinj.
Qed.

(** ** The snapshot *)

Section main.
Context (can_open : string -> bool) (can_resize can_map : string -> Z -> bool).
Context (GetArchName : string -> ArchName) (arch_name_of : ArchName -> string) (GetOSName : OSName -> string).
Context (arch_supported : OSName -> ArchName -> bool) (can_save : LoadedProgram -> bool).
#[local] Abbreviation Load_main :=
  (Load_main can_open can_resize can_map GetArchName GetOSName arch_supported can_save).

(** An object file for which the loader has everything it needs. *)
Record loads_ok (obj : ObjectFile) (flags_arch flags_os : string) (arch : ArchName) (os : OSName) : Prop := {
  ld_arch : infer_arch GetArchName (obj_arch obj) flags_arch = Some arch;
  ld_os : infer_os GetOSName (obj_format obj) flags_os = Some os;
  ld_supported : arch_supported os arch = true;
  ld_loads : obj_loads obj = Loaded;
  ld_sections : Forall section_ok (obj_sections obj);
  ld_ids : NoDup (sec_id <$> obj_sections obj);
  ld_maps : Forall (host_maps can_open can_resize can_map) (obj_sections obj);
  ld_contents : Forall (fun s => Z.of_nat (length (obj_contents obj (sec_id s))) <= sec_size s) (obj_sections obj);
  ld_addrs : NoDup (fst <$> obj_load_addrs obj);
  ld_saves p : can_save p = true
}.

(** The range a section gets in the snapshot. *)
Definition final_range (obj : ObjectFile) (s : LoadSection) : LoadedRange :=
  match bounds_of (obj_load_addrs obj) (sec_id s) (round_size (sec_size s)) with
  | Some b => set_bounds (range_of s) b
  | None => range_of s
  end.

Lemma ranges_placed obj flags_arch flags_os arch os :
  loads_ok obj flags_arch flags_os arch os ->
  page_ranges (fold_left place (obj_load_addrs obj) (fold_left allocated (obj_sections obj) Loader_new)) =
  final_range obj <$> obj_sections obj.
Proof.
  intros Hok. pose proof (files_distinct _ (ld_sections _ _ _ _ _ Hok) (ld_ids _ _ _ _ _ Hok)) as Hf.
  set (l := fold_left allocated (obj_sections obj) Loader_new).
  assert (Hlen : forall entries l, length (page_ranges (fold_left place entries l)) = length (page_ranges l)).
  { induction entries as [|[id a] entries IH]; intros l0; [done|]. cbn [fold_left]. rewrite IH. unfold place.
    destruct (a =? 0); [done|]. destruct (ranges l0 !! id); [|done]. apply length_alter. }
  apply list_eq. intros i. rewrite list_lookup_fmap. destruct (obj_sections obj !! i) as [s|] eqn:Ei; cbn [fmap option_fmap option_map].
  - destruct (allocated_lookup (obj_sections obj) Loader_new i s (ld_ids _ _ _ _ _ Hok) Hf Ei) as (H1 & H2 & _).
    rewrite (place_all_spec (obj_load_addrs obj) l (sec_id s) i (range_of s) (round_size (sec_size s))); try done.
    + by apply ld_addrs in Hok.
    + intros id' Hid'. destruct (decide (id' ∈ (sec_id <$> obj_sections obj))) as [Hin|Hout].
      * apply list_elem_of_fmap in Hin as (s' & -> & Hs'). apply list_elem_of_lookup_1 in Hs' as [j Hj].
        destruct (allocated_lookup (obj_sections obj) Loader_new j s' (ld_ids _ _ _ _ _ Hok) Hf Hj) as (H3 & _).
        unfold l in Hid'. rewrite Hid' in H3. injection H3 as H3. cbn in H3. subst j. by rewrite Hj in Ei; injection Ei as ->.
      * unfold l in Hid'. by rewrite (proj1 (allocated_other _ _ Loader_new Hout)) in Hid'.
    + unfold l. rewrite allocated_ranges. cbn [Loader_new page_ranges app]. by rewrite list_lookup_fmap, Ei.
  - apply lookup_ge_None. rewrite Hlen. unfold l. rewrite allocated_ranges. cbn [Loader_new page_ranges app]. rewrite length_fmap.
    by apply lookup_ge_None.
Qed.

Lemma Load_main_run binary flags_arch flags_os obj arch os :
  binary <> "" -> loads_ok obj flags_arch flags_os arch os ->
  exists files, Load_main binary flags_arch flags_os (Some obj) =
      Ok (Some (MkLoadedProgram arch os (final_range obj <$> obj_sections obj), files)) /\
    Forall (fun s => files !! file_of s = Some (file_bytes s (obj_contents obj (sec_id s)))) (obj_sections obj).
Proof.
  intros Hb Hok. pose proof (files_distinct _ (ld_sections _ _ _ _ _ Hok) (ld_ids _ _ _ _ _ Hok)) as Hf.
  destruct (fill_all_spec (obj_sections obj) (obj_contents obj)
    (section_files (fold_left allocated (obj_sections obj) Loader_new)) Hf) as (files & Hfill & Hfiles).
  { rewrite Forall_forall. intros s Hs. split.
    - pose proof (ld_contents _ _ _ _ _ Hok) as Hc. pose proof (ld_sections _ _ _ _ _ Hok) as Hk. rewrite Forall_forall in Hc, Hk.
      specialize (Hc s Hs). pose proof (round_size_spec _ (sk_size _ (Hk s Hs))). lia.
    - apply list_elem_of_lookup_1 in Hs as [i Hi]. by apply (allocated_lookup _ _ i s (ld_ids _ _ _ _ _ Hok) Hf Hi). }
  exists files. split; [|done]. unfold LoadBinary.Load_main. rewrite bool_decide_false by done.
  rewrite (ld_arch _ _ _ _ _ Hok), (ld_os _ _ _ _ _ Hok), (ld_supported _ _ _ _ _ Hok). cbn [negb]. unfold load_object.
  rewrite (allocate_all_run _ _ _ _ _ (ld_maps _ _ _ _ _ Hok)). cbn [mbind outcome_bind].
  rewrite (ld_loads _ _ _ _ _ Hok). rewrite Hfill. cbn [mbind outcome_bind].
  rewrite (ranges_placed _ _ _ _ _ Hok), (ld_saves _ _ _ _ _ Hok). done.
Qed.

(** A section as the snapshot describes it: the bytes of its file are its
    contents, zeroes fill the last page, and nobody may write to code. *)
Record described (obj : ObjectFile) (files : gmap string (list Z)) (s : LoadSection) (r : PageRange) : Prop := {
  de_base : (sec_id s, pr_base r) ∈ obj_load_addrs obj;
  de_limit : pr_limit r - pr_base r = round_size (sec_size s);
  de_file : files !! pr_name r = Some (file_bytes s (obj_contents obj (sec_id s)));
  de_size : Z.of_nat (length (default [] (files !! pr_name r))) = pr_limit r - pr_base r;
  de_read : pr_can_read r = true;
  de_write : pr_can_write r = negb (sec_code s) && negb (sec_read_only s);
  de_exec : pr_can_exec r = sec_code s;
  de_kind : pr_kind r = kAnonymousPageRange
}.

Lemma placed_described obj flags_arch flags_os arch os files s addr :
  loads_ok obj flags_arch flags_os arch os -> s ∈ obj_sections obj ->
  files !! file_of s = Some (file_bytes s (obj_contents obj (sec_id s))) ->
  (sec_id s, addr) ∈ obj_load_addrs obj -> 0 < addr < 2 ^ 63 ->
  exists r, complete_range (final_range obj s) = Some r /\ described obj files s r.
Proof.
  intros Hok Hs Hfile Haddr Ha. unfold final_range, bounds_of.
  rewrite (elem_of_list_to_map_1 (obj_load_addrs obj) (sec_id s) addr (ld_addrs _ _ _ _ _ Hok) Haddr).
  destruct (Z.eqb_spec addr 0); [lia|].
  assert (Hi : int64 addr = addr).
  { unfold int64, to_signed. rewrite Z.mod_small by lia. change (2 ^ (64 - 1)) with (2 ^ 63).
    destruct (Z.ltb_spec addr (2 ^ 63)); [done|lia]. }
  rewrite Hi. eexists. split; [done|].
  pose proof (ld_contents _ _ _ _ _ Hok) as Hc. pose proof (ld_sections _ _ _ _ _ Hok) as Hk. rewrite Forall_forall in Hc, Hk.
  specialize (Hc s Hs). cbn beta in Hc. pose proof (round_size_spec _ (sk_size _ (Hk s Hs))) as [Hr _]. pose proof (sk_size _ (Hk s Hs)).
  split; cbn [pr_base pr_limit pr_name pr_can_read pr_can_write pr_can_exec pr_kind lr_name range_of set_bounds]; try done; [lia|].
  rewrite Hfile. cbn [from_option id]. unfold file_bytes. rewrite length_app, length_replicate. lia.
Qed.


(** A section that LLVM does not place (its load address is 0) leaves a page
    range without bounds: the snapshot is written, but cannot be read back. *)
Theorem unplaced_section_spoils_snapshot binary flags_arch flags_os obj arch os s :
  binary <> "" -> loads_ok obj flags_arch flags_os arch os ->
  s ∈ obj_sections obj -> (sec_id s, 0) ∈ obj_load_addrs obj ->
  exists p files, Load_main binary flags_arch flags_os (Some obj) = Ok (Some (p, files)) /\
    parsed arch_name_of GetOSName p = None.
Proof.
  intros Hb Hok Hs H0. destruct (Load_main_run binary _ _ _ _ _ Hb Hok) as (files & Hrun & _).
  eexists _, files. split; [exact Hrun|]. unfold parsed. cbn [lp_ranges].
  destruct (mapM complete_range _) as [l|] eqn:E; [|done]. exfalso. apply mapM_Some_1 in E.
  apply list_elem_of_lookup_1 in Hs as [i Hi].
  assert (Hr : (final_range obj <$> obj_sections obj) !! i = Some (final_range obj s)) by (by rewrite list_lookup_fmap, Hi).
  destruct (Forall2_lookup_l _ _ _ _ _ E Hr) as (r & _ & Hc). unfold final_range, bounds_of in Hc.
  by rewrite (elem_of_list_to_map_1 (obj_load_addrs obj) (sec_id s) 0 (ld_addrs _ _ _ _ _ Hok) H0) in Hc.
Qed.
End main.

(** ** Instances *)

(** Nothing separates the number of a section from its name: two sections can
    share a file. *)
Example section_files_collide : section_file 1 "2.text" = section_file 12 ".text".
Proof. vm_compute. reflexivity. Qed.

Definition demo_object : ObjectFile :=
  MkObjectFile Triple_x86_64 ELF [MkLoadSection 0 ".text" 3 true true; MkLoadSection 1 ".data" 8192 false false] Loaded
    (fun id => if id =? 0 then [144; 144; 195] else [7]) [(0, 4194304); (1, 8388608)].

