(* ===== verification/VxWorks.v ===== *)
(** * The VxWorks runtime

    Models [vmill/Runtime/VxWorks/Run.cpp], a runtime with one task, the
    hypercalls of [vmill/Runtime/VxWorks/X86.cpp], and the trace of registers
    of [vmill/Runtime/Generic/X86.cpp]. *)

From S2P Require Import Prelude GuestMemory LinuxTasks SystemCalls ArchAbi Tasks.

Local Abbreviation ptr := positive.

(** ** The task *)

(** [Task] with the members the runtime fills in, as objects of a store, and
    the variable [gTask]. *)
Record VxTask {St : Type} := MkVxTask { vx_base : Task; vx_state : St; vx_memory : positive }.
Arguments VxTask : clear implicits.
Arguments MkVxTask {St}.

Record VxOS {St : Type} := MkVxOS { gTask : option ptr; vx_tasks : gmap ptr (VxTask St); vx_next : ptr }.
Arguments VxOS : clear implicits.
Arguments MkVxOS {St}.

Section runtime.
Context {St : Type}.
Implicit Types (o : VxOS St) (t : VxTask St).

Definition vx_init o : VxOS St := o.

Definition vx_fini o : VxOS St :=
  match gTask o with
  | Some p => MkVxOS None (delete p (vx_tasks o)) (vx_next o)
  | None => o
  end.

(** [__vmill_init_task] *)
Definition vx_init_task (s : St) (pc : Z) (memory : positive) : VxTask St :=
  MkVxTask (MkTask pc kTaskStatusRunnable kTaskStatusRunnable kTaskNotYetStarted 0 no_fault) s memory.

(** A new task takes the place of the one before. *)
Definition vx_create_task o (s : St) (pc : Z) (memory : positive) : ptr * VxOS St :=
  let p := vx_next o in
  (p, MkVxOS (Some p) (<[p := vx_init_task s pc memory]> (vx_tasks o)) (Pos.succ p)).

Definition vx_live t : bool :=
  match status (vx_base t) with kTaskStatusRunnable | kTaskStatusResumable => true | _ => false end.

(** [__vmill_resume]; [run] is [__vmill_run]. *)
Section resume.
Context (run : VxOS St -> ptr -> outcome (VxOS St)).

Fixpoint vx_resume (fuel : nat) o : outcome (VxOS St) :=
  match fuel with
  | O => Diverges
  | S fuel =>
      p ← deref_opt (gTask o);
      t ← deref_opt (vx_tasks o !! p);
      if vx_live t then o ← run o p; vx_resume fuel o else Ok o
  end.

(** Running a task changes that task only. *)
Definition run_frame : Prop :=
  forall o p o', run o p = Ok o' -> gTask o' = gTask o /\ forall q, q <> p -> vx_tasks o' !! q = vx_tasks o !! q.

(** Only the task created last runs: every other task is found in the end as
    it was, however long the runtime goes on. *)
Theorem vx_resume_runs_last_task fuel o o' q :
  run_frame -> gTask o <> Some q -> vx_resume fuel o = Ok o' -> vx_tasks o' !! q = vx_tasks o !! q.
Proof.
  intros Hf. revert o. induction fuel as [|fuel IH]; intros o Hq H; [done|]. cbn [vx_resume] in H.
  destruct (gTask o) as [p|] eqn:Ep; [|done]. cbn [deref_opt mbind outcome_bind] in H.
  destruct (vx_tasks o !! p) as [t|]; [|done]. cbn [deref_opt mbind outcome_bind] in H.
  destruct (vx_live t); [|by injection H as <-]. destruct (run o p) as [o1| | |] eqn:Er; try done. cbn [mbind outcome_bind] in H.
  destruct (Hf o p o1 Er) as [Hg Ho]. rewrite (IH o1); [|by rewrite Hg, Ep|done]. apply Ho. congruence.
Qed.

(** The runtime returns once its task is no longer live: when some number of
    runs brings it there, one more round than that is enough. *)
Fixpoint vx_runs (n : nat) o p : outcome (VxOS St) :=
  match n with O => Ok o | S n => o ← run o p; vx_runs n o p end.

Definition vx_stopped o p : Prop := exists t, vx_tasks o !! p = Some t /\ vx_live t = false.

Theorem vx_resume_stops n o p o' :
  run_frame -> gTask o = Some p -> vx_runs n o p = Ok o' -> vx_stopped o' p ->
  (forall m o1, (m < n)%nat -> vx_runs m o p = Ok o1 -> exists t, vx_tasks o1 !! p = Some t /\ vx_live t = true) ->
  vx_resume (S n) o = Ok o'.
Proof.
  intros Hf. revert o. induction n as [|n IH]; intros o Hg Hr Hs Hl.
  - cbn in Hr. injection Hr as <-. destruct Hs as (t & Ht & Hlive). cbn [vx_resume]. rewrite Hg. cbn. rewrite Ht. cbn. by rewrite Hlive.
  - cbn [vx_runs] in Hr. destruct (run o p) as [o1| | |] eqn:Er; try done. cbn [mbind outcome_bind] in Hr.
    destruct (Hl O o) as (t & Ht & Hlive); [lia|done|]. remember (S n) as k. cbn [vx_resume]. rewrite Hg. cbn [deref_opt mbind outcome_bind].
    rewrite Ht. cbn [deref_opt mbind outcome_bind]. rewrite Hlive, Er. cbn [mbind outcome_bind]. subst k.
    destruct (Hf o p o1 Er) as [Hg1 _]. apply IH; [by rewrite Hg1|done|done|].
    intros m o2 Hm H2. apply (Hl (S m) o2); [lia|]. cbn [vx_runs]. by rewrite Er.
Qed.
End resume.

(** Without a task the runtime follows a null pointer. *)
Theorem vx_resume_without_task run fuel : vx_resume run (S fuel) (MkVxOS None ∅ 1%positive) = Undefined.
Proof. done. Qed.

(** Of several tasks only the last is deleted. *)
Theorem vx_fini_leaks s1 pc1 m1 s2 pc2 m2 o :
  let o2 := snd (vx_create_task (snd (vx_create_task o s1 pc1 m1)) s2 pc2 m2) in
  vx_tasks (vx_fini o2) !! vx_next o = Some (vx_init_task s1 pc1 m1).
Proof.
  cbn. rewrite lookup_delete_ne by lia. rewrite lookup_insert_ne by lia.
  apply lookup_insert_eq.
Qed.
End runtime.

(** ** System call conventions *)

(** The runtime repeats the three conventions of the Linux runtime. *)
Definition Vx_X86Int0x80SystemCall {M} : SystemCallABI M X86State := X86Int0x80SystemCall.
Definition Vx_X86SysEnter32SystemCall {M} `{MemoryOps M} : SystemCallABI M X86State := X86SysEnter32SystemCall.

(** ** Input and output ports *)

(** [__remill_read_io_port_*] and [__remill_write_io_port_*] report only. *)
Definition vx_read_io_port (port : Z) : Z := 0.
Definition vx_write_io_port {M} (memory : M) (port val : Z) : M := memory.

(** ** Hypercalls *)

Inductive VxAsyncCall := VxSysEnter | VxIntN | VxSysCall | VxIRet | VxOtherAsync.

(** [__remill_async_hyper_call]: the task, and whether memory is returned; the
    alternative is a null pointer. *)
Definition vx_async_hyper_call (t : Task) (call : VxAsyncCall) (ret_addr : Z) : Task * bool :=
  match call with
  | VxSysEnter | VxIntN | VxSysCall => (t, false)
  | VxIRet => (vmill_set_location t ret_addr kTaskStoppedAtReturnTarget, true)
  | VxOtherAsync => (vmill_set_location t ret_addr kTaskStoppedBeforeUnhandledHyperCall, false)
  end.

Inductive VxSyncCall :=
| VxAssertPrivileged
| VxSetSegment (g : Seg)
| VxCPUID
| VxReadTSC
| VxReadTSCP
| VxLoadDescriptorTable
| VxWriteBackInvalidate
| VxReadMSR
| VxWriteMSR
| VxSetDebugReg
| VxSetControlReg
| VxEmulateInstruction
| VxOtherSync.

(** The call returns, the task yields and then stops the process if it is
    ever resumed, or the process stops. *)
Inductive VxSyncResult := SyncDone (s : X86State) | SyncYield (t : Task) | SyncAbort.

Definition set_regs (rs : list (X86Reg * Z)) (s : X86State) : X86State := foldl (fun s e => set_reg s (fst e) (snd e)) s rs.

(** [kX86EmulateInstruction], [kAMD64EmulateInstruction]. *)
Definition vx_emulate_instruction (t : Task) (s : X86State) : VxSyncResult :=
  SyncYield (vmill_set_location t (gpr s RIP) kTaskStoppedAtUnsupportedInstruction).

(** The calls that are only reported after the time stamp counter:
    descriptor tables, model specific, debug and control registers. *)
Definition vx_reports (call : VxSyncCall) : bool :=
  match call with
  | VxLoadDescriptorTable | VxWriteBackInvalidate | VxWriteMSR | VxSetDebugReg | VxSetControlReg => true
  | _ => false
  end.

(** [__remill_sync_hyper_call]; [tsc] are the values of [rdtsc] or [rdtscp] in
    [eax], [ecx] and [edx]. *)
Definition vx_sync_hyper_call (tsc : Z * Z * Z) (t : Task) (s : X86State) (call : VxSyncCall) : VxSyncResult :=
  let '(eax, ecx, edx) := tsc in
  match call with
  | VxCPUID => SyncDone (set_regs [(RAX, 0); (RBX, 0); (RCX, 0); (RDX, 0)] s)
  | VxReadTSC => SyncDone (set_regs [(RAX, wrap32 eax); (RDX, wrap32 edx)] s)
  | VxReadTSCP => SyncDone (set_regs [(RAX, wrap32 eax); (RCX, wrap32 ecx); (RDX, wrap32 edx)] s)
  | VxReadMSR => SyncDone (set_regs [(RAX, 0); (RDX, 0)] s)
  | VxAssertPrivileged | VxSetSegment _ => SyncDone s
  | VxEmulateInstruction => vx_emulate_instruction t s
  | _ => if vx_reports call then SyncDone s else SyncAbort
  end.

(** Hypercalls touch the four result registers at most, and never the program
    counter or the segments. *)
Theorem vx_sync_preserves tsc t s call s' :
  vx_sync_hyper_call tsc t s call = SyncDone s' ->
  (forall r, r ∉ [RAX; RBX; RCX; RDX] -> gpr s' r = gpr s r) /\ seg_index s' = seg_index s /\ seg_base s' = seg_base s.
Proof.
  destruct tsc as [[eax ecx] edx]. intros H.
  assert (Hset : forall rs, Forall (fun e => fst e ∈ [RAX; RBX; RCX; RDX]) rs ->
    forall s, (forall r, r ∉ [RAX; RBX; RCX; RDX] -> gpr (set_regs rs s) r = gpr s r) /\
      seg_index (set_regs rs s) = seg_index s /\ seg_base (set_regs rs s) = seg_base s).
  { induction rs as [|[r v] rs IH]; intros Hf s0; [done|]. apply Forall_cons in Hf as [Hr Hf]. cbn [set_regs foldl fst snd].
    destruct (IH Hf (set_reg s0 r v)) as (H1 & H2 & H3). unfold set_regs in *. split; [|by rewrite H2, H3].
    intros r' Hr'. rewrite H1 by done. cbn. rewrite decide_False; [done|]. intros ->. by apply Hr'. }
  destruct call; cbn [vx_sync_hyper_call] in H; try done; try (by injection H as <-);
    (match type of H with SyncDone ?x = _ => assert (Hs : s' = x) by congruence end); rewrite Hs; apply Hset; repeat constructor; cbn [fst]; set_solver.
Qed.

(** An emulation request stops the task for good; a system call leaves no
    trace in the task: it goes on with a null memory pointer. *)
Theorem vx_unsupported_stops tsc t s :
  exists t', vx_sync_hyper_call tsc t s VxEmulateInstruction = SyncYield t' /\ status t' = kTaskStatusError /\
    status_on_resume t' = kTaskStatusError /\ pc t' = gpr s RIP.
Proof. destruct tsc as [[eax ecx] edx]. by eexists. Qed.

Theorem vx_system_call_unnoticed t call ret_addr :
  call = VxSysEnter \/ call = VxIntN \/ call = VxSysCall -> vx_async_hyper_call t call ret_addr = (t, false).
Proof. by intros [-> | [-> | ->]]. Qed.

(** ** The trace of registers *)

Definition kNumEntries : Z := 4096.
Definition traced : list X86Reg := [RIP; RAX; RBX; RCX; RDX; RSI; RDI; RBP; RSP].

(** The counter and the table. *)
Definition RegTrace : Type := Z * gmap Z (list Z).

Definition vmill_breakpoint (trace : RegTrace) (s : X86State) : RegTrace :=
  let '(n, table) := trace in
  (add64 n 1, <[n mod kNumEntries := gpr s <$> traced]> table).

(** The table holds the registers of the last breakpoints: of all breakpoints
    hit so far, the last one whose number leaves the remainder of the slot. *)
Theorem breakpoints_keep_last (states : list X86State) i s :
  Z.of_nat (length states) < two64 -> states !! i = Some s -> (length states - i <= 4096)%nat ->
  snd (foldl vmill_breakpoint (0, ∅) states) !! (Z.of_nat i mod kNumEntries) = Some (gpr s <$> traced).
Proof.
  assert (Hcount : forall l, Z.of_nat (length l) < two64 -> fst (foldl vmill_breakpoint (0, ∅) l) = Z.of_nat (length l)).
  { induction l as [|x l IH] using rev_ind; intros Hl; [done|]. rewrite foldl_app, length_app in *. cbn [foldl length] in *.
    destruct (foldl vmill_breakpoint (0, ∅) l) as [n table]. cbn [vmill_breakpoint fst] in *. rewrite IH by lia.
    rewrite add64_small; lia. }
  induction states as [|x states IH] using rev_ind; intros Hl Hi Hlen; [done|].
  rewrite length_app in *. cbn [length] in *. rewrite foldl_app. cbn [foldl].
  pose proof (Hcount states ltac:(lia)) as Hn. destruct (foldl vmill_breakpoint (0, ∅) states) as [n table] eqn:E.
  cbn [vmill_breakpoint snd fst] in *. subst n. unfold kNumEntries in *.
  destruct (decide (i = length states)) as [->|Hne].
  - rewrite list_lookup_middle in Hi by done. injection Hi as <-. by rewrite lookup_insert_eq.
  - pose proof (lookup_lt_Some _ _ _ Hi) as Hlt. rewrite length_app in Hlt. cbn [length] in Hlt.
    rewrite lookup_app_l in Hi by lia. rewrite lookup_insert_ne; [apply IH; [lia|done|lia]|].
    intros Heq. pose proof (Z.div_mod (Z.of_nat i) 4096). pose proof (Z.div_mod (Z.of_nat (length states)) 4096). lia.
Qed.

(** ** The QEMU runtime

    [vmill/Runtime/qemu_x86.cpp]: a runtime with one task, as that of
    VxWorks, which runs the main function of QEMU when it is set up and shuts
    QEMU down when it is torn down.  QEMU is a parameter. *)

Module Qemu.
Local Abbreviation ptr := positive.

Definition qemu_argv : list string :=
  ["qemu-system-i386"; "-net"; "nic,macaddr=0:0:e8:1:2:3,model=i82551"; "-drive";
   "if=floppy,format=raw,file=/home/pag/shared/ReadStdin/floppy.i386.img"; "--cpu"; "pentium3"; "-serial"; "stdio";
   "-enable-kvm"].

Section qemu.
Context {St QEMU : Type}.
(** [main(argc, argv, envp)] and [qemu_shutdown()]. *)
Context (main : Z -> list string -> list string -> QEMU -> QEMU) (qemu_shutdown : QEMU -> QEMU).
Implicit Types (o : VxOS St) (q : QEMU).

Definition qemu_init o q : VxOS St * QEMU := (o, main 10 qemu_argv [] q).

Definition qemu_fini o q : VxOS St * QEMU := (vx_fini o, qemu_shutdown q).

Definition qemu_create_task o (s : St) (pc : Z) (memory : positive) : ptr * VxOS St := vx_create_task o s pc memory.

(** [__vmill_resume]; a task that is not live is reported. *)
Definition qemu_resume (run : VxOS St -> ptr -> outcome (VxOS St)) (fuel : nat) o : outcome (VxOS St) :=
  vx_resume run fuel o.

(** QEMU's main function gets as many arguments as it is told, and has
    returned before the first task is created. *)
Lemma qemu_init_arguments o q :
  qemu_init o q = (o, main (Z.of_nat (length qemu_argv)) qemu_argv [] q).
Proof. done. Qed.

(** A run with one task: it is created, runs until it stops, and is gone
    before QEMU shuts down. *)
Theorem qemu_one_task run n s pc memory o' q :
  let o := MkVxOS None ∅ 1%positive in
  let '(o1, q1) := qemu_init o q in
  let '(p, o2) := qemu_create_task o1 s pc memory in
  run_frame run -> vx_runs run n o2 p = Ok o' -> vx_stopped o' p ->
  (forall m o3, (m < n)%nat -> vx_runs run m o2 p = Ok o3 -> exists t, vx_tasks o3 !! p = Some t /\ vx_live t = true) ->
  qemu_resume run (S n) o2 = Ok o' /\
  (gTask o' = Some p -> vx_tasks (fst (qemu_fini o' q1)) !! p = None /\ gTask (fst (qemu_fini o' q1)) = None).
Proof.
  cbv beta iota zeta delta [qemu_init qemu_create_task vx_create_task vx_next]. intros Hf Hr Hs Hl. split.
  - by apply (vx_resume_stops run n _ 1%positive o').
  - intros Hg. unfold qemu_fini, vx_fini. rewrite Hg. cbn. split; [apply lookup_delete_eq|done].
Qed.
End qemu.
End Qemu.
