(* ===== verification/KVM.v ===== *)
(** * The KVM tool

    Models [tools/KVM/KVM.cpp]: an emulation of [/dev/kvm] in front of the
    host's [open], [close] and [ioctl].  An emulator is owned by the table of
    emulators and a virtual machine by its emulator; the table of virtual
    machines refers to them weakly. *)

From S2P Require Import Prelude.

(** ** State *)

(** The weak pointer to the emulator and the descriptor of a machine are
    never filled in by the code; [vm_id] tells machines apart. *)
Record VM := MkVM { vm_id : Z; vm_emulator : option Z; vm_fd : Z; tss_addr : Z }.
Record Emulator := MkEmulator { emu_fd : Z; vms : gmap Z VM }.

(** A weak pointer to a machine: where it lives and which one it is. *)
Record WeakVM := MkWeakVM { weak_emu : Z; weak_fd : Z; weak_id : Z }.

(** [gEmus] and [gVMs]; a null pointer stays in a table when its descriptor
    is closed. *)
Record Kvm := MkKvm {
  gEmus : gmap Z (option Emulator);
  gVMs : gmap Z (option WeakVM);
  next_id : Z
}.
Definition Kvm_new : Kvm := MkKvm ∅ ∅ 0.

Definition count {A} (m : gmap Z A) (fd : Z) : bool := bool_decide (is_Some (m !! fd)).
Definition set_emu (k : Kvm) (fd : Z) (e : option Emulator) : Kvm := MkKvm (<[fd := e]> (gEmus k)) (gVMs k) (next_id k).
Definition set_weak (k : Kvm) (fd : Z) (v : option WeakVM) : Kvm := MkKvm (gEmus k) (<[fd := v]> (gVMs k)) (next_id k).

(** [weak_ptr::lock] *)
Definition lock (k : Kvm) (w : option WeakVM) : option VM :=
  w ← w;
  e ← mjoin (gEmus k !! weak_emu w);
  vm ← vms e !! weak_fd w;
  if vm_id vm =? weak_id w then Some vm else None.

(** ** Calls

    Descriptors the host's [dup] returns are arguments, [None] its failure. *)

Definition CreateEmulator (k : Kvm) (dup : option Z) : Z * Kvm :=
  match dup with
  | Some fd => (fd, set_emu k fd (Some (MkEmulator fd ∅)))
  | None => (-1, k)
  end.

Definition kvm_open (k : Kvm) (path : string) (dup : option Z) (host_open : Z) : Z * Kvm :=
  if bool_decide (path = "/dev/kvm") then CreateEmulator k dup else (host_open, k).

Definition kvm_close (k : Kvm) (fd host_close : Z) : Z * Kvm :=
  let k := if count (gEmus k) fd then set_emu k fd None else k in
  let k :=
    match gVMs k !! fd with
    | Some vm =>
        let k :=
          match lock k vm with
          | Some vm_ptr =>
              match vm_emulator vm_ptr with
              | Some emu =>
                  match mjoin (gEmus k !! emu) with
                  | Some emu_ptr => set_emu k emu (Some (MkEmulator (emu_fd emu_ptr) (delete (vm_fd vm_ptr) (vms emu_ptr))))
                  | None => k
                  end
              | None => k
              end
          | None => k
          end in
        set_weak k fd None
    | None => k
    end in
  (host_close, k).

Definition KVM_GET_API_VERSION : Z := 44544.
Definition KVM_CREATE_VM : Z := 44545.
Definition KVM_GET_MSR_INDEX_LIST : Z := 3221532162.
Definition KVM_CHECK_EXTENSION : Z := 44547.
Definition KVM_SET_TSS_ADDR : Z := 44615.
Definition KVM_IOEVENTFD : Z := 1077980793.

Definition KVM_CAP_USER_MEMORY : Z := 3.
Definition KVM_CAP_SET_TSS_ADDR : Z := 4.
Definition KVM_CAP_EXT_CPUID : Z := 7.
Definition KVM_CAP_NR_VCPUS : Z := 9.
Definition KVM_CAP_MP_STATE : Z := 14.
Definition KVM_CAP_DESTROY_MEMORY_REGION_WORKS : Z := 21.
Definition KVM_CAP_JOIN_MEMORY_REGIONS_WORKS : Z := 30.
Definition KVM_CAP_MAX_VCPUS : Z := 66.

Definition CheckEmuExtension (ext : Z) : Z :=
  if bool_decide (ext ∈ [KVM_CAP_DESTROY_MEMORY_REGION_WORKS; KVM_CAP_JOIN_MEMORY_REGIONS_WORKS; KVM_CAP_USER_MEMORY;
                         KVM_CAP_SET_TSS_ADDR; KVM_CAP_EXT_CPUID; KVM_CAP_MP_STATE])
  then 1 else -1.

Definition CheckVMExtension (ext : Z) : Z :=
  if ext =? KVM_CAP_NR_VCPUS then 1 else if ext =? KVM_CAP_MAX_VCPUS then 256 else -1.

(** A machine that had the same descriptor is released. *)
Definition CreateVM (k : Kvm) (fd : Z) (dup : option Z) : outcome (Z * Kvm) :=
  match gEmus k !! fd with
  | None => Ok (-1, k)
  | Some emu =>
      match dup, emu with
      | Some vm_fd, Some emu =>
          let id := next_id k in
          let emu := MkEmulator (emu_fd emu) (<[vm_fd := MkVM id None 0 0]> (vms emu)) in
          Ok (vm_fd, MkKvm (<[fd := Some emu]> (gEmus k)) (<[vm_fd := Some (MkWeakVM fd vm_fd id)]> (gVMs k)) (id + 1))
      | Some vm_fd, None => Undefined
      | None, _ => Ok (-1, k)
      end
  end.

Definition gMSRsToSave : list Z := [372; 373; 374; 3221225601; 16; 631; 3221291287; 58; 3472; 3221225731; 72; 266].

(** [kvm_msr_list]: the number of indices and the indices. *)
Fixpoint copy_msrs (n : nat) (i : nat) : outcome (list Z) :=
  match n with
  | O => Ok []
  | S n => msr ← deref_opt (gMSRsToSave !! i); rest ← copy_msrs n (S i); Ok (msr :: rest)
  end.

Definition GetMSRIndexList (nmsrs : Z) (indices : list Z) : outcome (Z * list Z) :=
  if nmsrs =? 0 then Ok (Z.of_nat (length gMSRsToSave), indices)
  else msrs ← copy_msrs (Z.to_nat nmsrs) 0; Ok (nmsrs, msrs ++ drop (Z.to_nat nmsrs) indices).

(** The argument [b] of a call is a number or points to a list of MSRs. *)
Record IoctlArg := MkArg { arg_value : Z; arg_msrs : Z * list Z }.

Definition kvm_ioctl (k : Kvm) (fd a : Z) (b : IoctlArg) (dup : option Z) (host_ioctl : Z) :
    outcome (Z * Kvm * (Z * list Z)) :=
  let request := wrap32 a in
  let host := Ok (host_ioctl, k, arg_msrs b) in
  match gEmus k !! fd with
  | Some (Some _) =>
      if request =? KVM_GET_API_VERSION then Ok (12, k, arg_msrs b)
      else if request =? KVM_CHECK_EXTENSION then Ok (CheckEmuExtension (arg_value b), k, arg_msrs b)
      else if request =? KVM_CREATE_VM then r ← CreateVM k fd dup; Ok (r, arg_msrs b)
      else if request =? KVM_GET_MSR_INDEX_LIST then
        l ← GetMSRIndexList (fst (arg_msrs b)) (snd (arg_msrs b)); Ok (0, k, l)
      else host
  | Some None => host
  | None =>
      match lock k (mjoin (gVMs k !! fd)) with
      | Some vm =>
          if request =? KVM_CHECK_EXTENSION then Ok (CheckVMExtension (arg_value b), k, arg_msrs b)
          else if request =? KVM_SET_TSS_ADDR then
            match mjoin (gVMs k !! fd) with
            | Some w =>
                match mjoin (gEmus k !! weak_emu w) with
                | Some e =>
                    let vm := MkVM (vm_id vm) (vm_emulator vm) (vm_fd vm) (arg_value b) in
                    Ok (0, set_emu k (weak_emu w) (Some (MkEmulator (emu_fd e) (<[weak_fd w := vm]> (vms e)))), arg_msrs b)
                | None => host
                end
            | None => host
            end
          else if request =? KVM_IOEVENTFD then Ok (-1, k, arg_msrs b)
          else host
      | None => host
      end
  end.

(** ** Properties *)

(** The machine a descriptor stands for. *)
Definition vm_at (k : Kvm) (fd : Z) : option VM := lock k (mjoin (gVMs k !! fd)).

(** Opening the device and creating a machine gives a descriptor that keeps
    the address it is told, as long as neither descriptor is closed. *)
Theorem vm_keeps_tss_addr k fd vm_fd addr host msrs dup :
  gEmus k !! vm_fd = None -> vm_fd <> fd ->
  exists k1 k2 k3 vm,
    kvm_open k "/dev/kvm" (Some fd) host = (fd, k1) /\
    kvm_ioctl k1 fd KVM_CREATE_VM (MkArg 0 msrs) (Some vm_fd) host = Ok (vm_fd, k2, msrs) /\
    kvm_ioctl k2 vm_fd KVM_SET_TSS_ADDR (MkArg addr msrs) dup host = Ok (0, k3, msrs) /\
    vm_at k3 vm_fd = Some vm /\ tss_addr vm = addr.
Proof.
  intros Hnone Hne. eexists _, _, _, _. split; [reflexivity|]. split.
  { unfold kvm_ioctl. cbn [set_emu gEmus]. rewrite lookup_insert_eq.
    change (wrap32 KVM_CREATE_VM =? KVM_GET_API_VERSION) with false. change (wrap32 KVM_CREATE_VM =? KVM_CHECK_EXTENSION) with false.
    change (wrap32 KVM_CREATE_VM =? KVM_CREATE_VM) with true. cbn iota. unfold CreateVM. cbn [set_emu gEmus].
    rewrite lookup_insert_eq. reflexivity. }
  split.
  { unfold kvm_ioctl. cbn [gEmus set_emu]. rewrite lookup_insert_ne, lookup_insert_ne, Hnone by done.
    cbn [gVMs]. rewrite lookup_insert_eq. cbn [mjoin option_join]. unfold lock at 1. cbn [mbind option_bind weak_emu weak_fd weak_id gEmus].
    rewrite lookup_insert_eq. cbn [mjoin option_join mbind option_bind vms]. rewrite lookup_insert_eq.
    cbn [mbind option_bind vm_id]. rewrite Z.eqb_refl. change (wrap32 KVM_SET_TSS_ADDR =? KVM_CHECK_EXTENSION) with false.
    change (wrap32 KVM_SET_TSS_ADDR =? KVM_SET_TSS_ADDR) with true. cbn iota. reflexivity. }
  unfold vm_at, lock. cbn [gVMs gEmus set_emu]. rewrite lookup_insert_eq. cbn [mjoin option_join mbind option_bind weak_emu weak_fd weak_id].
  rewrite lookup_insert_eq. cbn [mjoin option_join mbind option_bind vms]. rewrite lookup_insert_eq.
  cbn [mbind option_bind vm_id]. rewrite Z.eqb_refl. by split.
Qed.

(** Closing an emulator releases its machines: their descriptors go to the
    host from then on. *)
Theorem closed_emulator_releases k fd vm_fd w host_close :
  is_Some (gEmus k !! fd) -> gVMs k !! vm_fd = Some (Some w) -> weak_emu w = fd -> vm_fd <> fd ->
  vm_at (snd (kvm_close k fd host_close)) vm_fd = None.
Proof.
  intros He Hw Hemu Hne. unfold kvm_close, count. rewrite bool_decide_true by done.
  assert (Hlock : forall k', mjoin (gEmus k' !! fd) = None -> gVMs k' !! vm_fd = Some (Some w) -> vm_at k' vm_fd = None).
  { intros k' H1 H2. unfold vm_at, lock. rewrite H2. cbn. rewrite Hemu. by rewrite H1. }
  cbn [snd]. assert (H0 : mjoin (gEmus (set_emu k fd None) !! fd) = None) by (cbn; by rewrite lookup_insert_eq).
  change (gVMs (set_emu k fd None) !! fd) with (gVMs k !! fd). destruct (gVMs k !! fd) as [vm|]; [|by apply Hlock].
  assert (Hkeep : forall k', gVMs k' = gVMs k -> gVMs (set_weak k' fd None) !! vm_fd = Some (Some w))
    by (intros k' Hk; cbn; rewrite lookup_insert_ne by done; by rewrite Hk).
  destruct (lock (set_emu k fd None) vm) as [vm_ptr|]; [|by apply Hlock, Hkeep].
  destruct (vm_emulator vm_ptr) as [emu|]; [|by apply Hlock, Hkeep].
  destruct (mjoin (gEmus (set_emu k fd None) !! emu)) as [e|] eqn:Ee; [|by apply Hlock, Hkeep].
  apply Hlock; [|by apply Hkeep]. cbn [set_weak set_emu gEmus]. cbn [set_emu gEmus] in Ee.
  rewrite lookup_insert_ne; [by rewrite lookup_insert_eq|]. intros ->. by rewrite lookup_insert_eq in Ee.
Qed.

(** The machines of the code never know their emulator. *)
Definition unlinked (k : Kvm) : Prop :=
  forall fd e vfd vm, gEmus k !! fd = Some (Some e) -> vms e !! vfd = Some vm -> vm_emulator vm = None.

(** Closing the descriptor of a machine does not release the machine: its
    emulator keeps it. *)
Theorem closed_vm_stays k fd w host_close :
  unlinked k -> gEmus k !! fd = None -> gVMs k !! fd = Some (Some w) ->
  gEmus (snd (kvm_close k fd host_close)) = gEmus k /\ vm_at (snd (kvm_close k fd host_close)) fd = None.
Proof.
  intros Hu He Hw. unfold kvm_close, count. rewrite He, bool_decide_false by (intros [? ?]; done). cbn [snd]. rewrite Hw.
  assert (Hk : match lock k (Some w) with
               | Some vm_ptr => match vm_emulator vm_ptr with
                   | Some emu => match mjoin (gEmus k !! emu) with
                       | Some emu_ptr => set_emu k emu (Some (MkEmulator (emu_fd emu_ptr) (delete (vm_fd vm_ptr) (vms emu_ptr))))
                       | None => k end
                   | None => k end
               | None => k end = k).
  { destruct (lock k (Some w)) as [vm|] eqn:El; [|done]. unfold lock in El. cbn in El.
    destruct (gEmus k !! weak_emu w) as [[e|]|] eqn:Ee; try done. cbn in El. destruct (vms e !! weak_fd w) as [v|] eqn:Ev; [|done].
    cbn in El. case_match; [|done]. injection El as <-. by rewrite (Hu _ _ _ _ Ee Ev). }
  rewrite Hk. split; [done|]. unfold vm_at. cbn [set_weak gVMs]. by rewrite lookup_insert_eq.
Qed.

(** A descriptor that once was an emulator never works as a machine: every
    call on it goes to the host. *)
Theorem reused_descriptor_not_emulated k fd a b dup host :
  gEmus k !! fd = Some None -> kvm_ioctl k fd a b dup host = Ok (host, k, arg_msrs b).
Proof. intros H. unfold kvm_ioctl. by rewrite H. Qed.

(** Asking for more MSRs than there are reads beyond the table. *)
Theorem msr_list_exact nmsrs indices :
  0 < nmsrs -> (nmsrs <= 12 -> exists l, GetMSRIndexList nmsrs indices = Ok (nmsrs, l)) /\
  (12 < nmsrs -> GetMSRIndexList nmsrs indices = Undefined).
Proof.
  assert (Hcopy : forall n i, (n + i <= 12)%nat -> exists l, copy_msrs n i = Ok l).
  { induction n as [|n IH]; intros i Hi; [by eexists|]. cbn [copy_msrs].
    destruct (lookup_lt_is_Some_2 gMSRsToSave i) as [x Hx]; [cbn; lia|]. rewrite Hx. cbn.
    destruct (IH (S i)) as [l Hl]; [lia|]. rewrite Hl. by eexists. }
  assert (Hover : forall n i, (i <= 12)%nat -> (12 < n + i)%nat -> copy_msrs n i = Undefined).
  { induction n as [|n IH]; intros i Hi Hn; [lia|]. cbn [copy_msrs]. destruct (decide (i = 12%nat)) as [->|Hne]; [done|].
    destruct (lookup_lt_is_Some_2 gMSRsToSave i) as [x Hx]; [cbn; lia|]. rewrite Hx. cbn. rewrite IH by lia. done. }
  intros Hn. unfold GetMSRIndexList. destruct (Z.eqb_spec nmsrs 0); [lia|]. split; intros Hle.
  - destruct (Hcopy (Z.to_nat nmsrs) 0%nat) as [l Hl]; [lia|]. rewrite Hl. by eexists.
  - by rewrite Hover by lia.
Qed.
