(* ===== verification/TraceIndex.v ===== *)
(** * The index of translations

    The lifter ends a module with one index entry per lifted function, in the
    section [.vindex] ([LiftTracesIntoModule] of [vmill/BC/Lifter.cpp]); the
    code cache reads the section back ([LoadIndex] of
    [vmill/Executor/CodeCache.cpp]).  This file says what bytes the entries
    are and that the cache finds in them what the lifter put there. *)

From S2P Require Import Prelude Allocators AllocatorProps Tools CodeCache CodeCacheProps Decoder Lifter.

(** ** Writing *)

(** A packed structure of the trace's identifier, itself packed, and the
    address of the function. *)
Definition trace_entry_bytes (trace_id : Z * Z) (func : Z) : list Z :=
  le_bytes 8 (fst trace_id) ++ le_bytes 8 (snd trace_id) ++ le_bytes 8 func.

(** The variables of the section, in some order, each aligned to 8 bytes. *)
Definition kIndexAlignment : nat := 8.
Definition place_variable (section : list Z) (var : list Z) : list Z :=
  section ++ replicate ((kIndexAlignment - length section mod kIndexAlignment) mod kIndexAlignment) 0 ++ var.

(** The index of the functions of a module at their [address]es; a function
    without a body is fatal. *)
Definition LiftTracesIntoModule (has_body : Lifted -> bool) (address : Lifted -> Z) (lifted_funcs : list Lifted) : outcome (list Z) :=
  check (forallb has_body lifted_funcs) ;;
  Ok (foldl place_variable [] ((fun f => trace_entry_bytes (lf_trace_id f) (address f)) <$> lifted_funcs)).

(** ** Reading *)

Section read.
(** The memory the JIT linker wrote the section to. *)
Context (byte_at : Z -> Z).

Definition bytes_at (a : Z) (n : nat) : list Z := (fun i => byte_at (a + Z.of_nat i)) <$> seq 0 n.

(** [base->trace_id.pc], [base->trace_id.hash] and [base->lifted_function]. *)
Definition entry_at (a : Z) : CacheIndexEntry :=
  MkIndexEntry (le_value (bytes_at a 8), le_value (bytes_at (a + 8) 8)) (le_value (bytes_at (a + 16) 8)).

Definition memory_holds (a : Z) (bs : list Z) : Prop := forall i b, bs !! i = Some b -> byte_at (a + Z.of_nat i) = b.

Lemma memory_holds_app a bs cs : memory_holds a (bs ++ cs) -> memory_holds a bs /\ memory_holds (a + Z.of_nat (length bs)) cs.
Proof.
  intros H. split; intros i b Hi.
  - apply H. rewrite lookup_app_l; [done|]. by eapply lookup_lt_Some.
  - rewrite <- (H (length bs + i)%nat b); [f_equal; lia|]. rewrite lookup_app_r by lia.
    by replace (length bs + i - length bs)%nat with i by lia.
Qed.

Lemma bytes_at_holds a bs : memory_holds a bs -> bytes_at a (length bs) = bs.
Proof.
  intros H. apply list_eq. intros i. unfold bytes_at. rewrite list_lookup_fmap. destruct (bs !! i) as [b|] eqn:Ei.
  - pose proof (lookup_lt_Some _ _ _ Ei). rewrite lookup_seq_lt by done. cbn. by rewrite (H i b Ei).
  - rewrite lookup_seq_ge; [done|]. by apply lookup_ge_None.
Qed.

Lemma read_word a v : u64 v -> memory_holds a (le_bytes 8 v) -> le_value (bytes_at a 8) = v.
Proof.
  intros Hv H. apply bytes_at_holds in H. rewrite length_le_bytes in H. rewrite H, le_value_le_bytes.
  apply Z.mod_small. exact Hv.
Qed.

(** An entry is read as it was written. *)
Lemma entry_at_written a trace_id func :
  u64 (fst trace_id) -> u64 (snd trace_id) -> u64 func -> memory_holds a (trace_entry_bytes trace_id func) ->
  entry_at a = MkIndexEntry trace_id func.
Proof.
  intros H1 H2 H3 H. unfold trace_entry_bytes in H. apply memory_holds_app in H as [Hpc H].
  apply memory_holds_app in H as [Hhash Hf]. rewrite !length_le_bytes in Hhash, Hf. unfold entry_at.
  rewrite (read_word a (fst trace_id)), (read_word (a + 8) (snd trace_id)) by done.
  rewrite (read_word (a + 16) func); [by destruct trace_id|done|]. by replace (a + 16) with (a + 8 + 8) by lia.
Qed.
End read.

(** ** The section *)

Definition entry_of (address : Lifted -> Z) (f : Lifted) : list Z := trace_entry_bytes (lf_trace_id f) (address f).

Lemma length_trace_entry id f : length (trace_entry_bytes id f) = 24%nat.
Proof. unfold trace_entry_bytes. by rewrite !length_app, !length_le_bytes. Qed.

Lemma length_entries address fs : length (concat (entry_of address <$> fs)) = (24 * length fs)%nat.
Proof.
  induction fs as [|f fs IH]; [done|]. cbn [fmap list_fmap concat]. rewrite length_app, IH. unfold entry_of.
  rewrite length_trace_entry. cbn [length]. lia.
Qed.

(** No padding is needed: the size of an entry is a multiple of its
    alignment. *)
Lemma index_section address fs :
  foldl place_variable [] (entry_of address <$> fs) = concat (entry_of address <$> fs).
Proof.
  induction fs as [|f fs IH] using rev_ind; [done|]. rewrite fmap_app, foldl_app, concat_app, IH. cbn [fmap list_fmap foldl concat].
  unfold place_variable. rewrite length_entries. unfold kIndexAlignment.
  replace ((24 * length fs) mod 8)%nat with 0%nat; [by rewrite app_nil_r|].
  replace (24 * length fs)%nat with ((3 * length fs) * 8)%nat by lia. by rewrite Nat.Div0.mod_mul.
Qed.

Section published.
Context (byte_at : Z -> Z) (address : Lifted -> Z).

Definition index_entry (f : Lifted) : CacheIndexEntry := MkIndexEntry (lf_trace_id f) (address f).

(** Identifiers and addresses are words. *)
Definition entry_words (f : Lifted) : Prop :=
  u64 (fst (lf_trace_id f)) /\ u64 (snd (lf_trace_id f)) /\ u64 (address f).

Lemma entries_read fs : forall a,
  Forall entry_words fs -> memory_holds byte_at a (concat (entry_of address <$> fs)) ->
  (fun i => entry_at byte_at (a + 24 * i)) <$> seqZ 0 (Z.of_nat (length fs)) = index_entry <$> fs.
Proof.
  induction fs as [|f fs IH]; intros a Hw Hm; [done|]. apply Forall_cons in Hw as [(H1 & H2 & H3) Hw].
  cbn [fmap list_fmap concat] in Hm. apply memory_holds_app in Hm as [Hf Hm]. unfold entry_of at 1 in Hm.
  rewrite length_trace_entry in Hm. cbn [length]. rewrite seqZ_cons by lia. rewrite !fmap_cons. f_equal.
  - rewrite Z.mul_0_r, Z.add_0_r. by apply entry_at_written.
  - rewrite <- (IH (a + 24)) by done. replace (Z.pred (Z.of_nat (S (length fs)))) with (Z.of_nat (length fs)) by lia.
    change (Z.succ 0) with (1 + 0). rewrite <- fmap_add_seqZ, <- list_fmap_compose. apply list_fmap_ext. intros _ i _. cbn [compose]. f_equal. lia.
Qed.

Lemma first_usable_found a fs f :
  NoDup (lf_trace_id <$> fs) -> f ∈ fs -> usable a (index_entry f) = true ->
  first_usable a (index_entry <$> fs) (lf_trace_id f) = address f.
Proof.
  induction fs as [|g fs IH]; intros Hn Hf Hu; [by apply not_elem_of_nil in Hf|]. cbn [fmap list_fmap] in *.
  rewrite first_usable_cons. apply NoDup_cons in Hn as [Hg Hn]. apply elem_of_cons in Hf as [->|Hf].
  - by rewrite decide_True.
  - rewrite decide_False; [by apply IH|]. intros [_ Heq]. cbn in Heq. apply Hg. rewrite Heq. by apply list_elem_of_fmap_2.
Qed.

(** C14: the code cache finds the translations the lifter made: reading the
    index section of a module of lifted functions with distinct identifiers,
    none for program counter 0, publishes every function that the linker
    placed in the code area and whose trace has no translation yet, under
    exactly the identifier of its trace, and reports success when the linker
    placed all of them there. *)
Theorem index_publishes_lifted {Mod Obj TS : Type} has_body fs section (c : @CodeCache Mod Obj TS) range :
  code_ok c -> LiftTracesIntoModule has_body address fs = Ok section ->
  NoDup (lf_trace_id <$> fs) -> Forall entry_words fs -> Forall (fun f => fst (lf_trace_id f) <> 0) fs ->
  memory_holds byte_at (mm_base range) section -> mm_size range = Z.of_nat (length section) ->
  exists c', LoadIndex (entry_at byte_at) c range =
      (forallb (fun f => AreaAllocator_Contains (code_allocator c) (address f)) fs, c') /\ code_ok c' /\
    (forall id, Lookup_trace c id <> 0 -> Lookup_trace c' id = Lookup_trace c id) /\
    forall f, f ∈ fs -> AreaAllocator_Contains (code_allocator c) (address f) = true -> Lookup_trace c (lf_trace_id f) = 0 ->
      Lookup_trace c' (lf_trace_id f) = address f.
Proof.
  intros Hok Hlift Hn Hw Hpc Hm Hsize. unfold LiftTracesIntoModule in Hlift. apply bind_ok in Hlift as (u & _ & [= <-]).
  fold (entry_of address) in Hm, Hsize. change (fun f => trace_entry_bytes (lf_trace_id f) (address f)) with (entry_of address) in *.
  rewrite index_section in *. rewrite length_entries in Hsize.
  destruct (LoadIndex_spec [204] ltac:(cbn; lia) (entry_at byte_at) c range Hok) as (f & Hload & Hok' & Hl).
  assert (Hes : section_entries (entry_at byte_at) sizeof_CacheIndexEntry range = index_entry <$> fs).
  { unfold section_entries. rewrite Hsize. unfold sizeof_CacheIndexEntry.
    replace (Z.of_nat (24 * length fs) / 24) with (Z.of_nat (length fs)); [by apply entries_read|].
    rewrite Nat2Z.inj_mul, Z.mul_comm. by rewrite Z.div_mul. }
  rewrite Hes in *. eexists. split; [rewrite Hload; f_equal|split; [exact Hok'|split]].
  - clear -Hpc. induction Hpc as [|g fs Hg _ IH]; [done|]. cbn [fmap list_fmap forallb]. rewrite IH. f_equal.
    unfold bad_entry. cbn. rewrite (proj2 (Z.eqb_neq _ _) Hg). cbn. by rewrite negb_involutive.
  - intros id Hid. rewrite Hl. by rewrite (proj2 (Z.eqb_neq _ _) Hid).
  - intros g Hg Hc H0. rewrite Hl, H0. cbn. apply first_usable_found; [done|done|]. unfold usable. cbn.
    rewrite Forall_forall in Hpc. rewrite (proj2 (Z.eqb_neq _ _) (Hpc g Hg)). done.
Qed.
End published.

(** ** Instance *)

(** Two translations in a code area of two pages, and an index at 1000. *)
Definition demo_lifted : list Lifted := [MkLifted (4096, 9) ∅; MkLifted (8192, 11) ∅].
Definition demo_address (f : Lifted) : Z := 65536 + fst (lf_trace_id f) / 4096.
Definition demo_section : list Z := concat (entry_of demo_address <$> demo_lifted).
Definition demo_byte (a : Z) : Z := default 0 (demo_section !! Z.to_nat (a - 1000)).
Definition demo_range : MemoryMap := MkMemoryMap 1000 48 2 true false false true false [].
Definition demo_code_cache : CodeCache unit unit unit :=
  MkCodeCache (NullTool no_symbols) tt (MkArea 16 65536 true 65536 131072 65600 ∅ 1) (AreaAllocator_new kAreaRW 131072 16)
    (AreaAllocator_new kAreaRW 196608 16) (AreaAllocator_new kAreaRW 262144 16) ∅ ∅ None None [] ∅ [] [] ∅.

Lemma index_publishes_lifted_witness :
  exists c', LoadIndex (entry_at demo_byte) demo_code_cache demo_range = (true, c') /\ Lookup_trace c' (8192, 11) = 65538.
Proof.
  destruct (index_publishes_lifted demo_byte demo_address (fun _ => true) demo_lifted demo_section demo_code_cache demo_range)
    as (c' & H1 & _ & _ & H2).
  - split; [split; [exists 4; split; [lia|reflexivity]|right; cbn; lia]|]. intros id f Hf. cbn in Hf. by rewrite lookup_empty in Hf.
  - vm_compute. reflexivity.
  - cbn. apply NoDup_cons. split; [apply not_elem_of_cons; split; [discriminate|apply not_elem_of_nil]|apply NoDup_singleton].
  - apply Forall_cons. split; [|apply Forall_cons; split; [|apply Forall_nil_2]]; vm_compute; repeat split; (reflexivity || discriminate).
  - constructor; [discriminate|constructor; [discriminate|constructor]].
  - intros i b Hi. unfold demo_byte. cbn [mm_base demo_range]. replace (1000 + Z.of_nat i - 1000) with (Z.of_nat i) by lia.
    rewrite Nat2Z.id. by rewrite Hi.
  - vm_compute. reflexivity.
  - exists c'. split; [exact H1|]. apply (H2 (MkLifted (8192, 11) ∅)); [right; left|reflexivity|reflexivity].
Defined.
