(* ===== verification/MemoryOps.v ===== *)
(** * Operations on one address space among others

    The intrinsics of [vmill/Executor/Runtime.cpp] let the compiled runtime
    and the lifted code read, write, map, unmap and protect an address space.
    Whatever they do to one space, the spaces that share no writable range
    with it keep their bytes: this lifts the isolation of one write after a
    fork to every operation and to any sequence of them, and states the
    isolation of a forked process from its parent. *)

From stdpp Require Import relations.
From S2P Require Import Prelude Pages MappedRange RangeProps AddressSpace SpaceInv RemoveRangeProps IndexProps MapChange Lookup ReadProps WriteProps CloneProps SpaceTheorems.
Import CodeVersions.

(** ** What an operation keeps *)

(** [h'] and [s'] after an operation on the space [s]. *)
Record op_post (h : Heap) (s : AddressSpace) (h' : Heap) (s' : AddressSpace) : Prop := {
  op_heap : wf_heap h';
  op_space : wf_space h' s';
  op_keeps : keeps h h';
  op_maps l : l ∈ maps s' -> l ∈ maps s \/ objs h !! l = None;
  op_others s2 a : wf_space h s2 -> isolated h s s2 -> abs h' s2 a = abs h s2 a
}.

Lemma op_post_cache h s s' : wf_heap h -> wf_space h s' -> cache_step s s' -> op_post h s h s'.
Proof.
  intros Hwf Hw Hst. destruct (cache_step_maps _ _ Hst) as [Hm _]. split; try done; [|rewrite Hm; auto].
  split; [|done]. intros l r Hl. by exists r.
Qed.

Lemma op_post_frame h s h' s' :
  wf_heap h -> wf_space h s -> frame h h' (maps s) -> cache_step s s' -> wf_space h' s' -> op_post h s h' s'.
Proof.
  intros Hwf Hw Hf Hst Hw'. destruct (cache_step_maps _ _ Hst) as [Hm _]. split; [apply Hf|done| |rewrite Hm; auto|].
  - split; [apply Hf|]. intros l _. apply (fr_parent _ _ _ Hf).
  - intros s2 a Hw2 Hiso. by apply (frame_abs_other h h' s s2).
Qed.

Lemma op_post_write h s addr bs perm ok h' s' :
  wf_heap h -> wf_space h s -> write_post h s addr bs perm ok h' s' -> op_post h s h' s'.
Proof. intros Hwf Hw [Hf Hst Hw' _ _ _]. by apply op_post_frame. Qed.

Lemma op_post_remap h s h' s' base_ size v r w x :
  wf_heap h -> remapped h s h' s' base_ size v r w x -> op_post h s h' s'.
Proof.
  intros Hwf [Hx Hw' _ _ _ _ He]. split; [apply Hx|done|by apply hext_keeps| |].
  - intros l Hl. destruct (wm_alive _ _ _ (ws_maps _ _ Hw') l Hl) as [r' Hr']. by apply (He l r').
  - intros s2 a Hw2 _. apply abs_maps_hext; [done|done|apply (ws_maps _ _ Hw2)].
Qed.

Lemma op_post_perm h s s' : wf_heap h -> wf_space h s' -> maps s' ≡ₚ maps s -> op_post h s h s'.
Proof.
  intros Hwf Hw' Hp. split; try done; [|intros l; rewrite Hp; auto]. split; [|done]. intros l r Hl. by exists r.
Qed.

Lemma op_post_trans h1 s1 h2 s2 h3 s3 :
  op_post h1 s1 h2 s2 -> op_post h2 s2 h3 s3 -> op_post h1 s1 h3 s3.
Proof.
  intros [Hh2 Hw2 Hk2 Hm2 Ho2] [Hh3 Hw3 Hk3 Hm3 Ho3].
  split; try done.
  - by eapply keeps_trans.
  - intros l [Hl|Hn]%Hm3; [by apply Hm2|]. right. destruct (objs h1 !! l) eqn:E; [|done].
    destruct (keeps_alive _ _ l Hk2) as [? ?]; [by rewrite E|congruence].
  - intros s4 a Hw4 Hiso. pose proof (keeps_wf_space _ _ _ Hk2 Hw4) as Hw4'. rewrite Ho3, Ho2; try done.
    intros l r Hin [Hin4 Hl]. destruct (wm_alive _ _ _ (ws_maps _ _ Hw4) l Hin4) as [r0 Hr0].
    destruct (kp_old _ _ Hk2 l r0 Hr0) as (r1 & Hr1 & _ & Hv). simplify_eq. rewrite Hv.
    destruct (Hm2 l Hin) as [Hin1|?]; [|congruence]. apply (Hiso l r0 Hin1). by split.
Qed.

(** ** Isolation is kept *)

Lemma isolated_sym h s1 s2 : isolated h s1 s2 -> isolated h s2 s1.
Proof. intros Hiso l r Hin [Hin1 Hl]. apply (Hiso l r Hin1). by split. Qed.

(** Two spaces whose operations are those of others. *)
Lemma keeps_isolated h h' s1 s2 :
  keeps h h' -> wf_space h s2 -> isolated h s1 s2 -> isolated h' s1 s2.
Proof.
  intros Hk Hw2 Hiso l r Hin [Hin2 Hl]. destruct (wm_alive _ _ _ (ws_maps _ _ Hw2) l Hin2) as [r0 Hr0].
  destruct (kp_old _ _ Hk l r0 Hr0) as (r1 & Hr1 & _ & Hv). simplify_eq. rewrite Hv.
  apply (Hiso l r0 Hin). by split.
Qed.

Lemma op_isolated h s h' s' s2 :
  op_post h s h' s' -> wf_space h s2 -> isolated h s s2 -> isolated h' s' s2.
Proof.
  intros [_ _ Hk Hm _] Hw2 Hiso l r Hin [Hin2 Hl]. destruct (wm_alive _ _ _ (ws_maps _ _ Hw2) l Hin2) as [r0 Hr0].
  destruct (kp_old _ _ Hk l r0 Hr0) as (r1 & Hr1 & _ & Hv). simplify_eq. rewrite Hv.
  destruct (Hm l Hin) as [Hin1|?]; [|congruence]. apply (Hiso l r0 Hin1). by split.
Qed.

(** ** The operations *)

Section operations.
Context (version_code : bool) (Hash : list Z -> Z).

(** An access of [n] bytes that the space answers, away from the last page of
    the address space. *)
Definition access_ok (s : AddressSpace) (addr_ n : Z) : Prop := u64 addr_ /\ masked s addr_ + n <= two64 - kPageSize.

(** One call of a member function of the address space that returned.  Maps
    and unmaps are those that cut no range from the left and no copy-on-write
    range. *)
Inductive memory_op (h : Heap) (s : AddressSpace) : Heap -> AddressSpace -> Prop :=
| op_read n addr_ ok vs s' :
    (0 < n <= 64)%nat -> access_ok s addr_ (Z.of_nat n) -> MAKE_TRY_READ n h s addr_ = Ok (ok, vs, s') -> memory_op h s h s'
| op_read_8 addr_ ok v s' : u64 addr_ -> TryRead_8 h s addr_ = Ok (ok, v, s') -> memory_op h s h s'
| op_read_bulk addr_ size ok vs s' :
    0 <= size -> access_ok s addr_ size -> TryRead_bulk h s addr_ size = Ok (ok, vs, s') -> memory_op h s h s'
| op_fetch pc ok v s' : u64 pc -> TryReadExecutable h s pc = Ok (ok, v, s') -> memory_op h s h s'
| op_write addr_ bs ok h' s' :
    Forall byte_ok bs -> bs <> [] -> access_ok s addr_ (Z.of_nat (length bs)) ->
    MAKE_TRY_WRITE version_code h s addr_ bs = Ok (ok, h', s') -> memory_op h s h' s'
| op_write_8 addr_ val ok h' s' :
    byte_ok val -> access_ok s addr_ 1 -> TryWrite_8 version_code h s addr_ val = Ok (ok, h', s') -> memory_op h s h' s'
| op_write_bulk addr_ bs ok h' s' :
    Forall byte_ok bs -> bs <> [] -> access_ok s addr_ (Z.of_nat (length bs)) ->
    TryWrite_bulk version_code h s addr_ bs = Ok (ok, h', s') -> memory_op h s h' s'
| op_map base_ size name_ offset_ h' s' :
    request_ok s base_ size -> all_removable h s base_ size ->
    AddMap h s base_ size name_ offset_ = Ok (h', s') -> memory_op h s h' s'
| op_unmap base_ size h' s' :
    request_ok s base_ size -> all_removable h s base_ size ->
    RemoveMap h s base_ size = Ok (h', s') -> memory_op h s h' s'
| op_protect base_ size r w x s' :
    u64 base_ -> u64 size -> SetPermissions h s base_ size r w x = Ok s' -> memory_op h s h s'
| op_version pc v h' s' : AS_ComputeCodeVersion version_code Hash h s pc = Ok (v, h', s') -> memory_op h s h' s'
| op_mark pc : memory_op h s h (MarkAsTraceHead s pc).

Lemma ComputeCodeVersion_op h s pc v h' s' :
  wf_heap h -> wf_space h s -> AS_ComputeCodeVersion version_code Hash h s pc = Ok (v, h', s') -> op_post h s h' s'.
Proof.
  intros Hwf Hw. unfold AS_ComputeCodeVersion. destruct version_code.
  - cbv zeta. fold (masked s pc). unfold FindRange.
    destruct (FindRangeAligned_spec h s Hw (AlignDownToPage (masked s pc))) as (l & s1 & -> & Hc & Hw1 & Ht & [He Hi]).
    cbn [mbind outcome_bind].
    assert (Hl : exists r, objs h !! l = Some r).
    { destruct He as [(r & [_ He] & _)|[-> _]]; [eauto|]. destruct (ws_invalid _ _ Hw) as (r & Hr & _). eauto. }
    destruct Hl as [r Hl]. destruct (ComputeCodeVersion_spec Hash h s l r Hwf Hw Hl) as (h1 & -> & [Hf _ _]).
    cbn [mbind outcome_bind]. intros [= <- <- <-]. apply op_post_frame; try done. by eapply frame_wf_space.
  - intros [= <- <- <-]. by apply op_post_cache.
Qed.

(** Every operation keeps the invariant and the spaces it shares nothing
    writable with. *)
Lemma memory_op_post h s h' s' : wf_heap h -> wf_space h s -> memory_op h s h' s' -> op_post h s h' s'.
Proof.
  intros Hwf Hw Hop. destruct Hop as [n a ok vs s' Hn [Hu Ht] Heq|a ok v s' Hu Heq|a sz ok vs s' Hs [Hu Ht] Heq|pc ok v s' Hu Heq
    |a bs ok h' s' Hb Hne [Hu Ht] Heq|a v ok h' s' Hb [Hu Ht] Heq|a bs ok h' s' Hb Hne [Hu Ht] Heq
    |b sz nm off h' s' Hrq Hrm Heq|b sz h' s' Hrq Hrm Heq|b sz r w x s' Hb Hs Heq|pc v h' s' Heq|pc].
  - destruct (MAKE_TRY_READ_spec n h s a Hwf Hw Hu Hn Ht) as (? & ? & ? & E & []). rewrite Heq in E. simplify_eq. by apply op_post_cache.
  - destruct (TryRead_8_spec h s a Hwf Hw Hu) as (? & ? & ? & E & []). rewrite Heq in E. simplify_eq. by apply op_post_cache.
  - destruct (TryRead_bulk_spec h s a sz Hwf Hw Hu Hs Ht) as (? & ? & ? & E & []). rewrite Heq in E. simplify_eq. by apply op_post_cache.
  - destruct (TryReadExecutable_spec h s pc Hwf Hw Hu) as (? & ? & ? & E & Hc & Hw' & _). rewrite Heq in E. simplify_eq. by apply op_post_cache.
  - destruct (MAKE_TRY_WRITE_spec version_code h s a Hwf Hw Hu bs Hb Hne Ht) as (? & ? & ? & E & Hp).
    rewrite Heq in E. simplify_eq. by eapply op_post_write.
  - destruct (TryWrite_8_spec version_code h s a Hwf Hw Hu v Hb Ht) as (? & ? & ? & E & Hp).
    rewrite Heq in E. simplify_eq. by eapply op_post_write.
  - destruct (TryWrite_bulk_spec version_code h s a bs Hwf Hw Hu Hb Hne Ht) as (? & ? & ? & E & Hp).
    rewrite Heq in E. simplify_eq. by eapply op_post_write.
  - destruct (AddMap_spec h s b sz nm off Hwf Hw Hrq Hrm) as (? & ? & E & Hp). rewrite Heq in E. simplify_eq. by eapply op_post_remap.
  - destruct (RemoveMap_spec h s b sz Hwf Hw Hrq Hrm) as (? & ? & E & Hp). rewrite Heq in E. simplify_eq. by eapply op_post_remap.
  - destruct (SetPermissions_spec h s b sz r w x Hwf (ws_core _ _ Hw) Hb Hs) as (? & E & Hw' & Hp & _).
    rewrite Heq in E. simplify_eq. by apply op_post_perm.
  - by eapply ComputeCodeVersion_op.
  - apply op_post_cache; [done|by apply wf_space_heads|apply cache_step_heads].
Qed.
End operations.

(** ** A process and its fork *)

Section forks.
Context (version_code : bool) (Hash : list Z -> Z).
Local Abbreviation memory_op := (memory_op version_code Hash).

Inductive Process := Parent | Child.
Definition other (who : Process) : Process := match who with Parent => Child | Child => Parent end.

(** The shared objects, the space of the parent and the space of the child. *)
Definition processes : Type := Heap * AddressSpace * AddressSpace.
Definition space_of (st : processes) (who : Process) : AddressSpace :=
  match who with Parent => st.1.2 | Child => st.2 end.
(** What a process sees at an address. *)
Definition memory_of (st : processes) (who : Process) (a : Z) : option Z := abs st.1.1 (space_of st who) a.

(** One of the two processes operates on its space. *)
Inductive process_step : Process -> processes -> processes -> Prop :=
| ps_parent h p c h' p' : memory_op h p h' p' -> process_step Parent (h, p, c) (h', p', c)
| ps_child h p c h' c' : memory_op h c h' c' -> process_step Child (h, p, c) (h', p, c').
Definition any_step (st st' : processes) : Prop := exists who, process_step who st st'.

Record processes_ok (st : processes) : Prop := {
  pk_heap : wf_heap st.1.1;
  pk_space who : wf_space st.1.1 (space_of st who);
  pk_iso who : isolated st.1.1 (space_of st who) (space_of st (other who))
}.

Lemma forked_ok h p h' c : forked h p h' c -> processes_ok (h', p, c).
Proof. intros Hf. destruct (fk_iso _ _ _ _ Hf). split; [apply Hf|intros []; apply Hf|by intros []]. Qed.

Lemma process_step_ok who st st' :
  processes_ok st -> process_step who st st' ->
  processes_ok st' /\ forall a, memory_of st' (other who) a = memory_of st (other who) a.
Proof.
  intros [Hwf Hw Hiso] Hst. destruct Hst as [h p c h' s' Hop|h p c h' s' Hop].
  - pose proof (Hw Parent) as Hwp. pose proof (Hw Child) as Hwc. pose proof (Hiso Parent) as Hi. cbn in *.
    pose proof (memory_op_post _ _ _ _ _ _ Hwf Hwp Hop) as Hp. split; [|intros a; by apply (op_others _ _ _ _ Hp)].
    pose proof (op_isolated _ _ _ _ _ Hp Hwc Hi) as Hi'. split; cbn; [apply Hp|intros []; cbn; [apply Hp|]|].
    + eapply keeps_wf_space; [apply Hp|done].
    + intros []; cbn; [done|by apply isolated_sym].
  - pose proof (Hw Parent) as Hwp. pose proof (Hw Child) as Hwc. pose proof (Hiso Child) as Hi. cbn in *.
    pose proof (memory_op_post _ _ _ _ _ _ Hwf Hwc Hop) as Hp. split; [|intros a; by apply (op_others _ _ _ _ Hp)].
    pose proof (op_isolated _ _ _ _ _ Hp Hwp Hi) as Hi'. split; cbn; [apply Hp|intros []; cbn; [|apply Hp]|].
    + eapply keeps_wf_space; [apply Hp|done].
    + intros []; cbn; [by apply isolated_sym|done].
Qed.

Lemma any_steps_ok st st' : processes_ok st -> rtc any_step st st' -> processes_ok st'.
Proof. intros Hok Hst. induction Hst as [|st1 st2 st3 [who Hs] _ IH]; [done|]. apply IH. by eapply process_step_ok. Qed.

Lemma process_steps_other who st st' :
  processes_ok st -> rtc (process_step who) st st' -> forall a, memory_of st' (other who) a = memory_of st (other who) a.
Proof.
  intros Hok Hst. induction Hst as [|st1 st2 st3 Hs _ IH]; [done|]. destruct (process_step_ok _ _ _ Hok Hs) as [Hok2 Heq].
  intros a. by rewrite IH, Heq.
Qed.

(** C4: copy-on-write isolation.  A fork gives both processes the memory the
    parent had; however the two then read, write (bytes, words, or in bulk),
    map, unmap, protect, fetch and version their spaces, in any order and
    interleaving, successfully or not, both stay well formed, and no sequence
    of operations of one of them, from any state they reach, changes a byte of
    the other.  The operations are the calls that return, for accesses that
    end below the last page of the 64-bit space and for maps that cut neither
    a range from the left nor a copy-on-write range. *)
Theorem fork_isolates h p h' c st :
  wf_heap h -> wf_space h p -> AddressSpace_clone h p = Ok (h', c) -> rtc any_step (h', p, c) st ->
  (forall who a, memory_of (h', p, c) who a = abs h p a) /\
  (forall who, wf_space st.1.1 (space_of st who)) /\
  (forall who st' a, rtc (process_step who) st st' -> memory_of st' (other who) a = memory_of st (other who) a).
Proof.
  intros Hwf Hw Hcl Hst. destruct (AddressSpace_clone_spec h p Hwf Hw) as (h1 & c1 & Hcl1 & Hf & _).
  rewrite Hcl in Hcl1. injection Hcl1 as <- <-.
  assert (Hok : processes_ok st) by (by eapply any_steps_ok, Hst; apply (forked_ok h)).
  split; [intros []; apply Hf|]. split; [apply Hok|]. intros who st' a Hs. by apply process_steps_other.
Qed.

(** The writes of a process, as steps. *)
Lemma step_write_8 h p c a v ok h' c' :
  byte_ok v -> access_ok c a 1 -> TryWrite_8 version_code h c a v = Ok (ok, h', c') -> process_step Child (h, p, c) (h', p, c').
Proof. intros. by eapply ps_child, op_write_8. Qed.
Lemma step_write h p c a bs ok h' c' :
  Forall byte_ok bs -> bs <> [] -> access_ok c a (Z.of_nat (length bs)) ->
  MAKE_TRY_WRITE version_code h c a bs = Ok (ok, h', c') -> process_step Child (h, p, c) (h', p, c').
Proof. intros. by eapply ps_child, op_write. Qed.
Lemma step_write_bulk h p c a bs ok h' c' :
  Forall byte_ok bs -> bs <> [] -> access_ok c a (Z.of_nat (length bs)) ->
  TryWrite_bulk version_code h c a bs = Ok (ok, h', c') -> process_step Child (h, p, c) (h', p, c').
Proof. intros. by eapply ps_child, op_write_bulk. Qed.
End forks.

(** *** A child that overwrites its memory three times *)

Definition demo_fork : Heap * AddressSpace :=
  match AddressSpace_clone (fst demo_state) (snd demo_state) with Ok r => r | _ => demo_state end.

Definition or_stay (r : outcome (bool * Heap * AddressSpace)) (st : Heap * AddressSpace) : Heap * AddressSpace :=
  match r with Ok (_, h, s) => (h, s) | _ => st end.

(** A byte, then a word of the same page, then a string across both pages. *)
Definition demo_writes : list (Heap * AddressSpace) :=
  let st1 := or_stay (TryWrite_8 false (fst demo_fork) (snd demo_fork) 4096 1) demo_fork in
  let st2 := or_stay (MAKE_TRY_WRITE false (fst st1) (snd st1) 4100 [2; 3]) st1 in
  let st3 := or_stay (TryWrite_bulk false (fst st2) (snd st2) 8190 [4; 5; 6]) st2 in
  [st1; st2; st3].
Definition demo_write (i : nat) : Heap * AddressSpace := nth i demo_writes demo_fork.

Lemma memory_of_parent h p c a : memory_of (h, p, c) (other Child) a = abs h p a.
Proof. done. Qed.

Lemma fork_isolates_witness :
  abs (fst (demo_write 2)) (snd demo_state) 4096 = Some 0 /\ abs (fst (demo_write 2)) (snd (demo_write 2)) 4096 = Some 1 /\
  abs (fst (demo_write 2)) (snd demo_state) 8191 = Some 0 /\ abs (fst (demo_write 2)) (snd (demo_write 2)) 8191 = Some 5.
Proof.
  destruct demo_ok as (_ & Hwf & Hw).
  destruct (fork_isolates false (fun _ => 0) (fst demo_state) (snd demo_state) (fst demo_fork) (snd demo_fork)
    (fst demo_fork, snd demo_state, snd demo_fork)) as (_ & _ & Ho); [exact Hwf|exact Hw|vm_compute; reflexivity|apply rtc_refl|].
  assert (Hst : rtc (process_step false (fun _ => 0) Child) (fst demo_fork, snd demo_state, snd demo_fork)
    (fst (demo_write 2), snd demo_state, snd (demo_write 2))).
  { eapply rtc_l; [|eapply rtc_l; [|apply rtc_once]].
    - apply (step_write_8 _ _ _ _ _ 4096 1 true (fst (demo_write 0)) (snd (demo_write 0))); vm_compute; repeat split; congruence.
    - apply (step_write _ _ _ _ _ 4100 [2; 3] true (fst (demo_write 1)) (snd (demo_write 1)));
        [repeat constructor; vm_compute; congruence|congruence|vm_compute; repeat split; congruence|vm_compute; reflexivity].
    - apply (step_write_bulk _ _ _ _ _ 8190 [4; 5; 6] true);
        [repeat constructor; vm_compute; congruence|congruence|vm_compute; repeat split; congruence|vm_compute; reflexivity]. }
  pose proof (Ho Child _ 4096 Hst) as H1. pose proof (Ho Child _ 8191 Hst) as H2.
  rewrite !memory_of_parent in H1, H2.
  split; [rewrite H1; vm_compute; reflexivity|]. split; [vm_compute; reflexivity|].
  split; [rewrite H2; vm_compute; reflexivity|vm_compute; reflexivity].
Defined.
