(* ===== verification/Execute.v ===== *)
(** * The entry point

    Models [Execute.cpp]: [main] loads the snapshot of the workspace, builds
    an executor, fills it from the snapshot and runs it; and [Virtualize.cpp],
    whose [main] runs an executor without tasks.  The compiled runtime
    is a class of its four entry points; what it may do to memory is the step
    relation [runtime_step], made of the operations of [MemoryOps]. *)

From stdpp Require Import functions.
From S2P Require Import Prelude Pages MappedRange AddressSpace MapChange MemoryOps Tools FileCache Tasks Decoder Lifter Executor ProgramSnapshot Workspace.
Import HostTools.

(** ** The compiled runtime *)

(** The functions [Executor::Executor] looks up by name. *)
Class Runtime (C OS : Type) := {
  vmill_init : World C OS -> outcome (World C OS);
  vmill_create_task : list Z -> Z -> Z -> World C OS -> outcome (World C OS);
  vmill_resume : World C OS -> outcome (World C OS);
  vmill_fini : World C OS -> outcome (World C OS)
}.

(** A call of [__vmill_create_task]: the initial task and its memory. *)
Abbreviation call := (InitialTaskInfo * Z)%type.

Section steps.
Context {C OS : Type} (version_code : bool) (Hash : list Z -> Z) (address_size : Z).
Implicit Types (w : World C OS).

Definition set_space w (m : Z) (h : Heap) (s : AddressSpace) : World C OS :=
  MkWorld (w_exec w) h (<[m := s]> (w_spaces w)) (w_next w) (w_os w) (w_running w).
Definition with_os w (os : OS) : World C OS := MkWorld (w_exec w) (w_heap w) (w_spaces w) (w_next w) os (w_running w).
Definition with_exec w (e : Executor C) : World C OS := MkWorld e (w_heap w) (w_spaces w) (w_next w) (w_os w) (w_running w).

(** [__vmill_allocate_address_space] and [__vmill_free_address_space]. *)
Definition vmill_allocate_address_space w : outcome (World C OS) :=
  '(h, s) ← AddressSpace_new (w_heap w) address_size; Ok (with_space w h s).
Definition vmill_free_address_space w (m : Z) : World C OS :=
  MkWorld (w_exec w) (w_heap w) (delete m (w_spaces w)) (w_next w) (w_os w) (w_running w).

(** One thing the runtime does: an operation on a memory it was given, which
    are those numbered from [first], allocating or freeing a memory, changing
    its own state, or having the executor translate code. *)
Inductive runtime_step (first : Z) w : World C OS -> Prop :=
| rs_memory m s h' s' :
    first <= m -> w_spaces w !! m = Some s -> memory_op version_code Hash (w_heap w) s h' s' ->
    runtime_step first w (set_space w m h' s')
| rs_allocate w' : vmill_allocate_address_space w = Ok w' -> runtime_step first w w'
| rs_free m : first <= m -> runtime_step first w (vmill_free_address_space w m)
| rs_os os : runtime_step first w (with_os w os)
| rs_exec e : initial_tasks e = initial_tasks (w_exec w) -> runtime_step first w (with_exec w e).
End steps.

(** ** [main] *)

Definition EXIT_SUCCESS : Z := 0.

(** The names [Executor::Executor] looks up in the code cache. *)
Definition chars (s : string) : list Z := (fun c => Z.of_N (Ascii.N_of_ascii c)) <$> String.list_ascii_of_string s.
Definition runtime_intrinsics : list (list Z) :=
  chars <$> ["__vmill_init"; "__vmill_create_task"; "__vmill_resume"; "__vmill_fini"].

(** [LoadOneTool]: the built-in tools, then shared libraries.  [kvm] is
    commented out. *)
Definition find_tool {M} (branch_coverage value_coverage fuzzer : Tool M) (FileExists : list Z -> bool) (open_library : list Z -> Tool M)
    (name_or_path : list Z) : option (Tool M) :=
  if decide (name_or_path = chars "branch_coverage") then Some branch_coverage
  else if decide (name_or_path = chars "value_coverage") then Some value_coverage
  else if decide (name_or_path = chars "fuzzer") then Some fuzzer
  else if FileExists name_or_path then Some (open_library name_or_path)
  else None.

Section execs.
Context {C OS : Type} {CacheOps : TranslationCache C Module_} {RuntimeOps : Runtime C OS}.

(** [executor.Run()]. *)
Definition Run : World C OS -> outcome (World C OS) :=
  Executor_Run vmill_init vmill_resume vmill_fini vmill_create_task.

Fixpoint run_execs (max_num_execs : nat) (w : World C OS) : outcome (World C OS) :=
  match max_num_execs with
  | O => Ok w
  | S n => w ← Run w; run_execs n w
  end.

(** The host and the flags, as for the workspace. *)
Context (CurrentWorkingDirectory PathSeparator : string) (CanonicalPath : string -> string).
Context (TryCreateDirectory FileExists can_open_snapshot : string -> bool) (ParseFromIstream : string -> option Program).
Context (FLAGS_workspace : string) (FLAGS_max_num_execs : Z).
Context (files : string -> option (list Z)) (can_open : string -> bool) (read_amount : string -> Z -> Z -> option Z).
(** remill: whether a name is that of an architecture or an operating system,
    and the address size of an architecture. *)
Context (valid_arch valid_os : string -> bool) (arch_address_size : string -> Z).
(** The functions of the host and the tools' wrappers of them, the
    instrumentation tools, [FLAGS_num_io_threads], [CodeCache::Create]
    for the architecture and the operating system of the flags, and the file
    of the index. *)
Context {M : Type} (host_function : list Z -> Z) (wrapper : list Z -> Z -> Z).
Context (find_tool : list Z -> option (Tool M)) (alloc_funcs : gmap (list Z) Z) (FLAGS_num_io_threads : Z).
Context (CodeCache_Create : Tool M -> string -> string -> Paths -> outcome (C * Paths)).
Context (index_file : string -> @File CachedIndexEntry * bool).
(** The state of the runtime before [__vmill_init]. *)
Context (os0 : OS).

Local Abbreviation SnapshotPath := (SnapshotPath CurrentWorkingDirectory PathSeparator CanonicalPath TryCreateDirectory FLAGS_workspace).
Local Abbreviation IndexPath := (IndexPath CurrentWorkingDirectory PathSeparator CanonicalPath TryCreateDirectory FLAGS_workspace).

(** [vmill::Executor executor;] *)
Definition construct_executor (FLAGS_tool : list Z) (arch os : string) (p : Paths) : outcome (Executor C * Paths) :=
  tool ← LoadTool host_function wrapper find_tool alloc_funcs FLAGS_tool FLAGS_num_io_threads;
  '(c, p) ← CodeCache_Create tool arch os p;
  '(path, p) ← IndexPath p;
  let '(f, map_succeeds) := index_file path in
  e ← Executor_new c (Open sizeof_CachedIndexEntry f map_succeeds) runtime_intrinsics (chars "__remill_error");
  Ok (e, p).

Definition initial_world (e : Executor C) : World C OS := MkWorld e empty_heap ∅ 0 os0 false.

Definition main (FLAGS_tool : list Z) (p : Paths) : outcome (Z * World C OS) :=
  check (0 <? FLAGS_max_num_execs) ;;
  '(path, p) ← SnapshotPath p;
  snapshot ← LoadSnapshotFromFile FileExists can_open_snapshot ParseFromIstream path;
  check (valid_arch (pg_arch snapshot)) ;;
  check (valid_os (pg_os snapshot)) ;;
  '(e, p) ← construct_executor FLAGS_tool (pg_arch snapshot) (pg_os snapshot) p;
  w ← LoadSnapshotIntoExecutor files can_open read_amount (arch_address_size (pg_arch snapshot)) snapshot (initial_world e);
  w ← run_execs (Z.to_nat FLAGS_max_num_execs) w;
  Ok (EXIT_SUCCESS, w).

(** [main] of [Virtualize.cpp]: the tool [kvm] is put in front of the tools
    that were asked for, and there are no tasks. *)
Definition virtualize_tool (FLAGS_tool : list Z) : list Z := chars "kvm" ++ [kPathListSep] ++ FLAGS_tool.

Definition virtualize_main (FLAGS_arch FLAGS_os : string) (FLAGS_tool : list Z) (p : Paths) : outcome (Z * World C OS) :=
  check (0 <? FLAGS_max_num_execs) ;;
  check (valid_arch FLAGS_arch) ;;
  check (valid_os FLAGS_os) ;;
  '(e, p) ← construct_executor (virtualize_tool FLAGS_tool) FLAGS_arch FLAGS_os p;
  w ← run_execs (Z.to_nat FLAGS_max_num_execs) (initial_world e);
  Ok (EXIT_SUCCESS, w).
End execs.
