(* ===== verification/ExecuteProps.v ===== *)
(** * What a run of the executor promises

    [main] returns, and in each of its runs every initial task of the snapshot
    starts, in order, on a copy-on-write copy of the memory the snapshot
    describes, whatever the runtime did to its memories in the runs before:
    no operation of the runtime reaches the memories that were loaded. *)

From stdpp Require Import relations.
From S2P Require Import Prelude Pages MappedRange RangeProps AddressSpace SpaceInv RemoveRangeProps IndexProps MapChange Lookup ReadProps WriteProps CloneProps MemoryOps SpaceTheorems.
Import CodeVersions.
From S2P Require Import Tools FileCache Tasks Decoder Lifter Executor ProgramSnapshot Workspace WorkspaceProps Execute.
Import HostTools.

Section worlds.
Context {C OS : Type} (version_code : bool) (Hash : list Z -> Z) (address_size : Z).
Implicit Types (w : World C OS).
Local Abbreviation runtime_step := (runtime_step version_code Hash address_size).

(** ** The invariant of the address spaces *)

(** Every address space is well formed and no two share a writable range. *)
Record world_ok w : Prop := {
  wo_heap : wf_heap (w_heap w);
  wo_space m s : w_spaces w !! m = Some s -> wf_space (w_heap w) s;
  wo_next m : is_Some (w_spaces w !! m) -> m < w_next w;
  wo_iso m1 m2 s1 s2 : m1 <> m2 -> w_spaces w !! m1 = Some s1 -> w_spaces w !! m2 = Some s2 -> isolated (w_heap w) s1 s2
}.

(** The memories below [first] and the initial tasks are the same. *)
Record kept (first : Z) w w' : Prop := {
  kt_space m s : m < first -> w_spaces w !! m = Some s ->
    w_spaces w' !! m = Some s /\ forall a, abs (w_heap w') s a = abs (w_heap w) s a;
  kt_tasks : initial_tasks (w_exec w') = initial_tasks (w_exec w);
  kt_next : w_next w <= w_next w'
}.

#[global] Instance kept_preorder first : PreOrder (kept first).
Proof.
  split; [by split|]. intros w1 w2 w3 [H1 Ht1 Hn1] [H2 Ht2 Hn2]. split; [|congruence|lia].
  intros m s Hm [Hs Ha]%H1; [|done]. destruct (H2 m s Hm Hs) as [Hs' Ha']. split; [done|]. intros a. by rewrite Ha', Ha.
Qed.

(** An operation on the memory [m]. *)
Lemma op_world first w m s h' s' :
  world_ok w -> first <= m -> w_spaces w !! m = Some s -> op_post (w_heap w) s h' s' ->
  world_ok (set_space w m h' s') /\ kept first w (set_space w m h' s').
Proof.
  intros [Hwf Hsp Hnx Hiso] Hm Hs Hp.
  assert (Hother : forall m2 s2, m2 <> m -> w_spaces w !! m2 = Some s2 -> isolated h' s' s2).
  { intros m2 s2 Hne H2. apply (op_isolated _ _ _ _ _ Hp); [by apply (Hsp m2)|by apply (Hiso m m2)]. }
  split; [split|split]; cbn; try done.
  - apply Hp.
  - intros m2 s2 [[<- <-]|[Hne H2]]%lookup_insert_Some; [apply Hp|].
    eapply keeps_wf_space; [apply Hp|by eapply Hsp].
  - intros m2 [s2 [[<- _]|[_ H2]]%lookup_insert_Some]; apply Hnx; eauto.
  - intros m1 m2 s1 s2 Hne [[<- <-]|[Hn1 H1]]%lookup_insert_Some [[<- <-]|[Hn2 H2]]%lookup_insert_Some; [done| | |].
    + by apply (Hother m2).
    + by apply isolated_sym, (Hother m1).
    + eapply keeps_isolated; [apply Hp|by eapply Hsp|by apply (Hiso m1 m2)].
  - intros m2 s2 Hlt H2. rewrite lookup_insert_ne by lia. split; [done|]. intros a.
    apply (op_others _ _ _ _ Hp); [by eapply Hsp|]. apply (Hiso m m2); [lia|done..].
Qed.

(** A new memory that shares no writable range with the others. *)
Lemma add_world first w h s :
  world_ok w -> first <= w_next w -> wf_heap h -> keeps (w_heap w) h -> wf_space h s ->
  (forall l r, entry h (maps s) l r -> valid r = false \/ objs (w_heap w) !! l = None) ->
  (forall s2 a, wf_space (w_heap w) s2 -> abs h s2 a = abs (w_heap w) s2 a) ->
  world_ok (with_space w h s) /\ kept first w (with_space w h s).
Proof.
  intros [Hwf Hsp Hnx Hiso] Hfst Hwf' Hk Hw' Hfresh Ha.
  assert (Hlt : forall m s2, w_spaces w !! m = Some s2 -> m < w_next w) by (intros; apply Hnx; eauto).
  assert (Hother : forall m2 s2, w_spaces w !! m2 = Some s2 -> isolated h s2 s).
  { intros m2 s2 H2 l r Hin He. destruct (Hfresh l r He) as [?|Hn]; [done|].
    destruct (wm_alive _ _ _ (ws_maps _ _ (Hsp _ _ H2)) l Hin). congruence. }
  split; [split|split]; cbn; try done; try lia.
  - intros m2 s2 [[<- <-]|[Hne H2]]%lookup_insert_Some; [done|]. eapply keeps_wf_space; [done|by eapply Hsp].
  - intros m2 [s2 [[<- _]|[_ H2]]%lookup_insert_Some]; [lia|]. apply Hlt in H2. lia.
  - intros m1 m2 s1 s2 Hne [[<- <-]|[Hn1 H1]]%lookup_insert_Some [[<- <-]|[Hn2 H2]]%lookup_insert_Some; [done| | |].
    + by eapply isolated_sym, Hother.
    + by eapply Hother.
    + eapply keeps_isolated; [done|by eapply Hsp|by apply (Hiso m1 m2)].
  - intros m2 s2 Hm2 H2. rewrite lookup_insert_ne by lia. split; [done|]. intros a. by eapply Ha, Hsp.
Qed.

(** ** What the runtime does *)

Lemma step_world first w w' :
  world_ok w -> first <= w_next w -> runtime_step first w w' -> world_ok w' /\ kept first w w' /\ w_running w' = w_running w.
Proof.
  intros Hok Hfst Hst. destruct Hst as [m s h' s' Hm Hs Hop|w' Heq|m Hm|os|e He].
  - destruct (op_world first w m s h' s' Hok Hm Hs) as [? ?]; [|done]. eapply memory_op_post; [apply Hok|by eapply Hok|done].
  - unfold vmill_allocate_address_space in Heq.
    destruct (new_space_loading address_size (w_heap w) (wo_heap _ Hok)) as (h & s & E & Hlo & _). rewrite E in Heq.
    cbn [mbind outcome_bind] in Heq. injection Heq as <-.
    destruct (add_world first w h s Hok Hfst) as [? ?]; [apply Hlo..| | |done].
    + intros l r [Hin _]. right. by apply (lo_fresh _ _ _ _ _ Hlo).
    + intros s2 a Hw2. by apply (lo_others _ _ _ _ _ Hlo).
  - destruct Hok as [Hwf Hsp Hnx Hiso]. split_and!; [|split|done]; cbn; try done.
    + split; cbn; [done|..].
      * intros m2 s2 [_ H2]%lookup_delete_Some. by eapply Hsp.
      * intros m2 [s2 [_ H2]%lookup_delete_Some]. eauto.
      * intros m1 m2 s1 s2 Hne [_ H1]%lookup_delete_Some [_ H2]%lookup_delete_Some. by eapply Hiso.
    + intros m2 s2 Hlt H2. rewrite lookup_delete_ne by lia. done.
  - split_and!; [by destruct Hok|by split|done].
  - split_and!; [by destruct Hok|by split|done].
Qed.

Lemma steps_world first w w' :
  world_ok w -> first <= w_next w -> rtc (runtime_step first) w w' -> world_ok w' /\ kept first w w' /\ w_running w' = w_running w.
Proof.
  intros Hok Hfst Hst. induction Hst as [|w1 w2 w3 Hs _ IH]; [done|].
  destruct (step_world first w1 w2 Hok Hfst Hs) as (Hok2 & Hk2 & Hr2). pose proof (kt_next _ _ _ Hk2).
  destruct IH as (Hok3 & Hk3 & Hr3); [done|lia|]. split_and!; [done|by etrans|congruence].
Qed.
End worlds.

(** ** One run *)

Section run.
Context {C OS : Type} {CacheOps : TranslationCache C Module_} {RuntimeOps : Runtime C OS}.
Context (version_code : bool) (Hash : list Z -> Z) (address_size : Z).
Implicit Types (w : World C OS) (calls : list call).
Local Abbreviation runtime_step := (runtime_step version_code Hash address_size).

(** In [w] the memory [copy] holds what the memory [memory] of [w0] holds. *)
Definition is_copy w0 w (memory copy : Z) : Prop :=
  exists s0 s, w_spaces w0 !! memory = Some s0 /\ w_spaces w !! copy = Some s /\
    wf_space (w_heap w) s /\ (forall a, abs (w_heap w) s a = abs (w_heap w0) s0 a) /\
    (forall p, has_perms s p (CanReadAligned s0 p) (CanWriteAligned s0 p) (CanExecuteAligned s0 p)) /\
    addr_mask s = addr_mask s0 /\ trace_heads s = trace_heads s0.

(** Every call names a new memory that is a copy of the one of its task, the
    same one exactly for tasks that share their memory. *)
Definition starts (first : Z) w0 w calls : Prop :=
  Forall (fun c : call => first <= snd c /\ is_copy w0 w (it_memory (fst c)) (snd c)) calls /\
  forall c1 c2, c1 ∈ calls -> c2 ∈ calls -> it_memory (fst c1) = it_memory (fst c2) <-> snd c1 = snd c2.

(** The tasks created so far are the first of the initial tasks. *)
Definition ready_run (first : Z) w0 w calls : Prop :=
  calls.*1 `prefix_of` initial_tasks (w_exec w0) /\ starts first w0 w calls.

(** ** What a run is

    The history of a run, in terms of the entry points of the runtime. *)

(** The world before [__vmill_init] and after [__vmill_fini]: the constructors
    have run and the code cache is set up or torn down. *)
Definition started w : World C OS :=
  with_cache_state w (tc_SetUp (tc_RunConstructors (code_cache (w_exec w)))) true.
Definition stopped w : World C OS := with_cache_state w (tc_TearDown (code_cache (w_exec w))) false.

(** Tasks are created one after the other; before each call nothing happens
    but the copy of a memory. *)
Inductive created (ready : World C OS -> list call -> Prop) w : list call -> World C OS -> Prop :=
| cd_none : created ready w [] w
| cd_task calls w1 w2 w3 info m :
    created ready w calls w1 ->
    w_os w2 = w_os w1 -> w_exec w2 = w_exec w1 -> kept (w_next w1) w1 w2 ->
    ready w2 (calls ++ [(info, m)]) -> vmill_create_task (it_state info) (it_pc info) m w2 = Ok w3 ->
    created ready w (calls ++ [(info, m)]) w3.

(** A run with [n] tasks from [w] to [w']: the runtime is initialised, its
    tasks are created, which leads to a state that is [ready], then it is
    resumed and finished. *)
Definition execution (ready at_resume : World C OS -> list call -> Prop) (n : nat) w w' : Prop :=
  exists calls w1 w2 w3 w4,
    vmill_init (started w) = Ok w1 /\ created ready w1 calls w2 /\ length calls = n /\ at_resume w2 calls /\
    vmill_resume w2 = Ok w3 /\ vmill_fini w3 = Ok w4 /\ w' = stopped w4.

Lemma created_mono (R R' : World C OS -> list call -> Prop) w calls w' :
  (forall w calls, R w calls -> R' w calls) -> created R w calls w' -> created R' w calls w'.
Proof. intros HR. induction 1; [constructor|]. eapply cd_task; eauto. Qed.

Lemma execution_mono (R R' K K' : World C OS -> list call -> Prop) n w w' :
  (forall w calls, R w calls -> R' w calls) -> (forall w calls, K w calls -> K' w calls) ->
  execution R K n w w' -> execution R' K' n w w'.
Proof.
  intros HR HK (calls & w1 & w2 & w3 & w4 & H1 & H2 & Hn & H3 & Hrest). exists calls, w1, w2, w3, w4.
  split; [done|]. split; [by eapply created_mono|]. auto.
Qed.

(** What the executor needs of the runtime.  The runtime may rely on [ready]
    when a task is created and when the tasks are resumed, on having been told
    of all [tasks] tasks when it resumes, and on well-formed memories; it must
    return having done nothing but [runtime_step]s.  Its own state is idle
    between runs, knows the tasks it was told of while they are created, and is
    done when all of them stopped. *)
Class RuntimeLaws (first : Z) (ready : World C OS -> list call -> Prop) (tasks : nat) := {
  rt_idle : OS -> Prop;
  rt_knows : OS -> list call -> Prop;
  rt_done : OS -> Prop;
  rt_init w : world_ok w -> first <= w_next w -> w_running w = true -> rt_idle (w_os w) ->
    exists w', vmill_init w = Ok w' /\ rtc (runtime_step first) w w' /\ rt_knows (w_os w') [];
  rt_create w calls info m : world_ok w -> w_running w = true -> rt_knows (w_os w) calls -> ready w (calls ++ [(info, m)]) ->
    exists os, vmill_create_task (it_state info) (it_pc info) m w = Ok (with_os w os) /\ rt_knows os (calls ++ [(info, m)]);
  rt_resume w calls : world_ok w -> w_running w = true -> rt_knows (w_os w) calls -> length calls = tasks -> ready w calls ->
    exists w', vmill_resume w = Ok w' /\ rtc (runtime_step first) w w' /\ rt_done (w_os w');
  rt_fini w : world_ok w -> w_running w = true -> rt_done (w_os w) ->
    exists w', vmill_fini w = Ok w' /\ rtc (runtime_step first) w w' /\ rt_idle (w_os w')
}.

(** The invariant of the loop over the initial tasks. *)
Record creating (first : Z) w0 w (memories : gmap Z Z) calls : Prop := {
  cr_ok : world_ok w;
  cr_kept : kept first w0 w;
  cr_running : w_running w = true;
  cr_copy k m : memories !! k = Some m -> first <= m /\ is_copy w0 w k m;
  cr_inj k1 k2 m : memories !! k1 = Some m -> memories !! k2 = Some m -> k1 = k2;
  cr_calls c : c ∈ calls -> memories !! it_memory (fst c) = Some (snd c)
}.

Lemma creating_starts first w0 w memories calls : creating first w0 w memories calls -> starts first w0 w calls.
Proof.
  intros Hc. split.
  - apply Forall_forall. intros c Hin. apply (cr_copy _ _ _ _ _ Hc), (cr_calls _ _ _ _ _ Hc), Hin.
  - intros c1 c2 H1%(cr_calls _ _ _ _ _ Hc) H2%(cr_calls _ _ _ _ _ Hc). split; [congruence|].
    intros E. rewrite E in H1. by eapply (cr_inj _ _ _ _ _ Hc).
Qed.

Lemma is_copy_later w0 w w' k m :
  world_ok w -> world_ok w' -> kept (w_next w) w w' -> is_copy w0 w k m -> is_copy w0 w' k m.
Proof.
  intros Hok Hok' Hk (s0 & s & Hs0 & Hs & Hw & Ha & Hrest). destruct (kt_space _ _ _ Hk m s) as [Hs' Ha'];
    [by apply (wo_next _ Hok)|done|]. exists s0, s. split; [done|]. split; [done|].
  split; [by eapply (wo_space _ Hok')|]. split; [|done]. intros a. by rewrite Ha'.
Qed.

(** The copy of a memory is made once. *)
Lemma copied_memory_spec first w0 w memories calls k s0 :
  first <= w_next w0 -> creating first w0 w memories calls -> k < first -> w_spaces w0 !! k = Some s0 ->
  exists copy memories' w', copied_memory w memories k = Ok (copy, memories', w') /\
    creating first w0 w' memories' calls /\ memories' !! k = Some copy /\ w_os w' = w_os w /\
    w_exec w' = w_exec w /\ kept (w_next w) w w'.
Proof.
  intros Hfst Hc Hk Hs0. unfold copied_memory. destruct (memories !! k) as [copy|] eqn:Em.
  { by exists copy, memories, w. }
  destruct (kt_space _ _ _ (cr_kept _ _ _ _ _ Hc) k s0 Hk Hs0) as [Hs Ha]. rewrite Hs. cbn [deref_opt mbind outcome_bind].
  pose proof (cr_ok _ _ _ _ _ Hc) as Hok. pose proof (wo_space _ Hok _ _ Hs) as Hw0.
  destruct (AddressSpace_clone_spec (w_heap w) s0 (wo_heap _ Hok) Hw0) as (h & s & -> & Hf & Hx).
  cbn [mbind outcome_bind]. do 3 eexists. split; [done|].
  pose proof (kt_next _ _ _ (cr_kept _ _ _ _ _ Hc)) as Hnx.
  destruct (add_world (w_next w) w h s) as [Hok' Hk']; [done|done|apply Hf|apply Hx|apply Hf|apply Hf| |].
  { intros s2 a Hw2. by apply clone_ext_abs. }
  change (MkWorld _ _ _ _ _ _) with (with_space w h s). split_and!; [|by rewrite lookup_insert_eq|done|done|done].
  assert (Hcopy : is_copy w0 (with_space w h s) k (w_next w)).
  { exists s0, s. cbn. rewrite lookup_insert_eq. split_and!; try done; try apply Hf.
    intros a. by rewrite (fk_abs _ _ _ _ Hf). }
  split; try apply Hc; try done.
  - etrans; [apply Hc|]. destruct Hk' as [Hsp Ht Hn]. split; [|done|done]. intros m2 s2 Hm2. apply Hsp. lia.
  - intros k2 m2 [[<- <-]|[Hne H2]]%lookup_insert_Some; [split; [lia|done]|].
    destruct (cr_copy _ _ _ _ _ Hc k2 m2 H2). split; [done|]. by apply (is_copy_later w0 w).
  - assert (Hold : forall k2, memories !! k2 = Some (w_next w) -> False).
    { intros k2 (_ & ? & s2 & _ & H2 & _)%(cr_copy _ _ _ _ _ Hc). assert (w_next w < w_next w); [|lia].
      apply (wo_next _ Hok). by rewrite H2. }
    intros k1 k2 m [[<- <-]|[Hn1 H1]]%lookup_insert_Some [[<- ?]|[Hn2 H2]]%lookup_insert_Some; try done.
    + by destruct (Hold k2).
    + subst m. by destruct (Hold k1).
    + by eapply (cr_inj _ _ _ _ _ Hc).
  - intros c Hin%(cr_calls _ _ _ _ _ Hc). rewrite lookup_insert_ne; [done|]. intros ->. congruence.
Qed.

Context (first : Z) (w0 : World C OS) {n : nat} {Laws : RuntimeLaws first (ready_run first w0) n} (Hn : length (initial_tasks (w_exec w0)) = n).

(** The memories of the initial tasks exist, below [first]. *)
Definition tasks_loaded w0 : Prop :=
  Forall (fun info => it_memory info < first /\ is_Some (w_spaces w0 !! it_memory info)) (initial_tasks (w_exec w0)).

Lemma create_tasks_spec wi w memories calls infos :
  first <= w_next w0 -> tasks_loaded w0 -> creating first w0 w memories calls -> rt_knows (w_os w) calls ->
  created (ready_run first w0) wi calls w -> calls.*1 ++ infos = initial_tasks (w_exec w0) ->
  exists w' calls' memories', create_tasks vmill_create_task w memories infos = Ok w' /\ creating first w0 w' memories' calls' /\
    rt_knows (w_os w') calls' /\ created (ready_run first w0) wi calls' w' /\ calls'.*1 = initial_tasks (w_exec w0).
Proof.
  intros Hfst Hld. revert w memories calls. induction infos as [|info infos IH]; intros w memories calls Hc Hkn Hcd Hall; cbn [create_tasks].
  { exists w, calls, memories. rewrite app_nil_r in Hall. done. }
  assert (Hinfo : it_memory info < first /\ is_Some (w_spaces w0 !! it_memory info)).
  { unfold tasks_loaded in Hld. rewrite <- Hall, Forall_app, Forall_cons in Hld. by destruct Hld as (_ & ? & _). }
  destruct Hinfo as [Hlt [s0 Hs0]].
  destruct (copied_memory_spec first w0 w memories calls (it_memory info) s0) as (m & mems & w1 & -> & Hc1 & Hm & Hos & Hex & Hk1); try done.
  cbn [mbind outcome_bind].
  assert (Hc2 : forall os, creating first w0 (with_os w1 os) mems (calls ++ [(info, m)])).
  { intros os. destruct Hc1 as [Hok Hk Hr Hcp Hin Hcl]. split; try done; [by destruct Hok|by destruct Hk|].
    intros c [?| ->%list_elem_of_singleton]%elem_of_app; auto. }
  assert (Hready : ready_run first w0 w1 (calls ++ [(info, m)])).
  { split; [exists infos; by rewrite fmap_app, <- app_assoc|]. apply (creating_starts first w0 w1 mems).
    specialize (Hc2 (w_os w1)). by destruct w1. }
  destruct (rt_create w1 calls info m) as (os & Hcr & Hkn2); [apply Hc1|apply Hc1|by rewrite Hos|done|].
  rewrite Hcr. cbn [mbind outcome_bind]. apply (IH _ mems (calls ++ [(info, m)])); [done|done| |by rewrite fmap_app, <- app_assoc].
  by apply (cd_task _ _ calls w w1).
Qed.

Lemma with_cache_state_kept w c b : world_ok w -> world_ok (with_cache_state w c b) /\ kept first w (with_cache_state w c b).
Proof. intros []. split; [done|by split]. Qed.

(** What a runtime may rely on when it resumes. *)
Definition at_resume w calls : Prop :=
  world_ok w /\ w_running w = true /\ kept first w0 w /\ rt_knows (w_os w) calls /\ ready_run first w0 w calls.
Definition run_of : World C OS -> World C OS -> Prop :=
  execution (ready_run first w0) at_resume (length (initial_tasks (w_exec w0))).

(** A run returns, and has changed no memory it was given. *)
Lemma Run_spec w :
  first <= w_next w0 -> tasks_loaded w0 -> world_ok w -> kept first w0 w -> w_running w = false -> rt_idle (w_os w) ->
  exists w', Run w = Ok w' /\ run_of w w' /\ world_ok w' /\ kept first w0 w' /\ w_running w' = false /\ rt_idle (w_os w').
Proof.
  intros Hfst Hld Hok Hk Hr Hidle. unfold Run, Executor_Run, Executor_SetUp. cbn zeta. rewrite Hr. cbn [w_running with_cache_state negb check mbind outcome_bind].
  change (with_cache_state (with_cache_state w _ false) _ true) with (started w).
  assert (H1 : world_ok (started w) /\ kept first w0 (started w)) by (split; [by destruct Hok|by destruct Hk]).
  destruct H1 as [Hok1 Hk1]. pose proof (kt_next _ _ _ Hk1).
  destruct (rt_init (started w)) as (w2 & Hini & Hst2 & Hkn2); [done|lia|done|done|].
  destruct (steps_world version_code Hash address_size first (started w) w2 Hok1) as (Hok2 & Hk2 & Hr2); [lia|done|].
  rewrite Hini. cbn [mbind outcome_bind]. rewrite Hr2. cbn [started with_cache_state w_running check mbind outcome_bind].
  assert (Hc2 : creating first w0 w2 ∅ []).
  { split; try done; [by etrans|intros c Hin; by apply elem_of_nil in Hin]. }
  rewrite (kt_tasks _ _ _ Hk2), (kt_tasks _ _ _ Hk1).
  destruct (create_tasks_spec w2 w2 ∅ [] (initial_tasks (w_exec w0)) Hfst Hld Hc2 Hkn2 (cd_none _ _) eq_refl)
    as (w3 & calls & mems & -> & Hc3 & Hkn3 & Hcd & Hcalls).
  cbn [mbind outcome_bind]. pose proof (kt_next _ _ _ (cr_kept _ _ _ _ _ Hc3)).
  assert (Hlen : length calls = length (initial_tasks (w_exec w0))) by by rewrite <- Hcalls, length_fmap.
  assert (Hready : ready_run first w0 w3 calls) by (split; [by rewrite Hcalls|by eapply creating_starts]).
  destruct (rt_resume w3 calls) as (w4 & Hres & Hst4 & Hdone); [apply Hc3|apply Hc3|done|by rewrite <- Hn|done|].
  destruct (steps_world version_code Hash address_size first w3 w4) as (Hok4 & Hk4 & Hr4); [apply Hc3|lia|done|].
  rewrite Hres. cbn [mbind outcome_bind]. rewrite (cr_running _ _ _ _ _ Hc3) in Hr4. unfold Executor_TearDown. rewrite Hr4. cbn [check mbind outcome_bind].
  destruct (rt_fini w4) as (w5 & Hfin & Hst5 & Hidle5); [done|done|done|]. pose proof (kt_next _ _ _ Hk4).
  destruct (steps_world version_code Hash address_size first w4 w5) as (Hok5 & Hk5 & Hr5); [done|lia|done|].
  rewrite Hfin. cbn [mbind outcome_bind]. eexists. split; [done|]. split_and!; [|by destruct Hok5| |done|done].
  - exists calls, w2, w3, w4, w5. split_and!; try done. split_and!; try done; apply Hc3.
  - assert (kept first w0 w5) as []; [|done]. etrans; [apply Hc3|]. by etrans.
Qed.

Lemma run_execs_spec k w :
  first <= w_next w0 -> tasks_loaded w0 -> world_ok w -> kept first w0 w -> w_running w = false -> rt_idle (w_os w) ->
  exists w', run_execs k w = Ok w' /\ nsteps run_of k w w' /\ world_ok w' /\ kept first w0 w' /\ w_running w' = false /\ rt_idle (w_os w').
Proof.
  intros Hfst Hld. revert w. induction k as [|k IH]; intros w Hok Hk Hr Hidle; cbn [run_execs]; [exists w; split; [done|]; split; [constructor|done]|].
  destruct (Run_spec w) as (w1 & -> & Hrun & Hok1 & Hk1 & Hr1 & Hidle1); try done.
  destruct (IH w1) as (w2 & Heq & Hruns & Hrest); try done. exists w2. split; [done|]. split; [by eapply nsteps_l|done].
Qed.
End run.

Arguments rt_idle {C OS RuntimeOps version_code Hash address_size first ready tasks RuntimeLaws} _ : rename.
Arguments rt_knows {C OS RuntimeOps version_code Hash address_size first ready tasks RuntimeLaws} _ _ : rename.
Arguments rt_done {C OS RuntimeOps version_code Hash address_size first ready tasks RuntimeLaws} _ : rename.
Arguments rt_init {C OS RuntimeOps version_code Hash address_size first ready tasks RuntimeLaws} : rename.
Arguments rt_create {C OS RuntimeOps version_code Hash address_size first ready tasks RuntimeLaws} : rename.
Arguments rt_resume {C OS RuntimeOps version_code Hash address_size first ready tasks RuntimeLaws} : rename.
Arguments rt_fini {C OS RuntimeOps version_code Hash address_size first ready tasks RuntimeLaws} : rename.

(** ** Runs of a snapshot *)

Section snapshot.
Context {C OS : Type} {CacheOps : TranslationCache C Module_} {RuntimeOps : Runtime C OS}.
Context (version_code : bool) (Hash : list Z -> Z).
Context (files : string -> option (list Z)) (can_open : string -> bool) (read_amount : string -> Z -> Z -> option Z).
Context (address_size : Z).
Implicit Types (w : World C OS) (calls : list call) (ids : gmap Z Z).
Local Abbreviation LoadSpace := (LoadAddressSpaceFromSnapshot files can_open read_amount address_size).
Local Abbreviation load_spaces := (load_spaces files can_open read_amount address_size).
Local Abbreviation space_loadable := (space_loadable files can_open read_amount address_size).

(** The identifiers name different memories. *)
Definition ids_ok ids w : Prop :=
  (forall k m, ids !! k = Some m -> m < w_next w) /\
  forall k1 k2 m, ids !! k1 = Some m -> ids !! k2 = Some m -> k1 = k2.

Lemma load_space_world ids w sp ids' w' :
  world_ok w -> ids_ok ids w -> space_loadable sp -> LoadSpace ids w sp = Ok (ids', w') ->
  world_ok w' /\ ids_ok ids' w' /\ w_next w' = w_next w + 1.
Proof.
  intros Hok [Hlt Hin] [Hpar Hasc]. unfold LoadAddressSpaceFromSnapshot. rewrite Hpar.
  destruct (load_new_space files can_open read_amount address_size (w_heap w) (sp_page_ranges sp)) as
    (h1 & s1 & h2 & s2 & -> & Hr & Hwf2 & Hh & [Hk Hfr] & Ho); [apply Hok|done|].
  case_bool_decide as Hn; [|done]. cbn [check mbind outcome_bind]. rewrite Hr. cbn [mbind outcome_bind]. intros [= <- <-].
  destruct (add_world (w_next w) w h2 s2) as [Hok' _]; try done; [apply Hh| | |].
  { intros l r [Hl _]. right. by apply Hfr. }
  { intros s a Hw. by apply Ho. }
  split_and!; [done| |done]. split; cbn.
  - intros k m [[<- <-]|[_ H]]%lookup_insert_Some; [lia|]. apply Hlt in H. lia.
  - intros k1 k2 m [[<- <-]|[_ H1]]%lookup_insert_Some [[<- E]|[_ H2]]%lookup_insert_Some; try done.
    + apply Hlt in H2. lia.
    + subst m. apply Hlt in H1. lia.
    + by eapply Hin.
Qed.

Lemma load_spaces_world ids w spaces ids' w' :
  world_ok w -> ids_ok ids w -> Forall space_loadable spaces -> load_spaces ids w spaces = Ok (ids', w') ->
  world_ok w' /\ ids_ok ids' w' /\ w_next w' = w_next w + Z.of_nat (length spaces).
Proof.
  revert ids w. induction spaces as [|sp spaces IH]; intros ids w Hok Hid Hl; cbn [Workspace.load_spaces].
  { intros [= <- <-]. split_and!; [done|done|cbn; lia]. }
  apply Forall_cons in Hl as [Hsp Hl]. destruct (LoadSpace ids w sp) as [[ids1 w1]| | |] eqn:E; try done.
  cbn [mbind outcome_bind]. intros Heq. destruct (load_space_world ids w sp ids1 w1 Hok Hid Hsp E) as (Hok1 & Hid1 & Hn1).
  destruct (IH ids1 w1 Hok1 Hid1 Hl Heq) as (? & ? & Hn). split_and!; [done|done|cbn [length]; lia].
Qed.

(** The task [t] of the snapshot was created: with its registers and program
    counter, in a memory that is not one of those loaded and holds the page
    ranges of its address space. *)
Definition fits (snapshot : Program) w (t : SnapshotTask) (c : call) : Prop :=
  it_state (fst c) = st_state t /\ it_pc (fst c) = wrap64 (st_pc t) /\ Z.of_nat (length (pg_address_spaces snapshot)) <= snd c /\
  exists sp s, sp ∈ pg_address_spaces snapshot /\ sp_id sp = st_address_space_id t /\
    w_spaces w !! snd c = Some s /\ holds files (sp_page_ranges sp) (w_heap w) s.

(** The first tasks of the snapshot were created, in order; tasks share a
    memory exactly when they share their address space. *)
Definition ready_snapshot (snapshot : Program) w calls : Prop :=
  exists ts, ts `prefix_of` pg_tasks snapshot /\ Forall2 (fits snapshot w) ts calls /\
    forall i j t1 t2 c1 c2, ts !! i = Some t1 -> calls !! i = Some c1 -> ts !! j = Some t2 -> calls !! j = Some c2 ->
      st_address_space_id t1 = st_address_space_id t2 <-> snd c1 = snd c2.

(** What was loaded: the snapshot, with identifiers for its memories. *)
Record loaded (snapshot : Program) ids w0 : Prop := {
  ld_ok : world_ok w0;
  ld_ids k1 k2 m : ids !! k1 = Some m -> ids !! k2 = Some m -> k1 = k2;
  ld_next : w_next w0 = Z.of_nat (length (pg_address_spaces snapshot));
  ld_running : w_running w0 = false;
  ld_space sp : sp ∈ pg_address_spaces snapshot -> exists m s, ids !! sp_id sp = Some m /\ m < w_next w0 /\
    w_spaces w0 !! m = Some s /\ holds files (sp_page_ranges sp) (w_heap w0) s;
  ld_tasks : initial_tasks (w_exec w0) =
    (fun t => MkInitialTask (st_state t) (wrap64 (st_pc t)) (default 0 (ids !! st_address_space_id t))) <$> pg_tasks snapshot
}.

Definition snapshot_loadable (snapshot : Program) : Prop :=
  NoDup (sp_id <$> pg_address_spaces snapshot) /\ Forall space_loadable (pg_address_spaces snapshot) /\
  Forall (fun t => st_address_space_id t ∈ (sp_id <$> pg_address_spaces snapshot)) (pg_tasks snapshot).

Lemma LoadSnapshotIntoExecutor_loaded snapshot w :
  snapshot_loadable snapshot -> world_ok w -> w_next w = 0 -> w_running w = false -> initial_tasks (w_exec w) = [] ->
  exists ids w0, LoadSnapshotIntoExecutor files can_open read_amount address_size snapshot w = Ok w0 /\ loaded snapshot ids w0 /\ w_os w0 = w_os w.
Proof.
  intros (Hnd & Hl & Ht) Hok Hn0 Hr0 Ht0. unfold LoadSnapshotIntoExecutor.
  destruct (load_spaces_spec files can_open read_amount address_size ∅ w (pg_address_spaces snapshot))
    as (ids & w1 & E & _ & He1 & Ho1 & Hr1 & Hall & _); try done; [apply Hok|apply Forall_forall; intros; apply lookup_empty|].
  rewrite E. cbn [mbind outcome_bind].
  destruct (load_spaces_world ∅ w (pg_address_spaces snapshot) ids w1 Hok) as (Hok1 & [_ Hin] & Hn1); [|done|done|].
  { split; [intros k m Hk|intros k1 k2 m Hk]; by rewrite lookup_empty in Hk. }
  rewrite Forall_forall in Hall. rewrite Forall_forall in Ht.
  destruct (load_tasks_spec ids w1 (pg_tasks snapshot)) as (w2 & -> & Hh & Hs & Hn & Ho & Hr & _ & Hi).
  { apply Forall_forall. intros t (sp & -> & Hin')%Ht%list_elem_of_fmap. destruct (Hall sp Hin') as (m & s & Hm & _). eauto. }
  exists ids, w2. split; [done|]. split; [|congruence]. split; try done.
  - destruct Hok1 as [Hwf Hsp Hnx Hiso]. split; rewrite ?Hh, ?Hs, ?Hn; try done.
  - rewrite Hn, Hn1, Hn0. lia.
  - by rewrite Hr, Hr1.
  - intros sp (m & s & Hm & Hlt & Hsm & Hhd)%Hall. exists m, s. by rewrite Hn, Hs, Hh.
  - by rewrite Hi, He1, Ht0.
Qed.

Lemma holds_copy w0 w k m s0 pages :
  is_copy w0 w k m -> w_spaces w0 !! k = Some s0 -> holds files pages (w_heap w0) s0 ->
  exists s, w_spaces w !! m = Some s /\ holds files pages (w_heap w) s.
Proof.
  intros (s1 & s & H0 & Hs & Hw & Ha & Hp & _) H1 [_ Hb Hpm Hu Hnp]. assert (s1 = s0) as -> by congruence. exists s. split; [done|].
  assert (Hperm : forall p r wr x, has_perms s0 p r wr x -> has_perms s p r wr x).
  { intros p r wr x (<- & <- & <-). apply Hp. }
  split; try done; intros; rewrite ?Ha; auto.
Qed.

Lemma starts_fits snapshot ids w0 w ts calls :
  loaded snapshot ids w0 -> starts (Z.of_nat (length (pg_address_spaces snapshot))) w0 w calls -> ts ⊆ pg_tasks snapshot ->
  Forall (fun t => st_address_space_id t ∈ (sp_id <$> pg_address_spaces snapshot)) (pg_tasks snapshot) ->
  calls.*1 = (fun t => MkInitialTask (st_state t) (wrap64 (st_pc t)) (default 0 (ids !! st_address_space_id t))) <$> ts ->
  Forall2 (fits snapshot w) ts calls.
Proof.
  intros Hld [Hst _] Hsub Ht Hfst. rewrite Forall_forall in Hst. rewrite Forall_forall in Ht. apply Forall2_lookup. intros i.
  pose proof (f_equal (.!! i) Hfst) as Hi. cbv beta in Hi. rewrite !list_lookup_fmap in Hi.
  destruct (ts !! i) as [t|] eqn:Et, (calls !! i) as [[info m]|] eqn:Ec; cbn in Hi; try done; constructor.
  injection Hi as ->. split_and!; [done|done| |].
  { apply (Hst _ (list_elem_of_lookup_2 _ _ _ Ec)). }
  cbn.
  assert (Htin : t ∈ pg_tasks snapshot) by (by eapply Hsub, list_elem_of_lookup_2). apply Ht, list_elem_of_fmap in Htin as (sp & Hid & Hsp).
  destruct (ld_space _ _ _ Hld sp Hsp) as (k & s0 & Hk & _ & Hs0 & Hh).
  destruct (Hst _ (list_elem_of_lookup_2 _ _ _ Ec)) as [_ Hcp]. cbn in Hcp. rewrite Hid, Hk in Hcp. cbn in Hcp.
  destruct (holds_copy w0 w k m s0 _ Hcp Hs0 Hh) as (s & ? & ?). by exists sp, s.
Qed.

Lemma ready_run_snapshot snapshot ids w0 w calls :
  loaded snapshot ids w0 -> snapshot_loadable snapshot -> ready_run (Z.of_nat (length (pg_address_spaces snapshot))) w0 w calls -> ready_snapshot snapshot w calls.
Proof.
  intros Hld (_ & _ & Ht) [[rest Hpre] Hst]. rewrite (ld_tasks _ _ _ Hld) in Hpre.
  apply fmap_app_inv in Hpre as (ts & ts' & Hts & Hrest & Hall). exists ts.
  assert (Hsub : ts ⊆ pg_tasks snapshot) by (rewrite Hall; set_solver).
  split; [by exists ts'|]. split; [by eapply starts_fits|].
  intros i j t1 t2 c1 c2 Ht1 Hc1 Ht2 Hc2. destruct Hst as [_ Hsh].
  rewrite <- (Hsh c1 c2) by (by eapply list_elem_of_lookup_2). rewrite Forall_forall in Ht.
  assert (Hmem : forall i t c, ts !! i = Some t -> calls !! i = Some c -> ids !! st_address_space_id t = Some (it_memory (fst c))).
  { intros i0 t c Hti Hci. assert (Htin : t ∈ pg_tasks snapshot) by (by eapply Hsub, list_elem_of_lookup_2). apply Ht, list_elem_of_fmap in Htin as (sp & Hid & Hsp).
    destruct (ld_space _ _ _ Hld sp Hsp) as (k & _ & Hk & _). pose proof (f_equal (.!! i0) Hts) as Hi. cbv beta in Hi.
    rewrite !list_lookup_fmap, Hti, Hci in Hi. cbn in Hi. injection Hi as ->. cbn. by rewrite Hid, Hk. }
  pose proof (Hmem i t1 c1 Ht1 Hc1) as E1. pose proof (Hmem j t2 c2 Ht2 Hc2) as E2. split; [congruence|].
  intros E. rewrite E in E1. by eapply (ld_ids _ _ _ Hld).
Qed.
(** A runtime that may rely on less can be used where more is promised. *)
Definition laws_weaken {first} {R R' : World C OS -> list call -> Prop} {n}
    (Laws : RuntimeLaws version_code Hash address_size first R n) (Hsub : forall w calls, R' w calls -> R w calls) :
    RuntimeLaws version_code Hash address_size first R' n := {|
  rt_idle := rt_idle; rt_knows := rt_knows; rt_done := rt_done; rt_init := rt_init; rt_fini := rt_fini;
  rt_create w calls info m Hok Hr Hk Hready := rt_create w calls info m Hok Hr Hk (Hsub _ _ Hready);
  rt_resume w calls Hok Hr Hk Hn Hready := rt_resume w calls Hok Hr Hk Hn (Hsub _ _ Hready)
|}.

(** Runs of a snapshot that was loaded. *)
Definition snapshot_at_resume (knows : OS -> list call -> Prop) (snapshot : Program) w calls : Prop :=
  world_ok w /\ w_running w = true /\ knows (w_os w) calls /\ ready_snapshot snapshot w calls.
Definition snapshot_run (knows : OS -> list call -> Prop) (snapshot : Program) : World C OS -> World C OS -> Prop :=
  execution (ready_snapshot snapshot) (snapshot_at_resume knows snapshot) (length (pg_tasks snapshot)).

Lemma loaded_runs snapshot ids w0 k
    {Laws : RuntimeLaws version_code Hash address_size (Z.of_nat (length (pg_address_spaces snapshot))) (ready_snapshot snapshot) (length (pg_tasks snapshot))} :
  loaded snapshot ids w0 -> snapshot_loadable snapshot -> rt_idle (w_os w0) ->
  exists w', run_execs k w0 = Ok w' /\ nsteps (snapshot_run rt_knows snapshot) k w0 w' /\ w_running w' = false /\ rt_idle (w_os w') /\
    Forall (fun sp => exists m s, m < Z.of_nat (length (pg_address_spaces snapshot)) /\ w_spaces w' !! m = Some s /\
              holds files (sp_page_ranges sp) (w_heap w') s) (pg_address_spaces snapshot).
Proof.
  intros Hld Hl Hidle. pose proof (ld_next _ _ _ Hld) as Hn.
  assert (Hlen : length (initial_tasks (w_exec w0)) = length (pg_tasks snapshot)) by by rewrite (ld_tasks _ _ _ Hld), length_fmap.
  assert (Hrr : forall w calls, ready_run (Z.of_nat (length (pg_address_spaces snapshot))) w0 w calls -> ready_snapshot snapshot w calls).
  { intros w calls. by apply (ready_run_snapshot snapshot ids w0 w calls Hld Hl). }
  pose (Laws0 := laws_weaken Laws Hrr).
  destruct (run_execs_spec version_code Hash _ (Z.of_nat (length (pg_address_spaces snapshot))) w0 (Laws := Laws0) Hlen k w0)
    as (w' & -> & Hruns & Hok' & Hk & Hr' & Hidle'); try apply Hld; try done.
  - by rewrite Hn.
  - unfold tasks_loaded. rewrite (ld_tasks _ _ _ Hld). pose proof (proj2 (proj2 Hl)) as Ht. rewrite Forall_fmap.
    eapply Forall_impl; [exact Ht|]. intros t Hin. apply list_elem_of_fmap in Hin as (sp & Hid & Hsp).
    destruct (ld_space _ _ _ Hld sp Hsp) as (m & s & Hm & Hlt & Hs & _). cbn. rewrite Hid, Hm. cbn. rewrite Hs. rewrite Hn in Hlt. split; [done|eauto].
  - exists w'. split; [done|]. split.
    { eapply (nsteps_congruence id); [|exact Hruns]. intros wa wb. unfold run_of, snapshot_run. rewrite Hlen. apply execution_mono; [done|].
      intros w calls (? & ? & _ & Hkn & ?%Hrr). done. }
    split; [done|]. split; [done|]. apply Forall_forall. intros sp Hsp.
    destruct (ld_space _ _ _ Hld sp Hsp) as (m & s & _ & Hlt & Hs & Hh).
    rewrite Hn in Hlt. destruct (kt_space _ _ _ Hk m s Hlt Hs) as [Hs' Ha']. exists m, s. split_and!; [done|done|].
    eapply holds_mono; [done|by eapply Hok'|done].
Qed.
End snapshot.

(** ** [main] *)

Section main.
Context {C OS : Type} {CacheOps : TranslationCache C Module_} {RuntimeOps : Runtime C OS}.
Context (version_code : bool) (Hash : list Z -> Z).
Context (CurrentWorkingDirectory PathSeparator : string) (CanonicalPath : string -> string).
Context (TryCreateDirectory FileExists can_open_snapshot : string -> bool) (ParseFromIstream : string -> option Program).
Context (FLAGS_workspace : string) (FLAGS_max_num_execs : Z).
Context (files : string -> option (list Z)) (can_open : string -> bool) (read_amount : string -> Z -> Z -> option Z).
Context (valid_arch valid_os : string -> bool) (arch_address_size : string -> Z).
Context {M : Type} (host_function : list Z -> Z) (wrapper : list Z -> Z -> Z).
Context (find_tool : list Z -> option (Tool M)) (alloc_funcs : gmap (list Z) Z) (FLAGS_num_io_threads : Z).
Context (CodeCache_Create : Tool M -> string -> string -> Paths -> outcome (C * Paths)).
Context (index_file : string -> @File CachedIndexEntry * bool) (os0 : OS).

Local Abbreviation SnapshotPath := (SnapshotPath CurrentWorkingDirectory PathSeparator CanonicalPath TryCreateDirectory FLAGS_workspace).
Local Abbreviation construct := (construct_executor CurrentWorkingDirectory PathSeparator CanonicalPath TryCreateDirectory FLAGS_workspace host_function wrapper find_tool alloc_funcs
  FLAGS_num_io_threads CodeCache_Create index_file).
Local Abbreviation main := (main CurrentWorkingDirectory PathSeparator CanonicalPath TryCreateDirectory FileExists can_open_snapshot
  ParseFromIstream FLAGS_workspace FLAGS_max_num_execs files can_open read_amount valid_arch valid_os arch_address_size
  host_function wrapper find_tool alloc_funcs FLAGS_num_io_threads CodeCache_Create index_file os0).

(** Reading the index publishes functions, but starts no task. *)
Lemma Executor_new_tasks c (i : FileBackedCache CachedIndexEntry) names err (e : Executor C) :
  Executor_new c i names err = Ok e -> initial_tasks e = [].
Proof.
  unfold Executor_new. destruct (forallb _ _); [|done]. cbn [check mbind outcome_bind]. intros [= <-].
  set (e0 := MkExecutor _ _ _ _ _). assert (H0 : initial_tasks e0 = []) by done. revert H0. generalize e0. clear e0.
  induction ((fun o => default zero_entry o) <$> contents i) as [|en ens IH]; intros e0 H0; cbn [foldl]; [done|].
  apply IH. unfold load_index_entry. by destruct (_ =? 0).
Qed.

Lemma construct_tasks FLAGS_tool arch os p e p2 : construct FLAGS_tool arch os p = Ok (e, p2) -> initial_tasks e = [].
Proof.
  unfold construct_executor. destruct (LoadTool _ _ _ _ _ _) as [tool| | |]; try done. cbn [mbind outcome_bind].
  destruct (CodeCache_Create tool arch os p) as [[c p1]| | |]; try done. cbn [mbind outcome_bind].
  destruct (IndexPath _ _ _ _ _ p1) as [[path p3]| | |]; try done. cbn [mbind outcome_bind].
  destruct (index_file path) as [f ms]. destruct (Executor_new _ _ _ _) as [e'| | |] eqn:E; try done. cbn [mbind outcome_bind].
  intros [= <- <-]. by eapply Executor_new_tasks.
Qed.

Lemma initial_world_ok (e : Executor C) : world_ok (initial_world os0 e).
Proof.
  split; cbn; [apply wf_empty_heap|..].
  - intros m s Hm. by rewrite lookup_empty in Hm.
  - intros m [s Hm]. by rewrite lookup_empty in Hm.
  - intros m1 m2 s1 s2 _ Hm. by rewrite lookup_empty in Hm.
Qed.

(** C7: [main] exits successfully on every snapshot that can be loaded, and
    does exactly [--max_num_execs] runs of it, each of which initialises the
    runtime, creates a task for every task of the snapshot, in order, resumes
    the runtime and finishes it, each time from the state the step before
    left.  When a task is created and when the runtime is resumed, the tasks
    have the registers and program counters recorded and their memories hold
    exactly the bytes and permissions of their address spaces, shared by the
    tasks that share an address space, whatever the runs before did; and in
    the end the loaded memories are still the snapshot's.  A snapshot can be
    loaded when its address spaces have distinct identifiers and no parents,
    their page ranges are page-aligned, ascending and backed by readable files,
    and its tasks name its spaces; of the runtime [RuntimeLaws] are asked: its
    entry points return and do nothing but operate on the memories they were
    given. *)
Theorem main_runs_snapshot FLAGS_tool p path p1 snapshot e p2
    {Laws : RuntimeLaws version_code Hash (arch_address_size (pg_arch snapshot)) (Z.of_nat (length (pg_address_spaces snapshot)))
              (ready_snapshot files snapshot) (length (pg_tasks snapshot))} :
  0 < FLAGS_max_num_execs -> rt_idle os0 ->
  SnapshotPath p = Ok (path, p1) -> FileExists path = true -> can_open_snapshot path = true -> ParseFromIstream path = Some snapshot ->
  valid_arch (pg_arch snapshot) = true -> valid_os (pg_os snapshot) = true ->
  construct FLAGS_tool (pg_arch snapshot) (pg_os snapshot) p1 = Ok (e, p2) ->
  snapshot_loadable files can_open read_amount (arch_address_size (pg_arch snapshot)) snapshot ->
  exists w0 w',
    LoadSnapshotIntoExecutor files can_open read_amount (arch_address_size (pg_arch snapshot)) snapshot (initial_world os0 e) = Ok w0 /\
    main FLAGS_tool p = Ok (EXIT_SUCCESS, w') /\
    nsteps (execution (ready_snapshot files snapshot) (ready_snapshot files snapshot) (length (pg_tasks snapshot)))
      (Z.to_nat FLAGS_max_num_execs) w0 w' /\
    w_running w' = false /\
    Forall (fun sp => exists m s, m < Z.of_nat (length (pg_address_spaces snapshot)) /\ w_spaces w' !! m = Some s /\
              holds files (sp_page_ranges sp) (w_heap w') s) (pg_address_spaces snapshot).
Proof.
  intros Hmax Hidle HP He Ho Hparse Ha Hos Hc Hl. unfold Execute.main, LoadSnapshotFromFile.
  rewrite (proj2 (Z.ltb_lt _ _) Hmax), HP. cbn [check mbind outcome_bind]. rewrite He, Ho, Hparse. cbn [check mbind outcome_bind].
  rewrite Ha, Hos, Hc. cbn [check mbind outcome_bind].
  destruct (LoadSnapshotIntoExecutor_loaded files can_open read_amount (arch_address_size (pg_arch snapshot)) snapshot (initial_world os0 e))
    as (ids & w0 & -> & Hld & Hos0); [done|apply initial_world_ok|done|done|by eapply construct_tasks|].
  cbn [mbind outcome_bind].
  destruct (loaded_runs version_code Hash files can_open read_amount (arch_address_size (pg_arch snapshot)) snapshot ids w0
    (Z.to_nat FLAGS_max_num_execs)) as (w' & -> & Hruns & Hr' & _ & Hall); [done|done|by rewrite Hos0|].
  cbn [mbind outcome_bind]. exists w0, w'. split; [done|]. split; [done|]. split; [|done].
  eapply (nsteps_congruence id); [|exact Hruns]. intros wa wb. apply execution_mono; [done|]. by intros w calls (_ & _ & _ & ?).
Qed.

End main.

(** *** [Virtualize.cpp] *)

Section virtualize.
Context {C OS : Type} {CacheOps : TranslationCache C Module_} {RuntimeOps : Runtime C OS}.
Context (CurrentWorkingDirectory PathSeparator : string) (CanonicalPath : string -> string).
Context (TryCreateDirectory : string -> bool) (FLAGS_workspace : string) (FLAGS_max_num_execs : Z).
Context (valid_arch valid_os : string -> bool).
Context {M : Type} (host_function : list Z -> Z) (wrapper : list Z -> Z -> Z).
Context (find_tool : list Z -> option (Tool M)) (alloc_funcs : gmap (list Z) Z) (FLAGS_num_io_threads : Z).
Context (CodeCache_Create : Tool M -> string -> string -> Paths -> outcome (C * Paths)).
Context (index_file : string -> @File CachedIndexEntry * bool) (os0 : OS).
Local Abbreviation virtualize_main := (virtualize_main CurrentWorkingDirectory PathSeparator CanonicalPath TryCreateDirectory
  FLAGS_workspace FLAGS_max_num_execs valid_arch valid_os host_function wrapper find_tool alloc_funcs FLAGS_num_io_threads
  CodeCache_Create index_file os0).

Lemma load_kvm_first FLAGS_tool :
  find_tool (chars "kvm") = None -> Tool_Load find_tool (virtualize_tool FLAGS_tool) = Fatal.
Proof.
  intros Hk. unfold Tool_Load, virtualize_tool. set (request := chars "kvm" ++ [kPathListSep] ++ FLAGS_tool).
  assert (Hs : SplitPathList request kPathListSep = Ok (chars "kvm" :: filter nonempty (split_ref FLAGS_tool kPathListSep []))).
  { unfold request. rewrite SplitPathList_spec by done. cbn [app]. rewrite split_ref_at by (vm_compute; set_solver).
    rewrite filter_cons_True by (by vm_compute). done. }
  assert (He : exists c cs, request = c :: cs) by (unfold request; vm_compute chars; cbn; eauto).
  destruct He as (c & cs & ->). rewrite Hs. cbn [mbind outcome_bind].
  destruct (filter nonempty _) as [|n ns]; unfold LoadOneTool; cbn [load_tools]; unfold LoadOneTool; by rewrite Hk.
Qed.

(** The virtualizer cannot start: it always asks for the tool [kvm]
    first, which [Tool::Load] does not know, so that unless there is a file of
    that name it dies before it executes anything, whatever tools were asked
    for. *)
Theorem virtualize_needs_kvm FLAGS_arch FLAGS_os FLAGS_tool p :
  find_tool (chars "kvm") = None -> virtualize_main FLAGS_arch FLAGS_os FLAGS_tool p = Fatal.
Proof.
  intros Hk. unfold Execute.virtualize_main, construct_executor, LoadTool. rewrite load_kvm_first by done.
  destruct (_ <? _); [|done]. destruct (valid_arch FLAGS_arch); [|done]. by destruct (valid_os FLAGS_os).
Qed.
End virtualize.

(** *** Two runs of a program that overwrites its memory *)

(** A code cache whose library defines every symbol. *)
#[local] Instance demo_cache : TranslationCache unit Module_ := {|
  tc_Lookup _ _ := 0; tc_Lookup_symbol _ _ := 1; tc_AddModuleToCache c _ := Ok c;
  tc_RunConstructors c := c; tc_SetUp c := c; tc_TearDown c := c
|}.

(** The runtime remembers the tasks it is told of.  It fails unless a task
    starts with the recorded registers and its byte at 8192 is zero, which it
    then overwrites. *)
Definition demo_create (state : list Z) (pc m : Z) (w : World unit (list Z)) : outcome (World unit (list Z)) :=
  check (bool_decide (state = [1; 2]) && (pc =? 4096)) ;; Ok (with_os w (w_os w ++ [m])).

Definition demo_touch {OS} (m : Z) (w : World unit OS) : outcome (World unit OS) :=
  s ← deref_opt (w_spaces w !! m);
  '(ok, v, s) ← TryRead_8 (w_heap w) s 8192;
  check (ok && (v =? 0)) ;;
  let w := set_space w m (w_heap w) s in
  '(ok, h, s) ← TryWrite_8 false (w_heap w) s 8192 9;
  check (ok : bool) ;;
  Ok (set_space w m h s).

Definition demo_resume (w : World unit (list Z)) : outcome (World unit (list Z)) :=
  match w_os w with [m] => demo_touch m w | _ => Fatal end.

#[local] Instance demo_runtime : Runtime unit (list Z) := {|
  vmill_init w := Ok (with_os w []); vmill_create_task := demo_create; vmill_resume := demo_resume; vmill_fini w := Ok w
|}.

Lemma demo_bss_zero s h :
  holds demo_files [demo_text; demo_bss] h s -> abs h s 8192 = Some 0 /\ CanWriteAligned s 8192 = true /\ masked s 8192 = 8192.
Proof.
  intros Hh. pose proof (hd_wf _ _ _ _ Hh) as Hw.
  assert (Hin : demo_bss ∈ [demo_text; demo_bss]) by (apply list_elem_of_further, list_elem_of_here).
  split_and!.
  - rewrite (hd_bytes _ _ _ _ Hh demo_bss 8192 Hin); [by vm_compute|by vm_compute].
  - by apply (hd_perms _ _ _ _ Hh demo_bss 8192 Hin).
  - unfold masked. destruct (ws_mask _ _ Hw) as [-> | ->]; by vm_compute.
Qed.

Lemma demo_overwrite h s :
  wf_heap h -> wf_space h s -> abs h s 8192 = Some 0 -> CanWriteAligned s 8192 = true -> masked s 8192 = 8192 ->
  exists s1 h2 s2, TryRead_8 h s 8192 = Ok (true, 0, s1) /\ TryWrite_8 false h s1 8192 9 = Ok (true, h2, s2) /\ masked s1 8192 = 8192.
Proof.
  intros Hwf Hw Ha Hp Hm. assert (Hacc : forall perm, perm (AlignDownToPage 8192) = true -> accessible h s perm 8192 1).
  { intros perm Hperm a Hin. assert (a = 8192) as -> by lia. split; [by rewrite Ha|by apply Hperm]. }
  destruct (TryRead_8_spec h s 8192) as (ok & v & s1 & Heq & Hr); [done|done|by vm_compute|]. rewrite Hm in Hr.
  assert (ok = true) as ->.
  { apply (rd_succeeds _ _ _ _ _ _ _ Hr), Hacc. unfold any_perm. change (AlignDownToPage 8192) with 8192. rewrite Hp. by destruct (CanReadAligned s 8192). }
  destruct (rd_ok _ _ _ _ _ _ _ Hr eq_refl) as [_ Hv].
  assert (v = 0) as ->. { specialize (Hv O v eq_refl). change (8192 + Z.of_nat 0) with 8192 in Hv. congruence. }
  exists s1. pose proof (rd_step _ _ _ _ _ _ _ Hr) as Hst. destruct (cache_step_perms _ _ 8192 Hst) as (_ & Hp1 & _).
  destruct (TryWrite_8_spec false h s1 8192) with (val := 9) as (ok & h2 & s2 & Hwr & Hpost); [done|apply Hr|by vm_compute|by vm_compute| |].
  { destruct Hst as (? & ? & ? & ->). unfold masked in *. cbn. by rewrite Hm. }
  assert (Hm1 : masked s1 8192 = 8192). { destruct Hst as (? & ? & ? & ->). done. }
  exists h2, s2. split; [done|]. assert (ok = true) as ->; [|done]. apply (wr_succeeds _ _ _ _ _ _ _ _ Hpost).
  rewrite Hm1. intros a Hin. assert (a = 8192) as -> by (cbn in Hin; lia). change (AlignDownToPage 8192) with 8192. rewrite Hp1, (cache_step_abs _ _ h 8192 Hst), Ha. done.
Qed.

Lemma demo_fits {OS} (w : World unit OS) calls c :
  ready_snapshot demo_files demo_snapshot w calls -> c ∈ calls ->
  it_state (fst c) = [1; 2] /\ it_pc (fst c) = 4096 /\ 1 <= snd c /\
  exists s, w_spaces w !! snd c = Some s /\ holds demo_files [demo_text; demo_bss] (w_heap w) s.
Proof.
  intros (ts & [rest Hts] & Hall & _) [i Hc]%list_elem_of_lookup.
  destruct (Forall2_lookup_r _ _ _ _ _ Hall Hc) as (t & Ht & Hs & Hpc & Hlt & sp & s & Hsp & _ & Hm & Hh).
  assert (Htin : t ∈ pg_tasks demo_snapshot).
  { rewrite Hts. apply elem_of_app. left. by eapply list_elem_of_lookup_2. }
  apply list_elem_of_singleton in Htin as ->. apply list_elem_of_singleton in Hsp as ->. split_and!; [done|done|done|]. by exists s.
Qed.

Lemma demo_touch_ok {OS} Hash address_size (w : World unit OS) m s :
  world_ok w -> 1 <= m -> w_spaces w !! m = Some s -> holds demo_files [demo_text; demo_bss] (w_heap w) s ->
  exists w', demo_touch m w = Ok w' /\ rtc (runtime_step false Hash address_size 1) w w' /\ w_os w' = w_os w.
Proof.
  intros Hok Hlt Hs Hh. destruct (demo_bss_zero s (w_heap w) Hh) as (Ha & Hp & Hm).
  destruct (demo_overwrite (w_heap w) s) as (s1 & h2 & s2 & Hrd & Hwr & Hm1); [apply Hok|by eapply Hok|done|done|done|].
  unfold demo_touch. rewrite Hs. cbn [deref_opt mbind outcome_bind]. rewrite Hrd. cbn [mbind outcome_bind check andb Z.eqb].
  cbn [set_space w_heap]. rewrite Hwr. cbn [mbind outcome_bind check]. eexists. split; [done|]. split; [|done].
  apply (rtc_l _ _ (set_space w m (w_heap w) s1)); [|apply rtc_once].
  - apply (rs_memory _ _ _ 1 w m s); [done|exact Hs|]. apply (op_read_8 _ _ _ _ 8192 true 0); [by vm_compute|exact Hrd].
  - apply (rs_memory _ _ _ 1 (set_space w m (w_heap w) s1) m s1); [done|apply lookup_insert_eq|].
    apply (op_write_8 _ _ _ _ 8192 9 true); [by vm_compute| |exact Hwr]. split; [by vm_compute|]. rewrite Hm1. by vm_compute.
Qed.

#[local] Instance demo_laws : RuntimeLaws false (fun _ => 0) 64 1 (ready_snapshot demo_files demo_snapshot) 1.
Proof.
  exists (fun _ => True) (fun os calls => os = calls.*2) (fun _ => True).
  - intros w _ _ _ _. exists (with_os w []). split_and!; [done| |done]. apply rtc_once, rs_os.
  - intros w calls info m _ _ Hk Hr. destruct (demo_fits w _ (info, m) Hr) as (Hs & Hpc & _);
      [apply elem_of_app; right; apply list_elem_of_here|]. cbn in Hs, Hpc. exists (w_os w ++ [m]). cbn. unfold demo_create. rewrite Hs, Hpc.
    split; [done|]. by rewrite Hk, fmap_app.
  - intros w calls Hok _ Hk Hn Hr. destruct calls as [|[info m] []]; try done. cbn in Hk.
    destruct (demo_fits w _ (info, m) Hr) as (_ & _ & Hlt & s & Hs & Hh); [apply list_elem_of_here|].
    destruct (demo_touch_ok (fun _ => 0) 64 w m s Hok Hlt Hs Hh) as (w' & Heq & Hst & _). exists w'. cbn. unfold demo_resume. by rewrite Hk.
  - intros w _ _ _. by exists w.
Defined.

Definition demo_tools : list Z -> option (Tool unit) :=
  find_tool (NullTool no_symbols) (NullTool no_symbols) (NullTool no_symbols) (fun _ => false) (fun _ => NullTool no_symbols).

Definition demo_main (max_num_execs : Z) : Paths -> outcome (Z * World unit (list Z)) :=
  main "ws" "/" id (fun _ => true) (fun _ => true) (fun _ => true) (fun _ => Some demo_snapshot) "" max_num_execs
    demo_files (fun _ => true) demo_read (fun _ => true) (fun _ => true) (fun _ => 64)
    (fun _ => 0) (fun _ _ => 0) demo_tools ∅ 0 (fun _ _ _ p => Ok (tt, p)) (fun _ => (MkFile 0 ∅, true)) [] [].
Definition demo_paths : Paths := MkPaths (fun _ => "") "".
Definition demo_executor : Executor unit := MkExecutor tt (Open sizeof_CachedIndexEntry (MkFile 0 ∅) true) [] ∅ 1.

Lemma demo_loadable : snapshot_loadable demo_files (fun _ => true) demo_read 64 demo_snapshot.
Proof.
  split; [apply NoDup_singleton|]. split; [|apply Forall_singleton, list_elem_of_here]. apply Forall_singleton. split; [done|].
  cbn [ascending sp_page_ranges]. split_and!; [split..|done]; try (vm_compute; done); try (vm_compute; split; congruence).
  - right. exists demo_file. split; [apply demo_text_readable|vm_compute; congruence].
  - by left.
Qed.

(** Both runs see the zero byte the first one overwrote. *)
Lemma main_runs_snapshot_witness :
  exists w0 w', demo_main 2 demo_paths = Ok (EXIT_SUCCESS, w') /\
    nsteps (execution (ready_snapshot demo_files demo_snapshot) (ready_snapshot demo_files demo_snapshot) 1) 2 w0 w' /\
    exists m s, w_spaces w' !! m = Some s /\ abs (w_heap w') s 8192 = Some 0.
Proof.
  destruct (main_runs_snapshot false (fun _ => 0) "ws" "/" id (fun _ => true) (fun _ => true) (fun _ => true) (fun _ => Some demo_snapshot) "" 2
    demo_files (fun _ => true) demo_read (fun _ => true) (fun _ => true) (fun _ => 64)
    (fun _ => 0) (fun _ _ => 0) demo_tools ∅ 0 (fun _ _ _ p => Ok (tt, p)) (fun _ => (MkFile 0 ∅, true)) [] []
    demo_paths "ws/snapshot" (MkPaths (<[Static_SnapshotPath := "ws/snapshot"]> (<[Static_Dir := "ws"]> (fun _ => ""))) "") demo_snapshot demo_executor
    (MkPaths (<[Static_IndexPath := "ws/index"]> (<[Static_SnapshotPath := "ws/snapshot"]> (<[Static_Dir := "ws"]> (fun _ => "")))) ""))
    as (w0 & w' & _ & Heq & Hruns & _ & Hall); [done..| |].
  - apply demo_loadable.
  - exists w0, w'. split; [exact Heq|]. split; [exact Hruns|]. apply Forall_singleton in Hall as (m & s & _ & Hs & Hh). exists m, s. split; [done|].
    by apply (demo_bss_zero s (w_heap w')).
Defined.

Lemma virtualize_needs_kvm_witness :
  demo_tools (chars "kvm") = None /\
  virtualize_main "ws" "/" id (fun _ => true) "" 1 (fun _ => true) (fun _ => true) (fun _ => 0) (fun _ _ => 0) demo_tools ∅ 0
    (fun _ _ _ p => Ok (tt, p)) (fun _ => (MkFile 0 ∅, true)) [] "x86" "linux" (chars "fuzzer") demo_paths = @Fatal (Z * World unit (list Z)).
Proof.
  split; [by vm_compute|]. apply virtualize_needs_kvm. by vm_compute.
Defined.
