(* ===== verification/Fuzzer.v ===== *)
(** * Edge counters and persistent locations

    Models [tools/Fuzzer/Fuzzer.cpp] (counting the edges that instrumented
    code reports, and the calls of the input file) and
    [tools/Fuzzer/Location.{h,cpp}] (a location counter that is kept in a file
    between runs).  Floating point numbers are those of the Standard Library's
    [SpecFloat], in double precision. *)

From Stdlib Require Import SpecFloat.
From S2P Require Import Prelude Coverage.

(** ** Counters *)

Definition IncrementEdge (counter : list Z) (index : Z) : list Z :=
  let i := Z.to_nat index in
  let counter := if Z.of_nat (length counter) <=? index then resize (S i) 0 counter else counter in
  alter (fun n => add64 n 1) i counter.

(** The global variables. *)
Record Fuzzer := MkFuzzer { gTakenEdgeCount : list Z; gNotTakenEdgeCount : list Z; gFdToFuzz : Z }.

Fixpoint CoverSwitch (z : Fuzzer) (taken_edge : Z) (edges : list Z) : Fuzzer :=
  match edges with
  | [] => z
  | edge :: edges =>
      CoverSwitch
        (if edge =? taken_edge
         then MkFuzzer (IncrementEdge (gTakenEdgeCount z) edge) (gNotTakenEdgeCount z) (gFdToFuzz z)
         else MkFuzzer (gTakenEdgeCount z) (IncrementEdge (gNotTakenEdgeCount z) edge) (gFdToFuzz z))
        taken_edge edges
  end.

Definition CoverBranch (z : Fuzzer) (taken_edge not_taken_edge : Z) : Fuzzer :=
  MkFuzzer (IncrementEdge (gTakenEdgeCount z) taken_edge) (IncrementEdge (gNotTakenEdgeCount z) not_taken_edge) (gFdToFuzz z).

(** [CoverCompare1], ..., [CoverCompare8] *)
Definition CoverCompare (z : Fuzzer) (here predicate lhs rhs : Z) : Fuzzer := z.

(** What the calls of instrumented code do. *)
Definition cover (z : Fuzzer) (e : Event) : Fuzzer :=
  match e with
  | CovBranch t n => CoverBranch z t n
  | CovSwitch t edges => CoverSwitch z t edges
  | CovCompare _ here p l r => CoverCompare z here p l r
  end.

(** ** The tool *)

Definition fuzz_wrapper_read {H : Type} (host_read : H -> Z -> Z -> Z * H) (z : Fuzzer) (h : H) (fd size : Z) : Z * H :=
  if (0 <=? fd) && (gFdToFuzz z =? fd) then (0, h) else host_read h fd size.

Definition fuzz_wrapper_open {H : Type} (host_open : H -> string -> Z -> Z -> Z * H) (FLAGS_path_to_fuzz : string)
    (z : Fuzzer) (h : H) (path : string) (oflag mode : Z) : Z * Fuzzer * H :=
  let '(fd, h) := host_open h path oflag mode in
  let z := if bool_decide (FLAGS_path_to_fuzz = path) then MkFuzzer (gTakenEdgeCount z) (gNotTakenEdgeCount z) fd else z in
  (fd, z, h).

Definition Fuzzer_SetUp (FLAGS_path_to_fuzz : string) (z : Fuzzer) : Fuzzer :=
  MkFuzzer [] []
    (if bool_decide (FLAGS_path_to_fuzz = "/dev/stdin") then 0
     else if bool_decide (FLAGS_path_to_fuzz = "/dev/stdout") then 1
     else if bool_decide (FLAGS_path_to_fuzz = "/dev/stderr") then 2
     else -1).

(** [double(n)] for an unsigned [n], and [static_cast<int>(d)], which is
    undefined for values an [int] cannot hold. *)
Definition double_of (n : Z) : spec_float := binary_normalize 53 1024 n 0 false.
Definition int_of_double (d : spec_float) : outcome Z :=
  match d with
  | S754_zero _ => Ok 0
  | S754_finite s m e =>
      let a := if 0 <=? e then Z.pos m * 2 ^ e else Z.pos m / 2 ^ (- e) in
      let v := if s then - a else a in
      if (- 2 ^ 31 <=? v) && (v <? 2 ^ 31) then Ok v else Undefined
  | _ => Undefined
  end.

(** The sum, which wraps around, and the number of entries that are not
    zero. *)
Fixpoint tally (counts : list Z) (count unique_count : Z) : Z * Z :=
  match counts with
  | [] => (count, unique_count)
  | c :: counts => tally counts (add64 count c) (if c =? 0 then unique_count else add64 unique_count 1)
  end.

(** [TearDown]: the two numbers it reports. *)
Definition Fuzzer_TearDown (z : Fuzzer) : outcome (Z * Z) :=
  let '(count, unique_count) := tally (gTakenEdgeCount z) 0 0 in
  let percent_pct := SFdiv 53 1024 (double_of unique_count) (double_of (Z.of_nat (length (gTakenEdgeCount z)))) in
  percent ← int_of_double (SFmul 53 1024 percent_pct (double_of 100));
  Ok (count, percent).

(** ** Persistent locations *)

Inductive LocationType := kLocationTypeBranch | kLocationTypeValue.

Definition LocationFileName (type : LocationType) : string :=
  match type with
  | kLocationTypeBranch => "last_branch_location"
  | kLocationTypeValue => "value_trace_location"
  end.

(** An open file: its name and the position in it.  The files that exist are a map
    from names to contents. *)
Record LocFd := MkLocFd { fd_name : string; fd_pos : nat }.

Section location.
(** Whether [open] can open or create a file. *)
Context (can_open : string -> bool) (ToolDir PathSeparator : string).

Definition OpenLocationFile (fs : gmap string (list Z)) (type : LocationType) : outcome (LocFd * gmap string (list Z)) :=
  let loc_file_name := ToolDir +:+ PathSeparator +:+ LocationFileName type in
  check (can_open loc_file_name) ;;
  Ok (MkLocFd loc_file_name 0, match fs !! loc_file_name with Some _ => fs | None => <[loc_file_name := []]> fs end).

Definition FileSize (fs : gmap string (list Z)) (fd : LocFd) : Z := Z.of_nat (length (default [] (fs !! fd_name fd))).

(** [read], [lseek(fd, 0, SEEK_SET)], [ftruncate(fd, 0)] and [write] *)
Definition fd_read (fs : gmap string (list Z)) (fd : LocFd) (n : nat) : list Z * LocFd :=
  let bytes := take n (drop (fd_pos fd) (default [] (fs !! fd_name fd))) in
  (bytes, MkLocFd (fd_name fd) (fd_pos fd + length bytes)).
Definition fd_rewind (fd : LocFd) : LocFd := MkLocFd (fd_name fd) 0.
Definition fd_truncate (fs : gmap string (list Z)) (fd : LocFd) : gmap string (list Z) := <[fd_name fd := []]> fs.
Definition fd_write (fs : gmap string (list Z)) (fd : LocFd) (bytes : list Z) : gmap string (list Z) * LocFd :=
  let old := default [] (fs !! fd_name fd) in
  let new := take (fd_pos fd) (resize (fd_pos fd) 0 old) ++ bytes ++ drop (fd_pos fd + length bytes) old in
  (<[fd_name fd := new]> fs, MkLocFd (fd_name fd) (fd_pos fd + length bytes)).

Definition GetCurrentLocation (fs : gmap string (list Z)) (fd : LocFd) : outcome (Z * LocFd) :=
  let size := FileSize fs fd in
  if size =? 4 then
    let '(bytes, fd) := fd_read fs fd 4 in
    check (0 <? Z.of_nat (length bytes)) ;;
    Ok (le_value bytes, fd_rewind fd)
  else if size =? 0 then Ok (0, fd)
  else Fatal.

Record PersistentLocation := MkPersistentLocation { pl_fd : LocFd; pl_loc : Z }.

Definition PersistentLocation_new (fs : gmap string (list Z)) (type : LocationType) : outcome (PersistentLocation * gmap string (list Z)) :=
  '(fd, fs) ← OpenLocationFile fs type;
  '(loc, fd) ← GetCurrentLocation fs fd;
  Ok (MkPersistentLocation fd loc, fs).

(** The destructor. *)
Definition PersistentLocation_destroy (fs : gmap string (list Z)) (p : PersistentLocation) : outcome (gmap string (list Z)) :=
  let fs := fd_truncate fs (pl_fd p) in
  let '(fs, fd) := fd_write fs (pl_fd p) (le_bytes 4 (pl_loc p)) in
  check (FileSize fs fd =? 4) ;;
  Ok fs.

(** A run of a tool that uses [n] locations: where they start, and the files
    afterwards. *)
Definition session (fs : gmap string (list Z)) (type : LocationType) (n : nat) : outcome (Z * gmap string (list Z)) :=
  '(p, fs) ← PersistentLocation_new fs type;
  fs ← PersistentLocation_destroy fs (MkPersistentLocation (pl_fd p) (Nat.iter n next_loc (pl_loc p)));
  Ok (pl_loc p, fs).

Fixpoint sessions (fs : gmap string (list Z)) (type : LocationType) (ns : list nat) : outcome (list Z * gmap string (list Z)) :=
  match ns with
  | [] => Ok ([], fs)
  | n :: ns => '(start, fs) ← session fs type n; '(starts, fs) ← sessions fs type ns; Ok (start :: starts, fs)
  end.
End location.

(** ** Counts *)

Definition count_at (l : list Z) (i : Z) : Z := default 0 (l !! Z.to_nat i).

Lemma IncrementEdge_count l index i :
  0 <= index -> 0 <= i -> count_at (IncrementEdge l index) i = if decide (i = index) then add64 (count_at l i) 1 else count_at l i.
Proof.
  intros H0 Hi. unfold IncrementEdge, count_at. cbv zeta.
  set (l' := if Z.of_nat (length l) <=? index then _ else _).
  assert (Hl' : forall k, default 0 (l' !! k) = default 0 (l !! k)).
  { intros k. subst l'. destruct (Z.leb_spec (Z.of_nat (length l)) index); [|done].
    destruct (decide (k < length l)%nat).
    - by rewrite lookup_resize by lia.
    - rewrite (lookup_ge_None_2 l k) by lia. destruct (decide (k < S (Z.to_nat index))%nat).
      + by rewrite lookup_resize_new by lia.
      + by rewrite lookup_resize_old by lia. }
  assert (Hlen : (Z.to_nat index < length l')%nat).
  { subst l'. destruct (Z.leb_spec (Z.of_nat (length l)) index); [rewrite length_resize; lia|lia]. }
  case_decide as Hd.
  - subst i. rewrite list_lookup_alter_eq. destruct (lookup_lt_is_Some_2 l' (Z.to_nat index) Hlen) as [n Hn].
    rewrite <- (Hl' (Z.to_nat index)), Hn. done.
  - rewrite list_lookup_alter_ne by lia. apply Hl'.
Qed.

(** The events that count an edge as taken. *)
Definition takes (i : Z) (e : Event) : Z :=
  match e with
  | CovBranch t _ => if decide (t = i) then 1 else 0
  | CovSwitch t edges => if decide (t = i) then Z.of_nat (length (filter (fun x => x = i) edges)) else 0
  | CovCompare _ _ _ _ _ => 0
  end.
Definition misses (i : Z) (e : Event) : Z :=
  match e with
  | CovBranch _ n => if decide (n = i) then 1 else 0
  | CovSwitch t edges => if decide (t = i) then 0 else Z.of_nat (length (filter (fun x => x = i) edges))
  | CovCompare _ _ _ _ _ => 0
  end.
Definition total (f : Event -> Z) (es : list Event) : Z := foldr (fun e n => f e + n) 0 es.

Definition locs_of (e : Event) : list Z := match e with CovBranch t n => [t; n] | CovSwitch t es => t :: es | _ => [] end.

Lemma add64_add64 a b c : add64 (add64 a b) c = add64 a (b + c).
Proof. unfold add64, wrap64. rewrite Zplus_mod_idemp_l. f_equal. lia. Qed.

Lemma CoverSwitch_counts z t edges i :
  0 <= i -> Forall (fun x => 0 <= x) edges ->
  wrap64 (count_at (gTakenEdgeCount (CoverSwitch z t edges)) i) = add64 (count_at (gTakenEdgeCount z) i) (takes i (CovSwitch t edges)) /\
  wrap64 (count_at (gNotTakenEdgeCount (CoverSwitch z t edges)) i) = add64 (count_at (gNotTakenEdgeCount z) i) (misses i (CovSwitch t edges)).
Proof.
  intros Hi Hes. revert z. induction Hes as [|x edges Hx _ IH]; intros z; cbn [CoverSwitch].
  { cbn. unfold add64. by repeat case_decide; rewrite !Z.add_0_r. }
  destruct (IH (if x =? t then MkFuzzer (IncrementEdge (gTakenEdgeCount z) x) (gNotTakenEdgeCount z) (gFdToFuzz z)
                else MkFuzzer (gTakenEdgeCount z) (IncrementEdge (gNotTakenEdgeCount z) x) (gFdToFuzz z))) as [-> ->].
  cbn [takes misses]. rewrite filter_cons.
  destruct (Z.eqb_spec x t) as [->|Hne]; cbn [gTakenEdgeCount gNotTakenEdgeCount]; rewrite IncrementEdge_count by done.
  - destruct (decide (t = i)) as [->|Hti]; cbn [length].
    + rewrite !decide_True by done. cbn [length]. rewrite add64_add64. split; [f_equal; lia|done].
    + rewrite !decide_False by congruence. done.
  - destruct (decide (x = i)) as [->|Hxi]; cbn [length].
    + rewrite !(decide_True (P := i = i)) by done. rewrite !decide_False by congruence. rewrite add64_add64.
      split; [done|]. f_equal. cbn [length]. lia.
    + rewrite (decide_False (P := i = x)) by congruence. by destruct (decide (t = i)).
Qed.

(** After any sequence of events the counters of an edge hold, modulo
    [2^64], how often the edge was reported as taken and as not taken. *)
Theorem cover_counts es z i :
  0 <= i -> Forall (fun e => Forall (fun x => 0 <= x) (locs_of e)) es ->
  wrap64 (count_at (gTakenEdgeCount (foldl cover z es)) i) = add64 (count_at (gTakenEdgeCount z) i) (total (takes i) es) /\
  wrap64 (count_at (gNotTakenEdgeCount (foldl cover z es)) i) = add64 (count_at (gNotTakenEdgeCount z) i) (total (misses i) es).
Proof.
  intros Hi Hes. revert z. induction Hes as [|e es He _ IH]; intros z; cbn [foldl total foldr].
  { unfold add64. by rewrite !Z.add_0_r. }
  fold (total (takes i) es) (total (misses i) es). destruct (IH (cover z e)) as [-> ->].
  assert (Hstep : wrap64 (count_at (gTakenEdgeCount (cover z e)) i) = add64 (count_at (gTakenEdgeCount z) i) (takes i e) /\
            wrap64 (count_at (gNotTakenEdgeCount (cover z e)) i) = add64 (count_at (gNotTakenEdgeCount z) i) (misses i e)).
  { destruct e as [t n|t edges|]; cbn [locs_of] in He.
    - apply Forall_cons in He as [Ht He]. apply Forall_cons in He as [Hn _].
      cbn -[add64]. rewrite !IncrementEdge_count by done. unfold add64.
      split; (destruct (decide (_ = _)) as [->|]; [rewrite decide_True by done|rewrite decide_False by congruence]);
        rewrite ?Z.add_0_r; unfold wrap64; rewrite ?Zmod_mod; done.
    - apply Forall_cons in He as [_ He]. by apply CoverSwitch_counts.
    - cbn. unfold add64. by rewrite !Z.add_0_r. }
  destruct Hstep as [H1 H2]. rewrite <- !add64_add64, <- H1, <- H2. unfold add64, wrap64.
  rewrite !Zplus_mod_idemp_l. done.
Qed.

(** ** Locations across runs *)

Lemma le_bytes_loc l : 0 <= l < two32 -> le_value (le_bytes 4 l) = l.
Proof. intros. rewrite le_value_le_bytes. by apply Z.mod_small. Qed.

Lemma next_loc_range l : 0 <= next_loc l < two32.
Proof. apply Z.mod_pos_bound. done. Qed.

Lemma iter_next_loc n l : 0 <= l < two32 -> Nat.iter n next_loc l = wrap32 (l + Z.of_nat n) .
Proof.
  intros Hl. induction n as [|n IH]; [rewrite Z.add_0_r; symmetry; by apply Z.mod_small|].
  cbn [Nat.iter nat_rect]. change (nat_rect _ _ _ n) with (Nat.iter n next_loc l). rewrite IH. unfold next_loc, wrap32. rewrite Zplus_mod_idemp_l. f_equal. lia.
Qed.

Section sessions.
Context (can_open : string -> bool) (ToolDir PathSeparator : string) (type : LocationType).
#[local] Abbreviation name := (ToolDir +:+ PathSeparator +:+ LocationFileName type).
#[local] Abbreviation session := (session can_open ToolDir PathSeparator).
Hypothesis Hopen : can_open name = true.

(** The location a file holds: none yet, or four bytes. *)
Definition holds (fs : gmap string (list Z)) (l : Z) : Prop :=
  0 <= l < two32 /\ ((l = 0 /\ (fs !! name = None \/ fs !! name = Some [])) \/ fs !! name = Some (le_bytes 4 l)).

Lemma session_spec fs l n :
  holds fs l -> exists fs', session fs type n = Ok (l, fs') /\ holds fs' (wrap32 (l + Z.of_nat n)) /\
    (forall x, x <> name -> fs' !! x = fs !! x).
Proof.
  intros [Hl Hfs]. unfold Fuzzer.session, PersistentLocation_new, OpenLocationFile. cbv zeta. rewrite Hopen. cbn [check mbind outcome_bind].
  set (fs0 := match fs !! name with Some _ => fs | None => <[name := []]> fs end).
  assert (H0 : (l = 0 /\ fs0 !! name = Some []) \/ fs0 !! name = Some (le_bytes 4 l)).
  { subst fs0. destruct Hfs as [(-> & [E|E])|E]; rewrite E; [left|left|by right]; [by rewrite lookup_insert_eq|done]. }
  assert (Hget : GetCurrentLocation fs0 (MkLocFd name 0) = Ok (l, MkLocFd name 0)).
  { unfold GetCurrentLocation, FileSize. cbn [fd_name]. destruct H0 as [[-> E]|E]; rewrite E; [done|]. cbn [from_option id].
    rewrite length_le_bytes. cbn [Z.of_nat Pos.of_succ_nat]. unfold fd_read. cbn [fd_name fd_pos]. rewrite E. cbn [from_option id].
    rewrite drop_0, take_ge by by rewrite length_le_bytes. rewrite length_le_bytes. cbn [check mbind outcome_bind].
    change (4 =? 4) with true. cbn iota. change (0 <? Z.of_nat 4) with true. cbn [check mbind outcome_bind].
    by rewrite le_bytes_loc. }
  rewrite Hget. cbn [mbind outcome_bind pl_fd pl_loc]. rewrite iter_next_loc by done.
  set (l' := wrap32 (l + Z.of_nat n)). assert (Hl' : 0 <= l' < two32) by by apply Z.mod_pos_bound.
  unfold PersistentLocation_destroy, fd_truncate, fd_write. cbn [pl_fd pl_loc fd_name fd_pos].
  rewrite lookup_insert_eq. cbn [from_option id]. rewrite drop_nil, app_nil_r.
  change (take 0 (resize 0 0 []) ++ le_bytes 4 l') with (le_bytes 4 l').
  unfold FileSize. cbn [fd_name]. rewrite lookup_insert_eq. cbn [from_option id]. rewrite length_le_bytes.
  change (Z.of_nat 4 =? 4) with true. cbn [check mbind outcome_bind]. eexists. split; [done|]. split.
  - split; [done|]. right. apply lookup_insert_eq.
  - intros x Hx. rewrite !lookup_insert_ne by done. subst fs0. destruct (fs !! name); [done|]. by rewrite lookup_insert_ne.
Qed.

(** The locations of consecutive runs follow on from each other: the
    file starts out empty or missing, every run starts where the previous one
    ended (modulo [2^32]), and other files are left alone. *)
Theorem sessions_follow_on fs l ns :
  holds fs l ->
  exists fs', sessions can_open ToolDir PathSeparator fs type ns =
      Ok ((fun k => wrap32 (l + Z.of_nat (sum_list (take k ns)))) <$> seq 0 (length ns), fs') /\
    holds fs' (wrap32 (l + Z.of_nat (sum_list ns))) /\ (forall x, x <> name -> fs' !! x = fs !! x).
Proof.
  revert fs l. induction ns as [|n ns IH]; intros fs l Hl; cbn [sessions].
  { exists fs. split; [done|]. split; [|done]. cbn. rewrite Z.add_0_r. unfold wrap32. by rewrite Z.mod_small by apply Hl. }
  destruct (session_spec fs l n Hl) as (fs1 & E1 & H1 & O1). rewrite E1. cbn [mbind outcome_bind].
  destruct (IH fs1 _ H1) as (fs' & E & H & O). rewrite E. cbn [mbind outcome_bind]. exists fs'.
  assert (Hw : forall m, wrap32 (wrap32 (l + Z.of_nat n) + m) = wrap32 (l + Z.of_nat n + m)) by (intros; unfold wrap32; by rewrite Zplus_mod_idemp_l).
  split; [|split].
  - do 2 f_equal. cbn [length seq fmap list_fmap take sum_list]. f_equal.
    + rewrite Z.add_0_r. unfold wrap32. by rewrite Z.mod_small by apply Hl.
    + rewrite <- fmap_S_seq, <- list_fmap_compose. apply list_fmap_ext. intros k x _. cbn. rewrite Hw. f_equal. lia.
  - rewrite Hw in H. change (sum_list (n :: ns)) with (n + sum_list ns)%nat. by rewrite Nat2Z.inj_add, Z.add_assoc.
  - intros x Hx. by rewrite O, O1.
Qed.
End sessions.

Lemma cover_counts_witness :
  wrap64 (count_at (gTakenEdgeCount (foldl cover (MkFuzzer [] [] (-1)) [CovBranch 4 5; CovSwitch 4 [3; 4]; CovBranch 5 4])) 4) = 2.
Proof.
  destruct (cover_counts [CovBranch 4 5; CovSwitch 4 [3; 4]; CovBranch 5 4] (MkFuzzer [] [] (-1)) 4) as [H _].
  - lia.
  - repeat constructor; lia.
  - rewrite H. reflexivity.
Defined.

Lemma sessions_follow_on_witness :
  exists fs', sessions (fun _ => true) "tool" "/" ∅ kLocationTypeBranch [3; 4]%nat = Ok ([0; 3], fs').
Proof.
  destruct (sessions_follow_on (fun _ => true) "tool" "/" kLocationTypeBranch eq_refl ∅ 0 [3; 4]%nat) as (fs' & H & _).
  - split; [split; [lia|reflexivity]|]. left. split; [reflexivity|left; reflexivity].
  - exists fs'. exact H.
Defined.

(** The report of 29 of 100 edges: [0.29 * 100] is not quite 29. *)
Example percent_rounds_down : Fuzzer_TearDown (MkFuzzer (replicate 29 1 ++ replicate 71 0) [] (-1)) = Ok (29, 28).
Proof. vm_compute. reflexivity. Qed.

(** The division when no branch was reported. *)
Example no_branch_undefined path : Fuzzer_TearDown (Fuzzer_SetUp path (MkFuzzer [] [] 0)) = Undefined.
Proof. reflexivity. Qed.

From S2P Require Import Prelude Tools Execute.

(** ** How coverage tools and the fuzzer link

    Models the constructors of [tools/Fuzzer/{BranchCoverage,ValueCoverage,
    Fuzzer}.cpp] and the functions they declare in a module.  The coverage
    tools insert calls of [__cov_branch], [__cov_switch] and [__cov_cmp_n] and
    offer functions that do nothing; the fuzzer provides the functions that
    count.  The theorems say that the fuzzer's functions are called whenever a
    fuzzer is there, in whatever order the tools are named, and that callers
    and callees agree on the types.  Function addresses are parameters. *)

Module CoverageTools.
Import ToolClasses HostTools.

(** ** Types *)

Inductive IRType := VoidTy | IntTy (bits : Z) | PointerTy (pointee : IRType).
#[global] Instance IRType_eq_dec : EqDecision IRType.
Proof. solve_decision. Defined.

Record FunctionType := MkFunctionType { ft_ret : IRType; ft_args : list IRType }.

(** The declarations of a module. *)
Abbreviation Decls := (gmap (list Z) FunctionType).

(** [getOrInsertFunction]: a name that is there keeps its type. *)
Definition getOrInsertFunction (m : Decls) (name : list Z) (ty : FunctionType) : Decls :=
  match m !! name with Some _ => m | None => <[name := ty]> m end.

Definition sizeof_Location : Z := 4.
Definition loc_type : IRType := IntTy (sizeof_Location * 8).

(** [BranchCoverageTool::PrepareModule] *)
Definition Branch_PrepareModule (m : Decls) : Decls :=
  let m := getOrInsertFunction m (chars "__cov_branch") (MkFunctionType VoidTy [loc_type; loc_type]) in
  let loc_ptr_type := PointerTy loc_type in
  getOrInsertFunction m (chars "__cov_switch") (MkFunctionType VoidTy [loc_type; loc_ptr_type; loc_ptr_type]).

(** [ValueCoverageTool::PrepareModule] *)
Definition cov_cmp_type (bits : Z) : FunctionType := MkFunctionType VoidTy [loc_type; IntTy 32; IntTy bits; IntTy bits].
Definition Value_PrepareModule (m : Decls) : Decls :=
  let m := getOrInsertFunction m (chars "__cov_cmp_1") (cov_cmp_type 8) in
  let m := getOrInsertFunction m (chars "__cov_cmp_2") (cov_cmp_type 16) in
  let m := getOrInsertFunction m (chars "__cov_cmp_4") (cov_cmp_type 32) in
  getOrInsertFunction m (chars "__cov_cmp_8") (cov_cmp_type 64).

(** The parameters of the C++ functions: of the fuzzer and of the functions
    that do nothing. *)
Inductive CType := C_Location | C_int | C_uint (bits : Z) | C_LocationPtr.
#[global] Instance CType_eq_dec : EqDecision CType.
Proof. solve_decision. Defined.
Definition ir_type (t : CType) : IRType :=
  match t with C_Location => IntTy 32 | C_int => IntTy 32 | C_uint n => IntTy n | C_LocationPtr => PointerTy (IntTy 32) end.

Definition fuzzer_functions : list (list Z * list CType) :=
  [ (chars "__cov_cmp_1", [C_Location; C_int; C_uint 8; C_uint 8]);
    (chars "__cov_cmp_2", [C_Location; C_int; C_uint 16; C_uint 16]);
    (chars "__cov_cmp_4", [C_Location; C_int; C_uint 32; C_uint 32]);
    (chars "__cov_cmp_8", [C_Location; C_int; C_uint 64; C_uint 64]);
    (chars "__cov_switch", [C_Location; C_LocationPtr; C_LocationPtr]);
    (chars "__cov_branch", [C_Location; C_Location]) ].

Definition branch_dummies : list (list Z * list CType) :=
  [ (chars "__cov_switch", [C_Location; C_LocationPtr; C_LocationPtr]); (chars "__cov_branch", [C_Location; C_Location]) ].

Definition value_dummies : list (list Z * list CType) :=
  [ (chars "__cov_cmp_1", [C_Location; C_int; C_uint 8; C_uint 8]);
    (chars "__cov_cmp_2", [C_Location; C_int; C_uint 16; C_uint 16]);
    (chars "__cov_cmp_4", [C_Location; C_int; C_uint 32; C_uint 32]);
    (chars "__cov_cmp_8", [C_Location; C_int; C_uint 64; C_uint 64]) ].

(** ** The tools *)

Section tools.
Context {M : Type}.
(** The host's functions, the wrappers' [run], the counting functions and the
    functions that do nothing. *)
Context (native run fuzzer_addr dummy_addr : list Z -> Z).

(** The constructor of [BranchCoverageTool]. *)
Definition BranchCoverageTool_symbols : Symbols :=
  let s := OfferSymbol no_symbols (chars "__cov_switch") (dummy_addr (chars "__cov_switch")) in
  OfferSymbol s (chars "__cov_branch") (dummy_addr (chars "__cov_branch")).

(** The constructor of [ValueCoverageTool]. *)
Definition ValueCoverageTool_symbols : Symbols :=
  let s := OfferSymbol no_symbols (chars "__cov_cmp_1") (dummy_addr (chars "__cov_cmp_1")) in
  let s := OfferSymbol s (chars "__cov_cmp_2") (dummy_addr (chars "__cov_cmp_2")) in
  let s := OfferSymbol s (chars "__cov_cmp_4") (dummy_addr (chars "__cov_cmp_4")) in
  OfferSymbol s (chars "__cov_cmp_8") (dummy_addr (chars "__cov_cmp_8")).

(** The constructor of [FuzzerTool]; the class does not override
    [FindSymbolForLinking].  The pair is what the wrappers of [read] and
    [open] call. *)
Definition FuzzerTool_new : Symbols * (Z * Z) :=
  let s := foldl (fun s f => ProvideSymbol s (fst f) (fuzzer_addr (fst f))) no_symbols fuzzer_functions in
  let '(s, read) := ProvideWrappedSymbol Tool_FindSymbolForLinking s (chars "read") (native (chars "read")) (run (chars "read")) in
  let '(s, open) := ProvideWrappedSymbol Tool_FindSymbolForLinking s (chars "open") (native (chars "open")) (run (chars "open")) in
  (s, (read, open)).
Definition FuzzerTool_symbols : Symbols := fst FuzzerTool_new.

(** The tools as trees: their own entry points are given, symbols are
    resolved by [Tool]. *)
Context (branch_lib value_lib fuzzer_lib : Library M).
Definition resolves_as_tool (lib : Library M) : Prop := forall name r, find_symbol_for_linking lib name r = r.
Context (Hb : resolves_as_tool branch_lib) (Hv : resolves_as_tool value_lib) (Hf : resolves_as_tool fuzzer_lib).

(** [CreateBranchCoverageTracker], [CreateValueCoverageTracker] and
    [CreateFuzzer]. *)
Definition CreateBranchCoverageTracker : Tool M := LibraryTool BranchCoverageTool_symbols branch_lib.
Definition CreateValueCoverageTracker : Tool M := LibraryTool ValueCoverageTool_symbols value_lib.
Definition CreateFuzzer : Tool M := LibraryTool FuzzerTool_symbols fuzzer_lib.

Inductive which := WBranch | WValue | WFuzzer.
#[local] Instance which_eq_dec : EqDecision which.
Proof. solve_decision. Defined.

Definition create (k : which) : Tool M :=
  match k with WBranch => CreateBranchCoverageTracker | WValue => CreateValueCoverageTracker | WFuzzer => CreateFuzzer end.

(** The tool that offers a function. *)
Definition offered_by (name : list Z) : which := if decide (name ∈ map fst branch_dummies) then WBranch else WValue.

Context (Hfuzz : forall name, fuzzer_addr name <> 0) (Hdummy : forall name, dummy_addr name <> 0).

Lemma find_offered s name r o :
  provided_symbols s !! name = None -> offered_symbols s !! name = o ->
  Tool_FindSymbolForLinking s name r = if r =? 0 then default 0 o else r.
Proof. intros Hp Ho. unfold Tool_FindSymbolForLinking. rewrite Hp, Ho. cbn. by destruct (Z.eqb_spec r 0) as [->|]. Qed.

(** What one tool makes of a function of the coverage tools. *)
Lemma create_find k name r :
  name ∈ map fst fuzzer_functions ->
  FindSymbolForLinking (create k) name r =
    if decide (k = WFuzzer) then fuzzer_addr name
    else if r =? 0 then if decide (k = offered_by name) then dummy_addr name else 0
    else r.
Proof.
  intros Hn. cbn [map fst fuzzer_functions] in Hn. set_unfold in Hn.
  destruct k; cbn [create FindSymbolForLinking CreateBranchCoverageTracker CreateValueCoverageTracker CreateFuzzer].
  - rewrite Hb. destruct_or! Hn; subst name; (erewrite find_offered; [|reflexivity|reflexivity]); done.
  - rewrite Hv. destruct_or! Hn; subst name; (erewrite find_offered; [|reflexivity|reflexivity]); done.
  - rewrite Hf. destruct_or! Hn; subst name; (erewrite Tool_Find_provided; [|reflexivity|apply Hfuzz]); done.
Qed.

Lemma chain_find ks name r :
  name ∈ map fst fuzzer_functions ->
  foldl (fun r k => FindSymbolForLinking (create k) name r) r ks =
    if decide (WFuzzer ∈ ks) then fuzzer_addr name
    else if r =? 0 then if decide (offered_by name ∈ ks) then dummy_addr name else 0
    else r.
Proof.
  intros Hn. assert (Ho : offered_by name <> WFuzzer) by (unfold offered_by; by case_decide).
  revert r. induction ks as [|k ks IH]; intros r; cbn [foldl].
  { rewrite !decide_False by set_solver. by destruct (Z.eqb_spec r 0) as [->|]. }
  rewrite IH, create_find by done. pose proof (proj2 (Z.eqb_neq _ 0) (Hdummy name)) as Hd.
  pose proof (proj2 (Z.eqb_neq _ 0) (Hfuzz name)) as Hz.
  destruct (decide (WFuzzer ∈ ks)) as [Hin|Hin]; [by rewrite decide_True by set_solver|].
  destruct (decide (k = WFuzzer)) as [->|Hk].
  - rewrite Hz. by rewrite decide_True by set_solver.
  - rewrite (decide_False (P := WFuzzer ∈ k :: ks)) by set_solver. destruct (r =? 0) eqn:Hr.
    + destruct (decide (k = offered_by name)) as [->|Hko].
      * rewrite Hd. by rewrite decide_True by set_solver.
      * cbn. destruct (decide (offered_by name ∈ ks)); [by rewrite decide_True by set_solver|by rewrite decide_False by set_solver].
    + by rewrite Hr.
Qed.

(** However many coverage tools and fuzzers are combined and in whatever
    order: instrumented code calls the fuzzer's functions if there is a fuzzer,
    and otherwise the function that does nothing if the tool that inserts the
    call is there.  With neither the symbol stays unresolved, but then nothing
    calls it. *)
Theorem coverage_calls_linked s ks name :
  provided_symbols s = ∅ -> offered_symbols s = ∅ -> name ∈ map fst fuzzer_functions ->
  FindSymbolForLinking (CompositorTool s (map create ks)) name 0 =
    if decide (WFuzzer ∈ ks) then fuzzer_addr name
    else if decide (offered_by name ∈ ks) then dummy_addr name else 0.
Proof.
  intros Hp Ho Hn. rewrite FindSymbolForLinking_fold. cbn [resolvers]. rewrite foldl_app. cbn [foldl].
  rewrite (find_offered s name _ None) by (rewrite ?Hp, ?Ho; apply lookup_empty).
  assert (Hfold : forall r, foldl (fun r f => f name r) r (flat_map resolvers (map create ks)) =
    foldl (fun r k => FindSymbolForLinking (create k) name r) r ks).
  { induction ks as [|k ks IH]; intros r; cbn [map flat_map foldl]; [done|]. rewrite foldl_app, IH. by rewrite <- FindSymbolForLinking_fold. }
  rewrite Hfold, chain_find by done. cbn.
  destruct (Z.eqb_spec (if decide (WFuzzer ∈ ks) then fuzzer_addr name else if decide (offered_by name ∈ ks) then dummy_addr name else 0) 0)
    as [->|]; done.
Qed.

(** The fuzzer's wrappers call what the process has under these names. *)
Lemma fuzzer_wrappers : native (chars "read") <> 0 -> native (chars "open") <> 0 ->
  snd FuzzerTool_new = (native (chars "read"), native (chars "open")).
Proof.
  intros Hr Ho. unfold FuzzerTool_new, ProvideWrappedSymbol. cbn [snd].
  rewrite !(find_offered _ _ _ None) by (vm_compute; reflexivity). cbn [default].
  by rewrite (proj2 (Z.eqb_neq _ 0) Hr), (proj2 (Z.eqb_neq _ 0) Ho).
Qed.
End tools.

(** ** Callers and callees *)

Lemma getOrInsert_lookup m name ty n :
  getOrInsertFunction m name ty !! n = match m !! n with Some t => Some t | None => if decide (n = name) then Some ty else None end.
Proof.
  unfold getOrInsertFunction. destruct (m !! name) eqn:E.
  - destruct (m !! n) eqn:En; [done|]. case_decide; [congruence|done].
  - destruct (decide (n = name)) as [->|Hne].
    + by rewrite E, lookup_insert_eq.
    + rewrite lookup_insert_ne by done. by destruct (m !! n).
Qed.

(** In a module that does not use these names, both tools declare their
    functions with the parameter types of the fuzzer's functions and of the
    functions that do nothing, in either order. *)
Lemma declared_types m name args :
  (forall n, n ∈ map fst fuzzer_functions -> m !! n = None) ->
  (name, args) ∈ fuzzer_functions ->
  Value_PrepareModule (Branch_PrepareModule m) !! name = Some (MkFunctionType VoidTy (map ir_type args)) /\
  Branch_PrepareModule (Value_PrepareModule m) !! name = Some (MkFunctionType VoidTy (map ir_type args)) /\
  (name, args) ∈ branch_dummies ++ value_dummies.
Proof.
  intros Hm Hin. assert (Hn : m !! name = None).
  { apply Hm. apply list_elem_of_In, in_map_iff. exists (name, args). split; [done|]. by apply list_elem_of_In. }
  unfold Value_PrepareModule, Branch_PrepareModule. rewrite !getOrInsert_lookup, Hn. clear Hm Hn.
  unfold fuzzer_functions in Hin. set_unfold in Hin. destruct_or! Hin; injection Hin as -> ->;
    (split_and!; [vm_compute; reflexivity|vm_compute; reflexivity|apply (bool_decide_unpack _); vm_compute; exact I]).
Qed.
End CoverageTools.
