(* ===== verification/LinuxRuntime.v ===== *)
(** * The emulated Linux as the executor's runtime

    [Runtime/Linux/Run.cpp] behind the interface of the executor: the four
    entry points on the whole system, with the task list of [LinuxTasks] as
    the state of the runtime.  [__vmill_run], which executes lifted code, is a
    parameter; everything around it meets what the executor asks of a
    runtime. *)

From stdpp Require Import relations.
From S2P Require Import Prelude Pages MappedRange AddressSpace MemoryOps FileCache Decoder Lifter Executor ProgramSnapshot Workspace WorkspaceProps Execute ExecuteProps Tasks LinuxTasks.

Local Abbreviation ptr := positive.

Section linux.
Context {C St : Type}.
Implicit Types (w : World C (OS St)) (p : ptr) (l : list ptr).

(** The registers in the bytes of a [State], and the object of a memory. *)
Context (state_of : list Z -> St).
Definition memory_ptr (m : Z) : positive := Z.to_pos (m + 1).

(** [__vmill_run]. *)
Context (run : World C (OS St) -> ptr -> outcome (World C (OS St))).

Definition linux_init w : outcome (World C (OS St)) := Ok (with_os w (vmill_init (w_os w))).

Definition linux_create_task (state : list Z) (pc memory : Z) w : outcome (World C (OS St)) :=
  '(_, os) ← vmill_create_task (w_os w) (state_of state) pc (memory_ptr memory);
  Ok (with_os w os).

Definition linux_fini w : outcome (World C (OS St)) := os ← vmill_fini (w_os w); Ok (with_os w os).

(** The scheduler of [__vmill_resume], with the address spaces and the
    executor in the state. *)
Definition schedule_world w p (t : linux_task St) : outcome (World C (OS St)) :=
  if blocked_count t =? 0 then run w p else Ok (with_os w (put_task (w_os w) p (with_blocked t (blocked_count t - 1)))).

Fixpoint pass_world (fuel : nat) w (o : option ptr) (progressed : bool) : outcome (bool * World C (OS St)) :=
  match o with
  | None => Ok (progressed, w)
  | Some p =>
      match fuel with
      | O => Diverges
      | S fuel =>
          t ← get_task (w_os w) p;
          '(progressed, w) ← (if is_live t then w ← schedule_world w p t; Ok (true, w) else Ok (progressed, w));
          t ← get_task (w_os w) p;
          pass_world fuel w (next t) progressed
      end
  end.

Definition one_pass_world w : outcome (bool * World C (OS St)) :=
  pass_world (size (tasks (w_os w))) w (gTaskList (w_os w)) false.

Fixpoint linux_resume (fuel : nat) w : outcome (World C (OS St)) :=
  match fuel with
  | O => Diverges
  | S fuel =>
      '(progressed, w) ← one_pass_world w;
      if (progressed : bool) then linux_resume fuel w else Ok w
  end.
End linux.

(** On a program that only touches the task list it is [vmill_resume]. *)
Section agreement.
Context {C St : Type} (run : OS St -> ptr -> outcome (OS St)).
Implicit Types (w : World C (OS St)).

Definition lift_run w (p : ptr) : outcome (World C (OS St)) := os ← run (w_os w) p; Ok (with_os w os).

Lemma pass_world_lift fuel w o b :
  pass_world lift_run fuel w o b = ('(b, os) ← resume_pass run fuel (w_os w) o b; Ok (b, with_os w os)).
Proof.
  revert w o b. induction fuel as [|fuel IH]; intros w [p|] b; cbn [pass_world resume_pass]; try (by destruct w).
  destruct (get_task (w_os w) p) as [t| | |]; try done. cbn [mbind outcome_bind]. destruct (is_live t).
  - unfold schedule_world, schedule, lift_run. destruct (_ =? 0).
    + destruct (run (w_os w) p) as [os| | |]; try done. cbn [mbind outcome_bind w_os with_os].
      destruct (get_task os p) as [t'| | |]; try done. cbn [mbind outcome_bind]. apply (IH (with_os w os)).
    + cbn [mbind outcome_bind w_os with_os]. destruct (get_task _ p) as [t'| | |]; try done. cbn [mbind outcome_bind].
      apply (IH (with_os w _)).
  - cbn [mbind outcome_bind]. destruct (get_task _ p) as [t'| | |]; try done. cbn [mbind outcome_bind]. apply IH.
Qed.

Lemma linux_resume_lift fuel w :
  linux_resume lift_run fuel w = (os ← vmill_resume run fuel (w_os w); Ok (with_os w os)).
Proof.
  revert w. induction fuel as [|fuel IH]; intros w; cbn [linux_resume vmill_resume]; [done|].
  unfold one_pass_world, one_pass. rewrite pass_world_lift.
  destruct (resume_pass _ _ _ _ _) as [[b os]| | |]; try done. cbn [mbind outcome_bind]. destruct b; [|done]. apply (IH (with_os w os)).
Qed.
End agreement.

(** ** Deleting the tasks *)

Section fini.
Context {St : Type}.
Implicit Types (os : OS St) (p : ptr) (l : list ptr).

Lemma fini_loop_spec fuel os l :
  NoDup l -> (forall i p, l !! i = Some p -> exists t, tasks os !! p = Some t /\ next t = l !! S i) -> (length l <= fuel)%nat ->
  exists os', fini_loop fuel os (head l) = Ok os' /\ forall q, tasks os' !! q = if decide (q ∈ l) then None else tasks os !! q.
Proof.
  revert os l. induction fuel as [|fuel IH]; intros os [|p l] Hnd Hl Hlen; cbn [head fini_loop]; cbn [length] in Hlen; try lia.
  1, 2: exists os; split; [done|]; intros q; by rewrite decide_False by apply not_elem_of_nil.
  destruct (Hl O p eq_refl) as (t & Ht & Hn). rewrite (get_task_Some _ _ _ Ht). cbn [mbind outcome_bind].
  change ((p :: l) !! 1%nat) with (l !! O) in Hn. rewrite Hn, <- head_lookup.
  apply NoDup_cons in Hnd as [Hp Hnd]. set (os1 := MkOS _ _ _ _ _).
  destruct (IH os1 l) as (os' & -> & Hos'); [done| |lia|].
  - intros i q Hi. destruct (Hl (S i) q Hi) as (t' & Ht' & Hn'). exists t'. split; [|done]. cbn. rewrite lookup_delete_ne; [done|].
    intros <-. by apply Hp, (list_elem_of_lookup_2 _ i).
  - exists os'. split; [done|]. intros q. rewrite Hos'. cbn. destruct (decide (q ∈ l)) as [Hin|Hin].
    + rewrite decide_True; [done|]. by apply list_elem_of_further.
    + destruct (decide (p = q)) as [<-|Hne]; [rewrite lookup_delete_eq, decide_True; [done|apply list_elem_of_here]|].
      rewrite lookup_delete_ne, decide_False; [done| |done]. intros [->|?]%elem_of_cons; done.
Qed.

(** [__vmill_fini] deletes every task. *)
Lemma vmill_fini_empty os l : os_ok os l -> exists os', vmill_fini os = Ok os' /\ tasks os' = ∅.
Proof.
  intros Hok. unfold vmill_fini. rewrite (os_head _ _ Hok), (os_size _ _ Hok).
  destruct (fini_loop_spec (length l) os l) as (os' & -> & Hos'); [apply Hok| |done|].
  - intros i p Hi. destruct (os_ok_lookup _ _ _ _ Hok Hi) as [t Ht]. exists t. split; [done|]. by eapply (os_next _ _ Hok).
  - cbn [mbind outcome_bind]. eexists. split; [done|]. cbn. apply map_eq. intros q. rewrite Hos', lookup_empty.
    case_decide as Hq; [done|]. apply eq_None_not_Some. by rewrite (os_dom _ _ Hok).
Qed.
End fini.

(** ** The laws *)

Section laws.
Context {C St : Type} (version_code : bool) (Hash : list Z -> Z) (address_size first : Z).
Context (state_of : list Z -> St) (run : World C (OS St) -> ptr -> outcome (World C (OS St))) (fuel : nat).
Implicit Types (w : World C (OS St)) (p : ptr) (l : list ptr) (calls : list call).
Local Abbreviation runtime_step := (runtime_step version_code Hash address_size).

Definition linux_runtime : Runtime C (OS St) := {|
  Execute.vmill_init := linux_init; Execute.vmill_create_task := linux_create_task state_of;
  Execute.vmill_resume := linux_resume run fuel; Execute.vmill_fini := linux_fini
|}.

(** A runnable task as it was asked for. *)
Definition runs (os : OS St) p (c : call) : Prop :=
  exists t, tasks os !! p = Some t /\ base_task t = base_task (init_task (state_of (it_state (fst c))) (it_pc (fst c)) (memory_ptr (snd c))) /\
    task_state t = state_of (it_state (fst c)) /\ task_memory t = memory_ptr (snd c) /\ blocked_count t = 0.

(** The task list holds a task for every call, the newest first. *)
Definition linux_knows (os : OS St) calls : Prop := exists l, os_ok os l /\ Forall2 (runs os) l (reverse calls).

Context (ready : World C (OS St) -> list call -> Prop) (n : nat).
Context (Inv : World C (OS St) -> Prop) (measure : World C (OS St) -> nat).

(** A visit of the scheduler: a runnable task runs, one that waits counts down,
    one that stopped is passed over. *)
Inductive sched_visit w p : World C (OS St) -> Prop :=
| vs_run t w' : tasks (w_os w) !! p = Some t -> is_live t = true -> blocked_count t = 0 -> run w p = Ok w' -> sched_visit w p w'
| vs_wait t : tasks (w_os w) !! p = Some t -> is_live t = true -> blocked_count t <> 0 ->
    sched_visit w p (with_os w (put_task (w_os w) p (with_blocked t (blocked_count t - 1))))
| vs_stopped t : tasks (w_os w) !! p = Some t -> is_live t = false -> sched_visit w p w.

(** The tasks of a list are visited in their order. *)
Inductive sched_visits : World C (OS St) -> list ptr -> World C (OS St) -> Prop :=
| vss_nil w : sched_visits w [] w
| vss_cons w1 w2 w3 p l : sched_visit w1 p w2 -> sched_visits w2 l w3 -> sched_visits w1 (p :: l) w3.

(** A round visits the tasks there are when it begins, each once. *)
Definition round w w' : Prop := exists l, os_ok (w_os w) l /\ sched_visits w l w'.
Definition none_live w : Prop := forall p t, tasks (w_os w) !! p = Some t -> is_live t = false.

(** What is asked of the program: its invariant holds when it starts and is
    kept, running a task returns after [runtime_step]s, may put new tasks in
    front of the list, and together with waiting makes progress. *)
Record program_ok : Prop := {
  po_start w calls : world_ok w -> w_running w = true -> linux_knows (w_os w) calls -> length calls = n -> ready w calls ->
    Inv w /\ (measure w < fuel)%nat;
  po_run w l p t : Inv w -> os_ok (w_os w) l -> tasks (w_os w) !! p = Some t -> is_live t = true -> blocked_count t = 0 ->
    exists w' l', run w p = Ok w' /\ rtc (runtime_step first) w w' /\ os_ok (w_os w') (l' ++ l) /\ Inv w' /\ (measure w' < measure w)%nat;
  po_wait w l p t : Inv w -> os_ok (w_os w) l -> tasks (w_os w) !! p = Some t -> is_live t = true -> blocked_count t <> 0 ->
    Inv (with_os w (put_task (w_os w) p (with_blocked t (blocked_count t - 1)))) /\
    (measure (with_os w (put_task (w_os w) p (with_blocked t (blocked_count t - 1)))) < measure w)%nat
}.

Context (Hprog : program_ok).

Lemma schedule_world_ok w l p t :
  Inv w -> os_ok (w_os w) l -> tasks (w_os w) !! p = Some t -> is_live t = true ->
  exists w' l', schedule_world run w p t = Ok w' /\ sched_visit w p w' /\ rtc (runtime_step first) w w' /\ os_ok (w_os w') (l' ++ l) /\ Inv w' /\
    (measure w' < measure w)%nat.
Proof.
  intros Hi Hok Ht Hl. unfold schedule_world. destruct (Z.eqb_spec (blocked_count t) 0) as [Hb|Hb].
  - destruct (po_run Hprog w l p t Hi Hok Ht Hl Hb) as (w' & l' & Hr & Hrest). exists w', l'. split; [done|]. split; [by eapply vs_run|done].
  - destruct (po_wait Hprog w l p t Hi Hok Ht Hl Hb) as [Hi' Hm]. eexists _, []. split; [done|]. split; [by apply vs_wait|].
    split; [apply rtc_once, rs_os|]. split; [by eapply os_ok_put|done].
Qed.

(** A pass returns and visits the rest of the list; it reports progress only
    when the measure went down, and none only when no task was live. *)
Lemma pass_world_ok k w l i b :
  Inv w -> os_ok (w_os w) l -> (length l - i <= k)%nat ->
  exists b' w' l', pass_world run k w (l !! i) b = Ok (b', w') /\ sched_visits w (drop i l) w' /\
    rtc (runtime_step first) w w' /\ os_ok (w_os w') (l' ++ l) /\ Inv w' /\
    (measure w' <= measure w)%nat /\ (b' = true -> b = true \/ (measure w' < measure w)%nat) /\ (b = true -> b' = true) /\
    (b' = false -> w' = w /\ forall p t, p ∈ drop i l -> tasks (w_os w) !! p = Some t -> is_live t = false).
Proof.
  assert (Hend : forall k w l i b, Inv w -> os_ok (w_os w) l -> l !! i = None ->
    exists b' w' l', pass_world run k w (l !! i) b = Ok (b', w') /\ sched_visits w (drop i l) w' /\
      rtc (runtime_step first) w w' /\ os_ok (w_os w') (l' ++ l) /\ Inv w' /\
      (measure w' <= measure w)%nat /\ (b' = true -> b = true \/ (measure w' < measure w)%nat) /\ (b = true -> b' = true) /\
      (b' = false -> w' = w /\ forall p t, p ∈ drop i l -> tasks (w_os w) !! p = Some t -> is_live t = false)).
  { intros k0 w0 l0 i0 b0 Hi Hok Ei. rewrite Ei. rewrite drop_ge by by apply lookup_ge_None_1.
    exists b0, w0, []. split; [by destruct k0|]. split; [constructor|]. split_and!; try done; [by left|].
    intros _. split; [done|]. by intros p t ?%elem_of_nil. }
  revert w l i b. induction k as [|k IH]; intros w l i b Hi Hok Hk.
  { apply Hend; [done|done|apply lookup_ge_None_2; lia]. }
  destruct (l !! i) as [p|] eqn:Ei; [|rewrite <- Ei; by apply Hend]. cbn [pass_world].
  rewrite (drop_S _ _ _ Ei). destruct (os_ok_lookup _ _ _ _ Hok Ei) as [t Ht]. rewrite (get_task_Some _ _ _ Ht). cbn [mbind outcome_bind].
  destruct (is_live t) eqn:El.
  - destruct (schedule_world_ok w l p t) as (w1 & l1 & -> & Hv & Hst & Hok1 & Hi1 & Hm1); [done..|]. cbn [mbind outcome_bind].
    assert (Ei1 : (l1 ++ l) !! (length l1 + i)%nat = Some p).
    { rewrite lookup_app_r by lia. by replace (length l1 + i - length l1)%nat with i by lia. }
    destruct (os_ok_lookup _ _ _ _ Hok1 Ei1) as [t1 Ht1]. rewrite (get_task_Some _ _ _ Ht1). cbn [mbind outcome_bind].
    rewrite (os_next _ _ Hok1 _ _ _ Ei1 Ht1).
    destruct (IH w1 (l1 ++ l) (S (length l1 + i)) true) as (b' & w' & l' & -> & Hvs & Hst' & Hok' & Hi' & Hm' & _ & Htrue & _);
      [done|done|rewrite length_app; lia|]. specialize (Htrue eq_refl).
    rewrite drop_app_ge in Hvs by lia. replace (S (length l1 + i) - length l1)%nat with (S i) in Hvs by lia.
    exists b', w', (l' ++ l1). rewrite <- (assoc_L (++)). split; [done|]. split; [by econstructor|].
    split; [by etrans|]. split; [done|]. split; [done|]. split; [lia|]. split; [intros _; right; lia|]. split; [done|congruence].
  - cbn [mbind outcome_bind]. rewrite (get_task_Some _ _ _ Ht). cbn [mbind outcome_bind].
    rewrite (os_next _ _ Hok _ _ _ Ei Ht).
    destruct (IH w l (S i) b) as (b' & w' & l' & Heq & Hvs & Hst' & Hok' & Hi' & Hm' & Hb & Ht' & Hno); [done|done|lia|].
    exists b', w', l'. split; [done|]. split; [econstructor; [by eapply vs_stopped|done]|]. split_and!; try done.
    intros Hb'. destruct (Hno Hb') as [-> Hd]. split; [done|]. intros q tq [->|Hin]%elem_of_cons Hq; [congruence|by apply (Hd q)].
Qed.

Lemma linux_resume_ok k w l :
  Inv w -> os_ok (w_os w) l -> (measure w < k)%nat ->
  exists w' l', linux_resume run k w = Ok w' /\ rtc round w w' /\ none_live w' /\ rtc (runtime_step first) w w' /\ os_ok (w_os w') l'.
Proof.
  revert w l. induction k as [|k IH]; intros w l Hi Hok Hk; [lia|]. cbn [linux_resume]. unfold one_pass_world.
  rewrite (os_head _ _ Hok), (os_size _ _ Hok), head_lookup.
  destruct (pass_world_ok (length l) w l 0 false) as (b & w1 & l1 & -> & Hvs & Hst & Hok1 & Hi1 & _ & Hb & _ & Hno); [done|done|lia|].
  cbn [mbind outcome_bind]. assert (Hrd : round w w1) by (by exists l). destruct b.
  - destruct (Hb eq_refl) as [?|Hm]; [done|]. destruct (IH w1 (l1 ++ l)) as (w2 & l2 & -> & Hrds & Hnl & Hst2 & Hok2); [done|done|lia|].
    exists w2, l2. split_and!; [done|by eapply rtc_l|done|by etrans|done].
  - exists w1, (l1 ++ l). split; [done|]. split; [by apply rtc_once|]. destruct (Hno eq_refl) as [-> Hd]. split_and!; [|done|done].
    intros p t Ht. apply (Hd p t); [|done]. apply (os_dom _ _ Hok). by rewrite Ht.
Qed.

(** The emulated Linux is a runtime. *)
Program Definition linux_laws :
    @RuntimeLaws C (OS St) linux_runtime version_code Hash address_size first ready n := {|
  rt_idle os := tasks os = ∅; rt_knows := linux_knows; rt_done os := exists l, os_ok os l
|}.
Next Obligation.
  intros w _ _ _ Hidle. exists (with_os w (vmill_init (w_os w))). split; [done|]. split; [apply rtc_once, rs_os|].
  exists []. split; [by apply vmill_init_ok|constructor].
Qed.
Next Obligation.
  intros w calls info m _ _ (l & Hok & Hall) _. cbn. unfold linux_create_task.
  destruct (vmill_create_task_spec (w_os w) l (state_of (it_state info)) (it_pc info) (memory_ptr m) Hok)
    as (p & os & -> & Hok' & _ & (t & Ht & Hb & Hs & Hm & _ & Hbl & _) & Hold).
  cbn [mbind outcome_bind]. exists os. split; [done|]. exists (p :: l). split; [done|]. rewrite reverse_snoc. constructor; [by exists t|].
  eapply Forall2_impl; [done|]. intros q c (tq & Hq & Hq1 & Hq2 & Hq3 & Hq4).
  destruct (Hold q tq Hq) as (t' & Ht' & Heq). exists t'. split; [done|]. rewrite Heq. by destruct tq.
Qed.
Next Obligation.
  intros w calls Hw Hr Hk Hn Hready. destruct (po_start Hprog w calls Hw Hr Hk Hn Hready) as [Hi Hm]. destruct Hk as (l & Hok & _).
  destruct (linux_resume_ok fuel w l Hi Hok Hm) as (w' & l' & Heq & _ & _ & Hst & Hok'). exists w'. split; [done|]. split; [done|]. by exists l'.
Qed.
Next Obligation.
  intros w _ _ (l & Hok). cbn. unfold linux_fini. destruct (vmill_fini_empty (w_os w) l Hok) as (os & -> & He). cbn [mbind outcome_bind].
  exists (with_os w os). split; [done|]. split; [apply rtc_once, rs_os|done].
Qed.
End laws.

(** ** The emulated Linux runs a snapshot *)

Section runs.
Context {C St : Type} {CacheOps : TranslationCache C Module_} (version_code : bool) (Hash : list Z -> Z).
Context (state_of : list Z -> St) (run : World C (OS St) -> ptr -> outcome (World C (OS St))) (fuel : nat).
Context (files : string -> option (list Z)) (can_open : string -> bool) (read_amount : string -> Z -> Z -> option Z) (address_size : Z).

(** One run of the emulated Linux from [w] to [w']: it starts with an empty
    task list and creates the tasks of the snapshot, which are then all
    runnable; the tasks are scheduled in rounds until none is live; and the
    task list is emptied. *)
Definition linux_execution (snapshot : Program) w w' : Prop :=
  exists calls w1 w2 w3 os4,
    linux_init (started w) = Ok w1 /\
    created (RuntimeOps := linux_runtime state_of run fuel) (ready_snapshot files snapshot) w1 calls w2 /\
    length calls = length (pg_tasks snapshot) /\ linux_knows state_of (w_os w2) calls /\ ready_snapshot files snapshot w2 calls /\
    rtc (round run) w2 w3 /\ none_live w3 /\
    tasks os4 = ∅ /\ w' = stopped (with_os w3 os4).

Lemma snapshot_run_linux snapshot first n w w' Inv measure :
  program_ok version_code Hash address_size first state_of run fuel (ready_snapshot files snapshot) n Inv measure ->
  n = length (pg_tasks snapshot) ->
  snapshot_run (RuntimeOps := linux_runtime state_of run fuel) files (linux_knows state_of) snapshot w w' -> linux_execution snapshot w w'.
Proof.
  intros Hprog -> (calls & w1 & w2 & w3 & w4 & H1 & H2 & Hlen & (Hok & Hr & Hkn & Hready) & H3 & H4 & ->).
  destruct (po_start _ _ _ _ _ _ _ _ _ _ _ Hprog w2 calls Hok Hr Hkn Hlen Hready) as [Hi Hm]. pose proof Hkn as (l & Hl & _).
  destruct (linux_resume_ok _ _ _ _ _ _ _ _ _ _ _ Hprog fuel w2 l Hi Hl Hm) as (w3' & l3 & Heq & Hrds & Hnl & _ & Hok3).
  cbn in H3. rewrite H3 in Heq. injection Heq as <-. cbn in H4. unfold linux_fini in H4.
  destruct (vmill_fini_empty (w_os w3) l3 Hok3) as (os4 & Hf & He). rewrite Hf in H4. cbn [mbind outcome_bind] in H4. injection H4 as <-.
  exists calls, w1, w2, w3, os4. by split_and!.
Qed.

(** C8: the emulated Linux executes a snapshot that can be loaded (its address
    spaces have distinct identifiers and no parents, their page ranges are
    page-aligned, ascending and backed by readable files, its tasks name its
    spaces): loading it and running it any number of times returns, and each
    run is a [linux_execution].  It starts from an empty task list and creates
    one runnable task for every task of the snapshot, in order, with its
    registers and program counter, in memories that hold what the snapshot
    says and are shared as in the snapshot.  Then it schedules in rounds: each
    round visits every task there is once, in the order of the list, runs it
    when it is live and not blocked, and counts its blocking down when it is
    live and blocked.  It goes on until no task is live and leaves no task
    behind, and in the end the loaded memories are still the snapshot's.  The
    program is only asked to keep an invariant of its own and to make progress
    from such a start. *)
Theorem linux_runs_snapshot snapshot w k Inv measure :
  snapshot_loadable files can_open read_amount address_size snapshot ->
  world_ok w -> w_next w = 0 -> w_running w = false -> initial_tasks (w_exec w) = [] -> tasks (w_os w) = ∅ ->
  program_ok version_code Hash address_size (Z.of_nat (length (pg_address_spaces snapshot))) state_of run fuel
    (ready_snapshot files snapshot) (length (pg_tasks snapshot)) Inv measure ->
  exists w0 w', LoadSnapshotIntoExecutor files can_open read_amount address_size snapshot w = Ok w0 /\
    run_execs (RuntimeOps := linux_runtime state_of run fuel) k w0 = Ok w' /\
    nsteps (linux_execution snapshot) k w0 w' /\ tasks (w_os w') = ∅ /\
    Forall (fun sp => exists m s, m < Z.of_nat (length (pg_address_spaces snapshot)) /\ w_spaces w' !! m = Some s /\
              holds files (sp_page_ranges sp) (w_heap w') s) (pg_address_spaces snapshot).
Proof.
  intros Hl Hok Hn Hr Ht Hidle Hprog.
  destruct (LoadSnapshotIntoExecutor_loaded files can_open read_amount address_size snapshot w) as (ids & w0 & -> & Hld & Hos); try done.
  destruct (loaded_runs (RuntimeOps := linux_runtime state_of run fuel) version_code Hash files can_open read_amount address_size snapshot ids w0 k
    (Laws := linux_laws _ _ _ _ _ _ _ _ _ _ _ Hprog)) as (w' & Heq & Hruns & _ & He & Hall); [done|done|cbn; by rewrite Hos|].
  exists w0, w'. split; [done|]. split; [done|]. split; [|done].
  eapply (nsteps_congruence id); [|exact Hruns]. intros wa wb. by eapply snapshot_run_linux.
Qed.
End runs.

(** *** A task that overwrites its memory and exits *)

#[local] Existing Instance demo_cache.

Definition demo_run (w : World unit (OS (list Z))) (p : ptr) : outcome (World unit (OS (list Z))) :=
  t ← get_task (w_os w) p;
  w ← demo_touch (Z.pos (task_memory t) - 1) w;
  Ok (with_os w (put_task (w_os w) p (with_base t (with_status (base_task t) kTaskStatusExited kTaskStatusExited)))).

Definition demo_inv (w : World unit (OS (list Z))) : Prop :=
  world_ok w /\ exists p t, tasks (w_os w) = {[p := t]} /\ gTaskList (w_os w) = Some p /\ blocked_count t = 0 /\
    (is_live t = true -> 1 <= Z.pos (task_memory t) - 1 /\
       exists s, w_spaces w !! (Z.pos (task_memory t) - 1) = Some s /\ holds demo_files [demo_text; demo_bss] (w_heap w) s).

Definition demo_measure (w : World unit (OS (list Z))) : nat :=
  match gTaskList (w_os w) ≫= (tasks (w_os w) !!.) with Some t => if is_live t then 1 else 0 | None => 0 end%nat.

Lemma demo_start w calls :
  world_ok w -> linux_knows id (w_os w) calls -> length calls = 1%nat -> ready_snapshot demo_files demo_snapshot w calls ->
  demo_inv w /\ (demo_measure w < 2)%nat.
Proof.
  intros Hok (l & Hl & Hall) Hlen Hr. destruct calls as [|[info m] []]; try done. cbn in Hall.
  apply list.Forall2_cons_inv_r in Hall as (p & l' & (t & Ht & Hb & _ & Hm & Hbl) & Hnil & ->). apply Forall2_nil_inv_r in Hnil as ->.
  destruct (demo_fits w _ (info, m) Hr) as (_ & _ & Hlt & s & Hs & Hh); [apply list_elem_of_here|]. cbn in Hlt, Hs, Hm.
  assert (Hp : Z.pos (task_memory t) - 1 = m) by (rewrite Hm; unfold memory_ptr; lia).
  assert (Htasks : tasks (w_os w) = {[p := t]}).
  { apply map_eq. intros q. destruct (decide (q = p)) as [->|Hne]; [by rewrite lookup_singleton_eq|].
    rewrite lookup_singleton_ne by done. apply eq_None_not_Some. rewrite (os_dom _ _ Hl), list_elem_of_singleton. done. }
  split.
  - split; [done|]. exists p, t. split; [done|]. split; [by rewrite (os_head _ _ Hl)|]. split; [done|]. intros _. rewrite Hp. split; [done|]. by exists s.
  - unfold demo_measure. destruct (_ ≫= _) as [t'|]; [destruct (is_live t')|]; lia.
Qed.

Lemma demo_inv_task w p t : demo_inv w -> tasks (w_os w) !! p = Some t ->
  tasks (w_os w) = {[p := t]} /\ gTaskList (w_os w) = Some p /\ blocked_count t = 0 /\
  (is_live t = true -> 1 <= Z.pos (task_memory t) - 1 /\
     exists s, w_spaces w !! (Z.pos (task_memory t) - 1) = Some s /\ holds demo_files [demo_text; demo_bss] (w_heap w) s).
Proof.
  intros (_ & q & t' & Ht & Hrest) Hp. rewrite Ht in Hp. apply lookup_singleton_Some in Hp as [-> ->]. by rewrite Ht.
Qed.

Lemma demo_program : program_ok false (fun _ => 0) 64 1 id demo_run 2 (ready_snapshot demo_files demo_snapshot) 1 demo_inv demo_measure.
Proof.
  split.
  - intros w calls Hok _ Hk Hn Hr. by apply (demo_start w calls).
  - intros w l p t Hi Hl Ht Hlive _. destruct (demo_inv_task w p t Hi Ht) as (Hts & Hg & Hb & Hm). destruct (Hm Hlive) as (Hlt & s & Hs & Hh).
    destruct Hi as [Hok _]. destruct (demo_touch_ok (fun _ => 0) 64 w _ s Hok Hlt Hs Hh) as (w1 & Heq & Hst & Hos).
    destruct (steps_world false (fun _ => 0) 64 1 w w1 Hok) as (Hok1 & _); [|done|].
    { assert (Z.pos (task_memory t) - 1 < w_next w); [|lia]. apply (wo_next _ Hok). by rewrite Hs. }
    unfold demo_run. rewrite (get_task_Some _ _ _ Ht). cbn [mbind outcome_bind]. rewrite Heq. cbn [mbind outcome_bind]. rewrite Hos.
    set (t' := with_base t _). eexists _, []. split; [done|]. split; [eapply rtc_r; [exact Hst|apply rs_os]|].
    split; [by eapply os_ok_put|]. split.
    + split; [by destruct Hok1|]. exists p, t'. cbn. split; [by rewrite Hts, insert_singleton_eq|]. done.
    + unfold demo_measure. cbn. rewrite Hg. cbn. rewrite Ht, lookup_insert_eq, Hlive. cbn. lia.
  - intros w l p t Hi _ Ht _ Hb. destruct (demo_inv_task w p t Hi Ht) as (_ & _ & Hb0 & _). done.
Qed.

Definition demo_linux_world : World unit (OS (list Z)) := initial_world (MkOS ∅ None None 0 1%positive) demo_executor.

Lemma linux_runs_snapshot_witness :
  exists w0 w', LoadSnapshotIntoExecutor demo_files (fun _ => true) demo_read 64 demo_snapshot demo_linux_world = Ok w0 /\
    run_execs (RuntimeOps := linux_runtime id demo_run 2) 3 w0 = Ok w' /\
    nsteps (linux_execution id demo_run 2 demo_files demo_snapshot) 3 w0 w' /\ tasks (w_os w') = ∅.
Proof.
  destruct (linux_runs_snapshot false (fun _ => 0) id demo_run 2 demo_files (fun _ => true) demo_read 64 demo_snapshot demo_linux_world 3
    demo_inv demo_measure) as (w0 & w' & Hl & Hr & Hs & He & _); [apply demo_loadable|apply initial_world_ok|done..|apply demo_program|].
  exists w0, w'. split; [exact Hl|]. split; [exact Hr|]. split; [exact Hs|exact He].
Defined.
