(* ===== verification/Coroutine.v ===== *)
(** * Coroutines: switching stacks and rounding modes

    [vmill/Arch/X86/Coroutine.S] switches between the stack of the executor
    and the stack of a task; [vmill/Executor/Coroutine.{h,cpp}] and
    [__vmill_execute] of [vmill/Executor/Runtime.cpp] switch the rounding mode
    of the floating point unit with it.

    The assembly is a list of instructions of a small machine: registers, and
    memory as quadwords by address.  The program counter appears where a
    fragment hands control over ([call], [ret]). *)

From S2P Require Import Prelude Allocators AllocatorProps.

(** ** The object *)

(** [coroutine_stack_size] and the constructor: the end of the stack, its
    allocation and the zone of all stacks.  [__vmill_free_coroutine] deletes
    the object, which does not return the stack to the zone. *)
Definition coroutine_stack_size : Z := 8 * 2 ^ 20.

Section object.
Context (mmap : nat -> Z -> Z -> bool -> option Z) (bp : list Z).

Definition Coroutine_new (gAllocator : ZoneAllocator) : outcome (Z * ZoneAllocation * ZoneAllocator) :=
  '(stack, gAllocator) ← ZoneAllocator_Allocate mmap bp gAllocator coroutine_stack_size;
  Ok (add64 (za_base stack) coroutine_stack_size, stack, gAllocator).

Definition vmill_allocate_coroutine := Coroutine_new.
Definition vmill_free_coroutine (gAllocator : ZoneAllocator) : ZoneAllocator := gAllocator.

(** The stack of a new coroutine, which lies below [stack_end], is apart from
    every block in use. *)
Lemma Coroutine_new_apart z live se stack z' :
  (forall n addr size fixed ret, mmap n addr size fixed = Some ret -> 0 < ret) -> (0 < length bp)%nat ->
  zone_inv z live -> coroutine_stack_size + 64 + page_size (allocator z) < two64 ->
  Coroutine_new z = Ok (se, stack, z') -> za_base stack + coroutine_stack_size < two64 ->
  zone_inv z' ((za_base stack, za_size stack) :: live) /\ se - coroutine_stack_size = za_base stack /\
  coroutine_stack_size <= za_size stack /\ Forall (sep (za_base stack, za_size stack)) live /\ 136 <= se < two64.
Proof.
  intros Hnn Hbp Hz Hsz H Htop. unfold Coroutine_new in H.
  destruct (ZoneAllocator_Allocate _ _ _ _) as [[a z1]| | |] eqn:E; try done. cbn in H. injection H as <- <- <-.
  destruct (ZoneAllocator_Allocate_spec mmap bp Hnn Hbp z live coroutine_stack_size a z1) as [Hi Hs _ _]; try done.
  destruct (zi_in _ _ Hi (za_base a, za_size a)) as (Hb & _ & _); [apply elem_of_app; left; apply list_elem_of_here|].
  cbn in Hb. rewrite add64_small by (unfold coroutine_stack_size in *; lia).
  pose proof (zi_sep _ _ Hi) as Hsep. apply separate_app in Hsep as (Hsep & _ & _). cbn in Hsep. destruct Hsep as [Hf _].
  unfold coroutine_stack_size in *. split_and!; try done; lia.
Qed.
End object.

(** ** The machine *)

Inductive Reg := rbx | rbp | r12 | r13 | r14 | r15 | rsp | rdi | rdx | rip.
#[global] Instance Reg_eq_dec : EqDecision Reg.
Proof. solve_decision. Defined.

Record Machine := MkMachine { regs : Reg -> Z; quad : Z -> Z }.

Definition set_r (f : Reg -> Z) (r : Reg) (v : Z) : Reg -> Z := fun r' => if decide (r' = r) then v else f r'.
Definition set_q (q : Z -> Z) (a v : Z) : Z -> Z := fun b => if b =? a then v else q b.

(** Operands [r] are registers, [b] and [off] the memory operand
    [[b + off]]. *)
Inductive Instr :=
| Lea (d b : Reg) (off : Z)
| XchgMem (r b : Reg) (off : Z)
| Xchg (r1 r2 : Reg)
| Load (d b : Reg) (off : Z)
| Store (b : Reg) (off : Z) (s : Reg)
| Push (s : Reg)
| Pop (d : Reg)
| PopMem (b : Reg) (off : Z)
| IncDword (b : Reg) (off : Z)
| DecDword (b : Reg) (off : Z)
| CallTo (target next : Z)
| Ret.

Definition ea (m : Machine) (b : Reg) (off : Z) : Z := wrap64 (regs m b + off).

(** Adding [d] to the dword at [a], the upper half of a quadword. *)
Definition add_dword (q : Z -> Z) (a d : Z) : Z -> Z :=
  let b := a - 4 in set_q q b (wrap32 (q b) + two32 * wrap32 (q b / two32 + d)).

Definition push_value (m : Machine) (v : Z) : Machine :=
  let sp := wrap64 (regs m rsp - 8) in MkMachine (set_r (regs m) rsp sp) (set_q (quad m) sp v).

Definition exec (m : Machine) (i : Instr) : Machine :=
  match i with
  | Lea d b off => MkMachine (set_r (regs m) d (ea m b off)) (quad m)
  | XchgMem r b off =>
      let a := ea m b off in MkMachine (set_r (regs m) r (quad m a)) (set_q (quad m) a (regs m r))
  | Xchg r1 r2 => MkMachine (set_r (set_r (regs m) r1 (regs m r2)) r2 (regs m r1)) (quad m)
  | Load d b off => MkMachine (set_r (regs m) d (quad m (ea m b off))) (quad m)
  | Store b off s => MkMachine (regs m) (set_q (quad m) (ea m b off) (regs m s))
  | Push s => push_value m (regs m s)
  | Pop d => MkMachine (set_r (set_r (regs m) rsp (wrap64 (regs m rsp + 8))) d (quad m (regs m rsp))) (quad m)
  | PopMem b off =>
      MkMachine (set_r (regs m) rsp (wrap64 (regs m rsp + 8))) (set_q (quad m) (ea m b off) (quad m (regs m rsp)))
  | IncDword b off => MkMachine (regs m) (add_dword (quad m) (ea m b off) 1)
  | DecDword b off => MkMachine (regs m) (add_dword (quad m) (ea m b off) (-1))
  | CallTo target next => let m := push_value m next in MkMachine (set_r (regs m) rip target) (quad m)
  | Ret => MkMachine (set_r (set_r (regs m) rsp (wrap64 (regs m rsp + 8))) rip (quad m (regs m rsp))) (quad m)
  end.

Definition run (p : list Instr) (m : Machine) : Machine := foldl exec m p.

(** ** The three fragments *)

Definition vmill_yield_async : list Instr := [
  Lea rdi rdi (-120);
  XchgMem rbx rdi 0;
  XchgMem rbp rdi 8;
  XchgMem r12 rdi 16;
  XchgMem r13 rdi 24;
  XchgMem r14 rdi 32;
  XchgMem r15 rdi 40;
  XchgMem rsp rdi (-8);
  Ret].

Section addresses.
(** The addresses of [__vmill_execute] and of the instruction after its
    call. *)
Variables vmill_execute back : Z.

Definition execute_async_begin : list Instr := [
  Load rdx rdi 24;
  IncDword rdx 12;
  Push rdx;
  Load rdx rdx 0;
  Lea rdx rdx (-120);
  PopMem rdx 48;
  Store rdx 0 rbx;
  Store rdx 8 rbp;
  Store rdx 16 r12;
  Store rdx 24 r13;
  Store rdx 32 r14;
  Store rdx 40 r15;
  Xchg rdx rsp;
  Push rdx;
  CallTo vmill_execute back].
End addresses.

Definition execute_async_end : list Instr := [
  Lea rdx rsp 8;
  Pop rsp;
  Load rbx rdx 0;
  Load rbp rdx 8;
  Load r12 rdx 16;
  Load r13 rdx 24;
  Load r14 rdx 32;
  Load r15 rdx 40;
  Load rdx rdx 48;
  DecDword rdx 12;
  Ret].

(** ** Contexts *)

(** What a switch must keep for the side that does not run: its callee-saved
    registers and its stack pointer.  Its return address is on its stack. *)
Definition Context : Type := list Z * Z.

Definition callee_saved : list Reg := [rbx; rbp; r12; r13; r14; r15].

Definition current (m : Machine) : Context := (regs m <$> callee_saved, regs m rsp).

(** The save area of a stack that ends at [se]. *)
Definition saved (q : Z -> Z) (se : Z) : Context :=
  ((fun k => q (se - 120 + 8 * k)) <$> [0; 1; 2; 3; 4; 5], q (se - 128)).

(** [on_stack] of the coroutine at [co], and [Coroutine::ExecutingNow]. *)
Definition on_stack (q : Z -> Z) (co : Z) : Z := q (co + 8) / two32.
Definition ExecutingNow (q : Z -> Z) (co : Z) : bool := 0 <? on_stack q co.

(** [m] has just returned, through [ret], to the side with context [c] and
    return address [r]. *)
Definition back_at (c : Context) (r : Z) (m : Machine) : Prop :=
  regs m <$> callee_saved = fst c /\ regs m rsp = wrap64 (snd c + 8) /\ regs m rip = r.

(** ** One switch *)

(** Memory overlaps neither the save area nor the coroutine pointer kept
    next to it. *)
Definition outside (se a : Z) : Prop := a + 8 <= se - 128 \/ se - 64 <= a.

Definition stack_ok (se : Z) : Prop := 136 <= se < two64.

Lemma set_q_eq q a b v : a = b -> set_q q a v b = v.
Proof. intros ->. unfold set_q. by rewrite Z.eqb_refl. Qed.
Lemma set_q_ne q a b v : a <> b -> set_q q a v b = q b.
Proof. intros Hne. unfold set_q. by rewrite (proj2 (Z.eqb_neq b a)) by congruence. Qed.
Lemma set_r_eq f r v : set_r f r v r = v.
Proof. unfold set_r. by rewrite decide_True. Qed.
Lemma set_r_ne f r r' v : r' <> r -> set_r f r v r' = f r'.
Proof. intros H. unfold set_r. by rewrite decide_False. Qed.

Ltac cells :=
  repeat first [rewrite set_q_ne by lia | rewrite set_q_eq by lia | rewrite set_r_eq | rewrite set_r_ne by done].

Section switch.
Variables (se : Z).
Hypothesis Hse : stack_ok se.

Lemma area_addr off : 0 <= se + off < two64 -> wrap64 (se + off) = se + off.
Proof. intros. by apply wrap64_small. Qed.

(** One exchange of a register with the save area. *)
Lemma exec_xchg m r b off a :
  regs m b = a -> u64 (a + off) ->
  exec m (XchgMem r b off) = MkMachine (set_r (regs m) r (quad m (a + off))) (set_q (quad m) (a + off) (regs m r)).
Proof. intros Hb Hu. cbn [exec]. unfold ea. by rewrite Hb, wrap64_small. Qed.

(** [__vmill_yield_async] exchanges the running context with the saved one. *)
Lemma yield_spec m :
  regs m rdi = se ->
  let m' := run vmill_yield_async m in
  back_at (saved (quad m) se) (quad m' (snd (saved (quad m) se))) m' /\
  saved (quad m') se = current m /\
  (forall a, outside se a -> quad m' a = quad m a) /\
  quad m' (se - 72) = quad m (se - 72).
Proof.
  intros Hd. unfold stack_ok, two64 in Hse.
  assert (H0 : exec m (Lea rdi rdi (-120)) = MkMachine (set_r (regs m) rdi (se - 120)) (quad m)).
  { cbn [exec]. unfold ea. rewrite Hd, wrap64_small; [done|unfold u64, two64; lia]. }
  unfold run, vmill_yield_async. cbn [foldl]. rewrite H0.
  do 7 (rewrite (exec_xchg _ _ _ _ (se - 120)); [|cbn [regs]; by cells|unfold u64, two64; lia]; cbn [regs quad]).
  cbn [exec regs quad]. cells. split_and!.
  - unfold back_at, saved, callee_saved. cbn [fmap list_fmap fst snd regs]. split_and!; [repeat f_equal|..]; cells; try done; try (f_equal; lia).
    all: try (repeat f_equal; lia).
  - unfold saved, current, callee_saved. cbn [fmap list_fmap]. f_equal; [repeat f_equal|]; cells; done.
  - intros a Ha. unfold outside in Ha. cbn [quad]. by cells.
  - cbn [quad]. by cells.
Qed.
End switch.

(** ** Entering and leaving a coroutine *)

(** The task at [task] has the coroutine at [co], whose stack ends at [se];
    none of them is on the stack that ends at [se] or below the stack pointer
    of the caller. *)
Record enterable (m : Machine) (task co se : Z) : Prop := {
  en_rdi : regs m rdi = task;
  en_task : quad m (task + 24) = co;
  en_co : quad m co = se;
  en_se : stack_ok se;
  en_task_u : u64 (task + 24);
  en_co_u : 0 <= co /\ co + 12 < two64;
  en_sp : 8 <= regs m rsp < two64 - 8;
  en_co_out : co + 16 <= se - 136 \/ se - 64 <= co;
  en_sp_co : regs m rsp + 8 <= co \/ co + 16 <= regs m rsp - 8;
  en_sp_out : regs m rsp + 8 <= se - 136 \/ se - 64 <= regs m rsp - 8
}.

(** The instructions on operands whose values are known. *)
Lemma run_load p m d b off a :
  regs m b = a -> u64 (a + off) ->
  run (Load d b off :: p) m = run p (MkMachine (set_r (regs m) d (quad m (a + off))) (quad m)).
Proof. intros Hb Hu. unfold run. cbn [foldl exec]. unfold ea. by rewrite Hb, wrap64_small. Qed.

Lemma run_store p m b off s a :
  regs m b = a -> u64 (a + off) ->
  run (Store b off s :: p) m = run p (MkMachine (regs m) (set_q (quad m) (a + off) (regs m s))).
Proof. intros Hb Hu. unfold run. cbn [foldl exec]. unfold ea. by rewrite Hb, wrap64_small. Qed.

Lemma run_lea p m d b off a :
  regs m b = a -> u64 (a + off) -> run (Lea d b off :: p) m = run p (MkMachine (set_r (regs m) d (a + off)) (quad m)).
Proof. intros Hb Hu. unfold run. cbn [foldl exec]. unfold ea. by rewrite Hb, wrap64_small. Qed.

Lemma run_push p m s a :
  regs m rsp = a -> u64 (a - 8) ->
  run (Push s :: p) m = run p (MkMachine (set_r (regs m) rsp (a - 8)) (set_q (quad m) (a - 8) (regs m s))).
Proof. intros Hb Hu. unfold run. cbn [foldl exec]. unfold push_value. by rewrite Hb, wrap64_small. Qed.

Lemma run_inc p m b off a :
  regs m b = a -> u64 (a + off) ->
  run (IncDword b off :: p) m = run p (MkMachine (regs m) (add_dword (quad m) (a + off) 1)).
Proof. intros Hb Hu. unfold run. cbn [foldl exec]. unfold ea. by rewrite Hb, wrap64_small. Qed.

Lemma run_dec p m b off a :
  regs m b = a -> u64 (a + off) ->
  run (DecDword b off :: p) m = run p (MkMachine (regs m) (add_dword (quad m) (a + off) (-1))).
Proof. intros Hb Hu. unfold run. cbn [foldl exec]. unfold ea. by rewrite Hb, wrap64_small. Qed.

Lemma run_pop p m d a :
  regs m rsp = a -> u64 (a + 8) ->
  run (Pop d :: p) m = run p (MkMachine (set_r (set_r (regs m) rsp (a + 8)) d (quad m a)) (quad m)).
Proof. intros Hb Hu. unfold run. cbn [foldl exec]. by rewrite Hb, wrap64_small. Qed.

Lemma run_popmem p m b off a sp :
  regs m b = a -> u64 (a + off) -> regs m rsp = sp -> u64 (sp + 8) ->
  run (PopMem b off :: p) m = run p (MkMachine (set_r (regs m) rsp (sp + 8)) (set_q (quad m) (a + off) (quad m sp))).
Proof. intros Hb Hu Hp Hpu. unfold run. cbn [foldl exec]. unfold ea. by rewrite Hb, Hp, !wrap64_small. Qed.

Lemma run_xchg p m r1 r2 :
  run (Xchg r1 r2 :: p) m = run p (MkMachine (set_r (set_r (regs m) r1 (regs m r2)) r2 (regs m r1)) (quad m)).
Proof. done. Qed.

Lemma run_call p m target next a :
  regs m rsp = a -> u64 (a - 8) ->
  run (CallTo target next :: p) m =
  run p (MkMachine (set_r (set_r (regs m) rsp (a - 8)) rip target) (set_q (quad m) (a - 8) next)).
Proof. intros Hb Hu. unfold run. cbn [foldl exec]. unfold push_value. by rewrite Hb, wrap64_small. Qed.

Ltac side := first [done | by cbn [regs quad]; cells | unfold u64, two64; lia].
Tactic Notation "step" uconstr(H) := rewrite H by side; cbn [regs quad].

(** The rounding mode in the lower half of the quadword stays. *)
Lemma add_dword_spec q co d :
  0 <= on_stack q co + d < two32 ->
  on_stack (add_dword q (co + 12) d) co = on_stack q co + d /\
  wrap32 (add_dword q (co + 12) d (co + 8)) = wrap32 (q (co + 8)) /\
  forall a, a <> co + 8 -> add_dword q (co + 12) d a = q a.
Proof.
  unfold on_stack, add_dword. replace (co + 12 - 4) with (co + 8) by lia. intros Hr. rewrite set_q_eq by done.
  unfold wrap32 in *. rewrite (Z.mod_small (_ + d)) by done. pose proof (Z.mod_pos_bound (q (co + 8)) two32 eq_refl).
  split_and!.
  - rewrite Z.mul_comm, Z.div_add by done. rewrite Z.div_small by done. lia.
  - rewrite Z.mul_comm, Z.mod_add by done. by apply Z.mod_small.
  - intros a Ha. by rewrite set_q_ne by lia.
Qed.

Section enter.
Variables vmill_execute back : Z.

(** [__vmill_execute_async] saves the context of its caller and calls
    [__vmill_execute] on the stack of the coroutine. *)
Lemma enter_spec m task co se :
  enterable m task co se -> 0 <= on_stack (quad m) co < two32 - 1 ->
  let m' := run (execute_async_begin vmill_execute back) m in
  saved (quad m') se = current m /\ quad m' (se - 72) = co /\
  on_stack (quad m') co = on_stack (quad m) co + 1 /\ quad m' co = se /\
  regs m' rsp = se - 136 /\ quad m' (se - 136) = back /\ regs m' rip = vmill_execute /\
  quad m' (regs m rsp) = quad m (regs m rsp).
Proof.
  intros [Hd Ht Hc Hs Htu Hcu Hsp Hco Hspc Hspo] Hon. unfold stack_ok, two64 in *.
  unfold execute_async_begin. unfold u64, two64 in *.
  destruct (add_dword_spec (quad m) co 1) as (Hinc & _ & Hoth); [lia|].
  assert (Hqc : add_dword (quad m) (co + 12) 1 co = se) by (rewrite Hoth by lia; done).
  assert (Hqr : add_dword (quad m) (co + 12) 1 (regs m rsp) = quad m (regs m rsp)) by (apply Hoth; lia).
  step (run_load _ _ rdx rdi 24 task). rewrite Ht. step (run_inc _ _ rdx 12 co).
  unfold on_stack in *. set (q := add_dword (quad m) (co + 12) 1) in *.
  step (run_push _ _ rdx (regs m rsp)). step (run_load _ _ rdx rdx 0 co).
  rewrite Z.add_0_r, (set_q_ne q _ co) by lia. rewrite Hqc.
  step (run_lea _ _ rdx rdx (-120) se). step (run_popmem _ _ rdx 48 (se + -120) (regs m rsp - 8)).
  do 6 (step (run_store _ _ rdx _ _ (se + -120))).
  rewrite run_xchg. cbn [regs quad]. step (run_push _ _ rdx (se + -120)).
  step (run_call _ _ vmill_execute back (se + -120 - 8)).
  cbn [run foldl regs quad].
  unfold saved, current, callee_saved. cbn [fmap list_fmap]. rewrite Z.sub_add. split_and!; cells; try done; try lia.
Qed.
End enter.

(** The end of [__vmill_execute_async], back on the stack of the coroutine:
    it restores the saved context. *)
Lemma leave_spec m co se :
  stack_ok se -> 0 <= co /\ co + 12 < two64 -> regs m rsp = se - 128 -> quad m (se - 72) = co ->
  0 < on_stack (quad m) co <= two32 -> co + 8 <> snd (saved (quad m) se) ->
  let m' := run execute_async_end m in
  back_at (saved (quad m) se) (quad m (snd (saved (quad m) se))) m' /\
  on_stack (quad m') co = on_stack (quad m) co - 1.
Proof.
  intros Hs Hcu Hsp Hq Hon Hne. unfold stack_ok in Hs. unfold execute_async_end. cbn [saved snd] in *.
  destruct (add_dword_spec (quad m) co (-1)) as (Hdec & _ & Hoth); [lia|]. unfold two64 in *.
  step (run_lea _ _ rdx rsp 8 (se - 128)). step (run_pop _ _ rsp (se - 128)).
  do 7 (step (run_load _ _ _ rdx _ (se - 128 + 8))).
  replace (se - 128 + 8 + 48) with (se - 72) by lia. rewrite Hq. step (run_dec _ _ rdx 12 co).
  unfold run. cbn [foldl exec regs quad]. split; [|exact Hdec].
  unfold back_at, saved, callee_saved. cbn [fmap list_fmap fst snd regs]. cells. rewrite Hoth by lia.
  split_and!; [|done..]. repeat f_equal; lia.
Qed.

(** ** Histories of one coroutine *)

(** Who does not run, with the context and the return address it has: the
    executor, or the coroutine. *)
Inductive Phase := Running (host : Context) (ret : Z) | Parked (coro : Context) (ret : Z).

Definition waiting (ph : Phase) : Context := match ph with Running c _ | Parked c _ => c end.
Definition waiting_ret (ph : Phase) : Z := match ph with Running _ r | Parked _ r => r end.

(** Code compiled for either side keeps to its own frames: it changes neither
    the save area nor the return address of the waiting side, and only the
    rounding mode of the coroutine. *)
Record own_frames (se co : Z) (m m' : Machine) : Prop := {
  of_saved : saved (quad m') se = saved (quad m) se;
  of_co : quad m' (se - 72) = quad m (se - 72);
  of_count : on_stack (quad m') co = on_stack (quad m) co;
  of_ret : quad m' (snd (saved (quad m) se)) = quad m (snd (saved (quad m) se))
}.

Section history.
Variables vmill_execute back task co se : Z.

(** Machine states reached by entering a coroutine, running code on either
    side and switching with [__vmill_yield_async] from either side. *)
Inductive history : Machine -> Phase -> Prop :=
| hist_enter m :
    enterable m task co se -> on_stack (quad m) co = 0 ->
    history (run (execute_async_begin vmill_execute back) m) (Running (current m) (quad m (regs m rsp)))
| hist_work m m' ph : history m ph -> own_frames se co m m' -> history m' ph
| hist_pause m h r :
    history m (Running h r) -> regs m rdi = se -> regs m rsp + 8 <= se - 128 ->
    history (run vmill_yield_async m) (Parked (current m) (quad m (regs m rsp)))
| hist_resume m c r :
    history m (Parked c r) -> regs m rdi = se -> outside se (regs m rsp) -> co + 8 <> regs m rsp ->
    history (run vmill_yield_async m) (Running (current m) (quad m (regs m rsp))).

Record waits (m : Machine) (ph : Phase) : Prop := {
  wt_se : stack_ok se;
  wt_co : 0 <= co /\ co + 12 < two64;
  wt_out : co + 16 <= se - 136 \/ se - 64 <= co;
  wt_saved : saved (quad m) se = waiting ph;
  wt_ret : quad m (snd (waiting ph)) = waiting_ret ph;
  wt_coptr : quad m (se - 72) = co;
  wt_count : on_stack (quad m) co = 1;
  wt_outside : outside se (snd (waiting ph));
  wt_host : match ph with Running h _ => co + 8 <> snd h | _ => True end
}.

Lemma waits_yield m ph ph' :
  waits m ph -> regs m rdi = se -> outside se (regs m rsp) ->
  waiting ph' = current m -> waiting_ret ph' = quad m (regs m rsp) ->
  match ph' with Running h _ => co + 8 <> snd h | _ => True end ->
  waits (run vmill_yield_async m) ph'.
Proof.
  intros [Hse Hco Hout Hs Hr Hp Hc Ho Hh] Hd Hsp Hw Hwr Hh'.
  destruct (yield_spec se Hse m Hd) as (_ & Hs' & Hq & Hp').
  split; [done|done|done| | | | | |done].
  - by rewrite Hs'.
  - rewrite Hw, Hwr. cbn [current snd]. by apply Hq.
  - by rewrite Hp'.
  - rewrite <-Hc. unfold on_stack. f_equal. apply Hq. unfold outside. lia.
  - by rewrite Hw.
Qed.

Lemma history_waits m ph : history m ph -> waits m ph.
Proof.
  induction 1 as [m He Hon|m m' ph _ IH [Hs Hc Hn Hr]|m h r _ IH Hd Hsp|m c r _ IH Hd Hsp Hne].
  - destruct (enter_spec vmill_execute back m task co se He) as (Hs & Hp & Hn & _ & _ & _ & _ & Hr); [unfold two32; lia|].
    destruct He as [_ _ _ Hse _ Hcu _ Hco Hspc Hspo]. split; [done|done|done|done|done|done| | |].
    + by rewrite Hn, Hon.
    + unfold outside. cbn [waiting current snd]. lia.
    + cbn [current snd]. lia.
  - destruct IH as [Hse Hco Hout Hs0 Hr0 Hp0 Hc0 Ho Hh]. split; [done|done|done| | | | |done|done].
    + by rewrite Hs.
    + rewrite <-Hs0 in *. by rewrite Hr.
    + by rewrite Hc.
    + by rewrite Hn.
  - eapply waits_yield; try done. unfold outside. lia.
  - by eapply waits_yield.
Qed.

(** C17: switching stacks loses nothing.  In every history of entering a
    coroutine, running on either side and switching, a switch with
    [__vmill_yield_async] returns to the side that waits with exactly the
    callee-saved registers, stack pointer and return address it had when it
    switched away; and when the coroutine is done, the end of
    [__vmill_execute_async] returns in the same way to whoever entered or
    last resumed it, and the coroutine is not on a stack any more. *)
Theorem switches_return m ph :
  history m ph ->
  (regs m rdi = se -> back_at (waiting ph) (waiting_ret ph) (run vmill_yield_async m)) /\
  (forall h r, ph = Running h r -> ExecutingNow (quad m) co = true /\
    (regs m rsp = se - 128 ->
     back_at h r (run execute_async_end m) /\ ExecutingNow (quad (run execute_async_end m)) co = false)).
Proof.
  intros Hh. destruct (history_waits _ _ Hh) as [Hse Hco Hout Hs Hr Hp Hc Ho Hne]. split.
  - intros Hd. destruct (yield_spec se Hse m Hd) as (Hb & _ & Hq & _).
    rewrite Hs in Hb. by rewrite (Hq (snd (waiting ph)) Ho), Hr in Hb.
  - intros h r ->. cbn [waiting waiting_ret] in *. unfold ExecutingNow. split; [by rewrite Hc|]. intros Hsp.
    destruct (leave_spec m co se) as [Hb Hn]; try done.
    + rewrite Hc. unfold two32. lia.
    + by rewrite Hs.
    + rewrite Hn, Hc. rewrite Hs, Hr in Hb. done.
Qed.
End history.

(** A machine whose executor enters a coroutine that at once yields. *)
Definition demo_machine : Machine :=
  MkMachine (fun r => match r with rdi => 1000 | rsp => 50000 | rbx => 7 | _ => 0 end)
    (fun a => if a =? 1024 then 2000 else if a =? 2000 then 100000 else if a =? 50000 then 77 else 0).

Definition demo_entered : Machine := run (execute_async_begin 4194304 5) demo_machine.

(** The coroutine has pushed a return address and changed registers. *)
Definition demo_work : Machine :=
  MkMachine (fun r => match r with rdi => 100000 | rsp => 99000 | rbx => 8 | _ => 1 end)
    (set_q (quad demo_entered) 99000 4194400).

Lemma demo_enterable : enterable demo_machine 1000 2000 100000.
Proof. split; cbn; try done; unfold stack_ok, u64, two64; lia. Qed.

Lemma switches_return_witness :
  back_at ([7; 0; 0; 0; 0; 0], 50000) 77 (run vmill_yield_async demo_work) /\
  regs (run vmill_yield_async demo_work) rbx = 7.
Proof.
  split; [|reflexivity].
  refine (proj1 (switches_return 4194304 5 1000 2000 100000 demo_work (Running (current demo_machine) 77) _) eq_refl).
  apply (hist_work 4194304 5 1000 2000 100000 demo_entered).
  - apply (hist_enter 4194304 5 1000 2000 100000 demo_machine demo_enterable). reflexivity.
  - split; reflexivity.
Defined.

(** ** Rounding modes *)

(** The modes of [<cfenv>], and the encodings of a guest: [x87.fxsave.cwd.rc]
    on x86, [fpcr.rmode] on AArch64. *)
Inductive RoundingMode := FE_TONEAREST | FE_DOWNWARD | FE_UPWARD | FE_TOWARDZERO.
#[global] Instance RoundingMode_eq_dec : EqDecision RoundingMode.
Proof. solve_decision. Defined.

Inductive FPURounding := kFPURoundToNearestEven | kFPURoundUpInf | kFPURoundDownNegInf | kFPURoundToZero.

(** [__vmill_get_rounding_mode] *)
Definition vmill_get_rounding_mode (rc : FPURounding) : RoundingMode :=
  match rc with
  | kFPURoundToNearestEven => FE_TONEAREST
  | kFPURoundUpInf => FE_UPWARD
  | kFPURoundDownNegInf => FE_DOWNWARD
  | kFPURoundToZero => FE_TOWARDZERO
  end.

Definition a64_get_rounding_mode (rmode : FPURounding) : RoundingMode :=
  match rmode with
  | kFPURoundToNearestEven => FE_TONEAREST
  | kFPURoundUpInf => FE_UPWARD
  | kFPURoundDownNegInf => FE_DOWNWARD
  | kFPURoundToZero => FE_TOWARDZERO
  end.

(** What a task keeps: [Task::fpu_rounding_mode], the member of its coroutine
    of the same name, and the local [native_rounding] in the frame of
    [__vmill_execute] on the stack of the coroutine. *)
Record TaskRounding := MkRounding {
  task_mode : RoundingMode;
  coro_mode : RoundingMode;
  native_rounding : RoundingMode
}.

(** The mode of the processor, and the tasks. *)
Record Fpu := MkFpu { fe_round : RoundingMode; roundings : gmap positive TaskRounding }.

(** The constructor of [Coroutine] zeroes its mode; 0 is [FE_TONEAREST]. *)
Definition init_rounding (f : Fpu) (t : positive) (rc : FPURounding) : Fpu :=
  MkFpu (fe_round f) (<[t := MkRounding (vmill_get_rounding_mode rc) FE_TONEAREST FE_TONEAREST]> (roundings f)).

(** [__vmill_execute] before and after the lifted code. *)
Definition enter_lifted (f : Fpu) (t : positive) : outcome Fpu :=
  r ← deref_opt (roundings f !! t);
  Ok (MkFpu (task_mode r) (<[t := MkRounding (task_mode r) (coro_mode r) (fe_round f)]> (roundings f))).

Definition leave_lifted (f : Fpu) (t : positive) : outcome Fpu :=
  r ← deref_opt (roundings f !! t);
  Ok (MkFpu (native_rounding r) (<[t := MkRounding (fe_round f) (coro_mode r) (native_rounding r)]> (roundings f))).

(** The rounding part of [Coroutine::Pause] and [Coroutine::Resume]. *)
Definition pause_rounding (f : Fpu) (t : positive) : outcome Fpu :=
  r ← deref_opt (roundings f !! t);
  Ok (MkFpu (fe_round f) (<[t := MkRounding (task_mode r) (fe_round f) (native_rounding r)]> (roundings f))).

Definition resume_rounding (f : Fpu) (t : positive) : outcome Fpu :=
  r ← deref_opt (roundings f !! t);
  Ok (MkFpu (coro_mode r) (roundings f)).

(** *** Interleavings *)

(** What happens to the mode: a task is created, entered, sets its mode
    ([fesetround] in lifted code or in the runtime), pauses, is resumed,
    returns; the executor sets its own. *)
Inductive FpuEvent :=
| EvCreate (t : positive) (rc : FPURounding)
| EvEnter (t : positive)
| EvSet (t : positive) (mode : RoundingMode)
| EvPause (t : positive)
| EvResume (t : positive)
| EvLeave (t : positive)
| EvHost (mode : RoundingMode).

Definition fpu_event (f : Fpu) (e : FpuEvent) : outcome Fpu :=
  match e with
  | EvCreate t rc => Ok (init_rounding f t rc)
  | EvEnter t => enter_lifted f t
  | EvSet _ mode | EvHost mode => Ok (MkFpu mode (roundings f))
  | EvPause t => pause_rounding f t
  | EvResume t => resume_rounding f t
  | EvLeave t => leave_lifted f t
  end.

Fixpoint fpu_events (f : Fpu) (es : list FpuEvent) : outcome Fpu :=
  match es with [] => Ok f | e :: es => f ← fpu_event f e; fpu_events f es end.

(** The order in which the executor can produce events: one task runs at a
    time, and a paused task is resumed, not entered. *)
Inductive Doing := DoIdle | DoRun | DoPaused.
#[global] Instance Doing_eq_dec : EqDecision Doing.
Proof. solve_decision. Defined.

Record Order := MkOrder { running : option positive; doing : gmap positive Doing }.

Definition next_order (o : Order) (e : FpuEvent) : option Order :=
  match e, running o with
  | EvCreate t _, None => if decide (doing o !! t = None) then Some (MkOrder None (<[t := DoIdle]> (doing o))) else None
  | EvEnter t, None =>
      match doing o !! t with Some DoIdle => Some (MkOrder (Some t) (<[t := DoRun]> (doing o))) | _ => None end
  | EvResume t, None =>
      match doing o !! t with Some DoPaused => Some (MkOrder (Some t) (<[t := DoRun]> (doing o))) | _ => None end
  | EvHost _, None => Some o
  | EvSet t _, Some t' => if decide (t = t') then Some o else None
  | EvPause t, Some t' => if decide (t = t') then Some (MkOrder None (<[t := DoPaused]> (doing o))) else None
  | EvLeave t, Some t' => if decide (t = t') then Some (MkOrder None (<[t := DoIdle]> (doing o))) else None
  | _, _ => None
  end.

Fixpoint order_of (o : Order) (es : list FpuEvent) : option Order :=
  match es with [] => Some o | e :: es => o ← next_order o e; order_of o es end.

(** The specification: every task has a rounding mode of its own, that it
    alone sets. *)
Definition private_event (p : gmap positive RoundingMode) (e : FpuEvent) : gmap positive RoundingMode :=
  match e with
  | EvCreate t rc => <[t := vmill_get_rounding_mode rc]> p
  | EvSet t mode => <[t := mode]> p
  | _ => p
  end.

Definition private_modes (es : list FpuEvent) : gmap positive RoundingMode := foldl private_event ∅ es.

(** *** Every task has its own mode *)

Definition task_sees (f : Fpu) (p : gmap positive RoundingMode) (t : positive) (d : Doing) : Prop :=
  exists r, roundings f !! t = Some r /\
    p !! t = Some match d with DoIdle => task_mode r | DoRun => fe_round f | DoPaused => coro_mode r end.

Record fpu_inv (f : Fpu) (o : Order) (p : gmap positive RoundingMode) : Prop := {
  fi_run t : running o = Some t <-> doing o !! t = Some DoRun;
  fi_sees t d : doing o !! t = Some d -> task_sees f p t d
}.

(** The task [t] goes from one activity to another, and the others, which do
    not run, are as before. *)
Lemma fpu_inv_move f f' o o' p p' t d :
  fpu_inv f o p ->
  doing o' = <[t := d]> (doing o) -> running o' = (if decide (d = DoRun) then Some t else None) ->
  (running o = None \/ running o = Some t) ->
  (forall t', t' <> t -> roundings f' !! t' = roundings f !! t' /\ p' !! t' = p !! t') ->
  task_sees f' p' t d -> fpu_inv f' o' p'.
Proof.
  intros [Hr Hs] Hd Hrun Hone Hoth Ht. split.
  - intros t'. rewrite Hrun, Hd. destruct (decide (t' = t)) as [->|Hne].
    + rewrite lookup_insert_eq. case_decide; naive_solver.
    + rewrite lookup_insert_ne by done. rewrite <-Hr. case_decide; naive_solver.
  - intros t' d'. rewrite Hd. destruct (decide (t' = t)) as [->|Hne].
    + rewrite lookup_insert_eq. by intros [= <-].
    + rewrite lookup_insert_ne by done. intros Hd'. destruct (Hs t' d' Hd') as (r & H1 & H2).
      destruct (Hoth t' Hne) as [E1 E2]. exists r. rewrite E1, E2. split; [done|].
      destruct d'; try done. apply Hr in Hd'. naive_solver.
Qed.

Lemma fpu_inv_step f o p e o' :
  fpu_inv f o p -> next_order o e = Some o' -> exists f', fpu_event f e = Ok f' /\ fpu_inv f' o' (private_event p e).
Proof.
  intros Hi Ho. pose proof Hi as [Hr Hs]. destruct e as [t rc|t|t mode|t|t|t|mode]; cbn [next_order] in Ho.
  - destruct (running o) eqn:E; [done|]. case_decide as Hn; [|done]. injection Ho as <-. eexists. split; [done|].
    eapply (fpu_inv_move f _ o _ p _ t DoIdle); cbn; try done; [by left| |].
    + intros t' Hne. by rewrite !lookup_insert_ne.
    + eexists. cbn. by rewrite !lookup_insert_eq.
  - destruct (running o) eqn:E; [done|]. destruct (doing o !! t) as [[| |]|] eqn:Ed; try done. injection Ho as <-.
    destruct (Hs t _ Ed) as (r & H1 & H2). cbn [fpu_event]. unfold enter_lifted. rewrite H1. cbn. eexists. split; [done|].
    eapply (fpu_inv_move f _ o _ p _ t DoRun); cbn; try done; [by left| |].
    + intros t' Hne. by rewrite lookup_insert_ne.
    + eexists. cbn. by rewrite lookup_insert_eq.
  - destruct (running o) as [t'|] eqn:E; [|done]. case_decide as Ht; [|done]. injection Ho as <-. subst t'.
    eexists. split; [done|]. pose proof (proj1 (Hr t) eq_refl) as Ed. destruct (Hs t _ Ed) as (r & H1 & _).
    eapply (fpu_inv_move f _ o _ p _ t DoRun); cbn; try done.
    + by rewrite insert_id.
    + by right.
    + intros t' Hne. by rewrite lookup_insert_ne.
    + exists r. cbn. by rewrite lookup_insert_eq.
  - destruct (running o) as [t'|] eqn:E; [|done]. case_decide as Ht; [|done]. injection Ho as <-. subst t'.
    pose proof (proj1 (Hr t) eq_refl) as Ed. destruct (Hs t _ Ed) as (r & H1 & H2).
    cbn [fpu_event]. unfold pause_rounding. rewrite H1. cbn. eexists. split; [done|].
    eapply (fpu_inv_move f _ o _ p _ t DoPaused); cbn; try done; [by right| |].
    + intros t' Hne. by rewrite lookup_insert_ne.
    + eexists. cbn. by rewrite lookup_insert_eq.
  - destruct (running o) eqn:E; [done|]. destruct (doing o !! t) as [[| |]|] eqn:Ed; try done. injection Ho as <-.
    destruct (Hs t _ Ed) as (r & H1 & H2). cbn [fpu_event]. unfold resume_rounding. rewrite H1. cbn. eexists. split; [done|].
    eapply (fpu_inv_move f _ o _ p _ t DoRun); cbn; try done; [by left|]. by exists r.
  - destruct (running o) as [t'|] eqn:E; [|done]. case_decide as Ht; [|done]. injection Ho as <-. subst t'.
    pose proof (proj1 (Hr t) eq_refl) as Ed. destruct (Hs t _ Ed) as (r & H1 & H2).
    cbn [fpu_event]. unfold leave_lifted. rewrite H1. cbn. eexists. split; [done|].
    eapply (fpu_inv_move f _ o _ p _ t DoIdle); cbn; try done; [by right| |].
    + intros t' Hne. by rewrite lookup_insert_ne.
    + eexists. cbn. by rewrite lookup_insert_eq.
  - destruct (running o) eqn:E; [done|]. injection Ho as <-. eexists. split; [done|]. split; cbn.
    + by rewrite E.
    + intros t d Hd. destruct (Hs t d Hd) as (r & H1 & H2). exists r. split; [done|]. destruct d; try done.
      apply Hr in Hd. congruence.
Qed.

Lemma fpu_inv_events es f o p o' :
  fpu_inv f o p -> order_of o es = Some o' ->
  exists f', fpu_events f es = Ok f' /\ fpu_inv f' o' (foldl private_event p es).
Proof.
  revert f o p. induction es as [|e es IH]; intros f o p Hi Ho; cbn in *.
  - injection Ho as <-. eauto.
  - destruct (next_order o e) as [o1|] eqn:E; [|done]. destruct (fpu_inv_step _ _ _ _ _ Hi E) as (f1 & -> & Hi1).
    cbn. eauto.
Qed.

(** C18: rounding modes do not leak between tasks.  However tasks are entered,
    paused, resumed and finished, no step fails, and the task that runs
    always finds the mode that it would have if the processor kept one mode
    per task: the one of its initial registers, or the last one it set. *)
Theorem rounding_modes_private mode0 es o :
  order_of (MkOrder None ∅) es = Some o ->
  exists f, fpu_events (MkFpu mode0 ∅) es = Ok f /\
    forall t, running o = Some t -> private_modes es !! t = Some (fe_round f).
Proof.
  intros Ho. assert (Hi : fpu_inv (MkFpu mode0 ∅) (MkOrder None ∅) ∅) by (split; cbn; naive_solver).
  destruct (fpu_inv_events _ _ _ _ _ Hi Ho) as (f & Hf & [Hr Hs]). exists f. split; [done|].
  intros t Ht. apply Hr in Ht. by destruct (Hs t _ Ht) as (r & _ & H).
Qed.

Lemma rounding_modes_private_witness :
  exists f, fpu_events (MkFpu FE_TONEAREST ∅)
    [EvCreate 1 kFPURoundUpInf; EvCreate 2 kFPURoundToNearestEven; EvEnter 1; EvSet 1 FE_TOWARDZERO; EvPause 1;
     EvEnter 2; EvSet 2 FE_DOWNWARD; EvLeave 2; EvResume 1] = Ok f /\ Some FE_TOWARDZERO = Some (fe_round f).
Proof.
  destruct (rounding_modes_private FE_TONEAREST
    [EvCreate 1 kFPURoundUpInf; EvCreate 2 kFPURoundToNearestEven; EvEnter 1; EvSet 1 FE_TOWARDZERO; EvPause 1;
     EvEnter 2; EvSet 2 FE_DOWNWARD; EvLeave 2; EvResume 1] _ eq_refl) as (f & Hf & Hm).
  exists f. split; [exact Hf|exact (Hm 1%positive eq_refl)].
Defined.

(** The executor's own mode comes back when lifted code returns without
    pausing. *)
Lemma host_mode_restored f t modes r :
  roundings f !! t = Some r ->
  exists f', fpu_events f (EvEnter t :: ((EvSet t <$> modes) ++ [EvLeave t])) = Ok f' /\ fe_round f' = fe_round f.
Proof.
  intros Hr. cbn [fpu_events fpu_event]. unfold enter_lifted. rewrite Hr. cbn.
  set (g := <[t := MkRounding (task_mode r) (coro_mode r) (fe_round f)]> (roundings f)).
  assert (Hg : g !! t = Some (MkRounding (task_mode r) (coro_mode r) (fe_round f))) by apply lookup_insert_eq.
  generalize (task_mode r) at 1. induction modes as [|m modes IH]; intros m0; cbn.
  - unfold leave_lifted. cbn. rewrite Hg. cbn. eauto.
  - apply IH.
Qed.

(** But not when it pauses: the executor goes on with the mode of the task,
    and enters the next task with it as the mode to restore. *)
Lemma pause_leaks_mode mode0 es o t :
  order_of (MkOrder None ∅) (es ++ [EvPause t]) = Some o ->
  exists f, fpu_events (MkFpu mode0 ∅) (es ++ [EvPause t]) = Ok f /\
    private_modes (es ++ [EvPause t]) !! t = Some (fe_round f).
Proof.
  intros Ho. assert (Hi : fpu_inv (MkFpu mode0 ∅) (MkOrder None ∅) ∅) by (split; cbn; naive_solver).
  assert (exists o1, order_of (MkOrder None ∅) es = Some o1 /\ next_order o1 (EvPause t) = Some o) as (o1 & Ho1 & Hn).
  { revert Ho. generalize (MkOrder None ∅). induction es as [|e es IH]; intros o0; cbn [app order_of].
    - destruct (next_order o0 (EvPause t)) eqn:E; [|done]. cbn. intros [= <-]. eauto.
    - destruct (next_order o0 e); [|done]. cbn. apply IH. }
  destruct (fpu_inv_events _ _ _ _ _ Hi Ho1) as (f1 & Hf1 & Hi1).
  destruct (fpu_inv_step _ _ _ _ _ Hi1 Hn) as (f2 & Hf2 & [_ Hs]).
  exists f2. split.
  - clear -Hf1 Hf2. revert Hf1. generalize (MkFpu mode0 ∅). induction es as [|e es IH]; intros f0; cbn [app fpu_events].
    + intros [= ->]. by rewrite Hf2.
    + destruct (fpu_event f0 e); try done. cbn. apply IH.
  - cbn [next_order] in Hn. destruct (running o1) as [t'|] eqn:E; [|done]. case_decide; [|done]. subst t'.
    destruct Hi1 as [Hr1 Hs1]. pose proof (proj1 (Hr1 t) E) as Ed. destruct (Hs1 t _ Ed) as (r & H1 & H2).
    cbn [fpu_event] in Hf2. unfold pause_rounding in Hf2. rewrite H1 in Hf2. cbn in Hf2. injection Hf2 as <-.
    unfold private_modes. rewrite foldl_app. done.
Qed.
