(* ===== verification/RuntimeAsm.v ===== *)
(** * The memory accesses in assembly

    On AMD64 hosts [vmill/Arch/X86/Runtime.S] replaces the integer accesses
    of [vmill/Executor/Runtime.cpp] ([MAKE_MEM_READ] and [MAKE_MEM_WRITE]):
    the arguments and the result go through three static variables.  Here the
    two versions are compared. *)

From S2P Require Import Prelude Pages MappedRange RangeProps AddressSpace SpaceInv Lookup ReadProps WriteProps.
From S2P Require Import GuestMemory Tasks MemoryInstance SpaceTheorems.

(** [__vmill_mem_address], [__vmill_mem_value] (eight bytes) and the spaces
    [__vmill_mem_ptr] points to, which is the space of the access. *)
Record AsmStatics := MkStatics { mem_address : Z; mem_value : list Z }.

(** Bytes stored at the start of the variable. *)
Definition overwrite (value vs : list Z) : list Z := vs ++ drop (length vs) value.

Section asm.
Context {version_code : bool} {bits : Z}.
Local Abbreviation M := (Mem version_code bits).

(** [AddressSpace::TryRead(addr, &__vmill_mem_value)]: what it stores is in
    the variable whether or not it succeeds. *)
Definition try_read_into (n : nat) (m : M) (addr : Z) (st : AsmStatics) : outcome (bool * AddressSpace * AsmStatics) :=
  '(ok, vs, s) ← try_read n (mheap m) (mspace m) addr;
  Ok (ok, s, MkStatics (mem_address st) (overwrite (mem_value st) vs)).

(** [__remill_read_memory_*] of [Runtime.S]: the low [n] bytes of [rax]. *)
Definition asm_read_memory (n : nat) (m : M) (addr : Z) (st : AsmStatics) : outcome (Z * M * AsmStatics) :=
  let st := MkStatics addr (mem_value st) in
  '(ok, s, st) ← try_read_into n m addr st;
  let task :=
    if (ok : bool) then gTask m
    else fault kMemoryAccessFaultOnRead kMemoryValueTypeInteger (Z.of_nat n) (mem_address st) (gTask m) in
  Ok (le_value (take n (mem_value st)), MkMem (mheap m) s task, st).

(** [__remill_write_memory_*] of [Runtime.S]. *)
Definition asm_write_memory (n : nat) (m : M) (addr val : Z) (st : AsmStatics) : outcome (M * AsmStatics) :=
  let st := MkStatics addr (mem_value st) in
  '(ok, h, s) ← try_write (version_code := version_code) (mheap m) (mspace m) addr (le_bytes n val);
  let task :=
    if (ok : bool) then gTask m
    else fault kMemoryAccessFaultOnWrite kMemoryValueTypeInteger (Z.of_nat n) (mem_address st) (gTask m) in
  Ok (MkMem h s task, st).

(** Nothing is stored when the first byte is not mapped and the access is
    wider than a byte. *)
Lemma MAKE_TRY_READ_unmapped n h s addr :
  wf_heap h -> wf_space h s -> u64 addr -> masked s addr = addr -> abs h s addr = None ->
  exists s', MAKE_TRY_READ n h s addr = Ok (false, [], s').
Proof.
  intros Hwf Hw Hu Hm Hn. unfold MAKE_TRY_READ. cbv zeta. fold (masked s addr). rewrite Hm. unfold FindRange.
  destruct (FindRangeAligned_spec h s Hw (AlignDownToPage addr)) as (l & s1 & -> & Hst & Hw1 & Hh & Hfd).
  cbn [mbind outcome_bind]. destruct (fd_entry _ _ _ _ _ _ Hfd) as [(r & He & Hv & Hc)|[-> Hnone]].
  - exfalso. pose proof (AlignDownToPage_range addr Hu) as Hr.
    assert (Hca : Contains r addr = true).
    { apply (page_whole (addr_mask s) r (AlignDownToPage addr)); [|done|by apply AlignDownToPage_aligned|done|lia].
      by eapply (wm_range _ _ _ (ws_maps _ _ Hw)). }
    by rewrite (abs_value h s Hw addr l r) in Hn.
  - destruct (ws_invalid _ _ Hw) as (r & Hr & Hk). rewrite (get_Some h _ r Hr). cbn [mbind outcome_bind].
    rewrite (ToReadOnly_invalid h _ r) by done. cbn [mbind outcome_bind]. by exists s1.
Qed.

(** C19: the assembly accesses do to guest memory and to the task what the
    C++ accesses do.  A write is the same function.  A read of readable
    memory returns the same value; one that faults records the same fault,
    but where the C++ version returns 0, an assembly read of an unmapped
    word, doubleword or quadword returns the bytes of an earlier read. *)
Theorem asm_accesses_agree n m addr val st :
  bits = 32 \/ bits = 64 -> space_ok m -> n ∈ [1; 2; 4; 8]%nat -> length (mem_value st) = 8%nat ->
  0 <= addr -> addr + Z.of_nat n <= 2 ^ bits - kPageSize ->
  (exists v w m' st', read_memory kMemoryValueTypeInteger n m addr = Ok (v, m') /\
     asm_read_memory n m addr st = Ok (w, m', st') /\
     (accessible (mheap m) (mspace m) (any_perm (mspace m)) addr (Z.of_nat n) -> w = v) /\
     (abs (mheap m) (mspace m) addr = None -> n <> 1%nat -> v = 0 /\ w = le_value (take n (mem_value st)))) /\
  (exists m', write_memory kMemoryValueTypeInteger n m addr val = Ok m' /\
     asm_write_memory n m addr val st = Ok (m', MkStatics addr (mem_value st))).
Proof.
  intros Hb Hok Hn Hlen Ha Hl. pose proof (sizes_range n Hn). split.
  - destruct (try_read_spec n m addr) as (ok & vs & s' & Heq & [_ _ _ Hr Hs]); [done..|].
    unfold read_memory, asm_read_memory, try_read_into. rewrite Heq. cbn [mbind outcome_bind mem_value mem_address].
    destruct (so_masked m addr Hb Hok) as [Hu Hma]; [lia|].
    destruct ok; eexists _, _, _, _; (split; [done|]; split; [done|]; split).
    + intros _. destruct (Hr eq_refl) as [Hlv _]. unfold overwrite. by rewrite take_app_length' by lia.
    + intros Hno Hn1. exfalso. destruct Hok as [Hh Hw _].
      destruct (MAKE_TRY_READ_unmapped n (mheap m) (mspace m) addr) as [s2 E]; [done..|].
      unfold try_read in Heq. destruct n as [|[|n]]; [lia|lia|]. congruence.
    + intros Hacc. by apply Hs in Hacc.
    + intros Hno Hn1. split; [done|]. destruct Hok as [Hh Hw _].
      destruct (MAKE_TRY_READ_unmapped n (mheap m) (mspace m) addr) as [s2 E]; [done..|].
      unfold try_read in Heq. destruct n as [|[|n]]; [lia|lia|]. rewrite E in Heq. by injection Heq as <- <-.
  - destruct (try_write_spec m addr (le_bytes n val)) as (ok & h' & s' & Heq & _);
      [done|done| |apply le_bytes_ok|done|by rewrite length_le_bytes|].
    { intros Hnil. apply (f_equal length) in Hnil. rewrite length_le_bytes in Hnil. cbn in Hnil. lia. }
    unfold write_memory, asm_write_memory. rewrite Heq. cbn [mbind outcome_bind]. by eexists.
Qed.
End asm.

(** A task that reads an unmapped address after a mapped one. *)
Lemma asm_accesses_agree_witness :
  exists v w m' st', read_memory kMemoryValueTypeInteger 4 demo_mem 20480 = Ok (v, m') /\
    asm_read_memory 4 demo_mem 20480 (MkStatics 4096 [7; 0; 0; 0; 0; 0; 0; 0]) = Ok (w, m', st') /\ v = 0 /\ w = 7.
Proof.
  destruct (asm_accesses_agree 4 demo_mem 20480 0 (MkStatics 4096 [7; 0; 0; 0; 0; 0; 0; 0])) as [(v & w & m' & st' & H1 & H2 & _ & H3) _].
  - right. reflexivity.
  - apply demo_mem_ok.
  - set_solver.
  - reflexivity.
  - lia.
  - vm_compute. congruence.
  - exists v, w, m', st'. split; [exact H1|split; [exact H2|]]. apply H3; [vm_compute; reflexivity|lia].
Defined.
