(* ===== verification/Intrinsics.v ===== *)
(** * The remaining intrinsics of lifted code

    [vmill/Executor/Runtime.cpp]: the trace of system calls and its output
    file, the report of a fault, undefined values, barriers, and the floating
    point exception flags. *)

From S2P Require Import Prelude Tasks.

(** ** The [strace] output *)

Inductive StraceFile := stderr | stdout | Opened (n : nat).
#[global] Instance StraceFile_eq_dec : EqDecision StraceFile.
Proof. solve_decision. Defined.

(** [gStraceFile], [FLAGS_strace_output_file], the number of calls of [fopen]
    made so far, and what was written, in order. *)
Record Strace := MkStrace {
  gStraceFile : option StraceFile;
  strace_output_file : string;
  fopens : nat;
  written : list (StraceFile * string)
}.

Section strace.
(** Does the [n]-th call of [fopen] succeed on this path? *)
Variable fopen : nat -> string -> bool.

Definition GetOpenStraceOutputFile (s : Strace) : option StraceFile * Strace :=
  let flag := strace_output_file s in
  match gStraceFile s with
  | Some f => (Some f, s)
  | None =>
      if decide (flag = "") then (None, s)
      else if decide (flag = "/dev/stderr") then (Some stderr, MkStrace (Some stderr) flag (fopens s) (written s))
      else if decide (flag = "/dev/stdout") then (Some stdout, MkStrace (Some stdout) flag (fopens s) (written s))
      else if decide (flag = "/dev/null") then (None, MkStrace None "" (fopens s) (written s))
      else
        let file := if fopen (fopens s) flag then Some (Opened (fopens s)) else None in
        (file, MkStrace file flag (S (fopens s)) (written s))
  end.

(** [__vmill_strace] on a formatted message. *)
Definition vmill_strace (s : Strace) (message : string) : Strace :=
  let '(fp, s) := GetOpenStraceOutputFile s in
  match fp with
  | Some f => MkStrace (gStraceFile s) (strace_output_file s) (fopens s) (written s ++ [(f, message)])
  | None => s
  end.

(** The file a flag names, once it is open. *)
Definition strace_target (flag : string) : option StraceFile :=
  if decide (flag = "") then None
  else if decide (flag = "/dev/stderr") then Some stderr
  else if decide (flag = "/dev/stdout") then Some stdout
  else if decide (flag = "/dev/null") then None
  else if fopen O flag then Some (Opened 0) else None.

Lemma strace_open_stays s f msgs :
  gStraceFile s = Some f ->
  foldl vmill_strace s msgs =
  MkStrace (Some f) (strace_output_file s) (fopens s) (written s ++ ((fun m => (f, m)) <$> msgs)).
Proof.
  revert s. induction msgs as [|m msgs IH]; intros s Hf; cbn [foldl].
  - cbn. rewrite app_nil_r. destruct s. cbn in *. by subst.
  - unfold vmill_strace at 2, GetOpenStraceOutputFile. rewrite Hf. cbn. rewrite IH by done. cbn. by rewrite <-app_assoc.
Qed.

Lemma strace_disabled_stays s msgs :
  gStraceFile s = None -> strace_output_file s = "" -> foldl vmill_strace s msgs = s.
Proof.
  intros Hn Hf. induction msgs as [|m msgs IH]; [done|]. cbn [foldl]. unfold vmill_strace at 2, GetOpenStraceOutputFile.
  rewrite Hn. rewrite decide_True by done. exact IH.
Qed.

(** A trace goes to one place, in order and without a gap: the stream that
    the flag names, or the file, which is opened once, at the first message;
    the empty flag and [/dev/null] silence it. *)
Theorem strace_goes_to_target flag m msgs :
  (forall path, fopen O path = true) ->
  let s := foldl vmill_strace (MkStrace None flag 0 []) (m :: msgs) in
  written s = match strace_target flag with Some f => (fun m => (f, m)) <$> (m :: msgs) | None => [] end /\
  (fopens s <= 1)%nat.
Proof.
  intros Ho s. subst s. cbn [foldl].
  assert (Hs : forall f n, written (foldl vmill_strace (MkStrace (Some f) flag n [(f, m)]) msgs) = (fun m => (f, m)) <$> (m :: msgs) /\
            fopens (foldl vmill_strace (MkStrace (Some f) flag n [(f, m)]) msgs) = n).
  { intros f n. by rewrite (strace_open_stays _ f). }
  unfold vmill_strace at 2 4, GetOpenStraceOutputFile, strace_target. cbn [gStraceFile strace_output_file fopens written].
  case_decide as H1; [cbn; subst; rewrite strace_disabled_stays by done; split; [done|cbn; lia]|].
  case_decide as H2; [cbn; destruct (Hs stderr O) as [-> ->]; split; [done|lia]|].
  case_decide as H3; [cbn; destruct (Hs stdout O) as [-> ->]; split; [done|lia]|].
  case_decide as H4; [cbn; rewrite strace_disabled_stays by done; split; [done|cbn; lia]|].
  rewrite Ho. cbn. destruct (Hs (Opened 0) 1%nat) as [-> ->]. split; [done|lia].
Qed.

(** A file that cannot be opened is tried again at every message. *)
Lemma strace_retries flag msgs :
  (forall n path, fopen n path = false) -> strace_target flag = None -> flag <> "" -> flag <> "/dev/null" ->
  fopens (foldl vmill_strace (MkStrace None flag 0 []) msgs) = length msgs.
Proof.
  intros Hn Ht H1 H2. unfold strace_target in Ht. repeat case_decide; try done.
  assert (Hg : forall msgs k, foldl vmill_strace (MkStrace None flag k []) msgs = MkStrace None flag (length msgs + k) []).
  { clear msgs. induction msgs as [|m msgs IH]; intros k; cbn [foldl]; [done|].
    unfold vmill_strace at 2, GetOpenStraceOutputFile. cbn [gStraceFile strace_output_file fopens written].
    rewrite !decide_False by done. rewrite Hn. rewrite IH. cbn [length]. f_equal; lia. }
  rewrite Hg. cbn. lia.
Qed.
End strace.

(** [__vmill_set_location] with its [fflush]: does it open the output file?
    Only when the task stops for good. *)
Definition location_flushes (loc : TaskStopLocation) : bool :=
  match loc with
  | kTaskStoppedAtError | kTaskStoppedBeforeUnhandledHyperCall | kTaskStoppedAtUnsupportedInstruction
  | kTaskStoppedAtExit => true
  | _ => false
  end.

Lemma location_flushes_stops t p loc :
  if location_flushes loc then
    let s := status (vmill_set_location t p loc) in
    (s = kTaskStatusError \/ s = kTaskStatusExited) /\ status_on_resume (vmill_set_location t p loc) = s
  else status (vmill_set_location t p loc) = status t.
Proof. destruct loc; cbn; auto. Qed.

(** ** Reports *)

Definition AccessKindToString (kind : MemoryAccessFaultKind) : string :=
  match kind with
  | kMemoryAccessNoFault => "none"
  | kMemoryAccessFaultOnRead => "read"
  | kMemoryAccessFaultOnWrite => "write"
  | kMemoryAccessFaultOnExecute => "execute"
  end.

(** The text of [LogFault], with its numbers not yet printed; [host_pc] is
    [ToReadOnlyVirtualAddress] of the program counter. *)
Inductive LogPiece := LogText (s : string) | LogHex (v : Z) | LogDec (v : Z).

Definition LogFault (t : Task) (host_pc : Z) : list LogPiece :=
  let f := mem_access_fault t in
  [LogText "Task faulted while executing trace "; LogHex (last_pc t); LogText " ("; LogHex host_pc; LogText ")";
   LogText " when trying to "; LogText (AccessKindToString (fault_kind f)); LogText " "; LogDec (access_size f);
   LogText " bytes of memory from "; LogHex (fault_address f)].

(** A report names the fault: what was tried, how many bytes, where. *)
Lemma LogFault_injective t1 t2 h1 h2 :
  LogFault t1 h1 = LogFault t2 h2 ->
  last_pc t1 = last_pc t2 /\ fault_kind (mem_access_fault t1) = fault_kind (mem_access_fault t2) /\
  access_size (mem_access_fault t1) = access_size (mem_access_fault t2) /\
  fault_address (mem_access_fault t1) = fault_address (mem_access_fault t2).
Proof.
  unfold LogFault. intros H. injection H as Hp _ Hk Hs Ha. split_and!; try done.
  by destruct (fault_kind (mem_access_fault t1)), (fault_kind (mem_access_fault t2)).
Qed.

(** ** Values, barriers and flags *)

(** [__remill_undefined_*]: undefined results are zero, whatever their
    type. *)
Definition remill_undefined : Z := 0.

(** [__remill_barrier_*], [__remill_atomic_begin], [__remill_atomic_end]:
    tasks are not preempted, so these only pass the memory on. *)
Definition remill_barrier {M} (memory : M) : M := memory.

(** [__remill_missing_block] *)
Definition remill_missing_block (t : Task) (new_pc : Z) : Task := remill_jump t new_pc.

(** [__remill_fpu_exception_test_and_clear] on the exception flags raised so
    far. *)
Definition fpu_exception_test_and_clear (raised read_mask clear_mask : Z) : Z * Z :=
  (Z.land raised read_mask, Z.ldiff raised clear_mask).

(** What is read and cleared is reported once; flags outside of the mask to
    clear stay raised. *)
Lemma fpu_exceptions_reported_once raised mask read2 :
  fst (fpu_exception_test_and_clear (snd (fpu_exception_test_and_clear raised mask mask)) mask mask) = 0 /\
  fst (fpu_exception_test_and_clear (snd (fpu_exception_test_and_clear raised mask mask)) (Z.ldiff read2 mask) 0) =
    Z.land raised (Z.ldiff read2 mask).
Proof.
  cbn. split; apply Z.bits_inj'; intros n Hn; rewrite !Z.land_spec, !Z.ldiff_spec, ?Z.bits_0;
    by destruct (Z.testbit raised n), (Z.testbit mask n), (Z.testbit read2 n).
Qed.
