(* ===== verification/Compiler.v ===== *)
(** * The compiler and the optimizer

    [vmill/BC/Compiler.{h,cpp}] and [vmill/BC/Optimize.cpp], the code that
    drives LLVM, with its callers in [vmill/Executor/CodeCache.cpp]
    ([ReoptimizeModule]) and [vmill/BC/Lifter.cpp] ([RunO3]).  LLVM's passes
    and code generator are parameters; what is done to the module for them,
    in which order passes run, and what the code cache does with the
    constructors of the result is here. *)

From S2P Require Import Prelude Allocators Tools CodeCache CodeCacheProps TraceIndex.

(** ** Modules *)

Inductive Linkage := ExternalLinkage | InternalLinkage | PrivateLinkage | AppendingLinkage.
#[global] Instance Linkage_eq_dec : EqDecision Linkage.
Proof. solve_decision. Defined.

(** A global variable; its initializer is the bytes it stands for.  Names and
    sections are lists of characters, as in [CodeCache]. *)
Record GlobalVariable := MkGlobal {
  gv_name : list Z;
  gv_thread_local : bool;
  gv_linkage : Linkage;
  gv_section : list Z;
  gv_initializer : option (list Z)
}.

Record LModule {F : Type} := MkLModule {
  target_triple : list Z;
  data_layout : list Z;
  globals : list GlobalVariable;
  functions : list F
}.
Arguments LModule : clear implicits.
Arguments MkLModule {F}.

(** "llvm.global_ctors" and "__vmill_constructors" *)
Definition global_ctors : list Z := [108; 108; 118; 109; 46; 103; 108; 111; 98; 97; 108; 95; 99; 116; 111; 114; 115].
Definition vmill_constructors : list Z :=
  [95; 95; 118; 109; 105; 108; 108; 95; 99; 111; 110; 115; 116; 114; 117; 99; 116; 111; 114; 115].

Definition clear_thread_local (g : GlobalVariable) : GlobalVariable :=
  MkGlobal (gv_name g) false (gv_linkage g) (gv_section g) (gv_initializer g).

Definition RemoveThreadLocals {F} (m : LModule F) : LModule F :=
  MkLModule (target_triple m) (data_layout m)
    ((fun g => if gv_thread_local g then clear_thread_local g else g) <$> globals m) (functions m).

(** What [MoveConstructors] does to the table of constructors. *)
Definition moved_constructors (g : GlobalVariable) : GlobalVariable :=
  MkGlobal vmill_constructors (gv_thread_local g) PrivateLinkage vctors (gv_initializer g).

(** [getGlobalVariable]: names are unique in a module. *)
Definition MoveConstructors {F} (m : LModule F) : LModule F :=
  match list_find (fun g => gv_name g = global_ctors) (globals m) with
  | Some (i, g) =>
      match gv_initializer g with
      | None => m
      | Some _ => MkLModule (target_triple m) (data_layout m) (<[i := moved_constructors g]> (globals m)) (functions m)
      end
  | None => m
  end.

(** ** Compiling *)

Inductive CodeGenOpt := None_ | Aggressive.

(** [FLAGS_disable_optimizer] *)
Definition CodeGenOptLevel (disable_optimizer : bool) : CodeGenOpt := if disable_optimizer then None_ else Aggressive.

(** [GetNativeFeatureString]: the host's features, if they are known, in the
    order of the map; each with its sign, separated by commas. *)
Definition feature (f : list Z * bool) : list Z := (if snd f then 43 else 45) :: fst f.
Fixpoint comma_separated (fs : list (list Z)) : list Z :=
  match fs with [] => [] | [f] => f | f :: fs => f ++ 44 :: comma_separated fs end.
Definition GetNativeFeatureString (getHostCPUFeatures : option (list (list Z * bool))) : list Z :=
  match getHostCPUFeatures with Some fs => comma_separated (feature <$> fs) | None => [] end.

(** [Compiler]: the triple and layout of the host, and the target machine. *)
Record Compiler {Machine : Type} := MkCompiler { host_triple : list Z; host_layout : list Z; machine : Machine }.
Arguments Compiler : clear implicits.
Arguments MkCompiler {Machine}.

Section compile.
Context {F Machine Obj : Type}.

(** LLVM: the target of a triple, its machine, and code generation, which may
    not be possible. *)
Context (createTargetMachine : list Z -> list Z -> list Z -> CodeGenOpt -> option Machine).
Context (emit : Machine -> LModule F -> option Obj).
(** Can the file be opened for writing? *)
Context (can_open : list Z -> bool).

Definition Compiler_new (disable_optimizer : bool) (triple layout cpu : list Z) (features : option (list (list Z * bool))) :
    outcome (Compiler Machine) :=
  match createTargetMachine triple cpu (GetNativeFeatureString features) (CodeGenOptLevel disable_optimizer) with
  | None => Fatal
  | Some mc => Ok (MkCompiler triple layout mc)
  end.

(** The module as the passes get it. *)
Definition prepared_module (c : Compiler Machine) (m : LModule F) : LModule F :=
  MoveConstructors (RemoveThreadLocals (MkLModule (host_triple c) (host_layout c) (globals m) (functions m))).

Definition CompileModuleToFile (c : Compiler Machine) (m : LModule F) (path : list Z) (files : gmap (list Z) Obj) :
    outcome (LModule F * gmap (list Z) Obj) :=
  check (can_open path) ;;
  let m := prepared_module c m in
  match emit (machine c) m with
  | None => Fatal
  | Some obj => Ok (m, <[path := obj]> files)
  end.
End compile.

(** ** Optimizing *)

(** What the pass managers are built with; no library function is treated as
    a builtin. *)
Record PassManagerBuilder := MkBuilder {
  OptLevel : Z;
  SizeLevel : Z;
  inline_threshold : Z;
  builtins : bool;
  DisableUnrollLoops : bool;
  DisableUnitAtATime : bool;
  RerollLoops : bool;
  SLPVectorize : bool;
  LoopVectorize : bool
}.
Definition opt_builder : PassManagerBuilder := MkBuilder 3 0 (2 ^ 31 - 1) false false false false false false.

Section optimize.
Context {Mod F : Type}.

(** LLVM's passes over a function, which see the module, and over the
    module, as a builder populates their managers. *)
Context (doInitialization doFinalization : PassManagerBuilder -> Mod -> Mod).
Context (func_manager_run : PassManagerBuilder -> Mod -> F -> Mod) (module_manager_run : PassManagerBuilder -> Mod -> Mod).

Local Abbreviation run_function := (func_manager_run opt_builder).

(** [while (nullptr != (func = generator()))] *)
Fixpoint run_generator {G} (fuel : nat) (generator : G -> option F * G) (g : G) (m : Mod) : outcome Mod :=
  match fuel with
  | O => Diverges
  | S fuel =>
      match generator g with
      | (None, _) => Ok m
      | (Some func, g) => run_generator fuel generator g (run_function m func)
      end
  end.

Definition OptimizeModule {G} (fuel : nat) (generator : G -> option F * G) (g : G) (m : Mod) : outcome Mod :=
  m ← run_generator fuel generator g (doInitialization opt_builder m);
  Ok (module_manager_run opt_builder (doFinalization opt_builder m)).

(** The generator of [RunO3]: an iterator over the lifted functions. *)
Definition iterate_functions (it : list F) : option F * list F :=
  match it with [] => (None, []) | f :: it => (Some f, it) end.

Definition RunO3 (fuel : nat) (funcs : list F) (m : Mod) : outcome Mod :=
  match funcs with [] => Ok m | _ => OptimizeModule fuel iterate_functions funcs m end.

(** The generator of [ReoptimizeModule]: the iterator is set up by the first
    call. *)
Definition reoptimize_generator (all : list F) (g : option (list F)) : option F * option (list F) :=
  let it := match g with None => all | Some it => it end in
  match it with [] => (None, Some []) | f :: it => (Some f, Some it) end.

Definition ReoptimizeModule (fuel : nat) (functions_of : Mod -> list F) (m : Mod) : outcome Mod :=
  OptimizeModule fuel (reoptimize_generator (functions_of m)) None m.

(** What the drivers amount to: the passes run over every function once, in
    order, and then over the module. *)
Definition optimized (fs : list F) (m : Mod) : Mod :=
  module_manager_run opt_builder (doFinalization opt_builder (foldl run_function (doInitialization opt_builder m) fs)).

Lemma run_iterator fs fuel m : (length fs < fuel)%nat -> run_generator fuel iterate_functions fs m = Ok (foldl run_function m fs).
Proof.
  revert fuel m. induction fs as [|f fs IH]; intros fuel m Hf; (destruct fuel as [|fuel]; [cbn in Hf; lia|]); cbn; [done|].
  apply IH. cbn in Hf. lia.
Qed.

Lemma run_reoptimize all fs fuel m :
  (length fs < fuel)%nat -> run_generator fuel (reoptimize_generator all) (Some fs) m = Ok (foldl run_function m fs).
Proof.
  revert fuel m. induction fs as [|f fs IH]; intros fuel m Hf; (destruct fuel as [|fuel]; [cbn in Hf; lia|]); cbn; [done|].
  apply IH. cbn in Hf. lia.
Qed.

(** Both drivers return once every function was visited; [RunO3] of no
    functions does not even run the passes over the module. *)
Theorem optimizer_visits_each fuel fs m functions_of :
  (length fs < fuel)%nat -> functions_of m = fs ->
  RunO3 fuel fs m = Ok (if decide (fs = []) then m else optimized fs m) /\
  ReoptimizeModule fuel functions_of m = Ok (optimized fs m).
Proof.
  intros Hf Hfs. split.
  - unfold RunO3, OptimizeModule. destruct fs as [|f fs]; [done|]. by rewrite run_iterator.
  - unfold ReoptimizeModule, OptimizeModule. rewrite Hfs. destruct fs as [|f fs]; (destruct fuel as [|fuel]; [cbn in Hf; lia|]); [done|].
    cbn [run_generator reoptimize_generator]. rewrite run_reoptimize by (cbn in Hf; lia). done.
Qed.
End optimize.

(** ** The constructors of a compiled module *)

(** The bytes of the table: a priority, padded, a function and data. *)
Definition ctor_bytes (k : Constructor) : list Z :=
  le_bytes 4 (ctor_priority k) ++ le_bytes 4 0 ++ le_bytes 8 (ctor_func k) ++ le_bytes 8 (ctor_data k).

(** [base->func] and the other members, in memory. *)
Definition constructor_at (byte_at : Z -> Z) (a : Z) : Constructor :=
  MkConstructor (le_value (bytes_at byte_at a 4)) (le_value (bytes_at byte_at (a + 8) 8)) (le_value (bytes_at byte_at (a + 16) 8)).

Definition ctor_words (k : Constructor) : Prop :=
  0 <= ctor_priority k < two32 /\ u64 (ctor_func k) /\ u64 (ctor_data k).

Lemma length_ctor_bytes k : length (ctor_bytes k) = 24%nat.
Proof. unfold ctor_bytes. by rewrite !length_app, !length_le_bytes. Qed.

Lemma length_ctors ks : length (concat (ctor_bytes <$> ks)) = (24 * length ks)%nat.
Proof.
  induction ks as [|k ks IH]; [done|]. cbn [fmap list_fmap concat]. rewrite length_app, IH, length_ctor_bytes. cbn [length]. lia.
Qed.

Lemma constructor_at_written byte_at a k :
  ctor_words k -> memory_holds byte_at a (ctor_bytes k) -> constructor_at byte_at a = k.
Proof.
  intros (Hp & Hf & Hd) H. unfold ctor_bytes in H. apply memory_holds_app in H as [H1 H].
  apply memory_holds_app in H as [_ H]. apply memory_holds_app in H as [H2 H3]. rewrite !length_le_bytes in *.
  replace (a + Z.of_nat 4 + Z.of_nat 4) with (a + 8) in * by lia.
  replace (a + 8 + Z.of_nat 8) with (a + 16) in * by lia.
  unfold constructor_at. rewrite (read_word byte_at (a + 8) (ctor_func k)), (read_word byte_at (a + 16) (ctor_data k)) by done.
  apply bytes_at_holds in H1. rewrite length_le_bytes in H1. rewrite H1, le_value_le_bytes.
  change (256 ^ Z.of_nat 4) with two32. rewrite Z.mod_small by done. by destruct k.
Qed.

Lemma constructors_read byte_at ks : forall a,
  Forall ctor_words ks -> memory_holds byte_at a (concat (ctor_bytes <$> ks)) ->
  (fun i => constructor_at byte_at (a + 24 * i)) <$> seqZ 0 (Z.of_nat (length ks)) = ks.
Proof.
  induction ks as [|k ks IH]; intros a Hw Hm; [done|]. apply Forall_cons in Hw as [Hk Hw].
  cbn [fmap list_fmap concat] in Hm. apply memory_holds_app in Hm as [Hf Hm].
  rewrite length_ctor_bytes in Hm. cbn [length]. rewrite seqZ_cons by lia. rewrite fmap_cons. f_equal.
  - rewrite Z.mul_0_r, Z.add_0_r. by apply constructor_at_written.
  - rewrite <- (IH (a + 24)) at 2 by done. replace (Z.pred (Z.of_nat (S (length ks)))) with (Z.of_nat (length ks)) by lia.
    change (Z.succ 0) with (1 + 0). rewrite <- fmap_add_seqZ, <- list_fmap_compose. apply list_fmap_ext. intros _ i _. cbn [compose]. f_equal. lia.
Qed.

(** *** What is done to the module *)

Lemma globals_prepared {F Machine} (c : Compiler Machine) (m : LModule F) i g :
  globals m !! i = Some g -> gv_name g = global_ctors -> gv_initializer g <> None -> NoDup (gv_name <$> globals m) ->
  globals (prepared_module c m) = <[i := moved_constructors (clear_thread_local g)]>
    ((fun g => if gv_thread_local g then clear_thread_local g else g) <$> globals m).
Proof.
  intros Hi Hn Hin Hnd. unfold prepared_module, MoveConstructors, RemoveThreadLocals. cbn [globals].
  set (f := fun g => if gv_thread_local g then clear_thread_local g else g).
  assert (Hname : forall x, gv_name (f x) = gv_name x) by (intros x; unfold f; by destruct (gv_thread_local x)).
  assert (Hfg : f g = clear_thread_local g) by (unfold f; destruct g as [n [] l s ini]; done).
  assert (Hfind : list_find (fun g => gv_name g = global_ctors) (f <$> globals m) = Some (i, f g)).
  { apply list_find_Some. split_and!; [by rewrite list_lookup_fmap, Hi|by rewrite Hname|].
    intros j y Hj Hlt Hy. rewrite list_lookup_fmap in Hj. apply fmap_Some in Hj as (x & Hx & ->). rewrite Hname in Hy.
    assert (j = i); [|lia]. eapply (NoDup_lookup _ _ _ global_ctors Hnd); rewrite list_lookup_fmap; [rewrite Hx|rewrite Hi]; cbn; congruence. }
  rewrite Hfind. rewrite Hfg. cbn [clear_thread_local gv_initializer]. destruct (gv_initializer g); [done|congruence].
Qed.

(** C20: the constructors of a compiled module are run by the code cache, once
    and in the order of their table.  Compiling gives the module the triple
    and the layout of the host, leaves no variable thread-local, and puts the
    table of constructors, under a name the linker does not treat specially,
    into a section of its own; when the linker has asked the code cache for
    that section and written the table there, finalizing the section and
    running the constructors calls exactly the functions of the table that
    are not null, after those that were waiting, and leaves none waiting. *)
Theorem compiled_constructors_run {F Machine LObj : Type} {Mod Obj TS : Type}
    (emit : Machine -> LModule F -> option LObj) can_open (comp : Compiler Machine) (m m' : LModule F) path files files'
    i g ks mmap bp byte_at index_at (c c1 : CodeCache Mod Obj TS) id align ro base range good :
  CompileModuleToFile emit can_open comp m path files = Ok (m', files') ->
  NoDup (gv_name <$> globals m) -> globals m !! i = Some g -> gv_name g = global_ctors ->
  gv_initializer g = Some (concat (ctor_bytes <$> ks)) -> Forall ctor_words ks ->
  let bytes := concat (ctor_bytes <$> ks) in
  files' !! path = emit (machine comp) m' /\ target_triple m' = host_triple comp /\ data_layout m' = host_layout comp /\
  functions m' = functions m /\ Forall (fun g => gv_thread_local g = false) (globals m') /\
  exists table, globals m' !! i = Some table /\ gv_initializer table = Some bytes /\ gv_linkage table = PrivateLinkage /\
  (allocateDataSection mmap bp c (Z.of_nat (length bytes)) align id (gv_section table) ro = Ok (base, c1) ->
     memory_holds byte_at base bytes -> pending_jit_ranges c1 !! id = Some range ->
     let c2 := RunConstructors (snd (finalize_range index_at (constructor_at byte_at) (good, c1) range)) in
     called c2 = called c ++ constructors c ++ filter (fun f => f <> 0) (ctor_func <$> ks) /\ constructors c2 = []).
Proof.
  intros Hcomp Hnd Hi Hn Hin Hw bytes. unfold CompileModuleToFile in Hcomp. apply bind_ok in Hcomp as (u & _ & Hcomp).
  destruct (emit (machine comp) (prepared_module comp m)) as [obj|] eqn:He; [|done].
  assert (Hm' : m' = prepared_module comp m) by congruence. assert (Hf' : files' = <[path := obj]> files) by congruence.
  assert (Hgl : globals m' = <[i := moved_constructors (clear_thread_local g)]>
    ((fun g => if gv_thread_local g then clear_thread_local g else g) <$> globals m)).
  { rewrite Hm'. apply globals_prepared; [done|done|congruence|done]. }
  assert (Hmv : forall (m0 : LModule F), target_triple (MoveConstructors m0) = target_triple m0 /\
  data_layout (MoveConstructors m0) = data_layout m0 /\ functions (MoveConstructors m0) = functions m0).
  { intros m0. unfold MoveConstructors. destruct (list_find _ _) as [[? g0]|]; [|done]. by destruct (gv_initializer g0). }
  split_and!.
  - by rewrite Hm', He, Hf', lookup_insert_eq.
  - rewrite Hm'. unfold prepared_module. by rewrite (proj1 (Hmv _)).
  - rewrite Hm'. unfold prepared_module. by rewrite (proj1 (proj2 (Hmv _))).
  - rewrite Hm'. unfold prepared_module. by rewrite (proj2 (proj2 (Hmv _))).
  - rewrite Hgl. apply Forall_insert; [|done]. apply Forall_fmap, Forall_forall. intros x _. cbn.
    destruct (gv_thread_local x) eqn:E; done.
  - exists (moved_constructors (clear_thread_local g)). split_and!; [|done|done|].
    { rewrite Hgl. apply list_lookup_insert_eq. rewrite length_fmap. by eapply lookup_lt_Some. }
    cbn [moved_constructors gv_section]. intros Hal Hmem Hr. unfold allocateDataSection in Hal.
    rewrite bool_decide_eq_false_2, bool_decide_eq_true_2 in Hal by done. apply bind_ok in Hal as ([b ta] & _ & Hal).
    injection Hal as <- <-. cbn in Hr. rewrite lookup_insert_eq in Hr. injection Hr as <-.
    unfold finalize_range. cbn [is_ctors]. rewrite LoadConstructors_spec. cbn [snd].
    assert (Hes : section_entries (constructor_at byte_at) sizeof_Constructor
              (MkMemoryMap b (Z.of_nat (length bytes)) id true (negb ro) false false true (pending_source_file c)) = ks).
    { unfold section_entries. cbn [mm_base mm_size]. unfold bytes. rewrite length_ctors. unfold sizeof_Constructor.
      replace (Z.of_nat (24 * length ks) / 24) with (Z.of_nat (length ks)); [by apply constructors_read|].
      rewrite Nat2Z.inj_mul, Z.mul_comm. by rewrite Z.div_mul. }
    rewrite Hes. unfold RunConstructors. cbn.
    destruct (constructors c ++ filter _ (ctor_func <$> ks)) as [|f l] eqn:E; cbn; [by rewrite app_nil_r|done].
Qed.

(** ** Instance *)

(** No module has an index here. *)
Definition demo_index_at (_ : Z) : CacheIndexEntry := MkIndexEntry (0, 0) 0.

(** A module with a thread-local variable and two constructors, one null. *)
Definition demo_ctors : list Constructor := [MkConstructor 65535 65537 0; MkConstructor 65535 0 0].
Definition demo_table : GlobalVariable :=
  MkGlobal global_ctors false AppendingLinkage [] (Some (concat (ctor_bytes <$> demo_ctors))).
Definition demo_module : LModule unit := MkLModule [] [] [MkGlobal [120] true ExternalLinkage [] None; demo_table] [].
Definition demo_compiler : Compiler unit := MkCompiler [104] [108] tt.
Definition demo_ctor_byte (a : Z) : Z := default 0 (concat (ctor_bytes <$> demo_ctors) !! Z.to_nat (a - 262144)).
Definition demo_ctor_section : outcome (Z * CodeCache unit unit unit) :=
  allocateDataSection AllocatorProps.demo_mmap [204] demo_code_cache 48 8 3 vctors false.
Definition demo_ctor_cache : CodeCache unit unit unit := match demo_ctor_section with Ok (_, c) => c | _ => demo_code_cache end.
Definition demo_ctor_range : MemoryMap := MkMemoryMap 262144 48 3 true true false false true [].

Lemma compiled_constructors_run_witness :
  demo_ctor_section = Ok (262144, demo_ctor_cache) /\
  called (RunConstructors (snd (finalize_range demo_index_at (constructor_at demo_ctor_byte) (true, demo_ctor_cache) demo_ctor_range))) = [65537].
Proof.
  split; [vm_compute; reflexivity|].
  destruct (compiled_constructors_run (F := unit) (fun (_ : unit) (_ : LModule unit) => Some tt) (fun _ => true) demo_compiler demo_module
    (prepared_module demo_compiler demo_module) [] ∅ {[ [] := tt ]} 1%nat demo_table demo_ctors AllocatorProps.demo_mmap [204] demo_ctor_byte
    demo_index_at demo_code_cache demo_ctor_cache 3 8 false 262144 demo_ctor_range true)
    as (_ & _ & _ & _ & _ & table & Ht & _ & _ & H).
  - vm_compute. reflexivity.
  - cbn. apply NoDup_cons. split; [apply not_elem_of_cons; split; [discriminate|apply not_elem_of_nil]|apply NoDup_singleton].
  - reflexivity.
  - reflexivity.
  - reflexivity.
  - repeat constructor; cbn; unfold two32, two64; lia.
  - vm_compute in Ht. injection Ht as <-. apply H.
    + vm_compute. reflexivity.
    + intros j b Hj. unfold demo_ctor_byte. replace (262144 + Z.of_nat j - 262144) with (Z.of_nat j) by lia. rewrite Nat2Z.id. by rewrite Hj.
    + vm_compute. reflexivity.
Defined.
