(* ===== verification/Hashing.v ===== *)
(** * Hashes, names and times

    [vmill/Util/Hash.{h,cpp}], the identifiers of [vmill/BC/Trace.h], the
    names of lifted functions ([LiftedFunctionName] of [vmill/BC/Lifter.cpp])
    and [vmill/Util/Timer.{h,cpp}].  xxHash and the clock are parameters. *)

From Stdlib Require Import QArith.
From S2P Require Import Prelude ProgramSnapshot Snapshot MapsProps Decoder.
Local Open Scope Z_scope.

(** ** Hashing *)

(** xxHash: the state of a streaming hash, and hashing at once. *)
Class XXHash (State : Type) := {
  XXH_reset : Z -> State;
  XXH_update : State -> list Z -> State;
  XXH_digest : State -> Z;
  XXH : list Z -> Z -> Z
}.

(** Documented: a digest is the hash of everything the state was updated
    with. *)
Class XXHashLaws (State : Type) `{XXHash State} : Prop :=
  digest_updates seed chunks : XXH_digest (foldl XXH_update (XXH_reset seed) chunks) = XXH (concat chunks) seed.

Section hashing.
Context {State : Type} `{XXHash State}.

(** [XXH32Hasher] and [XXH64Hasher]. *)
Record HasherObject := MkHasher { hasher_state : State }.
Definition Hasher_new (seed : Z) : HasherObject := MkHasher (XXH_reset seed).
Definition Update (h : HasherObject) (data : list Z) : HasherObject := MkHasher (XXH_update (hasher_state h) data).
Definition Digest (h : HasherObject) : Z := XXH_digest (hasher_state h).

(** [Hash(data, size)]; a string and an object are hashed as their bytes. *)
Definition Hash (data : list Z) : Z := XXH data 0.
Definition Hash_string (data : string) : Z := Hash ((fun c => Z.of_nat (Ascii.nat_of_ascii c)) <$> String.list_ascii_of_string data).
Definition Hash_object {T} (object_bytes : T -> list Z) (data : T) : Z := Hash (object_bytes data).

(** The [Hasher] of the decoder. *)
Definition trace_hasher (seed : Z) (chunks : list (list Z)) : Z := Digest (foldl Update (Hasher_new seed) chunks).

Lemma trace_hasher_state seed chunks : trace_hasher seed chunks = XXH_digest (foldl XXH_update (XXH_reset seed) chunks).
Proof.
  unfold trace_hasher, Digest. f_equal. change (XXH_reset seed) with (hasher_state (Hasher_new seed)).
  generalize (Hasher_new seed). induction chunks as [|b bs IH]; intros h; cbn; [done|]. by rewrite IH.
Qed.

(** A trace is identified by its program counter, by where its first and last
    instruction are and how many there are, and by its bytes; how the bytes
    are split into instructions does not show. *)
Theorem trace_hash_of_bytes `{!XXHashLaws State} pc insts1 insts2 :
  let ends insts := (fst <$> head (in_order insts), fst <$> last (in_order insts), length (in_order insts)) in
  ends insts1 = ends insts2 ->
  concat ((fun e => inst_bytes (snd e)) <$> in_order insts1) = concat ((fun e => inst_bytes (snd e)) <$> in_order insts2) ->
  HashTraceInstructions trace_hasher pc insts1 = HashTraceInstructions trace_hasher pc insts2.
Proof.
  intros ends He Hb. unfold HashTraceInstructions. rewrite !trace_hasher_state, !digest_updates, Hb. do 2 f_equal.
  unfold ends in He. injection He as Hh Hl Hn. rewrite Hn. f_equal. f_equal.
  f_equal; [destruct (head (in_order insts1)) as [[? ?]|], (head (in_order insts2)) as [[? ?]|]|
            destruct (last (in_order insts1)) as [[? ?]|], (last (in_order insts2)) as [[? ?]|]]; cbn in *; congruence.
Qed.
End hashing.

(** ** Identifiers *)

Record TraceId := MkTraceId { tid_pc : Z; tid_hash : Z }.
Record LiveTraceId := MkLiveTraceId { lid_pc : Z; lid_code_version : Z }.

(** [operator==] *)
Definition TraceId_eqb (a b : TraceId) : bool := (tid_pc a =? tid_pc b) && (tid_hash a =? tid_hash b).
Definition LiveTraceId_eqb (a b : LiveTraceId) : bool := (lid_pc a =? lid_pc b) && (lid_code_version a =? lid_code_version b).

(** [std::hash] *)
Definition hash_TraceId (a : TraceId) : Z := tid_hash a.
Definition hash_LiveTraceId (a : LiveTraceId) : Z := Z.lxor (lid_pc a) (lid_code_version a).

(** The contract of the unordered maps: equality is equality, equal keys have
    equal hashes, and a hash is a word.  Keys that differ in one member only
    have different hashes, except that the hash of a trace does not depend on
    its program counter. *)
Theorem trace_ids_hashable :
  (forall a b, TraceId_eqb a b = true <-> a = b) /\
  (forall a b, LiveTraceId_eqb a b = true <-> a = b) /\
  (forall a, u64 (lid_pc a) -> u64 (lid_code_version a) -> u64 (hash_LiveTraceId a)) /\
  (forall p q v w, hash_LiveTraceId (MkLiveTraceId p v) = hash_LiveTraceId (MkLiveTraceId q w) -> p = q <-> v = w).
Proof.
  split_and!.
  - intros [p v] [q w]. unfold TraceId_eqb. cbn. rewrite andb_true_iff, !Z.eqb_eq. split; [by intros [-> ->]|by intros [= -> ->]].
  - intros [p v] [q w]. unfold LiveTraceId_eqb. cbn. rewrite andb_true_iff, !Z.eqb_eq. split; [by intros [-> ->]|by intros [= -> ->]].
  - intros [p v]. unfold hash_LiveTraceId, u64. cbn. intros [Hp1 Hp2] [Hv1 Hv2]. split; [by apply Z.lxor_nonneg|].
    change two64 with (2 ^ 64) in *. destruct (decide (Z.lxor p v = 0)) as [->|Hne]; [done|].
    apply Z.log2_lt_pow2; [pose proof (proj2 (Z.lxor_nonneg p v)); lia|].
    eapply Z.le_lt_trans; [by apply Z.log2_lxor|]. apply Z.max_lub_lt.
    + destruct (decide (p = 0)) as [->|]; [done|]. apply Z.log2_lt_pow2; lia.
    + destruct (decide (v = 0)) as [->|]; [done|]. apply Z.log2_lt_pow2; lia.
  - intros p q v w H. unfold hash_LiveTraceId in H. cbn in H. split; intros ->.
    + apply (f_equal (Z.lxor q)) in H. by rewrite <-!Z.lxor_assoc, Z.lxor_nilpotent, !Z.lxor_0_l in H.
    + apply (f_equal (fun x => Z.lxor x w)) in H. by rewrite !Z.lxor_assoc, Z.lxor_nilpotent, !Z.lxor_0_r in H.
Qed.

(** ** Names of lifted functions *)

(** [std::hex]: no leading zeros. *)
Definition stream_hex (v : Z) : string := hex_digits (S (Z.to_nat (Z.log2 v / 4))) v.
Definition LiftedFunctionName (pc : Z) : string := String (ch 95) (stream_hex pc).

Lemma stream_hex_inj v w : 0 <= v -> 0 <= w -> stream_hex v = stream_hex w -> v = w.
Proof.
  intros Hv Hw He.
  assert (Hs : forall x, 0 <= x -> scan_digits 16 0 (stream_hex x) = (x, "")).
  { intros x Hx. unfold stream_hex. pose proof (scan_hex_digits (S (Z.to_nat (Z.log2 x / 4))) x 0 "" Hx I) as H.
    pose proof (hex_width 0 x Hx) as Hwd. cbn [Nat.max] in Hwd. rewrite Z.mod_small in H by lia.
    assert (Happ : forall s, s +:+ "" = s) by (induction s as [|c s IH]; [done|]; rewrite string_app_cons; by rewrite IH).
    by rewrite Happ in H. }
  pose proof (Hs v Hv) as H1. rewrite He, (Hs w Hw) in H1. congruence.
Qed.

(** Functions lifted from different addresses have different names; the
    contents of memory play no part. *)
Theorem lifted_names_distinct pcs : Forall u64 pcs -> NoDup pcs -> NoDup (LiftedFunctionName <$> pcs).
Proof.
  intros Hu Hn. apply NoDup_fmap_2_strong; [|done]. intros v w Hv Hw He. rewrite Forall_forall in Hu.
  apply stream_hex_inj; [apply Hu in Hv as []; done|apply Hu in Hw as []; done|]. by apply string_cons_inj in He.
Qed.

(** ** Timers *)

(** The number of ticks [clock()] returned; [CLOCKS_PER_SECOND] is not the
    name of the standard's macro, so the default applies. *)
Record Timer := MkTimer { begin_ : Z }.
Definition CLOCKS_PER_SECOND : Z := 1000000.

(** [ElapsedSeconds], with exact fractions for [double]. *)
Definition ElapsedSeconds (t : Timer) (end_ : Z) : Q :=
  let diff := end_ - begin_ t in
  (inject_Z (Z.quot diff CLOCKS_PER_SECOND) + inject_Z (Z.rem diff CLOCKS_PER_SECOND) / inject_Z CLOCKS_PER_SECOND)%Q.

(** Splitting off the whole seconds loses nothing, also for a clock that went
    backwards. *)
Theorem ElapsedSeconds_exact t end_ : (ElapsedSeconds t end_ == inject_Z (end_ - begin_ t) / inject_Z CLOCKS_PER_SECOND)%Q.
Proof.
  unfold ElapsedSeconds. set (d := end_ - begin_ t). rewrite (Z.quot_rem' d CLOCKS_PER_SECOND) at 3.
  rewrite inject_Z_plus, inject_Z_mult. field. unfold CLOCKS_PER_SECOND. intros Hz. by vm_compute in Hz.
Qed.

From Stdlib Require Import Ascii.
(** ** The register log

    [vmill/Arch/X86/Log.cpp], [vmill/Arch/AArch64/Log.cpp] and
    [vmill/Arch/Arch.cpp]: the text that describes the registers of a task
    that failed.  A register file maps names to values; where a register is
    stored is a parameter, as text. *)

Module RegisterLog.
Definition endl : string := String (ch 10) "".

Section log.
(** The address a register is printed with. *)
Context (address : string -> string).

(** [std::hex << std::setw(digits) << std::setfill('0')] of a value of that
    many digits, in [LogGPR32], [LogGPR64] and [LogGPR]. *)
Definition LogGPR (digits : nat) (name : string) (value : Z) : string :=
  "  " +:+ (name +:+ (" " +:+ (hex_digits digits (value mod 16 ^ Z.of_nat digits) +:+ (" at " +:+ (address name +:+ endl))))).

Definition log_registers (digits : nat) (names : list (string * string)) (reg : string -> Z) : string :=
  "Register state:" +:+ (endl +:+ foldr (fun '(r, name) s => LogGPR digits name (reg r) +:+ s) "" names).

(** Registers, with the names they are printed under. *)
Definition x86_names : list (string * string) :=
  [("rip", "EIP"); ("rsp", "ESP"); ("rbp", "EBP"); ("rax", "EAX"); ("rbx", "EBX"); ("rcx", "ECX"); ("rdx", "EDX");
   ("rsi", "ESI"); ("rdi", "EDI")].
Definition amd64_names : list (string * string) :=
  [("rip", "RIP"); ("rsp", "RSP"); ("rbp", "RBP"); ("rax", "RAX"); ("rbx", "RBX"); ("rcx", "RCX"); ("rdx", "RDX");
   ("rsi", "RSI"); ("rdi", "RDI"); ("r8", "R8"); ("r9", "R9"); ("r10", "R10"); ("r11", "R11"); ("r12", "R12");
   ("r13", "R13"); ("r14", "R14"); ("r15", "R15")].
Definition aarch64_names : list (string * string) :=
  [("pc", "PC"); ("sp", "SP"); ("x0", "X0"); ("x1", "X1"); ("x2", "X2"); ("x3", "X3"); ("x4", "X4"); ("x5", "X5");
   ("x6", "X6"); ("x7", "X7"); ("x8", "X8"); ("x9", "X9"); ("x10", "X10"); ("x11", "X11"); ("x12", "X12");
   ("x13", "X13"); ("x14", "X14"); ("x15", "X15"); ("x16", "X16"); ("x17", "X17"); ("x18", "X18"); ("x19", "X19");
   ("x20", "X20"); ("x21", "X21"); ("x22", "X22"); ("x23", "X23"); ("x24", "X24"); ("x25", "X25"); ("x26", "X26");
   ("x27", "X27"); ("x28", "X28"); ("x29", "X29"); ("x30", "X30")].

Definition LogX86RegisterState : (string -> Z) -> string := log_registers 8 x86_names.
Definition LogAMD64RegisterState : (string -> Z) -> string := log_registers 16 amd64_names.
Definition LogAArch64RegisterState : (string -> Z) -> string := log_registers 16 aarch64_names.

(** [LogRegisterState]: nothing for another architecture. *)
Inductive TargetArch := IsX86 | IsAMD64 | IsAArch64 | IsOther.
Definition LogRegisterState (arch : TargetArch) (reg : string -> Z) : string :=
  match arch with
  | IsX86 => LogX86RegisterState reg
  | IsAMD64 => LogAMD64RegisterState reg
  | IsAArch64 => LogAArch64RegisterState reg
  | IsOther => ""
  end.

(** ** A log shows every register *)

Lemma string_app_inv_l (p s t : string) : p +:+ s = p +:+ t -> s = t.
Proof. induction p as [|c p IH]; [done|]. rewrite !string_app_cons. intros H%string_cons_inj. auto. Qed.

Lemma hex_char_inj v w : 0 <= v < 16 -> 0 <= w < 16 -> hex_char v = hex_char w -> v = w.
Proof. intros Hv Hw H. pose proof (hex_char_value v Hv) as E. rewrite H, (hex_char_value w Hw) in E. congruence. Qed.

Lemma hex_digits_inj n v w s t :
  hex_digits n v +:+ s = hex_digits n w +:+ t -> v mod 16 ^ Z.of_nat n = w mod 16 ^ Z.of_nat n /\ s = t.
Proof.
  induction n as [|n IH]; intros H.
  - split; [|done]. change (Z.of_nat 0) with 0. by rewrite Z.pow_0_r, !Z.mod_1_r.
  - cbn [hex_digits] in H. rewrite !string_app_cons in H. injection H as Hc Hr. apply IH in Hr as [Hm Hr]. split; [|done].
    apply hex_char_inj in Hc; [|apply digit_mod..]. rewrite Nat2Z.inj_succ, Z.pow_succ_r by lia.
    rewrite (Z.mul_comm 16). rewrite !Z.rem_mul_r by lia. by rewrite Hm, Hc.
Qed.

Lemma LogGPR_inj digits name v w s t :
  LogGPR digits name v +:+ s = LogGPR digits name w +:+ t -> v mod 16 ^ Z.of_nat digits = w mod 16 ^ Z.of_nat digits /\ s = t.
Proof.
  unfold LogGPR. rewrite !string_app_assoc. intros H. do 3 apply string_app_inv_l in H.
  apply hex_digits_inj in H as [Hv H]. rewrite !Z.mod_mod in Hv by (apply Z.pow_nonzero; lia). split; [done|].
  by do 3 apply string_app_inv_l in H.
Qed.

Lemma log_registers_inj digits names reg1 reg2 :
  log_registers digits names reg1 = log_registers digits names reg2 ->
  forall r name, (r, name) ∈ names -> reg1 r mod 16 ^ Z.of_nat digits = reg2 r mod 16 ^ Z.of_nat digits.
Proof.
  unfold log_registers. intros H. do 2 apply string_app_inv_l in H. induction names as [|[r0 n0] names IH]; intros r name Hin.
  - by apply not_elem_of_nil in Hin.
  - cbn [foldr] in H. apply LogGPR_inj in H as [Hv H]. apply elem_of_cons in Hin as [[= -> ->]|Hin]; [done|by eapply IH].
Qed.

(** A log of a failed task shows every register it names: two register files
    with the same log agree on all of them, on x86 on their lower 32 bits. *)
Theorem LogRegisterState_shows arch reg1 reg2 :
  LogRegisterState arch reg1 = LogRegisterState arch reg2 ->
  match arch with
  | IsX86 => forall r name, (r, name) ∈ x86_names -> wrap32 (reg1 r) = wrap32 (reg2 r)
  | IsAMD64 => forall r name, (r, name) ∈ amd64_names -> wrap64 (reg1 r) = wrap64 (reg2 r)
  | IsAArch64 => forall r name, (r, name) ∈ aarch64_names -> wrap64 (reg1 r) = wrap64 (reg2 r)
  | IsOther => True
  end.
Proof.
  destruct arch; cbn [LogRegisterState]; intros H; try done.
  - exact (log_registers_inj 8 x86_names reg1 reg2 H).
  - exact (log_registers_inj 16 amd64_names reg1 reg2 H).
  - exact (log_registers_inj 16 aarch64_names reg1 reg2 H).
Qed.
End log.
End RegisterLog.
