(* ===== verification/TaintModule.v ===== *)
(** * Instrumenting a module for taint tracking

    Models the module level of [tools/TaintTracker/TaintTracker.cpp]:
    [PrepareModule], [InstrumentRuntime], [InstrumentTrace], the declarations
    of the tracker's functions ([GetFunc], [GetPureFunc]) and the visitor of
    address computations.  [TaintTracker] has the code that goes into a
    function; here the functions it calls are declared in the module, while the
    loop over the functions of the module goes on. *)

From S2P Require Import Prelude Fuzzer TaintSymbols TaintTracker Allocators AllocatorProps ShadowMemory DataFlow DataFlowProps.
Import CoverageTools.

(** ** Declarations *)

(** The types of [PrepareModule]. *)
Record TaintTypes := MkTaintTypes { taint_type : IRType; intptr_type : IRType; int32_type : IRType }.

Definition Taint_PrepareModule (num_bits pointer_bits : Z) : TaintTypes :=
  MkTaintTypes (IntTy num_bits) (IntTy pointer_bits) (IntTy 32).

(** The declared functions of a module, with the attribute [ReadNone]. *)
Record TaintDecls := MkTaintDecls { decls : gmap string FunctionType; readnone : gset string }.

(** [GetFunc]: the declarations and whether the result is the function itself
    (a name that is there with another type gives a cast of it). *)
Definition GetFunc (m : TaintDecls) (ret_type : IRType) (name : string) (arg_types : list IRType) : TaintDecls * bool :=
  let func_type := MkFunctionType ret_type arg_types in
  match decls m !! name with
  | Some ty => (m, bool_decide (ft_ret ty = ret_type /\ ft_args ty = arg_types))
  | None => (MkTaintDecls (<[name := func_type]> (decls m)) (readnone m), true)
  end.

Definition GetPureFunc (m : TaintDecls) (ret_type : IRType) (name : string) (arg_types : list IRType) : TaintDecls * bool :=
  let '(m, is_function) := GetFunc m ret_type name arg_types in
  if is_function then (MkTaintDecls (decls m) ({[name]} ∪ readnone m), true) else (m, false).

(** The functions that the visitors of loads, stores, allocas and operators
    ask for, at [bits] of the value; purity is theirs. *)
Section functions.
Context (ty : TaintTypes).

Definition load_func (m : TaintDecls) (bits : Z) : TaintDecls * bool :=
  GetPureFunc m (taint_type ty) (bits_name "load" bits) [taint_type ty; intptr_type ty].
Definition store_func (m : TaintDecls) (bits : Z) : TaintDecls * bool :=
  GetFunc m VoidTy (bits_name "store" bits) [taint_type ty; intptr_type ty; taint_type ty].
Definition local_func (m : TaintDecls) : TaintDecls * bool :=
  GetPureFunc m (taint_type ty) "__taint_local" [intptr_type ty; intptr_type ty].
Definition global_func (m : TaintDecls) : TaintDecls * bool :=
  GetPureFunc m (taint_type ty) "__taint_global" [intptr_type ty; intptr_type ty].
Definition binary_func (m : TaintDecls) (op type : string) : TaintDecls * bool :=
  GetPureFunc m (taint_type ty) (prefixed (op +:+ "_" +:+ type)) [taint_type ty; taint_type ty].
End functions.

(** [visitGetElementPtrInst], which [VisitFunction] never reaches, since all
    address computations were expanded: with constant indices that add up to
    nothing the taint is the base's, else there is none. *)
Definition visitGetElementPtrInst (b : builder) (d : Z) (base : Val) (accumulateConstantOffset : option Z) : builder :=
  match accumulateConstantOffset with
  | Some offset =>
      if negb (wrap64 offset =? 0) then set_taint b d AZero
      else let '(taint, b) := LoadTaint b base in set_taint b d taint
  | None => set_taint b d AZero
  end.

(** ** The functions of a module *)

(** A function without a body is a declaration; an instrumented body starts
    with the block "taints". *)
Inductive Body :=
| Plain (returns_void : bool) (args : list Z) (blocks : list (Z * list TInst))
| Instrumented (taints : list XInst) (blocks : list (Z * list XInst)).

Record TFunction := MkTFunction { tf_name : string; tf_body : option Body }.

(** The functions that inserted code calls, in order; the visitors ask for
    them in nearly that order, and only the order of the declarations depends
    on it. *)
Definition calls_of (code : list XInst) : list string :=
  omap (fun i => match i with XLet _ (ECall name _) => Some name | _ => None end) code.

Definition body_calls (b : Body) : list string :=
  match b with
  | Plain _ _ _ => []
  | Instrumented taints blocks => calls_of taints ++ concat ((fun bl : Z * list XInst => calls_of (snd bl)) <$> blocks)
  end.

(** [getOrInsertFunction] puts a new function at the end of the module. *)
Definition declare (fs : list TFunction) (name : string) : list TFunction :=
  if decide (name ∈ tf_name <$> fs) then fs else fs ++ [MkTFunction name None].

Section module.
Context (case_array : Z -> Z).

Definition instrumented (b : Body) : Body :=
  match b with
  | Plain returns_void args blocks =>
      let '(taints, blocks) := VisitFunction returns_void case_array args blocks in Instrumented taints blocks
  | Instrumented _ _ => b
  end.

(** [VisitFunction] on the function at an index; it asks for
    [__taint_load_arg] whether or not there are arguments. *)
Definition visit_function (fs : list TFunction) (i : nat) (f : TFunction) (b : Body) : list TFunction :=
  let b := instrumented b in
  foldl declare (<[i := MkTFunction (tf_name f) (Some b)]> fs) ("__taint_load_arg" :: body_calls b).

(** [VisitRuntimeFunction] and [VisitLiftedFunction], which must be given a
    body. *)
Definition VisitRuntimeFunction (fs : list TFunction) (i : nat) (f : TFunction) : list TFunction :=
  match tf_body f with None => fs | Some b => visit_function fs i f b end.
Definition VisitLiftedFunction (fs : list TFunction) (i : nat) : outcome (list TFunction) :=
  f ← deref_opt (fs !! i);
  match tf_body f with None => Fatal | Some b => Ok (visit_function fs i f b) end.

(** [InstrumentRuntime]: the loop follows the list of functions as it
    grows. *)
Fixpoint runtime_loop (fuel : nat) (fs : list TFunction) (i : nat) : outcome (list TFunction) :=
  match fs !! i with
  | None => Ok fs
  | Some f => match fuel with O => Diverges | S fuel => runtime_loop fuel (VisitRuntimeFunction fs i f) (S i) end
  end.

Definition Taint_InstrumentRuntime (fuel : nat) (fs : list TFunction) : outcome (bool * list TFunction) :=
  fs ← runtime_loop fuel fs 0; Ok (true, fs).

Definition Taint_InstrumentTrace (fs : list TFunction) (i : nat) : outcome (bool * list TFunction) :=
  fs ← VisitLiftedFunction fs i; Ok (true, fs).

(** ** The loop visits every function once and ends *)

Definition visited (f : TFunction) : TFunction := MkTFunction (tf_name f) (instrumented <$> tf_body f).

(** What visiting a function asks for. *)
Definition asks (f : TFunction) : list string :=
  match tf_body f with None => [] | Some b => "__taint_load_arg" :: body_calls (instrumented b) end.

(** The declarations that a list of names adds. *)
Fixpoint new_decls (known names : list string) : list string :=
  match names with
  | [] => []
  | n :: names => if decide (n ∈ known) then new_decls known names else n :: new_decls (known ++ [n]) names
  end.

Definition declarations (names : list string) : list TFunction := (fun n => MkTFunction n None) <$> names.

Lemma names_of_declarations names : tf_name <$> declarations names = names.
Proof. unfold declarations. rewrite <- list_fmap_compose. apply list_fmap_id. Qed.

Lemma foldl_declare fs names : foldl declare fs names = fs ++ declarations (new_decls (tf_name <$> fs) names).
Proof.
  revert fs. induction names as [|n names IH]; intros fs; cbn [foldl new_decls]; [by rewrite app_nil_r|].
  rewrite IH. unfold declare. destruct (decide (n ∈ tf_name <$> fs)) as [Hin|Hin]; [done|].
  rewrite fmap_app. cbn [fmap list_fmap tf_name]. rewrite <- app_assoc. done.
Qed.

Lemma new_decls_app known a b : new_decls known (a ++ b) = new_decls known a ++ new_decls (known ++ new_decls known a) b.
Proof.
  revert known. induction a as [|n a IH]; intros known; cbn [app new_decls]; [by rewrite app_nil_r|].
  case_decide; [apply IH|]. rewrite IH. cbn [app]. by rewrite <- app_assoc.
Qed.

Lemma new_decls_fresh known names : NoDup (new_decls known names) /\ forall n, n ∈ new_decls known names <-> n ∈ names /\ n ∉ known.
Proof.
  revert known. induction names as [|m names IH]; intros known; cbn [new_decls]; [split; [constructor|set_solver]|].
  case_decide as Hd.
  - destruct (IH known) as [Hn Hi]. split; [done|]. intros n. rewrite Hi. set_solver.
  - destruct (IH (known ++ [m])) as [Hn Hi]. split.
    + constructor; [|done]. rewrite Hi. set_solver.
    + intros n. specialize (Hi n). destruct (decide (n = m)) as [->|]; set_solver.
Qed.

(** Declarations at the end are passed by. *)
Lemma runtime_loop_declarations fuel fs names :
  (length names <= fuel)%nat -> runtime_loop fuel (fs ++ declarations names) (length fs) = Ok (fs ++ declarations names).
Proof.
  revert fs fuel. induction names as [|n names IH]; intros fs fuel Hf.
  - replace (runtime_loop fuel _ _) with (match (fs ++ declarations []) !! length fs with
      | None => Ok (fs ++ declarations [])
      | Some f => match fuel with O => Diverges | S fuel => runtime_loop fuel (VisitRuntimeFunction (fs ++ declarations []) (length fs) f) (S (length fs)) end
      end) by (by destruct fuel). cbn [declarations fmap list_fmap]. rewrite app_nil_r, lookup_ge_None_2 by lia. done.
  - destruct fuel as [|fuel]; [cbn in Hf; lia|]. cbn [runtime_loop declarations fmap list_fmap].
    rewrite list_lookup_middle by done. unfold VisitRuntimeFunction. cbn [tf_body].
    specialize (IH (fs ++ [MkTFunction n None]) fuel ltac:(cbn in Hf; lia)).
    rewrite <- app_assoc in IH. cbn [app] in IH. rewrite length_app, Nat.add_comm in IH. exact IH.
Qed.

Lemma runtime_loop_functions fuel done_fs todo extra :
  (length todo + length extra + length (concat (asks <$> todo)) <= fuel)%nat ->
  runtime_loop fuel (done_fs ++ todo ++ declarations extra) (length done_fs) =
    Ok (done_fs ++ (visited <$> todo) ++
        declarations (extra ++ new_decls (tf_name <$> done_fs ++ todo ++ declarations extra) (concat (asks <$> todo)))).
Proof.
  revert fuel done_fs extra. induction todo as [|f todo IH]; intros fuel done_fs extra Hf.
  { cbn [fmap list_fmap concat app new_decls]. rewrite app_nil_r. cbn in Hf. apply runtime_loop_declarations. lia. }
  destruct fuel as [|fuel]; [cbn in Hf; lia|]. cbn [runtime_loop app]. rewrite list_lookup_middle by done.
  cbn [fmap list_fmap concat] in Hf. rewrite length_app in Hf. cbn [length] in Hf.
  assert (Hstep : VisitRuntimeFunction (done_fs ++ f :: todo ++ declarations extra) (length done_fs) f =
    (done_fs ++ [visited f]) ++ todo ++ declarations (extra ++ new_decls (tf_name <$> done_fs ++ f :: todo ++ declarations extra) (asks f))).
  { unfold VisitRuntimeFunction, visited, asks. destruct f as [name [b|]]; cbn [tf_body tf_name fmap option_fmap option_map].
    - unfold visit_function. cbn [tf_name].
      assert (Hins : forall x y rest, <[length done_fs := y]> (done_fs ++ x :: rest) = done_fs ++ y :: rest :> list TFunction).
      { intros x y rest. rewrite insert_app_r_alt by lia. by rewrite Nat.sub_diag. }
      rewrite Hins, foldl_declare, <- !app_assoc. cbn [app]. do 2 f_equal. rewrite <- app_assoc. f_equal.
      unfold declarations. rewrite (fmap_app _ extra). do 2 f_equal. by rewrite !fmap_app, !fmap_cons.
    - cbn [new_decls]. rewrite app_nil_r, <- app_assoc. done. }
  rewrite Hstep. clear Hstep. set (nd := new_decls _ (asks f)).
  assert (Hnd : (length nd <= length (asks f))%nat).
  { subst nd. generalize (tf_name <$> done_fs ++ f :: todo ++ declarations extra). generalize (asks f).
    intros names. induction names as [|n names IHn]; intros known; cbn [new_decls]; [done|].
    case_decide; cbn [length]; [specialize (IHn known)|specialize (IHn (known ++ [n]))]; lia. }
  replace (S (length done_fs)) with (length (done_fs ++ [visited f])) by (rewrite length_app; cbn; lia).
  rewrite IH by (rewrite length_app; lia). apply f_equal. rewrite <- !app_assoc. apply f_equal.
  rewrite (fmap_cons visited), (fmap_cons asks). cbn [concat app]. apply f_equal, f_equal, f_equal, f_equal.
  rewrite new_decls_app. fold nd. apply f_equal, (f_equal (fun known => new_decls known _)).
  unfold declarations. rewrite !fmap_app, !fmap_cons, !fmap_app. cbn [visited tf_name].
  rewrite <- (list_fmap_compose _ tf_name nd). change (tf_name ∘ (fun n => MkTFunction n None)) with (@id string).
  rewrite list_fmap_id, <- !app_assoc. cbn [app]. by rewrite <- !app_assoc.
Qed.

(** Instrumenting the runtime returns, although every function it visits
    adds declarations to the list it walks over: each function with a body is
    instrumented once, and the module gains exactly the functions asked for
    that it did not have, once each and without bodies. *)
Theorem InstrumentRuntime_visits fs :
  exists names, (forall fuel, (length fs + length (concat (asks <$> fs)) <= fuel)%nat ->
      Taint_InstrumentRuntime fuel fs = Ok (true, (visited <$> fs) ++ declarations names)) /\
    NoDup names /\ (forall n, n ∈ names <-> n ∈ concat (asks <$> fs) /\ n ∉ tf_name <$> fs).
Proof.
  exists (new_decls (tf_name <$> fs) (concat (asks <$> fs))). split; [|apply new_decls_fresh].
  intros fuel Hf. unfold Taint_InstrumentRuntime.
  pose proof (runtime_loop_functions fuel [] fs []) as H. cbn [app length declarations fmap list_fmap] in H.
  rewrite app_nil_r in H. rewrite H by lia. done.
Qed.

(** Instrumenting a trace touches its function only; a declaration stops the
    process. *)
Lemma InstrumentTrace_visits fs i f :
  fs !! i = Some f ->
  Taint_InstrumentTrace fs i =
    match tf_body f with
    | None => Fatal
    | Some _ => Ok (true, <[i := visited f]> fs ++ declarations (new_decls (tf_name <$> fs) (asks f)))
    end.
Proof.
  intros Hi. unfold Taint_InstrumentTrace, VisitLiftedFunction, visited, asks. rewrite Hi. cbn [deref_opt mbind outcome_bind].
  destruct (tf_body f) as [b|]; [|done]. cbn [fmap option_fmap option_map mbind outcome_bind]. unfold visit_function.
  rewrite foldl_declare, list_fmap_insert. cbn [tf_name]. do 4 f_equal. rewrite list_insert_id; [done|]. by rewrite list_lookup_fmap, Hi.
Qed.
End module.

(** ** Purity *)

(** A pure function that is new to the module is declared with its type and
    marked. *)
Lemma GetPureFunc_marks m ret name args :
  decls m !! name = None ->
  let '(m', is_function) := GetPureFunc m ret name args in
  is_function = true /\ decls m' !! name = Some (MkFunctionType ret args) /\ name ∈ readnone m' /\
  (forall n, n <> name -> decls m' !! n = decls m !! n /\ (n ∈ readnone m' <-> n ∈ readnone m)).
Proof.
  intros Hn. unfold GetPureFunc, GetFunc. rewrite Hn. cbn. split; [done|]. split; [by rewrite lookup_insert_eq|]. split; [set_solver|].
  intros n Hne. rewrite lookup_insert_ne by done. set_solver.
Qed.

(** Code may be moved and merged as if a marked function depended on its
    arguments only; but the function that loads a taint reads what the function
    that stores a taint writes, and a tainted operator gives out a new
    identity at every call. *)
Lemma load_taint_depends_on_memory k d at1 at2 addr t t' :
  ready (shadow_memory d) -> shadow_base (shadow_memory d) <= addr -> 0 <= addr -> addr + Z.of_nat k <= two64 ->
  (0 < k <= 128)%nat -> is_tainted t = true -> is_tainted t' = true -> val t <> val t' ->
  exists d1 d2 r r' e e', TaintStore demo_mmap [204] k d at1 addr t = Ok d1 /\ TaintStore demo_mmap [204] k d at1 addr t' = Ok d2 /\
    TaintLoad demo_mmap [204] k d1 at2 addr = Ok (r, e) /\ TaintLoad demo_mmap [204] k d2 at2 addr = Ok (r', e') /\ r <> r'.
Proof.
  intros Hr Hb H0 Hlt Hk Ht Ht' Hne.
  destruct (taint_identity_roundtrip demo_mmap [204] demo_mmap_nonnull demo_mmap_any demo_mmap_fixed bp_nonempty_204 k d at1 at2 addr t)
    as (d1 & e1 & H1 & L1 & _); [done..|].
  destruct (taint_identity_roundtrip demo_mmap [204] demo_mmap_nonnull demo_mmap_any demo_mmap_fixed bp_nonempty_204 k d at1 at2 addr t')
    as (d2 & e2 & H2 & L2 & _); [done..|].
  exists d1, d2, (set_val 0 (val t)), (set_val 0 (val t')), e1, e2. repeat (split; [done|]).
  intros Heq. apply (f_equal val) in Heq. by rewrite !val_set_val, !val_range in Heq.
Qed.

Lemma binary_taint_depends_on_history d lhs rhs :
  Z.land 1 (Z.lor lhs rhs) <> 0 -> 0 <= gId d < 2 ^ 48 - 1 ->
  fst (TaintBinary d lhs rhs) <> fst (TaintBinary (snd (TaintBinary d lhs rhs)) lhs rhs).
Proof.
  intros Ht Hid. unfold TaintBinary. apply Z.eqb_neq in Ht. rewrite Ht. cbn. intros Heq. apply (f_equal val) in Heq.
  rewrite !val_set_val, !Z.land_ones, (Z.mod_small (gId d)) in Heq by lia.
  rewrite add64_small in Heq by (unfold two64; lia). rewrite Z.mod_small in Heq by lia. lia.
Qed.
